(* ===== verification/_CoqProject ===== *)
-Q . S2P
Prelude.v
Cabinet.v
Base64.v
Checks.v
Md5.v
Aes.v
Buffer.v
Serializer.v
ScalableInteger.v
Strings.v
Url.v
Http.v
HttpServer.v
StateMachine.v
EventLoop.v
Timers.v
Monitor.v
Jsonrpc.v
Rpc.v
Dns.v
ThreadPool.v
Alarm.v
Action.v
ActionSem.v
ActionSafe.v
Executor.v
Keys.v
Cmdline.v
Nodes.v
Terminal.v
Coroutine.v
AsyncPipe.v
BufferedFd.v
Telnet.v
