(* ===== verification/Prelude.v ===== *)
(** * A verification library for cpp-tbox

    This library models the core of cpp-tbox, a C++ framework of services around
    an event loop, and proves the properties its components rely on.  All source
    paths are below [src/].

    ** The program and the files

    - base: [Cabinet.v] is the object store with tokens ([modules/base/cabinet.hpp],
      [cabinet_token.h]) that the timers, the thread pool and the TCP server give
      out as weak handles.  Its clients see the type class [TokenStore] only.
    - util: [Base64.v], [Checks.v] (CRC-16, CRC-32, checksums), [Buffer.v],
      [Serializer.v], [ScalableInteger.v], [Strings.v] ([std::string] and
      [util/string.cpp]), [Cmdline.v] ([split_cmdline.cpp]), [AsyncPipe.v] (the pipe
      between threads); crypto: [Md5.v], [Aes.v].
    - event: [EventLoop.v] is the queues of posted tasks ([common_loop_run.cpp]
      and the turn of the loop); [Timers.v] is the timers of the loop and the
      timer event, over the interfaces [HeapOps] (the heap algorithms of the
      standard library) and [TokenStore].
    - eventx: [ThreadPool.v] is the pool of worker threads; [Monitor.v] the
      timeout monitor and the request pool over it, with the class [HasMonitor] for
      the objects that contain monitors.
    - alarm: [Alarm.v] is the alarms with their calendar, over a clock and one timer.
    - flow: [StateMachine.v] is the hierarchical state machine; [Action.v] the
      action trees, as a store of actions and the callbacks they post to the loop,
      [ActionSem.v] their meaning as structured programs, [ActionSafe.v] their
      safety; [Executor.v] is the executor by priority, over the interface
      [ActionOps] with the laws [ActionLaws], which the actions are proved to
      implement.
    - http: [Url.v]; [Http.v] with the enumerations, requests, responds and the
      incremental parser; [HttpServer.v] with the connections, the contexts and
      the router, over the parser.
    - jsonrpc: [Jsonrpc.v] is the messages and the framings, behind the class
      [StreamProto]; [Rpc.v] the calls with their timeouts, over two monitors.
    - network: [Dns.v] is the DNS requests, over a monitor and the deserializer;
      [BufferedFd.v] sends and receives on a descriptor, over the buffers.
    - terminal: [Keys.v] is the scanner of keys, [Nodes.v] the directories and
      functions that a user can reach, [Terminal.v] the sessions with their line
      editor, history and commands, over the three of them, [Strings.v] and
      [Cmdline.v]; [Telnet.v] the service that connects telnet clients to sessions.
    - coroutine: [Coroutine.v] is the scheduler with its mutex, semaphore, channel,
      condition and broadcast, over [TokenStore].

    This file has what they share: machine words, lists as arrays, the state and
    error monad, the tactics and hints.

    ** How the code is represented

    An unsigned integer of width [w] is a [Z] that every store reduces with
    [wrap w]; [to_signed] reads it as signed.  A byte is a [Z]; a string a list of
    character codes.  Memory that the code indexes is a list, and an access out of
    its bounds is [None] or [Stuck], as are null pointers that are dereferenced,
    failing assertions and exceptions that leave a function ([Http.v] keeps these
    apart as [Throw]).  Where the outcome depends on the implementation of the standard
    library, that is a parameter: whether a call that a jsonrpc callback makes rehashes the
    map that is being used ([grows] in [Rpc.v]), and what the command [tree] of the
    terminal finds when it reads a vector that was destroyed ([dead_is_empty] of the
    class [Platform] in [Terminal.v]).  Objects that refer to each other by pointers live in a
    store ([gmap] or list) under their number.  Code with state is in the monad [M]
    of [outcome]s; [OutOfFuel] is the outcome of a loop or recursion whose fuel
    does not suffice, and it is never the result of a theorem: each theorem about a
    function with fuel says which fuel is enough, or that there is enough
    ([eventually], for the replies of DNS servers and the commands of the terminal): the length of the data for
    the loops over strings and queues, the depth of the tree for calls down an action
    tree, the number of firings until now for the expired timers, the number of
    queued actions for the executor.  The functions of a user are numbers, and what
    they do is a parameter: a table or a program of calls that may depend on all that
    happened before.  Where threads interleave, a theorem ranges over the sequences
    of their steps; what a thread does under a mutex is one step, except for waiting.
    The code of a coroutine is likewise any sequence of calls, and a coroutine that was
    switched away keeps the point in the call where it goes on.

    ** What is proved

    - Refinement of an abstract specification: the cabinet is a finite map from
      tokens that are never reused ([cabinet_refines_map],
      [freed_token_stays_invalid]); the buffer is a queue of bytes
      ([buffer_is_queue]); expired timers fire in the order of their times like an
      abstract map of timers ([expired_timers_fire]); trees of serial actions
      compute their program ([flow_runs_program], [flow_runs_again]); the executor
      runs the front of the highest non-empty deque ([executor_runs_by_priority]);
      the HTTP server answers in the order of the requests ([responds_in_order]);
      requests of the request pool, of jsonrpc and of DNS are settled as their
      history demands, once ([requests_settled_once], [requests_answered_once],
      [dns_requests_settled]); the terminal edits its line like a plain editor, and
      the screen of the user shows it ([screen_shows_input]).
    - Accounting and progress: every task posted to the loop is executed, cancelled
      or still queued, whatever tasks and threads do ([tasks_accounted],
      [cancel_prevents], [next_round_is_batch]); the same for the thread pool under
      all interleavings ([pool_accounts_for_tasks]), which comes to rest with all
      tasks executed when it does not shrink ([pool_drains]); the pipe between threads
      loses and reorders nothing ([bytes_accounted]), and what waits for it goes on
      ([appends_and_cleanup_end]); a buffered descriptor is a queue of bytes in both
      directions ([streams_preserved]) and sends all it accepted
      ([sending_completes]); an alarm is set for
      the first time that its settings allow, and again when it went off
      ([next_time_is_first], [expired_alarm_is_rearmed]); the command [tree] of the
      terminal reads a destroyed vector, and where it finds it empty the drawing ends, cycles
      or not, and is the recursive one ([tree_draws]); so ends what a line of input
      executes ([enter_ends]).
    - Safety and well-formedness: nested state machines and action forests never
      follow a bad pointer or recurse without end ([machines_never_crash],
      [flow_never_crashes]); re-entrant calls are refused
      ([reentrant_calls_refused]); the timers stay well formed
      ([timers_well_formed]); alarms are never reached after their end
      ([alarms_never_dangle]); telnet clients and sessions correspond one to one,
      unless a window size is read past the end of the data ([sessions_stay_matched]); whatever coroutines do, a ready one is in a queue that
      will be worked through ([ready_routines_run]), and mutex, semaphore and channel
      account for what happened ([primitives_account]).
    - Round trips and equivalence with a reference: base64 against RFC 4648, the
      table-driven CRCs against the bit-serial ones, MD5 against RFC 1321 and AES
      against FIPS 197, checksums, the serializer, the scalable integers (with
      minimal length and uniqueness), splitting and joining, hexadecimal text, URLs,
      HTTP requests; parsing a request in pieces gives what parsing it at once gives,
      except where a piece ends inside the method or a request has no length
      ([parse_chunks], [parse_returns]), and so for the messages of jsonrpc
      ([messages_arrive], [FindEndPos_finds_end]), and for what a telnet client sends
      ([commands_arrive]); DNS replies are understood
      ([reply_is_understood], [query_names_domain]); keys, command lines and paths
      of the terminal ([scanner_table], [keys_recognised], [split_reads_once],
      [pwd_finds_back], [mounted_is_found]).
    - Where the code falls short, a theorem shows it on the model:
      [decode_area], [self_pointer_hangs], [pool_can_hang], [checkSize_wraps],
      [parse_reads_past_table], [stranded_by_unrouted_termination],
      [parallel_pause_loses_child], [cancel_leaves_stale_index],
      [zero_interval_spins], and examples next to the definitions concerned.

    ** Not modelled

    System calls and what only wraps them (sockets, files, processes, signals, the
    waiting of epoll and select, the services that connect a terminal to TCP and the
    console, the stacks of the coroutines), the libraries the code calls
    (ccronexpr, libmosquitto, libdbus; of nlohmann json the type of values is
    modelled, its text is a parameter), process start-up and configuration (variables,
    arguments, loaders of JSON files), the work thread and the timer pool (thin clients
    of what is modelled), logging and tracing, examples.  Allocation does not fail.
    Log messages, labels and JSON dumps of the modelled classes are left out. *)
From Stdlib Require Export ZArith Lia.
From stdpp Require Export base tactics numbers list list_numbers gmap strings.

#[global] Set Default Goal Selector "!".
Open Scope Z_scope.

Declare Scope tbox_scope.
Delimit Scope tbox_scope with tbox.
Open Scope tbox_scope.

(** ** Machine words

    An unsigned [w]-bit integer of the C++ code is a [Z] in [0, 2^w); every
    arithmetic result that the code stores in such a variable is reduced with
    [wrap w]. *)

Definition wrap (w x : Z) : Z := x mod 2 ^ w.

Notation u8 := (wrap 8).
Notation u16 := (wrap 16).
Notation u32 := (wrap 32).
Notation u64 := (wrap 64).

Definition in_range (w x : Z) : Prop := 0 <= x < 2 ^ w.

(** [std::numeric_limits<size_t>::max()], also [std::string::npos]. *)
Definition SIZE_MAX : Z := 2 ^ 64 - 1.

(** [std::numeric_limits<int>::max()]. *)
Definition INT_MAX : Z := 2 ^ 31 - 1.

(** ** Bytes and characters

    A byte or a character is its code, a [Z] in [0, 256); a buffer, a
    [std::vector<uint8_t>] or a [std::string] is a list of codes.  [str]
    writes a literal. *)

Definition is_byte (b : Z) : Prop := 0 <= b < 256.
Notation are_bytes := (Forall is_byte).

Definition chr (a : Ascii.ascii) : Z := Z.of_N (Ascii.N_of_ascii a).

Fixpoint str (s : string) : list Z :=
  match s with
  | EmptyString => []
  | String a s' => chr a :: str s'
  end.

#[global] Arguments Z.eqb !x !y.
#[global] Arguments Z.ltb !x !y.
#[global] Arguments Z.leb !x !y.
#[global] Arguments Z.land : simpl never.
#[global] Arguments Z.lor : simpl never.
#[global] Arguments Z.lxor : simpl never.
#[global] Arguments Z.lnot : simpl never.
#[global] Arguments Z.shiftl : simpl never.
#[global] Arguments Z.shiftr : simpl never.
#[global] Arguments Z.testbit : simpl never.
#[global] Arguments wrap : simpl never.
#[global] Arguments Nat.ltb !n !m.

(** ** Words as arithmetic

    Shifts and masks are read as multiplication, division and remainder, and
    an [or] of disjoint fields as a sum, so that [lia] can finish. *)

Lemma wrap_range w x : 0 <= w -> in_range w (wrap w x).
Proof. intros. unfold wrap, in_range. apply Z.mod_pos_bound. lia. Qed.

Lemma wrap_small w x : in_range w x -> wrap w x = x.
Proof. unfold wrap, in_range. apply Z.mod_small. Qed.

Lemma wrap_wrap w x : 0 <= w -> wrap w (wrap w x) = wrap w x.
Proof. intros. apply wrap_small. by apply wrap_range. Qed.

Lemma byte_wrap x : is_byte (u8 x).
Proof. apply (wrap_range 8). lia. Qed.

Lemma shl_mul a k : 0 <= k -> Z.shiftl a k = a * 2 ^ k.
Proof. apply Z.shiftl_mul_pow2. Qed.

Lemma shr_div a k : 0 <= k -> Z.shiftr a k = a / 2 ^ k.
Proof. apply Z.shiftr_div_pow2. Qed.

Lemma land_mask a m k : 0 <= k -> m = Z.ones k -> Z.land a m = a mod 2 ^ k.
Proof. intros Hk ->. by apply Z.land_ones. Qed.

Lemma lor_fields a b k : 0 <= k -> 0 <= b < 2 ^ k -> Z.lor (a * 2 ^ k) b = a * 2 ^ k + b.
Proof.
  intros Hk Hb. symmetry. rewrite <- Z.shiftl_mul_pow2 by done.
  rewrite <- Z.add_lor_land.
  assert (Z.land (Z.shiftl a k) b = 0) as ->; [|lia].
  apply Z.bits_inj'. intros n Hn. rewrite Z.land_spec, Z.bits_0.
  destruct (Z.lt_ge_cases n k) as [Hlt|Hge].
  - by rewrite Z.shiftl_spec_low.
  - rewrite <- (Z.mod_small b (2 ^ k)) by done.
    rewrite Z.mod_pow2_bits_high by lia. by rewrite andb_false_r.
Qed.

Lemma lor_fields' a b k m : 0 <= k -> m = 2 ^ k -> 0 <= b < 2 ^ k -> Z.lor (a * m) b = a * m + b.
Proof. intros ? -> ?. by apply lor_fields. Qed.

(** A finite check over all bytes. *)
Lemma byte_forallb (f : Z -> bool) :
  forallb f (seqZ 0 256) = true -> forall b, is_byte b -> f b = true.
Proof.
  intros H b Hb. rewrite forallb_forall in H. apply H.
  apply list_elem_of_In, elem_of_seqZ. unfold is_byte in Hb. lia.
Qed.

Lemma range_forallb (n : Z) (f : Z -> bool) :
  forallb f (seqZ 0 n) = true -> forall b, 0 <= b < n -> f b = true.
Proof.
  intros H b Hb. rewrite forallb_forall in H. apply H.
  apply list_elem_of_In, elem_of_seqZ. lia.
Qed.

(** [tbl[i]] on a constant table; [None] is an access out of bounds. *)
Definition index {A} (tbl : list A) (i : Z) : option A :=
  if i <? 0 then None else tbl !! Z.to_nat i.

#[global] Arguments index : simpl never.

Lemma index_nonneg {A} (tbl : list A) i : 0 <= i -> index tbl i = tbl !! Z.to_nat i.
Proof. intros. unfold index. destruct (Z.ltb_spec i 0); [lia|done]. Qed.

(** Linear arithmetic with division and remainder by constants. *)
Ltac dlia := Z.to_euclidean_division_equations; lia.

Lemma list_ind3 {A} (P : list A -> Prop) :
  P [] -> (forall a, P [a]) -> (forall a b, P [a; b]) ->
  (forall a b c l, P l -> P (a :: b :: c :: l)) -> forall l, P l.
Proof.
  intros H0 H1 H2 H3. fix IH 1. intros [|a [|b [|c l]]]; [done|apply H1|apply H2|].
  apply H3, IH.
Qed.

(** ** Bitwise reasoning

    [zbits] proves an equation between words bit by bit, splitting on the
    positions that the shifts and masks compare with. *)

Create Rewrite HintDb zbool.
#[export] Hint Rewrite xorb_false_l xorb_false_r andb_false_l andb_false_r andb_true_l
  andb_true_r orb_false_l orb_false_r : zbool.

Ltac zbits_step :=
  match goal with
  | |- context [Z.testbit (Z.lxor ?a ?b) ?n] => rewrite (Z.lxor_spec a b n)
  | |- context [Z.testbit (Z.land ?a ?b) ?n] => rewrite (Z.land_spec a b n)
  | |- context [Z.testbit (Z.lor ?a ?b) ?n] => rewrite (Z.lor_spec a b n)
  | |- context [Z.testbit 0 ?n] => rewrite (Z.bits_0 n)
  | |- context [Z.testbit ?a ?n] => rewrite (Z.testbit_neg_r a n) by lia
  | |- context [Z.testbit (Z.shiftr ?a ?k) ?n] => rewrite (Z.shiftr_spec a k n) by lia
  | |- context [Z.testbit (Z.shiftl ?a ?k) ?n] => rewrite (Z.shiftl_spec a k n) by lia
  | |- context [Z.testbit (Z.ones ?k) ?n] => rewrite (Z.ones_spec_low k n) by lia
  | |- context [Z.testbit (Z.ones ?k) ?n] => rewrite (Z.ones_spec_high k n) by lia
  | |- context [Z.testbit _ (?a - ?b)] =>
      tryif (assert (0 <= a - b) by lia) then fail else destruct (Z.lt_ge_cases a b)
  | |- context [Z.testbit (Z.ones ?k) ?n] => destruct (Z.lt_ge_cases n k)
  end.

Ltac zbits_norm :=
  repeat match goal with
  | |- context [?a - ?b + ?b] => replace (a - b + b) with a by lia
  | |- context [?a + ?b - ?b] => replace (a + b - b) with a by lia
  end.

Ltac zbits_core := repeat zbits_step; zbits_norm; autorewrite with zbool.

Ltac zbits :=
  apply Z.bits_inj'; let n := fresh "n" in let Hn := fresh "Hn" in intros n Hn;
  zbits_core; try reflexivity;
  repeat match goal with |- context [Z.testbit ?x ?i] => destruct (Z.testbit x i) end;
  try reflexivity.

Lemma lxor_split x k : 0 <= k ->
  x = Z.lxor (Z.shiftl (Z.shiftr x k) k) (Z.land x (Z.ones k)).
Proof. intros Hk. zbits. Qed.

Lemma wrap_land w x : 0 <= w -> wrap w x = Z.land x (Z.ones w).
Proof. intros. unfold wrap. by rewrite Z.land_ones. Qed.

Lemma high_bits w x n : in_range w x -> 0 <= w <= n -> Z.testbit x n = false.
Proof.
  intros Hx Hn. unfold in_range in Hx. rewrite <- (Z.mod_small x (2 ^ w)) by done.
  apply Z.mod_pow2_bits_high. lia.
Qed.

Lemma in_range_bits w x : 0 <= w -> 0 <= x -> (forall n, w <= n -> Z.testbit x n = false) ->
  in_range w x.
Proof.
  intros Hw Hx H. unfold in_range. split; [done|].
  destruct (Z.eq_dec x 0) as [->|]; [apply Z.pow_pos_nonneg; lia|].
  apply Z.log2_lt_pow2; [lia|]. apply Z.nle_gt. intros Hle.
  assert (Z.testbit x (Z.log2 x) = true) by (apply Z.bit_log2; lia).
  rewrite H in *; [done|lia].
Qed.

Lemma lxor_range w x y : 0 <= w -> in_range w x -> in_range w y -> in_range w (Z.lxor x y).
Proof.
  intros Hw Hx Hy. apply in_range_bits; [done|apply Z.lxor_nonneg; unfold in_range in *; lia|].
  intros n Hn. by rewrite Z.lxor_spec, (high_bits w x), (high_bits w y) by (done || lia).
Qed.


(** ** Memory areas

    [set_at] writes one cell, [blit] copies a block, [slice] reads a block;
    [None] is an access outside the area. *)

Definition set_at {A} (a : list A) (i : Z) (v : A) : option (list A) :=
  if (0 <=? i) && (i <? Z.of_nat (length a)) then Some (<[Z.to_nat i := v]> a) else None.

Definition blit {A} (a : list A) (off : Z) (d : list A) : option (list A) :=
  if (0 <=? off) && (off + Z.of_nat (length d) <=? Z.of_nat (length a))
  then Some (take (Z.to_nat off) a ++ d ++ drop (Z.to_nat off + length d) a) else None.

Definition slice {A} (a : list A) (off n : Z) : option (list A) :=
  if (0 <=? off) && (0 <=? n) && (off + n <=? Z.of_nat (length a))
  then Some (take (Z.to_nat n) (drop (Z.to_nat off) a)) else None.

#[global] Arguments set_at : simpl never.
#[global] Arguments blit : simpl never.
#[global] Arguments slice : simpl never.

Lemma set_at_app {A} (pre mid post : list A) off i v :
  off = Z.of_nat (length pre) -> 0 <= i < Z.of_nat (length mid) ->
  set_at (pre ++ mid ++ post) (off + i) v = Some (pre ++ <[Z.to_nat i := v]> mid ++ post).
Proof.
  intros -> Hi. unfold set_at. rewrite !length_app.
  rewrite (proj2 (Z.leb_le _ _)), (proj2 (Z.ltb_lt _ _)) by lia. cbn [andb]. f_equal.
  replace (Z.to_nat (Z.of_nat (length pre) + i)) with (length pre + Z.to_nat i)%nat by lia.
  rewrite insert_app_r. f_equal. apply insert_app_l. lia.
Qed.

Lemma blit_app {A} (pre mid post d : list A) off :
  off = Z.of_nat (length pre) -> length d = length mid ->
  blit (pre ++ mid ++ post) off d = Some (pre ++ d ++ post).
Proof.
  intros -> Hd. unfold blit. rewrite !length_app.
  rewrite !(proj2 (Z.leb_le _ _)) by lia. cbn [andb]. f_equal.
  rewrite Nat2Z.id, take_app_length. f_equal. f_equal.
  rewrite <- drop_drop, drop_app_length. by apply drop_app_length'.
Qed.

Lemma slice_app {A} (pre mid post : list A) off n :
  off = Z.of_nat (length pre) -> n = Z.of_nat (length mid) ->
  slice (pre ++ mid ++ post) off n = Some mid.
Proof.
  intros -> ->. unfold slice. rewrite !length_app, !(proj2 (Z.leb_le _ _)) by lia.
  cbn [andb]. by rewrite !Nat2Z.id, drop_app_length, take_app_length.
Qed.

Lemma index_app {A} (pre mid post : list A) off i :
  off = Z.of_nat (length pre) -> 0 <= i < Z.of_nat (length mid) ->
  index (pre ++ mid ++ post) (off + i) = mid !! Z.to_nat i.
Proof.
  intros -> Hi. rewrite index_nonneg by lia.
  replace (Z.to_nat (Z.of_nat (length pre) + i)) with (length pre + Z.to_nat i)%nat by lia.
  rewrite lookup_app_r by lia. replace (length pre + Z.to_nat i - length pre)%nat with (Z.to_nat i) by lia.
  apply lookup_app_l. lia.
Qed.

(** ** Enough fuel *)

Definition eventually (P : nat -> Prop) : Prop := exists f, forall fuel, (f <= fuel)%nat -> P fuel.

Lemma eventually_all P : (forall fuel, P fuel) -> eventually P.
Proof. intros H. by exists O. Qed.

Lemma eventually_and P Q : eventually P -> eventually Q -> eventually (fun fuel => P fuel /\ Q fuel).
Proof. intros [f Hf] [g Hg]. exists (f `max` g)%nat. intros fuel H. split; [apply Hf|apply Hg]; lia. Qed.

Lemma eventually_mono P Q : (forall fuel, P fuel -> Q fuel) -> eventually P -> eventually Q.
Proof. intros H [f Hf]. exists f. auto. Qed.

(** ** Loops in [option]

    [None] is an access out of an array. *)

(** [for (i : l) body]. *)
Fixpoint for_each {T} (l : list Z) (body : Z -> T -> option T) (s : T) : option T :=
  match l with
  | [] => Some s
  | i :: l' => s' ← body i s; for_each l' body s'
  end.

Lemma for_each_steps {T} (l : list Z) (body : Z -> T -> option T) (P : nat -> T) :
  (forall k i, l !! k = Some i -> body i (P k) = Some (P (S k))) ->
  for_each l body (P O) = Some (P (length l)).
Proof.
  revert P. induction l as [|i l IH]; intros P H; [done|]. cbn.
  rewrite (H O i) by done. cbn. apply (IH (fun k => P (S k))).
  intros k j Hk. by apply (H (S k)).
Qed.

(** An equation between comparisons. *)
Ltac eqb_lia :=
  first [apply eq_true_iff_eq; rewrite ?Nat.eqb_eq, ?Z.eqb_eq; lia
        | symmetry; rewrite ?Nat.eqb_neq, ?Z.eqb_neq; lia].
Lemma some_bind {A B} (a : A) (f : A -> option B) : Some a ≫= f = f a.
Proof. reflexivity. Qed.

Ltac opt := rewrite !some_bind.

(** The value of a signed [w]-bit integer with the given representation. *)
Definition to_signed (w x : Z) : Z := if x <? 2 ^ (w - 1) then x else x - 2 ^ w.

Definition in_srange (w x : Z) : Prop := - 2 ^ (w - 1) <= x < 2 ^ (w - 1).

Lemma to_signed_wrap w x : 0 < w -> in_srange w x -> to_signed w (wrap w x) = x.
Proof.
  unfold in_srange, to_signed, wrap. intros Hw Hx.
  assert (2 ^ w = 2 * 2 ^ (w - 1)) as E by (rewrite <- Z.pow_succ_r by lia; f_equal; lia).
  set (h := 2 ^ (w - 1)) in *. rewrite E.
  destruct (Z.lt_ge_cases x 0).
  - rewrite <- (Z.mod_unique x (2 * h) (-1) (x + 2 * h)) by lia.
    rewrite (proj2 (Z.ltb_ge _ _)) by lia. lia.
  - rewrite Z.mod_small by lia. by rewrite (proj2 (Z.ltb_lt _ _)) by lia.
Qed.

(** ** Stateful code

    [M S A] is a computation on a state [S] that ends with a value ([Ret]),
    runs into undefined behaviour such as a null dereference ([Stuck]), or has
    not ended within its fuel ([OutOfFuel]). *)

Inductive outcome (A : Type) := Ret (a : A) | Stuck | OutOfFuel.
Arguments Ret {A}.
Arguments Stuck {A}.
Arguments OutOfFuel {A}.

Definition M (S A : Type) : Type := S -> outcome (A * S).

#[global] Instance M_ret {S} : MRet (M S) := fun _ a s => Ret (a, s).
#[global] Instance M_bind {S} : MBind (M S) := fun _ _ k m s =>
  match m s with
  | Ret (a, s') => k a s'
  | Stuck => Stuck
  | OutOfFuel => OutOfFuel
  end.

Definition get {S} : M S S := fun s => Ret (s, s).
Definition put {S} (s : S) : M S () := fun _ => Ret ((), s).
Definition modify {S} (f : S -> S) : M S () := fun s => Ret ((), f s).
Definition stuck {S A} : M S A := fun _ => Stuck.
Definition out_of_fuel {S A} : M S A := fun _ => OutOfFuel.

(** A value that must be there: a pointer that is dereferenced, [map::at]. *)
Definition the {S A} (o : option A) : M S A :=
  match o with Some a => mret a | None => stuck end.

(** [if (b) m;] *)
Definition when {S} (b : bool) (m : M S ()) : M S () := if b then m else mret ().

Lemma bind_Ret {S A B} (m : M S A) (k : A -> M S B) s a s' :
  m s = Ret (a, s') -> (m ≫= k) s = k a s'.
Proof. intros E. unfold mbind, M_bind. by rewrite E. Qed.

Lemma bind_Ret_inv {S A B} (m : M S A) (k : A -> M S B) s b s'' :
  (m ≫= k) s = Ret (b, s'') -> exists a s', m s = Ret (a, s') /\ k a s' = Ret (b, s'').
Proof. unfold mbind, M_bind. destruct (m s) as [[a s']| |]; [eauto|discriminate..]. Qed.

Lemma bind_assoc {S A B C} (m : M S A) (k : A -> M S B) (h : B -> M S C) s :
  ((m ≫= k) ≫= h) s = (m ≫= (fun a => k a ≫= h)) s.
Proof. unfold mbind, M_bind. by destruct (m s) as [[]| |]. Qed.

(** *** What computations do

    [gives m w Q]: the computation ends, with an answer and a state that satisfy [Q]. *)

Definition gives {S A} (m : M S A) (w : S) (Q : A -> S -> Prop) : Prop := exists a w', m w = Ret (a, w') /\ Q a w'.

Lemma gives_ret {S A} (a : A) (w : S) (Q : A -> S -> Prop) : Q a w -> gives (mret a) w Q.
Proof. intros H. by exists a, w. Qed.

Lemma gives_bind {S A B} (m : M S A) (k : A -> M S B) w Q R :
  gives m w Q -> (forall a w', Q a w' -> gives (k a) w' R) -> gives (m ≫= k) w R.
Proof.
  intros (a & w1 & E1 & Hq) Hk. destruct (Hk a w1 Hq) as (b & w2 & E2 & Hr). exists b, w2.
  split; [|done]. by rewrite (bind_Ret _ _ _ _ _ E1).
Qed.

Lemma gives_mono {S A} (m : M S A) w (Q R : A -> S -> Prop) : gives m w Q -> (forall a w', Q a w' -> R a w') -> gives m w R.
Proof. intros (a & w' & E & Hq) H. exists a, w'. auto. Qed.

Lemma gives_get {S A} (k : S -> M S A) w R : gives (k w) w R -> gives (get ≫= k) w R.
Proof. intros (a & w' & E & H). exists a, w'. by split. Qed.

Lemma gives_modify {S} (f : S -> S) {A} (k : () -> M S A) w R : gives (k ()) (f w) R -> gives (modify f ≫= k) w R.
Proof. intros (a & w' & E & H). exists a, w'. by split. Qed.

Lemma gives_the {S A B} (o : option A) a (k : A -> M S B) w R : o = Some a -> gives (k a) w R -> gives (the o ≫= k) w R.
Proof. intros -> (b & w' & E & H). exists b, w'. by split. Qed.

Lemma gives_assoc {S A B D} (m : M S A) (k : A -> M S B) (h : B -> M S D) w R :
  gives (m ≫= fun a => k a ≫= h) w R -> gives ((m ≫= k) ≫= h) w R.
Proof. intros (a & w' & E & H). exists a, w'. split; [|done]. rewrite <- E. apply bind_assoc. Qed.

Lemma gives_unit {S A B} (a : A) (k : A -> M S B) w R : gives (k a) w R -> gives (mret a ≫= k) w R.
Proof. done. Qed.

