(* ===== verification/Cabinet.v ===== *)
(** * Cabinet: the token-addressed object store

    Models [modules/base/cabinet_token.h] (type [Token]) and
    [modules/base/cabinet.hpp] (class template [Cabinet<T>]), the container
    that the event loop, the request pool, the TCP server and the thread pool
    use to hand out weak handles to objects.

    A cabinet is a vector of cells.  A cell in use holds an object pointer; a
    free cell holds the position of the next free cell (the C++ [union]).
    Every operation is in the option monad: [None] stands for an
    [std::out_of_range] thrown by [cells_.at] or for reading the inactive
    member of the union, and the invariant [wf] excludes both. *)
From S2P Require Import Prelude.

(** ** Tokens *)

Record Token := mkToken { tok_id : Z; tok_pos : Z }.

#[global] Instance Token_eq_dec : EqDecision Token.
Proof. solve_decision. Defined.

#[global] Program Instance Token_countable : Countable Token :=
  inj_countable' (fun t => (tok_id t, tok_pos t)) (fun p => mkToken p.1 p.2) _.
Next Obligation. by intros []. Qed.

(** [Token()] and [reset()] *)
Definition token_null : Token := mkToken 0 0.

Definition isNull (t : Token) : bool := tok_id t =? 0.

Definition token_equal (a b : Token) : bool :=
  (tok_id a =? tok_id b) && (tok_pos a =? tok_pos b).

Definition token_less (a b : Token) : bool :=
  if negb (tok_id a =? tok_id b) then tok_id a <? tok_id b
  else tok_pos a <? tok_pos b.

Definition token_hash (t : Token) : Z :=
  Z.lor (u64 (Z.shiftl (tok_id t) 8)) (Z.land (tok_pos t) 255).

(** The six comparison operators, in the order of the header. *)
Definition token_ops (a b : Token) : list bool :=
  [ token_equal a b; negb (token_equal a b); token_less a b;
    token_less a b || token_equal a b;
    negb (token_less a b) && negb (token_equal a b);
    negb (token_less a b) ].

(** ** The cabinet *)

Section Cabinet.
Context {T : Type}.

(** [T*]: [None] is [nullptr]. *)
Notation ptr := (option T).

Inductive slot :=
| ObjPtr (p : ptr)
| NextFree (n : Z).

Record cell := mkCell { c_id : Z; c_slot : slot }.

Record cabinet := mkCabinet {
  last_id : Z;
  cells : list cell;
  first_free : Z;
  count : Z }.

Definition empty_cabinet : cabinet := mkCabinet 0 [] SIZE_MAX 0.

(** [cells_.at(pos)] *)
Definition cell_at (s : cabinet) (pos : Z) : option cell := cells s !! Z.to_nat pos.

Definition set_cell (s : cabinet) (pos : Z) (c : cell) : cabinet :=
  mkCabinet (last_id s) (<[Z.to_nat pos := c]> (cells s)) (first_free s) (count s).

Definition allocId (s : cabinet) : cabinet * Z :=
  let l := if last_id s =? SIZE_MAX then 0 else last_id s in
  let id := u64 (l + 1) in
  (mkCabinet id (cells s) (first_free s) (count s), id).

Definition allocPos (s : cabinet) : option (cabinet * Z) :=
  if negb (first_free s =? SIZE_MAX) then
    let new_pos := first_free s in
    c ← cell_at s new_pos;
    match c_slot c with
    | NextFree n => Some (mkCabinet (last_id s) (cells s) n (count s), new_pos)
    | ObjPtr _ => None
    end
  else
    let cs := cells s ++ [mkCell 0 (ObjPtr None)] in
    Some (mkCabinet (last_id s) cs (first_free s) (count s), Z.of_nat (length cs) - 1).

Definition cab_alloc (s : cabinet) (obj : ptr) : option (cabinet * Token) :=
  let '(s1, id) := allocId s in
  '(s2, pos) ← allocPos s1;
  let tok := mkToken id pos in
  _ ← cell_at s2 (tok_pos tok);
  let s3 := set_cell s2 (tok_pos tok) (mkCell (tok_id tok) (ObjPtr obj)) in
  Some (mkCabinet (last_id s3) (cells s3) (first_free s3) (u64 (count s3 + 1)), tok).

(** [token.isNull() || token.pos() >= cells_.size()] *)
Definition out_of_reach (s : cabinet) (t : Token) : bool :=
  isNull t || (Z.of_nat (length (cells s)) <=? tok_pos t).

Definition cab_update (s : cabinet) (t : Token) (obj : ptr) : option (cabinet * bool) :=
  if out_of_reach s t then Some (s, false) else
  c ← cell_at s (tok_pos t);
  if c_id c =? tok_id t
  then Some (set_cell s (tok_pos t) (mkCell (c_id c) (ObjPtr obj)), true)
  else Some (s, false).

Definition cab_free (s : cabinet) (t : Token) : option (cabinet * ptr) :=
  if out_of_reach s t then Some (s, None) else
  c ← cell_at s (tok_pos t);
  if c_id c =? tok_id t then
    match c_slot c with
    | ObjPtr p =>
        let s1 := set_cell s (tok_pos t) (mkCell 0 (NextFree (first_free s))) in
        Some (mkCabinet (last_id s1) (cells s1) (tok_pos t) (u64 (count s1 - 1)), p)
    | NextFree _ => None
    end
  else Some (s, None).

Definition cab_clear (s : cabinet) : cabinet := mkCabinet 0 [] SIZE_MAX 0.

Definition cab_at (s : cabinet) (t : Token) : option ptr :=
  if out_of_reach s t then Some None else
  c ← cell_at s (tok_pos t);
  if c_id c =? tok_id t then
    match c_slot c with
    | ObjPtr p => Some p
    | NextFree _ => None
    end
  else Some None.

Definition cab_size (s : cabinet) : Z := count s.
Definition cab_is_empty (s : cabinet) : bool := cab_size s =? 0.

(** [foreach]: the range-for walks the cells present at its start; the
    callback may change the cabinet (the header allows it to remove objects),
    and a callback that grows the vector invalidates the iterators. *)
Fixpoint foreach_from {A} (func : A -> cabinet -> ptr -> option (A * cabinet))
    (n : nat) (todo : list nat) (a : A) (s : cabinet) : option (A * cabinet) :=
  match todo with
  | [] => Some (a, s)
  | i :: todo' =>
      c ← cells s !! i;
      if c_id c =? 0 then foreach_from func n todo' a s else
      match c_slot c with
      | NextFree _ => None
      | ObjPtr p =>
          '(a', s') ← func a s p;
          if Nat.eqb (length (cells s')) n
          then foreach_from func n todo' a' s' else None
      end
  end.

Definition cab_foreach {A} (func : A -> cabinet -> ptr -> option (A * cabinet))
    (a : A) (s : cabinet) : option (A * cabinet) :=
  foreach_from func (length (cells s)) (seq 0 (length (cells s))) a s.

End Cabinet.

Arguments cabinet : clear implicits.
Arguments cell : clear implicits.
Arguments slot : clear implicits.
Arguments cab_alloc : simpl never.
Arguments cab_update : simpl never.
Arguments cab_free : simpl never.
Arguments cab_at : simpl never.
Arguments cab_size : simpl never.

(** ** Invariant and abstract view *)

Definition tok_wf (t : Token) : Prop := in_range 64 (tok_id t) /\ in_range 64 (tok_pos t).

Section Invariant.
Context {T : Type}.
Implicit Types (s : cabinet T) (cs : list (cell T)) (t : Token) (p : option T).

(** The cells reached from [first_free_]. *)
Fixpoint chain cs (f : Z) (l : list nat) : Prop :=
  match l with
  | [] => f = SIZE_MAX
  | i :: l' => f = Z.of_nat i /\
      exists n, cs !! i = Some (mkCell 0 (NextFree n)) /\ chain cs n l'
  end.

Definition used (c : cell T) : Prop := c_id c <> 0.
#[global] Instance used_dec c : Decision (used c).
Proof. unfold used. apply _. Defined.

Definition nused cs : Z := Z.of_nat (length (filter used cs)).

Record wf s : Prop := {
  wf_last : 0 <= last_id s <= SIZE_MAX;
  wf_len : Z.of_nat (length (cells s)) <= SIZE_MAX;
  wf_ids : forall i c, cells s !! i = Some c -> 0 <= c_id c <= SIZE_MAX;
  wf_used : forall i c, cells s !! i = Some c -> used c -> exists p, c_slot c = ObjPtr p;
  wf_free : exists l, chain (cells s) (first_free s) l /\ NoDup l /\
      forall i c, cells s !! i = Some c -> ~ used c -> i ∈ l;
  wf_count : count s = nused (cells s) }.

(** The token-to-object map that clients see. *)
Fixpoint view_from (k : nat) cs : gmap Token (option T) :=
  match cs with
  | [] => ∅
  | mkCell id (ObjPtr p) :: cs' =>
      if id =? 0 then view_from (S k) cs'
      else <[mkToken id (Z.of_nat k) := p]> (view_from (S k) cs')
  | mkCell _ (NextFree _) :: cs' => view_from (S k) cs'
  end.

Definition view s : gmap Token (option T) := view_from 0 (cells s).
#[global] Arguments view : simpl never.

Lemma view_from_lookup cs : forall k t p,
  view_from k cs !! t = Some p <->
  exists i, tok_pos t = Z.of_nat (k + i) /\ tok_id t <> 0 /\
            cs !! i = Some (mkCell (tok_id t) (ObjPtr p)).
Proof.
  induction cs as [|[id sl] cs IH]; intros k t p; cbn [view_from].
  - split; [by rewrite lookup_empty|]. intros (i & _ & _ & H). by rewrite lookup_nil in H.
  - assert (Hrec : view_from (S k) cs !! t = Some p <->
       exists i, tok_pos t = Z.of_nat (k + S i) /\ tok_id t <> 0 /\
                 cs !! i = Some (mkCell (tok_id t) (ObjPtr p))).
    { rewrite IH. split; intros (i & H1 & H2); exists i; (split; [lia|done]). }
    destruct sl as [q|n]; [destruct (Z.eqb_spec id 0) as [->|Hid]|].
    + rewrite Hrec. split.
      * intros (i & ?). by exists (S i).
      * intros ([|i] & H1 & H2 & H3); [simplify_eq/=; congruence|by exists i].
    + rewrite lookup_insert. case_decide as Ht.
      * subst t. cbn. split.
        -- intros [= ->]. exists 0%nat. split; [lia|done].
        -- intros ([|i] & H1 & _ & H3); [by simplify_eq/=|lia].
      * rewrite Hrec. split.
        -- intros (i & ?). by exists (S i).
        -- intros ([|i] & H1 & H2 & H3); [|by exists i].
           simplify_eq/=. destruct Ht. destruct t; cbn in *. f_equal; lia.
    + rewrite Hrec. split.
      * intros (i & ?). by exists (S i).
      * intros ([|i] & H1 & H2 & H3); [simplify_eq/=|by exists i].
Qed.

Lemma view_from_ge cs k t : tok_pos t < Z.of_nat k -> view_from k cs !! t = None.
Proof.
  intros H. apply eq_None_not_Some. intros [p Hp].
  apply view_from_lookup in Hp as (i & ? & _). lia.
Qed.

Lemma view_lookup s t p :
  view s !! t = Some p <->
  0 <= tok_pos t /\ tok_id t <> 0 /\
  cells s !! Z.to_nat (tok_pos t) = Some (mkCell (tok_id t) (ObjPtr p)).
Proof.
  unfold view. rewrite view_from_lookup. split.
  - intros (i & H1 & H2 & H3). split_and!; [lia|done|].
    replace (Z.to_nat (tok_pos t)) with i by lia. done.
  - intros (H1 & H2 & H3). exists (Z.to_nat (tok_pos t)). split_and!; [lia|done|done].
Qed.

Lemma view_from_size cs : forall k,
  (forall i c, cs !! i = Some c -> used c -> exists p, c_slot c = ObjPtr p) ->
  Z.of_nat (size (view_from k cs)) = nused cs.
Proof.
  unfold nused. induction cs as [|[id sl] cs IH]; intros k Hu; [done|].
  assert (Hu' : forall i c, cs !! i = Some c -> used c -> exists p, c_slot c = ObjPtr p)
    by (intros i c; apply (Hu (S i))).
  specialize (IH (S k) Hu'). cbn [view_from]. rewrite filter_cons.
  destruct sl as [q|n]; [destruct (Z.eqb_spec id 0) as [->|Hid]|].
  - rewrite decide_False; [done|]. by unfold used; cbn; intros [].
  - rewrite decide_True by done. rewrite map_size_insert_None.
    + cbn. lia.
    + apply view_from_ge. cbn. lia.
  - rewrite decide_False; [done|]. intros Hc.
    destruct (Hu 0%nat _ eq_refl Hc) as [p [=]].
Qed.

Lemma nused_insert cs i c c' :
  cs !! i = Some c ->
  nused (<[i := c']> cs) =
    nused cs - (if decide (used c) then 1 else 0) + (if decide (used c') then 1 else 0).
Proof.
  intros H. unfold nused.
  rewrite insert_take_drop by by eapply lookup_lt_Some.
  rewrite <- (take_drop_middle cs i c H) at 3.
  rewrite !filter_app, !filter_cons, !length_app.
  destruct (decide (used c)), (decide (used c')); cbn; lia.
Qed.

Lemma nused_bound cs : 0 <= nused cs <= Z.of_nat (length cs).
Proof. unfold nused. pose proof (length_filter used cs). lia. Qed.

Lemma chain_insert_ne cs i c l : forall f,
  i ∉ l -> chain cs f l -> chain (<[i := c]> cs) f l.
Proof.
  induction l as [|j l IH]; intros f Hi; cbn; [done|].
  intros [-> (n & Hn & Hc)]. split; [done|]. exists n.
  rewrite list_lookup_insert_ne by set_solver. split; [done|].
  apply IH; [set_solver|done].
Qed.

Lemma chain_app cs c l : forall f, chain cs f l -> chain (cs ++ [c]) f l.
Proof.
  induction l as [|j l IH]; intros f; cbn; [done|].
  intros [-> (n & Hn & Hc)]. split; [done|]. exists n.
  split; [by apply lookup_app_l_Some|by apply IH].
Qed.

Lemma chain_unused cs l i : forall f, chain cs f l -> i ∈ l ->
  exists n, cs !! i = Some (mkCell 0 (NextFree n)).
Proof.
  induction l as [|j l IH]; intros f; cbn; [set_solver|].
  intros [-> (n & Hn & Hc)] [->|Hi]%elem_of_cons; [by exists n|by eapply IH].
Qed.

Lemma chain_end cs l f : chain cs f l -> f = SIZE_MAX ->
  Z.of_nat (length cs) <= SIZE_MAX -> l = [].
Proof.
  destruct l as [|i l]; [done|]. cbn. intros [-> (n & Hn & _)] Hf Hl.
  apply lookup_lt_Some in Hn. lia.
Qed.

End Invariant.

(** ** The operations against the view *)

Section Operations.
Context {T : Type}.
Implicit Types (s : cabinet T) (cs : list (cell T)) (t : Token) (p : option T).

(** There is a position left for one more cell. *)
Definition room s : Prop := Z.of_nat (length (cells s)) < SIZE_MAX.

Lemma view_insert s s' i id p :
  id <> 0 ->
  (forall c, cells s !! i = Some c -> ~ used c) ->
  cells s' !! i = Some (mkCell id (ObjPtr p)) ->
  (forall j c, j <> i -> c_id c <> 0 ->
     cells s' !! j = Some c <-> cells s !! j = Some c) ->
  view s' = <[mkToken id (Z.of_nat i) := p]> (view s).
Proof.
  intros Hid Hfree Hi Hne.
  apply map_eq. intros t. apply option_eq. intros q.
  rewrite lookup_insert, view_lookup. case_decide as Ht.
  - subst t. cbn. rewrite Nat2Z.id, Hi. split; [by intros (_ & _ & [= ->])|].
    intros [= ->]. split_and!; [lia|done|done].
  - rewrite view_lookup. split; intros (H1 & H2 & H3); (split_and!; [done|done|]).
    + destruct (decide (Z.to_nat (tok_pos t) = i)) as [<-|Hj].
      * destruct Ht. destruct t. cbn in *. rewrite Hi in H3.
         injection H3 as <- <-. f_equal. lia.
      * by apply Hne in H3.
    + destruct (decide (Z.to_nat (tok_pos t) = i)) as [<-|Hj].
      * by apply Hfree in H3.
      * by apply Hne in H3.
Qed.

Lemma view_delete s s' t :
  0 <= tok_pos t ->
  (forall c, cells s !! Z.to_nat (tok_pos t) = Some c -> c_id c = tok_id t) ->
  (forall c, cells s' !! Z.to_nat (tok_pos t) = Some c -> ~ used c) ->
  (forall j, j <> Z.to_nat (tok_pos t) -> cells s' !! j = cells s !! j) ->
  view s' = delete t (view s).
Proof.
  intros Hpos Hid Hi Hne. apply map_eq. intros t'. apply option_eq. intros q.
  rewrite lookup_delete, view_lookup. case_decide as Ht.
  - subst t'. split; [|done]. intros (_ & H2 & H3). by apply Hi in H3.
  - rewrite view_lookup.
    destruct (decide (Z.to_nat (tok_pos t') = Z.to_nat (tok_pos t))) as [Hp|Hp].
    + rewrite Hp. split; intros (H1 & H2 & H3).
      * by apply Hi in H3.
      * apply Hid in H3. destruct Ht. destruct t, t'; cbn in *. f_equal; [congruence|lia].
    + by rewrite Hne.
Qed.

Lemma allocId_range s :
  wf s -> 1 <= (allocId s).2 <= SIZE_MAX /\
  (last_id s < SIZE_MAX -> (allocId s).2 = last_id s + 1).
Proof.
  intros [Hl _ _ _ _ _]. unfold allocId, wrap, SIZE_MAX in *. cbn.
  destruct (Z.eqb_spec (last_id s) (2 ^ 64 - 1)) as [E|E].
  - rewrite Z.mod_small; lia.
  - rewrite Z.mod_small; lia.
Qed.

Lemma wf_empty : wf (empty_cabinet (T := T)).
Proof.
  split; cbn; try done.
  - exists []. split_and!; [done|constructor|done].
Qed.

(** What [alloc] establishes; shared by its two branches. *)
Definition alloc_post s (s' : cabinet T) t p : Prop :=
  wf s' /\ tok_wf t /\ isNull t = false /\ last_id s' = tok_id t /\
  Z.of_nat (length (cells s')) <= Z.of_nat (length (cells s)) + 1 /\
  view s !! t = None /\ view s' = <[t := p]> (view s).

Lemma count_succ s : wf s -> room s -> u64 (count s + 1) = nused (cells s) + 1.
Proof.
  intros Hwf Hr. rewrite (wf_count s Hwf). pose proof (nused_bound (cells s)).
  unfold room, wrap, SIZE_MAX in *. rewrite Z.mod_small; lia.
Qed.

Lemma alloc_append s id p :
  wf s -> room s -> 1 <= id <= SIZE_MAX -> first_free s = SIZE_MAX ->
  alloc_post s (mkCabinet id (cells s ++ [mkCell id (ObjPtr p)]) SIZE_MAX (u64 (count s + 1)))
    (mkToken id (Z.of_nat (length (cells s)))) p.
Proof.
  intros Hwf Hr Hid Ef. pose proof (count_succ s Hwf Hr) as Hcnt.
  destruct Hwf as [Hl Hlen Hids Hus (l & Hch & Hnd & Hcov) _]. unfold room in Hr.
  assert (Hu : used (mkCell id (ObjPtr p))) by (unfold used; cbn; lia).
  rewrite Hcnt. unfold alloc_post. split; [split; cbn|].
  - lia.
  - rewrite length_app. cbn. lia.
  - intros i c [Hc|[_ Hc]]%lookup_app_Some; [by eapply Hids|].
    apply list_lookup_singleton_Some in Hc as [_ <-]. cbn. lia.
  - intros i c [Hc|[_ Hc]]%lookup_app_Some; [by eapply Hus|].
    apply list_lookup_singleton_Some in Hc as [_ <-]. intros _. by exists p.
  - exists l. rewrite Ef in Hch. split_and!; [by apply chain_app|done|].
    intros i c [Hc|[_ Hc]]%lookup_app_Some; [by eapply Hcov|].
    apply list_lookup_singleton_Some in Hc as [_ <-]. done.
  - unfold nused. rewrite filter_app, length_app, filter_cons.
    rewrite decide_True by done. cbn. lia.
  - split_and!; cbn.
    + unfold tok_wf, in_range, SIZE_MAX in *. cbn. lia.
    + unfold isNull. cbn. apply Z.eqb_neq. lia.
    + done.
    + rewrite length_app. cbn. lia.
    + apply eq_None_not_Some. intros [q Hq]. apply view_lookup in Hq as (_ & _ & Hq).
      apply lookup_lt_Some in Hq. cbn in Hq. lia.
    + apply view_insert; cbn.
      * lia.
      * intros c Hc%lookup_lt_Some. lia.
      * by apply list_lookup_middle.
      * intros j c Hj Hc0. rewrite lookup_app_Some. split; [|by left].
        intros [?|[Hj' Hc]]; [done|].
        apply list_lookup_singleton_Some in Hc as [? _]. lia.
Qed.

Lemma alloc_reuse s id p i n l :
  wf s -> room s -> 1 <= id <= SIZE_MAX ->
  cells s !! i = Some (mkCell 0 (NextFree n)) -> chain (cells s) n l -> NoDup (i :: l) ->
  (forall j c, cells s !! j = Some c -> ~ used c -> j ∈ i :: l) ->
  alloc_post s (mkCabinet id (<[i := mkCell id (ObjPtr p)]> (cells s)) n (u64 (count s + 1)))
    (mkToken id (Z.of_nat i)) p.
Proof.
  intros Hwf Hr Hid Hn Hch [Hil Hnd]%NoDup_cons Hcov.
  pose proof (count_succ s Hwf Hr) as Hcnt.
  destruct Hwf as [Hl Hlen Hids Hus _ _]. pose proof (lookup_lt_Some _ _ _ Hn) as Hi.
  assert (Hu : used (mkCell id (ObjPtr p))) by (unfold used; cbn; lia).
  assert (Hview := fun cn => view_insert s
     (mkCabinet id (<[i := mkCell id (ObjPtr p)]> (cells s)) n cn) i id p).
  rewrite Hcnt. split; [split; cbn|].
  - lia.
  - by rewrite length_insert.
  - intros j c [(-> & <- & _)|[_ Hc]]%list_lookup_insert_Some; [cbn; lia|by eapply Hids].
  - intros j c [(-> & <- & _)|[_ Hc]]%list_lookup_insert_Some; [by exists p|by eapply Hus].
  - exists l. split_and!; [by apply chain_insert_ne|done|].
    intros j c [(-> & <- & _)|[Hj Hc]]%list_lookup_insert_Some; [done|].
    intros Hc'. by destruct (proj1 (elem_of_cons _ _ _) (Hcov _ _ Hc Hc')) as [->|?].
  - rewrite (nused_insert _ _ _ _ Hn).
    rewrite decide_False by (unfold used; cbn; lia). rewrite decide_True by done. lia.
  - split_and!; cbn; try done.
    + unfold tok_wf, in_range, SIZE_MAX in *. cbn. lia.
    + unfold isNull. cbn. apply Z.eqb_neq. lia.
    + rewrite length_insert. lia.
    + apply eq_None_not_Some. intros [q Hq]. apply view_lookup in Hq as (_ & Hz & Hq).
      cbn in Hq, Hz. rewrite Nat2Z.id, Hn in Hq. simplify_eq.
    + apply Hview; [lia|intros c; rewrite Hn; intros [= <-]; unfold used; cbn; lia| |].
      * cbn. by rewrite list_lookup_insert_eq.
      * cbn. intros j c Hj _. by rewrite list_lookup_insert_ne.
Qed.

Lemma cab_alloc_spec s p :
  wf s -> room s -> exists s' t,
    cab_alloc s p = Some (s', t) /\ tok_id t = (allocId s).2 /\ alloc_post s s' t p.
Proof.
  intros Hwf Hroom. destruct (allocId_range s Hwf) as [Hid _].
  unfold cab_alloc. destruct (allocId s) as [s1 id] eqn:E. cbn in Hid.
  assert (Hs1 : s1 = mkCabinet id (cells s) (first_free s) (count s))
    by (unfold allocId in E; by simplify_eq).
  subst s1. clear E. unfold allocPos, cell_at, set_cell. cbn.
  destruct (Z.eqb_spec (first_free s) SIZE_MAX) as [Ef|Ef]; cbn.
  - rewrite length_app. cbn [length].
    replace (Z.of_nat (length (cells s) + 1) - 1) with (Z.of_nat (length (cells s))) by lia.
    rewrite Nat2Z.id, list_lookup_middle by done. cbn.
    rewrite insert_app_r_alt, Nat.sub_diag by lia. cbn.
    eexists _, _. split; [done|]. split; [done|]. rewrite Ef. by apply alloc_append.
  - destruct (wf_free s Hwf) as (l & Hch & Hnd & Hcov).
    destruct l as [|i l]; [done|]. destruct Hch as [Hf (n & Hn & Hch)].
    rewrite Hf, Nat2Z.id, Hn. cbn. rewrite Nat2Z.id, Hn. cbn.
    eexists _, _. split; [done|]. split; [done|]. by eapply alloc_reuse.
Qed.

Lemma reach_spec s t :
  out_of_reach s t = true -> view s !! t = None.
Proof.
  unfold out_of_reach, isNull. intros H. apply eq_None_not_Some.
  intros [p Hp]. apply view_lookup in Hp as (H1 & H2 & H3%lookup_lt_Some).
  apply orb_true_iff in H as [H|H]; lia.
Qed.

Lemma reach_cell s t :
  0 <= tok_pos t -> out_of_reach s t = false ->
  tok_id t <> 0 /\ exists c, cell_at s (tok_pos t) = Some c.
Proof.
  unfold out_of_reach, isNull, cell_at. intros Hp [H1 H2]%orb_false_iff.
  split; [lia|]. apply lookup_lt_is_Some. lia.
Qed.

(** The three lookups that [update], [free] and [at] share. *)
Lemma cell_cases s t :
  wf s -> 0 <= tok_pos t ->
  (out_of_reach s t = true /\ view s !! t = None) \/
  (out_of_reach s t = false /\ exists c, cell_at s (tok_pos t) = Some c /\
     ((c_id c =? tok_id t) = false /\ view s !! t = None \/
      exists p, c = mkCell (tok_id t) (ObjPtr p) /\ tok_id t <> 0 /\ view s !! t = Some p)).
Proof.
  intros Hwf Hp. destruct (out_of_reach s t) eqn:E.
  - left. split; [done|by apply reach_spec].
  - right. split; [done|]. destruct (reach_cell s t Hp E) as (Hid & c & Hc).
    exists c. split; [done|]. unfold cell_at in Hc. destruct (Z.eqb_spec (c_id c) (tok_id t)) as [Hi|Hi].
    + right. destruct (wf_used s Hwf _ c Hc) as [p Hsl]; [unfold used; lia|].
      exists p. destruct c as [cid csl]; cbn in *. subst. split_and!; [done|done|].
      by apply view_lookup.
    + left. split; [done|]. apply eq_None_not_Some. intros [p Hv].
      apply view_lookup in Hv as (_ & _ & Hv). rewrite Hc in Hv. by simplify_eq.
Qed.

Lemma cab_at_spec s t :
  wf s -> 0 <= tok_pos t -> cab_at s t = Some (mjoin (view s !! t)).
Proof.
  intros Hwf Hp. unfold cab_at.
  destruct (cell_cases s t Hwf Hp) as [[-> ->]|(-> & c & -> & [[Hid ->]|(p & -> & _ & ->)])];
    cbn; [done| |].
  - by rewrite Hid.
  - by rewrite Z.eqb_refl.
Qed.

Lemma set_obj_wf s i id p q f cn :
  wf s -> cells s !! i = Some (mkCell id (ObjPtr p)) -> id <> 0 ->
  f = first_free s -> cn = count s ->
  wf (mkCabinet (last_id s) (<[i := mkCell id (ObjPtr q)]> (cells s)) f cn).
Proof.
  intros [Hl Hlen Hids Hus (l & Hch & Hnd & Hcov) Hcnt] Hc Hid -> ->. split; cbn.
  - lia.
  - by rewrite length_insert.
  - intros j c [(-> & <- & _)|[_ Hj]]%list_lookup_insert_Some; [by apply (Hids _ _ Hc)|by eapply Hids].
  - intros j c [(-> & <- & _)|[_ Hj]]%list_lookup_insert_Some; [by exists q|by eapply Hus].
  - exists l. split_and!; [|done|].
    + apply chain_insert_ne; [|done]. intros Hil.
      destruct (chain_unused _ _ _ _ Hch Hil) as [n Hn]. rewrite Hc in Hn. by simplify_eq.
    + intros j c [(-> & <- & _)|[_ Hj]]%list_lookup_insert_Some; [done|by apply Hcov].
  - rewrite (nused_insert _ _ _ _ Hc), Hcnt. unfold used. cbn.
    rewrite !decide_True by done. lia.
Qed.

Lemma cab_update_spec s t q :
  wf s -> 0 <= tok_pos t ->
  match view s !! t with
  | None => cab_update s t q = Some (s, false)
  | Some _ => exists s', cab_update s t q = Some (s', true) /\ wf s' /\
      view s' = <[t := q]> (view s) /\ last_id s' = last_id s /\
      length (cells s') = length (cells s)
  end.
Proof.
  intros Hwf Hp. unfold cab_update.
  destruct (cell_cases s t Hwf Hp) as [[-> ->]|(-> & c & Hc & [[Hid ->]|(p & -> & Hid & Hv)])].
  - done.
  - rewrite Hc. cbn. by rewrite Hid.
  - rewrite Hc, Hv. cbn. rewrite Z.eqb_refl. unfold cell_at in Hc.
    eexists. split; [done|]. split_and!.
    + by eapply set_obj_wf.
    + apply map_eq. intros t'. apply option_eq. intros q'.
      rewrite lookup_insert, view_lookup. cbn. case_decide as Ht.
      * subst t'. rewrite list_lookup_insert_eq by by eapply lookup_lt_Some.
        naive_solver.
      * rewrite view_lookup. destruct (decide (Z.to_nat (tok_pos t') = Z.to_nat (tok_pos t))) as [E|E].
        -- rewrite E, list_lookup_insert_eq, Hc by by eapply lookup_lt_Some.
           split; intros (H1 & H2 & H3); simplify_eq; destruct Ht; destruct t, t'; cbn in *;
             f_equal; [done|lia|done|lia].
        -- by rewrite list_lookup_insert_ne.
    + done.
    + cbn. by rewrite length_insert.
Qed.

Lemma free_wf s i id p :
  wf s -> cells s !! i = Some (mkCell id (ObjPtr p)) -> id <> 0 ->
  wf (mkCabinet (last_id s) (<[i := mkCell 0 (NextFree (first_free s))]> (cells s))
        (Z.of_nat i) (u64 (count s - 1))).
Proof.
  intros [Hl Hlen Hids Hus (l & Hch & Hnd & Hcov) Hcnt] Hc Hid.
  pose proof (lookup_lt_Some _ _ _ Hc) as Hi.
  assert (Hil : i ∉ l).
  { intros Hil. destruct (chain_unused _ _ _ _ Hch Hil) as [n Hn].
    rewrite Hc in Hn. by simplify_eq. }
  assert (Hn0 : ~ used (mkCell 0 (@NextFree T (first_free s)))) by (unfold used; cbn; lia).
  split; cbn.
  - lia.
  - by rewrite length_insert.
  - intros j c [(-> & <- & _)|[_ Hj]]%list_lookup_insert_Some; [cbn; unfold SIZE_MAX; lia|by eapply Hids].
  - intros j c [(-> & <- & _)|[_ Hj]]%list_lookup_insert_Some; [done|by eapply Hus].
  - exists (i :: l). split_and!.
    + cbn. split; [done|]. exists (first_free s).
      rewrite list_lookup_insert_eq by done. split; [done|by apply chain_insert_ne].
    + by constructor.
    + intros j c [(-> & <- & _)|[_ Hj]]%list_lookup_insert_Some Hnu; [set_solver|].
      pose proof (Hcov _ _ Hj Hnu). set_solver.
  - pose proof (nused_bound (cells s)). pose proof (nused_bound
      (<[i := mkCell 0 (NextFree (first_free s))]> (cells s))) as Hb.
    rewrite (nused_insert _ _ _ _ Hc) in *. rewrite decide_True in * by done.
    rewrite decide_False in * by done. rewrite Hcnt.
    unfold wrap, SIZE_MAX in *. rewrite Z.mod_small; lia.
Qed.

Lemma cab_free_spec s t :
  wf s -> 0 <= tok_pos t -> exists s',
    cab_free s t = Some (s', mjoin (view s !! t)) /\ wf s' /\
    view s' = delete t (view s) /\ last_id s' = last_id s /\
    length (cells s') = length (cells s).
Proof.
  intros Hwf Hp. unfold cab_free.
  destruct (cell_cases s t Hwf Hp) as [[-> Hv]|(-> & c & Hc & [[Hid Hv]|(p & -> & Hid & Hv)])].
  - exists s. rewrite Hv, delete_id by done. done.
  - rewrite Hc. cbn. rewrite Hid. exists s. rewrite Hv, delete_id by done. done.
  - rewrite Hc, Hv. cbn. rewrite Z.eqb_refl. unfold cell_at in Hc.
    eexists. split; [done|]. pose proof (lookup_lt_Some _ _ _ Hc) as Hi. split_and!; cbn.
    + rewrite <- (Z2Nat.id (tok_pos t)) at 2 by done. by eapply free_wf.
    + apply view_delete; cbn.
      * done.
      * rewrite Hc. by intros c [= <-].
      * rewrite list_lookup_insert_eq by done. intros c [= <-]. unfold used. cbn. lia.
      * intros j Hj. by rewrite list_lookup_insert_ne.
    + done.
    + by rewrite length_insert.
Qed.

Lemma cab_size_spec s : wf s -> cab_size s = Z.of_nat (size (view s)).
Proof.
  intros Hwf. unfold cab_size. rewrite (wf_count s Hwf). symmetry.
  apply view_from_size. apply Hwf.
Qed.

Lemma wf_clear s : wf (cab_clear s) /\ view (cab_clear s) = ∅.
Proof. split; [apply wf_empty|done]. Qed.

End Operations.

(** ** Traversal *)

Section Foreach.
Context {T A : Type}.
Implicit Types (s : cabinet T) (cs : list (cell T)).

Fixpoint visited cs : list (option T) :=
  match cs with
  | [] => []
  | mkCell id (ObjPtr p) :: cs' => if id =? 0 then visited cs' else p :: visited cs'
  | mkCell _ (NextFree _) :: cs' => visited cs'
  end.

Lemma visited_view cs : forall k, visited cs ≡ₚ (map_to_list (view_from k cs)).*2.
Proof.
  induction cs as [|[id [p|n]] cs IH]; intros k; cbn.
  - by rewrite map_to_list_empty.
  - destruct (Z.eqb_spec id 0); [by apply IH|].
    rewrite map_to_list_insert by (apply view_from_ge; cbn; lia).
    cbn. by rewrite <- IH.
  - by apply IH.
Qed.

Lemma foreach_from_pure (f : A -> option T -> A) s cs : forall pre a,
  cells s = pre ++ cs ->
  (forall i c, cells s !! i = Some c -> used c -> exists p, c_slot c = ObjPtr p) ->
  foreach_from (fun a s p => Some (f a p, s)) (length (cells s))
    (seq (length pre) (length cs)) a s = Some (foldl f a (visited cs), s).
Proof.
  induction cs as [|[id sl] cs IH]; intros pre a Hs Hus; [done|].
  assert (Hc : cells s !! length pre = Some (mkCell id sl))
    by (rewrite Hs; by apply list_lookup_middle).
  cbn [length seq foreach_from]. rewrite Hc. cbn [mbind option_bind c_id c_slot].
  assert (Hs' : cells s = (pre ++ [mkCell id sl]) ++ cs) by by rewrite <- app_assoc.
  assert (Hlen : S (length pre) = length (pre ++ [mkCell id sl]))
    by (rewrite length_app; cbn; lia).
  rewrite Hlen. specialize (fun a => IH _ a Hs' Hus). cbn [visited].
  destruct (Z.eqb_spec id 0) as [->|Hid].
  - destruct sl; by apply IH.
  - destruct (Hus _ _ Hc) as [p Hp]; [done|]. cbn in Hp. subst sl. cbn.
    rewrite Nat.eqb_refl. by apply IH.
Qed.

(** [foreach] calls the callback once per object in use, and on nothing
    else: a callback that only accumulates receives, in the order of the
    cells, a permutation of the objects of the token map, and leaves the
    cabinet as it was. *)
Theorem foreach_visits_live (f : A -> option T -> A) (a : A) s :
  wf s -> exists l,
    cab_foreach (fun a s p => Some (f a p, s)) a s = Some (foldl f a l, s) /\
    l ≡ₚ (map_to_list (view s)).*2.
Proof.
  intros Hwf. exists (visited (cells s)). split.
  - apply (foreach_from_pure f s (cells s) []); [done|]. apply (wf_used s Hwf).
  - apply visited_view.
Qed.

End Foreach.

Section Objects.
Context {T : Type}.
Implicit Types s : cabinet T.

Lemma foldl_snoc {B} (l pre : list B) : foldl (fun a p => a ++ [p]) pre l = pre ++ l.
Proof. revert pre. induction l as [|x l IH]; intros pre; cbn; [by rewrite app_nil_r|]. by rewrite IH, <- app_assoc. Qed.

(** The objects a callback that collects them receives. *)
Definition cab_objects s : option (list (option T)) :=
  option_map fst (cab_foreach (fun l s p => Some (l ++ [p], s)) [] s).

Lemma cab_objects_spec s : wf s -> exists l, cab_objects s = Some l /\ l ≡ₚ (map_to_list (view s)).*2.
Proof.
  intros Hwf. exists (visited (cells s)). split; [|apply visited_view].
  unfold cab_objects, cab_foreach. rewrite (foreach_from_pure (fun l p => l ++ [p]) s (cells s) []) by (done || apply (wf_used s Hwf)).
  cbn. by rewrite foldl_snoc.
Qed.

End Objects.

(** ** The promise to clients

    The request pool, the timers of the event loop and the other users of a
    cabinet rely on these laws only; [cabinet_store] discharges them. *)

Class TokenStore (S : Type -> Type) := {
  ts_empty : forall {V}, S V;
  ts_alloc : forall {V}, S V -> option V -> option (S V * Token);
  ts_update : forall {V}, S V -> Token -> option V -> option (S V * bool);
  ts_free : forall {V}, S V -> Token -> option (S V * option V);
  ts_at : forall {V}, S V -> Token -> option (option V);
  ts_wf : forall {V}, S V -> Prop;
  ts_cells : forall {V}, S V -> Z;
  ts_view : forall {V}, S V -> gmap Token (option V);
  ts_last : forall {V}, S V -> Z;
  ts_size : forall {V}, S V -> Z;
  ts_clear : forall {V}, S V -> S V;
  ts_objects : forall {V}, S V -> option (list (option V));
  ts_empty_ok : forall {V}, ts_wf (@ts_empty V) /\ ts_view (@ts_empty V) = ∅ /\ ts_cells (@ts_empty V) = 0;
  ts_alloc_ok : forall {V} (s : S V) p, ts_wf s -> ts_cells s < SIZE_MAX -> exists s' t,
    ts_alloc s p = Some (s', t) /\ ts_wf s' /\ tok_wf t /\ isNull t = false /\
    ts_view s !! t = None /\ ts_view s' = <[t := p]> (ts_view s) /\ ts_cells s' <= ts_cells s + 1;
  ts_update_ok : forall {V} (s : S V) t p, ts_wf s -> tok_wf t -> exists s',
    ts_update s t p = Some (s', bool_decide (is_Some (ts_view s !! t))) /\ ts_wf s' /\
    ts_view s' = (if ts_view s !! t is Some _ then <[t := p]> (ts_view s) else ts_view s);
  ts_free_ok : forall {V} (s : S V) t, ts_wf s -> tok_wf t -> exists s',
    ts_free s t = Some (s', mjoin (ts_view s !! t)) /\ ts_wf s' /\
    ts_view s' = delete t (ts_view s) /\ ts_cells s' = ts_cells s;
  ts_at_ok : forall {V} (s : S V) t, ts_wf s -> tok_wf t ->
    ts_at s t = Some (mjoin (ts_view s !! t));
  ts_size_ok : forall {V} (s : S V), ts_wf s -> ts_size s = Z.of_nat (size (ts_view s));
  ts_clear_ok : forall {V} (s : S V), ts_wf (ts_clear s) /\ ts_view (ts_clear s) = ∅ /\ ts_cells (ts_clear s) = 0;
  ts_objects_ok : forall {V} (s : S V), ts_wf s -> exists l,
    ts_objects s = Some l /\ l ≡ₚ (map_to_list (ts_view s)).*2;
  ts_empty_last : forall {V}, ts_last (@ts_empty V) = 0;
  ts_alloc_last : forall {V} (s s' : S V) p t, ts_wf s -> ts_cells s < SIZE_MAX -> ts_last s < SIZE_MAX ->
    ts_alloc s p = Some (s', t) -> tok_id t = ts_last s + 1 /\ ts_last s' = ts_last s + 1;
  ts_update_last : forall {V} (s s' : S V) t p b, ts_wf s -> tok_wf t -> ts_update s t p = Some (s', b) ->
    ts_last s' = ts_last s /\ ts_cells s' = ts_cells s;
  ts_free_last : forall {V} (s s' : S V) t p, ts_wf s -> tok_wf t -> ts_free s t = Some (s', p) -> ts_last s' = ts_last s }.

Lemma tok_wf_pos t : tok_wf t -> 0 <= tok_pos t.
Proof. unfold tok_wf, in_range. lia. Qed.

#[global, refine] Instance cabinet_store : TokenStore cabinet := {|
  ts_empty _ := empty_cabinet;
  ts_alloc _ := cab_alloc;
  ts_update _ := cab_update;
  ts_free _ := cab_free;
  ts_at _ := cab_at;
  ts_wf _ := wf;
  ts_cells _ s := Z.of_nat (length (cells s));
  ts_view _ := view;
  ts_last _ := last_id;
  ts_size _ := cab_size;
  ts_clear _ := cab_clear;
  ts_objects _ := cab_objects |}.
Proof.
  - intros V. split; [apply wf_empty|done].
  - intros V s p Hwf Hr. destruct (cab_alloc_spec s p Hwf Hr) as (s' & t & H & _ & Hp).
    exists s', t. split; [done|]. unfold alloc_post in Hp. naive_solver.
  - intros V s t p Hwf Ht%tok_wf_pos. pose proof (cab_update_spec s t p Hwf Ht) as H.
    destruct (view s !! t) eqn:E.
    + destruct H as (s' & -> & H). exists s'. rewrite bool_decide_true by done. naive_solver.
    + exists s. by rewrite H.
  - intros V s t Hwf Ht%tok_wf_pos. destruct (cab_free_spec s t Hwf Ht) as (s' & ->  & H).
    exists s'. naive_solver.
  - intros V s t Hwf Ht%tok_wf_pos. by apply cab_at_spec.
  - intros V s. apply cab_size_spec.
  - intros V s. split; [apply wf_clear|]. split; [apply wf_clear|done].
  - intros V s. apply cab_objects_spec.
  - done.
  - intros V s s' p t Hwf Hr Hl H. destruct (cab_alloc_spec s p Hwf Hr) as (s1 & t1 & H1 & Hid & Hp).
    rewrite H1 in H. simplify_eq. destruct (allocId_range s Hwf) as [_ Hn]. rewrite Hn in Hid by done.
    unfold alloc_post in Hp. destruct Hp as (_ & _ & _ & Hl' & _). split; lia.
  - intros V s s' t p b Hwf Ht%tok_wf_pos H. pose proof (cab_update_spec s t p Hwf Ht) as H1.
    destruct (view s !! t); [destruct H1 as (s1 & H1 & _ & _ & ? & ?)|]; rewrite H1 in H; simplify_eq; split; congruence.
  - intros V s s' t p Hwf Ht%tok_wf_pos H. destruct (cab_free_spec s t Hwf Ht) as (s1 & H1 & _ & _ & Hl & _).
    rewrite H1 in H. by simplify_eq.
Defined.

(** ** Runs of operations *)

Section Runs.
Context {T : Type}.
Notation ptr := (option T).

Inductive cab_op :=
| OpAlloc (p : ptr) | OpUpdate (t : Token) (p : ptr) | OpFree (t : Token)
| OpAt (t : Token) | OpSize | OpClear.

Inductive cab_res :=
| ResTok (t : Token) | ResBool (b : bool) | ResPtr (p : ptr) | ResSize (n : Z) | ResUnit.

Definition exec_op (s : cabinet T) (o : cab_op) : option (cabinet T * cab_res) :=
  match o with
  | OpAlloc p => '(s', t) ← cab_alloc s p; Some (s', ResTok t)
  | OpUpdate t p => '(s', b) ← cab_update s t p; Some (s', ResBool b)
  | OpFree t => '(s', p) ← cab_free s t; Some (s', ResPtr p)
  | OpAt t => p ← cab_at s t; Some (s, ResPtr p)
  | OpSize => Some (s, ResSize (cab_size s))
  | OpClear => Some (cab_clear s, ResUnit)
  end.

Fixpoint exec_ops (s : cabinet T) (os : list cab_op) : option (cabinet T * list cab_res) :=
  match os with
  | [] => Some (s, [])
  | o :: os' =>
      '(s1, r) ← exec_op s o;
      '(s2, rs) ← exec_ops s1 os';
      Some (s2, r :: rs)
  end.

(** The specification: a finite map from tokens to objects, where [alloc]
    picks any token that is neither null nor in use. *)
Inductive spec_op (m : gmap Token ptr) : cab_op -> cab_res -> gmap Token ptr -> Prop :=
| spec_alloc p t : isNull t = false -> m !! t = None ->
    spec_op m (OpAlloc p) (ResTok t) (<[t := p]> m)
| spec_update_in t p q : m !! t = Some q ->
    spec_op m (OpUpdate t p) (ResBool true) (<[t := p]> m)
| spec_update_out t p : m !! t = None -> spec_op m (OpUpdate t p) (ResBool false) m
| spec_free t : spec_op m (OpFree t) (ResPtr (mjoin (m !! t))) (delete t m)
| spec_at t : spec_op m (OpAt t) (ResPtr (mjoin (m !! t))) m
| spec_size : spec_op m OpSize (ResSize (Z.of_nat (size m))) m
| spec_clear : spec_op m OpClear ResUnit ∅.

Inductive spec_ops (m : gmap Token ptr) :
  list cab_op -> list cab_res -> gmap Token ptr -> Prop :=
| spec_nil : spec_ops m [] [] m
| spec_cons o os r rs m1 m2 :
    spec_op m o r m1 -> spec_ops m1 os rs m2 -> spec_ops m (o :: os) (r :: rs) m2.

Definition op_wf (o : cab_op) : Prop :=
  match o with
  | OpUpdate t _ | OpFree t | OpAt t => tok_wf t
  | _ => True
  end.

Definition is_alloc (o : cab_op) : Z := match o with OpAlloc _ => 1 | _ => 0 end.

Fixpoint allocs (os : list cab_op) : Z :=
  match os with [] => 0 | o :: os' => is_alloc o + allocs os' end.

Definition is_clear (o : cab_op) : bool := match o with OpClear => true | _ => false end.

Lemma allocs_nonneg os : 0 <= allocs os.
Proof. induction os as [|[] os IH]; cbn; lia. Qed.

Lemma exec_op_spec s o :
  wf s -> op_wf o -> Z.of_nat (length (cells s)) + is_alloc o <= SIZE_MAX ->
  exists s' r, exec_op s o = Some (s', r) /\ wf s' /\ spec_op (view s) o r (view s') /\
    Z.of_nat (length (cells s')) <= Z.of_nat (length (cells s)) + is_alloc o.
Proof.
  intros Hwf Ho Hr. destruct o as [p|t p|t|t| |]; cbn in *.
  - assert (Hroom : room s) by (unfold room; lia).
    destruct (cab_alloc_spec s p Hwf Hroom) as (s' & t & -> & _ & H1 & _ & H2 & _ & H3 & H4 & H5).
    eexists _, _. split; [done|]. split_and!; [done| |done]. rewrite H5. by constructor.
  - apply tok_wf_pos in Ho. pose proof (cab_update_spec s t p Hwf Ho) as H.
    destruct (view s !! t) as [q|] eqn:E.
    + destruct H as (s' & -> & H1 & H2 & _ & H3).
      eexists _, _. split; [done|]. split_and!; [done| |lia]. rewrite H2. by econstructor.
    + rewrite H. eexists _, _. split; [done|]. split_and!; [done|by constructor|lia].
  - apply tok_wf_pos in Ho. destruct (cab_free_spec s t Hwf Ho) as (s' & -> & H1 & H2 & _ & H3).
    eexists _, _. split; [done|]. split_and!; [done| |lia]. rewrite H2. by constructor.
  - apply tok_wf_pos in Ho. rewrite (cab_at_spec s t Hwf Ho).
    eexists _, _. split; [done|]. split_and!; [done|by constructor|lia].
  - eexists _, _. split; [done|]. rewrite (cab_size_spec s Hwf).
    split_and!; [done|by constructor|lia].
  - eexists _, _. split; [done|]. destruct (wf_clear s) as [H1 H2].
    split_and!; [done|rewrite H2; constructor|cbn; lia].
Qed.

(** C19: the cabinet implements a map from tokens to objects.  Any sequence of
    operations that allocates fewer than [SIZE_MAX] cells runs without an
    exception, and its results are those of the finite-map specification:
    [alloc] returns a non-null token not in use, [at], [update] and [free] hit
    exactly the tokens in use, [size] counts them, [clear] drops them all. *)
Theorem cabinet_refines_map os :
  Forall op_wf os -> allocs os <= SIZE_MAX ->
  exists s' rs, exec_ops empty_cabinet os = Some (s', rs) /\
    wf s' /\ spec_ops ∅ os rs (view s').
Proof.
  change (∅ : gmap Token ptr) with (view (T := T) empty_cabinet).
  intros Hos Hn. assert (Hwf := wf_empty (T := T)).
  assert (Hlen : Z.of_nat (length (cells (T := T) empty_cabinet)) + allocs os <= SIZE_MAX)
    by (cbn; lia).
  clear Hn. revert Hwf Hlen. generalize (empty_cabinet (T := T)).
  induction Hos as [|o os Ho _ IH]; intros s Hwf Hlen; cbn in Hlen.
  - exists s, []. split_and!; [done|done|constructor].
  - pose proof (allocs_nonneg os).
    destruct (exec_op_spec s o Hwf Ho) as (s1 & r & H1 & H2 & H3 & H4); [lia|].
    destruct (IH s1 H2) as (s2 & rs & H5 & H6 & H7); [lia|].
    exists s2, (r :: rs). cbn. rewrite H1. cbn. rewrite H5. cbn.
    split_and!; [done|done|by econstructor].
Qed.

(** A token that is dead, and whose id has been passed, stays dead. *)
Definition dead (s : cabinet T) (t : Token) : Prop :=
  view s !! t = None /\ tok_id t <= last_id s.

Lemma exec_op_mono s o s' r :
  wf s -> op_wf o -> Z.of_nat (length (cells s)) + is_alloc o <= SIZE_MAX ->
  is_clear o = false -> last_id s + is_alloc o <= SIZE_MAX ->
  exec_op s o = Some (s', r) ->
  last_id s' = last_id s + is_alloc o /\ forall t, dead s t -> dead s' t.
Proof.
  intros Hwf Ho Hr Hc Hl He. unfold dead. destruct o as [p|t' p|t'|t'| |]; cbn in *; simplify_eq.
  - assert (Hroom : room s) by (unfold room; lia).
    destruct (cab_alloc_spec s p Hwf Hroom) as (s1 & t1 & H & Hid & _ & _ & _ & Hl1 & _ & _ & Hv).
    rewrite H in He. cbn in He. simplify_eq. rewrite Hv.
    destruct (allocId_range s Hwf) as [_ Hn]. rewrite Hn in Hid by lia.
    split; [lia|]. intros t [Hd1 Hd2]. rewrite lookup_insert_ne by (intros <-; lia).
    split; [done|lia].
  - apply tok_wf_pos in Ho. pose proof (cab_update_spec s t' p Hwf Ho) as H.
    destruct (view s !! t') as [q|] eqn:E.
    + destruct H as (s1 & H & _ & Hv & Hl1 & _). rewrite H in He. cbn in He. simplify_eq.
      rewrite Hv, Hl1. split; [lia|]. intros t [Hd1 Hd2].
      rewrite lookup_insert_ne by (intros <-; congruence). split; [done|lia].
    + rewrite H in He. cbn in He. simplify_eq. split; [lia|done].
  - apply tok_wf_pos in Ho. destruct (cab_free_spec s t' Hwf Ho) as (s1 & H & _ & Hv & Hl1 & _).
    rewrite H in He. cbn in He. simplify_eq. rewrite Hv, Hl1. split; [lia|].
    intros t [Hd1 Hd2]. rewrite lookup_delete. split; [by case_decide|lia].
  - apply tok_wf_pos in Ho. rewrite (cab_at_spec s t' Hwf Ho) in He. cbn in He.
    simplify_eq. split; [lia|done].
  - split; [lia|done].
Qed.

(** A stretch of operations without [clear] in which neither the vector nor
    the id counter runs out. *)
Definition calm (s : cabinet T) (os : list cab_op) : Prop :=
  Forall op_wf os /\ Forall (fun o => is_clear o = false) os /\
  Z.of_nat (length (cells s)) + allocs os <= SIZE_MAX /\ last_id s + allocs os <= SIZE_MAX.

Lemma exec_ops_calm os : forall s s' rs,
  wf s -> calm s os -> exec_ops s os = Some (s', rs) ->
  wf s' /\ last_id s' = last_id s + allocs os /\
  Z.of_nat (length (cells s')) <= Z.of_nat (length (cells s)) + allocs os /\
  forall t, dead s t -> dead s' t.
Proof.
  induction os as [|o os IH]; intros s s' rs Hwf (Hos & Hcl & Hlen & Hl) He; cbn in *.
  - simplify_eq. split_and!; [done|lia|lia|done].
  - apply Forall_cons in Hos as [Ho Hos], Hcl as [Hc Hcl]. pose proof (allocs_nonneg os).
    destruct (exec_op_spec s o Hwf Ho) as (s1 & r & H1 & H2 & _ & H4); [lia|].
    rewrite H1 in He. cbn in He. destruct (exec_ops s1 os) as [[s2 rs']|] eqn:E; [|done].
    cbn in He. simplify_eq.
    destruct (exec_op_mono s o s1 r) as [Hl1 Hd1]; [done|done|lia|done|lia|done|].
    destruct (IH s1 s' rs' H2) as (? & ? & ? & Hd2); [split_and!; [done|done|lia|lia]|done|].
    split_and!; [done|lia|lia|]. intros t Ht. by apply Hd2, Hd1.
Qed.

(** once the object of a token is freed, the token never reaches an object
    again, whatever is allocated, updated or freed before and after, as long
    as the cabinet is not cleared and the id counter does not wrap around. *)
Theorem freed_token_stays_invalid s0 p s1 t os1 s2 rs1 s3 r os2 s4 rs2 :
  wf s0 -> calm s0 (OpAlloc p :: os1 ++ OpFree t :: os2) ->
  exec_op s0 (OpAlloc p) = Some (s1, ResTok t) ->
  exec_ops s1 os1 = Some (s2, rs1) ->
  exec_op s2 (OpFree t) = Some (s3, r) ->
  exec_ops s3 os2 = Some (s4, rs2) ->
  cab_at s4 t = Some None.
Proof.
  intros Hwf (Hos & Hcl & Hlen & Hl) He0 He1 He2 He3.
  apply Forall_cons in Hos as [_ [Hos1 [Ht Hos2]%Forall_cons]%Forall_app].
  apply Forall_cons in Hcl as [_ [Hcl1 [_ Hcl2]%Forall_cons]%Forall_app].
  assert (Hal : allocs (OpAlloc p :: os1 ++ OpFree t :: os2) = 1 + allocs os1 + allocs os2).
  { cbn. clear. induction os1 as [|o os1 IH]; cbn; lia. }
  rewrite Hal in *. pose proof (allocs_nonneg os1). pose proof (allocs_nonneg os2).
  assert (Hroom : room s0) by (unfold room; lia).
  destruct (cab_alloc_spec s0 p Hwf Hroom) as (s' & t' & E & Hid & Hwf1 & _ & _ & Hl1 & Hn1 & _).
  cbn in He0. rewrite E in He0. cbn in He0. simplify_eq.
  destruct (allocId_range s0 Hwf) as [_ Hn]. rewrite Hn in Hid by lia.
  destruct (exec_ops_calm os1 s1 s2 rs1 Hwf1) as (Hwf2 & Hl2 & Hn2 & _);
    [split_and!; [done|done|lia|lia]|done|].
  pose proof (tok_wf_pos t Ht) as Hp.
  destruct (cab_free_spec s2 t Hwf2 Hp) as (s' & E' & Hwf3 & Hv & Hl3 & Hlen3).
  cbn in He2. rewrite E' in He2. cbn in He2. simplify_eq.
  destruct (exec_ops_calm os2 s3 s4 rs2 Hwf3) as (Hwf4 & _ & _ & Hd);
    [split_and!; [done|done|lia|lia]|done|].
  rewrite (cab_at_spec s4 t Hwf4 Hp). destruct (Hd t) as [-> _]; [|done].
  split; [by rewrite Hv, lookup_delete_eq|lia].
Qed.

(** [clear] restarts the id counter, so a token from before the [clear] is
    valid again for the first object allocated after it when it was the first
    token ever issued. *)
Theorem clear_revives_first_token (p q : ptr) :
  exists s1 s3 t, cab_alloc empty_cabinet p = Some (s1, t) /\
    cab_at (cab_clear s1) t = Some None /\
    cab_alloc (cab_clear s1) q = Some (s3, t) /\ cab_at s3 t = Some q.
Proof. by eexists _, _, _. Qed.

End Runs.

Arguments cab_op : clear implicits.

(** ** Witnesses *)

Lemma cabinet_refines_map_witness :
  exists s' rs, exec_ops (T := nat) empty_cabinet
      [OpAlloc (Some 7%nat); OpFree (mkToken 1 0); OpAlloc (Some 8%nat); OpAt (mkToken 1 0)]
    = Some (s', rs) /\ wf s' /\
  spec_ops ∅ [OpAlloc (Some 7%nat); OpFree (mkToken 1 0); OpAlloc (Some 8%nat); OpAt (mkToken 1 0)]
    rs (view s').
Proof.
  apply cabinet_refines_map.
  - repeat constructor; cbn; unfold in_range; cbn; lia.
  - vm_compute. discriminate.
Defined.

Lemma freed_token_stays_invalid_witness :
  exists s4 rs2, exec_ops (T := nat)
      (mkCabinet 1 [mkCell 0 (NextFree SIZE_MAX)] 0 0) [OpAlloc (Some 8%nat)] = Some (s4, rs2) /\
    cab_at s4 (mkToken 1 0) = Some None.
Proof.
  eexists _, _. split; [reflexivity|].
  apply (freed_token_stays_invalid empty_cabinet (Some 7%nat)
    (mkCabinet 1 [mkCell 1 (ObjPtr (Some 7%nat))] SIZE_MAX 1) (mkToken 1 0) []
    (mkCabinet 1 [mkCell 1 (ObjPtr (Some 7%nat))] SIZE_MAX 1) []
    (mkCabinet 1 [mkCell 0 (NextFree SIZE_MAX)] 0 0) (ResPtr (Some 7%nat))
    [OpAlloc (Some 8%nat)] _ [ResTok (mkToken 2 0)]); try reflexivity.
  - apply wf_empty.
  - split_and!; [repeat constructor; cbn; unfold in_range; cbn; lia|repeat constructor| |];
      vm_compute; discriminate.
Defined.

Lemma foreach_visits_live_witness :
  exists l, cab_foreach (T := nat) (fun a s p => Some (a ++ [p], s)) [] empty_cabinet
    = Some (foldl (fun a p => a ++ [p]) [] l, empty_cabinet) /\
    l ≡ₚ (map_to_list (view (T := nat) empty_cabinet)).*2.
Proof. apply (foreach_visits_live (fun a p => a ++ [p])). apply wf_empty. Defined.
