(* ===== verification/Base64.v ===== *)
(** * Base64: encoding and decoding

    Models [modules/util/base64.h] and [modules/util/base64.cpp].  Characters
    and bytes are codes.  A fixed output area ([char*]/[void*] with its size)
    is a list whose length is the size of the area; writing past its end makes
    the result [None], and so does an access outside a table. *)
From S2P Require Import Prelude.

Definition BASE64_PAD : Z := 61.

Definition base64en : list Z :=
  str "ABCDEFGHIJKLMNOPQRSTUVWXYZabcdefghijklmnopqrstuvwxyz0123456789+/".

Arguments base64en : simpl never.

Definition base64de : list Z := [
  255; 255; 255; 255; 255; 255; 255; 255;
  255; 255; 255; 255; 255; 255; 255; 255;
  255; 255; 255; 255; 255; 255; 255; 255;
  255; 255; 255; 255; 255; 255; 255; 255;
  255; 255; 255; 255; 255; 255; 255; 255;
  255; 255; 255;  62; 255; 255; 255;  63;
   52;  53;  54;  55;  56;  57;  58;  59;
   60;  61; 255; 255; 255; 255; 255; 255;
  255;   0;   1;   2;   3;   4;   5;   6;
    7;   8;   9;  10;  11;  12;  13;  14;
   15;  16;  17;  18;  19;  20;  21;  22;
   23;  24;  25; 255; 255; 255; 255; 255;
  255;  26;  27;  28;  29;  30;  31;  32;
   33;  34;  35;  36;  37;  38;  39;  40;
   41;  42;  43;  44;  45;  46;  47;  48;
   49;  50;  51; 255; 255; 255; 255; 255 ].

Arguments base64de : simpl never.

Definition EncodeLength (plain_text_length : Z) : Z :=
  u64 (u64 (plain_text_length + 2) / 3 * 4).

(** [DecodeLength(ptr, size)]; reading outside the text is [None]. *)
Definition DecodeLength (base64 : list Z) : option Z :=
  let base64_size := Z.of_nat (length base64) in
  if (base64_size =? 0) || negb (Z.land base64_size 3 =? 0) then Some 0 else
  let len := base64_size / 4 * 3 in
  c1 ← index base64 (base64_size - 1);
  let len := if c1 =? BASE64_PAD then len - 1 else len in
  c2 ← index base64 (base64_size - 2);
  Some (if c2 =? BASE64_PAD then len - 1 else len).

(** The state of the encoding loop: [s], [l] and the characters written. *)
Record enc := mkEnc { e_s : Z; e_l : Z; e_out : list Z }.

Definition enc_byte (st : enc) (c : Z) : option enc :=
  let l := e_l st in
  if e_s st =? 0 then
    x ← index base64en (Z.land (Z.shiftr c 2) 63);
    Some (mkEnc 1 c (e_out st ++ [x]))
  else if e_s st =? 1 then
    x ← index base64en (Z.lor (Z.shiftl (Z.land l 3) 4) (Z.land (Z.shiftr c 4) 15));
    Some (mkEnc 2 c (e_out st ++ [x]))
  else if e_s st =? 2 then
    x ← index base64en (Z.lor (Z.shiftl (Z.land l 15) 2) (Z.land (Z.shiftr c 6) 3));
    y ← index base64en (Z.land c 63);
    Some (mkEnc 0 c (e_out st ++ [x; y]))
  else Some (mkEnc (e_s st) c (e_out st)).

Fixpoint enc_loop (st : enc) (raw : list Z) : option enc :=
  match raw with
  | [] => Some st
  | c :: raw' => st' ← enc_byte st c; enc_loop st' raw'
  end.

Definition enc_tail (st : enc) : option (list Z) :=
  let l := e_l st in
  if e_s st =? 1 then
    x ← index base64en (Z.shiftl (Z.land l 3) 4);
    Some (e_out st ++ [x; BASE64_PAD; BASE64_PAD])
  else if e_s st =? 2 then
    x ← index base64en (Z.shiftl (Z.land l 15) 2);
    Some (e_out st ++ [x; BASE64_PAD])
  else Some (e_out st).

(** [std::string Encode(const void*, size_t)].  [None] is also a failed
    [TBOX_ASSERT], which ends the program: there must be something to encode. *)
Definition Encode (raw : list Z) : option (list Z) :=
  match raw with
  | [] => None
  | _ => st ← enc_loop (mkEnc 0 0 []) raw; enc_tail st
  end.

(** [size_t Encode(const void*, size_t, char*, size_t)]: the characters go to
    the start of the area [buf]; the result is the count and the area.  Neither
    the bytes nor the area may be empty. *)
Definition EncodeTo (raw buf : list Z) : option (Z * list Z) :=
  if bool_decide (raw = []) || bool_decide (buf = []) then None else
  if Z.of_nat (length buf) <? EncodeLength (Z.of_nat (length raw)) then Some (0, buf) else
  out ← Encode raw;
  if (length out <=? length buf)%nat
  then Some (Z.of_nat (length out), out ++ drop (length out) buf)
  else None.

(** [base64de[int(c)]]: [char] is signed, so a code above 127 indexes before
    the table. *)
Definition de_char (c : Z) : option Z :=
  index base64de (if c <? 128 then c else c - 256).

(** *** Decoding into a vector *)

Record dec := mkDec { d_tmp : Z; d_s : Z; d_out : list Z }.

(** One turn of the loop; [inr] is an early end ([break], or [return 0]). *)
Inductive dec_stop := DecPad | DecBad.

Definition dec_char (st : dec) (c : Z) : option (dec + dec_stop) :=
  if c =? BASE64_PAD then Some (inr DecPad) else
  v ← de_char c;
  if v =? 255 then Some (inr DecBad) else
  let next tmp out : option (dec + dec_stop) :=
    Some (inl (mkDec tmp (Z.land (d_s st + 1) 3) out)) in
  if d_s st =? 0 then next (u8 (Z.shiftl v 2)) (d_out st)
  else if d_s st =? 1 then
    next (u8 (Z.shiftl v 4)) (d_out st ++ [Z.lor (d_tmp st) (Z.shiftr v 4)])
  else if d_s st =? 2 then
    next (u8 (Z.shiftl v 6)) (d_out st ++ [Z.lor (d_tmp st) (Z.shiftr v 2)])
  else
    next (Z.lor (d_tmp st) v) (d_out st ++ [Z.lor (d_tmp st) v]).

Fixpoint dec_loop (st : dec) (text : list Z) : option (dec * bool) :=
  match text with
  | [] => Some (st, true)
  | c :: text' =>
      r ← dec_char st c;
      match r with
      | inl st' => dec_loop st' text'
      | inr DecPad => Some (st, true)
      | inr DecBad => Some (st, false)
      end
  end.

(** [size_t Decode(const std::string&, std::vector<uint8_t>&)]: the returned
    length and the vector. *)
Definition Decode (text raw_data : list Z) : option (Z * list Z) :=
  out_len ← DecodeLength text;
  if out_len =? 0 then Some (0, raw_data) else
  '(st, ok) ← dec_loop (mkDec 0 0 raw_data) text;
  Some (if (ok : bool) then out_len else 0, d_out st).

(** *** Decoding into a fixed area *)

(** [out_bytes[i] = v] *)
Definition poke (buf : list Z) (i : Z) (v : Z) : option (list Z) :=
  if (i <? 0) || (Z.of_nat (length buf) <=? i) then None
  else Some (<[Z.to_nat i := v]> buf).

(** [out_bytes[i] |= v] *)
Definition poke_or (buf : list Z) (i : Z) (v : Z) : option (list Z) :=
  x ← index buf i; poke buf i (Z.lor x v).

Fixpoint decto_loop (text : list Z) (r_pos w_pos : Z) (buf : list Z) : option (Z * list Z) :=
  match text with
  | [] => Some (w_pos, buf)
  | c :: text' =>
      if c =? BASE64_PAD then Some (w_pos, buf) else
      v ← de_char c;
      if v =? 255 then Some (0, buf) else
      let ph := Z.land r_pos 3 in
      if ph =? 0 then
        buf ← poke buf w_pos (u8 (Z.shiftl v 2));
        decto_loop text' (r_pos + 1) w_pos buf
      else if ph =? 1 then
        buf ← poke_or buf w_pos (Z.shiftr v 4);
        buf ← poke buf (w_pos + 1) (u8 (Z.shiftl v 4));
        decto_loop text' (r_pos + 1) (w_pos + 1) buf
      else if ph =? 2 then
        buf ← poke_or buf w_pos (Z.shiftr v 2);
        buf ← poke buf (w_pos + 1) (u8 (Z.shiftl v 6));
        decto_loop text' (r_pos + 1) (w_pos + 1) buf
      else
        buf ← poke_or buf w_pos v;
        decto_loop text' (r_pos + 1) (w_pos + 1) buf
  end.

(** [size_t Decode(const char*, size_t, void*, size_t)]: the returned length
    and the area. *)
Definition DecodeTo (text buf : list Z) : option (Z * list Z) :=
  if negb (Z.land (Z.of_nat (length text)) 3 =? 0) then Some (0, buf) else
  len ← DecodeLength text;
  if Z.of_nat (length buf) <? len then Some (0, buf) else
  decto_loop text 0 0 buf.

(** ** The format (RFC 4648, section 4)

    Three bytes make a 24-bit number, whose four sextets name a character
    each; a last group of one or two bytes is filled with zero bits and the
    missing characters are padded.  The alphabet is that of Table 1 of the RFC:
    the capital letters, the small letters, the digits, [+] and [/], and [=] as
    the padding. *)

Definition sym (i : Z) : Z :=
  if i <? 26 then 65 + i
  else if i <? 52 then 97 + (i - 26)
  else if i <? 62 then 48 + (i - 52)
  else if i =? 62 then 43 else 47.

Definition pad : Z := 61.

Definition sextet (n : Z) (k : Z) : Z := n / 64 ^ k mod 64.

Arguments sym : simpl never.
Arguments sextet : simpl never.

Fixpoint b64 (raw : list Z) : list Z :=
  match raw with
  | [] => []
  | [a] =>
      let n := a * 65536 + 0 * 256 + 0 in
      [sym (sextet n 3); sym (sextet n 2); pad; pad]
  | [a; b] =>
      let n := a * 65536 + b * 256 + 0 in
      [sym (sextet n 3); sym (sextet n 2); sym (sextet n 1); pad]
  | a :: b :: c :: raw' =>
      let n := a * 65536 + b * 256 + c in
      sym (sextet n 3) :: sym (sextet n 2) :: sym (sextet n 1) :: sym (sextet n 0) :: b64 raw'
  end.

(** *** The sextets of the code *)

Ltac fields :=
  unfold is_byte, sextet, wrap in *;
  rewrite ?(land_mask _ 63 6), ?(land_mask _ 3 2), ?(land_mask _ 15 4) by (done || lia);
  rewrite ?shl_mul, ?shr_div by lia;
  change (64 ^ 3) with 262144; change (64 ^ 2) with 4096; change (64 ^ 1) with 64;
  change (64 ^ 0) with 1; change (2 ^ 6) with 64; change (2 ^ 2) with 4;
  change (2 ^ 4) with 16; change (2 ^ 8) with 256.

Lemma enc_t2 a : Z.shiftl (Z.land a 3) 4 = sextet (a * 65536 + 0 * 256 + 0) 2.
Proof. fields. dlia. Qed.

Lemma enc_t1 a b : Z.shiftl (Z.land b 15) 2 = sextet (a * 65536 + b * 256 + 0) 1.
Proof. fields. dlia. Qed.

Section Sextets.
Variables a b c : Z.
Hypotheses (Ha : is_byte a) (Hb : is_byte b) (Hc : is_byte c).
Let n := a * 65536 + b * 256 + c.

Lemma enc_s3 : Z.land (Z.shiftr a 2) 63 = sextet n 3.
Proof. unfold n. fields. dlia. Qed.

Lemma enc_s2 : Z.lor (Z.shiftl (Z.land a 3) 4) (Z.land (Z.shiftr b 4) 15) = sextet n 2.
Proof. unfold n. fields. rewrite (lor_fields' _ _ 4) by dlia. dlia. Qed.

Lemma enc_s1 : Z.lor (Z.shiftl (Z.land b 15) 2) (Z.land (Z.shiftr c 6) 3) = sextet n 1.
Proof. unfold n. fields. rewrite (lor_fields' _ _ 2) by dlia. dlia. Qed.

Lemma enc_s0 : Z.land c 63 = sextet n 0.
Proof. unfold n. fields. dlia. Qed.

Lemma dec_b0 : Z.lor (u8 (Z.shiftl (sextet n 3) 2)) (Z.shiftr (sextet n 2) 4) = a.
Proof.
  unfold n. fields. replace ((_ `mod` 64 * 4) `mod` 256) with (a / 4 * 4) by dlia.
  rewrite (lor_fields' _ _ 2) by dlia. dlia.
Qed.

Lemma dec_b1 : Z.lor (u8 (Z.shiftl (sextet n 2) 4)) (Z.shiftr (sextet n 1) 2) = b.
Proof.
  unfold n. fields. replace ((_ `mod` 64 * 16) `mod` 256) with (b / 16 * 16) by dlia.
  rewrite (lor_fields' _ _ 4) by dlia. dlia.
Qed.

Lemma dec_b2 : Z.lor (u8 (Z.shiftl (sextet n 1) 6)) (sextet n 0) = c.
Proof.
  unfold n. fields. replace ((_ `mod` 64 * 64) `mod` 256) with (c / 64 * 64) by dlia.
  rewrite (lor_fields' _ _ 6) by dlia. dlia.
Qed.

End Sextets.

Lemma sextet_range n k : 0 <= sextet n k < 64.
Proof. unfold sextet. apply Z.mod_pos_bound. lia. Qed.

Lemma index_en i : 0 <= i < 64 -> index base64en i = Some (sym i).
Proof.
  intros Hi.
  assert (H := range_forallb 64 (fun i => match index base64en i with Some x => x =? sym i | None => false end)
    ltac:(vm_compute; reflexivity) i Hi). cbn beta in H.
  destruct (index base64en i) as [x|]; [|done]. by apply Z.eqb_eq in H as ->.
Qed.

Lemma de_sym i : 0 <= i < 64 ->
  de_char (sym i) = Some i /\ (sym i =? BASE64_PAD) = false /\ (i =? 255) = false.
Proof.
  intros Hi.
  assert (H := range_forallb 64 (fun i => match de_char (sym i) with
      Some j => j =? i | None => false end && negb (sym i =? BASE64_PAD) && negb (i =? 255))
    ltac:(vm_compute; reflexivity) i Hi). cbn beta in H.
  rewrite !andb_true_iff, !negb_true_iff in H. destruct H as [[H1 H2] H3].
  destruct (de_char (sym i)) as [j|]; [|done]. apply Z.eqb_eq in H1 as ->. done.
Qed.

(** *** Encoding *)

Section EncSteps.
Variables (a b c l : Z) (out : list Z).
Hypotheses (Ha : is_byte a) (Hb : is_byte b) (Hc : is_byte c).
Let n := a * 65536 + b * 256 + c.

Lemma enc_byte_0 : enc_byte (mkEnc 0 l out) a = Some (mkEnc 1 a (out ++ [sym (sextet n 3)])).
Proof.
  unfold enc_byte. cbn. by rewrite (enc_s3 a b c), index_en by (done || apply sextet_range).
Qed.

Lemma enc_byte_1 : enc_byte (mkEnc 1 a out) b = Some (mkEnc 2 b (out ++ [sym (sextet n 2)])).
Proof.
  unfold enc_byte. cbn. by rewrite (enc_s2 a b c), index_en by (done || apply sextet_range).
Qed.

Lemma enc_byte_2 :
  enc_byte (mkEnc 2 b out) c = Some (mkEnc 0 c (out ++ [sym (sextet n 1); sym (sextet n 0)])).
Proof.
  unfold enc_byte. cbn. rewrite (enc_s1 a b c), (index_en (sextet _ 1)) by (done || apply sextet_range).
  cbn. by rewrite (enc_s0 a b c), index_en by (done || apply sextet_range).
Qed.

End EncSteps.

Lemma Encode_loop raw : forall l out,
  are_bytes raw -> (st ← enc_loop (mkEnc 0 l out) raw; enc_tail st) = Some (out ++ b64 raw).
Proof.
  assert (H0 : is_byte 0) by (unfold is_byte; lia).
  induction raw as [|a|a b|a b c raw IH] using list_ind3; intros l out Hr;
    repeat (apply Forall_cons in Hr as [? Hr]); cbn [enc_loop b64].
  - cbn. by rewrite app_nil_r.
  - rewrite (enc_byte_0 a 0 0) by done. unfold enc_tail. cbn.
    rewrite (enc_t2 a), index_en by (done || apply sextet_range). cbn.
    by rewrite <- !app_assoc.
  - rewrite (enc_byte_0 a b 0) by done. cbn [mbind option_bind].
    rewrite (enc_byte_1 a b 0) by done. unfold enc_tail. cbn.
    rewrite (enc_t1 a b), index_en by (done || apply sextet_range). cbn.
    by rewrite <- !app_assoc.
  - rewrite (enc_byte_0 a b c) by done. cbn [mbind option_bind].
    rewrite (enc_byte_1 a b c) by done. cbn [mbind option_bind].
    rewrite (enc_byte_2 a b c) by done. cbn [mbind option_bind].
    rewrite IH by done. by rewrite <- !app_assoc.
Qed.

Lemma Encode_b64 raw : are_bytes raw -> raw <> [] -> Encode raw = Some (b64 raw).
Proof. intros Hr Hne. unfold Encode. rewrite Encode_loop by done. by destruct raw. Qed.

Lemma b64_length raw : Z.of_nat (length (b64 raw)) = (Z.of_nat (length raw) + 2) / 3 * 4.
Proof.
  induction raw as [|a|a b|a b c raw IH] using list_ind3; [done|done|done|].
  cbn [b64 length]. rewrite !Nat2Z.inj_succ, IH. dlia.
Qed.

(** *** Decoding *)

Ltac phases :=
  cbn; change (Z.land (0 + 1) 3) with 1; change (Z.land (1 + 1) 3) with 2;
  change (Z.land (2 + 1) 3) with 3; change (Z.land (3 + 1) 3) with 0; cbn.

Section DecSteps.
Variables (a b c t : Z) (out : list Z).
Hypotheses (Ha : is_byte a) (Hb : is_byte b) (Hc : is_byte c).
Let n := a * 65536 + b * 256 + c.

Lemma dec_char_sym st i : 0 <= i < 64 ->
  dec_char st (sym i) = Some (inl (
    if d_s st =? 0 then mkDec (u8 (Z.shiftl i 2)) (Z.land (d_s st + 1) 3) (d_out st)
    else if d_s st =? 1 then
      mkDec (u8 (Z.shiftl i 4)) (Z.land (d_s st + 1) 3) (d_out st ++ [Z.lor (d_tmp st) (Z.shiftr i 4)])
    else if d_s st =? 2 then
      mkDec (u8 (Z.shiftl i 6)) (Z.land (d_s st + 1) 3) (d_out st ++ [Z.lor (d_tmp st) (Z.shiftr i 2)])
    else mkDec (Z.lor (d_tmp st) i) (Z.land (d_s st + 1) 3) (d_out st ++ [Z.lor (d_tmp st) i]))).
Proof.
  intros Hi. destruct (de_sym i Hi) as (H1 & H2 & H3). unfold dec_char.
  rewrite H2, H1. cbn. rewrite H3. by repeat case_match.
Qed.

Lemma dec_loop_2 text :
  dec_loop (mkDec t 0 out) (sym (sextet n 3) :: sym (sextet n 2) :: text) =
  dec_loop (mkDec (u8 (Z.shiftl (sextet n 2) 4)) 2 (out ++ [a])) text.
Proof.
  cbn [dec_loop]. rewrite dec_char_sym by apply sextet_range. phases.
  rewrite dec_char_sym by apply sextet_range. phases.
  unfold n; by rewrite (dec_b0 a b c).
Qed.

Lemma dec_loop_3 text :
  dec_loop (mkDec t 0 out) (sym (sextet n 3) :: sym (sextet n 2) :: sym (sextet n 1) :: text) =
  dec_loop (mkDec (u8 (Z.shiftl (sextet n 1) 6)) 3 (out ++ [a; b])) text.
Proof.
  rewrite dec_loop_2. cbn [dec_loop]. rewrite dec_char_sym by apply sextet_range. phases.
  unfold n. rewrite (dec_b1 a b c) by done. by rewrite <- app_assoc.
Qed.

Lemma dec_loop_4 text :
  dec_loop (mkDec t 0 out) (sym (sextet n 3) :: sym (sextet n 2) :: sym (sextet n 1)
    :: sym (sextet n 0) :: text) =
  dec_loop (mkDec c 0 (out ++ [a; b; c])) text.
Proof.
  rewrite dec_loop_3. cbn [dec_loop]. rewrite dec_char_sym by apply sextet_range. phases.
  unfold n. rewrite (dec_b2 a b c) by done. by rewrite <- app_assoc.
Qed.

End DecSteps.

Lemma dec_loop_b64 raw : forall t out, are_bytes raw ->
  exists t' s', dec_loop (mkDec t 0 out) (b64 raw) = Some (mkDec t' s' (out ++ raw), true).
Proof.
  assert (H0 : is_byte 0) by (unfold is_byte; lia).
  induction raw as [|a|a b|a b c raw IH] using list_ind3; intros t out Hr;
    repeat (apply Forall_cons in Hr as [? Hr]); cbn [b64].
  - rewrite app_nil_r. by eexists _, _.
  - rewrite (dec_loop_2 a 0 0) by done. by eexists _, _.
  - rewrite (dec_loop_3 a b 0) by done. by eexists _, _.
  - rewrite (dec_loop_4 a b c) by done.
    destruct (IH c (out ++ [a; b; c]) Hr) as (t' & s' & ->). rewrite <- app_assoc. by eexists _, _.
Qed.

Lemma b64_last raw : raw <> [] -> exists pre x y, b64 raw = pre ++ [x; y] /\
  (if y =? BASE64_PAD then 1 else 0) + (if x =? BASE64_PAD then 1 else 0)
  = (3 - Z.of_nat (length raw) mod 3) mod 3.
Proof.
  assert (Hs : forall n k, (sym (sextet n k) =? BASE64_PAD) = false)
    by (intros; apply de_sym, sextet_range).
  induction raw as [|a|a b|a b c raw IH] using list_ind3; intros Hne; cbn [b64]; [done| | |].
  - eexists [_; _], _, _. split; [done|]. done.
  - eexists [_; _], _, _. split; [done|]. by rewrite Hs.
  - destruct raw as [|d raw].
    + eexists [_; _], _, _. split; [done|]. by rewrite !Hs.
    + destruct IH as (pre & x & y & -> & Heq); [done|].
      eexists (_ :: _ :: _ :: _ :: pre), x, y. split; [done|]. rewrite Heq.
      cbn [length]. f_equal. f_equal. lia || dlia.
Qed.

Lemma DecodeLength_b64 raw : raw <> [] -> DecodeLength (b64 raw) = Some (Z.of_nat (length raw)).
Proof.
  intros Hne. unfold DecodeLength. rewrite b64_length.
  assert (Hpos : 0 < Z.of_nat (length raw)) by (destruct raw; cbn; [done|lia]).
  rewrite (land_mask _ 3 2) by done.
  change (2 ^ 2) with 4. rewrite (proj2 (Z.eqb_neq (_ / 3 * 4) 0)) by dlia.
  rewrite (proj2 (Z.eqb_eq (_ `mod` 4) 0)) by dlia. cbn [orb negb].
  destruct (b64_last raw Hne) as (pre & x & y & E & Hpad). pose proof (b64_length raw) as Hl.
  rewrite E in Hl |- *. rewrite length_app in Hl. cbn [length] in Hl. rewrite <- Hl.
  rewrite !index_nonneg, !lookup_app_r by lia.
  replace (Z.to_nat (Z.of_nat (length pre + 2) - 1) - length pre)%nat with 1%nat by lia.
  replace (Z.to_nat (Z.of_nat (length pre + 2) - 2) - length pre)%nat with 0%nat by lia. cbn.
  destruct (y =? BASE64_PAD), (x =? BASE64_PAD); f_equal; dlia.
Qed.

(** *** Decoding into an area *)

Lemma poke_app pre x rest v w : w = Z.of_nat (length pre) ->
  poke (pre ++ x :: rest) w v = Some (pre ++ v :: rest).
Proof.
  intros ->. unfold poke. rewrite length_app. cbn [length].
  rewrite (proj2 (Z.ltb_ge _ 0)), (proj2 (Z.leb_gt _ _)) by lia. rewrite Nat2Z.id. cbn.
  by rewrite insert_app_r_alt, Nat.sub_diag by lia.
Qed.

Lemma poke_app_nil pre v w : w = Z.of_nat (length pre) -> poke pre w v = None.
Proof. intros ->. unfold poke. by rewrite Z.leb_refl, orb_true_r. Qed.

Lemma poke_or_app pre x rest v w : w = Z.of_nat (length pre) ->
  poke_or (pre ++ x :: rest) w v = Some (pre ++ Z.lor x v :: rest).
Proof.
  intros ->. unfold poke_or. rewrite index_nonneg, Nat2Z.id, list_lookup_middle by lia.
  cbn. by apply poke_app.
Qed.

Section DecToSteps.
Variables (a b c : Z) (pre : list Z) (r w : Z).
Hypotheses (Ha : is_byte a) (Hb : is_byte b) (Hc : is_byte c).
Hypotheses (Hw : w = Z.of_nat (length pre)) (Hr : r mod 4 = 0).
Notation n := (a * 65536 + b * 256 + c).

Lemma r_phase i : 0 <= i < 4 -> Z.land (r + i) 3 = i.
Proof. intros Hi. rewrite (land_mask _ 3 2) by done. change (2 ^ 2) with 4. dlia. Qed.

Lemma decto_sym i text r' w' buf : 0 <= i < 64 ->
  decto_loop (sym i :: text) r' w' buf =
  (let ph := Z.land r' 3 in
   if ph =? 0 then
     buf ← poke buf w' (u8 (Z.shiftl i 2)); decto_loop text (r' + 1) w' buf
   else if ph =? 1 then
     buf ← poke_or buf w' (Z.shiftr i 4);
     buf ← poke buf (w' + 1) (u8 (Z.shiftl i 4)); decto_loop text (r' + 1) (w' + 1) buf
   else if ph =? 2 then
     buf ← poke_or buf w' (Z.shiftr i 2);
     buf ← poke buf (w' + 1) (u8 (Z.shiftl i 6)); decto_loop text (r' + 1) (w' + 1) buf
   else buf ← poke_or buf w' i; decto_loop text (r' + 1) (w' + 1) buf).
Proof.
  intros Hi. destruct (de_sym i Hi) as (H1 & H2 & H3). cbn [decto_loop].
  rewrite H2, H1. cbn. by rewrite H3.
Qed.

Lemma decto_1 x rest text :
  decto_loop (sym (sextet n 3) :: text) r w (pre ++ x :: rest) =
  decto_loop text (r + 1) w (pre ++ u8 (Z.shiftl (sextet n 3) 2) :: rest).
Proof.
  rewrite decto_sym by apply sextet_range. pose proof (r_phase 0) as E.
  rewrite Z.add_0_r in E. rewrite E by lia. cbn. by rewrite (poke_app _ _ _ _ _ Hw).
Qed.

Lemma decto_2 x rest text :
  decto_loop (sym (sextet n 3) :: sym (sextet n 2) :: text) r w (pre ++ x :: rest) =
  (buf ← poke (pre ++ a :: rest) (w + 1) (u8 (Z.shiftl (sextet n 2) 4));
   decto_loop text (r + 2) (w + 1) buf).
Proof.
  rewrite decto_1, decto_sym, r_phase by (apply sextet_range || lia). cbn.
  rewrite (poke_or_app _ _ _ _ _ Hw), (dec_b0 a b c) by done. cbn.
  by replace (r + 1 + 1) with (r + 2) by lia.
Qed.

End DecToSteps.

Section DecToGroups.
Variables (a b c : Z) (pre : list Z) (r w : Z).
Hypotheses (Ha : is_byte a) (Hb : is_byte b) (Hc : is_byte c).
Hypotheses (Hw : w = Z.of_nat (length pre)) (Hr : r mod 4 = 0).
Notation n := (a * 65536 + b * 256 + c).

Lemma snoc_len y : Z.of_nat (length (pre ++ [y])) = w + 1.
Proof. rewrite length_app, Hw. cbn. lia. Qed.

Lemma decto_3 x y rest text :
  decto_loop (sym (sextet n 3) :: sym (sextet n 2) :: sym (sextet n 1) :: text) r w
    (pre ++ x :: y :: rest) =
  (buf ← poke (pre ++ a :: b :: rest) (w + 2) (u8 (Z.shiftl (sextet n 1) 6));
   decto_loop text (r + 3) (w + 2) buf).
Proof.
  rewrite decto_2, cons_middle, app_assoc by done.
  rewrite poke_app by (symmetry; apply snoc_len). cbn [mbind option_bind].
  rewrite decto_sym, r_phase by (done || apply sextet_range || lia). cbn.
  rewrite poke_or_app by (symmetry; apply snoc_len).
  rewrite (dec_b1 a b c) by done. cbn. rewrite <- app_assoc. cbn.
  by replace (w + 1 + 1) with (w + 2) by lia; replace (r + 2 + 1) with (r + 3) by lia.
Qed.

Lemma decto_4 x y z rest text :
  decto_loop (sym (sextet n 3) :: sym (sextet n 2) :: sym (sextet n 1) :: sym (sextet n 0) :: text)
    r w (pre ++ x :: y :: z :: rest) =
  decto_loop text (r + 4) (w + 3) (pre ++ a :: b :: c :: rest).
Proof.
  pose proof (snoc_len a) as Hl1.
  assert (Hl2 : Z.of_nat (length ((pre ++ [a]) ++ [b])) = w + 2)
    by (rewrite length_app; cbn; lia).
  rewrite decto_3, (cons_middle a), (app_assoc _ [a]), (cons_middle b), (app_assoc _ [b]).
  rewrite poke_app by done. cbn [mbind option_bind].
  rewrite decto_sym, r_phase by (done || apply sextet_range || lia). cbn.
  rewrite poke_or_app by done. rewrite (dec_b2 a b c) by done. cbn.
  rewrite <- !app_assoc. cbn.
  by replace (w + 2 + 1) with (w + 3) by lia; replace (r + 3 + 1) with (r + 4) by lia.
Qed.

End DecToGroups.

(** The area is large enough: it holds the decoded bytes, and one more byte
    when the last group is incomplete. *)
Definition area_fits (raw rest : list Z) : bool :=
  (Z.of_nat (length raw) + (if Z.of_nat (length raw) mod 3 =? 0 then 0 else 1)
   <=? Z.of_nat (length rest)).

Lemma decto_b64 raw : forall pre rest r w,
  are_bytes raw -> w = Z.of_nat (length pre) -> r mod 4 = 0 ->
  (length raw <= length rest)%nat ->
  if area_fits raw rest then exists rest',
    decto_loop (b64 raw) r w (pre ++ rest) = Some (w + Z.of_nat (length raw), pre ++ raw ++ rest') /\
    (length raw + length rest' = length rest)%nat
  else decto_loop (b64 raw) r w (pre ++ rest) = None.
Proof.
  assert (H0 : is_byte 0) by (unfold is_byte; lia). unfold area_fits.
  induction raw as [|a|a b|a b c raw IH] using list_ind3; intros pre rest r w Hr Hw Hr4 Hlen;
    repeat (apply Forall_cons in Hr as [? Hr]); cbn [b64].
  - change (Z.of_nat (length (@nil Z)) mod 3 =? 0) with true.
    rewrite (proj2 (Z.leb_le _ _)) by (cbn; lia). exists rest. cbn. by rewrite Z.add_0_r.
  - change (Z.of_nat (length [a]) mod 3 =? 0) with false.
    destruct rest as [|x rest]; cbn in Hlen; [lia|].
    rewrite (decto_2 a 0 0) by done. destruct rest as [|y rest].
    + cbn. by rewrite poke_app_nil by (rewrite length_app; cbn; lia).
    + rewrite (proj2 (Z.leb_le _ _)) by (cbn; lia). eexists (_ :: rest).
      rewrite (cons_middle a), app_assoc, poke_app by (rewrite length_app; cbn; lia).
      cbn. rewrite <- app_assoc. split; [reflexivity|]. cbn. lia.
  - change (Z.of_nat (length [a; b]) mod 3 =? 0) with false.
    destruct rest as [|x [|y rest]]; cbn in Hlen; [lia|lia|].
    rewrite (decto_3 a b 0) by done. rewrite (cons_middle a), app_assoc, (cons_middle b), app_assoc.
    destruct rest as [|z rest].
    + cbn. rewrite app_nil_r. by rewrite poke_app_nil by (rewrite !length_app; cbn; lia).
    + rewrite (proj2 (Z.leb_le _ _)) by (cbn; lia). eexists (_ :: rest).
      rewrite poke_app by (rewrite !length_app; cbn; lia).
      cbn. rewrite <- !app_assoc. split; [reflexivity|]. cbn. lia.
  - destruct rest as [|x [|y [|z rest]]]; cbn in Hlen; [lia|lia|lia|].
    rewrite (decto_4 a b c) by done. cbn [length] in *.
    specialize (IH (pre ++ [a; b; c]) rest (r + 4) (w + 3)). rewrite <- app_assoc in IH. cbn [app] in IH.
    rewrite !Nat2Z.inj_succ.
    replace (Z.succ (Z.succ (Z.succ (Z.of_nat (length raw)))) mod 3) with (Z.of_nat (length raw) mod 3) by dlia.
    set (e := if Z.of_nat (length raw) mod 3 =? 0 then 0 else 1) in *.
    replace (Z.succ (Z.succ (Z.succ (Z.of_nat (length raw)))) + e <=? _)
      with (Z.of_nat (length raw) + e <=? Z.of_nat (length rest))
      by (apply eq_iff_eq_true; rewrite !Z.leb_le; clearbody e; lia).
    assert (Hrec := IH Hr ltac:(rewrite length_app; cbn; lia) ltac:(dlia) ltac:(lia)).
    destruct (_ <=? _); [|done]. destruct Hrec as (rest' & -> & Hl). exists rest'.
    rewrite <- app_assoc. cbn. split; [f_equal; f_equal; lia|lia].
Qed.

(** ** Properties *)

(** C32: both encoders implement the RFC 4648 format, with the alphabet of the
    RFC.  There must be something to encode, and an area to write to: the code
    asserts it.  Then the string form returns the encoding, whose length is
    [EncodeLength]; the area form writes exactly these characters at the start of
    the area and leaves the rest, or returns 0 and leaves the area when it is
    shorter than [EncodeLength]. *)
Theorem encode_is_rfc4648 raw buf :
  are_bytes raw -> 0 < Z.of_nat (length raw) < 2 ^ 62 -> buf <> [] ->
  Encode raw = Some (b64 raw) /\
  EncodeLength (Z.of_nat (length raw)) = Z.of_nat (length (b64 raw)) /\
  EncodeTo raw buf = Some (
    if (length buf <? length (b64 raw))%nat then (0, buf)
    else (Z.of_nat (length (b64 raw)), b64 raw ++ drop (length (b64 raw)) buf)).
Proof.
  intros Hr Hlen Hbuf. assert (raw <> []) as Hne by (intros ->; cbn in Hlen; lia). rewrite (Encode_b64 raw Hr Hne).
  assert (HE : EncodeLength (Z.of_nat (length raw)) = Z.of_nat (length (b64 raw))).
  { rewrite b64_length. unfold EncodeLength, wrap.
    rewrite (Z.mod_small (_ + 2)) by lia. rewrite Z.mod_small; [done|dlia]. }
  split_and!; [done|done|]. unfold EncodeTo. rewrite !bool_decide_false by done. cbn [orb]. rewrite HE, (Encode_b64 raw Hr Hne). cbn.
  destruct (Nat.ltb_spec (length buf) (length (b64 raw))).
  - by rewrite (proj2 (Z.ltb_lt _ _)) by lia.
  - rewrite (proj2 (Z.ltb_ge _ _)) by lia. by rewrite (proj2 (Nat.leb_le _ _)) by lia.
Qed.

(** decoding an encoding appends the original bytes to the vector and
    returns their number. *)
Theorem base64_roundtrip raw out :
  are_bytes raw -> raw <> [] ->
  (text ← Encode raw; Decode text out) = Some (Z.of_nat (length raw), out ++ raw).
Proof.
  intros Hr Hne. rewrite (Encode_b64 raw Hr Hne). cbn. unfold Decode.
  rewrite (DecodeLength_b64 raw Hne). cbn. rewrite (proj2 (Z.eqb_neq _ 0)).
  - by destruct (dec_loop_b64 raw 0 out Hr) as (t & s & ->).
  - destruct raw; cbn; [done|lia].
Qed.

(** C36: decoding into an area that [DecodeLength] accepts recovers the bytes,
    except that an area of exactly the decoded size is overrun by one byte
    when the last group is incomplete: the code stores the next byte's high
    bits before it knows that the text ends. *)
Theorem decode_area raw buf :
  are_bytes raw -> raw <> [] -> (length raw <= length buf)%nat ->
  if area_fits raw buf then exists rest,
    DecodeTo (b64 raw) buf = Some (Z.of_nat (length raw), raw ++ rest) /\
    (length raw + length rest = length buf)%nat
  else DecodeTo (b64 raw) buf = None.
Proof.
  intros Hr Hne Hlen. pose proof (decto_b64 raw [] buf 0 0 Hr eq_refl eq_refl Hlen) as H.
  assert (HD : DecodeTo (b64 raw) buf = decto_loop (b64 raw) 0 0 buf).
  { unfold DecodeTo. rewrite b64_length, (land_mask _ 3 2) by done.
    change (2 ^ 2) with 4. rewrite (proj2 (Z.eqb_eq (_ `mod` 4) 0)) by dlia. cbn [negb].
    rewrite (DecodeLength_b64 raw Hne). cbn [mbind option_bind].
    by rewrite (proj2 (Z.ltb_ge _ _)) by lia. }
  rewrite HD. done.
Qed.

(** ** Witnesses *)

Lemma encode_is_rfc4648_witness :
  Encode (str "AB") = Some (str "QUI=") /\ EncodeLength 2 = 4 /\
  EncodeTo (str "AB") [0; 0; 0; 0; 9] = Some (4, str "QUI=" ++ [9]).
Proof.
  apply (encode_is_rfc4648 (str "AB") [0; 0; 0; 0; 9]).
  - repeat constructor; vm_compute; discriminate.
  - vm_compute. split; reflexivity.
  - discriminate.
Defined.

Lemma base64_roundtrip_witness :
  (text ← Encode (str "hello"); Decode text [1]) = Some (5, [1] ++ str "hello").
Proof.
  apply (base64_roundtrip (str "hello") [1]).
  - repeat constructor; vm_compute; discriminate.
  - discriminate.
Defined.

Lemma decode_area_witness : DecodeTo (b64 (str "A")) [0] = None.
Proof.
  apply (decode_area (str "A") [0]).
  - repeat constructor; vm_compute; discriminate.
  - discriminate.
  - cbn. lia.
Defined.
