(* ===== verification/Checks.v ===== *)
(** * Checks: CRC-16, CRC-32 and Internet checksums

    Models [modules/util/crc.cpp] and [modules/util/checksum.cpp]. *)
From S2P Require Import Prelude.

(** ** Cyclic redundancy checks *)

Definition ccitt16_table : list Z := [
  0x0000; 0x1021; 0x2042; 0x3063; 0x4084; 0x50A5; 0x60C6; 0x70E7;
  0x8108; 0x9129; 0xA14A; 0xB16B; 0xC18C; 0xD1AD; 0xE1CE; 0xF1EF;
  0x1231; 0x0210; 0x3273; 0x2252; 0x52B5; 0x4294; 0x72F7; 0x62D6;
  0x9339; 0x8318; 0xB37B; 0xA35A; 0xD3BD; 0xC39C; 0xF3FF; 0xE3DE;
  0x2462; 0x3443; 0x0420; 0x1401; 0x64E6; 0x74C7; 0x44A4; 0x5485;
  0xA56A; 0xB54B; 0x8528; 0x9509; 0xE5EE; 0xF5CF; 0xC5AC; 0xD58D;
  0x3653; 0x2672; 0x1611; 0x0630; 0x76D7; 0x66F6; 0x5695; 0x46B4;
  0xB75B; 0xA77A; 0x9719; 0x8738; 0xF7DF; 0xE7FE; 0xD79D; 0xC7BC;
  0x48C4; 0x58E5; 0x6886; 0x78A7; 0x0840; 0x1861; 0x2802; 0x3823;
  0xC9CC; 0xD9ED; 0xE98E; 0xF9AF; 0x8948; 0x9969; 0xA90A; 0xB92B;
  0x5AF5; 0x4AD4; 0x7AB7; 0x6A96; 0x1A71; 0x0A50; 0x3A33; 0x2A12;
  0xDBFD; 0xCBDC; 0xFBBF; 0xEB9E; 0x9B79; 0x8B58; 0xBB3B; 0xAB1A;
  0x6CA6; 0x7C87; 0x4CE4; 0x5CC5; 0x2C22; 0x3C03; 0x0C60; 0x1C41;
  0xEDAE; 0xFD8F; 0xCDEC; 0xDDCD; 0xAD2A; 0xBD0B; 0x8D68; 0x9D49;
  0x7E97; 0x6EB6; 0x5ED5; 0x4EF4; 0x3E13; 0x2E32; 0x1E51; 0x0E70;
  0xFF9F; 0xEFBE; 0xDFDD; 0xCFFC; 0xBF1B; 0xAF3A; 0x9F59; 0x8F78;
  0x9188; 0x81A9; 0xB1CA; 0xA1EB; 0xD10C; 0xC12D; 0xF14E; 0xE16F;
  0x1080; 0x00A1; 0x30C2; 0x20E3; 0x5004; 0x4025; 0x7046; 0x6067;
  0x83B9; 0x9398; 0xA3FB; 0xB3DA; 0xC33D; 0xD31C; 0xE37F; 0xF35E;
  0x02B1; 0x1290; 0x22F3; 0x32D2; 0x4235; 0x5214; 0x6277; 0x7256;
  0xB5EA; 0xA5CB; 0x95A8; 0x8589; 0xF56E; 0xE54F; 0xD52C; 0xC50D;
  0x34E2; 0x24C3; 0x14A0; 0x0481; 0x7466; 0x6447; 0x5424; 0x4405;
  0xA7DB; 0xB7FA; 0x8799; 0x97B8; 0xE75F; 0xF77E; 0xC71D; 0xD73C;
  0x26D3; 0x36F2; 0x0691; 0x16B0; 0x6657; 0x7676; 0x4615; 0x5634;
  0xD94C; 0xC96D; 0xF90E; 0xE92F; 0x99C8; 0x89E9; 0xB98A; 0xA9AB;
  0x5844; 0x4865; 0x7806; 0x6827; 0x18C0; 0x08E1; 0x3882; 0x28A3;
  0xCB7D; 0xDB5C; 0xEB3F; 0xFB1E; 0x8BF9; 0x9BD8; 0xABBB; 0xBB9A;
  0x4A75; 0x5A54; 0x6A37; 0x7A16; 0x0AF1; 0x1AD0; 0x2AB3; 0x3A92;
  0xFD2E; 0xED0F; 0xDD6C; 0xCD4D; 0xBDAA; 0xAD8B; 0x9DE8; 0x8DC9;
  0x7C26; 0x6C07; 0x5C64; 0x4C45; 0x3CA2; 0x2C83; 0x1CE0; 0x0CC1;
  0xEF1F; 0xFF3E; 0xCF5D; 0xDF7C; 0xAF9B; 0xBFBA; 0x8FD9; 0x9FF8;
  0x6E17; 0x7E36; 0x4E55; 0x5E74; 0x2E93; 0x3EB2; 0x0ED1; 0x1EF0 ].

Definition crc32_table : list Z := [
  0x00000000; 0x77073096; 0xEE0E612C; 0x990951BA; 0x076DC419; 0x706AF48F; 0xE963A535; 0x9E6495A3;
  0x0EDB8832; 0x79DCB8A4; 0xE0D5E91E; 0x97D2D988; 0x09B64C2B; 0x7EB17CBD; 0xE7B82D07; 0x90BF1D91;
  0x1DB71064; 0x6AB020F2; 0xF3B97148; 0x84BE41DE; 0x1ADAD47D; 0x6DDDE4EB; 0xF4D4B551; 0x83D385C7;
  0x136C9856; 0x646BA8C0; 0xFD62F97A; 0x8A65C9EC; 0x14015C4F; 0x63066CD9; 0xFA0F3D63; 0x8D080DF5;
  0x3B6E20C8; 0x4C69105E; 0xD56041E4; 0xA2677172; 0x3C03E4D1; 0x4B04D447; 0xD20D85FD; 0xA50AB56B;
  0x35B5A8FA; 0x42B2986C; 0xDBBBC9D6; 0xACBCF940; 0x32D86CE3; 0x45DF5C75; 0xDCD60DCF; 0xABD13D59;
  0x26D930AC; 0x51DE003A; 0xC8D75180; 0xBFD06116; 0x21B4F4B5; 0x56B3C423; 0xCFBA9599; 0xB8BDA50F;
  0x2802B89E; 0x5F058808; 0xC60CD9B2; 0xB10BE924; 0x2F6F7C87; 0x58684C11; 0xC1611DAB; 0xB6662D3D;
  0x76DC4190; 0x01DB7106; 0x98D220BC; 0xEFD5102A; 0x71B18589; 0x06B6B51F; 0x9FBFE4A5; 0xE8B8D433;
  0x7807C9A2; 0x0F00F934; 0x9609A88E; 0xE10E9818; 0x7F6A0DBB; 0x086D3D2D; 0x91646C97; 0xE6635C01;
  0x6B6B51F4; 0x1C6C6162; 0x856530D8; 0xF262004E; 0x6C0695ED; 0x1B01A57B; 0x8208F4C1; 0xF50FC457;
  0x65B0D9C6; 0x12B7E950; 0x8BBEB8EA; 0xFCB9887C; 0x62DD1DDF; 0x15DA2D49; 0x8CD37CF3; 0xFBD44C65;
  0x4DB26158; 0x3AB551CE; 0xA3BC0074; 0xD4BB30E2; 0x4ADFA541; 0x3DD895D7; 0xA4D1C46D; 0xD3D6F4FB;
  0x4369E96A; 0x346ED9FC; 0xAD678846; 0xDA60B8D0; 0x44042D73; 0x33031DE5; 0xAA0A4C5F; 0xDD0D7CC9;
  0x5005713C; 0x270241AA; 0xBE0B1010; 0xC90C2086; 0x5768B525; 0x206F85B3; 0xB966D409; 0xCE61E49F;
  0x5EDEF90E; 0x29D9C998; 0xB0D09822; 0xC7D7A8B4; 0x59B33D17; 0x2EB40D81; 0xB7BD5C3B; 0xC0BA6CAD;
  0xEDB88320; 0x9ABFB3B6; 0x03B6E20C; 0x74B1D29A; 0xEAD54739; 0x9DD277AF; 0x04DB2615; 0x73DC1683;
  0xE3630B12; 0x94643B84; 0x0D6D6A3E; 0x7A6A5AA8; 0xE40ECF0B; 0x9309FF9D; 0x0A00AE27; 0x7D079EB1;
  0xF00F9344; 0x8708A3D2; 0x1E01F268; 0x6906C2FE; 0xF762575D; 0x806567CB; 0x196C3671; 0x6E6B06E7;
  0xFED41B76; 0x89D32BE0; 0x10DA7A5A; 0x67DD4ACC; 0xF9B9DF6F; 0x8EBEEFF9; 0x17B7BE43; 0x60B08ED5;
  0xD6D6A3E8; 0xA1D1937E; 0x38D8C2C4; 0x4FDFF252; 0xD1BB67F1; 0xA6BC5767; 0x3FB506DD; 0x48B2364B;
  0xD80D2BDA; 0xAF0A1B4C; 0x36034AF6; 0x41047A60; 0xDF60EFC3; 0xA867DF55; 0x316E8EEF; 0x4669BE79;
  0xCB61B38C; 0xBC66831A; 0x256FD2A0; 0x5268E236; 0xCC0C7795; 0xBB0B4703; 0x220216B9; 0x5505262F;
  0xC5BA3BBE; 0xB2BD0B28; 0x2BB45A92; 0x5CB36A04; 0xC2D7FFA7; 0xB5D0CF31; 0x2CD99E8B; 0x5BDEAE1D;
  0x9B64C2B0; 0xEC63F226; 0x756AA39C; 0x026D930A; 0x9C0906A9; 0xEB0E363F; 0x72076785; 0x05005713;
  0x95BF4A82; 0xE2B87A14; 0x7BB12BAE; 0x0CB61B38; 0x92D28E9B; 0xE5D5BE0D; 0x7CDCEFB7; 0x0BDBDF21;
  0x86D3D2D4; 0xF1D4E242; 0x68DDB3F8; 0x1FDA836E; 0x81BE16CD; 0xF6B9265B; 0x6FB077E1; 0x18B74777;
  0x88085AE6; 0xFF0F6A70; 0x66063BCA; 0x11010B5C; 0x8F659EFF; 0xF862AE69; 0x616BFFD3; 0x166CCF45;
  0xA00AE278; 0xD70DD2EE; 0x4E048354; 0x3903B3C2; 0xA7672661; 0xD06016F7; 0x4969474D; 0x3E6E77DB;
  0xAED16A4A; 0xD9D65ADC; 0x40DF0B66; 0x37D83BF0; 0xA9BCAE53; 0xDEBB9EC5; 0x47B2CF7F; 0x30B5FFE9;
  0xBDBDF21C; 0xCABAC28A; 0x53B39330; 0x24B4A3A6; 0xBAD03605; 0xCDD70693; 0x54DE5729; 0x23D967BF;
  0xB3667A2E; 0xC4614AB8; 0x5D681B02; 0x2A6F2B94; 0xB40BBE37; 0xC30C8EA1; 0x5A05DF1B; 0x2D02EF8D ].

Arguments ccitt16_table : simpl never.
Arguments crc32_table : simpl never.

(** One turn of the loop of [CalcCrc16]; [crc << 8] is computed in [int] and
    cut to 16 bits by the assignment. *)
Definition crc16_byte (crc b : Z) : option Z :=
  t ← index ccitt16_table (Z.land (Z.lxor (Z.shiftr crc 8) b) 0xff);
  Some (u16 (Z.lxor t (Z.shiftl crc 8))).

Fixpoint CalcCrc16 (data : list Z) (crc : Z) : option Z :=
  match data with
  | [] => Some crc
  | b :: data' => crc' ← crc16_byte crc b; CalcCrc16 data' crc'
  end.

Definition crc32_byte (crc b : Z) : option Z :=
  t ← index crc32_table (Z.land (Z.lxor crc b) 0xff);
  Some (u32 (Z.lxor t (Z.shiftr crc 8))).

Fixpoint crc32_loop (data : list Z) (crc : Z) : option Z :=
  match data with
  | [] => Some crc
  | b :: data' => crc' ← crc32_byte crc b; crc32_loop data' crc'
  end.

(** [return ~crc] *)
Definition CalcCrc32 (data : list Z) (init_seed : Z) : option Z :=
  crc ← crc32_loop data init_seed; Some (u32 (Z.lnot crc)).

(** The table generators that the source keeps in comments. *)
Definition gen16_bit (p : Z * Z) : Z * Z :=
  let '(value, temp) := p in
  let value' :=
    if negb (Z.land (Z.lxor value temp) 0x8000 =? 0)
    then u16 (Z.lxor (Z.shiftl value 1) 0x1021) else u16 (Z.shiftl value 1) in
  (value', u16 (Z.shiftl temp 1)).

Definition gen16 (i : Z) : Z := (Nat.iter 8 gen16_bit (0, u16 (Z.shiftl i 8))).1.

Definition gen32_bit (crc : Z) : Z :=
  if negb (Z.land crc 1 =? 0)
  then Z.lxor (Z.shiftr crc 1) 0xEDB88320 else Z.shiftr crc 1.

Definition gen32 (i : Z) : Z := Nat.iter 8 gen32_bit i.

(** ** Sums with end-around carry *)

(** [while ((acc & 0xff00) != 0) acc = (acc & 0xff) + (acc >> 8);]  The fuel
    bounds the turns; [None] would be a loop that has not ended. *)
Fixpoint carry8 (fuel : nat) (acc : Z) : option Z :=
  if Z.land acc 0xff00 =? 0 then Some acc else
  match fuel with
  | O => None
  | S f => carry8 f (u16 (Z.land acc 0xff + Z.shiftr acc 8))
  end.

Fixpoint sum8 (data : list Z) (acc : Z) : option Z :=
  match data with
  | [] => Some acc
  | b :: data' => acc' ← carry8 2 (u16 (acc + b)); sum8 data' acc'
  end.

Definition CalcCheckSum8 (data : list Z) : option Z :=
  acc ← sum8 data 0; Some (u8 (Z.lnot (u8 acc))).

Fixpoint carry16 (fuel : nat) (acc : Z) : option Z :=
  if Z.land acc 0xffff0000 =? 0 then Some acc else
  match fuel with
  | O => None
  | S f => carry16 f (u32 (Z.shiftr acc 16 + Z.land acc 0x0000ffff))
  end.

Fixpoint sum16 (data : list Z) (acc : Z) : option Z :=
  match data with
  | [] => Some acc
  | [b] => carry16 2 (u32 (acc + Z.shiftl b 8))
  | b0 :: b1 :: data' =>
      acc' ← carry16 2 (u32 (acc + Z.lor (Z.shiftl b0 8) b1)); sum16 data' acc'
  end.

Definition CalcCheckSum16 (data : list Z) : option Z :=
  acc ← sum16 data 0; Some (u16 (Z.lnot (u16 acc))).

Example crc16_example :
  CalcCrc16 [0x02; 0x0A; 0x00; 0x03; 0xE6; 0x02; 0x08; 0x03] 0xffff = Some 0xD7DD.
Proof. vm_compute. reflexivity. Qed.
Example crc32_example : CalcCrc32 (str "hello crc !") 0xffffffff = Some 0x7DC7D3D4.
Proof. vm_compute. reflexivity. Qed.
Example sum8_example : CalcCheckSum8 [0x11; 0xff; 0xfe; 0xee; 0x34; 0xde] = Some 237.
Proof. vm_compute. reflexivity. Qed.

(** ** The cyclic codes, bit by bit *)

(** CRC-16/CCITT shifts left, polynomial 0x1021; CRC-32 shifts right,
    reflected polynomial 0xEDB88320. *)
Definition crc16_bit (x : Z) : Z :=
  Z.lxor (Z.land (Z.shiftl x 1) (Z.ones 16)) (if Z.testbit x 15 then 0x1021 else 0).

Definition crc32_bit (x : Z) : Z :=
  Z.lxor (Z.shiftr x 1) (if Z.testbit x 0 then 0xEDB88320 else 0).

Definition crc16_step (crc b : Z) : Z := Nat.iter 8 crc16_bit (Z.lxor crc (Z.shiftl b 8)).
Definition crc32_step (crc b : Z) : Z := Nat.iter 8 crc32_bit (Z.lxor crc b).

Definition crc16_ref (data : list Z) (seed : Z) : Z := foldl crc16_step seed data.
Definition crc32_ref (data : list Z) (seed : Z) : Z := foldl crc32_step seed data.

Definition xor_linear (f : Z -> Z) : Prop := forall x y, f (Z.lxor x y) = Z.lxor (f x) (f y).

Lemma iter_linear f n : xor_linear f -> xor_linear (Nat.iter n f).
Proof. intros Hf. induction n as [|n IH]; intros x y; [done|].
  rewrite !Nat.iter_succ. by rewrite IH, Hf. Qed.

Lemma lxor_if (p q : bool) c :
  (if xorb p q then c else 0) = Z.lxor (if p then c else 0) (if q then c else 0).
Proof. destruct p, q; cbn; by rewrite ?Z.lxor_0_r, ?Z.lxor_0_l, ?Z.lxor_nilpotent. Qed.

Lemma lxor_swap a b c d : Z.lxor (Z.lxor a b) (Z.lxor c d) = Z.lxor (Z.lxor a c) (Z.lxor b d).
Proof. zbits. Qed.

Lemma crc16_bit_linear : xor_linear crc16_bit.
Proof.
  intros x y. unfold crc16_bit. rewrite Z.lxor_spec, lxor_if, <- lxor_swap. f_equal. zbits.
Qed.

Lemma crc32_bit_linear : xor_linear crc32_bit.
Proof.
  intros x y. unfold crc32_bit. rewrite Z.lxor_spec, lxor_if, <- lxor_swap. f_equal. zbits.
Qed.

Lemma table16 h : is_byte h -> index ccitt16_table h = Some (Nat.iter 8 crc16_bit (Z.shiftl h 8)).
Proof.
  intros Hh.
  assert (H := byte_forallb (fun h => match index ccitt16_table h with
      Some t => t =? Nat.iter 8 crc16_bit (Z.shiftl h 8) | None => false end)
    ltac:(vm_compute; reflexivity) h Hh). cbn beta in H.
  destruct (index ccitt16_table h); [|done]. by apply Z.eqb_eq in H as ->.
Qed.

Lemma table32 l : is_byte l -> index crc32_table l = Some (Nat.iter 8 crc32_bit l).
Proof.
  intros Hl.
  assert (H := byte_forallb (fun h => match index crc32_table h with
      Some t => t =? Nat.iter 8 crc32_bit h | None => false end)
    ltac:(vm_compute; reflexivity) l Hl). cbn beta in H.
  destruct (index crc32_table l); [|done]. by apply Z.eqb_eq in H as ->.
Qed.

Lemma crc16_low l : is_byte l -> Nat.iter 8 crc16_bit l = Z.shiftl l 8.
Proof.
  intros Hl. apply Z.eqb_eq, (byte_forallb (fun l => Nat.iter 8 crc16_bit l =? Z.shiftl l 8));
    [vm_compute; reflexivity|done].
Qed.

Lemma crc32_bit_shift h k : 0 <= k -> crc32_bit (Z.shiftl h (k + 1)) = Z.shiftl h k.
Proof.
  intros Hk. unfold crc32_bit. rewrite Z.shiftl_spec_low by lia. rewrite Z.lxor_0_r.
  apply Z.bits_inj'. intros n Hn. rewrite Z.shiftr_spec, !Z.shiftl_spec by lia. f_equal. lia.
Qed.

Lemma crc32_shift_iter n : forall h, Nat.iter n crc32_bit (Z.shiftl h (Z.of_nat n)) = h.
Proof.
  induction n as [|n IH]; intros h; [apply Z.shiftl_0_r|].
  rewrite Nat.iter_succ_r, Nat2Z.inj_succ, <- Z.add_1_r.
  by rewrite crc32_bit_shift, IH by lia.
Qed.

Lemma crc32_high h : Nat.iter 8 crc32_bit (Z.shiftl h 8) = h.
Proof. exact (crc32_shift_iter 8 h). Qed.

Lemma land_byte x : is_byte (Z.land x 0xff).
Proof. rewrite (land_mask _ _ 8) by done. apply (byte_wrap x). Qed.

Lemma table_range w tbl i t :
  forallb (fun t => (0 <=? t) && (t <? 2 ^ w)) tbl = true -> index tbl i = Some t -> in_range w t.
Proof.
  unfold index. intros HF Hi. rewrite forallb_forall in HF. case_match; [done|].
  apply list_elem_of_lookup_2, list_elem_of_In, HF in Hi. unfold in_range. lia.
Qed.

Lemma crc16_merge t crc : in_range 16 t ->
  u16 (Z.lxor t (Z.shiftl crc 8)) = Z.lxor t (Z.shiftl (Z.land crc 0xff) 8).
Proof.
  intros Ht. rewrite wrap_land by lia. change 0xff with (Z.ones 8).
  apply Z.bits_inj'. intros n Hn. zbits_core.
  - done.
  - done.
  - by rewrite (high_bits 16 t) by (done || lia).
Qed.

Lemma crc16_byte_ref crc b : in_range 16 crc -> is_byte b ->
  crc16_byte crc b = Some (crc16_step crc b).
Proof.
  intros Hc Hb. unfold crc16_byte, crc16_step. set (h := Z.lxor (Z.shiftr crc 8) b).
  assert (Hh : in_range 8 h).
  { apply lxor_range; [lia| |done]. rewrite shr_div by lia.
    unfold in_range in *. change (2 ^ 8) with 256 in *. change (2 ^ 16) with 65536 in *. dlia. }
  assert (E : Z.lxor crc (Z.shiftl b 8) = Z.lxor (Z.shiftl h 8) (Z.land crc (Z.ones 8))).
  { unfold h. rewrite Z.shiftl_lxor. rewrite (lxor_split crc 8) at 1 by lia. zbits. }
  rewrite (land_mask _ _ 8), Z.mod_small by done.
  pose proof (table16 h Hh) as Ht. rewrite Ht. cbn [mbind option_bind]. f_equal.
  apply (table_range 16) in Ht; [|vm_compute; reflexivity].
  change (Z.ones 8) with 0xff in E.
  rewrite E, (iter_linear _ 8 crc16_bit_linear), (crc16_low _ (land_byte crc)).
  by apply crc16_merge.
Qed.

Lemma crc16_bit_range x : in_range 16 (crc16_bit x).
Proof.
  apply lxor_range; [lia| |by case_match].
  rewrite Z.land_ones by lia. apply (wrap_range 16). lia.
Qed.

Lemma crc16_step_range crc b : in_range 16 (crc16_step crc b).
Proof. unfold crc16_step. rewrite Nat.iter_succ. apply crc16_bit_range. Qed.

Lemma crc32_byte_ref crc b : in_range 32 crc -> is_byte b ->
  crc32_byte crc b = Some (crc32_step crc b) /\ in_range 32 (crc32_step crc b).
Proof.
  intros Hc Hb. unfold crc32_byte, crc32_step. set (x := Z.lxor crc b).
  pose proof (table32 _ (land_byte x)) as Ht. rewrite Ht. cbn [mbind option_bind].
  apply (table_range 32) in Ht; [|vm_compute; reflexivity].
  assert (E : Nat.iter 8 crc32_bit x =
      Z.lxor (Nat.iter 8 crc32_bit (Z.land x 0xff)) (Z.shiftr crc 8)).
  { rewrite (lxor_split x 8) at 1 by lia. change (Z.ones 8) with 0xff.
    rewrite (iter_linear _ 8 crc32_bit_linear), crc32_high, Z.lxor_comm. f_equal.
    unfold x. rewrite Z.shiftr_lxor, (shr_div b), (Z.div_small b) by (done || lia).
    apply Z.lxor_0_r. }
  rewrite E. assert (Hr : in_range 32 (Z.lxor (Nat.iter 8 crc32_bit (Z.land x 0xff)) (Z.shiftr crc 8))).
  { apply lxor_range; [lia|done|]. rewrite shr_div by lia. unfold in_range in *.
    change (2 ^ 8) with 256. change (2 ^ 32) with 4294967296 in *. dlia. }
  by rewrite wrap_small.
Qed.

Lemma foldl_step {A B} (f : A -> B -> A) (a : A) (b : B) l : foldl f a (b :: l) = foldl f (f a b) l.
Proof. reflexivity. Qed.

Lemma CalcCrc16_ref data : forall crc, in_range 16 crc -> are_bytes data ->
  CalcCrc16 data crc = Some (crc16_ref data crc).
Proof.
  induction data as [|b data IH]; intros crc Hc Hd; [done|].
  apply Forall_cons in Hd as [Hb Hd]. cbn [CalcCrc16]. rewrite (crc16_byte_ref crc b Hc Hb).
  cbn [mbind option_bind]. unfold crc16_ref in *. rewrite foldl_step.
  exact (IH (crc16_step crc b) (crc16_step_range crc b) Hd).
Qed.

Lemma crc32_loop_ref data : forall crc, in_range 32 crc -> are_bytes data ->
  crc32_loop data crc = Some (crc32_ref data crc) /\ in_range 32 (crc32_ref data crc).
Proof.
  induction data as [|b data IH]; intros crc Hc Hd; [done|].
  apply Forall_cons in Hd as [Hb Hd]. destruct (crc32_byte_ref crc b Hc Hb) as [E Hr].
  destruct (IH (crc32_step crc b) Hr Hd) as [E' Hr'].
  cbn [crc32_loop]. rewrite E. cbn [mbind option_bind]. unfold crc32_ref in *.
  rewrite foldl_step, E'. split; [reflexivity|exact Hr'].
Qed.

(** ** End-around carry *)

Lemma carry8_ok acc : 0 <= acc <= 510 ->
  carry8 2 acc = Some (if acc <=? 255 then acc else acc - 255).
Proof.
  intros H.
  assert (Hc := range_forallb 511 (fun acc => match carry8 2 acc with
      Some r => r =? (if acc <=? 255 then acc else acc - 255) | None => false end)
    ltac:(vm_compute; reflexivity) acc ltac:(lia)). cbn beta in Hc.
  destruct (carry8 2 acc); [|done]. by apply Z.eqb_eq in Hc as ->.
Qed.

Lemma carry16_ok acc : 0 <= acc <= 131070 ->
  carry16 2 acc = Some (if acc <=? 65535 then acc else acc - 65535).
Proof.
  intros H. assert (Hl : forall a, 0 <= a < 2 ^ 32 -> Z.land a 0xffff0000 = a / 65536 * 65536).
  { intros a Ha. change 0xffff0000 with (Z.shiftl (Z.ones 16) 16).
    transitivity (Z.shiftl (Z.shiftr a 16) 16); [|by rewrite shr_div, shl_mul by lia].
    apply Z.bits_inj'. intros n Hn. zbits_core; try done.
    by rewrite (high_bits 32 a) by (done || lia). }
  assert (Hm : forall a, Z.land a 0x0000ffff = a mod 65536)
    by (intros a; by rewrite (land_mask _ _ 16)).
  cbn [carry16]. rewrite Hl by lia. destruct (Z.leb_spec acc 65535).
  - by rewrite (proj2 (Z.eqb_eq _ 0)) by dlia.
  - rewrite (proj2 (Z.eqb_neq _ 0)) by dlia. rewrite Hm, shr_div by lia.
    change (2 ^ 16) with 65536.
    rewrite (wrap_small 32) by (unfold in_range; change (2 ^ 32) with 4294967296; dlia).
    rewrite Hl by dlia. rewrite (proj2 (Z.eqb_eq _ 0)) by dlia. f_equal. dlia.
Qed.

(** The value that [CalcCheckSum8] accumulates: congruent to the sum modulo
    255, and zero only for an all-zero input. *)
Definition carry (m acc : Z) : Z := if acc <=? m then acc else acc - m.

Definition acc8 (data : list Z) (acc : Z) : Z := foldl (fun a b => carry 255 (a + b)) acc data.

(** Big-endian 16-bit words, a last odd byte filled with zero. *)
Fixpoint words16 (data : list Z) : list Z :=
  match data with
  | [] => []
  | [b] => [b * 256]
  | b0 :: b1 :: data' => b0 * 256 + b1 :: words16 data'
  end.

Definition acc16 (data : list Z) (acc : Z) : Z :=
  foldl (fun a w => carry 65535 (a + w)) acc (words16 data).

Lemma carry_range m a b : 0 <= a <= m -> 0 <= b <= m -> 0 <= carry m (a + b) <= m.
Proof. unfold carry. intros. destruct (Z.leb_spec (a + b) m); lia. Qed.

Lemma sum8_acc data : forall acc, are_bytes data -> 0 <= acc <= 255 ->
  sum8 data acc = Some (acc8 data acc) /\ 0 <= acc8 data acc <= 255.
Proof.
  induction data as [|b data IH]; intros acc Hd Ha; [done|].
  apply Forall_cons in Hd as [Hb Hd]. unfold is_byte in Hb. cbn [sum8].
  rewrite wrap_small by (unfold in_range; change (2 ^ 16) with 65536; lia).
  rewrite carry8_ok by lia. cbn [mbind option_bind].
  destruct (IH (carry 255 (acc + b)) Hd) as [E Hr]; [apply carry_range; lia|].
  split; [exact E|exact Hr].
Qed.

Lemma list_ind2 {A} (P : list A -> Prop) :
  P [] -> (forall a, P [a]) -> (forall a b l, P l -> P (a :: b :: l)) -> forall l, P l.
Proof.
  intros H0 H1 H2. fix IH 1. intros [|a [|b l]]; [done|apply H1|]. apply H2, IH.
Qed.

Lemma sum16_acc data : forall acc, are_bytes data -> 0 <= acc <= 65535 ->
  sum16 data acc = Some (acc16 data acc) /\ 0 <= acc16 data acc <= 65535.
Proof.
  induction data as [|b|b0 b1 data IH] using list_ind2; intros acc Hd Ha; [done| |];
    repeat (apply Forall_cons in Hd as [? Hd]); unfold is_byte in *; cbn [sum16].
  - rewrite shl_mul by lia. change (2 ^ 8) with 256.
    rewrite wrap_small by (unfold in_range; change (2 ^ 32) with 4294967296; lia).
    rewrite carry16_ok by lia. split; [done|]. apply carry_range; lia.
  - rewrite shl_mul, (lor_fields' _ _ 8) by (done || (change (2 ^ 8) with 256; lia)).
    change (2 ^ 8) with 256.
    rewrite wrap_small by (unfold in_range; change (2 ^ 32) with 4294967296; lia).
    rewrite carry16_ok by lia. cbn [mbind option_bind].
    destruct (IH (carry 65535 (acc + (b0 * 256 + b1))) Hd) as [E Hr]; [apply carry_range; lia|].
    split; [exact E|exact Hr].
Qed.

Lemma not_word w m acc : 0 <= w -> m = 2 ^ w - 1 -> 0 <= acc <= m ->
  wrap w (Z.lnot (wrap w acc)) = m - acc.
Proof.
  intros Hw -> Ha. rewrite (wrap_small w acc) by (unfold in_range; lia).
  unfold wrap, Z.lnot. rewrite <- (Z.mod_unique (Z.pred (- acc)) (2 ^ w) (-1) (2 ^ w - 1 - acc)); lia.
Qed.

Lemma acc8_app d1 d2 acc : acc8 (d1 ++ d2) acc = acc8 d2 (acc8 d1 acc).
Proof. apply foldl_app. Qed.

Lemma words16_app d1 d2 : Nat.even (length d1) = true ->
  words16 (d1 ++ d2) = words16 d1 ++ words16 d2.
Proof.
  induction d1 as [|b|b0 b1 d1 IH] using list_ind2; intros H; [done|done|].
  cbn. f_equal. by apply IH.
Qed.

Lemma words16_pad d : Nat.even (length d) = false -> words16 (d ++ [0]) = words16 d.
Proof.
  induction d as [|b|b0 b1 d IH] using list_ind2; intros H; [done| |].
  - cbn. by rewrite Z.add_0_r.
  - cbn. f_equal. by apply IH.
Qed.

(** Zero bytes up to an even length. *)
Definition pad16 (data : list Z) : list Z :=
  if Nat.even (length data) then data else data ++ [0].

Lemma acc16_pad data acc : acc16 (pad16 data) acc = acc16 data acc.
Proof. unfold acc16, pad16. destruct (Nat.even _) eqn:E; [done|]. by rewrite words16_pad. Qed.

(** ** Properties *)

(** C33: the table-driven CRC routines are the bit-serial ones: CRC-16/CCITT
    with polynomial 0x1021, most significant bit first, and CRC-32 with the
    reflected polynomial 0xEDB88320 and a final complement, for every seed and
    every data.  The two tables are the ones that the generators compute. *)
Theorem crc_is_bit_serial data seed16 seed32 :
  are_bytes data -> in_range 16 seed16 -> in_range 32 seed32 ->
  CalcCrc16 data seed16 = Some (crc16_ref data seed16) /\
  CalcCrc32 data seed32 = Some (2 ^ 32 - 1 - crc32_ref data seed32) /\
  map gen16 (seqZ 0 256) = ccitt16_table /\ map gen32 (seqZ 0 256) = crc32_table.
Proof.
  intros Hd H16 H32. split; [by apply CalcCrc16_ref|].
  split; [|split; vm_compute; reflexivity].
  destruct (crc32_loop_ref data seed32 H32 Hd) as [E Hr]. unfold CalcCrc32. rewrite E.
  cbn [mbind option_bind]. f_equal. unfold in_range in Hr.
  rewrite <- (wrap_small 32 (crc32_ref data seed32)) at 1 by done. apply not_word; lia.
Qed.

(** appending its checksum to the data makes the checksum of the whole
    zero: one byte for [CalcCheckSum8]; for [CalcCheckSum16] two bytes, most
    significant first, after zero padding to an even length.  The carry loops
    always end. *)
Theorem checksum_verifies data :
  are_bytes data ->
  (c ← CalcCheckSum8 data; CalcCheckSum8 (data ++ [c])) = Some 0 /\
  (c ← CalcCheckSum16 data;
   CalcCheckSum16 (pad16 data ++ [Z.shiftr c 8; Z.land c 0xff])) = Some 0.
Proof.
  intros Hd. unfold CalcCheckSum8, CalcCheckSum16. split.
  - destruct (sum8_acc data 0 Hd ltac:(lia)) as [-> Hr]. cbn [mbind option_bind].
    rewrite (not_word 8 255) by (done || lia). set (a := acc8 data 0) in *.
    destruct (sum8_acc (data ++ [255 - a]) 0) as [-> _]; [|lia|].
    { apply Forall_app. split; [done|]. repeat constructor; lia. }
    cbn [mbind option_bind]. rewrite acc8_app. fold a. cbn. unfold carry.
    rewrite (proj2 (Z.leb_le _ _)) by lia. by replace (a + (255 - a)) with 255 by lia.
  - destruct (sum16_acc data 0 Hd ltac:(lia)) as [-> Hr]. cbn [mbind option_bind].
    rewrite (not_word 16 65535) by (done || lia). set (a := acc16 data 0) in *.
    rewrite shr_div, (land_mask _ _ 8) by (done || lia). change (2 ^ 8) with 256.
    set (hi := (65535 - a) / 256). set (lo := (65535 - a) mod 256).
    assert (Hb : is_byte hi /\ is_byte lo) by (unfold is_byte, hi, lo; dlia).
    assert (Hp : are_bytes (pad16 data)).
    { unfold pad16. case_match; [done|]. apply Forall_app. split; [done|]. repeat constructor; lia. }
    destruct (sum16_acc (pad16 data ++ [hi; lo]) 0) as [-> _]; [|lia|].
    { apply Forall_app. split; [done|]. repeat constructor; apply Hb. }
    cbn [mbind option_bind]. unfold acc16. rewrite words16_app, foldl_app.
    + change (foldl _ 0 (words16 (pad16 data))) with (acc16 (pad16 data) 0).
      rewrite acc16_pad. fold a. cbn. unfold carry.
      replace (hi * 256 + lo) with (65535 - a) by (unfold hi, lo; dlia).
      rewrite (proj2 (Z.leb_le _ _)) by lia. by replace (a + (65535 - a)) with 65535 by lia.
    + unfold pad16. destruct (Nat.even (length data)) eqn:E; [done|].
      rewrite length_app, Nat.even_add, E. done.
Qed.

(** ** Witnesses *)

Lemma crc_is_bit_serial_witness :
  CalcCrc16 (str "abc") 0xffff = Some (crc16_ref (str "abc") 0xffff) /\
  CalcCrc32 (str "abc") 0xffffffff = Some (2 ^ 32 - 1 - crc32_ref (str "abc") 0xffffffff) /\
  map gen16 (seqZ 0 256) = ccitt16_table /\ map gen32 (seqZ 0 256) = crc32_table.
Proof.
  apply (crc_is_bit_serial (str "abc")).
  - repeat constructor; vm_compute; discriminate.
  - split; [lia|vm_compute; reflexivity].
  - split; [lia|vm_compute; reflexivity].
Defined.

Lemma checksum_verifies_witness :
  (c ← CalcCheckSum8 [1; 255; 7]; CalcCheckSum8 ([1; 255; 7] ++ [c])) = Some 0 /\
  (c ← CalcCheckSum16 [1; 255; 7];
   CalcCheckSum16 (pad16 [1; 255; 7] ++ [Z.shiftr c 8; Z.land c 0xff])) = Some 0.
Proof. apply (checksum_verifies [1; 255; 7]). repeat constructor; lia. Defined.
