(* ===== verification/Md5.v ===== *)
(** * MD5

    Models [modules/crypto/md5.cpp].  The program comes first, RFC 1321 as a
    reference after it.  [None] is an access out of an array or to a byte that was
    never written, or an assertion that fails. *)
From S2P Require Import Prelude.

(** ** The program *)

(** [~x] of a 32-bit word. *)
Definition not32 (x : Z) : Z := u32 (Z.lnot x).

Definition F (x y z : Z) : Z := Z.lor (Z.land x y) (Z.land (not32 x) z).
Definition G (x y z : Z) : Z := Z.lor (Z.land x z) (Z.land y (not32 z)).
Definition H (x y z : Z) : Z := Z.lxor (Z.lxor x y) z.
Definition I (x y z : Z) : Z := Z.lxor y (Z.lor x (not32 z)).

Definition ROTATE_LEFT (x n : Z) : Z := Z.lor (u32 (Z.shiftl x n)) (Z.shiftr x (32 - n)).

(** The macros [FF], [GG], [HH] and [II] differ in the function only. *)
Inductive macro := FF | GG | HH | II.

Definition fn (m : macro) : Z -> Z -> Z -> Z :=
  match m with FF => F | GG => G | HH => H | II => I end.

(** The local variables [a], [b], [c], [d] of [Transform] and their names. *)
Record regs := mkRegs { va : Z; vb : Z; vc : Z; vd : Z }.

Inductive reg := ra | rb | rc | rd.

Definition get_reg (r : reg) (s : regs) : Z :=
  match r with ra => va s | rb => vb s | rc => vc s | rd => vd s end.

Definition set_reg (r : reg) (v : Z) (s : regs) : regs :=
  match r with
  | ra => mkRegs v (vb s) (vc s) (vd s)
  | rb => mkRegs (va s) v (vc s) (vd s)
  | rc => mkRegs (va s) (vb s) v (vd s)
  | rd => mkRegs (va s) (vb s) (vc s) v
  end.

(** One use of a macro: [FF(a, b, c, d, x[k], s, ac)]. *)
Record call := mk_call {
  c_fn : macro; c_a : reg; c_b : reg; c_c : reg; c_d : reg; c_k : Z; c_s : Z; c_ac : Z }.

Definition run_call (x : list Z) (s : regs) (c : call) : option regs :=
  xk ← index x (c_k c);
  let a := u32 (get_reg (c_a c) s +
    u32 (u32 (fn (c_fn c) (get_reg (c_b c) s) (get_reg (c_c c) s) (get_reg (c_d c) s) + xk)
         + c_ac c)) in
  let a := ROTATE_LEFT a (c_s c) in
  Some (set_reg (c_a c) (u32 (a + get_reg (c_b c) s)) s).

Fixpoint run_calls (x : list Z) (s : regs) (l : list call) : option regs :=
  match l with
  | [] => Some s
  | c :: l' => s' ← run_call x s c; run_calls x s' l'
  end.

Definition rounds : list call := [
  mk_call FF ra rb rc rd 0 7 0xd76aa478; mk_call FF rd ra rb rc 1 12 0xe8c7b756;
  mk_call FF rc rd ra rb 2 17 0x242070db; mk_call FF rb rc rd ra 3 22 0xc1bdceee;
  mk_call FF ra rb rc rd 4 7 0xf57c0faf; mk_call FF rd ra rb rc 5 12 0x4787c62a;
  mk_call FF rc rd ra rb 6 17 0xa8304613; mk_call FF rb rc rd ra 7 22 0xfd469501;
  mk_call FF ra rb rc rd 8 7 0x698098d8; mk_call FF rd ra rb rc 9 12 0x8b44f7af;
  mk_call FF rc rd ra rb 10 17 0xffff5bb1; mk_call FF rb rc rd ra 11 22 0x895cd7be;
  mk_call FF ra rb rc rd 12 7 0x6b901122; mk_call FF rd ra rb rc 13 12 0xfd987193;
  mk_call FF rc rd ra rb 14 17 0xa679438e; mk_call FF rb rc rd ra 15 22 0x49b40821;
  mk_call GG ra rb rc rd 1 5 0xf61e2562; mk_call GG rd ra rb rc 6 9 0xc040b340;
  mk_call GG rc rd ra rb 11 14 0x265e5a51; mk_call GG rb rc rd ra 0 20 0xe9b6c7aa;
  mk_call GG ra rb rc rd 5 5 0xd62f105d; mk_call GG rd ra rb rc 10 9 0x2441453;
  mk_call GG rc rd ra rb 15 14 0xd8a1e681; mk_call GG rb rc rd ra 4 20 0xe7d3fbc8;
  mk_call GG ra rb rc rd 9 5 0x21e1cde6; mk_call GG rd ra rb rc 14 9 0xc33707d6;
  mk_call GG rc rd ra rb 3 14 0xf4d50d87; mk_call GG rb rc rd ra 8 20 0x455a14ed;
  mk_call GG ra rb rc rd 13 5 0xa9e3e905; mk_call GG rd ra rb rc 2 9 0xfcefa3f8;
  mk_call GG rc rd ra rb 7 14 0x676f02d9; mk_call GG rb rc rd ra 12 20 0x8d2a4c8a;
  mk_call HH ra rb rc rd 5 4 0xfffa3942; mk_call HH rd ra rb rc 8 11 0x8771f681;
  mk_call HH rc rd ra rb 11 16 0x6d9d6122; mk_call HH rb rc rd ra 14 23 0xfde5380c;
  mk_call HH ra rb rc rd 1 4 0xa4beea44; mk_call HH rd ra rb rc 4 11 0x4bdecfa9;
  mk_call HH rc rd ra rb 7 16 0xf6bb4b60; mk_call HH rb rc rd ra 10 23 0xbebfbc70;
  mk_call HH ra rb rc rd 13 4 0x289b7ec6; mk_call HH rd ra rb rc 0 11 0xeaa127fa;
  mk_call HH rc rd ra rb 3 16 0xd4ef3085; mk_call HH rb rc rd ra 6 23 0x4881d05;
  mk_call HH ra rb rc rd 9 4 0xd9d4d039; mk_call HH rd ra rb rc 12 11 0xe6db99e5;
  mk_call HH rc rd ra rb 15 16 0x1fa27cf8; mk_call HH rb rc rd ra 2 23 0xc4ac5665;
  mk_call II ra rb rc rd 0 6 0xf4292244; mk_call II rd ra rb rc 7 10 0x432aff97;
  mk_call II rc rd ra rb 14 15 0xab9423a7; mk_call II rb rc rd ra 5 21 0xfc93a039;
  mk_call II ra rb rc rd 12 6 0x655b59c3; mk_call II rd ra rb rc 3 10 0x8f0ccc92;
  mk_call II rc rd ra rb 10 15 0xffeff47d; mk_call II rb rc rd ra 1 21 0x85845dd1;
  mk_call II ra rb rc rd 8 6 0x6fa87e4f; mk_call II rd ra rb rc 15 10 0xfe2ce6e0;
  mk_call II rc rd ra rb 6 15 0xa3014314; mk_call II rb rc rd ra 13 21 0x4e0811a1;
  mk_call II ra rb rc rd 4 6 0xf7537e82; mk_call II rd ra rb rc 11 10 0xbd3af235;
  mk_call II rc rd ra rb 2 15 0x2ad7d2bb; mk_call II rb rc rd ra 9 21 0xeb86d391 ].

Arguments rounds : simpl never.

Definition PADDING : list Z := 0x80 :: replicate 63 0.

(** [Encode]: turn [i] of the loop writes four bytes; [j] is [4 * i]. *)
Definition Encode (output input : list Z) (len : Z) : option (list Z) :=
  for_each (seqZ 0 (len / 4)) (fun i output =>
    w ← index input i;
    output ← set_at output (4 * i) (Z.land w 0xFF);
    output ← set_at output (4 * i + 1) (Z.land (Z.shiftr w 8) 0xFF);
    output ← set_at output (4 * i + 2) (Z.land (Z.shiftr w 16) 0xFF);
    set_at output (4 * i + 3) (Z.land (Z.shiftr w 24) 0xFF)) output.

(** [Decode] of the 64 bytes of a block. *)
Definition Decode (input : list Z) (len : Z) : option (list Z) :=
  mapM (fun i =>
    b0 ← index input (4 * i);
    b1 ← index input (4 * i + 1);
    b2 ← index input (4 * i + 2);
    b3 ← index input (4 * i + 3);
    Some (u32 (Z.lor (Z.lor (Z.lor b0 (Z.shiftl b1 8)) (Z.shiftl b2 16)) (Z.shiftl b3 24))))
    (seqZ 0 (len / 4)).

Definition Transform (state block : list Z) : option (list Z) :=
  a ← index state 0; b ← index state 1; c ← index state 2; d ← index state 3;
  x ← Decode block 64;
  s ← run_calls x (mkRegs a b c d) rounds;
  Some [u32 (a + va s); u32 (b + vb s); u32 (c + vc s); u32 (d + vd s)].

(** The object; a byte of [buffer_] that was not written is [None]. *)
Record md5 := mkMd5 {
  count0 : Z; count1 : Z; state_ : list Z; buffer_ : list (option Z); is_finished_ : bool }.

Definition new_md5 : md5 :=
  mkMd5 0 0 [0x67452301; 0xEFCDAB89; 0x98BADCFE; 0x10325476] (replicate 64 None) false.

(** The bit counters after [len] more bytes: [count_[0] += len << 3;
    if (count_[0] < (len << 3)) count_[1]++; count_[1] += len >> 29]. *)
Definition add_count (c0 c1 len : Z) : Z * Z :=
  let bits := u64 (Z.shiftl len 3) in
  let c0' := u32 (c0 + bits) in
  let c1' := if c0' <? bits then u32 (c1 + 1) else c1 in
  (c0', u32 (c1' + Z.shiftr len 29)).

(** [for (; i + 64 <= plain_text_len; i += 64) Transform(state_, plain + i)]
    with a 32-bit [i]. *)
Fixpoint transform_loop (fuel : nat) (plain : list Z) (i : Z) (st : list Z) : option (Z * list Z) :=
  if u32 (i + 64) <=? Z.of_nat (length plain) then
    match fuel with
    | O => None
    | S f =>
        block ← slice plain i 64;
        st ← Transform st block;
        transform_loop f plain (u32 (i + 64)) st
    end
  else Some (i, st).

Definition update (m : md5) (plain : list Z) : option md5 :=
  if is_finished_ m then None else
  let len := Z.of_nat (length plain) in
  let index := Z.land (Z.shiftr (count0 m) 3) 0x3F in
  let partlen := u32 (64 - index) in
  let '(c0, c1) := add_count (count0 m) (count1 m) len in
  '(buffer, st, index, i) ← (
    if partlen <=? len then
      head ← slice plain 0 partlen;
      buffer ← blit (buffer_ m) index (map Some head);
      block ← mapM id buffer;
      st ← Transform (state_ m) block;
      '(i, st) ← transform_loop (length plain / 64) plain partlen st;
      Some (buffer, st, 0, i)
    else Some (buffer_ m, state_ m, index, 0));
  rest ← slice plain i (len - i);
  buffer ← blit buffer index (map Some rest);
  Some (mkMd5 c0 c1 st buffer false).

Definition finish (m : md5) (digest : list Z) : option (md5 * list Z) :=
  let index := Z.land (Z.shiftr (count0 m) 3) 0x3F in
  let padlen := if index <? 56 then u32 (56 - index) else u32 (120 - index) in
  bits ← Encode (replicate 8 0) [count0 m; count1 m] 8;
  pad ← slice PADDING 0 padlen;
  m ← update m pad;
  m ← update m bits;
  digest ← Encode digest (state_ m) 16;
  Some (mkMd5 (count0 m) (count1 m) (state_ m) (buffer_ m) true, digest).

(** ** RFC 1321 *)

Module Rfc1321.

(** [T[i]] is the integer part of 2^32 times the absolute value of the sine of
    [i].  The sine is its series in fixed point with 160 binary digits. *)
Fixpoint sine_terms (n : nat) (k x term : Z) : Z :=
  match n with
  | O => 0
  | S n => term + sine_terms n (k + 2) x (- (term * x * x) / ((k + 1) * (k + 2)))
  end.

Definition T (i : Z) : Z :=
  Z.shiftr (Z.abs (sine_terms 110 1 i (i * 2 ^ 160))) 128.

Definition rotl (x s : Z) : Z := (x * 2 ^ s) mod 2 ^ 32 + x / 2 ^ (32 - s).

(** Operation [i] of a block: the function, the word and the shift. *)
Definition fun_of (i : Z) : macro :=
  if i <? 16 then FF else if i <? 32 then GG else if i <? 48 then HH else II.

Definition k_of (i : Z) : Z :=
  match fun_of i with
  | FF => i | GG => (5 * i + 1) mod 16 | HH => (3 * i + 5) mod 16 | II => 7 * i mod 16
  end.

Definition s_of (i : Z) : Z :=
  default 0 (match fun_of i with
   | FF => [7; 12; 17; 22] | GG => [5; 9; 14; 20] | HH => [4; 11; 16; 23] | II => [6; 10; 15; 21]
   end !! Z.to_nat (i mod 4)).

Definition word_at (x : list Z) (k : Z) : Z := default 0 (index x k).

Definition operation (x : list Z) (q : Z * Z * Z * Z) (i : Z) : Z * Z * Z * Z :=
  let '(a, b, c, d) := q in
  let t := (a + fn (fun_of i) b c d + word_at x (k_of i) + T (i + 1)) mod 2 ^ 32 in
  (d, (b + rotl t (s_of i)) mod 2 ^ 32, b, c).

(** Bytes to words, low order byte first. *)
Fixpoint words (l : list Z) : list Z :=
  match l with
  | b0 :: b1 :: b2 :: b3 :: l => (b0 + 2 ^ 8 * b1 + 2 ^ 16 * b2 + 2 ^ 24 * b3) :: words l
  | _ => []
  end.

Definition process (q : Z * Z * Z * Z) (block : list Z) : Z * Z * Z * Z :=
  let '(a, b, c, d) := q in
  let '(a', b', c', d') := foldl (operation (words block)) q (seqZ 0 64) in
  ((a + a') mod 2 ^ 32, (b + b') mod 2 ^ 32, (c + c') mod 2 ^ 32, (d + d') mod 2 ^ 32).

Fixpoint process_blocks (n : nat) (q : Z * Z * Z * Z) (l : list Z) : Z * Z * Z * Z :=
  match n with
  | O => q
  | S n => process_blocks n (process q (take 64 l)) (drop 64 l)
  end.

Fixpoint le_bytes (n : nat) (x : Z) : list Z :=
  match n with O => [] | S n => x mod 256 :: le_bytes n (x / 256) end.

(** A one bit, zeros up to 56 bytes modulo 64, and the length in bits. *)
Definition pad (msg : list Z) : list Z :=
  let n := Z.of_nat (length msg) in
  msg ++ 0x80 :: replicate (Z.to_nat ((55 - n) mod 64)) 0 ++ le_bytes 8 ((8 * n) mod 2 ^ 64).

Definition init : Z * Z * Z * Z := (0x67452301, 0xefcdab89, 0x98badcfe, 0x10325476).

Definition md5 (msg : list Z) : list Z :=
  let l := pad msg in
  let '(a, b, c, d) := process_blocks (length l / 64) init l in
  le_bytes 4 a ++ le_bytes 4 b ++ le_bytes 4 c ++ le_bytes 4 d.

End Rfc1321.

(** ** The block transformation is that of the reference *)

Lemma rotate_rotl x s : in_range 32 x -> 0 < s < 32 -> ROTATE_LEFT x s = Rfc1321.rotl x s.
Proof.
  intros Hx Hs. unfold ROTATE_LEFT, Rfc1321.rotl, wrap, in_range in *.
  rewrite shl_mul, shr_div by lia.
  assert (2 ^ 32 = 2 ^ (32 - s) * 2 ^ s) as E by (rewrite <- Z.pow_add_r by lia; f_equal; lia).
  rewrite E, Z.mul_mod_distr_r by lia.
  apply lor_fields; [lia|]. split; [apply Z.div_pos; lia|].
  apply Z.div_lt_upper_bound; lia.
Qed.

(** The registers in the order that operation [i] names them. *)
Definition names (i : Z) : reg * reg * reg * reg :=
  match i mod 4 with
  | 0 => (ra, rb, rc, rd) | 1 => (rd, ra, rb, rc) | 2 => (rc, rd, ra, rb) | _ => (rb, rc, rd, ra)
  end.

Definition call_of (i : Z) : call :=
  let '(a, b, c, d) := names i in
  mk_call (Rfc1321.fun_of i) a b c d (Rfc1321.k_of i) (Rfc1321.s_of i) (Rfc1321.T (i + 1)).

Definition view (i : Z) (s : regs) : Z * Z * Z * Z :=
  let '(a, b, c, d) := names i in (get_reg a s, get_reg b s, get_reg c s, get_reg d s).

Lemma rounds_calls : rounds = map call_of (seqZ 0 64).
Proof. vm_compute. reflexivity. Qed.

Lemma k_of_range i : 0 <= i < 64 -> 0 <= Rfc1321.k_of i < 16.
Proof.
  intros Hi. unfold Rfc1321.k_of, Rfc1321.fun_of.
  repeat (case_match; try done); dlia.
Qed.

Lemma s_of_range i : 0 <= i < 64 -> 0 < Rfc1321.s_of i < 32.
Proof.
  intros Hi. apply (bool_decide_eq_true_1 _). revert i Hi.
  apply (range_forallb 64 (fun i => bool_decide (0 < Rfc1321.s_of i < 32))).
  vm_compute. reflexivity.
Qed.

Lemma sum_mod a f x t :
  u32 (a + u32 (u32 (f + x) + t)) = (a + f + x + t) mod 2 ^ 32.
Proof.
  unfold wrap. rewrite Z.add_mod_idemp_l, Z.add_mod_idemp_r by lia. f_equal. lia.
Qed.

Lemma mod4_cases i : exists r, In r [0; 1; 2; 3] /\ i mod 4 = r /\ (i + 1) mod 4 = (r + 1) mod 4.
Proof.
  exists (i mod 4). assert (0 <= i mod 4 < 4) by (apply Z.mod_pos_bound; lia).
  split_and!; [cbn; lia|done|dlia].
Qed.

Lemma run_call_of x s i : 0 <= i < 64 -> length x = 16%nat ->
  exists s', run_call x s (call_of i) = Some s' /\
    view (i + 1) s' = Rfc1321.operation x (view i s) i.
Proof.
  intros Hi Hx. pose proof (k_of_range i Hi) as Hk. pose proof (s_of_range i Hi) as Hs.
  destruct (lookup_lt_is_Some_2 x (Z.to_nat (Rfc1321.k_of i))) as [xk Hxk]; [lia|].
  unfold call_of, view, Rfc1321.operation, Rfc1321.word_at, names.
  destruct (mod4_cases i) as (r & Hr & -> & ->).
  assert (index x (Rfc1321.k_of i) = Some xk) as E by (by rewrite index_nonneg by lia).
  destruct Hr as [<-|[<-|[<-|[<-|[]]]]]; cbn; unfold run_call; cbn [c_k c_a c_b c_c c_d c_fn c_s c_ac];
    rewrite E; cbn; (eexists; split; [reflexivity|]); cbn;
    rewrite sum_mod, rotate_rotl by (done || apply (wrap_range 32); lia);
    rewrite (Z.add_comm (Rfc1321.rotl _ _)); reflexivity.
Qed.

Lemma run_calls_of x s i n : 0 <= i -> i + Z.of_nat n <= 64 -> length x = 16%nat ->
  exists s', run_calls x s (map call_of (seqZ i (Z.of_nat n))) = Some s' /\
    view (i + Z.of_nat n) s' = foldl (Rfc1321.operation x) (view i s) (seqZ i (Z.of_nat n)).
Proof.
  revert s i. induction n as [|n IH]; intros s i Hi Hn Hx.
  { exists s. split; [done|]. by rewrite Z.add_0_r. }
  rewrite seqZ_cons by lia.
  replace (Z.pred (Z.of_nat (S n))) with (Z.of_nat n) by lia. cbn [map run_calls foldl].
  destruct (run_call_of x s i) as (s1 & -> & E); [lia|done|]. cbn [mbind option_bind].
  rewrite <- E. destruct (IH s1 (i + 1)) as (s2 & E2 & V2); [lia..|done|].
  exists s2. unfold Z.succ. split; [done|]. rewrite <- V2. f_equal. lia.
Qed.

Definition is_bytes64 (l : list Z) : Prop := length l = 64%nat /\ are_bytes l.

Lemma word_lor b0 b1 b2 b3 : is_byte b0 -> is_byte b1 -> is_byte b2 -> is_byte b3 ->
  u32 (Z.lor (Z.lor (Z.lor b0 (Z.shiftl b1 8)) (Z.shiftl b2 16)) (Z.shiftl b3 24)) =
  b0 + 2 ^ 8 * b1 + 2 ^ 16 * b2 + 2 ^ 24 * b3.
Proof.
  unfold is_byte. intros H0 H1 H2 H3. rewrite !shl_mul by lia.
  rewrite (Z.lor_comm b0), (lor_fields' b1 b0 8) by lia.
  rewrite (Z.lor_comm _ (b2 * _)), (lor_fields' b2 _ 16) by lia.
  rewrite (Z.lor_comm _ (b3 * _)), (lor_fields' b3 _ 24) by lia.
  rewrite wrap_small by (unfold in_range; lia). lia.
Qed.

Lemma Decode_words block len : are_bytes block -> length block = (4 * len)%nat ->
  Decode block (4 * Z.of_nat len) = Some (Rfc1321.words block).
Proof.
  intros Hb Hl. unfold Decode. apply mapM_Some_2.
  replace (4 * Z.of_nat len / 4) with (Z.of_nat len) by dlia.
  enough (forall n pre l p, are_bytes l -> length l = (4 * n)%nat -> length pre = (4 * p)%nat ->
    Forall2 (fun i y => (b0 ← index (pre ++ l) (4 * i); b1 ← index (pre ++ l) (4 * i + 1);
      b2 ← index (pre ++ l) (4 * i + 2); b3 ← index (pre ++ l) (4 * i + 3);
      Some (u32 (Z.lor (Z.lor (Z.lor b0 (Z.shiftl b1 8)) (Z.shiftl b2 16)) (Z.shiftl b3 24))))
      = Some y) (seqZ (Z.of_nat p) (Z.of_nat n)) (Rfc1321.words l)) as H
    by (by apply (H len [] block O)).
  clear. induction n as [|n IH]; intros pre l p Hb Hl Hp; [by destruct l|].
  destruct l as [|b0 [|b1 [|b2 [|b3 l]]]]; cbn in Hl; try lia.
  rewrite !Forall_cons in Hb. destruct Hb as (H0 & H1 & H2 & H3 & Hb).
  rewrite seqZ_cons by lia. cbn [Rfc1321.words]. constructor.
  - change (b0 :: b1 :: b2 :: b3 :: l) with ([b0; b1; b2; b3] ++ l).
    rewrite <- (Z.add_0_r (4 * Z.of_nat p)) at 1.
    rewrite !index_app by (cbn; lia).
    rewrite <- (word_lor b0 b1 b2 b3) by done. reflexivity.
  - replace (Z.succ (Z.of_nat p)) with (Z.of_nat (S p)) by lia.
    replace (Z.pred (Z.of_nat (S n))) with (Z.of_nat n) by lia.
    replace (pre ++ b0 :: b1 :: b2 :: b3 :: l) with ((pre ++ [b0; b1; b2; b3]) ++ l)
      by (by rewrite <- app_assoc).
    apply IH; [done|lia|]. rewrite length_app. cbn. lia.
Qed.

(** ** Blocks *)

Definition qlist (q : Z * Z * Z * Z) : list Z := let '(a, b, c, d) := q in [a; b; c; d].

Lemma words_length n l : length l = (4 * n)%nat -> length (Rfc1321.words l) = n.
Proof.
  revert l. induction n as [|n IH]; intros l Hl; [by destruct l|].
  destruct l as [|b0 [|b1 [|b2 [|b3 l]]]]; cbn in *; try lia. rewrite IH; lia.
Qed.

Lemma Transform_process q block : is_bytes64 block ->
  Transform (qlist q) block = Some (qlist (Rfc1321.process q block)).
Proof.
  intros [Hl Hb]. destruct q as [[[a b] c] d].
  destruct (run_calls_of (Rfc1321.words block) (mkRegs a b c d) 0 64) as (s & E & V);
    [lia|done|by apply words_length|].
  change (Z.of_nat 64) with 64 in E, V.
  change (view 0 (mkRegs a b c d)) with (a, b, c, d) in V. change (0 + 64) with 64 in V.
  unfold Transform. change (Decode block 64) with (Decode block (4 * Z.of_nat 16)).
  rewrite Decode_words, rounds_calls by done. cbn [qlist].
  change (run_calls (Rfc1321.words block) (mkRegs a b c d) (map call_of (seqZ 0 64))
    ≫= (fun s => Some [u32 (a + va s); u32 (b + vb s); u32 (c + vc s); u32 (d + vd s)]) =
    Some (qlist (Rfc1321.process (a, b, c, d) block))).
  rewrite E. opt. unfold Rfc1321.process. rewrite <- V. reflexivity.
Qed.

Lemma process_blocks_app n m q l1 l2 : length l1 = (64 * n)%nat ->
  Rfc1321.process_blocks (n + m) q (l1 ++ l2) =
  Rfc1321.process_blocks m (Rfc1321.process_blocks n q l1) l2.
Proof.
  revert q l1. induction n as [|n IH]; intros q l1 Hl; [by destruct l1|].
  cbn [Nat.add Rfc1321.process_blocks]. rewrite take_app_le, drop_app_le by lia.
  apply IH. rewrite length_drop. lia.
Qed.

Lemma Forall_cut {A} (P : A -> Prop) n l : Forall P l -> Forall P (take n l) /\ Forall P (drop n l).
Proof. intros H. split; [by apply Forall_take|by apply Forall_drop]. Qed.

Lemma cut_at {A} n (l : list A) : (n <= length l)%nat ->
  exists l1 l2, l = l1 ++ l2 /\ length l1 = n.
Proof. intros H. exists (take n l), (drop n l). rewrite take_drop, length_take. split; [done|lia]. Qed.

(** The loop of [update] over whole blocks [b]; what follows them is short. *)
Lemma transform_loop_ok n fuel pre b t q :
  length b = (64 * n)%nat -> (length t < 64)%nat -> are_bytes b -> (n <= fuel)%nat ->
  Z.of_nat (length (pre ++ b ++ t)) < 2 ^ 31 ->
  transform_loop fuel (pre ++ b ++ t) (Z.of_nat (length pre)) (qlist q) =
  Some (Z.of_nat (length (pre ++ b)), qlist (Rfc1321.process_blocks n q b)).
Proof.
  revert fuel pre b q. induction n as [|n IH]; intros fuel pre b q Hb Ht Hbytes Hf Hl.
  - destruct b; [|done]. rewrite !app_nil_l, app_nil_r in *. rewrite length_app in Hl.
    assert (u32 (Z.of_nat (length pre) + 64) <=? Z.of_nat (length (pre ++ t)) = false) as E.
    { apply Z.leb_gt. rewrite wrap_small by (unfold in_range; lia). rewrite length_app. lia. }
    by destruct fuel; cbn [transform_loop]; rewrite E.
  - destruct fuel as [|fuel]; [lia|]. cbn [transform_loop].
    destruct (cut_at 64 b) as (h & b' & -> & Hh); [lia|].
    apply Forall_app in Hbytes as [Hhb Hbb]. rewrite length_app in Hb.
    rewrite !length_app in Hl.
    assert (u32 (Z.of_nat (length pre) + 64) = Z.of_nat (length (pre ++ h))) as ->.
    { rewrite length_app, wrap_small by (unfold in_range; lia). lia. }
    rewrite (proj2 (Z.leb_le _ _)) by (rewrite !length_app; lia).
    rewrite <- (app_assoc h). rewrite slice_app by lia. opt.
    rewrite Transform_process by (by split). opt. rewrite (app_assoc pre).
    rewrite IH by (assumption || (rewrite ?length_app; lia)).
    rewrite <- app_assoc. do 3 f_equal.
    cbn [Rfc1321.process_blocks]. by rewrite take_app_length', drop_app_length' by done.
Qed.

(** ** Counters *)

Lemma add_count_ok c0 c1 len n :
  0 <= c0 < 2 ^ 32 -> 0 <= c1 < 2 ^ 32 -> 0 <= len < 2 ^ 29 ->
  c0 + 2 ^ 32 * c1 = (8 * n) mod 2 ^ 64 ->
  let '(c0', c1') := add_count c0 c1 len in
  0 <= c0' < 2 ^ 32 /\ 0 <= c1' < 2 ^ 32 /\ c0' + 2 ^ 32 * c1' = (8 * (n + len)) mod 2 ^ 64.
Proof.
  intros H0 H1 Hlen E. unfold add_count.
  rewrite shl_mul, shr_div by lia. rewrite (wrap_small 64) by (unfold in_range; lia).
  rewrite (Z.div_small len) by lia.
  replace (8 * (n + len)) with (8 * n + 8 * len) by lia.
  rewrite <- Z.add_mod_idemp_l, <- E by lia. clear E n. unfold wrap.
  destruct (Z.ltb_spec ((c0 + len * 2 ^ 3) mod 2 ^ 32) (len * 2 ^ 3)); dlia.
Qed.

Lemma count_index c0 c1 n :
  0 <= c0 < 2 ^ 32 -> 0 <= c1 < 2 ^ 32 -> c0 + 2 ^ 32 * c1 = (8 * n) mod 2 ^ 64 ->
  Z.land (Z.shiftr c0 3) 0x3F = n mod 64.
Proof.
  intros H0 H1 E. rewrite (land_mask _ _ 6), shr_div by (lia || reflexivity). dlia.
Qed.

(** ** The object *)

(** [m] has been fed [msg]: whole blocks have been processed, the [tail] is in
    the buffer. *)
Definition fed (m : md5) (msg : list Z) : Prop :=
  is_finished_ m = false /\ 0 <= count0 m < 2 ^ 32 /\ 0 <= count1 m < 2 ^ 32 /\
  count0 m + 2 ^ 32 * count1 m = (8 * Z.of_nat (length msg)) mod 2 ^ 64 /\
  are_bytes msg /\
  exists k pre tail junk, msg = pre ++ tail /\ length pre = (64 * k)%nat /\
    (length tail < 64)%nat /\
    state_ m = qlist (Rfc1321.process_blocks k Rfc1321.init pre) /\
    buffer_ m = map Some tail ++ junk /\ (length tail + length junk = 64)%nat.

Lemma fed_new : fed new_md5 [].
Proof.
  split_and!; try done. exists O, [], [], (replicate 64 None).
  split_and!; try done. cbn. lia.
Qed.

Lemma mapM_id_Some {A} (l : list A) : mapM id (map Some l) = Some l.
Proof. apply mapM_Some_2. induction l; constructor; auto. Qed.

(** What is left of the input after the buffer has been filled. *)
Lemma split_blocks {A} (l : list A) : exists k b t,
  l = b ++ t /\ length b = (64 * k)%nat /\ (length t < 64)%nat /\ (k <= length l / 64)%nat.
Proof.
  destruct (cut_at (64 * (length l / 64)) l) as (b & t & E & Hb).
  { apply Nat.Div0.mul_div_le. }
  exists (length l / 64)%nat, b, t. split_and!; try done.
  apply (f_equal length) in E. rewrite length_app in E.
  pose proof (Nat.div_mod_eq (length l) 64). pose proof (Nat.mod_upper_bound (length l) 64). lia.
Qed.

Lemma slice_end {A} (l1 l2 t : list A) n : n = Z.of_nat (length t) ->
  slice (l1 ++ l2 ++ t) (Z.of_nat (length (l1 ++ l2))) n = Some t.
Proof.
  intros ->. rewrite <- (app_nil_r t) at 1. rewrite (app_assoc l1). by apply slice_app.
Qed.

Lemma slice_all {A} (l : list A) n : n = Z.of_nat (length l) -> slice l 0 n = Some l.
Proof. intros ->. rewrite <- (app_nil_r l) at 1. by apply (slice_app [] l []). Qed.

(** Writing over the beginning of what follows [l1]. *)
Lemma blit_part {A} (l1 l2 d : list A) off :
  off = Z.of_nat (length l1) -> (length d <= length l2)%nat ->
  blit (l1 ++ l2) off d = Some (l1 ++ d ++ drop (length d) l2).
Proof.
  intros -> Hd. rewrite <- (take_drop (length d) l2) at 1.
  apply blit_app; [done|]. rewrite length_take. lia.
Qed.

Lemma blit_first {A} (l d : list A) : (length d <= length l)%nat ->
  blit l 0 d = Some (d ++ drop (length d) l).
Proof. by apply (blit_part []). Qed.

Lemma update_fed m msg plain :
  fed m msg -> are_bytes plain -> Z.of_nat (length plain) < 2 ^ 29 ->
  exists m', update m plain = Some m' /\ fed m' (msg ++ plain).
Proof.
  intros (Hf & H0 & H1 & Hc & Hb & k & pre & tail & junk & -> & Hp & Ht & Hs & Hbuf & Hj) Hpl Hlen.
  unfold update. rewrite Hf, (count_index _ _ _ H0 H1 Hc).
  pose proof (add_count_ok _ _ (Z.of_nat (length plain)) _ H0 H1 ltac:(lia) Hc) as Hadd.
  destruct (add_count _ _ _) as [c0 c1]. destruct Hadd as (H0' & H1' & Hc').
  assert (Z.of_nat (length (pre ++ tail)) mod 64 = Z.of_nat (length tail)) as ->.
  { rewrite length_app, Hp. dlia. }
  rewrite (wrap_small 32) by (unfold in_range; lia).
  assert (are_bytes ((pre ++ tail) ++ plain)) as Hbytes by (by apply Forall_app).
  replace (Z.of_nat (length (pre ++ tail)) + Z.of_nat (length plain))
    with (Z.of_nat (length ((pre ++ tail) ++ plain))) in Hc' by (rewrite (length_app (_ ++ _)); lia).
  rewrite Hbuf, Hs.
  destruct (Z.leb_spec (64 - Z.of_nat (length tail)) (Z.of_nat (length plain))) as [Hle|Hgt].
  - destruct (cut_at (64 - length tail) plain) as (h & rest & -> & Hh); [lia|].
    destruct (split_blocks rest) as (n & b & t & -> & Hbn & Htn & Hn).
    apply Forall_app in Hb as [_ Htail]. apply Forall_app in Hpl as [Hh' Hrest].
    apply Forall_app in Hrest as [Hb' _].
    rewrite (slice_app [] h (b ++ t)) by (cbn; lia). opt.
    replace (map Some tail ++ junk) with (map Some tail ++ junk ++ []) by (by rewrite app_nil_r).
    rewrite blit_app by (rewrite ?length_map; lia). opt.
    rewrite app_nil_r, <- map_app, mapM_id_Some. opt.
    rewrite Transform_process by (split; [rewrite length_app; lia|by apply Forall_app]). opt.
    replace (64 - Z.of_nat (length tail)) with (Z.of_nat (length h)) by lia.
    rewrite (transform_loop_ok n) by
      (assumption || (rewrite ?length_app in *; (lia || (etransitivity; [exact Hn|]; apply Nat.Div0.div_le_mono; lia)))).
    opt. rewrite slice_end by (rewrite !length_app; lia). opt.
    rewrite blit_first by (done || (rewrite !length_map, length_app; lia)). opt.
    eexists. split; [reflexivity|]. split_and!; try done; try (cbn; lia).
    exists (k + S n)%nat, (pre ++ (tail ++ h) ++ b), t, (drop (length (map Some t)) (map Some (tail ++ h))).
    split_and!.
    + by rewrite <- !app_assoc.
    + rewrite !length_app in *. lia.
    + done.
    + cbn [state_]. rewrite process_blocks_app by done. f_equal.
      change (S n) with (1 + n)%nat. rewrite process_blocks_app by (rewrite length_app; lia).
      cbn [Rfc1321.process_blocks]. by rewrite take_ge by (rewrite length_app; lia).
    + done.
    + rewrite length_drop, !length_map, length_app. lia.
  - opt. rewrite slice_all by lia. opt.
    rewrite blit_part by (rewrite !length_map; lia). opt.
    eexists. split; [reflexivity|]. split_and!; try done; try (cbn; lia).
    exists k, pre, (tail ++ plain), (drop (length plain) junk).
    split_and!; try done.
    + by rewrite <- app_assoc.
    + rewrite length_app. lia.
    + cbn [buffer_]. by rewrite map_app, <- app_assoc, length_map.
    + rewrite length_app, length_drop. lia.
Qed.

(** ** Padding and output *)

Lemma byte_of w k : 0 <= k -> Z.land (Z.shiftr w k) 0xFF = w / 2 ^ k mod 256.
Proof. intros Hk. by rewrite (land_mask _ _ 8), shr_div by (done || lia). Qed.

Lemma le_bytes4 w : Rfc1321.le_bytes 4 w =
  [Z.land w 0xFF; Z.land (Z.shiftr w 8) 0xFF; Z.land (Z.shiftr w 16) 0xFF;
   Z.land (Z.shiftr w 24) 0xFF].
Proof.
  rewrite !byte_of, (land_mask w 0xFF 8) by (done || lia). cbn [Rfc1321.le_bytes].
  change 256 with (2 ^ 8). rewrite !Z.div_div by lia. reflexivity.
Qed.

Lemma le_bytes_app n m x y : 0 <= x < 2 ^ (8 * Z.of_nat n) ->
  Rfc1321.le_bytes (n + m) (x + 2 ^ (8 * Z.of_nat n) * y) =
  Rfc1321.le_bytes n x ++ Rfc1321.le_bytes m y.
Proof.
  revert x. induction n as [|n IH]; intros x Hx.
  { cbn in *. f_equal. lia. }
  assert (2 ^ (8 * Z.of_nat (S n)) = 256 * 2 ^ (8 * Z.of_nat n)) as E.
  { replace (8 * Z.of_nat (S n)) with (8 + 8 * Z.of_nat n) by lia. rewrite Z.pow_add_r by lia. done. }
  rewrite E in *. cbn [Nat.add Rfc1321.le_bytes app].
  replace (x + 256 * 2 ^ (8 * Z.of_nat n) * y) with (x + 2 ^ (8 * Z.of_nat n) * y * 256) by lia.
  rewrite Z.mod_add, Z.div_add by lia. f_equal. apply IH.
  split; [apply Z.div_pos; lia|]. apply Z.div_lt_upper_bound; lia.
Qed.

Lemma le_bytes_bytes n x : are_bytes (Rfc1321.le_bytes n x).
Proof.
  revert x. induction n as [|n IH]; intros x; cbn; constructor; [|done].
  apply Z.mod_pos_bound. lia.
Qed.

Lemma Encode_bits c0 c1 : Encode (replicate 8 0) [c0; c1] 8 =
  Some (Rfc1321.le_bytes 4 c0 ++ Rfc1321.le_bytes 4 c1).
Proof. rewrite !le_bytes4. lazy -[Z.land Z.shiftr]. reflexivity. Qed.

Lemma Encode_digest digest a b c d : length digest = 16%nat ->
  Encode digest [a; b; c; d] 16 =
  Some (Rfc1321.le_bytes 4 a ++ Rfc1321.le_bytes 4 b ++ Rfc1321.le_bytes 4 c ++
        Rfc1321.le_bytes 4 d).
Proof.
  intros Hl. do 16 (destruct digest as [|? digest]; [done|]). destruct digest; [|done].
  rewrite !le_bytes4. lazy -[Z.land Z.shiftr]. reflexivity.
Qed.

Lemma PADDING_slice n : 0 < n <= 64 ->
  slice PADDING 0 n = Some (0x80 :: replicate (Z.to_nat (n - 1)) 0).
Proof.
  intros Hn. unfold slice. rewrite !(proj2 (Z.leb_le _ _)) by (cbn; lia). cbn [andb].
  f_equal. unfold PADDING. change (Z.to_nat 0) with O. rewrite drop_0.
  replace (Z.to_nat n) with (S (Z.to_nat (n - 1))) by lia. cbn [take].
  f_equal. rewrite take_replicate. f_equal. lia.
Qed.

Lemma padlen_ok n :
  let index := n mod 64 in
  let padlen := if index <? 56 then u32 (56 - index) else u32 (120 - index) in
  0 < padlen <= 64 /\ padlen - 1 = (55 - n) mod 64 /\ (n + padlen + 8) mod 64 = 0.
Proof.
  cbv zeta. assert (0 <= n mod 64 < 64) by (apply Z.mod_pos_bound; lia).
  destruct (Z.ltb_spec (n mod 64) 56); rewrite (wrap_small 32) by (unfold in_range; lia);
    (split; [lia|split; [|dlia]]);
    [apply (Z.mod_unique_pos _ _ (- (n / 64)))|apply (Z.mod_unique_pos _ _ (- (n / 64) - 1))]; dlia.
Qed.

(** ** Theorems *)

Lemma fed_bits m msg : fed m msg ->
  Rfc1321.le_bytes 4 (count0 m) ++ Rfc1321.le_bytes 4 (count1 m) =
  Rfc1321.le_bytes 8 ((8 * Z.of_nat (length msg)) mod 2 ^ 64).
Proof.
  intros (_ & H0 & _ & <- & _). symmetry. by apply (le_bytes_app 4 4).
Qed.

Lemma fed_whole m msg n : fed m msg -> length msg = (64 * n)%nat ->
  state_ m = qlist (Rfc1321.process_blocks n Rfc1321.init msg).
Proof.
  intros (_ & _ & _ & _ & _ & k & pre & tail & junk & -> & Hp & Ht & -> & _) Hl.
  rewrite length_app in Hl. destruct tail; [|cbn in *; lia]. rewrite app_nil_r.
  do 2 f_equal. cbn in Hl. lia.
Qed.

Lemma finish_fed m msg digest : fed m msg -> length digest = 16%nat ->
  exists m', finish m digest = Some (m', Rfc1321.md5 msg) /\ is_finished_ m' = true.
Proof.
  intros Hm Hd. pose proof Hm as (Hf & H0 & H1 & Hc & Hb & _).
  unfold finish. rewrite (count_index _ _ _ H0 H1 Hc).
  destruct (padlen_ok (Z.of_nat (length msg))) as (Hp & Hp1 & Hmod).
  set (padlen := if _ <? 56 then _ else _) in *.
  rewrite Encode_bits. opt. rewrite PADDING_slice by done. opt.
  set (zeros := replicate (Z.to_nat (padlen - 1)) 0).
  destruct (update_fed m msg (0x80 :: zeros)) as (m1 & -> & Hm1); [done| |cbn; unfold zeros; rewrite length_replicate; lia|].
  { constructor; [unfold is_byte; lia|]. apply Forall_replicate. unfold is_byte; lia. }
  opt. rewrite (fed_bits _ _ Hm).
  set (bits := Rfc1321.le_bytes 8 _).
  destruct (update_fed m1 _ bits Hm1 (le_bytes_bytes _ _)) as (m2 & -> & Hm2); [cbn; lia|].
  opt. assert ((msg ++ 0x80 :: zeros) ++ bits = Rfc1321.pad msg) as Epad.
  { unfold Rfc1321.pad. rewrite <- Hp1, <- app_assoc. reflexivity. }
  rewrite Epad in Hm2.
  assert (exists n, length (Rfc1321.pad msg) = (64 * n)%nat) as [n Hn].
  { rewrite <- Epad, !length_app. cbn [length]. unfold zeros. rewrite length_replicate.
    change (length bits) with 8%nat. exists (Z.to_nat ((Z.of_nat (length msg) + padlen + 8) / 64)).
    clearbody padlen. clear - Hp Hmod. dlia. }
  rewrite (fed_whole _ _ _ Hm2 Hn). unfold Rfc1321.md5.
  rewrite Hn, Nat.mul_comm, Nat.div_mul by done.
  destruct (Rfc1321.process_blocks n _ _) as [[[a b] c] d]. cbn [qlist].
  rewrite Encode_digest by done. opt. by eexists.
Qed.

(** All pieces of a text, one after the other. *)
Fixpoint updates (m : md5) (pieces : list (list Z)) : option md5 :=
  match pieces with
  | [] => Some m
  | p :: pieces' => m' ← update m p; updates m' pieces'
  end.

Definition is_piece (p : list Z) : Prop := are_bytes p /\ Z.of_nat (length p) < 2 ^ 29.

Lemma updates_fed pieces m msg : Forall is_piece pieces -> fed m msg ->
  exists m', updates m pieces = Some m' /\ fed m' (msg ++ concat pieces).
Proof.
  intros Hp. revert m msg. induction Hp as [|p pieces [Hb Hl] Hp IH]; intros m msg Hm.
  { exists m. cbn. by rewrite app_nil_r. }
  destruct (update_fed m msg p Hm Hb Hl) as (m1 & E1 & Hm1). cbn [updates concat].
  rewrite E1. opt. rewrite app_assoc. by apply IH.
Qed.

(** C34: Feeding a text to a new object in any pieces, each shorter than 2^29
    bytes, and finishing it writes the MD5 of RFC 1321 of the whole text; nothing
    is read that was not written before, no array is left, and the object accepts
    no further text. *)
Theorem md5_is_rfc1321 pieces digest :
  Forall is_piece pieces -> length digest = 16%nat ->
  exists m m', updates new_md5 pieces = Some m /\
    finish m digest = Some (m', Rfc1321.md5 (concat pieces)) /\
    forall p, update m' p = None.
Proof.
  intros Hp Hd. destruct (updates_fed pieces new_md5 [] Hp fed_new) as (m & E & Hm).
  destruct (finish_fed m _ digest Hm Hd) as (m' & E' & Hf).
  exists m, m'. split_and!; [done|done|]. intros p. unfold update. by rewrite Hf.
Qed.

(** The counters after one piece of 2^29 bytes: the carry is counted twice. *)
Example add_count_carry_twice : add_count 0 0 (2 ^ 29) = (0, 2).
Proof. reflexivity. Qed.

(** From 2^32 bytes on the 32-bit index of the loop can go round: with a piece of
    2^32 + 63 bytes no index ends the loop. *)
Lemma transform_loop_endless plain fuel i st :
  2 ^ 32 <= Z.of_nat (length plain) -> transform_loop fuel plain i st = None.
Proof.
  intros Hl. revert i st. induction fuel as [|fuel IH]; intros i st; cbn [transform_loop];
    assert (u32 (i + 64) < 2 ^ 32) by (apply (wrap_range 32); lia);
    rewrite (proj2 (Z.leb_le _ _)) by lia; [done|].
  destruct (slice plain i 64) as [block|]; [|done]. cbn [mbind option_bind].
  destruct (Transform st block); [|done]. cbn [mbind option_bind]. apply IH.
Qed.

(** The second example of RFC 1321, A.5, in three pieces. *)
Lemma md5_is_rfc1321_witness : exists m m',
  updates new_md5 [str "mess"; []; str "age digest"] = Some m /\
  finish m (replicate 16 0) = Some (m', Rfc1321.md5 (str "message digest")) /\
  forall p, update m' p = None.
Proof.
  apply (md5_is_rfc1321 [str "mess"; []; str "age digest"] (replicate 16 0)); [|reflexivity].
  apply (bool_decide_eq_true_1 _). vm_compute. reflexivity.
Defined.

Example rfc1321_a5 : Rfc1321.md5 (str "message digest") =
  [0xf9; 0x6b; 0x69; 0x7d; 0x7c; 0xb7; 0x93; 0x8d; 0x52; 0x5a; 0x2f; 0x31; 0xaa; 0xf1; 0x61;
   0xd0].
Proof. vm_compute. reflexivity. Qed.
