(* ===== verification/Aes.v ===== *)
(** * AES: the block cipher

    Models [modules/crypto/aes.cpp]: AES-128 on one block.  The arrays of the
    code are lists, [uint8_t state[4][4]] a list of rows; an access out of an
    array is [None].  Below the program is FIPS-197 as a reference, defined over
    the field of 256 elements without tables. *)
From S2P Require Import Prelude.
From Stdlib Require Import Ring.

(** ** The program *)

Definition Sbox : list Z := [
  0x63; 0x7c; 0x77; 0x7b; 0xf2; 0x6b; 0x6f; 0xc5; 0x30; 0x01; 0x67; 0x2b; 0xfe; 0xd7; 0xab; 0x76;
  0xca; 0x82; 0xc9; 0x7d; 0xfa; 0x59; 0x47; 0xf0; 0xad; 0xd4; 0xa2; 0xaf; 0x9c; 0xa4; 0x72; 0xc0;
  0xb7; 0xfd; 0x93; 0x26; 0x36; 0x3f; 0xf7; 0xcc; 0x34; 0xa5; 0xe5; 0xf1; 0x71; 0xd8; 0x31; 0x15;
  0x04; 0xc7; 0x23; 0xc3; 0x18; 0x96; 0x05; 0x9a; 0x07; 0x12; 0x80; 0xe2; 0xeb; 0x27; 0xb2; 0x75;
  0x09; 0x83; 0x2c; 0x1a; 0x1b; 0x6e; 0x5a; 0xa0; 0x52; 0x3b; 0xd6; 0xb3; 0x29; 0xe3; 0x2f; 0x84;
  0x53; 0xd1; 0x00; 0xed; 0x20; 0xfc; 0xb1; 0x5b; 0x6a; 0xcb; 0xbe; 0x39; 0x4a; 0x4c; 0x58; 0xcf;
  0xd0; 0xef; 0xaa; 0xfb; 0x43; 0x4d; 0x33; 0x85; 0x45; 0xf9; 0x02; 0x7f; 0x50; 0x3c; 0x9f; 0xa8;
  0x51; 0xa3; 0x40; 0x8f; 0x92; 0x9d; 0x38; 0xf5; 0xbc; 0xb6; 0xda; 0x21; 0x10; 0xff; 0xf3; 0xd2;
  0xcd; 0x0c; 0x13; 0xec; 0x5f; 0x97; 0x44; 0x17; 0xc4; 0xa7; 0x7e; 0x3d; 0x64; 0x5d; 0x19; 0x73;
  0x60; 0x81; 0x4f; 0xdc; 0x22; 0x2a; 0x90; 0x88; 0x46; 0xee; 0xb8; 0x14; 0xde; 0x5e; 0x0b; 0xdb;
  0xe0; 0x32; 0x3a; 0x0a; 0x49; 0x06; 0x24; 0x5c; 0xc2; 0xd3; 0xac; 0x62; 0x91; 0x95; 0xe4; 0x79;
  0xe7; 0xc8; 0x37; 0x6d; 0x8d; 0xd5; 0x4e; 0xa9; 0x6c; 0x56; 0xf4; 0xea; 0x65; 0x7a; 0xae; 0x08;
  0xba; 0x78; 0x25; 0x2e; 0x1c; 0xa6; 0xb4; 0xc6; 0xe8; 0xdd; 0x74; 0x1f; 0x4b; 0xbd; 0x8b; 0x8a;
  0x70; 0x3e; 0xb5; 0x66; 0x48; 0x03; 0xf6; 0x0e; 0x61; 0x35; 0x57; 0xb9; 0x86; 0xc1; 0x1d; 0x9e;
  0xe1; 0xf8; 0x98; 0x11; 0x69; 0xd9; 0x8e; 0x94; 0x9b; 0x1e; 0x87; 0xe9; 0xce; 0x55; 0x28; 0xdf;
  0x8c; 0xa1; 0x89; 0x0d; 0xbf; 0xe6; 0x42; 0x68; 0x41; 0x99; 0x2d; 0x0f; 0xb0; 0x54; 0xbb; 0x16 ].

Definition InvSbox : list Z := [
  0x52; 0x09; 0x6a; 0xd5; 0x30; 0x36; 0xa5; 0x38; 0xbf; 0x40; 0xa3; 0x9e; 0x81; 0xf3; 0xd7; 0xfb;
  0x7c; 0xe3; 0x39; 0x82; 0x9b; 0x2f; 0xff; 0x87; 0x34; 0x8e; 0x43; 0x44; 0xc4; 0xde; 0xe9; 0xcb;
  0x54; 0x7b; 0x94; 0x32; 0xa6; 0xc2; 0x23; 0x3d; 0xee; 0x4c; 0x95; 0x0b; 0x42; 0xfa; 0xc3; 0x4e;
  0x08; 0x2e; 0xa1; 0x66; 0x28; 0xd9; 0x24; 0xb2; 0x76; 0x5b; 0xa2; 0x49; 0x6d; 0x8b; 0xd1; 0x25;
  0x72; 0xf8; 0xf6; 0x64; 0x86; 0x68; 0x98; 0x16; 0xd4; 0xa4; 0x5c; 0xcc; 0x5d; 0x65; 0xb6; 0x92;
  0x6c; 0x70; 0x48; 0x50; 0xfd; 0xed; 0xb9; 0xda; 0x5e; 0x15; 0x46; 0x57; 0xa7; 0x8d; 0x9d; 0x84;
  0x90; 0xd8; 0xab; 0x00; 0x8c; 0xbc; 0xd3; 0x0a; 0xf7; 0xe4; 0x58; 0x05; 0xb8; 0xb3; 0x45; 0x06;
  0xd0; 0x2c; 0x1e; 0x8f; 0xca; 0x3f; 0x0f; 0x02; 0xc1; 0xaf; 0xbd; 0x03; 0x01; 0x13; 0x8a; 0x6b;
  0x3a; 0x91; 0x11; 0x41; 0x4f; 0x67; 0xdc; 0xea; 0x97; 0xf2; 0xcf; 0xce; 0xf0; 0xb4; 0xe6; 0x73;
  0x96; 0xac; 0x74; 0x22; 0xe7; 0xad; 0x35; 0x85; 0xe2; 0xf9; 0x37; 0xe8; 0x1c; 0x75; 0xdf; 0x6e;
  0x47; 0xf1; 0x1a; 0x71; 0x1d; 0x29; 0xc5; 0x89; 0x6f; 0xb7; 0x62; 0x0e; 0xaa; 0x18; 0xbe; 0x1b;
  0xfc; 0x56; 0x3e; 0x4b; 0xc6; 0xd2; 0x79; 0x20; 0x9a; 0xdb; 0xc0; 0xfe; 0x78; 0xcd; 0x5a; 0xf4;
  0x1f; 0xdd; 0xa8; 0x33; 0x88; 0x07; 0xc7; 0x31; 0xb1; 0x12; 0x10; 0x59; 0x27; 0x80; 0xec; 0x5f;
  0x60; 0x51; 0x7f; 0xa9; 0x19; 0xb5; 0x4a; 0x0d; 0x2d; 0xe5; 0x7a; 0x9f; 0x93; 0xc9; 0x9c; 0xef;
  0xa0; 0xe0; 0x3b; 0x4d; 0xae; 0x2a; 0xf5; 0xb0; 0xc8; 0xeb; 0xbb; 0x3c; 0x83; 0x53; 0x99; 0x61;
  0x17; 0x2b; 0x04; 0x7e; 0xba; 0x77; 0xd6; 0x26; 0xe1; 0x69; 0x14; 0x63; 0x55; 0x21; 0x0c; 0x7d ].

Arguments Sbox : simpl never.
Arguments InvSbox : simpl never.

(** [Sbox[x]] and [InvSbox[x]]. *)
Definition Sbox_at (x : Z) : option Z := index Sbox x.
Definition InvSbox_at (x : Z) : option Z := index InvSbox x.

(** [bw[i] = bw[i - 1] << 1; if (bw[i - 1] & 0x80) bw[i] ^= 0x1b;] *)
Definition ff_next (x : Z) : Z :=
  let y := u8 (Z.shiftl x 1) in
  if negb (Z.land x 0x80 =? 0) then Z.lxor y 0x1b else y.

(** The array [bw] after the first loop. *)
Definition ff_bw (b : Z) : list Z :=
  let b1 := ff_next b in
  let b2 := ff_next b1 in
  let b3 := ff_next b2 in
  [b; b1; b2; b3].

Definition FFmul (a b : Z) : Z :=
  foldl (fun res (p : Z * Z) =>
           if negb (Z.land (Z.shiftr a p.1) 0x01 =? 0) then Z.lxor res p.2 else res)
        0 (zip (seqZ 0 4) (ff_bw b)).

Notation matrix := (list (list Z)).

(** [m[r][c]] and [m[r][c] = v]. *)
Definition at2 (m : matrix) (r c : Z) : option Z := row ← index m r; index row c.

Definition set2 (m : matrix) (r c v : Z) : option matrix :=
  row ← index m r; row' ← set_at row c v; set_at m r row'.

Definition SubBytes (state : matrix) : option matrix :=
  for_each (seqZ 0 4) (fun r =>
    for_each (seqZ 0 4) (fun c state =>
      x ← at2 state r c; y ← Sbox_at x; set2 state r c y)) state.

(** The array [t] is filled before it is read. *)
Definition ShiftRows (state : matrix) : option matrix :=
  for_each (seqZ 1 3) (fun r state =>
    t ← mapM (fun c => at2 state r ((c + r) mod 4)) (seqZ 0 4);
    for_each (seqZ 0 4) (fun c state => x ← index t c; set2 state r c x) state) state.

Definition MixColumns (state : matrix) : option matrix :=
  for_each (seqZ 0 4) (fun c state =>
    t ← mapM (fun r => at2 state r c) (seqZ 0 4);
    for_each (seqZ 0 4) (fun r state =>
      t0 ← index t r; t1 ← index t ((r + 1) mod 4);
      t2 ← index t ((r + 2) mod 4); t3 ← index t ((r + 3) mod 4);
      set2 state r c (Z.lxor (Z.lxor (Z.lxor (FFmul 0x02 t0) (FFmul 0x03 t1))
                                     (FFmul 0x01 t2)) (FFmul 0x01 t3))) state) state.

Definition AddRoundKey (state k : matrix) : option matrix :=
  for_each (seqZ 0 4) (fun c =>
    for_each (seqZ 0 4) (fun r state =>
      x ← at2 state r c; y ← at2 k r c; set2 state r c (Z.lxor x y))) state.

Definition InvSubBytes (state : matrix) : option matrix :=
  for_each (seqZ 0 4) (fun r =>
    for_each (seqZ 0 4) (fun c state =>
      x ← at2 state r c; y ← InvSbox_at x; set2 state r c y)) state.

Definition InvShiftRows (state : matrix) : option matrix :=
  for_each (seqZ 1 3) (fun r state =>
    t ← mapM (fun c => at2 state r ((c - r + 4) mod 4)) (seqZ 0 4);
    for_each (seqZ 0 4) (fun c state => x ← index t c; set2 state r c x) state) state.

Definition InvMixColumns (state : matrix) : option matrix :=
  for_each (seqZ 0 4) (fun c state =>
    t ← mapM (fun r => at2 state r c) (seqZ 0 4);
    for_each (seqZ 0 4) (fun r state =>
      t0 ← index t r; t1 ← index t ((r + 1) mod 4);
      t2 ← index t ((r + 2) mod 4); t3 ← index t ((r + 3) mod 4);
      set2 state r c (Z.lxor (Z.lxor (Z.lxor (FFmul 0x0e t0) (FFmul 0x0b t1))
                                     (FFmul 0x0d t2)) (FFmul 0x09 t3))) state) state.

(** The copies between a block and the state: [state[r][c] = input[c * 4 + r]]
    and back. *)
Definition load (input : list Z) : option matrix :=
  mapM (fun r => mapM (fun c => index input (c * 4 + r)) (seqZ 0 4)) (seqZ 0 4).

Definition store (state : matrix) (output : list Z) : option (list Z) :=
  for_each (seqZ 0 4) (fun r =>
    for_each (seqZ 0 4) (fun c output =>
      x ← at2 state r c; set_at output (c * 4 + r) x)) output.

(** The bodies of the loops of [cipher] and [invcipher]. *)
Definition cipher_round (w : list matrix) (i : Z) (state : matrix) : option matrix :=
  state ← SubBytes state;
  state ← ShiftRows state;
  state ← (if negb (i =? 10) then MixColumns state else Some state);
  k ← index w i; AddRoundKey state k.

Definition invcipher_round (w : list matrix) (i : Z) (state : matrix) : option matrix :=
  state ← InvShiftRows state;
  state ← InvSubBytes state;
  k ← index w i; state ← AddRoundKey state k;
  if negb (i =? 0) then InvMixColumns state else Some state.

(** The round keys [w[11][4][4]] are the whole state of an [AES] object.  The
    input is read before the output is written, so they may be the same area. *)
Definition cipher (w : list matrix) (input output : list Z) : option (list Z) :=
  state ← load input;
  k ← index w 0; state ← AddRoundKey state k;
  state ← for_each (seqZ 1 10) (cipher_round w) state;
  store state output.

Definition invcipher (w : list matrix) (input output : list Z) : option (list Z) :=
  state ← load input;
  k ← index w 10; state ← AddRoundKey state k;
  state ← for_each (reverse (seqZ 0 10)) (invcipher_round w) state;
  store state output.

Definition rc : list Z := [0x01; 0x02; 0x04; 0x08; 0x10; 0x20; 0x40; 0x80; 0x1b; 0x36].

(** [w[i][r][c]] and [w[i][r][c] = v]. *)
Definition at3 (w : list matrix) (i r c : Z) : option Z := m ← index w i; at2 m r c.

Definition set3 (w : list matrix) (i r c v : Z) : option (list matrix) :=
  m ← index w i; m' ← set2 m r c v; set_at w i m'.

(** [if (j == 0) { ... }]: rotate, substitute and add the constant of the round. *)
Definition key_core (i : Z) (t : list Z) : option (list Z) :=
  temp ← index t 0;
  t ← for_each (seqZ 0 3) (fun r t =>
    x ← index t ((r + 1) mod 4); y ← Sbox_at x; set_at t r y) t;
  y ← Sbox_at temp; t ← set_at t 3 y;
  x ← index t 0; c ← index rc (i - 1); set_at t 0 (Z.lxor x c).

(** The body of the loop on the round [i]: its four columns. *)
Definition key_round (i : Z) (w : list matrix) : option (list matrix) :=
  for_each (seqZ 0 4) (fun j w =>
    t ← mapM (fun r => if negb (j =? 0) then at3 w i r (j - 1) else at3 w (i - 1) r 3) (seqZ 0 4);
    t ← (if j =? 0 then key_core i t else Some t);
    for_each (seqZ 0 4) (fun r w =>
      x ← at3 w (i - 1) r j; y ← index t r; set3 w i r j (Z.lxor x y)) w) w.

Definition keyExpansion (w : list matrix) (key : list Z) : option (list matrix) :=
  w ← for_each (seqZ 0 4) (fun r =>
    for_each (seqZ 0 4) (fun c w => x ← index key (r + c * 4); set3 w 0 r c x)) w;
  for_each (seqZ 1 10) key_round w.

Definition setKey (w : list matrix) (key : list Z) : option (list matrix) := keyExpansion w key.

(** The constructor: the round keys are uninitialised memory, [w], and stay so
    for a null key. *)
Definition AES (w : list matrix) (key : option (list Z)) : option (list matrix) :=
  match key with Some key => keyExpansion w key | None => Some w end.

(** ** FIPS-197

    A block and the state are sixteen bytes, column by column, so that
    [s[r][c]] is byte [r + 4 * c]. *)

Module Fips.

(** Multiplication of the field: of polynomials over two elements, modulo
    x^8 + x^4 + x^3 + x + 1. *)
Definition poly_mul (a b : Z) : Z :=
  foldl (fun p i => if Z.testbit a i then Z.lxor p (Z.shiftl b i) else p) 0 (seqZ 0 8).

Definition poly_mod (x : Z) : Z :=
  foldl (fun x i => if Z.testbit x (i + 8) then Z.lxor x (Z.shiftl 0x11b i) else x)
        x (reverse (seqZ 0 7)).

Definition gmul (a b : Z) : Z := poly_mod (poly_mul a b).

(** The inverse is the power 254, which also takes 0 to 0. *)
Definition ginv (b : Z) : Z := Nat.iter 254 (gmul b) 1.

Definition bit (b i : Z) : Z := Z.land (Z.shiftr b (i mod 8)) 1.

Definition affine (b : Z) : Z :=
  foldl (fun x i =>
    Z.lor x (Z.shiftl (foldl Z.lxor (bit 0x63 i)
      (map (fun k => bit b (i + k)) [0; 4; 5; 6; 7])) i)) 0 (seqZ 0 8).

Definition sbox (b : Z) : Z := affine (ginv b).

Definition byte_at (s : list Z) (i : Z) : Z := default 0 (index s i).

Definition make_block (f : Z -> Z) : list Z := map f (seqZ 0 16).

Definition add (s k : list Z) : list Z := zip_with Z.lxor s k.
Definition sub_bytes (s : list Z) : list Z := map sbox s.
Definition shift_rows (s : list Z) : list Z :=
  make_block (fun i => byte_at s (i mod 4 + 4 * ((i / 4 + i mod 4) mod 4))).
Definition mix_columns (s : list Z) : list Z :=
  make_block (fun i =>
    let t k := byte_at s (4 * (i / 4) + (i mod 4 + k) mod 4) in
    Z.lxor (Z.lxor (Z.lxor (gmul 2 (t 0)) (gmul 3 (t 1))) (t 2)) (t 3)).

(** The key schedule, latest word first: word [i] is word [i - 4] plus a
    function of word [i - 1]. *)
Definition rot_word (t : list Z) : list Z := drop 1 t ++ take 1 t.

Definition rcon (i : Z) : list Z := [Nat.iter (Z.to_nat (i - 1)) (gmul 2) 1; 0; 0; 0].

Definition next_word (i : Z) (ws : list (list Z)) : list Z :=
  let temp := default [] (ws !! 0%nat) in
  let temp := if i mod 4 =? 0 then add (map sbox (rot_word temp)) (rcon (i / 4)) else temp in
  add (default [] (ws !! 3%nat)) temp.

Fixpoint word_schedule (n : nat) (i : Z) (ws : list (list Z)) : list (list Z) :=
  match n with
  | O => ws
  | S n => word_schedule n (i + 1) (next_word i ws :: ws)
  end.

Fixpoint chunks4 (l : list Z) (n : nat) : list (list Z) :=
  match n with O => [] | S n => take 4 l :: chunks4 (drop 4 l) n end.

Definition words (key : list Z) : list (list Z) :=
  reverse (word_schedule 40 4 (reverse (chunks4 key 4))).

Definition round_key (ws : list (list Z)) (i : nat) : list Z :=
  concat (take 4 (drop (4 * i) ws)).

Definition round (ws : list (list Z)) (s : list Z) (i : nat) : list Z :=
  add (mix_columns (shift_rows (sub_bytes s))) (round_key ws i).

Definition cipher (key input : list Z) : list Z :=
  let ws := words key in
  let s := add input (round_key ws 0) in
  let s := foldl (round ws) s (seq 1 9) in
  add (shift_rows (sub_bytes s)) (round_key ws 10).

End Fips.

(** ** The steps on states

    [mk f] is the state whose byte in row [r] and column [c] is [f r c]. *)

Definition mk (f : Z -> Z -> Z) : matrix := map (fun r => map (f r) [0; 1; 2; 3]) [0; 1; 2; 3].

Definition bytes2 (f : Z -> Z -> Z) : Prop := forall r c, is_byte (f r c).

Definition sub (f : Z -> Z -> Z) (r c : Z) : Z := Fips.sbox (f r c).
Definition isbox (x : Z) : Z := default 0 (InvSbox_at x).
Definition inv_sub (f : Z -> Z -> Z) (r c : Z) : Z := isbox (f r c).
Definition shift (f : Z -> Z -> Z) (r c : Z) : Z := f r ((c + r) mod 4).
Definition inv_shift (f : Z -> Z -> Z) (r c : Z) : Z := f r ((c - r + 4) mod 4).
Definition add_key (k f : Z -> Z -> Z) (r c : Z) : Z := Z.lxor (f r c) (k r c).

(** A column times the circulant matrix with the first row [m]. *)
Definition mix (m0 m1 m2 m3 : Z) (f : Z -> Z -> Z) (r c : Z) : Z :=
  Z.lxor (Z.lxor (Z.lxor (FFmul m0 (f r c)) (FFmul m1 (f ((r + 1) mod 4) c)))
    (FFmul m2 (f ((r + 2) mod 4) c))) (FFmul m3 (f ((r + 3) mod 4) c)).

Ltac aes_lazy := intros; lazy -[FFmul Z.lxor Sbox_at InvSbox_at Fips.sbox isbox is_byte].

#[global] Instance is_byte_dec x : Decision (is_byte x).
Proof. unfold is_byte. apply _. Defined.

(** A decidable fact about a byte, by trying them all. *)
Ltac byte_check :=
  match goal with
  | H : is_byte ?x |- _ =>
      apply (bool_decide_eq_true_1 _); revert x H; apply byte_forallb; vm_compute; reflexivity
  end.

Lemma Sbox_at_ok x : is_byte x -> Sbox_at x = Some (Fips.sbox x).
Proof. intros. byte_check. Qed.

(** The other facts on the reference S-box are checked on the table. *)
Lemma Sbox_byte x : is_byte x -> is_byte (default 0 (Sbox_at x)).
Proof. intros. byte_check. Qed.

Lemma Sbox_default x : is_byte x -> default 0 (Sbox_at x) = Fips.sbox x.
Proof. intros Hx. rewrite Sbox_at_ok by done. cbn [from_option id]. reflexivity. Qed.

Lemma sbox_byte x : is_byte x -> is_byte (Fips.sbox x).
Proof. intros Hx. rewrite <- Sbox_default by done. by apply Sbox_byte. Qed.

Lemma isbox_Sbox x : is_byte x -> isbox (default 0 (Sbox_at x)) = x.
Proof. intros. byte_check. Qed.

Lemma isbox_sbox x : is_byte x -> isbox (Fips.sbox x) = x.
Proof. intros Hx. rewrite <- Sbox_default by done. by apply isbox_Sbox. Qed.

Lemma InvSbox_at_ok x : is_byte x -> InvSbox_at x = Some (isbox x).
Proof. intros. byte_check. Qed.

Lemma isbox_byte x : is_byte x -> is_byte (isbox x).
Proof. intros. byte_check. Qed.

Lemma Sbox_isbox x : is_byte x -> Sbox_at (isbox x) = Some x.
Proof. intros. byte_check. Qed.

Lemma sbox_isbox x : is_byte x -> Fips.sbox (isbox x) = x.
Proof.
  intros Hx. rewrite <- Sbox_default by by apply isbox_byte. by rewrite Sbox_isbox.
Qed.

Lemma SubBytes_mk f : bytes2 f -> SubBytes (mk f) = Some (mk (sub f)).
Proof.
  intros Hf. aes_lazy. by rewrite !Sbox_at_ok by apply Hf.
Qed.

Lemma InvSubBytes_mk f : bytes2 f -> InvSubBytes (mk f) = Some (mk (inv_sub f)).
Proof.
  intros Hf. aes_lazy. by rewrite !InvSbox_at_ok by apply Hf.
Qed.

Lemma ShiftRows_mk f : ShiftRows (mk f) = Some (mk (shift f)).
Proof. reflexivity. Qed.

Lemma InvShiftRows_mk f : InvShiftRows (mk f) = Some (mk (inv_shift f)).
Proof. reflexivity. Qed.

Lemma MixColumns_mk f : MixColumns (mk f) = Some (mk (mix 2 3 1 1 f)).
Proof. by aes_lazy. Qed.

Lemma InvMixColumns_mk f : InvMixColumns (mk f) = Some (mk (mix 0x0e 0x0b 0x0d 0x09 f)).
Proof. by aes_lazy. Qed.

Lemma AddRoundKey_mk f k : AddRoundKey (mk f) (mk k) = Some (mk (add_key k f)).
Proof. by aes_lazy. Qed.

(** ** The field: [FFmul] is linear and multiplies like the reference *)

Add Ring BoolRing : BoolTheory.

(** An equation between exclusive ors of words. *)
Ltac xor_ring := apply Z.bits_inj'; intros ? _; rewrite ?Z.lxor_spec, ?Z.bits_0; ring.

Lemma xor_byte x y : is_byte x -> is_byte y -> is_byte (Z.lxor x y).
Proof. apply (lxor_range 8). lia. Qed.

Lemma ff_next_byte x : is_byte x -> is_byte (ff_next x).
Proof. intros. byte_check. Qed.

Lemma ff_next_xor x y : is_byte x -> is_byte y ->
  ff_next (Z.lxor x y) = Z.lxor (ff_next x) (ff_next y).
Proof.
  intros Hx Hy. apply Z.eqb_eq. revert y Hy. apply byte_forallb.
  revert x Hx. apply (byte_forallb (fun x => forallb (fun y =>
    ff_next (Z.lxor x y) =? Z.lxor (ff_next x) (ff_next y)) (seqZ 0 256))).
  vm_compute. reflexivity.
Qed.

Ltac ff_split :=
  unfold FFmul; change (seqZ 0 4) with [0; 1; 2; 3]; cbn [ff_bw zip zip_with foldl fst snd];
  repeat match goal with |- context [if ?b then _ else _] => destruct b end.

Lemma FFmul_byte a x : is_byte x -> is_byte (FFmul a x).
Proof.
  intros Hx. assert (is_byte 0) by (unfold is_byte; lia).
  ff_split; auto 12 using xor_byte, ff_next_byte.
Qed.

Lemma FFmul_xor a x y : is_byte x -> is_byte y ->
  FFmul a (Z.lxor x y) = Z.lxor (FFmul a x) (FFmul a y).
Proof.
  intros Hx Hy. unfold FFmul, ff_bw. cbv zeta.
  rewrite !ff_next_xor by auto using ff_next_byte. ff_split; xor_ring.
Qed.

Lemma FFmul_gmul a x : In a [1; 2; 3] -> is_byte x -> FFmul a x = Fips.gmul a x.
Proof. intros [<-|[<-|[<-|[]]]] Hx; byte_check. Qed.

(** ** Inverses of the steps *)

Arguments SubBytes : simpl never.
Arguments ShiftRows : simpl never.
Arguments MixColumns : simpl never.
Arguments AddRoundKey : simpl never.
Arguments InvSubBytes : simpl never.
Arguments InvShiftRows : simpl never.
Arguments InvMixColumns : simpl never.
Arguments mk : simpl never.

Lemma mk_ext f g : (forall r c, 0 <= r < 4 -> 0 <= c < 4 -> f r c = g r c) -> mk f = mk g.
Proof. intros H. unfold mk. cbn [map]. by rewrite !H by lia. Qed.

Section circulant.

Context (m0 m1 m2 m3 n0 n1 n2 n3 : Z).

Let coef (k0 k1 k2 k3 t : Z) : Z :=
  Z.lxor (Z.lxor (Z.lxor (FFmul n0 (FFmul k0 t)) (FFmul n1 (FFmul k1 t)))
    (FFmul n2 (FFmul k2 t))) (FFmul n3 (FFmul k3 t)).

Hypothesis coef0 : forall t, is_byte t -> coef m0 m3 m2 m1 t = t.
Hypothesis coef1 : forall t, is_byte t -> coef m1 m0 m3 m2 t = 0.
Hypothesis coef2 : forall t, is_byte t -> coef m2 m1 m0 m3 t = 0.
Hypothesis coef3 : forall t, is_byte t -> coef m3 m2 m1 m0 t = 0.

(** The product of two circulant matrices, one row of the result. *)
Lemma circulant_row t0 t1 t2 t3 :
  is_byte t0 -> is_byte t1 -> is_byte t2 -> is_byte t3 ->
  let L a b c d := Z.lxor (Z.lxor (Z.lxor (FFmul m0 a) (FFmul m1 b)) (FFmul m2 c)) (FFmul m3 d) in
  Z.lxor (Z.lxor (Z.lxor (FFmul n0 (L t0 t1 t2 t3)) (FFmul n1 (L t1 t2 t3 t0)))
    (FFmul n2 (L t2 t3 t0 t1))) (FFmul n3 (L t3 t0 t1 t2)) = t0.
Proof using coef0 coef1 coef2 coef3.
  intros H0 H1 H2 H3 L. unfold L.
  rewrite !FFmul_xor by auto using xor_byte, FFmul_byte.
  transitivity (Z.lxor (Z.lxor (Z.lxor (coef m0 m3 m2 m1 t0) (coef m1 m0 m3 m2 t1))
    (coef m2 m1 m0 m3 t2)) (coef m3 m2 m1 m0 t3)).
  - unfold coef. xor_ring.
  - rewrite coef0, coef1, coef2, coef3 by done. by rewrite !Z.lxor_0_r.
Qed.

Lemma mix_mix f : bytes2 f -> mk (mix n0 n1 n2 n3 (mix m0 m1 m2 m3 f)) = mk f.
Proof using coef0 coef1 coef2 coef3.
  intros Hf. apply mk_ext. intros r c Hr Hc. unfold mix.
  assert (r = 0 \/ r = 1 \/ r = 2 \/ r = 3) as [->|[->|[->| ->]]] by lia;
    apply circulant_row; apply Hf.
Qed.

End circulant.

Lemma InvMix_Mix f : bytes2 f -> InvMixColumns (mk (mix 2 3 1 1 f)) = Some (mk f).
Proof.
  intros Hf. rewrite InvMixColumns_mk. f_equal.
  apply mix_mix; [| | | |done]; intros t Ht; cbv zeta; byte_check.
Qed.

Lemma Mix_InvMix f : bytes2 f ->
  MixColumns (mk (mix 0x0e 0x0b 0x0d 0x09 f)) = Some (mk f).
Proof.
  intros Hf. rewrite MixColumns_mk. f_equal.
  apply mix_mix; [| | | |done]; intros t Ht; cbv zeta; byte_check.
Qed.

Lemma InvSub_Sub f : bytes2 f -> InvSubBytes (mk (sub f)) = Some (mk f).
Proof.
  intros Hf. rewrite InvSubBytes_mk by (intros ??; apply sbox_byte, Hf).
  f_equal. apply mk_ext. intros. apply isbox_sbox, Hf.
Qed.

Lemma Sub_InvSub f : bytes2 f -> SubBytes (mk (inv_sub f)) = Some (mk f).
Proof.
  intros Hf. rewrite SubBytes_mk by (intros ??; apply isbox_byte, Hf).
  f_equal. apply mk_ext. intros. apply sbox_isbox, Hf.
Qed.

Lemma InvShift_Shift f : InvShiftRows (mk (shift f)) = Some (mk f).
Proof. reflexivity. Qed.

Lemma Shift_InvShift f : ShiftRows (mk (inv_shift f)) = Some (mk f).
Proof. reflexivity. Qed.

Lemma Add_Add f k : AddRoundKey (mk (add_key k f)) (mk k) = Some (mk f).
Proof.
  rewrite AddRoundKey_mk. f_equal. apply mk_ext. intros r c _ _. unfold add_key.
  by rewrite Z.lxor_assoc, Z.lxor_nilpotent, Z.lxor_0_r.
Qed.

Lemma sub_bytes2 f : bytes2 f -> bytes2 (sub f).
Proof. intros Hf ??. apply sbox_byte, Hf. Qed.

Lemma inv_sub_bytes2 f : bytes2 f -> bytes2 (inv_sub f).
Proof. intros Hf ??. apply isbox_byte, Hf. Qed.

Lemma shift_bytes2 f : bytes2 f -> bytes2 (shift f).
Proof. intros Hf ??. apply Hf. Qed.

Lemma inv_shift_bytes2 f : bytes2 f -> bytes2 (inv_shift f).
Proof. intros Hf ??. apply Hf. Qed.

Lemma mix_bytes2 m0 m1 m2 m3 f : bytes2 f -> bytes2 (mix m0 m1 m2 m3 f).
Proof. intros Hf ??. unfold mix. auto using xor_byte, FFmul_byte. Qed.

Lemma add_bytes2 k f : bytes2 k -> bytes2 f -> bytes2 (add_key k f).
Proof. intros Hk Hf ??. by apply xor_byte. Qed.

#[local] Hint Resolve sub_bytes2 inv_sub_bytes2 shift_bytes2 inv_shift_bytes2 mix_bytes2
  add_bytes2 : core.

(** ** Blocks and round keys *)

Definition of_block (l : list Z) (r c : Z) : Z := u8 (Fips.byte_at l (c * 4 + r)).

(** The state as a block, column by column. *)
Definition fl (f : Z -> Z -> Z) : list Z :=
  map (fun i => f (i mod 4) (i / 4)) (seqZ 0 16).

Lemma of_block_bytes l : bytes2 (of_block l).
Proof. intros r c. apply byte_wrap. Qed.

Lemma of_block_fl l : length l = 16%nat -> are_bytes l -> fl (of_block l) = l.
Proof.
  intros Hl Hb. do 16 (destruct l as [|? l]; [done|]). destruct l; [|done].
  rewrite !Forall_cons in Hb.
  destruct_and!. lazy -[wrap is_byte]. by rewrite !(wrap_small 8) by done.
Qed.

Lemma load_fl f : load (fl f) = Some (mk f).
Proof. by aes_lazy. Qed.

Lemma store_mk f out : length out = 16%nat -> store (mk f) out = Some (fl f).
Proof.
  intros Hl. do 16 (destruct out as [|? out]; [done|]). destruct out; [|done]. by aes_lazy.
Qed.

(** Round keys in memory are the states [ks 0], ..., [ks 10]. *)
Definition keys (ks : nat -> Z -> Z -> Z) : list matrix := map (fun i => mk (ks i)) (seq 0 11).

(** The states of both loops after [n] rounds; the tenth has no [mix]. *)
Fixpoint enc_state (ks : nat -> Z -> Z -> Z) (f : Z -> Z -> Z) (n : nat) : Z -> Z -> Z :=
  match n with
  | O => add_key (ks O) f
  | S n =>
      let s := shift (sub (enc_state ks f n)) in
      add_key (ks (S n)) (if (n =? 9)%nat then s else mix 2 3 1 1 s)
  end.

Fixpoint dec_state (ks : nat -> Z -> Z -> Z) (f : Z -> Z -> Z) (n : nat) : Z -> Z -> Z :=
  match n with
  | O => add_key (ks 10%nat) f
  | S n =>
      let s := add_key (ks (9 - n)%nat) (inv_sub (inv_shift (dec_state ks f n))) in
      if (n =? 9)%nat then s else mix 0x0e 0x0b 0x0d 0x09 s
  end.

Lemma up_lookup k i : seqZ 1 10 !! k = Some i -> (k < 10)%nat /\ i = Z.of_nat (S k).
Proof. rewrite lookup_seqZ. lia. Qed.

Lemma down_lookup k i : reverse (seqZ 0 10) !! k = Some i -> (k < 10)%nat /\ i = Z.of_nat (9 - k).
Proof.
  intros H. assert (k < 10)%nat as Hk.
  { apply lookup_lt_Some in H. by rewrite length_reverse, length_seqZ in H. }
  split; [done|]. do 10 (destruct k as [|k]; [by injection H as <-|]). lia.
Qed.


Section rounds.

Context (ks : nat -> Z -> Z -> Z) (Hks : forall i, bytes2 (ks i)).

Lemma index_keys i : (i < 11)%nat -> index (keys ks) (Z.of_nat i) = Some (mk (ks i)).
Proof.
  intros Hi. unfold keys. rewrite index_nonneg, Nat2Z.id, list_lookup_fmap by lia.
  by rewrite (proj2 (lookup_seq 0 11 i i)) by lia.
Qed.

Lemma cipher_round_mk n f : (n < 10)%nat -> bytes2 f ->
  cipher_round (keys ks) (Z.of_nat (S n)) (mk f) =
  Some (mk (add_key (ks (S n))
    (if (n =? 9)%nat then shift (sub f) else mix 2 3 1 1 (shift (sub f))))).
Proof using Hks.
  intros Hn Hf. unfold cipher_round. rewrite SubBytes_mk, index_keys by (done || lia). opt.
  rewrite ShiftRows_mk. opt. replace (Z.of_nat (S n) =? 10) with (n =? 9)%nat by eqb_lia.
  destruct (n =? 9)%nat; cbn [negb]; rewrite ?MixColumns_mk; opt; by rewrite AddRoundKey_mk.
Qed.

Lemma enc_S f n : enc_state ks f (S n) =
  add_key (ks (S n)) (if (n =? 9)%nat then shift (sub (enc_state ks f n))
                      else mix 2 3 1 1 (shift (sub (enc_state ks f n)))).
Proof using. reflexivity. Qed.

Lemma dec_S f n : dec_state ks f (S n) =
  let s := add_key (ks (9 - n)%nat) (inv_sub (inv_shift (dec_state ks f n))) in
  if (n =? 9)%nat then s else mix 0x0e 0x0b 0x0d 0x09 s.
Proof using. reflexivity. Qed.

Lemma enc_bytes f n : bytes2 f -> bytes2 (enc_state ks f n).
Proof using Hks. intros Hf. induction n as [|n IH]; cbn; [|destruct (n =? 9)%nat]; auto. Qed.

Lemma cipher_enc f out : bytes2 f -> length out = 16%nat ->
  cipher (keys ks) (fl f) out = Some (fl (enc_state ks f 10)).
Proof using Hks.
  intros Hf Hl. unfold cipher. rewrite load_fl. opt.
  change (index (keys ks) 0) with (Some (mk (ks 0%nat))). opt.
  rewrite AddRoundKey_mk. opt.
  rewrite (for_each_steps _ _ (fun k => mk (enc_state ks f k))).
  - by apply store_mk.
  - intros k i [Hk ->]%up_lookup. by rewrite cipher_round_mk by auto using enc_bytes.
Qed.

Lemma invcipher_round_mk n f : (n < 10)%nat -> bytes2 f ->
  invcipher_round (keys ks) (Z.of_nat (9 - n)) (mk f) =
  let s := add_key (ks (9 - n)%nat) (inv_sub (inv_shift f)) in
  Some (mk (if (n =? 9)%nat then s else mix 0x0e 0x0b 0x0d 0x09 s)).
Proof using Hks.
  intros Hn Hf. unfold invcipher_round. rewrite InvShiftRows_mk. opt.
  rewrite InvSubBytes_mk, index_keys by (auto || lia). opt.
  rewrite AddRoundKey_mk. opt. replace (Z.of_nat (9 - n) =? 0) with (n =? 9)%nat by eqb_lia.
  destruct (n =? 9)%nat; cbn [negb]; [done|]. apply InvMixColumns_mk.
Qed.

Lemma dec_bytes f n : bytes2 f -> bytes2 (dec_state ks f n).
Proof using Hks. intros Hf. induction n as [|n IH]; cbn; [|destruct (n =? 9)%nat]; auto. Qed.

Lemma invcipher_dec f out : bytes2 f -> length out = 16%nat ->
  invcipher (keys ks) (fl f) out = Some (fl (dec_state ks f 10)).
Proof using Hks.
  intros Hf Hl. unfold invcipher. rewrite load_fl. opt.
  change (index (keys ks) 10) with (Some (mk (ks 10%nat))). opt.
  rewrite AddRoundKey_mk. opt.
  rewrite (for_each_steps _ _ (fun k => mk (dec_state ks f k))).
  - by apply store_mk.
  - intros k i [Hk ->]%down_lookup. by rewrite invcipher_round_mk by auto using dec_bytes.
Qed.

(** Decryption passes through the states of encryption, before [mix]. *)
Definition half (f : Z -> Z -> Z) (n : nat) : Z -> Z -> Z :=
  if (n =? 10)%nat then f else shift (sub (enc_state ks f (9 - n))).

Lemma enc_half f : enc_state ks f 10 = add_key (ks 10%nat) (half f 0).
Proof. rewrite enc_S. unfold half. cbn [Nat.eqb Nat.sub]. reflexivity. Qed.

Lemma invcipher_enc f out : bytes2 f -> length out = 16%nat ->
  invcipher (keys ks) (fl (enc_state ks f 10)) out = Some (fl f).
Proof using Hks.
  intros Hf Hl. unfold invcipher. rewrite load_fl. opt.
  change (index (keys ks) 10) with (Some (mk (ks 10%nat))). opt.
  rewrite enc_half, Add_Add. opt.
  rewrite (for_each_steps _ _ (fun k => mk (half f k))).
  - by apply store_mk.
  - intros k i [Hk ->]%down_lookup. unfold half.
    replace (k =? 10)%nat with false by eqb_lia. unfold invcipher_round.
    rewrite InvShift_Shift. opt. rewrite InvSub_Sub, index_keys by (auto using enc_bytes || lia).
    opt.
    destruct (decide (k = 9%nat)) as [->|Hk9].
    { cbn [Nat.sub Nat.eqb enc_state dec_state]. by rewrite Add_Add. }
    replace (enc_state ks f (9 - k)) with (enc_state ks f (S (8 - k))) by (f_equal; lia).
    replace (ks (9 - k)%nat) with (ks (S (8 - k))) by (f_equal; lia).
    replace (9 - S k)%nat with (8 - k)%nat by lia.
    rewrite enc_S, Add_Add. opt.
    replace (8 - k =? 9)%nat with false by eqb_lia. replace (S k =? 10)%nat with false by eqb_lia.
    replace (Z.of_nat (9 - k) =? 0) with false by eqb_lia.
    apply InvMix_Mix. auto using enc_bytes.
Qed.

Definition inv_half (f : Z -> Z -> Z) (n : nat) : Z -> Z -> Z :=
  if (n =? 10)%nat then f else inv_sub (inv_shift (dec_state ks f (9 - n))).

Lemma dec_half f : dec_state ks f 10 = add_key (ks O) (inv_half f 0).
Proof. rewrite dec_S. unfold inv_half. cbn [Nat.eqb Nat.sub]. reflexivity. Qed.

Lemma cipher_dec f out : bytes2 f -> length out = 16%nat ->
  cipher (keys ks) (fl (dec_state ks f 10)) out = Some (fl f).
Proof using Hks.
  intros Hf Hl. unfold cipher. rewrite load_fl. opt.
  change (index (keys ks) 0) with (Some (mk (ks 0%nat))). opt.
  rewrite dec_half, Add_Add. opt.
  rewrite (for_each_steps _ _ (fun k => mk (inv_half f k))).
  - by apply store_mk.
  - intros k i [Hk ->]%up_lookup. unfold inv_half.
    replace (k =? 10)%nat with false by eqb_lia. unfold cipher_round.
    rewrite Sub_InvSub by auto using dec_bytes. opt.
    rewrite Shift_InvShift, index_keys by lia. opt.
    destruct (decide (k = 9%nat)) as [->|Hk9].
    { cbn [Nat.sub Nat.eqb dec_state]. change (Z.of_nat 10 =? 10) with true. cbn [negb]. opt.
      by rewrite Add_Add. }
    replace (dec_state ks f (9 - k)) with (dec_state ks f (S (8 - k))) by (f_equal; lia).
    replace (9 - S k)%nat with (8 - k)%nat by lia.
    rewrite dec_S. cbv zeta. replace (8 - k =? 9)%nat with false by eqb_lia.
    replace (Z.of_nat (S k) =? 10) with false by eqb_lia. replace (S k =? 10)%nat with false by eqb_lia.
    cbn [negb]. rewrite Mix_InvMix by auto 6 using dec_bytes. opt.
    replace (9 - (8 - k))%nat with (S k) by lia. apply Add_Add.
Qed.

End rounds.

(** ** The key schedule *)

(** [t] in the first column of a round. *)
Definition core (c : Z) (g : Z -> Z -> Z) (r : Z) : Z :=
  if r =? 0 then Z.lxor (Fips.sbox (g ((r + 1) mod 4) 3)) c
  else Fips.sbox (g ((r + 1) mod 4) 3).

Fixpoint next_col (c : Z) (g : Z -> Z -> Z) (r : Z) (j : nat) : Z :=
  match j with
  | O => Z.lxor (g r 0) (core c g r)
  | S j' => Z.lxor (g r (Z.of_nat j)) (next_col c g r j')
  end.

(** The round key that follows [g]. *)
Definition next (c : Z) (g : Z -> Z -> Z) (r j : Z) : Z := next_col c g r (Z.to_nat j).

Definition rc_at (i : nat) : Z := default 0 (rc !! i).

Fixpoint round_keys (k : Z -> Z -> Z) (i : nat) : Z -> Z -> Z :=
  match i with O => k | S i => next (rc_at i) (round_keys k i) end.

Definition is_4x4 (m : matrix) : Prop := length m = 4%nat /\ Forall (fun row => length row = 4%nat) m.

Lemma is_4x4_mk m : is_4x4 m -> exists f, m = mk f.
Proof.
  intros [Hl Hr]. exists (fun r c => default 0 (at2 m r c)).
  do 4 (destruct m as [|? m]; [done|]). destruct m; [|done].
  rewrite !Forall_cons in Hr. destruct_and!.
  repeat match goal with
  | H : length ?l = 4%nat |- _ =>
      do 4 (destruct l as [|? l]; [discriminate H|]); destruct l; [clear H|discriminate H]
  end.
  reflexivity.
Qed.

Lemma key_round_mk i w g h : (i < 10)%nat -> length w = 11%nat -> bytes2 g ->
  w !! i = Some (mk g) -> w !! S i = Some (mk h) ->
  key_round (Z.of_nat (S i)) w = Some (<[S i := mk (next (rc_at i) g)]> w).
Proof.
  intros Hi Hl Hg Hp Hc.
  do 11 (destruct w as [|? w]; [done|]). destruct w; [|done]. clear Hl.
  do 10 (destruct i as [|i]; [injection Hp as ->; injection Hc as ->;
    aes_lazy; by rewrite !Sbox_at_ok by apply Hg|]). lia.
Qed.

Lemma next_bytes c g : is_byte c -> bytes2 g -> bytes2 (next c g).
Proof.
  intros Hc Hg r j. unfold next. induction (Z.to_nat j) as [|n IH]; cbn [next_col].
  - apply xor_byte; [apply Hg|]. unfold core. case_match; auto using xor_byte, sbox_byte.
  - by apply xor_byte.
Qed.

Lemma rc_byte i : is_byte (rc_at i).
Proof.
  assert (are_bytes rc) as H by (by apply (bool_decide_eq_true_1 _)).
  unfold rc_at. destruct (rc !! i) as [c|] eqn:E; [|unfold is_byte; cbn; lia].
  by eapply Forall_lookup_1 in H.
Qed.

Lemma round_keys_bytes k i : bytes2 k -> bytes2 (round_keys k i).
Proof. intros Hk. induction i; cbn; auto using next_bytes, rc_byte. Qed.

(** The round keys after [n] rounds of the expansion of [w]. *)
Definition expanded (k : Z -> Z -> Z) (w : list matrix) (n : nat) : list matrix :=
  map (fun i => mk (round_keys k i)) (seq 0 (S n)) ++ drop (S n) w.

Lemma expanded_lookup k w n : expanded k w n !! n = Some (mk (round_keys k n)).
Proof.
  unfold expanded. rewrite lookup_app_l by (rewrite length_map, length_seq; lia).
  by rewrite list_lookup_fmap, (proj2 (lookup_seq _ _ _ n)) by lia.
Qed.

Lemma expanded_next k w n x : w !! S n = Some x ->
  expanded k w n !! S n = Some x /\
  <[S n := mk (round_keys k (S n))]> (expanded k w n) = expanded k w (S n).
Proof.
  intros Hx. unfold expanded. rewrite (drop_S _ _ _ Hx).
  rewrite lookup_app_r by (rewrite length_map, length_seq; lia).
  rewrite insert_app_r_alt by (rewrite length_map, length_seq; lia).
  rewrite length_map, length_seq, Nat.sub_diag. split; [done|].
  rewrite (seq_S (S n)), map_app. by rewrite <- app_assoc.
Qed.

Lemma load_key k m w :
  is_4x4 m ->
  for_each (seqZ 0 4) (fun r =>
    for_each (seqZ 0 4) (fun c w => x ← index (fl k) (r + c * 4); set3 w 0 r c x)) (m :: w) =
  Some (mk k :: w).
Proof. intros [h ->]%is_4x4_mk. by aes_lazy. Qed.

(** The expansion overwrites all that was in [w]. *)
Lemma keyExpansion_keys w k : length w = 11%nat -> Forall is_4x4 w -> bytes2 k ->
  keyExpansion w (fl k) = Some (keys (round_keys k)).
Proof.
  intros Hl Hw Hk. unfold keyExpansion.
  destruct w as [|m w]; [done|]. rewrite load_key by (by apply Forall_inv in Hw). opt.
  change (mk k :: w) with (expanded k (m :: w) 0).
  rewrite (for_each_steps _ _ (expanded k (m :: w))).
  - change (length (seqZ 1 10)) with 10%nat. unfold expanded. rewrite drop_ge by lia. by rewrite app_nil_r.
  - intros i j [Hi ->]%up_lookup.
    destruct (lookup_lt_is_Some_2 (m :: w) (S i)) as [x Hx]; [lia|].
    destruct (expanded_next k (m :: w) i x Hx) as [Hn <-].
    assert (is_4x4 x) as [h ->]%is_4x4_mk by (by eapply Forall_lookup_1).
    eapply key_round_mk; [done| |by apply round_keys_bytes|apply expanded_lookup|done].
    unfold expanded. rewrite length_app, length_map, length_seq, length_drop. lia.
Qed.

(** ** The reference computes the same *)

Lemma add_fl f k : Fips.add (fl f) (fl k) = fl (add_key k f).
Proof. by aes_lazy. Qed.

Lemma sub_bytes_fl f : Fips.sub_bytes (fl f) = fl (sub f).
Proof. by aes_lazy. Qed.

Lemma shift_rows_fl f : Fips.shift_rows (fl f) = fl (shift f).
Proof. by aes_lazy. Qed.

Lemma fl_ext f g : (forall r c, f r c = g r c) -> fl f = fl g.
Proof. intros H. apply list_fmap_ext. intros i x _. apply H. Qed.

Lemma FFmul_1 x : is_byte x -> FFmul 1 x = x.
Proof. intros. byte_check. Qed.

Lemma mix_columns_fl f : bytes2 f -> Fips.mix_columns (fl f) = fl (mix 2 3 1 1 f).
Proof.
  intros Hf. rewrite (fl_ext (mix 2 3 1 1 f) (fun r c =>
    Z.lxor (Z.lxor (Z.lxor (Fips.gmul 2 (f r c)) (Fips.gmul 3 (f ((r + 1) mod 4) c)))
      (f ((r + 2) mod 4) c)) (f ((r + 3) mod 4) c))).
  - intros. lazy -[Fips.gmul Z.lxor]. reflexivity.
  - intros r c. unfold mix. rewrite !FFmul_1 by apply Hf.
    by rewrite !FFmul_gmul by (by apply Hf || by cbn; auto).
Qed.

(** The words of a round key, the last one first. *)
Definition rcols (f : Z -> Z -> Z) : list (list Z) :=
  map (fun c => map (fun r => f r c) [0; 1; 2; 3]) [3; 2; 1; 0].

Fixpoint rwords (k : Z -> Z -> Z) (n : nat) : list (list Z) :=
  match n with
  | O => rcols (round_keys k 0)
  | S n' => rcols (round_keys k n) ++ rwords k n'
  end.

Definition colw (f : Z -> Z -> Z) (c : Z) : list Z := map (fun r => f r c) [0; 1; 2; 3].

#[local] Opaque Fips.sbox.

Lemma rcon_ok n : (n < 10)%nat ->
  Fips.rcon (4 * Z.of_nat (S n) / 4) = [rc_at n; 0; 0; 0].
Proof. intros Hn. do 10 (destruct n as [|n]; [vm_compute; reflexivity|]). lia. Qed.

(** Four words of the schedule are one round. *)
Lemma next_words n g rest : (n < 10)%nat ->
  let i := 4 * Z.of_nat (S n) in
  let g' := next (rc_at n) g in
  Fips.next_word i (rcols g ++ rest) = colw g' 0 /\
  Fips.next_word (i + 1) (colw g' 0 :: rcols g ++ rest) = colw g' 1 /\
  Fips.next_word (i + 1 + 1) (colw g' 1 :: colw g' 0 :: rcols g ++ rest) = colw g' 2 /\
  Fips.next_word (i + 1 + 1 + 1) (colw g' 2 :: colw g' 1 :: colw g' 0 :: rcols g ++ rest) =
    colw g' 3.
Proof.
  intros Hn i g'. subst i g'. split.
  - unfold Fips.next_word. rewrite rcon_ok by done.
    do 10 (destruct n as [|n];
      [aes_lazy; rewrite !(Z.lxor_0_r (Fips.sbox _)); reflexivity|]). lia.
  - do 10 (destruct n as [|n]; [split; [|split]; aes_lazy; reflexivity|]). lia.
Qed.

Lemma schedule_round n p g rest : (n < 10)%nat ->
  Fips.word_schedule (4 + p) (4 * Z.of_nat (S n)) (rcols g ++ rest) =
  Fips.word_schedule p (4 * Z.of_nat (S (S n))) (rcols (next (rc_at n) g) ++ rcols g ++ rest).
Proof.
  intros Hn. destruct (next_words n g rest Hn) as (E0 & E1 & E2 & E3).
  cbn [Fips.word_schedule Nat.add]. rewrite E0, E1, E2, E3. f_equal; lia.
Qed.

Lemma rwords_split k n : exists rest, rwords k n = rcols (round_keys k n) ++ rest.
Proof. destruct n as [|n]; [exists []; by rewrite app_nil_r|by eexists]. Qed.

Lemma schedule_rwords k n m : (n + m <= 10)%nat ->
  Fips.word_schedule (4 * m) (4 * Z.of_nat (S n)) (rwords k n) = rwords k (n + m).
Proof.
  revert n. induction m as [|m IH]; intros n H; [by rewrite Nat.add_0_r|].
  replace (4 * S m)%nat with (4 + 4 * m)%nat by lia.
  replace (n + S m)%nat with (S n + m)%nat by lia. rewrite <- IH by lia.
  cbn [rwords]. destruct (rwords_split k n) as [rest ->].
  rewrite schedule_round by lia. by rewrite app_assoc.
Qed.

Lemma words_fl k : Fips.words (fl k) = reverse (rwords k 10).
Proof.
  unfold Fips.words. f_equal.
  change (reverse (Fips.chunks4 (fl k) 4)) with (rwords k 0).
  apply (schedule_rwords k 0 10). lia.
Qed.

Lemma round_key_fl k i : (i <= 10)%nat ->
  Fips.round_key (Fips.words (fl k)) i = fl (round_keys k i).
Proof.
  intros Hi. rewrite words_fl. cbn [rwords].
  generalize (round_keys k) as ks. intros ks.
  unfold rcols. cbn [map app]. cbn [reverse rev_append].
  do 11 (destruct i as [|i]; [reflexivity|]). lia.
Qed.

(** ** Theorems *)

Lemma fips_rounds k f n : (n <= 9)%nat -> bytes2 k -> bytes2 f ->
  foldl (Fips.round (Fips.words (fl k))) (fl (enc_state (round_keys k) f 0)) (seq 1 n) =
  fl (enc_state (round_keys k) f n).
Proof.
  intros Hn Hk Hf. induction n as [|n IH]; [done|].
  rewrite seq_S, foldl_app, IH by lia. cbn [foldl].
  unfold Fips.round. rewrite round_key_fl, sub_bytes_fl, shift_rows_fl, mix_columns_fl
    by (lia || auto using enc_bytes, round_keys_bytes).
  rewrite add_fl. f_equal. rewrite enc_S. by replace (n =? 9)%nat with false by eqb_lia.
Qed.

Lemma fips_enc k f : bytes2 k -> bytes2 f ->
  Fips.cipher (fl k) (fl f) = fl (enc_state (round_keys k) f 10).
Proof.
  intros Hk Hf. unfold Fips.cipher. rewrite round_key_fl, add_fl by lia.
  change (add_key (round_keys k 0) f) with (enc_state (round_keys k) f 0).
  rewrite fips_rounds, sub_bytes_fl, shift_rows_fl, round_key_fl, add_fl by (done || lia).
  by rewrite enc_S.
Qed.

(** The keys of an object whose memory held [w]. *)
Definition blank (w : list matrix) : Prop := length w = 11%nat /\ Forall is_4x4 w.

Definition is_block (l : list Z) : Prop := length l = 16%nat /\ are_bytes l.

Lemma block_fl l : is_block l -> exists f, bytes2 f /\ l = fl f.
Proof.
  intros [Hl Hb]. exists (of_block l). split; [apply of_block_bytes|]. by rewrite of_block_fl.
Qed.

Lemma fl_block f : bytes2 f -> is_block (fl f).
Proof. intros Hf. split; [done|]. apply Forall_fmap, Forall_true. intros i. apply Hf. Qed.

(** C35: For every key and block, whatever the object and the output area held
    before, [cipher] after [setKey] writes the block that FIPS-197 defines, in
    which the S-box and the products of [FFmul] are computed in the field of 256
    elements and the key schedule word by word. *)
Theorem cipher_is_fips197 w key input output :
  blank w -> is_block key -> is_block input -> length output = 16%nat ->
  exists w', setKey w key = Some w' /\ cipher w' input output = Some (Fips.cipher key input).
Proof.
  intros [Hl Hw] [k [Hk ->]]%block_fl [f [Hf ->]]%block_fl Ho.
  exists (keys (round_keys k)). split; [by apply keyExpansion_keys|].
  rewrite fips_enc by done. apply cipher_enc; auto using round_keys_bytes.
Qed.

(** For every key, [cipher] and [invcipher] are inverse to each other on all
    blocks: each returns a block, and applying the other to it gives back the
    block it was computed from. *)
Theorem aes_roundtrip w key input output :
  blank w -> is_block key -> is_block input -> length output = 16%nat ->
  exists w' c p, setKey w key = Some w' /\
    cipher w' input output = Some c /\ is_block c /\ invcipher w' c output = Some input /\
    invcipher w' input output = Some p /\ is_block p /\ cipher w' p output = Some input.
Proof.
  intros [Hl Hw] [k [Hk ->]]%block_fl [f [Hf ->]]%block_fl Ho.
  assert (forall i, bytes2 (round_keys k i)) as Hks by auto using round_keys_bytes.
  exists (keys (round_keys k)), (fl (enc_state (round_keys k) f 10)), (fl (dec_state (round_keys k) f 10)).
  split; [by apply keyExpansion_keys|].
  split; [by apply cipher_enc|]. split; [by apply fl_block, enc_bytes|].
  split; [by apply invcipher_enc|]. split; [by apply invcipher_dec|].
  split; [by apply fl_block, dec_bytes|]. by apply cipher_dec.
Qed.

(** ** Examples *)

Definition blank_w : list matrix := replicate 11 (replicate 4 (replicate 4 0xcc)).
Definition key_example : list Z := seqZ 0 16.
Definition block_example : list Z := map (fun i => 0x11 * i) (seqZ 0 16).

(** The example of FIPS-197, appendix C.1. *)
Example fips_197_c1 :
  (w ← setKey blank_w key_example; cipher w block_example (replicate 16 0)) =
  Some [0x69; 0xc4; 0xe0; 0xd8; 0x6a; 0x7b; 0x04; 0x30; 0xd8; 0xcd; 0xb7; 0x80; 0x70; 0xb4;
        0xc5; 0x5a].
Proof. vm_compute. reflexivity. Qed.

Lemma blank_w_blank : blank blank_w.
Proof. split; [done|]. by repeat constructor. Qed.

Lemma example_blocks : is_block key_example /\ is_block block_example.
Proof.
  split; (split; [done|]); apply (bool_decide_eq_true_1 _); vm_compute; reflexivity.
Qed.

Lemma cipher_is_fips197_witness : exists w',
  setKey blank_w key_example = Some w' /\
  cipher w' block_example (replicate 16 0) = Some (Fips.cipher key_example block_example).
Proof.
  apply (cipher_is_fips197 blank_w key_example block_example (replicate 16 0));
    [apply blank_w_blank|apply example_blocks|apply example_blocks|reflexivity].
Defined.

Lemma aes_roundtrip_witness : exists w' c p, setKey blank_w key_example = Some w' /\
    cipher w' block_example (replicate 16 0) = Some c /\ is_block c /\
    invcipher w' c (replicate 16 0) = Some block_example /\
    invcipher w' block_example (replicate 16 0) = Some p /\ is_block p /\
    cipher w' p (replicate 16 0) = Some block_example.
Proof.
  apply (aes_roundtrip blank_w key_example block_example (replicate 16 0));
    [apply blank_w_blank|apply example_blocks|apply example_blocks|reflexivity].
Defined.
