(* ===== verification/Buffer.v ===== *)
(** * Buffer: the byte buffer of util

    [modules/util/buffer.h], [buffer.cpp].  A buffer owns an array of cells
    ([None] is a cell not written since it was allocated) with a read and a
    write position.  Its operations work in [option]: [None] is an access
    outside the array.  The specification is a queue of bytes. *)
From S2P Require Import Prelude.

(** ** Memory *)

Notation cells := (list (option Z)).

(** [new uint8_t[n]] *)
Definition new_array (n : Z) : cells := replicate (Z.to_nat n) None.

(** [memcpy] and [memmove] from and to offset [off]; a null pointer is an
    array without cells, with which only a copy of nothing is allowed. *)
Definition mem_read (p : option cells) (off n : Z) : option cells :=
  if (0 <=? off) && (off + n <=? Z.of_nat (length (default [] p))) || (n =? 0)
  then Some (take (Z.to_nat n) (drop (Z.to_nat off) (default [] p))) else None.

Definition mem_write (p : option cells) (off : Z) (d : cells) : option (option cells) :=
  match p with
  | None => if (length d =? 0)%nat then Some None else None
  | Some a =>
      if (0 <=? off) && (off + Z.of_nat (length d) <=? Z.of_nat (length a))
      then Some (Some (take (Z.to_nat off) a ++ d ++ drop (Z.to_nat off + length d) a))
      else None
  end.

(** ** The code *)

Record buffer := mkBuffer {
  buffer_ptr : option cells;
  buffer_size : Z;
  read_index : Z;
  write_index : Z
}.

Definition null_buffer : buffer := mkBuffer None 0 0 0.

(** [Buffer(size_t reverse_size)] *)
Definition buffer_new (reverse_size : Z) : buffer :=
  if 0 <? reverse_size then mkBuffer (Some (new_array reverse_size)) reverse_size 0 0
  else null_buffer.

Definition buffer_swap (a b : buffer) : buffer * buffer := (b, a).

Definition buffer_reset (b : buffer) : buffer := (buffer_swap b (buffer_new 0)).1.

Definition writableSize (b : buffer) : Z := u64 (buffer_size b - write_index b).
Definition readableSize (b : buffer) : Z := u64 (write_index b - read_index b).

Definition ensureWritableSize (b : buffer) (write_size : Z) : option buffer :=
  if write_size =? 0 then Some b
  else if write_size <=? writableSize b then Some b
  else if write_size <=? u64 (writableSize b + read_index b) then
    let n := u64 (write_index b - read_index b) in
    d ← mem_read (buffer_ptr b) (read_index b) n;
    p ← mem_write (buffer_ptr b) 0 d;
    Some (mkBuffer p (buffer_size b) 0 n)
  else
    let new_size := u64 (Z.shiftl (write_index b + write_size) 1) in
    let p_buff := Some (new_array new_size) in
    p ← match buffer_ptr b with
        | None => Some p_buff
        | Some _ =>
            d ← mem_read (buffer_ptr b) (read_index b) (u64 (write_index b - read_index b));
            mem_write p_buff (read_index b) d
        end;
    Some (mkBuffer p new_size (read_index b) (write_index b)).

Definition hasWritten (b : buffer) (write_size : Z) : buffer :=
  mkBuffer (buffer_ptr b) (buffer_size b) (read_index b)
    (if buffer_size b <? u64 (write_index b + write_size) then buffer_size b
     else u64 (write_index b + write_size)).

(** [memcpy(writableBegin(), p_data, data_size)] *)
Definition writable_put (b : buffer) (data : list Z) : option buffer :=
  p ← mem_write (buffer_ptr b) (write_index b) (map Some data);
  Some (mkBuffer p (buffer_size b) (read_index b) (write_index b)).

Definition buffer_append (b : buffer) (data : list Z) : option (buffer * Z) :=
  let n := Z.of_nat (length data) in
  b1 ← ensureWritableSize b n;
  b2 ← writable_put b1 data;
  Some (hasWritten b2 n, n).

Definition hasRead (b : buffer) (read_size : Z) : buffer :=
  if write_index b <? u64 (read_index b + read_size)
  then mkBuffer (buffer_ptr b) (buffer_size b) 0 0
  else
    let r := u64 (read_index b + read_size) in
    if r =? write_index b then mkBuffer (buffer_ptr b) (buffer_size b) 0 0
    else mkBuffer (buffer_ptr b) (buffer_size b) r (write_index b).

Definition hasReadAll (b : buffer) : buffer := mkBuffer (buffer_ptr b) (buffer_size b) 0 0.

Definition buffer_fetch (b : buffer) (buff_size : Z) : option (buffer * cells) :=
  let read_size := if readableSize b <? buff_size then readableSize b else buff_size in
  d ← mem_read (buffer_ptr b) (read_index b) read_size;
  Some (hasRead b read_size, d).

(** The buffer that [cloneFrom(other)] leaves in [*this]. *)
Definition cloneFrom (other : buffer) : option buffer :=
  let n := readableSize other in
  if 0 <? n then
    d ← mem_read (buffer_ptr other) (read_index other) n;
    p ← mem_write (Some (new_array n)) 0 d;
    Some (mkBuffer p n 0 n)
  else Some (mkBuffer None 0 0 0).

(** [Buffer(const Buffer&)]; [a = b] for [this != &other] leaves the same. *)
Definition buffer_copy (other : buffer) : option buffer := cloneFrom other.

(** [Buffer(Buffer&&)] and [a = std::move(b)]: the new [*this] and [other]. *)
Definition buffer_move (other : buffer) : buffer * buffer := buffer_swap null_buffer other.
Definition move_assign (this other : buffer) : buffer * buffer :=
  buffer_swap (buffer_reset this) other.

Definition buffer_shrink (b : buffer) : option buffer :=
  tmp ← buffer_copy b; Some (buffer_swap b tmp).1.

(** ** The specification: a queue of bytes *)

Inductive buffer_op :=
| OpAppend (data : list Z)
| OpWrite (data : list Z) (n : Z)   (** fill the writable area, then [hasWritten(n)] *)
| OpFetch (n : Z)
| OpHasRead (n : Z)
| OpHasReadAll
| OpEnsure (n : Z)
| OpShrink
| OpReset
| OpCopy.                           (** continue with a copy *)

(** What the caller sees: the bytes fetched and the sizes reported. *)
Definition run_op (b : buffer) (o : buffer_op) : option (buffer * (cells * Z)) :=
  let quiet b := (b, ([], readableSize b)) in
  match o with
  | OpAppend d => '(b, n) ← buffer_append b d; Some (b, ([], n))
  | OpWrite d n =>
      b ← ensureWritableSize b (Z.of_nat (length d)); b ← writable_put b d;
      Some (quiet (hasWritten b n))
  | OpFetch n => '(b, d) ← buffer_fetch b n; Some (b, (d, Z.of_nat (length d)))
  | OpHasRead n => Some (quiet (hasRead b n))
  | OpHasReadAll => Some (quiet (hasReadAll b))
  | OpEnsure n => b ← ensureWritableSize b n; Some (quiet b)
  | OpShrink => b ← buffer_shrink b; Some (quiet b)
  | OpReset => Some (quiet (buffer_reset b))
  | OpCopy => b ← buffer_copy b; Some (quiet b)
  end.

Fixpoint run_ops (b : buffer) (ops : list buffer_op) : option (buffer * list (cells * Z)) :=
  match ops with
  | [] => Some (b, [])
  | o :: ops' =>
      '(b1, r) ← run_op b o; '(b2, rs) ← run_ops b1 ops'; Some (b2, r :: rs)
  end.

Definition queue_op (q : list Z) (o : buffer_op) : list Z * (cells * Z) :=
  let quiet q := (q, ([], Z.of_nat (length q))) in
  match o with
  | OpAppend d => (q ++ d, ([], Z.of_nat (length d)))
  | OpWrite d n => quiet (q ++ take (Z.to_nat n) d)
  | OpFetch n =>
      (drop (Z.to_nat n) q,
       (map Some (take (Z.to_nat n) q), Z.of_nat (length (take (Z.to_nat n) q))))
  | OpHasRead n => quiet (drop (Z.to_nat n) q)
  | OpHasReadAll => quiet []
  | OpEnsure _ | OpShrink | OpCopy => quiet q
  | OpReset => quiet []
  end.

Fixpoint queue_ops (q : list Z) (ops : list buffer_op) : list Z * list (cells * Z) :=
  match ops with
  | [] => (q, [])
  | o :: ops' =>
      let '(q1, r) := queue_op q o in let '(q2, rs) := queue_ops q1 ops' in (q2, r :: rs)
  end.

(** The sizes an operation asks for. *)
Definition op_size (o : buffer_op) : Z :=
  match o with
  | OpAppend d | OpWrite d _ => Z.of_nat (length d)
  | OpFetch n | OpHasRead n | OpEnsure n => n
  | _ => 0
  end.

Definition op_ok (o : buffer_op) : bool :=
  match o with
  | OpWrite d n => (0 <=? n) && (n <=? Z.of_nat (length d))
  | _ => 0 <=? op_size o
  end.

Fixpoint total_size (ops : list buffer_op) : Z :=
  match ops with [] => 0 | o :: ops' => op_size o + total_size ops' end.

(** ** The invariant *)

Record holds (b : buffer) (q : list Z) (W : Z) : Prop := mkHolds {
  h_len : Z.of_nat (length (default [] (buffer_ptr b))) = buffer_size b;
  h_null : buffer_ptr b = None -> buffer_size b = 0;
  h_read : 0 <= read_index b;
  h_write : write_index b = read_index b + Z.of_nat (length q);
  h_fit : write_index b <= buffer_size b;
  h_data : take (length q) (drop (Z.to_nat (read_index b)) (default [] (buffer_ptr b))) = map Some q;
  h_size : buffer_size b < 2 ^ 63;
  h_budget : write_index b <= W
}.

(** No size in the run comes near the range of [size_t]. *)
Definition small (W : Z) : Prop := 0 <= W < 2 ^ 62.

Lemma mem_read_ok p off n : 0 <= off -> 0 <= n -> off + n <= Z.of_nat (length (default [] p)) ->
  mem_read p off n = Some (take (Z.to_nat n) (drop (Z.to_nat off) (default [] p))).
Proof. intros. unfold mem_read. by rewrite !(proj2 (Z.leb_le _ _)) by lia. Qed.

Lemma mem_write_ok a off d : 0 <= off -> off + Z.of_nat (length d) <= Z.of_nat (length a) ->
  mem_write (Some a) off d =
  Some (Some (take (Z.to_nat off) a ++ d ++ drop (Z.to_nat off + length d) a)).
Proof. intros. unfold mem_write. by rewrite !(proj2 (Z.leb_le _ _)) by lia. Qed.

Lemma written_length (a d : cells) off : 0 <= off -> off + Z.of_nat (length d) <= Z.of_nat (length a) ->
  length (take (Z.to_nat off) a ++ d ++ drop (Z.to_nat off + length d) a) = length a.
Proof. intros. rewrite !length_app, length_take, length_drop. lia. Qed.

Lemma u64_small x : 0 <= x < 2 ^ 64 -> u64 x = x.
Proof. apply (wrap_small 64). Qed.

Lemma length_new_array n : 0 <= n -> Z.of_nat (length (new_array n)) = n.
Proof. intros. unfold new_array. rewrite length_replicate. lia. Qed.

Lemma holds_mono b q W W' : holds b q W -> W <= W' -> holds b q W'.
Proof. intros [] ?. constructor; (done || lia). Qed.

Lemma holds_empty p s W : Z.of_nat (length (default [] p)) = s -> (p = None -> s = 0) ->
  s < 2 ^ 63 -> 0 <= W -> holds (mkBuffer p s 0 0) [] W.
Proof. intros. constructor; cbn; (done || lia). Qed.

Lemma holds_null W : 0 <= W -> holds null_buffer [] W.
Proof. intros. by apply holds_empty. Qed.

Section Held.
Context (b : buffer) (q : list Z) (W : Z) (H : holds b q W).

Lemma held_readable : readableSize b = Z.of_nat (length q).
Proof. destruct H. unfold readableSize. rewrite u64_small; lia. Qed.

Lemma held_writable : writableSize b = buffer_size b - write_index b.
Proof. destruct H. unfold writableSize. rewrite u64_small; lia. Qed.

Lemma held_mem n : 0 <= n <= Z.of_nat (length q) ->
  mem_read (buffer_ptr b) (read_index b) n = Some (map Some (take (Z.to_nat n) q)).
Proof.
  intros Hn. destruct H. rewrite mem_read_ok by lia. f_equal.
  rewrite <- firstn_map, <- h_data0, take_take. f_equal. lia.
Qed.

Lemma held_all : mem_read (buffer_ptr b) (read_index b) (Z.of_nat (length q)) = Some (map Some q).
Proof. rewrite held_mem by lia. by rewrite take_ge by lia. Qed.

Lemma held_ensure n : 0 <= n -> small (W + n) ->
  exists b', ensureWritableSize b n = Some b' /\ holds b' q W /\
             write_index b' + n <= buffer_size b'.
Proof.
  intros Hn HW. unfold small in HW. unfold ensureWritableSize. rewrite held_writable.
  pose proof held_all as Hall. pose proof H as [].
  destruct (Z.eqb_spec n 0) as [->|]; [exists b; repeat split; (done || lia)|].
  destruct (Z.leb_spec n (buffer_size b - write_index b)); [exists b; repeat split; (done || lia)|].
  rewrite !u64_small by lia.
  replace (write_index b - read_index b) with (Z.of_nat (length q)) by lia.
  destruct (Z.leb_spec n (buffer_size b - write_index b + read_index b)).
  - rewrite Hall. cbn [mbind option_bind].
    destruct (buffer_ptr b) as [a|] eqn:Ea; [|specialize (h_null0 eq_refl); lia].
    cbn [default id] in *.
    rewrite mem_write_ok by (rewrite ?length_map; lia). cbn [mbind option_bind].
    eexists; split; [done|]. split; [constructor; cbn; try (done || lia)|cbn; lia].
    + rewrite written_length by (rewrite ?length_map; lia). done.
    + change (Z.to_nat 0) with 0%nat. rewrite drop_0, take_0. cbn [app].
      by rewrite take_app_length' by (by rewrite length_map).
  - rewrite shl_mul by lia. change (2 ^ 1) with 2. rewrite u64_small by lia.
    set (s := (write_index b + n) * 2).
    assert (Hs : Z.of_nat (length (new_array s)) = s) by (apply length_new_array; lia).
    destruct (buffer_ptr b) as [a|] eqn:Ea; cbn [default id] in *.
    + rewrite Hall. cbn [mbind option_bind].
      assert (Hr : read_index b + Z.of_nat (length (map Some q)) <= Z.of_nat (length (new_array s)))
        by (rewrite length_map; lia).
      rewrite mem_write_ok by done. cbn [mbind option_bind].
      eexists; split; [done|]. split; [constructor; cbn [buffer_ptr buffer_size read_index write_index default id]; try (done || lia)|cbn; lia].
      * by rewrite written_length.
      * rewrite drop_app_length' by (rewrite length_take; lia).
        by rewrite take_app_length' by (by rewrite length_map).
    + cbn [mbind option_bind]. cbn in h_len0. assert (q = []) as -> by (destruct q; [done|cbn in *; lia]).
      eexists; split; [done|]. split; [constructor; cbn [buffer_ptr buffer_size read_index write_index default id]; try (done || lia)|cbn; lia].
Qed.

Lemma held_put d n : write_index b + Z.of_nat (length d) <= buffer_size b ->
  0 <= n <= Z.of_nat (length d) -> small (W + Z.of_nat (length d)) ->
  exists b', writable_put b d = Some b' /\
    holds (hasWritten b' n) (q ++ take (Z.to_nat n) d) (W + Z.of_nat (length d)).
Proof.
  intros Hd Hn HW. unfold small in HW. pose proof H as []. unfold writable_put, hasWritten.
  destruct (buffer_ptr b) as [a|] eqn:Ea; cbn [default id] in *.
  - assert (Hl : write_index b + Z.of_nat (length (map Some d)) <= Z.of_nat (length a))
      by (rewrite length_map; lia).
    rewrite mem_write_ok by lia. cbn [mbind option_bind]. eexists; split; [done|].
    cbn [buffer_ptr buffer_size read_index write_index]. rewrite u64_small by lia.
    rewrite (proj2 (Z.ltb_ge _ _)) by lia.
    constructor; cbn [buffer_ptr buffer_size read_index write_index default id]; try (done || lia).
    + rewrite written_length; lia.
    + rewrite length_app, length_take. lia.
    + rewrite map_app, <- h_data0, length_app, length_take.
      rewrite drop_app_le by (rewrite length_take; lia).
      rewrite skipn_firstn_comm. set (c := drop (Z.to_nat (read_index b)) a).
      assert (Z.to_nat (write_index b) - Z.to_nat (read_index b) = length q)%nat as -> by lia.
      assert (Hc : length (take (length q) c) = length q)
        by (unfold c; rewrite length_take, length_drop; lia).
      rewrite take_app_ge, Hc by (rewrite Hc; lia).
      f_equal.
      rewrite <- firstn_map. rewrite take_app_le by (rewrite length_map; lia). f_equal. lia.
  - specialize (h_null0 eq_refl). cbn in h_len0. destruct d; [|cbn in *; lia].
    cbn [map mem_write length Nat.eqb mbind option_bind]. eexists; split; [done|].
    cbn [buffer_ptr buffer_size read_index write_index]. rewrite u64_small by (cbn in *; lia).
    rewrite (proj2 (Z.ltb_ge _ _)) by lia. rewrite take_nil, app_nil_r.
    replace (write_index b + n) with (write_index b) by (cbn in *; lia).
    rewrite <- Ea. cbn [length]. destruct b; cbn in *. by eapply holds_mono; [exact H|lia].
Qed.

Lemma held_read n : 0 <= n -> small (W + n) -> holds (hasRead b n) (drop (Z.to_nat n) q) W.
Proof.
  intros Hn HW. unfold small in HW. pose proof H as []. unfold hasRead. rewrite u64_small by lia.
  destruct (Z.ltb_spec (write_index b) (read_index b + n)).
  { rewrite drop_ge by lia. apply holds_empty; (done || lia). }
  destruct (Z.eqb_spec (read_index b + n) (write_index b)).
  { rewrite drop_ge by lia. apply holds_empty; (done || lia). }
  constructor; cbn; try (done || lia).
  - rewrite length_drop. lia.
  - rewrite <- skipn_map, <- h_data0, length_drop, skipn_firstn_comm, drop_drop. f_equal; f_equal; lia.
Qed.

Lemma held_copy : exists b', cloneFrom b = Some b' /\ holds b' q W.
Proof.
  unfold cloneFrom. rewrite held_readable. pose proof held_all as Hall. pose proof H as [].
  destruct (Z.ltb_spec 0 (Z.of_nat (length q))).
  - rewrite Hall. cbn [mbind option_bind].
    set (n := Z.of_nat (length q)).
    assert (Hn : length (new_array n) = length q) by (unfold new_array; rewrite length_replicate; lia).
    rewrite mem_write_ok by (rewrite ?length_map; lia). cbn [mbind option_bind].
    eexists; split; [done|]. constructor; cbn [buffer_ptr buffer_size read_index write_index default id]; try (done || lia).
    + rewrite written_length by (rewrite ?length_map; lia). lia.
    + change (Z.to_nat 0) with 0%nat. rewrite drop_0, take_0. cbn [app].
      by rewrite take_app_length' by (by rewrite length_map).
  - assert (q = []) as -> by (destruct q; [done|cbn in *; lia]).
    eexists; split; [done|]. apply holds_null. cbn in *; lia.
Qed.
End Held.

(** ** Properties *)

Lemma total_nonneg ops : Forall (fun o => op_ok o = true) ops -> 0 <= total_size ops.
Proof.
  induction 1 as [|o ops Ho _ IH]; cbn [total_size]; [lia|].
  destruct o; cbn in *; lia.
Qed.

Ltac quiet_result :=
  match goal with
  | Hh : holds ?b ?q ?W |- context [readableSize ?b] => rewrite (held_readable b q W Hh)
  end.

Lemma run_op_queue b q W o : holds b q W -> op_ok o = true -> small (W + op_size o) ->
  exists b', run_op b o = Some (b', (queue_op q o).2) /\
             holds b' (queue_op q o).1 (W + op_size o).
Proof.
  intros H Hok HW.
  assert (Ho : 0 <= op_size o) by (destruct o; cbn in *; lia).
  assert (H' : holds b q (W + op_size o)) by (eapply holds_mono; [done|lia]).
  assert (Hnil : forall b', holds b' [] (W + op_size o) ->
    holds b' [] (W + op_size o) /\ readableSize b' = 0).
  { intros b' Hb. split; [done|]. by rewrite (held_readable b' [] _ Hb). }
  assert (Hall : holds (hasReadAll b) [] (W + op_size o))
    by (unfold small in HW; destruct H; apply holds_empty; (done || lia)).
  destruct o as [d|d n|n|n| |n| | |]; cbn [run_op queue_op fst snd op_size] in *.
  - unfold buffer_append.
    destruct (held_ensure b q W H (Z.of_nat (length d)) ltac:(lia) HW) as (b1 & -> & H1 & Hf).
    cbn [mbind option_bind].
    destruct (held_put b1 q W H1 d (Z.of_nat (length d)) Hf ltac:(lia) HW) as (b2 & -> & H2).
    cbn [mbind option_bind]. eexists; split; [done|]. by rewrite take_ge in H2 by lia.
  - destruct (held_ensure b q W H (Z.of_nat (length d)) ltac:(lia) HW) as (b1 & -> & H1 & Hf).
    cbn [mbind option_bind].
    destruct (held_put b1 q W H1 d n Hf ltac:(cbn in Hok; lia) HW) as (b2 & -> & H2).
    cbn [mbind option_bind]. quiet_result. eexists; split; done.
  - unfold buffer_fetch. rewrite (held_readable b q W H).
    set (r := if Z.of_nat (length q) <? n then Z.of_nat (length q) else n).
    assert (Hr : 0 <= r <= Z.of_nat (length q) /\ r <= n /\
      take (Z.to_nat r) q = take (Z.to_nat n) q /\ drop (Z.to_nat r) q = drop (Z.to_nat n) q).
    { unfold r. destruct (Z.ltb_spec (Z.of_nat (length q)) n); [|repeat split; (done || lia)].
      rewrite !take_ge, !drop_ge by lia. repeat split; lia. }
    destruct Hr as (Hr & Hn & Et & Ed).
    rewrite (held_mem b q W H r Hr). cbn [mbind option_bind]. rewrite Et, length_map.
    eexists; split; [done|]. rewrite <- Ed. eapply (holds_mono _ _ W); [|lia].
    apply held_read; [done|lia|unfold small in *; destruct H; lia].
  - pose proof (held_read b q W H n Ho HW) as H1. quiet_result.
    eexists; split; [done|]. eapply holds_mono; [done|lia].
  - quiet_result. by eexists.
  - destruct (held_ensure b q W H n Ho HW) as (b1 & -> & H1 & _). cbn [mbind option_bind].
    quiet_result. eexists; split; [done|]. eapply holds_mono; [done|lia].
  - unfold buffer_shrink, buffer_copy, buffer_swap.
    destruct (held_copy b q W H) as (b1 & -> & H1). cbn [mbind option_bind fst].
    quiet_result. eexists; split; [done|]. eapply holds_mono; [done|lia].
  - destruct (Hnil null_buffer) as [Hz Hs]; [apply holds_null; unfold small in HW; lia|].
    change (buffer_reset b) with null_buffer. rewrite Hs. by eexists.
  - unfold buffer_copy. destruct (held_copy b q W H) as (b1 & -> & H1). cbn [mbind option_bind].
    quiet_result. eexists; split; [done|]. eapply holds_mono; [done|lia].
Qed.

Lemma run_ops_queue ops : forall b q W, holds b q W -> Forall (fun o => op_ok o = true) ops ->
  small (W + total_size ops) ->
  exists b', run_ops b ops = Some (b', (queue_ops q ops).2) /\
             holds b' (queue_ops q ops).1 (W + total_size ops).
Proof.
  induction ops as [|o ops IH]; intros b q W H Hok HW; cbn [run_ops queue_ops total_size].
  { eexists; split; [done|]. cbn. by rewrite Z.add_0_r. }
  inversion_clear Hok as [|? ? Ho Hos]. pose proof (total_nonneg ops Hos). cbn [total_size] in HW.
  destruct (run_op_queue b q W o H Ho) as (b1 & E1 & H1); [unfold small in *; destruct H; destruct o; cbn in *; lia|].
  rewrite E1. cbn [mbind option_bind].
  destruct (queue_op q o) as [q1 r1]. cbn [fst snd] in *.
  destruct (IH b1 q1 (W + op_size o) H1 Hos) as (b2 & E2 & H2); [by rewrite <- Z.add_assoc|].
  rewrite E2. cbn [mbind option_bind].
  destruct (queue_ops q1 ops) as [q2 rs]. cbn [fst snd] in *.
  eexists; split; [done|]. by rewrite Z.add_assoc.
Qed.

(** C26: a buffer is a queue of bytes.  Any sequence of appends, writes into the
    writable area, fetches, reads, reservations, shrinks, resets and copies
    runs without touching memory outside the array, returns what the queue
    returns, and leaves a buffer whose readable bytes are those of the queue,
    as long as the sizes asked for stay below 2^62 in total. *)
Theorem buffer_is_queue reserve ops :
  0 <= reserve < 2 ^ 63 -> Forall (fun o => op_ok o = true) ops -> total_size ops < 2 ^ 62 ->
  exists b, run_ops (buffer_new reserve) ops = Some (b, (queue_ops [] ops).2) /\
    mem_read (buffer_ptr b) (read_index b) (readableSize b)
      = Some (map Some (queue_ops [] ops).1) /\
    0 <= read_index b <= write_index b /\ write_index b <= buffer_size b.
Proof.
  intros Hr Hok HT. pose proof (total_nonneg ops Hok).
  destruct (run_ops_queue ops (buffer_new reserve) [] 0) as (b & E & H1); [|done|unfold small; lia|].
  { unfold buffer_new. destruct (Z.ltb_spec 0 reserve); [|by apply holds_null].
    apply holds_empty; cbn [default id]; (done || lia || (apply length_new_array; lia)). }
  exists b. split; [done|]. rewrite (held_readable b _ _ H1).
  split; [by apply (held_all b _ _ H1)|]. destruct H1; lia.
Qed.

(** moving and swapping exchange two buffers entirely: the moved-from buffer
    of a move construction or assignment is the empty buffer without memory,
    the target has exactly the source's bytes and capacity, and [shrink]
    leaves no unused cell. *)
Theorem buffer_transfers b q W this :
  holds b q W -> 0 <= W ->
  buffer_move b = (b, null_buffer) /\ move_assign this b = (b, null_buffer) /\
  (exists b', buffer_shrink b = Some b' /\ holds b' q W /\
     buffer_size b' = Z.of_nat (length q) /\ read_index b' = 0).
Proof.
  intros H HW. split; [done|]. split; [done|].
  destruct (held_copy b q W H) as (b' & E & H'). exists b'.
  unfold buffer_shrink, buffer_copy. rewrite E. cbn. split; [done|]. split; [done|].
  unfold cloneFrom in E. rewrite (held_readable b q W H), (held_all b q W H) in E.
  case_match eqn:Hl; cbn [mbind option_bind] in E; simplify_eq.
  - destruct (mem_write _ _ _); cbn [mbind option_bind] in E; simplify_eq. done.
  - cbn. apply Z.ltb_ge in Hl. split; [lia|done].
Qed.

(** ** Witnesses *)

Lemma buffer_is_queue_witness :
  let ops := [OpAppend (str "hello"); OpFetch 2; OpWrite (str "world") 3; OpShrink; OpFetch 9] in
  total_size ops < 2 ^ 62 /\
  exists b, run_ops (buffer_new 4) ops = Some (b, (queue_ops [] ops).2) /\
    mem_read (buffer_ptr b) (read_index b) (readableSize b)
      = Some (map Some (queue_ops [] ops).1) /\
    0 <= read_index b <= write_index b /\ write_index b <= buffer_size b.
Proof.
  intros ops. split; [vm_compute; reflexivity|].
  apply (buffer_is_queue 4 ops); [lia| |vm_compute; reflexivity].
  repeat constructor.
Defined.

Lemma buffer_transfers_witness :
  buffer_move (buffer_new 4) = (buffer_new 4, null_buffer) /\
  move_assign (buffer_new 9) (buffer_new 4) = (buffer_new 4, null_buffer) /\
  (exists b', buffer_shrink (buffer_new 4) = Some b' /\ holds b' [] 0 /\
     buffer_size b' = Z.of_nat (length (@nil Z)) /\ read_index b' = 0).
Proof.
  apply (buffer_transfers (buffer_new 4) [] 0 (buffer_new 9)); [|lia].
  apply holds_empty; [reflexivity|discriminate|lia|lia].
Defined.
