(* ===== verification/Serializer.v ===== *)
(** * Serializer: binary serialization of integers and blocks

    [modules/util/serializer.h], [serializer.cpp].  The memory a serializer
    writes to is the list [start]; for the vector kind it is the vector
    itself, which [extendSize] resizes.  Results in [option] are [None] when
    the code would touch memory outside the area. *)
From S2P Require Import Prelude.

(** ** Serializer *)

Inductive endian := kBig | kLittle.
Inductive ser_type := kRaw | kVector.

Record serializer := mkSer {
  s_type : ser_type;
  s_start : list Z;
  s_size : Z;
  s_endian : endian;
  s_pos : Z
}.

(** The two constructors. *)
Definition raw_serializer (area : list Z) (e : endian) : serializer :=
  mkSer kRaw area (Z.of_nat (length area)) e 0.
Definition vector_serializer (block : list Z) (e : endian) : serializer :=
  mkSer kVector block 0 e 0.

Definition ser_setEndian (s : serializer) (e : endian) : serializer * endian :=
  (mkSer (s_type s) (s_start s) (s_size s) e (s_pos s), s_endian s).

(** [std::vector::resize] *)
Definition resize (l : list Z) (n : Z) : list Z :=
  take (Z.to_nat n) l ++ replicate (Z.to_nat n - length l) 0.

Definition extendSize (s : serializer) (need_size : Z) : serializer * bool :=
  let whole_size := u64 (s_pos s + need_size) in
  match s_type s with
  | kRaw => (s, whole_size <=? s_size s)
  | kVector => (mkSer kVector (resize (s_start s) whole_size) (s_size s) (s_endian s) (s_pos s), true)
  end.

(** The offsets [p[k]] that an append of [n] bytes writes, in the order of the
    code: from the least significant byte. *)
Definition write_order (e : endian) (n : Z) : list Z :=
  match e with kBig => reverse (seqZ 0 n) | kLittle => seqZ 0 n end.

(** [p[k] = in & 0xff; in >>= 8; ...] *)
Fixpoint store_word (area : list Z) (p : Z) (order : list Z) (in_ : Z) : option (list Z) :=
  match order with
  | [] => Some area
  | k :: order' =>
      a ← set_at area (p + k) (Z.land in_ 0xff);
      store_word a p order' (Z.shiftr in_ 8)
  end.

Definition ser_done (s : serializer) (area : list Z) (n : Z) : serializer :=
  mkSer (s_type s) area (s_size s) (s_endian s) (u64 (s_pos s + n)).

Definition append8 (s : serializer) (in_ : Z) : option (serializer * bool) :=
  let '(s, ok) := extendSize s 1 in
  if (ok : bool) then a ← set_at (s_start s) (s_pos s) in_; Some (ser_done s a 1, true)
  else Some (s, false).

(** [append(uint16_t)], [append(uint32_t)] and [append(uint64_t)] *)
Definition append_word (n : Z) (s : serializer) (in_ : Z) : option (serializer * bool) :=
  let '(s, ok) := extendSize s n in
  if (ok : bool) then
    a ← store_word (s_start s) (s_pos s) (write_order (s_endian s) n) in_;
    Some (ser_done s a n, true)
  else Some (s, false).

Definition append_block (s : serializer) (p_in : list Z) : option (serializer * bool) :=
  let n := Z.of_nat (length p_in) in
  let '(s, ok) := extendSize s n in
  if (ok : bool) then a ← blit (s_start s) (s_pos s) p_in; Some (ser_done s a n, true)
  else Some (s, false).

(** [while (times-- > 0) *p_out-- = *p_in++;] with [p_out = area + i] *)
Fixpoint store_back (area : list Z) (i : Z) (p_in : list Z) : option (list Z) :=
  match p_in with
  | [] => Some area
  | b :: p_in' => a ← set_at area i b; store_back a (i - 1) p_in'
  end.

Definition appendPOD (s : serializer) (p : list Z) : option (serializer * bool) :=
  let n := Z.of_nat (length p) in
  let '(s, ok) := extendSize s n in
  if (ok : bool) then
    a ← match s_endian s with
        | kLittle => blit (s_start s) (s_pos s) p
        | kBig => store_back (s_start s) (s_pos s + n - 1) p
        end;
    Some (ser_done s a n, true)
  else Some (s, false).

(** ** Deserializer *)

Record deserializer := mkDes {
  d_start : list Z;
  d_size : Z;
  d_endian : endian;
  d_pos : Z
}.

Definition new_deserializer (mem : list Z) (e : endian) : deserializer :=
  mkDes mem (Z.of_nat (length mem)) e 0.

Definition des_setEndian (d : deserializer) (e : endian) : deserializer * endian :=
  (mkDes (d_start d) (d_size d) e (d_pos d), d_endian d).

Definition checkSize (d : deserializer) (need_size : Z) : bool :=
  u64 (d_pos d + need_size) <=? d_size d.

Definition set_pos (d : deserializer) (pos : Z) : deserializer * bool :=
  if pos <? d_size d then (mkDes (d_start d) (d_size d) (d_endian d) pos, true) else (d, false).

Definition des_done (d : deserializer) (n : Z) : deserializer :=
  mkDes (d_start d) (d_size d) (d_endian d) (u64 (d_pos d + n)).

Definition fetch8 (d : deserializer) : option (deserializer * option Z) :=
  if checkSize d 1 then
    out ← index (d_start d) (d_pos d); Some (des_done d 1, Some out)
  else Some (d, None).

(** [out <<= 8; out |= p[k]; ...] in a [w]-bit variable *)
Fixpoint load_word (w : Z) (mem : list Z) (p : Z) (order : list Z) (out : Z) : option Z :=
  match order with
  | [] => Some out
  | k :: order' =>
      b ← index mem (p + k); load_word w mem p order' (Z.lor (wrap w (Z.shiftl out 8)) b)
  end.

Definition fetch_word (n : Z) (d : deserializer) : option (deserializer * option Z) :=
  if checkSize d n then
    out ← match reverse (write_order (d_endian d) n) with
          | [] => None
          | k :: order =>
              b ← index (d_start d) (d_pos d + k);
              load_word (8 * n) (d_start d) (d_pos d) order b
          end;
    Some (des_done d n, Some out)
  else Some (d, None).

Definition fetch_block (d : deserializer) (size : Z) : option (deserializer * option (list Z)) :=
  if checkSize d size then
    b ← slice (d_start d) (d_pos d) size; Some (des_done d size, Some b)
  else Some (d, None).

(** [p] is the destination, of the size that is fetched. *)
Definition fetchPOD (d : deserializer) (p : list Z) : option (deserializer * option (list Z)) :=
  let size := Z.of_nat (length p) in
  if checkSize d size then
    b ← slice (d_start d) (d_pos d) size;
    p ← match d_endian d with kLittle => Some b | kBig => store_back p (size - 1) b end;
    Some (des_done d size, Some p)
  else Some (d, None).

(** The result is the position the pointer designates. *)
Definition fetchNoCopy (d : deserializer) (size : Z) : deserializer * option Z :=
  if checkSize d size then (des_done d size, Some (d_pos d)) else (d, None).

Definition des_skip (d : deserializer) (size : Z) : deserializer * bool :=
  if checkSize d size then (des_done d size, true) else (d, false).

(** ** The stream operators *)

Inductive width := W8 | W16 | W32 | W64.

Definition bytes_of (w : width) : Z :=
  match w with W8 => 1 | W16 => 2 | W32 => 4 | W64 => 8 end.
Definition bits_of (w : width) : Z := 8 * bytes_of w.

(** What [<<] and [>>] accept, and the block functions: [IPod] is the object
    representation of a [float], a [double] or another plain object. *)
Inductive item :=
| IEndian (e : endian)
| IUnsigned (w : width) (v : Z)
| ISigned (w : width) (v : Z)
| IPod (rep : list Z)
| IBlock (bytes : list Z).

Definition append_uint (w : width) (s : serializer) (v : Z) : option (serializer * bool) :=
  match w with W8 => append8 s v | _ => append_word (bytes_of w) s v end.

Definition fetch_uint (w : width) (d : deserializer) : option (deserializer * option Z) :=
  match w with W8 => fetch8 d | _ => fetch_word (bytes_of w) d end.

Definition put_item (s : serializer) (it : item) : option (serializer * bool) :=
  match it with
  | IEndian e => Some ((ser_setEndian s e).1, true)
  | IUnsigned w v => append_uint w s v
  | ISigned w v => append_uint w s (wrap (bits_of w) v)
  | IPod rep => appendPOD s rep
  | IBlock b => append_block s b
  end.

(** The item read in place of [it]; a fetch leaves the variable as it was when
    it fails, which is [None]. *)
Definition get_item (d : deserializer) (it : item) : option (deserializer * option item) :=
  match it with
  | IEndian e => Some ((des_setEndian d e).1, Some (IEndian e))
  | IUnsigned w _ => '(d, r) ← fetch_uint w d; Some (d, option_map (IUnsigned w) r)
  | ISigned w _ =>
      '(d, r) ← fetch_uint w d; Some (d, option_map (fun v => ISigned w (to_signed (bits_of w) v)) r)
  | IPod rep => '(d, r) ← fetchPOD d (map (fun _ => 0) rep); Some (d, option_map IPod r)
  | IBlock b => '(d, r) ← fetch_block d (Z.of_nat (length b)); Some (d, option_map IBlock r)
  end.

(** [s << a << b << ...]; the flag says that every append succeeded. *)
Fixpoint put_items (s : serializer) (its : list item) : option (serializer * bool) :=
  match its with
  | [] => Some (s, true)
  | it :: its' =>
      '(s1, ok) ← put_item s it; '(s2, oks) ← put_items s1 its'; Some (s2, ok && oks)
  end.

Fixpoint get_items (d : deserializer) (its : list item) : option (deserializer * list (option item)) :=
  match its with
  | [] => Some (d, [])
  | it :: its' => '(d1, r) ← get_item d it; '(d2, rs) ← get_items d1 its'; Some (d2, r :: rs)
  end.

Example word_example : option_map (fun p => s_start p.1)
    (put_items (vector_serializer [] kBig)
       [IUnsigned W16 0x1234; IEndian kLittle; IUnsigned W32 0x89abcdef; ISigned W8 (-2)])
  = Some [0x12; 0x34; 0xef; 0xcd; 0xab; 0x89; 0xfe].
Proof. reflexivity. Qed.

(** ** The format *)

Fixpoint le_bytes (n : nat) (v : Z) : list Z :=
  match n with O => [] | S n' => Z.land v 0xff :: le_bytes n' (Z.shiftr v 8) end.

Definition in_order (e : endian) (le : list Z) : list Z :=
  match e with kBig => reverse le | kLittle => le end.

Definition item_bytes (e : endian) (it : item) : list Z :=
  match it with
  | IEndian _ => []
  | IUnsigned w v => in_order e (le_bytes (Z.to_nat (bytes_of w)) v)
  | ISigned w v => in_order e (le_bytes (Z.to_nat (bytes_of w)) (wrap (bits_of w) v))
  | IPod rep => in_order e rep
  | IBlock b => b
  end.

Definition next_endian (e : endian) (it : item) : endian :=
  match it with IEndian e' => e' | _ => e end.

Fixpoint items_bytes (e : endian) (its : list item) : list Z :=
  match its with
  | [] => []
  | it :: its' => item_bytes e it ++ items_bytes (next_endian e it) its'
  end.

Definition item_ok (it : item) : Prop :=
  match it with
  | IUnsigned w v => in_range (bits_of w) v
  | ISigned w v => in_srange (bits_of w) v
  | _ => True
  end.

Definition item_size (it : item) : Z :=
  match it with
  | IEndian _ => 0
  | IUnsigned w _ | ISigned w _ => bytes_of w
  | IPod b | IBlock b => Z.of_nat (length b)
  end.

#[global] Arguments Z.mul : simpl never.
#[global] Arguments append_word : simpl never.
#[global] Arguments fetch_word : simpl never.

(** ** Words in memory *)

Lemma le_bytes_length n : forall v, length (le_bytes n v) = n.
Proof. induction n; intros; cbn; [done|]. by rewrite IHn. Qed.

Lemma le_bytes_ok n : forall v, are_bytes (le_bytes n v).
Proof.
  induction n as [|n IH]; intros v; cbn; constructor; [|apply IH].
  rewrite (land_mask v 255 8) by (done || lia). apply (wrap_range 8). lia.
Qed.

Lemma in_order_length e l : length (in_order e l) = length l.
Proof. destruct e; [apply length_reverse|done]. Qed.

Lemma in_order_inv e l : in_order e (in_order e l) = l.
Proof. destruct e; [apply reverse_involutive|done]. Qed.

Lemma seqZ_S k n : 0 < n -> seqZ k n = k :: seqZ (k + 1) (n - 1).
Proof. intros. rewrite seqZ_cons by lia. f_equal; f_equal; lia. Qed.

Lemma store_le area post n : forall pre mid k v p, length mid = n -> p + k = Z.of_nat (length pre) ->
  area = pre ++ mid ++ post ->
  store_word area p (seqZ k (Z.of_nat n)) v = Some (pre ++ le_bytes n v ++ post).
Proof.
  revert area. induction n as [|n IH]; intros area pre mid k v p Hn Hp ->.
  { destruct mid; [|done]. done. }
  destruct mid as [|x mid]; [done|]. rewrite seqZ_S by lia. cbn [store_word le_bytes].
  replace (p + k) with (Z.of_nat (length pre) + 0) by lia.
  rewrite set_at_app by (cbn [length]; lia). cbn [Z.to_nat mbind option_bind].
  change (<[0%nat := _]> (x :: mid)) with (Z.land v 255 :: mid).
  replace (Z.of_nat (S n) - 1) with (Z.of_nat n) by lia.
  rewrite (IH _ (pre ++ [Z.land v 255]) mid (k + 1) (Z.shiftr v 8) p); [by rewrite <- app_assoc|..].
  - by injection Hn.
  - rewrite length_app. cbn [length]. lia.
  - by rewrite <- app_assoc.
Qed.

Lemma store_be area pre n : forall mid post v p, length mid = n -> p = Z.of_nat (length pre) ->
  area = pre ++ mid ++ post ->
  store_word area p (reverse (seqZ 0 (Z.of_nat n))) v = Some (pre ++ reverse (le_bytes n v) ++ post).
Proof.
  revert area. induction n as [|n IH]; intros area mid post v p Hn -> ->.
  { destruct mid; [|done]. done. }
  destruct mid as [|y mid' _] using rev_ind; [done|].
  replace (Z.of_nat (S n)) with (Z.of_nat n + 1) by lia.
  rewrite seqZ_app by lia. rewrite reverse_app. cbn [seqZ].
  change (seqZ (0 + Z.of_nat n) 1) with [0 + Z.of_nat n]. cbn [reverse rev_append app store_word].
  rewrite length_app in Hn. cbn [length] in Hn.
  rewrite set_at_app by (rewrite ?length_app; cbn [length]; lia). cbn [mbind option_bind].
  replace (Z.to_nat (0 + Z.of_nat n)) with (length mid' + 0)%nat by lia.
  rewrite insert_app_r. cbn [le_bytes reverse].
  rewrite (IH _ mid' ([Z.land v 255] ++ post) (Z.shiftr v 8)) by
    (done || lia || by rewrite <- ?app_assoc).
  by rewrite reverse_cons, <- !app_assoc.
Qed.

Lemma store_word_ok e n pre mid post v p : 0 <= n -> Z.of_nat (length mid) = n ->
  p = Z.of_nat (length pre) ->
  store_word (pre ++ mid ++ post) p (write_order e n) v =
  Some (pre ++ in_order e (le_bytes (Z.to_nat n) v) ++ post).
Proof.
  intros Hn Hl Hp. rewrite <- (Z2Nat.id n) in Hl |- * by done. rewrite Nat2Z.id.
  destruct e; cbn [write_order in_order].
  - eapply (store_be _ pre _ mid); (done || lia).
  - eapply (store_le _ post _ pre mid); (done || lia).
Qed.

Lemma store_back_ok pre d : forall mid post i, length mid = length d ->
  i = Z.of_nat (length pre + length mid) - 1 ->
  store_back (pre ++ mid ++ post) i d = Some (pre ++ reverse d ++ post).
Proof.
  induction d as [|b d IH]; intros mid post i Hl ->; [by destruct mid|].
  destruct mid as [|y mid' _] using rev_ind; [done|]. cbn [store_back].
  rewrite length_app in Hl |- *. cbn [length] in Hl |- *.
  replace (Z.of_nat (length pre + (length mid' + 1)) - 1)
    with (Z.of_nat (length pre) + Z.of_nat (length mid')) by lia.
  rewrite set_at_app by (rewrite ?length_app; cbn [length]; lia). cbn [mbind option_bind].
  rewrite Nat2Z.id. replace (length mid') with (length mid' + 0)%nat at 1 by lia.
  rewrite insert_app_r. cbn [list_insert insert].
  rewrite <- app_assoc. rewrite (IH mid' ([b] ++ post)) by lia.
  by rewrite reverse_cons, <- app_assoc.
Qed.

(** Reading the bytes one by one, the most significant first. *)
Lemma load_word_fold w pre bs post : forall order out p l, p = Z.of_nat (length pre) ->
  Forall2 (fun k b => 0 <= k /\ bs !! Z.to_nat k = Some b) order l ->
  load_word w (pre ++ bs ++ post) p order out =
  Some (foldl (fun out b => Z.lor (wrap w (Z.shiftl out 8)) b) out l).
Proof.
  intros order out p l -> H. revert out. induction H as [|k b order l [Hk Hb] _ IH]; intros out.
  { done. }
  cbn [load_word foldl]. pose proof (lookup_lt_Some _ _ _ Hb).
  rewrite index_app by (done || lia). rewrite Hb. cbn [mbind option_bind]. apply IH.
Qed.

Lemma order_lookup e (bs : list Z) n : Z.of_nat (length bs) = n ->
  Forall2 (fun k b => 0 <= k /\ bs !! Z.to_nat k = Some b) (reverse (write_order e n))
    (reverse (in_order e bs)).
Proof.
  intros <-.
  assert (H : Forall2 (fun k b => 0 <= k /\ bs !! Z.to_nat k = Some b)
                (seqZ 0 (Z.of_nat (length bs))) bs).
  { apply Forall2_same_length_lookup_2; [rewrite length_seqZ; lia|].
    intros i k b Hk Hb. apply lookup_seqZ in Hk as [-> Hi]. split; [lia|].
    by rewrite Z.add_0_l, Nat2Z.id. }
  destruct e; cbn [write_order in_order]; [rewrite !reverse_involutive; done|].
  by apply Forall2_reverse.
Qed.

Lemma fold_le n : forall w v, 8 * Z.of_nat n <= w -> in_range (8 * Z.of_nat n) v ->
  foldl (fun out b => Z.lor (wrap w (Z.shiftl out 8)) b) 0 (reverse (le_bytes n v)) = v.
Proof.
  induction n as [|n IH]; intros w v Hw Hv; cbn [le_bytes].
  { unfold in_range in Hv. cbn. cbn in Hv. lia. }
  rewrite reverse_cons, foldl_app. cbn [foldl].
  assert (Hs : in_range (8 * Z.of_nat n) (Z.shiftr v 8)).
  { unfold in_range in *. rewrite shr_div by lia.
    replace (8 * Z.of_nat (S n)) with (8 * Z.of_nat n + 8) in Hv by lia.
    rewrite Z.pow_add_r in Hv by lia. split; [dlia|]. apply Z.div_lt_upper_bound; lia. }
  rewrite IH by (done || lia).
  unfold in_range in *. rewrite shr_div, shl_mul, (land_mask v 255 8) by (done || lia).
  change (2 ^ 8) with 256.
  assert (2 ^ (8 * Z.of_nat (S n)) <= 2 ^ w) by (apply Z.pow_le_mono_r; lia).
  rewrite (wrap_small w) by (unfold in_range; dlia).
  rewrite (lor_fields' _ _ 8) by (done || lia || dlia). dlia.
Qed.

(** ** Appending *)

(** [w] is what has been written, [free] the rest of the area. *)
Definition at_end (s : serializer) (w free : list Z) : Prop :=
  s_start s = w ++ free /\ s_pos s = Z.of_nat (length w) /\
  (s_type s = kRaw -> s_size s = Z.of_nat (length (w ++ free))) /\
  Z.of_nat (length (w ++ free)) < 2 ^ 64.

Definition room (s : serializer) (w free : list Z) (n : Z) : bool :=
  match s_type s with kRaw => n <=? Z.of_nat (length free) | kVector => true end.

Definition remaining (s : serializer) (free : list Z) (n : Z) : list Z :=
  match s_type s with kRaw => drop (Z.to_nat n) free | kVector => [] end.

Lemma extend_room s w free n : at_end s w free -> 0 <= n -> Z.of_nat (length w) + n < 2 ^ 64 ->
  exists s', extendSize s n = (s', room s w free n) /\
    s_pos s' = s_pos s /\ s_endian s' = s_endian s /\ s_type s' = s_type s /\
    s_size s' = s_size s /\
    (room s w free n = false -> s' = s) /\
    (room s w free n = true -> exists mid, s_start s' = w ++ mid ++ remaining s free n /\
                                         Z.of_nat (length mid) = n).
Proof.
  intros (Hs & Hp & Hz & Hl) Hn Hlt. unfold extendSize, room, remaining.
  rewrite (wrap_small 64) by (unfold in_range; lia).
  destruct (s_type s) eqn:E.
  - rewrite Hz, Hp, length_app by done.
    assert (Hb : (Z.of_nat (length w) + n <=? Z.of_nat (length w + length free))
                 = (n <=? Z.of_nat (length free))).
    { destruct (Z.leb_spec n (Z.of_nat (length free)));
        [apply Z.leb_le|apply Z.leb_gt]; lia. }
    rewrite Hb. exists s. rewrite <- length_app, <- Hz by done. repeat split; try done.
    intros Hr%Z.leb_le. exists (take (Z.to_nat n) free). rewrite Hs, take_drop, length_take.
    split; [done|lia].
  - eexists; split; [done|]. cbn. repeat split; try done. intros _.
    exists (take (Z.to_nat n) free ++ replicate (Z.to_nat n - length free) 0).
    unfold resize. rewrite Hs, Hp, app_nil_r.
    replace (Z.to_nat (Z.of_nat (length w) + n)) with (length w + Z.to_nat n)%nat by lia.
    rewrite firstn_app_2, <- app_assoc, length_app. split.
    + do 2 f_equal. f_equal. lia.
    + rewrite length_app, length_take, length_replicate. lia.
Qed.

(** What an append leaves. *)
Definition appended (s : serializer) (w free bs : list Z) (e : endian) : serializer :=
  mkSer (s_type s) (w ++ bs ++ remaining s free (Z.of_nat (length bs))) (s_size s) e
    (Z.of_nat (length w + length bs)).

(** Every append function has the same shape: extend, write, advance. *)
Lemma append_shape s w free bs
    (store : list Z -> Z -> endian -> option (list Z)) :
  at_end s w free -> Z.of_nat (length w + length bs) < 2 ^ 64 ->
  (forall mid post, length mid = length bs ->
     store (w ++ mid ++ post) (Z.of_nat (length w)) (s_endian s) = Some (w ++ bs ++ post)) ->
  (let '(s1, ok) := extendSize s (Z.of_nat (length bs)) in
   if (ok : bool) then
     a ← store (s_start s1) (s_pos s1) (s_endian s1);
     Some (ser_done s1 a (Z.of_nat (length bs)), true)
   else Some (s1, false)) =
  Some (if room s w free (Z.of_nat (length bs)) then (appended s w free bs (s_endian s), true)
        else (s, false)).
Proof.
  intros H Hlt Hstore. pose proof H as (_ & Hp & _ & _).
  destruct (extend_room s w free (Z.of_nat (length bs)) H) as (s1 & E & E1 & E2 & E3 & E4 & Hf & Ht);
    [lia|lia|]. rewrite E. destruct (room s w free _) eqn:Hr; [|by rewrite Hf].
  destruct (Ht eq_refl) as (mid & Es & Hm).
  rewrite Es, E1, E2, Hp, Hstore by lia. cbn [mbind option_bind]. do 2 f_equal.
  unfold ser_done, appended. rewrite E1, E2, E3, E4, Hp. f_equal.
  rewrite (wrap_small 64) by (unfold in_range; lia). lia.
Qed.

Lemma put_item_ok s w free it : at_end s w free -> item_ok it ->
  Z.of_nat (length w) + item_size it < 2 ^ 64 ->
  put_item s it =
  Some (match it with
        | IEndian e => (mkSer (s_type s) (s_start s) (s_size s) e (s_pos s), true)
        | _ => if room s w free (item_size it)
               then (appended s w free (item_bytes (s_endian s) it) (s_endian s), true)
               else (s, false)
        end).
Proof.
  intros H Hok Hlt.
  assert (Huint : forall wd v, in_range (bits_of wd) v -> Z.of_nat (length w) + bytes_of wd < 2 ^ 64 ->
    append_uint wd s v =
    Some (if room s w free (bytes_of wd)
          then (appended s w free (in_order (s_endian s) (le_bytes (Z.to_nat (bytes_of wd)) v)) (s_endian s), true)
          else (s, false))).
  { intros wd v Hv Hb. set (bs := in_order (s_endian s) (le_bytes (Z.to_nat (bytes_of wd)) v)).
    assert (El : length bs = Z.to_nat (bytes_of wd)) by (unfold bs; by rewrite in_order_length, le_bytes_length).
    assert (Ez : bytes_of wd = Z.of_nat (length bs)) by (rewrite El; destruct wd; done).
    rewrite Ez. rewrite Ez in Hb. destruct wd.
    1: { assert (bs = [v]) as Ebs.
         { unfold bs. change (Z.to_nat (bytes_of W8)) with 1%nat. cbn [le_bytes].
           rewrite (land_mask v 255 8) by (done || lia).
           rewrite (Z.mod_small v) by (unfold in_range in Hv; exact Hv).
           destruct (s_endian s); done. }
         rewrite Ebs. apply (append_shape s w free [v] (fun a p _ => set_at a p v)); [done| |].
         - cbn [length] in *. rewrite Ebs in Hb. cbn in Hb. lia.
         - intros [|x [|? ?]] post Hm; try done. rewrite <- (Z.add_0_r (Z.of_nat (length w))).
           by rewrite set_at_app by (cbn; lia). }
    all: unfold append_uint, append_word; rewrite Ez;
      apply (append_shape s w free bs (fun a p e => store_word a p (write_order e (Z.of_nat (length bs))) v));
      [done|lia|]; intros mid post Hm; rewrite store_word_ok by lia; by rewrite Nat2Z.id, El. }
  destruct it as [e|wd v|wd v|rep|b]; cbn [put_item item_ok item_size item_bytes] in *.
  - done.
  - by apply Huint.
  - apply Huint; [apply wrap_range; destruct wd; done|done].
  - unfold appendPOD. rewrite <- (in_order_length (s_endian s) rep) in Hlt |- *.
    apply (append_shape s w free (in_order (s_endian s) rep) (fun a p e =>
      match e with kLittle => blit a p rep
      | kBig => store_back a (p + Z.of_nat (length (in_order (s_endian s) rep)) - 1) rep end)); [done|lia|].
    intros mid post Hm. rewrite in_order_length in *. destruct (s_endian s); cbn [in_order].
    + apply store_back_ok; lia.
    + by apply blit_app.
  - apply (append_shape s w free b (fun a p _ => blit a p b)); [done|lia|].
    intros mid post Hm. by apply blit_app.
Qed.

(** ** Fetching *)

Lemma checkSize_room d pre bs rest :
  d_start d = pre ++ bs ++ rest -> d_size d = Z.of_nat (length (d_start d)) ->
  d_pos d = Z.of_nat (length pre) -> d_size d < 2 ^ 64 ->
  checkSize d (Z.of_nat (length bs)) = true.
Proof.
  intros Hs Hz Hp Hl. unfold checkSize. rewrite Hp. rewrite Hz, Hs, !length_app in *.
  rewrite (wrap_small 64) by (unfold in_range; lia). apply Z.leb_le. lia.
Qed.

Lemma item_bytes_length e it : Z.of_nat (length (item_bytes e it)) = item_size it.
Proof.
  destruct it as [|[]|[]| |]; cbn [item_bytes item_size]; rewrite ?in_order_length, ?le_bytes_length; done.
Qed.

Lemma fetch_word_ok (n : nat) d v pre rest :
  (0 < n)%nat -> d_start d = pre ++ in_order (d_endian d) (le_bytes n v) ++ rest ->
  d_pos d = Z.of_nat (length pre) -> in_range (8 * Z.of_nat n) v ->
  checkSize d (Z.of_nat n) = true ->
  fetch_word (Z.of_nat n) d = Some (des_done d (Z.of_nat n), Some v).
Proof.
  intros Hn Hs Hp Hv Hc. unfold fetch_word. rewrite Hc, Hs, Hp.
  set (bs := in_order (d_endian d) (le_bytes n v)).
  assert (El : length bs = n) by (unfold bs; by rewrite in_order_length, le_bytes_length).
  pose proof (order_lookup (d_endian d) bs (Z.of_nat n) ltac:(by rewrite El)) as F.
  unfold bs in F at 2. rewrite in_order_inv in F.
  pose proof (load_word_fold (8 * Z.of_nat n) pre bs rest _ 0 _ _ eq_refl F) as Hload.
  rewrite fold_le in Hload by (done || lia).
  destruct (reverse (write_order (d_endian d) (Z.of_nat n))) as [|k order].
  { apply Forall2_length in F. rewrite length_reverse, le_bytes_length in F. cbn in F. lia. }
  cbn [load_word] in Hload. destruct (index _ _) as [b|]; [|discriminate Hload].
  cbn [mbind option_bind] in *. change (Z.shiftl 0 8) with 0 in Hload.
  change (wrap (8 * Z.of_nat n) 0) with (0 mod 2 ^ (8 * Z.of_nat n)) in Hload.
  rewrite Z.mod_0_l, Z.lor_0_l in Hload by (apply Z.pow_nonzero; lia). by rewrite Hload.
Qed.

Lemma get_item_ok d it pre rest :
  d_start d = pre ++ item_bytes (d_endian d) it ++ rest ->
  d_size d = Z.of_nat (length (d_start d)) ->
  d_pos d = Z.of_nat (length pre) -> d_size d < 2 ^ 64 -> item_ok it ->
  get_item d it =
  Some (mkDes (d_start d) (d_size d) (next_endian (d_endian d) it)
          (Z.of_nat (length pre) + item_size it), Some it).
Proof.
  intros Hs Hz Hp Hl Hok.
  pose proof (checkSize_room d pre _ rest Hs Hz Hp Hl) as Hc.
  rewrite item_bytes_length in Hc.
  assert (Hdone : forall n, n = item_size it ->
    des_done d n = mkDes (d_start d) (d_size d) (d_endian d) (Z.of_nat (length pre) + item_size it)).
  { intros n ->. unfold des_done. rewrite Hp. f_equal. apply (wrap_small 64).
    rewrite Hz, Hs, !length_app in Hl. pose proof (item_bytes_length (d_endian d) it).
    unfold in_range. lia. }
  assert (Huint : forall wd v, in_range (bits_of wd) v -> item_size it = bytes_of wd ->
    item_bytes (d_endian d) it = in_order (d_endian d) (le_bytes (Z.to_nat (bytes_of wd)) v) ->
    fetch_uint wd d = Some (des_done d (item_size it), Some v)).
  { intros wd v Hv Hsz Hb. rewrite Hsz in *. rewrite Hb in Hs.
    set (bs := in_order _ _) in Hs.
    assert (El : length bs = Z.to_nat (bytes_of wd)) by (unfold bs; by rewrite in_order_length, le_bytes_length).
    assert (Hrev : reverse (in_order (d_endian d) bs) = reverse (le_bytes (Z.to_nat (bytes_of wd)) v))
      by (unfold bs; by rewrite in_order_inv).
    destruct wd.
    1: { cbn [fetch_uint]. unfold fetch8. change (bytes_of W8) with 1 in Hc. rewrite Hc, Hs, Hp.
      rewrite <- (Z.add_0_r (Z.of_nat (length pre))).
      rewrite index_app by (rewrite ?El; done || lia).
      change (Z.to_nat (bytes_of W8)) with 1%nat in *.
      assert (bs = [v]) as ->; [|done].
      unfold bs. cbn [le_bytes]. rewrite (land_mask v 255 8) by (done || lia).
      rewrite (Z.mod_small v) by (exact Hv). by destruct (d_endian d). }
    all: match goal with |- fetch_uint ?W _ = _ =>
      exact (fetch_word_ok (Z.to_nat (bytes_of W)) d v pre rest ltac:(cbn; lia) Hs Hp Hv Hc) end. }
  destruct it as [e|wd v|wd v|rep|b];
    cbn [get_item item_ok item_size item_bytes next_endian] in *.
  - unfold des_setEndian. cbn. by rewrite Hp, Z.add_0_r.
  - rewrite (Huint wd v) by done. cbn [mbind option_bind option_map]. by rewrite Hdone.
  - rewrite (Huint wd (wrap (bits_of wd) v)) by (done || (apply wrap_range; destruct wd; done)).
    cbn [mbind option_bind option_map]. rewrite Hdone by done.
    rewrite to_signed_wrap by (done || by destruct wd). done.
  - unfold fetchPOD. rewrite length_map, Hc, Hs, Hp.
    rewrite slice_app by (by rewrite ?in_order_length). cbn [mbind option_bind].
    destruct (d_endian d) eqn:Ee; cbn [in_order] in *.
    + pose proof (store_back_ok [] (reverse rep) (map (fun _ => 0) rep) []) as Hb.
      cbn [app length] in Hb. rewrite app_nil_r in Hb. rewrite Hb by (rewrite length_map, ?length_reverse; lia).
      cbn [mbind option_bind option_map]. rewrite app_nil_r, reverse_involutive. by rewrite Hdone, Hs.
    + cbn [mbind option_bind option_map]. by rewrite Hdone, Hs.
  - unfold fetch_block. rewrite Hc, Hs, Hp, slice_app by done.
    cbn [mbind option_bind option_map]. by rewrite Hdone, Hs.
Qed.

Lemma get_items_ok its : forall d pre rest,
  d_start d = pre ++ items_bytes (d_endian d) its ++ rest ->
  d_size d = Z.of_nat (length (d_start d)) ->
  d_pos d = Z.of_nat (length pre) -> d_size d < 2 ^ 64 -> Forall item_ok its ->
  exists d', get_items d its = Some (d', map Some its) /\
    d_pos d' = Z.of_nat (length (pre ++ items_bytes (d_endian d) its)).
Proof.
  induction its as [|it its IH]; intros d pre rest Hs Hz Hp Hl Hok; cbn [get_items items_bytes map].
  { exists d. by rewrite app_nil_r. }
  inversion_clear Hok as [|? ? Hi His]. cbn [items_bytes] in Hs. rewrite <- app_assoc in Hs.
  rewrite (get_item_ok d it pre _ Hs Hz Hp Hl Hi). cbn [mbind option_bind].
  set (d1 := mkDes _ _ _ _).
  destruct (IH d1 (pre ++ item_bytes (d_endian d) it) rest) as (d' & E & Hp'); try done.
  - cbn. by rewrite <- app_assoc.
  - cbn. rewrite length_app, <- (item_bytes_length (d_endian d)). lia.
  - rewrite E. cbn [mbind option_bind]. exists d'. split; [done|].
    rewrite Hp'. cbn. by rewrite <- app_assoc.
Qed.

Definition its_size (its : list item) : Z := foldr (fun it n => item_size it + n) 0 its.

Lemma item_size_nonneg it : 0 <= item_size it.
Proof. rewrite <- (item_bytes_length kBig). lia. Qed.

Lemma its_size_nonneg its : 0 <= its_size its.
Proof. induction its as [|it its IH]; cbn; [lia|]. pose proof (item_size_nonneg it). unfold its_size in IH. lia. Qed.

Lemma items_bytes_length its : forall e, Z.of_nat (length (items_bytes e its)) = its_size its.
Proof.
  induction its as [|it its IH]; intros e; cbn; [done|].
  rewrite length_app. pose proof (item_bytes_length e it).
  specialize (IH (next_endian e it)). unfold its_size in IH. lia.
Qed.

(** Zero-length appends to a vector still cut it at the write position. *)
Definition left_over (s : serializer) (free : list Z) (its : list item) : list Z :=
  match s_type s with
  | kRaw => drop (Z.to_nat (its_size its)) free
  | kVector =>
      if forallb (fun it => match it with IEndian _ => true | _ => false end) its then free else []
  end.

Lemma put_items_ok its : forall s w free, at_end s w free -> Forall item_ok its ->
  room s w free (its_size its) = true ->
  Z.of_nat (length w) + its_size its < 2 ^ 64 ->
  exists s', put_items s its = Some (s', true) /\
    s_start s' = w ++ items_bytes (s_endian s) its ++ left_over s free its /\
    s_pos s' = Z.of_nat (length w) + its_size its.
Proof.
  induction its as [|it its IH]; intros s w free H Hok Hr Hlt; cbn [put_items items_bytes].
  { exists s. destruct H as (Hs & Hp & _). unfold left_over. cbn.
    rewrite Hs, Hp, Z.add_0_r, drop_0. by destruct (s_type s). }
  inversion_clear Hok as [|? ? Hi His].
  pose proof (item_size_nonneg it). pose proof (its_size_nonneg its).
  change (its_size (it :: its)) with (item_size it + its_size its) in *.
  rewrite (put_item_ok s w free it) by (done || lia).
  pose proof H as (Hs & Hp & Hz & Hl).
  assert ((exists e, it = IEndian e) \/ forall e, it <> IEndian e) as [[e ->]|Hne]
    by (destruct it; eauto; right; intros; discriminate).
  1: { cbn [mbind option_bind next_endian item_bytes item_size app] in *.
    destruct (IH (mkSer (s_type s) (s_start s) (s_size s) e (s_pos s)) w free) as (s' & E & E1 & E2);
      [done|done|done|lia|].
    rewrite E. cbn [mbind option_bind]. exists s'. split; [done|]. rewrite E1, E2. done. }
  assert (Hr1 : room s w free (item_size it) = true).
  { unfold room in *. destruct (s_type s); [|done]. apply Z.leb_le in Hr. apply Z.leb_le. lia. }
  rewrite Hr1.
  set (s1 := appended s w free (item_bytes (s_endian s) it) (s_endian s)).
  pose proof (item_bytes_length (s_endian s) it) as Hb.
  set (bs := item_bytes (s_endian s) it) in *.
  set (free1 := remaining s free (Z.of_nat (length bs))).
  destruct (IH s1 (w ++ bs) free1) as (s' & E & E1 & E2); [|done| |rewrite length_app; lia|].
  - unfold at_end, s1, appended, free1, remaining; cbn. rewrite <- app_assoc, length_app.
    split; [done|]. split; [done|].
    unfold room in Hr1. rewrite !length_app in *. destruct (s_type s); cbn [length].
    + apply Z.leb_le in Hr1. rewrite Hz, length_drop by done. split; [intros _|]; lia.
    + split; [done|]. lia.
  - unfold room, s1, appended, free1, remaining in *; cbn. destruct (s_type s); [|done].
    apply Z.leb_le in Hr. apply Z.leb_le. rewrite length_drop. lia.
  - assert (Hne' : next_endian (s_endian s) it = s_endian s) by (destruct it; naive_solver).
    assert (Em : (match it with IEndian e => (mkSer (s_type s) (s_start s) (s_size s) e (s_pos s), true)
                  | _ => (s1, true) end) = (s1, true)) by (destruct it; naive_solver).
    rewrite Em. cbn [mbind option_bind]. rewrite E. cbn [mbind option_bind andb].
    exists s'. split; [done|]. rewrite E1, E2, Hne'. rewrite <- !app_assoc.
    change (s_endian s1) with (s_endian s). split; [|rewrite length_app; lia].
    do 3 f_equal. unfold left_over, s1, appended, free1, remaining; cbn.
    destruct (s_type s); [rewrite drop_drop; f_equal; change (foldr _ 0 its) with (its_size its); lia|].
    replace (match it with IEndian _ => true | _ => false end) with false by (destruct it; naive_solver).
    cbn. by destruct (forallb _ its).
Qed.

(** ** Properties *)

Lemma new_at_end t area e : Z.of_nat (length area) < 2 ^ 64 ->
  at_end (match t with kRaw => raw_serializer area e | kVector => vector_serializer area e end) [] area.
Proof. by destruct t. Qed.

(** C31: what a serializer writes, a deserializer reads back.  For any list of
    integers of any width and sign, plain objects, blocks and changes of byte
    order, written to a vector or to an area that is large enough, every append
    succeeds, the position is the sum of the sizes, and the same [>>] sequence
    over the bytes written gives the same values, whatever follows them. *)
Theorem serializer_roundtrip t area e its :
  Forall item_ok its -> its_size its < 2 ^ 64 -> Z.of_nat (length area) < 2 ^ 64 ->
  (t = kRaw -> its_size its <= Z.of_nat (length area)) ->
  let s0 := match t with kRaw => raw_serializer area e | kVector => vector_serializer area e end in
  exists s d, put_items s0 its = Some (s, true) /\ s_pos s = its_size its /\
    (t = kRaw -> drop (Z.to_nat (its_size its)) (s_start s) = drop (Z.to_nat (its_size its)) area) /\
    get_items (new_deserializer (take (Z.to_nat (s_pos s)) (s_start s)) e) its
      = Some (d, map Some its) /\ d_pos d = s_pos s.
Proof.
  intros Hok Hsz Ha Hraw s0. pose proof (its_size_nonneg its).
  destruct (put_items_ok its s0 [] area) as (s & E & E1 & E2);
    [by apply new_at_end|done| |done|].
  { unfold room, s0. destruct t; cbn; [apply Z.leb_le; by apply Hraw|done]. }
  cbn [app length] in E1, E2. rewrite Z.add_0_l in E2.
  assert (He : s_endian s0 = e) by (by destruct t). rewrite He in E1.
  pose proof (items_bytes_length its e) as Hl.
  assert (Ht : take (Z.to_nat (s_pos s)) (s_start s) = items_bytes e its).
  { rewrite E1, E2. apply take_app_length'. lia. }
  destruct (get_items_ok its (new_deserializer (items_bytes e its) e) [] []) as (d & Ed & Ep);
    try (cbn; done || lia).
  { cbn. by rewrite app_nil_r. }
  exists s, d. rewrite Ht, Ed, Ep. split_and!; try done.
  - intros ->. rewrite E1. rewrite drop_app_length' by lia. done.
  - cbn. lia.
Qed.

(** an append to a fixed area is all or nothing and never leaves the area:
    it succeeds exactly when the bytes fit, and then changes only the bytes it
    writes; otherwise neither the area nor the position changes. *)
Theorem raw_append_atomic s w free it :
  at_end s w free -> s_type s = kRaw -> item_ok it ->
  Z.of_nat (length w) + item_size it < 2 ^ 64 ->
  exists s' ok, put_item s it = Some (s', ok) /\
    ok = (item_size it <=? Z.of_nat (length free)) /\
    length (s_start s') = length (s_start s) /\
    (ok = false -> s' = s) /\
    (ok = true -> s_pos s' = s_pos s + item_size it /\
       s_start s' = w ++ item_bytes (s_endian s) it ++ drop (Z.to_nat (item_size it)) free).
Proof.
  intros H Ht Hok Hlt. rewrite (put_item_ok s w free it H Hok Hlt).
  pose proof (item_size_nonneg it). pose proof H as (Hs & Hp & _ & _).
  assert (room s w free (item_size it) = (item_size it <=? Z.of_nat (length free))) as ->
    by (unfold room; by rewrite Ht).
  pose proof (item_bytes_length (s_endian s) it) as Hb.
  assert (Hgen : forall p : serializer * bool,
    p = (if item_size it <=? Z.of_nat (length free)
         then (appended s w free (item_bytes (s_endian s) it) (s_endian s), true) else (s, false)) ->
    exists s' ok, Some p = Some (s', ok) /\
    ok = (item_size it <=? Z.of_nat (length free)) /\
    length (s_start s') = length (s_start s) /\
    (ok = false -> s' = s) /\
    (ok = true -> s_pos s' = s_pos s + item_size it /\
       s_start s' = w ++ item_bytes (s_endian s) it ++ drop (Z.to_nat (item_size it)) free)).
  { intros p ->. destruct (Z.leb_spec (item_size it) (Z.of_nat (length free))).
    - do 2 eexists. split; [done|]. unfold appended, remaining; cbn. rewrite Ht, Hb, Hs.
      split_and!; try done; [rewrite !length_app, length_drop; lia|].
      intros _. split; [lia|done].
    - by do 2 eexists. }
  destruct it as [e| | | |]; try (by apply Hgen).
  exists (mkSer (s_type s) (s_start s) (s_size s) e (s_pos s)), true. cbn.
  rewrite (proj2 (Z.leb_le _ _)) by lia. split_and!; try done. rewrite drop_0, Hs. split; [lia|done].
Qed.

(** [checkSize] compares [pos_ + need_size] as a [size_t] sum.  It is exact
    for sizes below [2^64 - pos_]; from there on the sum wraps and every size is
    accepted, and a [skip] of such a size moves the position backwards. *)
Theorem checkSize_wraps d need :
  0 <= d_pos d <= d_size d -> d_size d < 2 ^ 64 -> 0 <= need < 2 ^ 64 ->
  (checkSize d need = true <-> need <= d_size d - d_pos d \/ 2 ^ 64 - d_pos d <= need) /\
  (2 ^ 64 - d_pos d <= need -> des_skip d need = (des_done d need, true) /\
     d_pos (des_done d need) = d_pos d - (2 ^ 64 - need)).
Proof.
  intros Hp Hs Hn.
  assert (Hw : u64 (d_pos d + need) =
    if d_pos d + need <? 2 ^ 64 then d_pos d + need else d_pos d + need - 2 ^ 64).
  { destruct (Z.ltb_spec (d_pos d + need) (2 ^ 64)); [apply wrap_small; unfold in_range; lia|].
    unfold wrap. symmetry. apply (Z.mod_unique _ _ 1); lia. }
  unfold des_skip, checkSize, des_done. cbn [d_pos]. rewrite Hw.
  destruct (Z.ltb_spec (d_pos d + need) (2 ^ 64)).
  - rewrite Z.leb_le. split; [lia|]. lia.
  - rewrite Z.leb_le. split; [lia|]. intros _. rewrite (proj2 (Z.leb_le _ _)) by lia.
    split; [done|lia].
Qed.

(** ** Witnesses *)

Lemma serializer_roundtrip_witness :
  let its := [IUnsigned W16 0x1234; IEndian kLittle; ISigned W32 (-5); IPod [1; 2; 3; 4]; IBlock [9; 8]] in
  exists s d, put_items (vector_serializer [7; 7] kBig) its = Some (s, true) /\ s_pos s = its_size its /\
    (kVector = kRaw -> drop (Z.to_nat (its_size its)) (s_start s) = drop (Z.to_nat (its_size its)) [7; 7]) /\
    get_items (new_deserializer (take (Z.to_nat (s_pos s)) (s_start s)) kBig) its
      = Some (d, map Some its) /\ d_pos d = s_pos s.
Proof.
  intros its. apply (serializer_roundtrip kVector [7; 7] kBig its); [|done|done|done].
  repeat constructor; vm_compute; congruence.
Defined.

Lemma raw_append_atomic_witness :
  exists s' ok, put_item (raw_serializer [0; 0] kBig) (IUnsigned W32 5) = Some (s', ok) /\
    ok = (4 <=? 2) /\ length (s_start s') = 2%nat /\
    (ok = false -> s' = raw_serializer [0; 0] kBig) /\
    (ok = true -> s_pos s' = 0 + 4 /\
       s_start s' = [] ++ item_bytes kBig (IUnsigned W32 5) ++ drop (Z.to_nat 4) [0; 0]).
Proof.
  apply (raw_append_atomic (raw_serializer [0; 0] kBig) [] [0; 0] (IUnsigned W32 5)).
  - repeat split.
  - reflexivity.
  - split; [discriminate|reflexivity].
  - reflexivity.
Defined.

Lemma checkSize_wraps_witness :
  let d := mkDes [1; 2; 3] 3 kBig 2 in
  (checkSize d (2 ^ 64 - 1) = true <-> 2 ^ 64 - 1 <= 3 - 2 \/ 2 ^ 64 - 2 <= 2 ^ 64 - 1) /\
  (2 ^ 64 - 2 <= 2 ^ 64 - 1 -> des_skip d (2 ^ 64 - 1) = (des_done d (2 ^ 64 - 1), true) /\
     d_pos (des_done d (2 ^ 64 - 1)) = 2 - (2 ^ 64 - (2 ^ 64 - 1))).
Proof. apply (checkSize_wraps (mkDes [1; 2; 3] 3 kBig 2) (2 ^ 64 - 1)); cbn; lia. Defined.
