(* ===== verification/ScalableInteger.v ===== *)
(** * ScalableInteger: integers of variable length

    [modules/util/scalable_integer.cpp]: groups of seven bits, the most
    significant first, each byte but the last with its high bit set, offset so
    that every value has exactly one encoding. *)
From S2P Require Import Prelude.

(** ** The code *)

Definition k1ByteMin : Z := 0x0000000000000000.
Definition k1ByteMax : Z := 0x000000000000007F.
Definition k2ByteMin : Z := u64 (k1ByteMax + 1).
Definition k2ByteMax : Z := u64 (k2ByteMin + 0x0000000000003FFF).
Definition k3ByteMin : Z := u64 (k2ByteMax + 1).
Definition k3ByteMax : Z := u64 (k3ByteMin + 0x00000000001FFFFF).
Definition k4ByteMin : Z := u64 (k3ByteMax + 1).
Definition k4ByteMax : Z := u64 (k4ByteMin + 0x000000000FFFFFFF).
Definition k5ByteMin : Z := u64 (k4ByteMax + 1).
Definition k5ByteMax : Z := u64 (k5ByteMin + 0x00000007FFFFFFFF).
Definition k6ByteMin : Z := u64 (k5ByteMax + 1).
Definition k6ByteMax : Z := u64 (k6ByteMin + 0x000003FFFFFFFFFF).
Definition k7ByteMin : Z := u64 (k6ByteMax + 1).
Definition k7ByteMax : Z := u64 (k7ByteMin + 0x0001FFFFFFFFFFFF).
Definition k8ByteMin : Z := u64 (k7ByteMax + 1).
Definition k8ByteMax : Z := u64 (k8ByteMin + 0x00FFFFFFFFFFFFFF).
Definition k9ByteMin : Z := u64 (k8ByteMax + 1).
Definition k9ByteMax : Z := u64 (k9ByteMin + 0x7FFFFFFFFFFFFFFF).
Definition k10ByteMin : Z := u64 (k9ByteMax + 1).

Definition min_value_tbl : list Z :=
  [0; k1ByteMin; k2ByteMin; k3ByteMin; k4ByteMin; k5ByteMin; k6ByteMin; k7ByteMin;
   k8ByteMin; k9ByteMin; k10ByteMin].

Definition max_value_tbl : list Z :=
  [0; k1ByteMax; k2ByteMax; k3ByteMax; k4ByteMax; k5ByteMax; k6ByteMax; k7ByteMax;
   k8ByteMax; k9ByteMax].

(** [while (need_bytes < 10) { if (...) break; ++need_bytes; }]; at most nine
    turns are left when [need_bytes] is 1. *)
Fixpoint need_loop (fuel : nat) (in_value need_bytes : Z) : option Z :=
  if need_bytes <? 10 then
    match fuel with
    | O => None
    | S f =>
        m ← index max_value_tbl need_bytes;
        if in_value <=? m then Some need_bytes else need_loop f in_value (need_bytes + 1)
    end
  else Some need_bytes.

(** [for (int pos = need_bytes - 2; pos >= 0; --pos)]: [k] is [pos + 1]. *)
Fixpoint store_loop (k : nat) (buff : list Z) (store_value : Z) : option (list Z) :=
  match k with
  | O => Some buff
  | S k' =>
      buff ← set_at buff (Z.of_nat k') (Z.lor 0x80 (Z.land store_value 0x7f));
      store_loop k' buff (Z.shiftr store_value 7)
  end.

Definition DumpScalableInteger (in_value : Z) (buff : list Z) : option (Z * list Z) :=
  need_bytes ← need_loop 9 in_value 1;
  if Z.of_nat (length buff) <? need_bytes then Some (0, buff)
  else
    store_value ← (if 1 <? need_bytes
                   then m ← index min_value_tbl need_bytes; Some (u64 (in_value - m))
                   else Some in_value);
    buff ← set_at buff (need_bytes - 1) (Z.land 0x7f store_value);
    buff ← (if 2 <=? need_bytes
            then store_loop (Z.to_nat (need_bytes - 1)) buff (Z.shiftr store_value 7)
            else Some buff);
    Some (need_bytes, buff).

(** The loop over the bytes; [None] when it ends without a last byte. *)
Fixpoint read_loop (buff : list Z) (i read_bytes read_value : Z) : option (Z * Z) :=
  match buff with
  | [] => None
  | value :: buff' =>
      if i <=? 10 then
        let read_value := Z.lor (u64 (Z.shiftl read_value 7)) (Z.land value 0x7f) in
        if Z.land value 0x80 =? 0 then Some (read_bytes, read_value)
        else read_loop buff' (i + 1) (read_bytes + 1) read_value
      else None
  end.

(** The size and the value read; [Some (0, None)] is a failure that leaves
    [out_value] alone, [None] a read outside [_min_value_tbl]. *)
Definition ParseScalableInteger (buff : list Z) : option (Z * option Z) :=
  match read_loop buff 0 1 0 with
  | None => Some (0, None)
  | Some (read_bytes, read_value) =>
      m ← index min_value_tbl read_bytes;
      Some (read_bytes, Some (u64 (m + read_value)))
  end.

Example dump_300 : DumpScalableInteger 300 (replicate 4 0) = Some (2, [0x81; 0x2c; 0; 0]).
Proof. reflexivity. Qed.
Example parse_300 : ParseScalableInteger [0x81; 0x2c; 0; 0] = Some (2, Some 300).
Proof. reflexivity. Qed.

(** ** Groups of seven bits *)

(** [k] bytes with the high bit set, the last of them holding [v mod 128]. *)
Fixpoint high (k : nat) (v : Z) : list Z :=
  match k with O => [] | S k' => high k' (v / 128) ++ [128 + v mod 128] end.

Definition groups (n : nat) (v : Z) : list Z := high (n - 1) (v / 128) ++ [v mod 128].

Lemma high_length k : forall v, length (high k v) = k.
Proof. induction k; intros; cbn [high]; [done|]. rewrite length_app, IHk. cbn. lia. Qed.

Lemma lor_80 d : 0 <= d < 128 -> Z.lor 0x80 d = 128 + d.
Proof. intros. change 0x80 with (1 * 128). by rewrite (lor_fields' 1 d 7) by (done || lia). Qed.

Lemma store_loop_ok k : forall mid post v, length mid = k ->
  store_loop k (mid ++ post) v = Some (high k v ++ post).
Proof.
  induction k as [|k IH]; intros mid post v Hm; cbn [store_loop high].
  { by destruct mid. }
  destruct mid as [|y mid _] using rev_ind; [done|]. rewrite length_app in Hm. cbn [length] in Hm.
  rewrite <- app_assoc. pose proof (set_at_app mid ([y]) post (Z.of_nat (length mid)) 0
    (Z.lor 128 (Z.land v 127)) eq_refl ltac:(cbn; lia)) as E.
  replace (Z.of_nat k) with (Z.of_nat (length mid) + 0) by lia. rewrite E.
  cbn [mbind option_bind Z.to_nat]. change (<[0%nat := _]> [y]) with [Z.lor 128 (Z.land v 127)].
  rewrite IH by lia. rewrite (land_mask v 127 7), shr_div by (done || lia).
  change (2 ^ 7) with 128. rewrite lor_80 by dlia. by rewrite <- app_assoc.
Qed.

Lemma or_group acc d : 0 <= d < 128 ->
  Z.lor (u64 (Z.shiftl acc 7)) d = u64 (acc * 128 + d).
Proof.
  intros Hd. rewrite shl_mul by lia. change (2 ^ 7) with 128. unfold wrap.
  assert (E : (acc * 128) mod 2 ^ 64 = acc mod 2 ^ 57 * 128) by
    (change (2 ^ 64) with (2 ^ 57 * 128); by rewrite Z.mul_mod_distr_r by lia).
  rewrite E, (lor_fields' _ _ 7) by (done || lia).
  apply (Z.mod_unique _ _ (acc / 2 ^ 57)); dlia.
Qed.

Lemma cont_byte d : 0 <= d < 128 -> (Z.land (128 + d) 0x80 =? 0) = false /\ Z.land (128 + d) 0x7f = d.
Proof.
  intros. rewrite <- lor_80 by done. split.
  - apply Z.eqb_neq. intros E. apply (f_equal (fun x => Z.testbit x 7)) in E.
    rewrite Z.land_spec, Z.lor_spec in E. discriminate E.
  - rewrite lor_80 by done. rewrite (land_mask _ 127 7) by (done || lia). dlia.
Qed.

Lemma last_byte d : 0 <= d < 128 -> (Z.land d 0x80 =? 0) = true /\ Z.land d 0x7f = d.
Proof.
  intros. split; [|rewrite (land_mask _ 127 7) by (done || lia); dlia].
  apply Z.eqb_eq. rewrite <- (Z.mod_small d (2 ^ 7)) by lia.
  rewrite <- Z.land_ones by lia. rewrite <- Z.land_assoc. apply Z.land_0_r.
Qed.

Lemma pow128_S k : 128 ^ Z.of_nat (S k) = 128 * 128 ^ Z.of_nat k.
Proof. by rewrite Nat2Z.inj_succ, Z.pow_succ_r by lia. Qed.

Lemma read_high k : forall rest v i rb acc, 0 <= i -> i + Z.of_nat k <= 11 ->
  0 <= v < 128 ^ Z.of_nat k ->
  read_loop (high k v ++ rest) i rb (u64 acc) =
  read_loop rest (i + Z.of_nat k) (rb + Z.of_nat k) (u64 (acc * 128 ^ Z.of_nat k + v)).
Proof.
  induction k as [|k IH]; intros rest v i rb acc Hi Hk Hv; cbn [high].
  { cbn in Hv |- *. f_equal; [lia|lia|]. f_equal. lia. }
  rewrite pow128_S in *. rewrite <- app_assoc, IH by (try lia; dlia).
  cbn [app read_loop]. rewrite (proj2 (Z.leb_le _ _)) by lia.
  destruct (cont_byte (v mod 128)) as [-> ->]; [dlia|]. rewrite or_group by dlia.
  f_equal; [lia|lia|]. unfold wrap. rewrite <- Z.add_mod_idemp_l, Z.mul_mod_idemp_l, Z.add_mod_idemp_l by lia.
  f_equal. pose proof (Z.div_mod v 128). lia.
Qed.

Lemma read_groups n v rest : (1 <= n <= 11)%nat -> 0 <= v < 128 ^ Z.of_nat n ->
  read_loop (groups n v ++ rest) 0 1 0 = Some (Z.of_nat n, u64 v).
Proof.
  intros Hn Hv. destruct n as [|k]; [lia|]. rewrite pow128_S in Hv. unfold groups.
  replace (S k - 1)%nat with k by lia. rewrite <- app_assoc.
  pose proof (read_high k ([v mod 128] ++ rest) (v / 128) 0 1 0) as E.
  change (u64 0) with 0 in E. rewrite E by (try lia; dlia). clear E. cbn [app read_loop].
  rewrite (proj2 (Z.leb_le _ _)) by lia.
  destruct (last_byte (v mod 128)) as [-> ->]; [dlia|]. rewrite or_group by dlia.
  f_equal. f_equal; [lia|]. unfold wrap.
  rewrite <- Z.add_mod_idemp_l, Z.mul_mod_idemp_l, Z.add_mod_idemp_l by lia.
  f_equal. pose proof (Z.div_mod v 128). lia.
Qed.

(** ** The size of an encoding *)

(** The smallest value that needs [n] bytes: 128 + 128^2 + ... + 128^(n-1). *)
Fixpoint min_value (n : nat) : Z :=
  match n with
  | O | S O => 0
  | S n' => min_value n' + 128 ^ Z.of_nat n'
  end.

Definition sized (n : nat) (v : Z) : Prop :=
  (1 <= n <= 10)%nat /\ min_value n <= v < min_value n + 128 ^ Z.of_nat n.

Lemma index_min n : (1 <= n <= 10)%nat -> index min_value_tbl (Z.of_nat n) = Some (min_value n).
Proof. intros Hn. do 11 (destruct n as [|n]; [first [lia|reflexivity]|]). lia. Qed.

Lemma index_max n : (1 <= n <= 9)%nat ->
  index max_value_tbl (Z.of_nat n) = Some (min_value n + 128 ^ Z.of_nat n - 1).
Proof. intros Hn. do 10 (destruct n as [|n]; [first [lia|reflexivity]|]). lia. Qed.

Lemma min_value_S n : (1 <= n)%nat -> min_value (S n) = min_value n + 128 ^ Z.of_nat n.
Proof. by destruct n; [lia|]. Qed.

Lemma need_loop_ok v : in_range 64 v -> forall fuel n, (n + fuel = 10)%nat -> (1 <= n)%nat ->
  min_value n <= v -> exists m, need_loop fuel v (Z.of_nat n) = Some (Z.of_nat m) /\ sized m v.
Proof.
  intros Hv. induction fuel as [|fuel IH]; intros n Hn H1 Hm; cbn [need_loop].
  - assert (n = 10)%nat as -> by lia. exists 10%nat. split; [done|]. split; [lia|].
    split; [done|]. unfold in_range in Hv. change (128 ^ Z.of_nat 10) with (2 ^ 70). 
    assert (0 <= min_value 10) by (by vm_compute). lia.
  - rewrite (proj2 (Z.ltb_lt _ _)) by lia. rewrite index_max by lia. cbn [mbind option_bind].
    destruct (Z.leb_spec v (min_value n + 128 ^ Z.of_nat n - 1)).
    + exists n. split; [done|]. split; [lia|]. lia.
    + replace (Z.of_nat n + 1) with (Z.of_nat (S n)) by lia.
      apply IH; [lia|lia|]. rewrite min_value_S by lia. lia.
Qed.

Lemma min_value_mono m n : (m <= n)%nat -> min_value m <= min_value n.
Proof.
  induction 1 as [|n _ IH]; [done|]. destruct n as [|n]; [cbn in *; lia|].
  rewrite min_value_S by lia. pose proof (Z.pow_nonneg 128 (Z.of_nat (S n))). lia.
Qed.

Lemma sized_unique m n v : sized m v -> sized n v -> m = n.
Proof.
  intros [Hm1 Hm] [Hn1 Hn]. destruct (Nat.lt_trichotomy m n) as [Hl|[->|Hl]]; [|done|]; exfalso.
  - pose proof (min_value_mono (S m) n Hl). rewrite min_value_S in * by lia. lia.
  - pose proof (min_value_mono (S n) m Hl). rewrite min_value_S in * by lia. lia.
Qed.

Lemma need_ok n v : in_range 64 v -> sized n v -> need_loop 9 v 1 = Some (Z.of_nat n).
Proof.
  intros Hv Hn. destruct (need_loop_ok v Hv 9 1) as (m & E & Hm); [done|lia|cbn; apply Hv|].
  change (Z.of_nat 1) with 1 in E. by rewrite E, (sized_unique m n v).
Qed.

Lemma dump_ok n v buff : in_range 64 v -> sized n v ->
  DumpScalableInteger v buff =
  Some (if Z.of_nat (length buff) <? Z.of_nat n then (0, buff)
        else (Z.of_nat n, groups n (v - min_value n) ++ drop n buff)).
Proof.
  intros Hv Hs. unfold DumpScalableInteger. rewrite (need_ok n v Hv Hs). cbn [mbind option_bind].
  destruct (Z.ltb_spec (Z.of_nat (length buff)) (Z.of_nat n)) as [|Hl]; [done|].
  destruct Hs as [Hn Hr]. set (x := v - min_value n).
  assert ((if 1 <? Z.of_nat n then m ← index min_value_tbl (Z.of_nat n); Some (u64 (v - m)) else Some v)
          = Some x) as ->.
  { destruct (Z.ltb_spec 1 (Z.of_nat n)).
    - rewrite index_min by lia. cbn [mbind option_bind]. f_equal. apply (wrap_small 64).
      pose proof (min_value_mono 1 n ltac:(lia)). cbn in *. unfold in_range in *. lia.
    - assert (n = 1)%nat as -> by lia. unfold x. cbn. f_equal. lia. }
  cbn [mbind option_bind]. rewrite <- (take_drop n buff) at 1.
  set (post := drop n buff). assert (Ht : length (take n buff) = n) by (rewrite length_take; lia).
  destruct (take n buff) as [|y mid _] using rev_ind; [cbn in Ht; lia|].
  rewrite length_app in Ht. cbn [length] in Ht. rewrite <- app_assoc.
  replace (Z.of_nat n - 1) with (Z.of_nat (length mid) + 0) by lia.
  rewrite set_at_app by (done || (cbn; lia)). cbn [mbind option_bind Z.to_nat].
  change (<[0%nat := _]> [y]) with [Z.land 127 x].
  rewrite Z.land_comm, (land_mask x 127 7), shr_div by (done || lia).
  change (2 ^ 7) with 128. unfold groups.
  destruct (Z.leb_spec 2 (Z.of_nat n)).
  - replace (Z.to_nat (Z.of_nat (length mid) + 0)) with (length mid) by lia.
    rewrite store_loop_ok by done. cbn [mbind option_bind].
    replace (n - 1)%nat with (length mid) by lia. by rewrite <- app_assoc.
  - destruct mid; [|cbn in *; lia]. cbn [mbind option_bind]. replace (n - 1)%nat with 0%nat by (cbn in *; lia).
    done.
Qed.

Lemma groups_length n v : (1 <= n)%nat -> length (groups n v) = n.
Proof. intros. unfold groups. rewrite length_app, high_length. cbn. lia. Qed.

Lemma parse_ok n v rest : in_range 64 v -> sized n v ->
  ParseScalableInteger (groups n (v - min_value n) ++ rest) = Some (Z.of_nat n, Some v).
Proof.
  intros Hv [Hn Hr]. unfold ParseScalableInteger. rewrite read_groups by lia.
  rewrite index_min by lia. cbn [mbind option_bind]. do 2 f_equal.
  unfold wrap. rewrite Z.add_mod_idemp_r by lia.
  replace (min_value n + (v - min_value n)) with v by lia. by rewrite Z.mod_small by done.
Qed.

(** ** Properties *)

(** every 64-bit value survives: dumped into a buffer of at least ten bytes
    it takes [n] bytes, 1 <= n <= 10, [n] being the least size whose range
    contains it, the bytes after them are untouched, and parsing the buffer
    returns [n] and the value.  A buffer that is too small is left alone. *)
Theorem scalable_roundtrip v buff :
  in_range 64 v ->
  exists n, sized n v /\
    ((length buff < n)%nat -> DumpScalableInteger v buff = Some (0, buff)) /\
    ((n <= length buff)%nat -> exists buff', DumpScalableInteger v buff = Some (Z.of_nat n, buff') /\
       length buff' = length buff /\ drop n buff' = drop n buff /\
       ParseScalableInteger buff' = Some (Z.of_nat n, Some v)).
Proof.
  intros Hv. destruct (need_loop_ok v Hv 9 1) as (n & _ & Hs); [done|lia|cbn; apply Hv|].
  exists n. split; [done|]. rewrite (dump_ok n v buff Hv Hs).
  pose proof (groups_length n (v - min_value n) ltac:(apply Hs)) as Hg. split.
  - intros. by rewrite (proj2 (Z.ltb_lt _ _)) by lia.
  - intros. rewrite (proj2 (Z.ltb_ge _ _)) by lia. eexists; split; [done|].
    split; [rewrite length_app, length_drop; lia|]. split; [by apply drop_app_length'|].
    by apply parse_ok.
Qed.

Lemma high_onto cont : Forall (fun b => 128 <= b < 256) cont ->
  exists v, cont = high (length cont) v /\ 0 <= v < 128 ^ Z.of_nat (length cont).
Proof.
  induction cont as [|b cont IH] using rev_ind; intros H.
  { exists 0. done. }
  apply Forall_app in H as [H Hb]. inversion_clear Hb as [|? ? Hb' _].
  destruct (IH H) as (v & E & Hv). exists (v * 128 + (b - 128)).
  rewrite length_app. cbn [length]. rewrite Nat.add_1_r, pow128_S. cbn [high].
  replace ((v * 128 + (b - 128)) / 128) with v by dlia.
  replace ((v * 128 + (b - 128)) mod 128) with (b - 128) by dlia.
  rewrite <- E. replace (128 + (b - 128)) with b by lia. split; [done|lia].
Qed.

(** the format has no redundancy up to nine bytes: any string of at most
    eight bytes with the high bit set followed by one without is the encoding
    of exactly one value, which parsing returns and whose dump is that string. *)
Theorem scalable_is_canonical cont last rest buff :
  Forall (fun b => 128 <= b < 256) cont -> 0 <= last < 128 -> (length cont <= 8)%nat ->
  length buff = S (length cont) ->
  exists v, in_range 64 v /\
    ParseScalableInteger (cont ++ [last] ++ rest) = Some (Z.of_nat (S (length cont)), Some v) /\
    DumpScalableInteger v buff = Some (Z.of_nat (S (length cont)), cont ++ [last]).
Proof.
  intros Hc Hl Hlen Hb. destruct (high_onto cont Hc) as (h & E & Hh).
  set (n := S (length cont)). set (x := h * 128 + last).
  assert (Hx : 0 <= x < 128 ^ Z.of_nat n) by (unfold x, n; rewrite pow128_S; lia).
  assert (Eg : cont ++ [last] = groups n x).
  { unfold groups, n, x. replace (S (length cont) - 1)%nat with (length cont) by lia.
    replace ((h * 128 + last) / 128) with h by dlia.
    replace ((h * 128 + last) mod 128) with last by dlia. by rewrite <- E. }
  assert (Hm : 0 <= min_value n) by (apply (min_value_mono 0 n); lia).
  assert (Hmax : min_value n + 128 ^ Z.of_nat n <= 2 ^ 64).
  { assert (n <= 9)%nat by (unfold n; lia). clearbody n.
    do 10 (destruct n as [|n]; [vm_compute; congruence|]). lia. }
  assert (Hs : sized n (min_value n + x)) by (split; [unfold n; lia|lia]).
  exists (min_value n + x). assert (in_range 64 (min_value n + x)) by (unfold in_range; lia).
  split; [done|]. replace x with (min_value n + x - min_value n) in Eg by lia.
  split; [rewrite app_assoc, Eg; by apply parse_ok|].
  rewrite (dump_ok n) by done. rewrite (proj2 (Z.ltb_ge _ _)) by (unfold n; lia).
  rewrite Eg, drop_ge by lia. by rewrite app_nil_r.
Qed.

(** eleven bytes make the parser read past its table: after ten bytes with
    the high bit set and one without, the loop, which accepts the index 10, ends
    with [read_bytes] 11 and [_min_value_tbl] has only the indices 0 to 10. *)
Theorem parse_reads_past_table cont last rest :
  Forall (fun b => 128 <= b < 256) cont -> length cont = 10%nat -> 0 <= last < 128 ->
  ParseScalableInteger (cont ++ [last] ++ rest) = None.
Proof.
  intros Hc Hl Hlast. destruct (high_onto cont Hc) as (h & E & Hh). rewrite Hl in *.
  assert (cont ++ [last] = groups 11 (h * 128 + last)) as Eg.
  { unfold groups. replace (11 - 1)%nat with 10%nat by lia.
    replace ((h * 128 + last) / 128) with h by dlia.
    replace ((h * 128 + last) mod 128) with last by dlia. by rewrite <- E. }
  rewrite app_assoc, Eg. unfold ParseScalableInteger. rewrite read_groups; [done|lia|].
  change (128 ^ Z.of_nat 11) with (128 * 128 ^ Z.of_nat 10). lia.
Qed.

(** ** Witnesses *)

Lemma scalable_roundtrip_witness :
  exists n, sized n (2 ^ 64 - 1) /\
    ((length (replicate 10 0) < n)%nat ->
       DumpScalableInteger (2 ^ 64 - 1) (replicate 10 0) = Some (0, replicate 10 0)) /\
    ((n <= length (replicate 10 0))%nat -> exists buff',
       DumpScalableInteger (2 ^ 64 - 1) (replicate 10 0) = Some (Z.of_nat n, buff') /\
       length buff' = length (replicate 10 0) /\ drop n buff' = drop n (replicate 10 0) /\
       ParseScalableInteger buff' = Some (Z.of_nat n, Some (2 ^ 64 - 1))).
Proof. apply (scalable_roundtrip (2 ^ 64 - 1) (replicate 10 0)). split; [lia|reflexivity]. Defined.

Lemma scalable_is_canonical_witness :
  exists v, in_range 64 v /\
    ParseScalableInteger ([0x81] ++ [0x2c] ++ [7]) = Some (Z.of_nat 2, Some v) /\
    DumpScalableInteger v [0; 0] = Some (Z.of_nat 2, [0x81] ++ [0x2c]).
Proof.
  apply (scalable_is_canonical [0x81] 0x2c [7] [0; 0]); [repeat constructor; lia|lia|cbn; lia|done].
Defined.

Lemma parse_reads_past_table_witness :
  ParseScalableInteger (replicate 10 0x80 ++ [0] ++ []) = None.
Proof.
  apply (parse_reads_past_table (replicate 10 0x80) 0 []); [|done|lia].
  repeat constructor; lia.
Defined.
