(* ===== verification/Strings.v ===== *)
(** * Strings: std::string and the helpers of util/string

    A [std::string] is the list of the codes of its characters.  First the
    members of the standard class that the code uses, with [std::string::npos]
    and the exceptions ([None]) they have; then [modules/util/string.cpp]. *)
From S2P Require Import Prelude.

(** ** std::string *)

Notation chars := (list Z).
Notation npos := SIZE_MAX.

Definition size (s : chars) : Z := Z.of_nat (length s).

(** The first suffix that satisfies [p]. *)
Fixpoint scan (p : chars -> bool) (s : chars) : option nat :=
  if p s then Some 0%nat
  else match s with [] => None | _ :: s' => option_map S (scan p s') end.

Definition to_pos (off : Z) (o : option nat) : Z :=
  match o with Some i => off + Z.of_nat i | None => npos end.

Fixpoint starts_with (pat s : chars) : bool :=
  match pat, s with
  | [], _ => true
  | x :: pat', y :: s' => (x =? y) && starts_with pat' s'
  | _ :: _, [] => false
  end.

Definition is_in (c : Z) (set : chars) : bool := existsb (Z.eqb c) set.

Definition head_in (set : chars) (s : chars) : bool :=
  match s with c :: _ => is_in c set | [] => false end.

Definition head_not_in (set : chars) (s : chars) : bool :=
  match s with c :: _ => negb (is_in c set) | [] => false end.

Definition scan_from (p : chars -> bool) (s : chars) (pos : Z) : Z :=
  if size s <? pos then npos else to_pos pos (scan p (drop (Z.to_nat pos) s)).

Definition find (s pat : chars) (pos : Z) : Z := scan_from (starts_with pat) s pos.
Definition find_first_of (s set : chars) (pos : Z) : Z := scan_from (head_in set) s pos.
Definition find_first_not_of (s set : chars) (pos : Z) : Z := scan_from (head_not_in set) s pos.

(** Searching from the end; the code only uses it from the last character. *)
Definition find_last_not_of (s set : chars) : Z :=
  match scan (head_not_in set) (reverse s) with
  | Some i => size s - 1 - Z.of_nat i
  | None => npos
  end.

(** [substr(pos, n)]; throws [std::out_of_range] beyond the end. *)
Definition substr (s : chars) (pos n : Z) : option chars :=
  if size s <? pos then None else Some (take (Z.to_nat (Z.min n (size s))) (drop (Z.to_nat pos) s)).

(** [at(i)] *)
Definition char_at (s : chars) (i : Z) : option Z := if i <? size s then index s i else None.

(** *** Numbers: [std::to_string] (also [<<]) and [std::stoi] *)

Fixpoint dec_loop (fuel : nat) (n : Z) (acc : chars) : chars :=
  match fuel with
  | O => acc
  | S f => if n <? 10 then (48 + n) :: acc else dec_loop f (n / 10) ((48 + n mod 10) :: acc)
  end.

(** The digits of [0 <= n]; twenty are enough for 64 bits. *)
Definition to_string (n : Z) : chars := dec_loop 20 n [].

Definition isspace (c : Z) : bool := (c =? 32) || ((9 <=? c) && (c <=? 13)).
Definition isdigit (c : Z) : bool := (48 <=? c) && (c <=? 57).

Fixpoint skip_while (p : Z -> bool) (s : chars) : chars :=
  match s with c :: s' => if p c then skip_while p s' else s | [] => [] end.
Fixpoint take_while (p : Z -> bool) (s : chars) : chars :=
  match s with c :: s' => if p c then c :: take_while p s' else [] | [] => [] end.

Definition digits_value (v : Z) (s : chars) : Z := fold_left (fun v c => v * 10 + (c - 48)) s v.

(** [None]: [std::invalid_argument] without digits, [std::out_of_range] beyond [int]. *)
Definition stoi (s : chars) : option Z :=
  let s := skip_while isspace s in
  let '(sign, s) := match s with
                    | 45 :: s' => (-1, s')
                    | 43 :: s' => (1, s')
                    | _ => (1, s)
                    end in
  match take_while isdigit s with
  | [] => None
  | ds => let v := sign * digits_value 0 ds in
          if (- 2 ^ 31 <=? v) && (v <? 2 ^ 31) then Some v else None
  end.

(** *** std::map<std::string, std::string>, in the order of its keys *)

Notation StringMap := (list (chars * chars)).

(** [operator<]: lexicographic, on characters compared as unsigned. *)
Fixpoint lex_lt (a b : chars) : bool :=
  match a, b with
  | _, [] => false
  | [], _ :: _ => true
  | x :: a', y :: b' => if x <? y then true else if y <? x then false else lex_lt a' b'
  end.

(** [m[k] = v;] *)
Fixpoint map_set (k v : chars) (m : StringMap) : StringMap :=
  match m with
  | [] => [(k, v)]
  | (k', v') :: m' =>
      if lex_lt k k' then (k, v) :: m
      else if lex_lt k' k then (k', v') :: map_set k v m'
      else (k', v) :: m'
  end.

(** ** util/string.cpp *)

Section Split.
Context (src sep : chars).

(** The loop of [Split]; [None] also when the fuel is too small. *)
Fixpoint split_loop (fuel : nat) (start_pos : Z) (vec : list chars) : option (list chars) :=
  match fuel with
  | O => None
  | S f =>
      let end_pos := find src sep start_pos in
      str_chip ← substr src start_pos (u64 (end_pos - start_pos));
      let vec := vec ++ [str_chip] in
      if end_pos =? npos then Some vec else split_loop f (end_pos + size sep) vec
  end.
End Split.

Definition Split (src sep : chars) : option (list chars) := split_loop src sep (S (length src)) 0 [].

Definition space_tab : chars := str " " ++ [9].

Fixpoint space_loop (src : chars) (fuel : nat) (end_pos : Z) (vec : list chars) : option (list chars) :=
  match fuel with
  | O => None
  | S f =>
      let start_pos := find_first_not_of src space_tab end_pos in
      if start_pos =? npos then Some vec
      else
        let end_pos := find_first_of src space_tab start_pos in
        str_chip ← substr src start_pos (u64 (end_pos - start_pos));
        let vec := vec ++ [str_chip] in
        if end_pos =? npos then Some vec else space_loop src f end_pos vec
  end.

Definition SplitBySpace (src : chars) : option (list chars) := space_loop src (S (length src)) 0 [].

(** The loop of [Join]: whether a delimiter comes first. *)
Fixpoint join_loop (delimiter : chars) (need : bool) (vec : list chars) : chars :=
  match vec with
  | [] => []
  | s :: vec' => (if need then delimiter else []) ++ s ++ join_loop delimiter true vec'
  end.

Definition Join (vec : list chars) (delimiter : chars) : chars := join_loop delimiter false vec.

Definition StripLeft (s : chars) : option chars :=
  let start_pos := find_first_not_of s (str " ") 0 in
  if start_pos =? npos then Some [] else substr s start_pos npos.

Definition StripRight (s : chars) : option chars :=
  let end_pos := find_last_not_of s (str " ") in
  if end_pos =? npos then Some [] else substr s 0 (end_pos + 1).

Definition Strip (s : chars) : option chars :=
  let start_pos := find_first_not_of s (str " ") 0 in
  if start_pos =? npos then Some []
  else
    let end_pos := find_last_not_of s (str " ") in
    if end_pos =? npos then Some [] else substr s start_pos (end_pos - start_pos + 1).

Definition quote : Z := 39.
Definition double_quote : Z := 34.

(** [None]: the front of an empty string, which is undefined. *)
Definition StripQuot (s : chars) : option chars :=
  match head s, last s with
  | Some a, Some b =>
      if (a =? b) && ((a =? quote) || (a =? double_quote)) then substr s 1 (u64 (size s - 2)) else Some s
  | _, _ => None
  end.

(** *** Hexadecimal *)

Definition hex_digit (uppercase : bool) (v : Z) : Z :=
  if v <? 10 then 48 + v else (if uppercase then 55 else 87) + v.

(** [oss << setw(2) << (int)b] in the hexadecimal mode, filled with 0. *)
Definition hex_byte (uppercase : bool) (b : Z) : chars :=
  [hex_digit uppercase (Z.shiftr b 4); hex_digit uppercase (Z.land b 15)].

Fixpoint hex_loop (uppercase : bool) (delimiter : chars) (data : list Z) : chars :=
  match data with
  | [] => []
  | [b] => hex_byte uppercase b
  | b :: data' => hex_byte uppercase b ++ delimiter ++ hex_loop uppercase delimiter data'
  end.

(** [data_len] is the length of [data], below 65536. *)
Definition RawDataToHexStr (data : list Z) (uppercase : bool) (delimiter : chars) : chars :=
  hex_loop uppercase delimiter data.

(** [None]: [NotAZaz09Exception]. *)
Definition hexCharToValue (c : Z) : option Z :=
  if (48 <=? c) && (c <=? 57) then Some (c - 48)
  else if (65 <=? c) && (c <=? 70) then Some (c - 65 + 10)
  else if (97 <=? c) && (c <=? 102) then Some (c - 97 + 10)
  else None.

(** The bytes that fit in an area of [out_len] bytes. *)
Fixpoint hex_area (s : chars) (out_len : nat) : option (list Z) :=
  match out_len, s with
  | S n, h :: l :: s' =>
      hv ← hexCharToValue h; lv ← hexCharToValue l; rest ← hex_area s' n;
      Some (Z.lor (u8 (Z.shiftl hv 4)) (Z.land lv 15) :: rest)
  | _, _ => Some []
  end.

Definition HexStrToRawData (s : chars) (out_len : Z) : option (list Z) := hex_area s (Z.to_nat out_len).

(** The value of the [len] characters at [start_pos]. *)
Definition hex_value (s : chars) (start_pos len : Z) : option Z :=
  if len =? 1 then c ← char_at s start_pos; hexCharToValue c
  else if len =? 2 then
    h ← char_at s start_pos; hv ← hexCharToValue h;
    l ← char_at s (start_pos + 1); lv ← hexCharToValue l;
    Some (Z.lor (u8 (Z.shiftl hv 4)) lv)
  else None (* MoreThan2CharException *).

Fixpoint hex_delim_loop (s delimiter : chars) (fuel : nat) (start_pos : Z) (out : list Z) : option (list Z) :=
  match fuel with
  | O => None
  | S f =>
      if start_pos =? npos then Some out
      else
        let end_pos := (let e := find_first_of s delimiter start_pos in if e =? npos then size s else e) in
        let len := end_pos - start_pos in
        value ← hex_value s start_pos len;
        hex_delim_loop s delimiter f (find_first_not_of s delimiter end_pos) (out ++ [value])
  end.

Definition HexStrToRawDataWithDelimiter (s delimiter : chars) : option (list Z) :=
  hex_delim_loop s delimiter (S (length s)) (find_first_not_of s delimiter 0) [].

(** The loop with the index [i], up to [n] characters. *)
Fixpoint hex_plain_loop (s : chars) (start_pos n : Z) (fuel : nat) (i : Z) (out : list Z) : option (list Z) :=
  match fuel with
  | O => None
  | S f =>
      if i * 2 <? n then
        h ← char_at s (u64 (start_pos + 2 * i));
        l ← char_at s (u64 (start_pos + 2 * i + 1));
        hv ← hexCharToValue h; lv ← hexCharToValue l;
        hex_plain_loop s start_pos n f (i + 1) (out ++ [Z.lor (u8 (Z.shiftl hv 4)) (Z.land lv 15)])
      else Some out
  end.

Definition HexStrToRawDataWithoutDelimiter (s : chars) : option (list Z) :=
  let start_pos := find_first_not_of s space_tab 0 in
  let end_pos := u64 (find_last_not_of s space_tab + 1) in
  hex_plain_loop s start_pos (u64 (end_pos - start_pos)) (S (length s)) 0 [].

Definition HexStrToRawDataVector (s delimiter : chars) : option (list Z) :=
  match delimiter with
  | [] => HexStrToRawDataWithoutDelimiter s
  | _ => HexStrToRawDataWithDelimiter s delimiter
  end.

(** *** Replacing, case, prefixes *)

Fixpoint replace_loop (pattern replace : chars) (fuel : nat) (target : chars) (pos count : Z) : option chars :=
  match fuel with
  | O => None
  | S f =>
      if 0 <? count then
        let pos := find target pattern pos in
        if pos =? npos then Some target
        else
          let target := take (Z.to_nat pos) target ++ replace ++ drop (Z.to_nat pos + length pattern) target in
          replace_loop pattern replace f target (pos + size replace) (count - 1)
      else Some target
  end.

Definition Replace (fuel : nat) (target pattern replace : chars) (start count : Z) : option chars :=
  if (match target with [] => true | _ => false end) || (size target <? start) then Some target
  else replace_loop pattern replace fuel target start (if count =? 0 then 2 ^ 32 - 1 else count).

(** [toupper] and [tolower] of the C locale. *)
Definition to_upper (c : Z) : Z := if (97 <=? c) && (c <=? 122) then c - 32 else c.
Definition to_lower (c : Z) : Z := if (65 <=? c) && (c <=? 90) then c + 32 else c.
Definition ToUpper (s : chars) : chars := map to_upper s.
Definition ToLower (s : chars) : chars := map to_lower s.

Definition IsStartWith (s text : chars) : bool :=
  if size s <? size text then false else find s text 0 =? 0.
Definition IsEndWith (s text : chars) : bool :=
  if size s <? size text then false else negb (find s text (size s - size text) =? npos).

(** ** Searching *)

Lemma scan_Some p s i : scan p s = Some i ->
  (i <= length s)%nat /\ p (drop i s) = true /\ forall j, (j < i)%nat -> p (drop j s) = false.
Proof.
  revert i. induction s as [|c s IH]; intros i E; cbn in E.
  - destruct (p []) eqn:Ep; [|done]. injection E as <-. split; [done|]. split; [done|]. lia.
  - destruct (p (c :: s)) eqn:Ep; [injection E as <-; split; [cbn; lia|]; split; [done|]; lia|].
    destruct (scan p s) as [k|]; [|done]. injection E as <-. destruct (IH k eq_refl) as (H1 & H2 & H3).
    split; [cbn; lia|]. split; [done|]. intros [|j] Hj; [done|]. apply H3. lia.
Qed.

Lemma scan_None p s : scan p s = None -> forall j, p (drop j s) = false.
Proof.
  induction s as [|c s IH]; intros E j; cbn in E.
  - destruct (p []) eqn:Ep; [done|]. by rewrite drop_nil.
  - destruct (p (c :: s)) eqn:Ep; [done|]. destruct (scan p s) as [k|]; [done|]. destruct j as [|j]; [done|]. by apply IH.
Qed.

Lemma scan_intro p s i : (i <= length s)%nat -> p (drop i s) = true ->
  (forall j, (j < i)%nat -> p (drop j s) = false) -> scan p s = Some i.
Proof.
  revert i. induction s as [|c s IH]; intros i Hi Hp Hj.
  - destruct i; [|cbn in Hi; lia]. cbn in *. by rewrite Hp.
  - destruct i as [|i]; cbn [scan]; [cbn in Hp; by rewrite Hp|]. assert (p (c :: s) = false) as Hc by (apply (Hj 0%nat); lia). rewrite Hc.
    rewrite (IH i); [done|cbn in Hi; lia|done|]. intros j Hlt. apply (Hj (S j)). lia.
Qed.

Lemma scan_none_intro p s : (forall j, (j <= length s)%nat -> p (drop j s) = false) -> scan p s = None.
Proof.
  intros H. destruct (scan p s) as [i|] eqn:E; [|done]. destruct (scan_Some _ _ _ E) as (H1 & H2 & _).
  rewrite H in H2 by done. done.
Qed.

Lemma starts_with_app pat s : starts_with pat s = true <-> exists t, s = pat ++ t.
Proof.
  revert s. induction pat as [|x pat IH]; intros s; cbn.
  - split; [by exists s|done].
  - destruct s as [|y s]; [split; [done|by intros [t ?]]|]. rewrite andb_true_iff, Z.eqb_eq, IH. split.
    + intros [-> [t ->]]. by exists t.
    + intros [t E]. injection E as -> ->. split; [done|by exists t].
Qed.

Lemma is_in_true c set : is_in c set = true <-> c ∈ set.
Proof.
  unfold is_in. rewrite existsb_exists. split.
  - intros (x & Hx & E). apply Z.eqb_eq in E as ->. by apply list_elem_of_In.
  - intros H. exists c. split; [by apply list_elem_of_In|apply Z.eqb_refl].
Qed.

Lemma is_in_false c set : is_in c set = false <-> c ∉ set.
Proof. rewrite <- is_in_true. destruct (is_in c set); split; [done|by intros []|done..]. Qed.

Lemma size_app s t : size (s ++ t) = size s + size t.
Proof. unfold size. rewrite length_app. lia. Qed.

Lemma size_nonneg s : 0 <= size s.
Proof. unfold size. lia. Qed.

Lemma scan_from_app p pre s : scan_from p (pre ++ s) (size pre) = to_pos (size pre) (scan p s).
Proof.
  unfold scan_from. rewrite size_app. rewrite (proj2 (Z.ltb_ge _ _)) by (pose proof (size_nonneg s); lia).
  f_equal. f_equal. unfold size. rewrite Nat2Z.id. by rewrite drop_app_length.
Qed.

(** The characters of [mid] are passed over, and the next one stops the search. *)
Definition stops (p : chars -> bool) (good : Z -> Prop) : Prop :=
  p [] = false /\ forall c s, p (c :: s) = true <-> good c.

Lemma head_in_stops set : stops (head_in set) (fun c => c ∈ set).
Proof. split; [done|]. intros c s. apply is_in_true. Qed.

Lemma head_not_in_stops set : stops (head_not_in set) (fun c => c ∉ set).
Proof. split; [done|]. intros c s. cbn. rewrite negb_true_iff. apply is_in_false. Qed.

Lemma find_char_stops c : stops (starts_with [c]) (fun x => x = c).
Proof. split; [done|]. intros x s. cbn. rewrite andb_true_r, Z.eqb_eq. split; congruence. Qed.

Lemma stops_false p good x s : stops p good -> ~ good x -> p (x :: s) = false.
Proof. intros [_ H] Hx. destruct (p (x :: s)) eqn:E; [|done]. by apply H in E. Qed.

Lemma scan_stops p good mid c post : stops p good -> Forall (fun x => ~ good x) mid -> good c ->
  scan p (mid ++ c :: post) = Some (length mid).
Proof.
  intros Hp Hm Hc. induction Hm as [|x mid Hx Hm IH]; cbn.
  - by rewrite (proj2 (proj2 Hp c post) Hc).
  - by rewrite (stops_false p good) , IH.
Qed.

Lemma scan_stops_none p good mid : stops p good -> Forall (fun x => ~ good x) mid -> scan p mid = None.
Proof.
  intros Hp Hm. induction Hm as [|x mid Hx Hm IH]; cbn.
  - by rewrite (proj1 Hp).
  - by rewrite (stops_false p good), IH.
Qed.

Lemma find_stops p good pre mid c post : stops p good -> Forall (fun x => ~ good x) mid -> good c ->
  scan_from p (pre ++ mid ++ c :: post) (size pre) = size (pre ++ mid).
Proof.
  intros. rewrite scan_from_app, (scan_stops p good) by done. cbn. rewrite size_app. done.
Qed.

Lemma find_here p good pre c post : stops p good -> good c ->
  scan_from p (pre ++ c :: post) (size pre) = size pre.
Proof. intros Hp Hc. pose proof (find_stops p good pre [] c post Hp) as H. rewrite app_nil_r in H. by apply H. Qed.

Lemma find_stops_none p good pre mid : stops p good -> Forall (fun x => ~ good x) mid ->
  scan_from p (pre ++ mid) (size pre) = npos.
Proof. intros. by rewrite scan_from_app, (scan_stops_none p good). Qed.

Lemma find_end p good s : stops p good -> scan_from p s (size s) = npos.
Proof.
  intros Hp. pose proof (find_stops_none p good s [] Hp) as H. rewrite app_nil_r in H. apply H, Forall_nil, I.
Qed.

(** ** Substrings *)

Lemma substr_app pre mid post n : n = size mid -> substr (pre ++ mid ++ post) (size pre) n = Some mid.
Proof.
  intros ->. pose proof (size_nonneg pre). pose proof (size_nonneg mid). pose proof (size_nonneg post).
  unfold substr. rewrite !size_app, (proj2 (Z.ltb_ge _ _)), Z.min_l by lia.
  unfold size. by rewrite !Nat2Z.id, drop_app_length, take_app_length.
Qed.

Lemma substr_rest pre mid n : size mid <= n -> substr (pre ++ mid) (size pre) n = Some mid.
Proof.
  intros Hn. pose proof (size_nonneg pre). pose proof (size_nonneg mid).
  unfold substr. rewrite size_app, (proj2 (Z.ltb_ge _ _)) by lia.
  unfold size in *. rewrite !Nat2Z.id, drop_app_length. by rewrite take_ge by lia.
Qed.

(** The length [end_pos - start_pos] of the code. *)
Lemma span_len pre mid : size (pre ++ mid) < npos -> u64 (size (pre ++ mid) - size pre) = size mid.
Proof.
  rewrite size_app. intros H. unfold SIZE_MAX in H. rewrite wrap_small; [lia|].
  unfold in_range. pose proof (size_nonneg mid). pose proof (size_nonneg pre). lia.
Qed.

Lemma span_rest pre mid : size (pre ++ mid) < npos -> size mid <= u64 (npos - size pre).
Proof.
  rewrite size_app. intros H. unfold SIZE_MAX in *. pose proof (size_nonneg mid). pose proof (size_nonneg pre).
  rewrite wrap_small by (unfold in_range; lia). lia.
Qed.

(** ** Prefixes and suffixes of the searched text

    A search that succeeds within a prefix of the text finds the same place in
    the text, and a search in a suffix finds the shifted place. *)

(** [p] looks at [k] characters only. *)
Record local (k : nat) (p : chars -> bool) : Prop := {
  local_need : forall s, p s = true -> (k <= length s)%nat;
  local_app : forall s t, (k <= length s)%nat -> p (s ++ t) = p s
}.

Lemma head_in_local set : local 1 (head_in set).
Proof. split; intros [|c s]; cbn; (done || lia). Qed.

Lemma head_not_in_local set : local 1 (head_not_in set).
Proof. split; intros [|c s]; cbn; (done || lia). Qed.

Lemma starts_with_local pat : local (length pat) (starts_with pat).
Proof.
  split.
  - intros s Hs. apply starts_with_app in Hs as [t ->]. rewrite length_app. lia.
  - intros s t. revert s. induction pat as [|x pat IH]; intros [|y s] Hl; cbn in *; [done|done|lia|].
    rewrite IH by lia. done.
Qed.

#[export] Hint Resolve head_in_local head_not_in_local starts_with_local : core.

Lemma scan_prefix k p a b i : local k p -> scan p a = Some i -> scan p (a ++ b) = Some i.
Proof.
  intros Hp. revert i. induction a as [|c a IH]; intros i E.
  - cbn in E. destruct (p []) eqn:Ep; [|done]. injection E as <-.
    pose proof (local_app k p Hp [] b (local_need k p Hp [] Ep)) as H. rewrite Ep in H. destruct b; cbn in *; by rewrite H.
  - cbn [scan app] in *. destruct (p (c :: a)) eqn:Ep.
    + rewrite (local_app k p Hp (c :: a) b (local_need k p Hp _ Ep) : p (c :: a ++ b) = _), Ep. done.
    + destruct (scan p a) as [j|] eqn:Ej; [|done]. injection E as <-.
      destruct (scan_Some _ _ _ Ej) as (H1 & H2 & _). apply (local_need k p Hp) in H2. rewrite length_drop in H2.
      rewrite (local_app k p Hp (c :: a) b ltac:(cbn; lia) : p (c :: a ++ b) = _), Ep, (IH j eq_refl). done.
Qed.

Lemma scan_from_prefix k p a b pos : local k p -> 0 <= pos -> scan_from p a pos <> npos ->
  scan_from p (a ++ b) pos = scan_from p a pos.
Proof.
  intros Hp H0. unfold scan_from. rewrite size_app. pose proof (size_nonneg b).
  destruct (Z.ltb_spec (size a) pos) as [|Hle]; [done|]. rewrite (proj2 (Z.ltb_ge _ _)) by lia. intros Hn.
  rewrite drop_app_le by (unfold size in Hle; lia).
  destruct (scan p (drop (Z.to_nat pos) a)) as [i|] eqn:E; [|done]. by rewrite (scan_prefix k p _ b i Hp E).
Qed.

Lemma scan_from_bound k p s pos : local k p -> 0 <= pos -> scan_from p s pos <> npos ->
  pos <= scan_from p s pos /\ scan_from p s pos + Z.of_nat k <= size s.
Proof.
  intros Hp H0. unfold scan_from. destruct (Z.ltb_spec (size s) pos) as [|Hle]; [done|].
  destruct (scan p (drop (Z.to_nat pos) s)) as [i|] eqn:E; [|done]. intros _. cbn [to_pos].
  destruct (scan_Some _ _ _ E) as (H1 & H2 & _). apply (local_need k p Hp) in H2.
  rewrite !length_drop in *. unfold size in *. lia.
Qed.

(** A position in the suffix [y] of [x ++ y]. *)
Definition shift (n pos : Z) : Z := if pos =? npos then npos else n + pos.

Lemma scan_from_shift p x y pos : 0 <= pos -> size (x ++ y) < npos ->
  scan_from p (x ++ y) (size x + pos) = shift (size x) (scan_from p y pos).
Proof.
  intros H0 Hn. unfold scan_from, shift. rewrite size_app in *. pose proof (size_nonneg x). pose proof (size_nonneg y).
  destruct (Z.ltb_spec (size x + size y) (size x + pos)), (Z.ltb_spec (size y) pos); [by rewrite Z.eqb_refl|lia|lia|].
  replace (Z.to_nat (size x + pos)) with (length x + Z.to_nat pos)%nat by (unfold size; lia).
  rewrite <- drop_drop, drop_app_length. destruct (scan p (drop (Z.to_nat pos) y)) as [i|] eqn:E; cbn [to_pos].
  - destruct (scan_Some _ _ _ E) as (Hi & _). rewrite length_drop in Hi. unfold size in *.
    rewrite (proj2 (Z.eqb_neq _ _)); lia.
  - by rewrite Z.eqb_refl.
Qed.

Lemma take_clamp {A} (l : list A) n m m' : Z.of_nat (length l) <= m -> Z.of_nat (length l) <= m' ->
  take (Z.to_nat (Z.min n m)) l = take (Z.to_nat (Z.min n m')) l.
Proof.
  intros H1 H2. destruct (Z.lt_ge_cases n (Z.of_nat (length l))); [by rewrite !Z.min_l by lia|].
  by rewrite !take_ge by lia.
Qed.

Lemma substr_shift x y pos n : 0 <= pos -> substr (x ++ y) (size x + pos) n = substr y pos n.
Proof.
  intros H0. unfold substr. rewrite size_app. pose proof (size_nonneg x).
  destruct (Z.ltb_spec (size x + size y) (size x + pos)), (Z.ltb_spec (size y) pos); try lia; [done|].
  replace (Z.to_nat (size x + pos)) with (length x + Z.to_nat pos)%nat by (unfold size; lia).
  rewrite <- drop_drop, drop_app_length. f_equal. apply take_clamp; rewrite length_drop; unfold size in *; lia.
Qed.

Lemma substr_prefix a b pos n : 0 <= pos -> 0 <= n -> pos + n <= size a -> substr (a ++ b) pos n = substr a pos n.
Proof.
  intros H0 Hn Ha. unfold substr. rewrite size_app. pose proof (size_nonneg b).
  rewrite !(proj2 (Z.ltb_ge _ _)) by lia. f_equal. rewrite !Z.min_l by lia.
  rewrite drop_app_le by (unfold size in *; lia). rewrite take_app_le; [done|]. rewrite length_drop. unfold size in *. lia.
Qed.

(** ** Numbers and maps *)

Lemma dec_loop_value f n acc : 0 <= n < 10 ^ Z.of_nat f -> digits_value 0 (dec_loop f n acc) = digits_value n acc.
Proof.
  revert n acc. induction f as [|f IH]; intros n acc Hn.
  - change (10 ^ Z.of_nat 0) with 1 in Hn. cbn. by replace n with 0 by lia.
  - cbn [dec_loop]. destruct (Z.ltb_spec n 10).
    + unfold digits_value. cbn [fold_left]. f_equal. lia.
    + rewrite Nat2Z.inj_succ, Z.pow_succ_r in Hn by lia.
      rewrite IH by (split; [apply Z.div_pos; lia|apply Z.div_lt_upper_bound; lia]).
      unfold digits_value. cbn [fold_left]. f_equal. dlia.
Qed.

Lemma dec_loop_digits f n acc : 0 <= n -> Forall (fun c => isdigit c = true) acc ->
  Forall (fun c => isdigit c = true) (dec_loop f n acc).
Proof.
  revert n acc. induction f as [|f IH]; intros n acc Hn Ha; [done|]. cbn [dec_loop]. unfold isdigit in *.
  destruct (Z.ltb_spec n 10); [apply Forall_cons; split; [lia|done]|].
  apply IH; [apply Z.div_pos; lia|]. apply Forall_cons. split; [|done]. dlia.
Qed.

Lemma dec_loop_cons f n acc : exists c s, dec_loop (S f) n acc = c :: s.
Proof.
  revert n acc. induction f as [|f IH]; intros n acc; cbn [dec_loop]; (destruct (n <? 10); [by eexists _, _|]); [by eexists _, _|].
  apply IH.
Qed.

Lemma to_string_digits n : 0 <= n -> Forall (fun c => isdigit c = true) (to_string n).
Proof. intros Hn. apply dec_loop_digits; [done|apply Forall_nil, I]. Qed.

Lemma take_while_all p s : Forall (fun c => p c = true) s -> take_while p s = s.
Proof. induction 1 as [|c s Hc Hs IH]; [done|]. cbn. by rewrite Hc, IH. Qed.

(** A printed number is read back. *)
Lemma stoi_to_string n : 0 <= n < 2 ^ 31 -> stoi (to_string n) = Some n.
Proof.
  intros Hn. pose proof (to_string_digits n ltac:(lia)) as Hd.
  assert (digits_value 0 (to_string n) = n) as Hv.
  { unfold to_string. rewrite dec_loop_value; [done|]. change (10 ^ Z.of_nat 20) with 100000000000000000000. lia. }
  assert (exists c s, to_string n = c :: s) as (c & s & E) by apply dec_loop_cons.
  rewrite E in *. pose proof (proj1 (proj1 (Forall_cons _ _ _) Hd)) as Hc. unfold isdigit in Hc. unfold stoi.
  cbn [skip_while]. assert (isspace c = false) as -> by (unfold isspace; lia).
  assert (exists d, c = 48 + d /\ 0 <= d < 10) as (d & Ec & Hdr) by (exists (c - 48); lia).
  assert ((match c :: s with 45 :: s' => (-1, s') | 43 :: s' => (1, s') | _ => (1, c :: s) end) = (1, c :: s)) as ->.
  { rewrite Ec. assert (d = 0 \/ d = 1 \/ d = 2 \/ d = 3 \/ d = 4 \/ d = 5 \/ d = 6 \/ d = 7 \/ d = 8 \/ d = 9) as H by lia.
    repeat (destruct H as [->|H]; [done|]). by subst. }
  rewrite take_while_all, Z.mul_1_l by done. rewrite Hv.
  rewrite (proj2 (Z.leb_le _ _)), (proj2 (Z.ltb_lt _ _)) by lia. done.
Qed.

Lemma lex_lt_asym a b : lex_lt a b = true -> lex_lt b a = false.
Proof.
  revert b. induction a as [|x a IH]; intros [|y b]; cbn; [done..|].
  destruct (Z.ltb_spec x y), (Z.ltb_spec y x); try done; [lia|]. apply IH.
Qed.

Lemma lex_lt_irrefl a : lex_lt a a = false.
Proof. destruct (lex_lt a a) eqn:E; [|done]. by rewrite (lex_lt_asym _ _ E) in E. Qed.

Lemma lex_lt_trans a b c : lex_lt a b = true -> lex_lt b c = true -> lex_lt a c = true.
Proof.
  revert b c. induction a as [|x a IH]; intros [|y b] [|z c]; cbn; try done.
  destruct (Z.ltb_spec x y), (Z.ltb_spec y x), (Z.ltb_spec y z), (Z.ltb_spec z y), (Z.ltb_spec x z), (Z.ltb_spec z x);
    intros Ha Hb; try done; try lia. by apply (IH b).
Qed.

Lemma lex_lt_total a b : lex_lt a b = false -> lex_lt b a = false -> a = b.
Proof.
  revert b. induction a as [|x a IH]; intros [|y b]; cbn; try done.
  destruct (Z.ltb_spec x y), (Z.ltb_spec y x); intros Ha Hb; try done. rewrite (IH b) by done. f_equal. lia.
Qed.

(** The keys are in increasing order. *)
Fixpoint sorted_keys (m : StringMap) : bool :=
  match m with
  | [] => true
  | (k, _) :: m' => forallb (fun kv => lex_lt k kv.1) m' && sorted_keys m'
  end.

(** A key beyond all the others is added at the end. *)
Lemma map_set_last k v m : forallb (fun kv => lex_lt kv.1 k) m = true -> map_set k v m = m ++ [(k, v)].
Proof.
  induction m as [|[k' v'] m IH]; [done|]. cbn. rewrite andb_true_iff. intros [H1 H2].
  by rewrite (lex_lt_asym _ _ H1), H1, IH.
Qed.

Lemma sorted_before m0 k v m : sorted_keys (m0 ++ (k, v) :: m) = true -> forallb (fun kv => lex_lt kv.1 k) m0 = true.
Proof.
  induction m0 as [|[k0 v0] m0 IH]; [done|]. cbn. rewrite andb_true_iff. intros [H1 H2].
  rewrite forallb_app in H1. cbn in H1. apply andb_true_iff in H1 as [_ H1]. apply andb_true_iff in H1 as [H1 _].
  rewrite H1. by apply IH.
Qed.

Lemma map_set_forall (p : chars -> bool) k v m : p k = true -> forallb (fun kv => p kv.1) m = true ->
  forallb (fun kv => p kv.1) (map_set k v m) = true.
Proof.
  induction m as [|[k' v'] m IH]; intros Hk Hm; cbn in *; [by rewrite Hk|].
  apply andb_true_iff in Hm as [H1 H2]. destruct (lex_lt k k'); cbn; [by rewrite Hk, H1, H2|].
  destruct (lex_lt k' k); cbn; rewrite H1; [by apply IH|done].
Qed.

(** Assigning keeps the order, and the entry is the one that is found. *)
Lemma map_set_sorted k v m : sorted_keys m = true -> sorted_keys (map_set k v m) = true.
Proof.
  induction m as [|[k' v'] m IH]; [done|]. cbn [sorted_keys map_set]. rewrite andb_true_iff. intros [H1 H2].
  destruct (lex_lt k k') eqn:E1; [|destruct (lex_lt k' k) eqn:E2]; cbn [sorted_keys forallb fst].
  - rewrite E1, H1, H2. cbn [andb]. rewrite !andb_true_r. rewrite forallb_forall in *. intros kv Hin.
    by apply (lex_lt_trans _ k'), H1.
  - rewrite IH by done. rewrite andb_true_r. by apply (map_set_forall (lex_lt k')).
  - by rewrite H1, H2.
Qed.

(** ** Split and Join *)

Lemma scan_sep sep s i : sep <> [] -> scan (starts_with sep) s = Some i ->
  exists mid post, s = mid ++ sep ++ post /\ length mid = i.
Proof.
  intros Hs E. destruct (scan_Some _ _ _ E) as (H1 & H2 & _). apply starts_with_app in H2 as [t Ht].
  exists (take i s), t. rewrite <- Ht, take_drop. split; [done|]. by apply length_take_le.
Qed.

Lemma join_true sep v : v <> [] -> join_loop sep true v = sep ++ Join v sep.
Proof. by destruct v. Qed.

Lemma split_loop_join src sep fuel pre rest vec : sep <> [] -> src = pre ++ rest -> size src < npos ->
  (length rest < fuel)%nat ->
  exists v, split_loop src sep fuel (size pre) vec = Some (vec ++ v) /\ v <> [] /\ Join v sep = rest.
Proof.
  intros Hs. revert pre rest vec. induction fuel as [|f IH]; intros pre rest vec -> Hn Hf; [lia|].
  cbn [split_loop]. unfold find. rewrite scan_from_app. destruct (scan (starts_with sep) rest) as [i|] eqn:E; cbn [to_pos].
  - destruct (scan_sep _ _ _ Hs E) as (mid & post & -> & <-).
    assert (size pre + Z.of_nat (length mid) = size (pre ++ mid)) as -> by (by rewrite size_app).
    rewrite !app_assoc, <- (app_assoc _ sep) in Hn. rewrite size_app in Hn. pose proof (size_nonneg (sep ++ post)).
    rewrite span_len, substr_app by (done || lia). cbn [mbind option_bind].
    rewrite (proj2 (Z.eqb_neq _ _)) by lia.
    destruct (IH ((pre ++ mid) ++ sep) post (vec ++ [mid])) as (v & E' & Hv & Hj).
    { by rewrite <- !app_assoc. }
    { by rewrite app_assoc, size_app. }
    { rewrite !length_app in Hf. destruct sep; [done|]. cbn in Hf. lia. }
    rewrite size_app in E'. exists (mid :: v). split; [|split; [done|]].
    + rewrite <- (app_assoc vec) in E'. exact E'.
    + unfold Join. cbn. by rewrite join_true, Hj by done.
  - rewrite substr_rest by (by apply span_rest). cbn [mbind option_bind]. rewrite Z.eqb_refl.
    exists [rest]. split; [done|]. split; [done|]. unfold Join. cbn. by rewrite app_nil_r.
Qed.

(** The pieces between the occurrences of a character. *)
Lemma split_loop_parts c fuel pre x xs vec src : src = pre ++ Join (x :: xs) [c] -> size src < npos ->
  Forall (fun s => c ∉ s) (x :: xs) -> (length xs < fuel)%nat ->
  split_loop src [c] fuel (size pre) vec = Some (vec ++ x :: xs).
Proof.
  revert pre x vec fuel. induction xs as [|y xs IH]; intros pre x vec fuel -> Hn Hc Hf;
    (destruct fuel as [|f]; [cbn in Hf; lia|]); apply Forall_cons in Hc as [Hx Hc].
  - unfold Join in *. cbn in *. rewrite app_nil_r in *. cbn [split_loop]. unfold find.
    rewrite (find_stops_none _ _ pre x (find_char_stops c)) by (apply Forall_forall; intros z Hz ->; done).
    rewrite substr_rest by (by apply span_rest). done.
  - cbn [split_loop]. unfold find.
    assert (Join (x :: y :: xs) [c] = x ++ c :: Join (y :: xs) [c]) as EJ by done.
    rewrite EJ in *. rewrite (find_stops _ _ pre x c _ (find_char_stops c)) by (done || (apply Forall_forall; intros z Hz ->; done)).
    rewrite app_assoc, size_app in Hn. pose proof (size_nonneg (c :: Join (y :: xs) [c])).
    rewrite span_len, substr_app by (done || lia). cbn [mbind option_bind].
    rewrite (proj2 (Z.eqb_neq _ _)) by lia. rewrite <- (size_app (pre ++ x) [c]).
    erewrite (IH ((pre ++ x) ++ [c]) y); [by rewrite <- app_assoc| | |done|cbn in Hf; lia].
    + by rewrite <- !app_assoc.
    + rewrite app_assoc, size_app. exact Hn.
Qed.

Lemma join_length xs c : xs <> [] -> (length xs <= S (length (Join xs [c])))%nat.
Proof.
  induction xs as [|x [|y xs] IH]; intros H; [done|cbn; lia|].
  assert (Join (x :: y :: xs) [c] = x ++ c :: Join (y :: xs) [c]) as -> by done.
  rewrite length_app. cbn [length] in *. assert (y :: xs <> []) as Hy by done. specialize (IH Hy). lia.
Qed.

(** [Split] on one character gives back the parts. *)
Lemma split_join_parts c xs : xs <> [] -> Forall (fun s => c ∉ s) xs -> size (Join xs [c]) < npos ->
  Split (Join xs [c]) [c] = Some xs.
Proof.
  intros Hx Hc Hn. destruct xs as [|x xs]; [done|]. unfold Split.
  pose proof (join_length (x :: xs) c Hx) as Hl.
  rewrite (split_loop_parts c _ [] x xs []); [done|done|done|done|]. cbn in Hl |- *. lia.
Qed.

(** [Split] and [Join].  With a separator that is not empty [Split] returns for
    every string, and joining the pieces gives the string back; and if no part
    contains the separating character, splitting what was joined gives the parts
    back. *)
Theorem split_and_join sep s : sep <> [] -> size s < npos ->
  (exists v, Split s sep = Some v /\ v <> [] /\ Join v sep = s) /\
  forall c xs, sep = [c] -> s = Join xs [c] -> xs <> [] -> Forall (fun x => c ∉ x) xs -> Split s sep = Some xs.
Proof.
  intros Hs Hn. split.
  - destruct (split_loop_join s sep (S (length s)) [] s []) as (v & E & Hv & Hj); [done|done|done|lia|].
    exists v. split; [exact E|done].
  - intros c xs -> -> Hx Hc. by apply split_join_parts.
Qed.

Lemma split_and_join_witness :
  (exists v, Split (str "a=1;;b=2") (str ";") = Some v /\ v <> [] /\ Join v (str ";") = str "a=1;;b=2") /\
  Split (Join [str "a=1"; []; str "b=2"] [59]) (str ";") = Some [str "a=1"; []; str "b=2"].
Proof.
  split.
  - apply (split_and_join (str ";") (str "a=1;;b=2")); [discriminate|reflexivity].
  - refine (proj2 (split_and_join (str ";") (Join [str "a=1"; []; str "b=2"] [59]) _ _) 59 _ eq_refl eq_refl _ _);
      [discriminate|reflexivity|discriminate|].
    repeat (apply Forall_cons; split; [apply (bool_decide_unpack _); reflexivity|]). apply Forall_nil. exact I.
Defined.

(** ** Hexadecimal *)

Lemma hex_digit_value up v : 0 <= v < 16 -> hexCharToValue (hex_digit up v) = Some v.
Proof.
  intros Hv. apply (range_forallb 16 (fun v => bool_decide (hexCharToValue (hex_digit up v) = Some v))) in Hv.
  - by apply bool_decide_eq_true in Hv.
  - by destruct up.
Qed.

Lemma nibbles b : is_byte b -> 0 <= Z.shiftr b 4 < 16 /\ 0 <= Z.land b 15 < 16 /\
  Z.lor (u8 (Z.shiftl (Z.shiftr b 4) 4)) (Z.land b 15) = b /\
  Z.lor (u8 (Z.shiftl (Z.shiftr b 4) 4)) (Z.land (Z.land b 15) 15) = b.
Proof.
  intros Hb. apply (byte_forallb (fun b => (0 <=? Z.shiftr b 4) && (Z.shiftr b 4 <? 16) && (0 <=? Z.land b 15) && (Z.land b 15 <? 16)
     && (Z.lor (u8 (Z.shiftl (Z.shiftr b 4) 4)) (Z.land b 15) =? b)
     && (Z.lor (u8 (Z.shiftl (Z.shiftr b 4) 4)) (Z.land (Z.land b 15) 15) =? b))) in Hb; [|by vm_compute].
  rewrite !andb_true_iff, !Z.leb_le, !Z.ltb_lt, !Z.eqb_eq in Hb. tauto.
Qed.

Lemma hex_area_encode up data n : are_bytes data ->
  hex_area (RawDataToHexStr data up []) n = Some (take n data).
Proof.
  unfold RawDataToHexStr. revert n. induction data as [|b data IH]; intros n Hd; [by destruct n|].
  apply Forall_cons in Hd as [Hb Hd]. destruct (nibbles b Hb) as (H1 & H2 & _ & H3).
  destruct n as [|n]; [by destruct data|].
  assert (hex_loop up [] (b :: data) = hex_byte up b ++ hex_loop up [] data) as -> by (by destruct data).
  cbn. rewrite !hex_digit_value by done. cbn. rewrite H3. by rewrite IH.
Qed.

Lemma hex_digit_cases up v : 0 <= v < 16 -> hexCharToValue (hex_digit up v) <> None.
Proof. intros Hv. by rewrite hex_digit_value. Qed.

Lemma char_at_app pre c post : char_at (pre ++ c :: post) (size pre) = Some c.
Proof.
  unfold char_at. rewrite (proj2 (Z.ltb_lt _ _)), index_nonneg by (unfold size; rewrite ?length_app; cbn; lia). unfold size. rewrite Nat2Z.id. by apply list_lookup_middle.
Qed.

Lemma char_at_app' pre c post i : i = size pre -> char_at (pre ++ c :: post) i = Some c.
Proof. intros ->. apply char_at_app. Qed.

Lemma hex_loop_cons up delimiter b data : hex_loop up delimiter (b :: data) =
  hex_byte up b ++ (match data with [] => [] | _ => delimiter ++ hex_loop up delimiter data end).
Proof. destruct data; [by cbn|done]. Qed.

(** The two digits of a byte, and what they do not contain. *)
Lemma hex_byte_spec up b : is_byte b -> exists h l, hex_byte up b = [h; l] /\
  hexCharToValue h = Some (Z.shiftr b 4) /\ hexCharToValue l = Some (Z.land b 15).
Proof.
  intros Hb. destruct (nibbles b Hb) as (H1 & H2 & _). eexists _, _. split; [done|].
  by rewrite !hex_digit_value.
Qed.

Lemma hex_not_in c v set : Forall (fun x => hexCharToValue x = None) set -> hexCharToValue c = Some v -> c ∉ set.
Proof. intros Hs Hc Hin. rewrite Forall_forall in Hs. by rewrite (Hs c Hin) in Hc. Qed.

Lemma hex_value_two pre h l post b : is_byte b ->
  hexCharToValue h = Some (Z.shiftr b 4) -> hexCharToValue l = Some (Z.land b 15) ->
  hex_value (pre ++ h :: l :: post) (size pre) 2 = Some b.
Proof.
  intros Hb Hh Hl. destruct (nibbles b Hb) as (_ & _ & Hv & _). unfold hex_value. cbn [Z.eqb Pos.eqb].
  rewrite char_at_app. cbn [mbind option_bind]. rewrite Hh. cbn [mbind option_bind].
  rewrite cons_middle, app_assoc, (char_at_app' (pre ++ [h])) by (by rewrite size_app). cbn [mbind option_bind].
  rewrite Hl. cbn [mbind option_bind]. by rewrite Hv.
Qed.

Section DelimRoundTrip.
Context (up : bool) (delimiter : chars).
Context (Hne : delimiter <> []) (Hnone : Forall (fun x => hexCharToValue x = None) delimiter).

(** The next byte starts after the delimiter. *)
Lemma next_byte pre b data : is_byte b ->
  find_first_not_of (pre ++ delimiter ++ hex_loop up delimiter (b :: data)) delimiter (size pre) = size (pre ++ delimiter).
Proof.
  intros Hb. destruct (hex_byte_spec up b Hb) as (h & l & E & Hh & Hl).
  rewrite hex_loop_cons, E. cbn [app]. unfold find_first_not_of.
  apply (find_stops _ _ pre delimiter h _ (head_not_in_stops delimiter)).
  - apply Forall_forall. intros x Hx Hn. by apply Hn.
  - by apply (hex_not_in h (Z.shiftr b 4)).
Qed.

Lemma first_byte pre b data : is_byte b ->
  find_first_not_of (pre ++ hex_loop up delimiter (b :: data)) delimiter (size pre) = size pre.
Proof.
  intros Hb. destruct (hex_byte_spec up b Hb) as (h & l & E & Hh & Hl).
  rewrite hex_loop_cons, E. cbn [app]. unfold find_first_not_of.
  apply (find_here _ _ pre h _ (head_not_in_stops delimiter)). by apply (hex_not_in h (Z.shiftr b 4)).
Qed.

Lemma hex_delim_step f s start out e v : start <> npos ->
  (let e' := find_first_of s delimiter start in if e' =? npos then size s else e') = e ->
  e - start = 2 -> hex_value s start 2 = Some v ->
  hex_delim_loop s delimiter (S f) start out =
  hex_delim_loop s delimiter f (find_first_not_of s delimiter e) (out ++ [v]).
Proof.
  cbv zeta. intros Hs He Hl Hv. cbn [hex_delim_loop]. rewrite (proj2 (Z.eqb_neq _ _) Hs). cbv zeta.
  rewrite He, Hl, Hv. done.
Qed.

Lemma find_delim pre h l s rest : s = pre ++ [h; l] ++ delimiter ++ rest -> Forall (fun x => ~ x ∈ delimiter) [h; l] ->
  find_first_of s delimiter (size pre) = size (pre ++ [h; l]).
Proof.
  intros -> Hhl. clear Hnone. destruct delimiter as [|d ds]; [done|].
  apply (find_stops _ _ pre [h; l] d _ (head_in_stops _) Hhl). by left.
Qed.

(** The loop at a byte that starts at [size pre]. *)
Lemma hex_delim_decode data fuel pre s out : s = pre ++ hex_loop up delimiter data -> size s < npos ->
  data <> [] -> are_bytes data -> (length data < fuel)%nat ->
  hex_delim_loop s delimiter fuel (size pre) out = Some (out ++ data).
Proof.
  revert fuel pre out. induction data as [|b data IH]; intros fuel pre out Es Hn Hd Hb Hf; [done|].
  apply Forall_cons in Hb as [Hb Hbs]. destruct fuel as [|f]; [cbn in Hf; lia|]. cbn in Hf.
  destruct (hex_byte_spec up b Hb) as (h & l & E & Hh & Hl).
  pose proof (size_nonneg pre). assert (size pre < npos) as Hp.
  { rewrite Es, size_app in Hn. pose proof (size_nonneg (hex_loop up delimiter (b :: data))). lia. }
  rewrite hex_loop_cons, E in Es. cbn [app] in Es.
  assert (Forall (fun x => ~ x ∈ delimiter) [h; l]) as Hhl.
  { repeat constructor; [by apply (hex_not_in h (Z.shiftr b 4))|by apply (hex_not_in l (Z.land b 15))]. }
  assert (hex_value s (size pre) 2 = Some b) as Hval by (rewrite Es; by eapply hex_value_two).
  assert (size (pre ++ [h; l]) - size pre = 2) as E2 by (rewrite size_app; change (size [h; l]) with 2; lia).
  destruct data as [|b' data].
  - rewrite (hex_delim_step f s _ out (size (pre ++ [h; l])) b); [|lia| |done|done].
    + rewrite Es. unfold find_first_not_of. rewrite (find_end _ _ (pre ++ [h; l]) (head_not_in_stops delimiter)).
      destruct f; [lia|done].
    + unfold find_first_of. rewrite Es. by rewrite (find_stops_none _ _ pre [h; l] (head_in_stops delimiter) Hhl), Z.eqb_refl.
  - assert (s = (pre ++ [h; l]) ++ delimiter ++ hex_loop up delimiter (b' :: data)) as Es2 by (rewrite Es, <- app_assoc; done).
    pose proof (proj1 (proj1 (Forall_cons _ _ _) Hbs)) as Hb'.
    rewrite (hex_delim_step f s _ out (size (pre ++ [h; l])) b); [|lia| |done|done].
    + rewrite Es2 at 2. rewrite next_byte by done.
      rewrite (IH f ((pre ++ [h; l]) ++ delimiter)); [by rewrite <- app_assoc|by rewrite <- app_assoc|done|done|done|lia].
    + cbv zeta. rewrite (find_delim pre h l s (hex_loop up delimiter (b' :: data))) by done.
      rewrite (proj2 (Z.eqb_neq _ _)); [done|].
      rewrite Es2, size_app in Hn. pose proof (size_nonneg (delimiter ++ hex_loop up delimiter (b' :: data))). lia.
Qed.

End DelimRoundTrip.

Lemma hex_loop_nil_cons up b data : hex_loop up [] (b :: data) = hex_byte up b ++ hex_loop up [] data.
Proof. rewrite hex_loop_cons. by destruct data. Qed.

Lemma hex_loop_nil_size up data : size (hex_loop up [] data) = 2 * size data.
Proof.
  induction data as [|b data IH]; [done|]. rewrite hex_loop_nil_cons, size_app, IH. unfold size. cbn. lia.
Qed.

Lemma hex_plain_decode up s n data fuel pre i out : s = pre ++ hex_loop up [] data -> size s < npos ->
  size pre = 2 * i -> n = size s -> are_bytes data -> (length data < fuel)%nat ->
  hex_plain_loop s 0 n fuel i out = Some (out ++ data).
Proof.
  intros Es Hs Hp ->. revert fuel pre i out Es Hp. induction data as [|b data IH]; intros fuel pre i out Es Hp Hb Hf;
    (destruct fuel as [|f]; [cbn in Hf; lia|]); cbn [hex_plain_loop].
  - rewrite (proj2 (Z.ltb_ge _ _)); [by rewrite app_nil_r|]. rewrite Es, size_app. change (size (hex_loop up [] [])) with 0. lia.
  - apply Forall_cons in Hb as [Hb Hbs]. destruct (hex_byte_spec up b Hb) as (h & l & E & Hh & Hl).
    destruct (nibbles b Hb) as (_ & _ & _ & Hv). rewrite hex_loop_nil_cons, E in Es. cbn [app] in Es.
    pose proof (size_nonneg pre). pose proof (size_nonneg (hex_loop up [] data)).
    assert (size s = size pre + 2 + size (hex_loop up [] data)) as Hsz by (rewrite Es; unfold size; rewrite length_app; cbn; lia).
    rewrite (proj2 (Z.ltb_lt _ _)) by lia. unfold SIZE_MAX in Hs. rewrite !wrap_small by (unfold in_range; lia).
    assert (char_at s (0 + 2 * i) = Some h) as -> by (rewrite Es; apply char_at_app'; lia).
    assert (char_at s (0 + 2 * i + 1) = Some l) as ->.
    { rewrite Es, (cons_middle h), app_assoc. apply char_at_app'. rewrite size_app. change (size [h]) with 1. lia. }
    cbn [mbind option_bind]. rewrite Hh, Hl. cbn [mbind option_bind]. rewrite Hv.
    rewrite (IH f (pre ++ [h; l])); [by rewrite <- app_assoc|by rewrite Es, <- app_assoc|
      rewrite size_app; change (size [h; l]) with 2; lia|done|cbn in Hf; lia].
Qed.

Lemma not_space_tab c v : hexCharToValue c = Some v -> c ∉ space_tab.
Proof. apply hex_not_in. repeat constructor. Qed.

Lemma hex_plain_encode up data : data <> [] -> are_bytes data -> 2 * size data < npos ->
  HexStrToRawDataWithoutDelimiter (hex_loop up [] data) = Some data.
Proof.
  intros Hd Hb Hn. unfold HexStrToRawDataWithoutDelimiter. pose proof (hex_loop_nil_size up data) as Hsz.
  assert (find_first_not_of (hex_loop up [] data) space_tab 0 = 0) as ->.
  { destruct data as [|b data]; [done|]. apply Forall_cons in Hb as [Hb _].
    destruct (hex_byte_spec up b Hb) as (h & l & E & Hh & Hl). rewrite hex_loop_nil_cons, E. cbn [app].
    apply (find_here _ _ [] h _ (head_not_in_stops space_tab)), (not_space_tab h _ Hh). }
  assert (find_last_not_of (hex_loop up [] data) space_tab = size (hex_loop up [] data) - 1) as ->.
  { destruct data as [|b data _] using rev_ind; [done|]. apply Forall_app in Hb as [_ Hb].
    apply Forall_cons in Hb as [Hb _]. destruct (hex_byte_spec up b Hb) as (h & l & E & Hh & Hl).
    assert (hex_loop up [] (data ++ [b]) = (hex_loop up [] data ++ [h]) ++ [l]) as ->.
    { rewrite <- app_assoc. cbn [app]. rewrite <- E. clear. induction data as [|x data IH]; [done|].
      rewrite <- app_comm_cons, !hex_loop_nil_cons, IH. by rewrite app_assoc. }
    unfold find_last_not_of. rewrite reverse_app, size_app. change (reverse [l]) with [l]. cbn [app scan head_not_in].
    assert (is_in l space_tab = false) as -> by (apply is_in_false, (not_space_tab l _ Hl)). cbn [negb].
    change (size [l]) with 1. lia. }
  pose proof (size_nonneg data). unfold SIZE_MAX in *.
  rewrite Z.sub_add, Z.sub_0_r, !wrap_small by (unfold in_range; rewrite ?wrap_small; unfold in_range; lia).
  rewrite (hex_plain_decode up _ _ data _ [] 0 []); [done|done|unfold SIZE_MAX; lia|done|done|done|].
  unfold size in Hsz. lia.
Qed.

(** Hexadecimal round trip.  For every byte string, in both cases of the digits:
    decoding the digits without a delimiter into an area gives the bytes that fit;
    decoding into a vector gives all of them, provided there is at least one; and
    with any delimiter whose characters are not hexadecimal digits the vector
    decoder gives the bytes back. *)
Theorem hex_roundtrip (up : bool) data : are_bytes data -> 2 * size data < npos ->
  (forall out_len, HexStrToRawData (RawDataToHexStr data up []) out_len = Some (take (Z.to_nat out_len) data)) /\
  (data <> [] -> HexStrToRawDataVector (RawDataToHexStr data up []) [] = Some data) /\
  forall delimiter, delimiter <> [] -> Forall (fun c => hexCharToValue c = None) delimiter ->
    size (RawDataToHexStr data up delimiter) < npos ->
    HexStrToRawDataVector (RawDataToHexStr data up delimiter) delimiter = Some data.
Proof.
  intros Hb Hn. split; [|split].
  - intros n. by apply hex_area_encode.
  - intros Hd. by apply hex_plain_encode.
  - intros delimiter Hd Hc Hs. destruct delimiter as [|d ds] eqn:Ed; [done|]. rewrite <- Ed in *.
    assert (HexStrToRawDataVector (RawDataToHexStr data up delimiter) delimiter =
            HexStrToRawDataWithDelimiter (RawDataToHexStr data up delimiter) delimiter) as -> by (by rewrite Ed).
    unfold HexStrToRawDataWithDelimiter, RawDataToHexStr in *. destruct data as [|b data]; [done|].
    pose proof (proj1 (proj1 (Forall_cons _ _ _) Hb)) as Hb0.
    assert (find_first_not_of (hex_loop up delimiter (b :: data)) delimiter 0 = 0) as -> by (by apply (first_byte up delimiter Hc [])).
    apply (hex_delim_decode up delimiter Hd Hc (b :: data) _ []); [done|done|done|done|].
    clear -data. generalize (b :: data). intros l. induction l as [|x l IH]; [cbn; lia|].
    rewrite hex_loop_cons, length_app. cbn [hex_byte length]. destruct l; [cbn; lia|]. rewrite length_app. lia.
Qed.

Lemma hex_roundtrip_witness :
  HexStrToRawData (RawDataToHexStr [0; 171; 255] true []) 2 = Some [0; 171] /\
  HexStrToRawDataVector (RawDataToHexStr [0; 171; 255] false (str ", ")) (str ", ") = Some [0; 171; 255].
Proof.
  assert (are_bytes [0; 171; 255]) as Hb by (repeat constructor; unfold is_byte; lia).
  split.
  - exact (proj1 (hex_roundtrip true [0; 171; 255] Hb eq_refl) 2).
  - apply (proj2 (proj2 (hex_roundtrip false [0; 171; 255] Hb eq_refl)));
      [discriminate|repeat constructor|reflexivity].
Defined.

(** *** Examples *)

Example strip_spaces : Strip (str "  a b ") = Some (str "a b") /\ StripLeft (str "  a ") = Some (str "a ") /\
  StripRight (str " a  ") = Some (str " a") /\ Strip (str "  ") = Some [].
Proof. vm_compute. done. Qed.

Example replace_all : Replace 9 (str "a.b.c") (str ".") (str "..") 0 0 = Some (str "a..b..c").
Proof. by vm_compute. Qed.

Example ends : IsEndWith (str "photo.jpg") (str ".jpg") = true /\ IsStartWith (str "photo.jpg") (str "pho") = true.
Proof. by vm_compute. Qed.

(** A blank string without delimiter: [npos + 1] is 0 and the loop starts at [npos]. *)
Example hex_blank_throws : HexStrToRawDataVector (str "  ") [] = None.
Proof. by vm_compute. Qed.

Example split_empty_separator : Split (str "ab") [] = None.
Proof. by vm_compute. Qed.
