(* ===== verification/Url.v ===== *)
(** * Url: printing and parsing of URLs (http/url)

    [<scheme>://<user>:<password>@<host>:<port>/<path>;<params>?<query>#<frag>]

    The functions of [modules/http/url.cpp] on the strings of [Strings].  A
    parser works on the structure it is given and leaves what it had already
    stored in it when it fails, so each one returns its result together with
    the structure.  [isprint] is that of the C locale, which rejects the codes
    from 128 on. *)
From S2P Require Import Prelude Strings.

(** ** Percent encoding *)

Definition path_special_chars : chars := str " +&=<>" ++ [34] ++ str "#,%{}|\^[]`;?:@$".
Definition full_special_chars : chars := path_special_chars ++ str "/.".
Definition char_to_hex : chars := str "0123456789ABCDEF".

Definition isprint (c : Z) : bool := (32 <=? c) && (c <=? 126).

(** The digit for [i < 16]. *)
Definition hex_of (i : Z) : Z := default 0 (index char_to_hex i).

Definition encode_char (special_chars : chars) (c : Z) : chars :=
  if negb (find special_chars [c] 0 =? npos) || negb (isprint c)
  then [37 (* % *); hex_of (Z.shiftr c 4); hex_of (Z.land c 15)]
  else [c].

Definition UrlEncode (local_str : chars) (path_mode : bool) : chars :=
  flat_map (encode_char (if path_mode then path_special_chars else full_special_chars)) local_str.

Inductive decode_state := dNone | dStart | dHalfHex.

(** [None]: [std::out_of_range] of [HexCharToValue]. *)
Fixpoint decode_loop (url_str : chars) (state : decode_state) (tmp : Z) (local_str : chars) : option chars :=
  match url_str with
  | [] => Some local_str
  | c :: rest =>
      match state with
      | dNone =>
          if c =? 37 then decode_loop rest dStart 0 local_str
          else decode_loop rest dNone tmp (local_str ++ [c])
      | dStart => v ← hexCharToValue c; decode_loop rest dHalfHex (u8 (Z.shiftl v 4)) local_str
      | dHalfHex => v ← hexCharToValue c; decode_loop rest dNone (Z.lor tmp v) (local_str ++ [Z.lor tmp v])
      end
  end.

Definition UrlDecode (url_str : chars) : option chars := decode_loop url_str dNone 0 [].

(** ** The structure *)

Record UrlHost := mkHost { h_user : chars; h_password : chars; h_host : chars; h_port : Z }.
Record UrlPath := mkPath { p_path : chars; p_params : StringMap; p_query : StringMap; p_frag : chars }.
Record Url := mkUrl { scheme : chars; host : UrlHost; path : UrlPath }.

Definition no_host := mkHost [] [] [] 0.
Definition no_path := mkPath [] [] [] [].
Definition no_url := mkUrl [] no_host no_path.

Definition is_empty (s : chars) : bool := match s with [] => true | _ => false end.

(** ** Printing *)

Definition UrlHostToString (h : UrlHost) : chars :=
  (if is_empty (h_user h) then []
   else h_user h ++ (if is_empty (h_password h) then [] else str ":" ++ h_password h) ++ str "@") ++
  h_host h ++ (if h_port h =? 0 then [] else str ":" ++ to_string (h_port h)).

Definition print_kv (item : chars * chars) : chars := UrlEncode item.1 false ++ str "=" ++ UrlEncode item.2 false.

Fixpoint print_params (m : StringMap) : chars :=
  match m with [] => [] | item :: m' => str ";" ++ print_kv item ++ print_params m' end.

Fixpoint print_query (not_first : bool) (m : StringMap) : chars :=
  match m with
  | [] => []
  | item :: m' => (if not_first then str "&" else []) ++ print_kv item ++ print_query true m'
  end.

Definition UrlPathToString (p : UrlPath) : chars :=
  UrlEncode (p_path p) true ++ print_params (p_params p) ++
  (match p_query p with [] => [] | m => str "?" ++ print_query false m end) ++
  (if is_empty (p_frag p) then [] else str "#" ++ p_frag p).

Definition UrlToString (u : Url) : chars :=
  (if is_empty (scheme u) then [] else scheme u ++ str "://") ++
  UrlHostToString (host u) ++ UrlPathToString (path u).

(** ** Parsing *)

Definition set_user (u pw : chars) (h : UrlHost) := mkHost u pw (h_host h) (h_port h).
Definition set_host (x : chars) (h : UrlHost) := mkHost (h_user h) (h_password h) x (h_port h).
Definition set_port (n : Z) (h : UrlHost) := mkHost (h_user h) (h_password h) (h_host h) n.

(** [UrlDecode(str.substr(pos, n))] *)
Definition decode_sub (s : chars) (pos n : Z) : option chars := x ← substr s pos n; UrlDecode x.

(** A position kept in an [int], as [host_start_pose] is. *)
Definition int_pos (pos : Z) : Z := u64 (to_signed 32 (u32 pos)).

(** The user and the password, and where the host starts. *)
Definition parse_user (s : chars) (h : UrlHost) : UrlHost * option Z :=
  let at_pos := find_first_of s (str "@") 0 in
  if at_pos =? npos then (h, Some 0)
  else
    let colon_pos := find_first_of s (str ":") 0 in
    if (colon_pos =? npos) || (at_pos <? colon_pos) then
      match decode_sub s 0 at_pos with
      | Some u => (set_user u [] h, Some (int_pos (at_pos + 1)))
      | None => (h, None)
      end
    else
      match decode_sub s 0 colon_pos with
      | None => (h, None)
      | Some u =>
          match decode_sub s (colon_pos + 1) (u64 (at_pos - colon_pos - 1)) with
          | Some pw => (set_user u pw h, Some (int_pos (at_pos + 1)))
          | None => (set_user u (h_password h) h, None)
          end
      end.

Definition StringToUrlHost (s : chars) (h : UrlHost) : bool * UrlHost :=
  match parse_user s h with
  | (h, None) => (false, h)
  | (h, Some host_start_pos) =>
      let colon_pos := find_first_of s (str ":") host_start_pos in
      if colon_pos =? npos then
        match decode_sub s host_start_pos npos with
        | Some x => (true, set_port 0 (set_host x h))
        | None => (false, h)
        end
      else
        match decode_sub s host_start_pos (u64 (colon_pos - host_start_pos)) with
        | None => (false, h)
        | Some x =>
            match (n ← substr s (colon_pos + 1) npos; stoi n) with
            | Some n => (true, set_port (u16 n) (set_host x h))
            | None => (false, set_host x h)
            end
        end
  end.

(** The loop over [k=v] items. *)
Fixpoint kv_loop (items : list chars) (m : StringMap) : bool * StringMap :=
  match items with
  | [] => (true, m)
  | item :: items' =>
      match Split item (str "=") with
      | Some [k; v] =>
          if is_empty k then (false, m)
          else
            match UrlDecode v, UrlDecode k with
            | Some v', Some k' => kv_loop items' (map_set k' v' m)
            | _, _ => (false, m)
            end
      | _ => (false, m)
      end
  end.

(** The items of [str.substr(pos, n)] between the separators. *)
Definition parse_items (s : chars) (pos n : Z) (sep : chars) (m : StringMap) : bool * StringMap :=
  match (x ← substr s pos n; Split x sep) with
  | Some items => kv_loop items m
  | None => (false, m)
  end.

Definition set_path (x : chars) (p : UrlPath) := mkPath x (p_params p) (p_query p) (p_frag p).
Definition set_params (m : StringMap) (p : UrlPath) := mkPath (p_path p) m (p_query p) (p_frag p).
Definition set_query (m : StringMap) (p : UrlPath) := mkPath (p_path p) (p_params p) m (p_frag p).
Definition set_frag (x : chars) (p : UrlPath) := mkPath (p_path p) (p_params p) (p_query p) x.

(** The first of the positions that was found. *)
Definition first_found (l : list Z) : Z :=
  match filter (fun p => p <> npos) l with p :: _ => p | [] => npos end.

Definition parse_params (s : chars) (semi_pos query_pos pound_pos : Z) (p : UrlPath) : bool * UrlPath :=
  if semi_pos =? npos then (true, p)
  else
    let params_end_pos := first_found [query_pos; pound_pos] in
    let '(ok, m) := parse_items s (semi_pos + 1) (u64 (params_end_pos - semi_pos - 1)) (str ";") (p_params p) in
    (ok, set_params m p).

Definition parse_query (s : chars) (query_pos pound_pos : Z) (p : UrlPath) : bool * UrlPath :=
  if query_pos =? npos then (true, p)
  else
    let '(ok, m) := parse_items s (query_pos + 1) (u64 (pound_pos - query_pos - 1)) (str "&") (p_query p) in
    (ok, set_query m p).

Definition parse_frag (s : chars) (pound_pos : Z) (p : UrlPath) : bool * UrlPath :=
  if pound_pos =? npos then (true, p)
  else match decode_sub s (pound_pos + 1) npos with
       | Some x => (true, set_frag x p)
       | None => (false, p)
       end.

Definition and_then {A} (r : bool * A) (f : A -> bool * A) : bool * A :=
  if r.1 then f r.2 else r.

Definition StringToUrlPath (s : chars) (p : UrlPath) : bool * UrlPath :=
  match s with
  | 47 (* / *) :: _ =>
      let semi_pos := find_first_of s (str ";") 0 in
      let query_pos := find_first_of s (str "?") 0 in
      let pound_pos := find_first_of s (str "#") 0 in
      let path_end_pos := first_found [semi_pos; query_pos; pound_pos] in
      match decode_sub s 0 path_end_pos with
      | None => (false, p)
      | Some x =>
          and_then (parse_params s semi_pos query_pos pound_pos (set_path x p)) (fun p =>
          and_then (parse_query s query_pos pound_pos p) (fun p =>
          parse_frag s pound_pos p))
      end
  | _ => (false, p)
  end.

(** [None]: an exception outside of the two parsers. *)
Definition StringToUrl (s : chars) (u : Url) : option (bool * Url) :=
  let pos := find s (str "://") 0 in
  '(u, pos) ← (if pos =? npos then Some (u, 0)
               else x ← substr s 0 pos; Some (mkUrl x (host u) (path u), pos + 3));
  let path_start_pos := find_first_of s (str "/") pos in
  '(host_str, path_str) ←
    (if path_start_pos =? npos then h ← substr s pos npos; Some (h, str "/")
     else h ← substr s pos (u64 (path_start_pos - pos)); p ← substr s path_start_pos npos; Some (h, p));
  let '(ok, h) := StringToUrlHost host_str (host u) in
  if (ok : bool) then
    let '(ok, p) := StringToUrlPath path_str (path u) in
    Some (ok, mkUrl (scheme u) h p)
  else Some (false, mkUrl (scheme u) h (path u)).

(** ** Encoding and decoding *)

Ltac in_list := apply is_in_true; reflexivity.

Definition specials (path_mode : bool) : chars := if path_mode then path_special_chars else full_special_chars.

Lemma encode_char_cases mode c : is_byte c ->
  (encode_char (specials mode) c = [c] /\ c <> 37) \/
  encode_char (specials mode) c = [37; hex_of (Z.shiftr c 4); hex_of (Z.land c 15)].
Proof.
  intros Hc. unfold encode_char. destruct (_ || _) eqn:E; [by right|left]. split; [done|]. intros ->. by destruct mode.
Qed.

(** Only printable characters come out, and of the special ones only the percent sign. *)
Lemma encode_char_clean mode c : is_byte c ->
  Forall (fun x => isprint x = true /\ (x = 37 \/ x ∉ specials mode)) (encode_char (specials mode) c).
Proof.
  intros Hc. apply (byte_forallb (fun c => forallb (fun x => isprint x && ((x =? 37) || negb (is_in x (specials mode))))
    (encode_char (specials mode) c))) in Hc; [|destruct mode; by vm_compute].
  rewrite forallb_forall in Hc. apply Forall_forall. intros x Hx. apply list_elem_of_In in Hx.
  specialize (Hc x Hx). rewrite andb_true_iff, orb_true_iff, Z.eqb_eq, negb_true_iff, is_in_false in Hc. done.
Qed.

Lemma hex_of_value v : 0 <= v < 16 -> hexCharToValue (hex_of v) = Some v.
Proof.
  intros Hv. apply (range_forallb 16 (fun v => bool_decide (hexCharToValue (hex_of v) = Some v))) in Hv; [|by vm_compute].
  by apply bool_decide_eq_true in Hv.
Qed.

Lemma encode_clean mode s : are_bytes s ->
  Forall (fun x => isprint x = true /\ (x = 37 \/ x ∉ specials mode)) (UrlEncode s mode).
Proof.
  unfold UrlEncode. fold (specials mode). induction 1 as [|c s Hc Hs IH]; [by apply Forall_nil|].
  cbn. apply Forall_app. split; [by apply encode_char_clean|done].
Qed.

Lemma encode_not_in mode s x : are_bytes s -> x ∈ specials mode -> x <> 37 -> x ∉ UrlEncode s mode.
Proof.
  intros Hs Hx Hp Hin. pose proof (encode_clean mode s Hs) as H. rewrite Forall_forall in H.
  destruct (H x Hin) as (_ & [?|?]); done.
Qed.

Lemma decode_char mode c rest tmp out : is_byte c ->
  exists tmp', decode_loop (encode_char (specials mode) c ++ rest) dNone tmp out = decode_loop rest dNone tmp' (out ++ [c]).
Proof.
  intros Hc. destruct (nibbles c Hc) as (H1 & H2 & H3 & _).
  destruct (encode_char_cases mode c Hc) as [[-> Hp]| ->]; cbn [app decode_loop].
  - rewrite (proj2 (Z.eqb_neq _ _) Hp). by exists tmp.
  - cbn [Z.eqb Pos.eqb]. rewrite !hex_of_value by done. cbn [mbind option_bind]. rewrite H3. by eexists.
Qed.

Lemma decode_encode mode s rest tmp out : are_bytes s ->
  exists tmp', decode_loop (UrlEncode s mode ++ rest) dNone tmp out = decode_loop rest dNone tmp' (out ++ s).
Proof.
  unfold UrlEncode. fold (specials mode). intros Hs. revert tmp out.
  induction Hs as [|c s Hc Hs IH]; intros tmp out; [exists tmp; by rewrite app_nil_r|].
  cbn [flat_map]. rewrite <- app_assoc. destruct (decode_char mode c (flat_map (encode_char (specials mode)) s ++ rest) tmp out Hc) as [t1 ->].
  destruct (IH t1 (out ++ [c])) as [t2 ->]. exists t2. by rewrite <- app_assoc.
Qed.

Lemma decode_encoded mode s : are_bytes s -> UrlDecode (UrlEncode s mode) = Some s.
Proof.
  intros Hs. unfold UrlDecode. destruct (decode_encode mode s [] 0 [] Hs) as [t E]. rewrite app_nil_r in E. by rewrite E.
Qed.

(** Text without a percent sign is what it stands for. *)
Lemma decode_plain s : 37 ∉ s -> UrlDecode s = Some s.
Proof.
  unfold UrlDecode. change (Some s) with (Some ([] ++ s)). generalize 0, ([] : chars).
  induction s as [|c s IH]; intros tmp out H; [by rewrite app_nil_r|]. apply not_elem_of_cons in H as [H1 H2].
  cbn [decode_loop]. rewrite (proj2 (Z.eqb_neq _ _)) by done. rewrite IH by done. by rewrite <- app_assoc.
Qed.

(** The percent encoding is a round trip.  For every byte string, in both modes,
    decoding the encoded text gives the string back; and the encoded text holds
    printable characters only, none of the reserved ones except the percent sign. *)
Theorem encoding_roundtrip (path_mode : bool) s : are_bytes s ->
  UrlDecode (UrlEncode s path_mode) = Some s /\
  Forall (fun c => isprint c = true /\ (c = 37 \/ c ∉ specials path_mode)) (UrlEncode s path_mode).
Proof. intros Hs. split; [by apply decode_encoded|by apply encode_clean]. Qed.

Lemma encoding_roundtrip_witness : UrlDecode (UrlEncode [47; 37; 255; 0] true) = Some [47; 37; 255; 0].
Proof.
  apply (encoding_roundtrip true [47; 37; 255; 0]). repeat constructor; unfold is_byte; lia.
Defined.

(** ** The parts of a path *)

Lemma is_empty_true s : is_empty s = true <-> s = [].
Proof. by destruct s. Qed.

Lemma find_in c A B : c ∉ A -> find_first_of (A ++ c :: B) [c] 0 = size A.
Proof.
  intros H. apply (find_stops _ _ [] A c B (head_in_stops [c])); [|by left].
  apply Forall_forall. intros x Hx Hc. apply list_elem_of_singleton in Hc as ->. done.
Qed.

Lemma find_not_in c A : c ∉ A -> find_first_of A [c] 0 = npos.
Proof.
  intros H. apply (find_stops_none _ _ [] A (head_in_stops [c])).
  apply Forall_forall. intros x Hx Hc. apply list_elem_of_singleton in Hc as ->. done.
Qed.

(** A part [B] that begins with [c], between [A] and the rest; or no such part. *)
Definition begins (c : Z) (B rest : chars) : Prop :=
  (exists B', B = c :: B') \/ (B = [] /\ c ∉ rest).

Lemma find_part c A B rest : c ∉ A -> begins c B rest ->
  find_first_of (A ++ B ++ rest) [c] 0 = if is_empty B then npos else size A.
Proof.
  intros HA [[B' ->]|[-> HB]]; [by apply find_in|]. apply find_not_in. apply not_elem_of_app. done.
Qed.

(** Where the part [mid] ends, as the code computes it. *)
Lemma sub_part pre mid post e : size (pre ++ mid ++ post) < npos ->
  e = (if is_empty post then npos else size (pre ++ mid)) ->
  substr (pre ++ mid ++ post) (size pre) (u64 (e - size pre)) = Some mid.
Proof.
  intros Hn ->. rewrite app_assoc, size_app in Hn. pose proof (size_nonneg post). destruct post as [|c post].
  - rewrite app_nil_r. apply substr_rest, span_rest. lia.
  - apply substr_app. cbn [is_empty]. apply span_len. lia.
Qed.

Lemma first_found_cons p l : p <> npos -> first_found (p :: l) = p.
Proof. intros H. unfold first_found. by rewrite filter_cons_True. Qed.
Lemma first_found_npos l : first_found (npos :: l) = first_found l.
Proof. unfold first_found. rewrite filter_cons_False; [done|]. by intros []. Qed.

(** ** Key-value items *)

Definition item_ok (kv : chars * chars) : bool :=
  negb (is_empty kv.1) && forallb (fun c => (0 <=? c) && (c <? 256)) kv.1 && forallb (fun c => (0 <=? c) && (c <? 256)) kv.2.

Lemma bytes_b s : forallb (fun c => (0 <=? c) && (c <? 256)) s = true <-> are_bytes s.
Proof.
  rewrite forallb_forall, Forall_forall. split; intros H x Hx; [apply list_elem_of_In in Hx|apply list_elem_of_In in Hx];
    specialize (H x Hx); unfold is_byte in *; lia.
Qed.

Lemma item_ok_spec kv : item_ok kv = true -> kv.1 <> [] /\ are_bytes kv.1 /\ are_bytes kv.2.
Proof.
  unfold item_ok. rewrite !andb_true_iff, !bytes_b, negb_true_iff. intros [[H1 H2] H3]. split; [|done]. intros E. by rewrite E in H1.
Qed.

Lemma print_params_join m : m <> [] -> print_params m = 59 :: Join (map print_kv m) [59].
Proof.
  assert (forall m, print_params m = join_loop [59] true (map print_kv m)) as H.
  { induction m0 as [|kv m0 IH]; [done|]. cbn. by rewrite IH. }
  intros Hm. rewrite H, join_true by (by destruct m). done.
Qed.

Lemma print_query_join m : print_query false m = Join (map print_kv m) [38].
Proof. unfold Join. generalize false. induction m as [|kv m IH]; intros b; [done|]. cbn. by rewrite IH. Qed.

Lemma print_kv_not_in kv x : item_ok kv = true -> x ∈ full_special_chars -> x <> 37 -> x <> 61 -> x ∉ print_kv kv.
Proof.
  intros Hi Hx H1 H2. destruct (item_ok_spec kv Hi) as (_ & Hk & Hv). unfold print_kv. rewrite !not_elem_of_app.
  split; [by apply (encode_not_in false)|]. split; [|by apply (encode_not_in false)].
  intros H. apply list_elem_of_singleton in H. done.
Qed.

Lemma split_kv kv : item_ok kv = true -> size (print_kv kv) < npos ->
  Split (print_kv kv) (str "=") = Some [UrlEncode kv.1 false; UrlEncode kv.2 false].
Proof.
  intros Hi Hn. destruct (item_ok_spec kv Hi) as (_ & Hk & Hv).
  assert (print_kv kv = Join [UrlEncode kv.1 false; UrlEncode kv.2 false] [61]) as E
    by (unfold print_kv, Join; cbn; by rewrite app_nil_r).
  rewrite E in *. apply split_join_parts; [done| |done].
  repeat constructor; (apply (encode_not_in false); [done|in_list|done]).
Qed.

Lemma encode_nonempty s mode : s <> [] -> are_bytes s -> is_empty (UrlEncode s mode) = false.
Proof.
  intros Hs Hb. destruct (UrlEncode s mode) eqn:E; [|done]. pose proof (decode_encoded mode s Hb) as H.
  rewrite E in H. injection H as <-. done.
Qed.

Lemma kv_loop_printed m m0 : forallb item_ok m = true -> sorted_keys (m0 ++ m) = true ->
  Forall (fun kv => size (print_kv kv) < npos) m -> kv_loop (map print_kv m) m0 = (true, m0 ++ m).
Proof.
  revert m0. induction m as [|[k v] m IH]; intros m0 Hi Hs Hn; [by rewrite app_nil_r|].
  cbn in Hi. apply andb_true_iff in Hi as [Hi His]. apply Forall_cons in Hn as [Hn Hns].
  destruct (item_ok_spec _ Hi) as (Hne & Hk & Hv). cbn [fst snd] in *.
  cbn [map kv_loop]. rewrite split_kv by done. cbn [fst snd].
  rewrite encode_nonempty, !decode_encoded by done. rewrite map_set_last by (by apply (sorted_before _ k v m)).
  rewrite IH; [by rewrite <- app_assoc|done|by rewrite <- app_assoc|done].
Qed.

Lemma part_sizes (l : list chars) sep x : x ∈ l -> size x <= size (Join l sep).
Proof.
  unfold Join. generalize false. induction l as [|y l IH]; intros b H; [by apply not_elem_of_nil in H|].
  cbn. rewrite !size_app. pose proof (size_nonneg (join_loop sep true l)). pose proof (size_nonneg y).
  pose proof (size_nonneg (if b then sep else [])). apply elem_of_cons in H as [->|H]; [lia|]. specialize (IH true H). lia.
Qed.

(** The items of a printed map are parsed into it. *)
Lemma parse_items_printed pre post e c m : m <> [] -> size (pre ++ Join (map print_kv m) [c] ++ post) < npos ->
  e = (if is_empty post then npos else size (pre ++ Join (map print_kv m) [c])) ->
  c ∈ full_special_chars -> c <> 37 -> c <> 61 -> forallb item_ok m = true -> sorted_keys m = true ->
  parse_items (pre ++ Join (map print_kv m) [c] ++ post) (size pre) (u64 (e - size pre)) [c] [] = (true, m).
Proof.
  intros Hm Hn He Hc H1 H2 Hi Hs. unfold parse_items. rewrite (sub_part _ _ _ _ Hn He). cbn [mbind option_bind].
  rewrite !size_app in Hn. pose proof (size_nonneg pre). pose proof (size_nonneg post).
  rewrite split_join_parts; [|by destruct m| |lia].
  - apply (kv_loop_printed m []); [done|done|]. apply Forall_forall. intros kv Hkv.
    pose proof (part_sizes (map print_kv m) [c] (print_kv kv) ltac:(by apply list_elem_of_fmap_2)). lia.
  - apply Forall_fmap, Forall_forall. intros kv Hkv. rewrite forallb_forall in Hi.
    apply print_kv_not_in; [by apply Hi, list_elem_of_In|done..].
Qed.

Lemma parse_items_part pre x post c m : m <> [] -> size (pre ++ (x :: Join (map print_kv m) [c]) ++ post) < npos ->
  c ∈ full_special_chars -> c <> 37 -> c <> 61 -> forallb item_ok m = true -> sorted_keys m = true ->
  parse_items (pre ++ (x :: Join (map print_kv m) [c]) ++ post) (size pre + 1)
    (u64 ((if is_empty post then npos else size (pre ++ x :: Join (map print_kv m) [c])) - size pre - 1)) [c] [] = (true, m).
Proof.
  intros Hm Hn Hc H1 H2 Hi Hs.
  assert (size pre + 1 = size (pre ++ [x])) as Es by (by rewrite size_app).
  assert (forall t, pre ++ (x :: Join (map print_kv m) [c]) ++ t = (pre ++ [x]) ++ Join (map print_kv m) [c] ++ t) as Et
    by (intros t; by rewrite <- app_assoc).
  rewrite Et in *. rewrite <- Z.sub_add_distr, Es. apply parse_items_printed; try done.
  rewrite <- (app_nil_r (x :: _)), Et, app_nil_r. done.
Qed.

(** ** The round trip of a path *)

Definition text_query (p : UrlPath) : chars := match p_query p with [] => [] | m => str "?" ++ print_query false m end.
Definition text_frag (p : UrlPath) : chars := if is_empty (p_frag p) then [] else str "#" ++ p_frag p.

(** Paths that the parser can produce from printed text: the fragment is printed as it is. *)
Record path_ok (p : UrlPath) : Prop := {
  ok_slash : exists r, p_path p = 47 :: r;
  ok_path : are_bytes (p_path p);
  ok_params : forallb item_ok (p_params p) = true;
  ok_params_sorted : sorted_keys (p_params p) = true;
  ok_query : forallb item_ok (p_query p) = true;
  ok_query_sorted : sorted_keys (p_query p) = true;
  ok_frag : Forall (fun c => c ∉ [37; 59; 63]) (p_frag p)
}.

Lemma path_text p : UrlPathToString p = UrlEncode (p_path p) true ++ print_params (p_params p) ++ text_query p ++ text_frag p.
Proof. done. Qed.

Section PathText.
Context (p : UrlPath) (Hp : path_ok p).
Let A := UrlEncode (p_path p) true.
Let B := print_params (p_params p).
Let C := text_query p.
Let D := text_frag p.

Lemma items_not_in m x sep : forallb item_ok m = true -> x ∈ full_special_chars -> x <> 37 -> x <> 61 -> x <> sep ->
  x ∉ Join (map print_kv m) [sep].
Proof.
  intros Hi Hx H1 H2 Hs. unfold Join. generalize false. induction m as [|kv m IH]; intros b H; [by apply not_elem_of_nil in H|].
  cbn in Hi, H. apply andb_true_iff in Hi as [Hi His]. rewrite !elem_of_app in H. destruct H as [H|[H|H]].
  - destruct b; [|by apply not_elem_of_nil in H]. by apply list_elem_of_singleton in H.
  - by apply (print_kv_not_in kv x) in H.
  - by apply (IH His true).
Qed.

Lemma params_not_in x : x ∈ full_special_chars -> x <> 37 -> x <> 61 -> x <> 59 -> x ∉ B.
Proof.
  intros Hx H1 H2 H3. unfold B. destruct (p_params p) as [|kv m] eqn:E; [apply not_elem_of_nil|].
  rewrite print_params_join, <- E by done. apply not_elem_of_cons. split; [done|]. apply items_not_in; [apply Hp|done..].
Qed.

Lemma query_not_in x : x ∈ full_special_chars -> x <> 37 -> x <> 61 -> x <> 38 -> x <> 63 -> x ∉ C.
Proof.
  intros Hx H1 H2 H3 H4. unfold C, text_query. destruct (p_query p) as [|kv m] eqn:E; [apply not_elem_of_nil|].
  rewrite print_query_join, <- E. apply not_elem_of_cons. split; [done|]. apply items_not_in; [apply Hp|done..].
Qed.

Lemma frag_not_in x : x ∈ [59; 63] -> x ∉ D.
Proof.
  intros Hx H. unfold D, text_frag in H. destruct (is_empty (p_frag p)); [by apply not_elem_of_nil in H|].
  apply elem_of_cons in H as [->|H]; [by vm_compute in Hx; set_solver|].
  pose proof (ok_frag p Hp) as Hf. rewrite Forall_forall in Hf. apply (Hf x H). set_solver.
Qed.

Lemma path_not_in x : x ∈ path_special_chars -> x <> 37 -> x ∉ A.
Proof. intros. apply (encode_not_in true); [apply Hp|done..]. Qed.

Lemma semi_found : find_first_of (A ++ B ++ C ++ D) [59] 0 = if is_empty B then npos else size A.
Proof.
  apply find_part; [apply path_not_in; [in_list|done]|]. unfold begins, B. destruct (p_params p) as [|kv m].
  - right. split; [done|]. apply not_elem_of_app. split; [apply query_not_in; [in_list|done..]|apply frag_not_in; set_solver].
  - left. rewrite print_params_join by done. by eexists.
Qed.

Lemma query_found : find_first_of (A ++ B ++ C ++ D) [63] 0 = if is_empty C then npos else size (A ++ B).
Proof.
  rewrite (app_assoc A). apply find_part.
  - apply not_elem_of_app. split; [apply path_not_in; [in_list|done]|apply params_not_in; [in_list|done..]].
  - unfold begins, C, text_query. destruct (p_query p) as [|kv m].
    + right. split; [done|]. apply frag_not_in. set_solver.
    + left. by eexists.
Qed.

Lemma pound_found : find_first_of (A ++ B ++ C ++ D) [35] 0 = if is_empty D then npos else size (A ++ B ++ C).
Proof.
  rewrite (app_assoc A), (app_assoc (A ++ B)), <- (app_assoc A B C), <- (app_nil_r D) at 1. apply find_part.
  - rewrite !not_elem_of_app. split; [apply path_not_in; [in_list|done]|].
    split; [apply params_not_in; [in_list|done..]|apply query_not_in; [in_list|done..]].
  - unfold begins, D, text_frag. destruct (is_empty (p_frag p)); [right; split; [done|apply not_elem_of_nil]|left; by eexists].
Qed.

Context (Hn : size (A ++ B ++ C ++ D) < npos).

Lemma sizes_ne : size A <> npos /\ size (A ++ B) <> npos /\ size (A ++ B ++ C) <> npos.
Proof.
  rewrite !size_app in *. pose proof (size_nonneg B). pose proof (size_nonneg C). pose proof (size_nonneg D). lia.
Qed.

Lemma first_of_three :
  first_found [if is_empty B then npos else size A; if is_empty C then npos else size (A ++ B);
               if is_empty D then npos else size (A ++ B ++ C)] = if is_empty (B ++ C ++ D) then npos else size A.
Proof.
  destruct sizes_ne as (H1 & H2 & H3). destruct B as [|b B']; cbn [is_empty app]; [|by apply first_found_cons].
  rewrite first_found_npos, app_nil_r in *. cbn [app] in *. destruct C as [|c C']; cbn [is_empty app]; [|by apply first_found_cons].
  rewrite first_found_npos, app_nil_r in *. destruct D as [|d D']; cbn [is_empty]; [done|by apply first_found_cons].
Qed.

Lemma first_of_two :
  first_found [if is_empty C then npos else size (A ++ B); if is_empty D then npos else size (A ++ B ++ C)] =
  if is_empty (C ++ D) then npos else size (A ++ B).
Proof.
  destruct sizes_ne as (H1 & H2 & H3). destruct C as [|c C']; cbn [is_empty app]; [|by apply first_found_cons].
  rewrite first_found_npos, app_nil_r in *. destruct D as [|d D']; cbn [is_empty]; [done|by apply first_found_cons].
Qed.

Lemma path_decoded : decode_sub (A ++ B ++ C ++ D) 0 (if is_empty (B ++ C ++ D) then npos else size A) = Some (p_path p).
Proof.
  unfold decode_sub. assert (substr (A ++ B ++ C ++ D) 0 (if is_empty (B ++ C ++ D) then npos else size A) = Some A) as ->.
  - destruct (is_empty (B ++ C ++ D)) eqn:E.
    + apply is_empty_true in E. rewrite E, app_nil_r in *. apply (substr_rest [] A). lia.
    + by apply (substr_app [] A).
  - apply (decode_encoded true), Hp.
Qed.

Lemma params_parsed q : p_params q = [] ->
  parse_params (A ++ B ++ C ++ D) (if is_empty B then npos else size A) (if is_empty C then npos else size (A ++ B))
    (if is_empty D then npos else size (A ++ B ++ C)) q = (true, set_params (p_params p) q).
Proof.
  intros Hq. unfold parse_params. destruct (decide (p_params p = [])) as [E|E].
  - assert (B = []) as -> by (unfold B; by rewrite E). cbn. rewrite E, <- Hq. by destruct q.
  - assert (B = 59 :: Join (map print_kv (p_params p)) [59]) as EB by (unfold B; by rewrite print_params_join).
    assert (is_empty B = false) as -> by (by rewrite EB). rewrite (proj2 (Z.eqb_neq _ _)) by apply sizes_ne.
    rewrite first_of_two. rewrite EB in *. change (str ";") with [59].
    rewrite Hq, parse_items_part; [done|done|done|in_list|done|done|apply Hp|apply Hp].
Qed.

Lemma query_parsed q : p_query q = [] ->
  parse_query (A ++ B ++ C ++ D) (if is_empty C then npos else size (A ++ B))
    (if is_empty D then npos else size (A ++ B ++ C)) q = (true, set_query (p_query p) q).
Proof.
  intros Hq. unfold parse_query. destruct (decide (p_query p = [])) as [E|E].
  - assert (C = []) as -> by (unfold C, text_query; by rewrite E). cbn. rewrite E, <- Hq. by destruct q.
  - assert (C = 63 :: Join (map print_kv (p_query p)) [38]) as EC
      by (unfold C, text_query; destruct (p_query p); [done|by rewrite print_query_join]).
    assert (is_empty C = false) as -> by (by rewrite EC). rewrite (proj2 (Z.eqb_neq _ _)) by apply sizes_ne.
    rewrite EC in *. change (str "&") with [38]. rewrite !(app_assoc A) in *.
    rewrite Hq, parse_items_part; [done|done|done|in_list|done|done|apply Hp|apply Hp].
Qed.

Lemma frag_parsed q : p_frag q = [] ->
  parse_frag (A ++ B ++ C ++ D) (if is_empty D then npos else size (A ++ B ++ C)) q = (true, set_frag (p_frag p) q).
Proof.
  intros Hq. unfold parse_frag. destruct (is_empty (p_frag p)) eqn:E.
  - assert (D = []) as -> by (unfold D, text_frag; by rewrite E). cbn. apply is_empty_true in E. rewrite E, <- Hq. by destruct q.
  - assert (D = 35 :: p_frag p) as ED by (unfold D, text_frag; by rewrite E).
    assert (is_empty D = false) as -> by (by rewrite ED). rewrite (proj2 (Z.eqb_neq _ _)) by apply sizes_ne.
    rewrite ED in *. assert (size (A ++ B ++ C) + 1 = size ((A ++ B ++ C) ++ [35])) as -> by (by rewrite (size_app (A ++ B ++ C))).
    rewrite (app_assoc A), (app_assoc (A ++ B)), <- (app_assoc A B C) in *. rewrite (cons_middle 35), app_assoc in *.
    unfold decode_sub. rewrite substr_rest.
    + cbn [mbind option_bind]. rewrite decode_plain; [done|]. intros H. pose proof (ok_frag p Hp) as Hf.
      rewrite Forall_forall in Hf. apply (Hf 37 H). by left.
    + rewrite size_app in Hn. pose proof (size_nonneg ((A ++ B ++ C) ++ [35])). lia.
Qed.

Lemma path_parsed : StringToUrlPath (A ++ B ++ C ++ D) no_path = (true, p).
Proof.
  assert (exists t, A ++ B ++ C ++ D = 47 :: t) as [t Et].
  { destruct (ok_slash p Hp) as [r Er]. unfold A. rewrite Er. by eexists. }
  unfold StringToUrlPath. rewrite Et at 1. cbv zeta.
  change (str ";") with [59]. change (str "?") with [63]. change (str "#") with [35].
  rewrite semi_found, query_found, pound_found, first_of_three, path_decoded by done.
  rewrite params_parsed by done. unfold and_then. cbn [fst snd]. rewrite query_parsed by done. cbn [fst snd].
  rewrite frag_parsed by done. by destruct p.
Qed.
End PathText.

(** ** The round trip of a host *)

Lemma find_from pre c A B rest : c ∉ A -> begins c B rest ->
  find_first_of (pre ++ A ++ B ++ rest) [c] (size pre) = if is_empty B then npos else size (pre ++ A).
Proof.
  intros HA HB. assert (Forall (fun x => ~ x ∈ [c]) A) as HF.
  { apply Forall_forall. intros x Hx Hc. by apply list_elem_of_singleton in Hc as ->. }
  destruct HB as [[B' ->]|[-> HB]].
  - apply (find_stops _ _ pre A c _ (head_in_stops [c])); [done|by left].
  - apply (find_stops_none _ _ pre _ (head_in_stops [c])). apply Forall_app. split; [done|].
    apply Forall_forall. intros x Hx Hc. by apply list_elem_of_singleton in Hc as ->.
Qed.

(** Hosts that are printed without loss: the code prints the names as they are. *)
Definition name_ok (s : chars) : Prop := Forall (fun c => c ∉ [37; 47; 58; 64]) s.

Record host_ok (h : UrlHost) : Prop := {
  ok_user : name_ok (h_user h);
  ok_password : name_ok (h_password h);
  ok_host : name_ok (h_host h);
  ok_user_password : h_user h = [] -> h_password h = [];
  ok_port : 0 <= h_port h < 2 ^ 16
}.

Lemma name_not_in s x : name_ok s -> x ∈ [37; 47; 58; 64] -> x ∉ s.
Proof. intros H Hx Hin. unfold name_ok in H. rewrite Forall_forall in H. by apply (H x Hin). Qed.

Lemma digits_not_in n x : 0 <= n -> isdigit x = false -> x ∉ to_string n.
Proof.
  intros Hn Hx Hin. pose proof (to_string_digits n Hn) as H. rewrite Forall_forall in H. by rewrite (H x Hin) in Hx.
Qed.

Definition text_user (h : UrlHost) : chars :=
  if is_empty (h_user h) then []
  else h_user h ++ (if is_empty (h_password h) then [] else 58 :: h_password h) ++ [64].
Definition text_port (h : UrlHost) : chars := if h_port h =? 0 then [] else 58 :: to_string (h_port h).

Lemma host_text h : UrlHostToString h = text_user h ++ h_host h ++ text_port h.
Proof. done. Qed.

Lemma int_pos_small x : 0 <= x < 2 ^ 31 -> int_pos x = x.
Proof.
  intros Hx. unfold int_pos. rewrite (wrap_small 32) by (unfold in_range; lia). unfold to_signed.
  change (2 ^ (32 - 1)) with (2 ^ 31). rewrite (proj2 (Z.ltb_lt _ _)) by lia. apply wrap_small. unfold in_range. lia.
Qed.

Lemma decode_name pre x post n : name_ok x -> n = size x -> decode_sub (pre ++ x ++ post) (size pre) n = Some x.
Proof.
  intros Hx ->. unfold decode_sub. rewrite substr_app by done. cbn [mbind option_bind].
  apply decode_plain, (name_not_in _ _ Hx). set_solver.
Qed.

Lemma decode_name0 x post : name_ok x -> decode_sub (x ++ post) 0 (size x) = Some x.
Proof. intros Hx. by apply (decode_name [] x). Qed.

Section HostText.
Context (h : UrlHost) (Hh : host_ok h).
Let U := text_user h.
Let P := text_port h.

Lemma port_not_in x : x ∈ [37; 47; 64] -> x ∉ P.
Proof.
  intros Hx. unfold P, text_port. destruct (h_port h =? 0); [apply not_elem_of_nil|]. apply not_elem_of_cons.
  split; [set_solver|]. apply digits_not_in; [apply Hh|]. repeat (apply elem_of_cons in Hx as [->|Hx]; [done|]). by apply not_elem_of_nil in Hx.
Qed.

Lemma port_begins : begins 58 P [].
Proof.
  unfold begins, P, text_port. destruct (h_port h =? 0); [right; split; [done|apply not_elem_of_nil]|left; by eexists].
Qed.

Context (Hn : size (U ++ h_host h ++ P) < 2 ^ 31).

Lemma user_only_parsed : h_user h <> [] -> h_password h = [] ->
  parse_user (U ++ h_host h ++ P) no_host = (set_user (h_user h) (h_password h) no_host, Some (size U)).
Proof.
  intros Eu Ew. destruct Hh as [Hu Hw Hx Huw _]. pose proof (size_nonneg (h_host h ++ P)).
  assert (U = h_user h ++ [64]) as EU by (unfold U, text_user; rewrite Ew; by destruct (h_user h)).
  rewrite Ew, EU in *. pose proof (size_nonneg (h_user h)). rewrite !size_app in *. change (size [64]) with 1 in *.
  unfold parse_user. change (str "@") with [64]. change (str ":") with [58]. unfold SIZE_MAX.
  rewrite <- app_assoc. assert (find_first_of (h_user h ++ [64] ++ h_host h ++ P) [64] 0 = size (h_user h)) as ->
    by (apply find_in, (name_not_in _ _ Hu); set_solver).
  rewrite (proj2 (Z.eqb_neq _ _)) by lia.
  assert (h_user h ++ [64] ++ h_host h ++ P = (h_user h ++ [64] ++ h_host h) ++ P ++ []) as Et by (rewrite app_nil_r, <- !app_assoc; done).
  assert (find_first_of (h_user h ++ [64] ++ h_host h ++ P) [58] 0 =
          if is_empty P then npos else size (h_user h ++ [64] ++ h_host h)) as ->.
  { rewrite Et. apply find_part; [|apply port_begins]. rewrite !not_elem_of_app.
    split; [apply (name_not_in _ _ Hu); set_solver|]. split; [set_solver|apply (name_not_in _ _ Hx); set_solver]. }
  match goal with |- context [if ?b then _ else _] => assert (b = true) as -> end.
  { destruct (is_empty P); [done|]. apply orb_true_iff. right. rewrite !size_app. change (size [64]) with 1.
    pose proof (size_nonneg (h_host h)). lia. }
  rewrite decode_name0 by done. rewrite int_pos_small by lia. done.
Qed.

Lemma user_password_parsed : h_user h <> [] -> h_password h <> [] ->
  parse_user (U ++ h_host h ++ P) no_host = (set_user (h_user h) (h_password h) no_host, Some (size U)).
Proof.
  intros Eu Ew. destruct Hh as [Hu Hw Hx Huw _]. pose proof (size_nonneg (h_host h ++ P)).
  assert (U = h_user h ++ 58 :: h_password h ++ [64]) as EU
    by (unfold U, text_user; destruct (h_user h); [done|]; by destruct (h_password h)).
  rewrite EU in *. pose proof (size_nonneg (h_user h)). pose proof (size_nonneg (h_password h)).
  set (t := h_host h ++ P) in *.
  assert ((h_user h ++ 58 :: h_password h ++ [64]) ++ t = h_user h ++ 58 :: h_password h ++ 64 :: t) as Et
    by (by rewrite <- !app_assoc, <- app_comm_cons, <- app_assoc).
  assert (size (h_user h ++ 58 :: h_password h ++ 64 :: t) = size (h_user h) + size (h_password h) + 2 + size t) as Es
    by (unfold size; rewrite !length_app; cbn [length]; rewrite length_app; cbn [length]; lia).
  rewrite Et in *. rewrite Es in Hn. unfold parse_user. change (str "@") with [64]. change (str ":") with [58].
  assert (find_first_of (h_user h ++ 58 :: h_password h ++ 64 :: t) [64] 0 = size (h_user h ++ 58 :: h_password h)) as ->.
  { assert (h_user h ++ 58 :: h_password h ++ 64 :: t = (h_user h ++ 58 :: h_password h) ++ 64 :: t) as -> by (by rewrite <- app_assoc).
    apply find_in. rewrite not_elem_of_app, not_elem_of_cons.
    split; [apply (name_not_in _ _ Hu); set_solver|]. split; [done|apply (name_not_in _ _ Hw); set_solver]. }
  rewrite find_in by (apply (name_not_in _ _ Hu); set_solver). rewrite size_app. change (58 :: h_password h) with ([58] ++ h_password h).
  rewrite size_app. change (size [58]) with 1. unfold SIZE_MAX.
  rewrite !(proj2 (Z.eqb_neq _ _)), (proj2 (Z.ltb_ge _ _)) by lia. cbn [orb].
  rewrite decode_name0 by done.
  replace (size (h_user h) + (1 + size (h_password h)) - size (h_user h) - 1) with (size (h_password h)) by lia.
  rewrite (wrap_small 64) by (unfold in_range; lia).
  assert (size (h_user h) + 1 = size (h_user h ++ [58])) as -> by (by rewrite size_app).
  assert (h_user h ++ 58 :: h_password h ++ 64 :: t = (h_user h ++ [58]) ++ h_password h ++ 64 :: t) as -> by (by rewrite <- !app_assoc).
  rewrite decode_name by done. rewrite int_pos_small by lia.
  f_equal. f_equal. unfold size. rewrite !length_app. cbn [length]. rewrite length_app. cbn [length]. lia.
Qed.

Lemma user_parsed : parse_user (U ++ h_host h ++ P) no_host =
  (set_user (h_user h) (h_password h) no_host, Some (size U)).
Proof.
  destruct (decide (h_user h = [])) as [Eu|Eu].
  - assert (U = []) as -> by (unfold U, text_user; by rewrite Eu). rewrite Eu, (ok_user_password h Hh Eu). cbn [app].
    unfold parse_user. change (str "@") with [64]. rewrite find_not_in; [done|]. apply not_elem_of_app.
    split; [apply (name_not_in _ _ (ok_host h Hh)); set_solver|apply port_not_in; set_solver].
  - destruct (decide (h_password h = [])); [by apply user_only_parsed|by apply user_password_parsed].
Qed.

Lemma host_parsed : StringToUrlHost (U ++ h_host h ++ P) no_host = (true, h).
Proof.
  unfold StringToUrlHost. rewrite user_parsed. change (str ":") with [58].
  pose proof (size_nonneg U). pose proof (size_nonneg (h_host h)). pose proof (size_nonneg P). rewrite !size_app in Hn.
  assert (find_first_of (U ++ h_host h ++ P) [58] (size U) = if is_empty P then npos else size (U ++ h_host h)) as ->.
  { rewrite <- (app_nil_r P) at 1. apply find_from; [apply (name_not_in _ _ (ok_host h Hh)); set_solver|apply port_begins]. }
  unfold P, text_port in *. destruct (Z.eqb_spec (h_port h) 0) as [E0|E0]; cbn [is_empty].
  - rewrite Z.eqb_refl. unfold decode_sub. rewrite app_nil_r, substr_rest by (unfold SIZE_MAX; lia). cbn [mbind option_bind].
    rewrite decode_plain by (apply (name_not_in _ _ (ok_host h Hh)); set_solver). rewrite <- E0. by destruct h.
  - rewrite size_app, (proj2 (Z.eqb_neq _ _)) by (unfold SIZE_MAX; lia).
    replace (size U + size (h_host h) - size U) with (size (h_host h)) by lia. rewrite wrap_small by (unfold in_range; lia).
    rewrite decode_name by (done || apply Hh).
    assert (size U + size (h_host h) + 1 = size ((U ++ h_host h) ++ [58])) as -> by (by rewrite !size_app).
    assert (U ++ h_host h ++ 58 :: to_string (h_port h) = ((U ++ h_host h) ++ [58]) ++ to_string (h_port h)) as ->
      by (rewrite <- !app_assoc; done).
    rewrite substr_rest.
    + cbn [mbind option_bind]. pose proof (ok_port h Hh). rewrite stoi_to_string by lia. rewrite wrap_small by done. by destruct h.
    + change (58 :: ?t) with ([58] ++ t) in *. rewrite size_app in *. change (size [58]) with 1 in *. unfold SIZE_MAX. lia.
Qed.
End HostText.

(** ** The round trip of a URL *)

Definition scheme_ok (s : chars) : Prop := s <> [] /\ 58 ∉ s.

Lemma find_scheme s rest : 58 ∉ s -> find (s ++ str "://" ++ rest) (str "://") 0 = size s.
Proof.
  intros Hs. change (scan_from (starts_with (str "://")) ([] ++ s ++ str "://" ++ rest) (size []) = size s).
  rewrite scan_from_app. assert (scan (starts_with (str "://")) (s ++ str "://" ++ rest) = Some (length s)) as ->; [|done].
  induction s as [|c s IH]; [done|]. apply not_elem_of_cons in Hs as [Hc Hs]. cbn [app scan].
  assert (starts_with (str "://") (c :: s ++ str "://" ++ rest) = false) as ->.
  { destruct (starts_with _ _) eqn:E; [|done]. apply starts_with_app in E as [t E]. injection E as -> _. done. }
  by rewrite IH.
Qed.

Lemma host_text_no_slash h : host_ok h -> 47 ∉ UrlHostToString h.
Proof.
  intros Hh. rewrite host_text. unfold text_user, text_port. destruct Hh as [Hu Hw Hx _ Hp].
  rewrite !not_elem_of_app. split; [|split].
  - destruct (is_empty (h_user h)); [apply not_elem_of_nil|]. rewrite !not_elem_of_app.
    split; [apply (name_not_in _ _ Hu); set_solver|]. split; [|set_solver].
    destruct (is_empty (h_password h)); [apply not_elem_of_nil|]. apply not_elem_of_cons.
    split; [done|apply (name_not_in _ _ Hw); set_solver].
  - apply (name_not_in _ _ Hx). set_solver.
  - destruct (h_port h =? 0); [apply not_elem_of_nil|]. apply not_elem_of_cons. split; [done|]. apply digits_not_in; [lia|done].
Qed.

Lemma path_text_slash p : path_ok p -> exists t, UrlPathToString p = 47 :: t.
Proof. intros Hp. destruct (ok_slash p Hp) as [r Er]. rewrite path_text, Er. by eexists. Qed.

Lemma path_roundtrip p : path_ok p -> size (UrlPathToString p) < npos ->
  StringToUrlPath (UrlPathToString p) no_path = (true, p).
Proof. intros Hp Hn. by apply path_parsed. Qed.

Lemma host_roundtrip h : host_ok h -> size (UrlHostToString h) < 2 ^ 31 ->
  StringToUrlHost (UrlHostToString h) no_host = (true, h).
Proof. intros Hh Hn. by apply host_parsed. Qed.

(** Printing and parsing a URL is a round trip.  For every URL with a scheme, whose
    names are free of the delimiters (the code prints them as they are), whose path
    begins with a slash, whose parameters and query have keys, in the order of the
    map, and any bytes as keys, values and path, the parser accepts the printed text
    and gives the URL back, field by field. *)
Theorem url_roundtrip u : scheme_ok (scheme u) -> host_ok (host u) -> path_ok (path u) ->
  size (UrlToString u) < 2 ^ 31 -> StringToUrl (UrlToString u) no_url = Some (true, u).
Proof.
  intros [Hs0 Hs] Hh Hp Hn. unfold UrlToString in *.
  assert (is_empty (scheme u) = false) as Ee by (by destruct (scheme u)). rewrite Ee in *.
  rewrite <- !app_assoc in *. set (S0 := scheme u) in *. set (HT := UrlHostToString (host u)) in *.
  set (PT := UrlPathToString (path u)) in *. rewrite !size_app in Hn. change (size (str "://")) with 3 in Hn.
  pose proof (size_nonneg S0). pose proof (size_nonneg HT). pose proof (size_nonneg PT).
  assert (begins 47 PT []) as HPT by (destruct (path_text_slash _ Hp) as [t Et]; left; exists t; exact Et).
  unfold StringToUrl. rewrite find_scheme by done. cbv zeta. rewrite (proj2 (Z.eqb_neq _ _)) by (unfold SIZE_MAX; lia).
  rewrite (substr_app [] S0 _ _ eq_refl : substr (S0 ++ str "://" ++ HT ++ PT) 0 (size S0) = Some S0).
  cbn [mbind option_bind].
  assert (size S0 + 3 = size (S0 ++ str "://")) as Es by (by rewrite size_app).
  rewrite Es, app_assoc. change (str "/") with [47].
  assert (find_first_of ((S0 ++ str "://") ++ HT ++ PT) [47] (size (S0 ++ str "://")) = size ((S0 ++ str "://") ++ HT)) as ->.
  { rewrite <- (app_nil_r PT) at 1. rewrite find_from; [|by apply host_text_no_slash|done].
    destruct (path_text_slash _ Hp) as [t Et]. unfold PT. by rewrite Et. }
  assert (size ((S0 ++ str "://") ++ HT) = size S0 + 3 + size HT) as Es2 by (by rewrite size_app, <- Es).
  rewrite (proj2 (Z.eqb_neq _ _)) by (unfold SIZE_MAX; lia).
  rewrite span_len by (unfold SIZE_MAX; lia). rewrite substr_app by done. cbn [mbind option_bind].
  rewrite (app_assoc _ HT PT), substr_rest by (unfold SIZE_MAX; lia). cbn [mbind option_bind].
  unfold no_url. cbn [host path scheme]. unfold HT, PT, S0. rewrite host_roundtrip by (done || (fold HT; lia)).
  rewrite path_roundtrip by (done || (fold PT; unfold SIZE_MAX; lia)). by destruct u.
Qed.

Definition demo_url : Url := mkUrl (str "http") (mkHost (str "me") (str "pw") (str "host.cn") 8080)
  (mkPath (str "/a b/c;d?") [(str "id", str "1;=")] [(str "k&", [255; 0]); (str "z", [])] (str "top#1")).

Lemma url_roundtrip_witness :
  UrlToString demo_url = str "http://me:pw@host.cn:8080/a%20b/c%3Bd%3F;id=1%3B%3D?k%26=%FF%00&z=#top#1" /\
  StringToUrl (UrlToString demo_url) no_url = Some (true, demo_url).
Proof.
  split; [by vm_compute|]. apply (url_roundtrip demo_url); [| | |by vm_compute].
  - split; [discriminate|]. apply is_in_false. reflexivity.
  - split; [..|done|done]; (apply Forall_forall; intros c Hc; revert c Hc; apply Forall_forall; unfold name_ok;
      repeat (apply Forall_cons; split; [apply is_in_false; reflexivity|]); apply Forall_nil; exact I).
  - split; [by eexists| |reflexivity|reflexivity|reflexivity|reflexivity|].
    + apply bytes_b. reflexivity.
    + repeat (apply Forall_cons; split; [apply is_in_false; reflexivity|]). apply Forall_nil. exact I.
Defined.

(** The fragment is printed as it is but decoded. *)
Example frag_is_decoded : StringToUrlPath (UrlPathToString (mkPath (str "/") [] [] (str "100%25"))) no_path =
  (true, mkPath (str "/") [] [] (str "100%")).
Proof. by vm_compute. Qed.

(** So are the user and the password. *)
Example user_is_decoded :
  StringToUrlHost (UrlHostToString (mkHost (str "%41") [] (str "h") 0)) no_host = (true, mkHost (str "A") [] (str "h") 0).
Proof. by vm_compute. Qed.

(** A port beyond 65535 is cut to 16 bits. *)
Example port_is_cut : StringToUrlHost (str "h:65616") no_host = (true, mkHost [] [] (str "h") 80).
Proof. by vm_compute. Qed.

(** The parsers add to the maps that they are given. *)
Example query_is_added : StringToUrlPath (str "/x?b=2") (mkPath [] [] [(str "a", str "1")] []) =
  (true, mkPath (str "/x") [] [(str "a", str "1"); (str "b", str "2")] []).
Proof. by vm_compute. Qed.

Example cut_escape : UrlDecode (str "a%4") = Some (str "a") /\ UrlDecode (str "hello%2world") = None.
Proof. by vm_compute. Qed.
