(* ===== verification/Http.v ===== *)
(** * Http: requests, responds and the incremental parser of requests

    [modules/http/common.cpp] (the tables), [request.cpp], [respond.cpp] and
    [server/request_parser.cpp].  The parser keeps its state between two
    pieces of data; [parse] returns how much of its argument was consumed, and
    the caller presents the rest again, followed by what has arrived since. *)
From S2P Require Import Prelude Strings Url.

(** ** The enumerations and their tables (common) *)

Module HttpVer.
Inductive HttpVer := kUnset | k1_0 | k1_1 | k2_0 | kMax.
#[global] Instance eq_dec : EqDecision HttpVer.
Proof. solve_decision. Defined.
End HttpVer.

Module Method.
Inductive Method := kUnset | kGet | kHead | kPut | kPost | kTrace | kOptions | kDelete | kMax.
#[global] Instance eq_dec : EqDecision Method.
Proof. solve_decision. Defined.
End Method.

Module StatusCode.
Inductive StatusCode := kUnset
  | k200_OK
  | k201_Created
  | k202_Accepted
  | k203_NonAuthoritativeInformation
  | k204_NoContent
  | k205_ResetContent
  | k206_PartialContent
  | k300_MultipleChoices
  | k301_MovedPermanently
  | k302_Found
  | k303_SeeOther
  | k304_NotModified
  | k305_UseProxy
  | k307_TemporaryRedirect
  | k400_BadRequest
  | k401_Unauthorized
  | k402_PaymentRequired
  | k403_Forbidden
  | k404_NotFound
  | k405_MethodNotAllowed
  | k406_NotAcceptable
  | k407_ProxyAuthenticationRequired
  | k408_RequestTimeout
  | k409_Conflict
  | k410_Gone
  | k411_LengthRequired
  | k412_PreconditionFailed
  | k413_RequestEntityTooLarge
  | k414_RequestURITooLong
  | k415_UnsupportedMediaType
  | k416_RequestedRangeNotSatisfiable
  | k417_ExpectationFailed
  | k500_InternalServerError
  | k501_NotImplemented
  | k502_BadGateway
  | k503_ServiceUnavailable
  | k504_GatewayTimeout
  | k505_HTTPVersionNotSupported
  | kMax.

(** The values of the enumeration. *)
Definition value (c : StatusCode) : Z :=
  match c with
  | kUnset => 0
  | k200_OK => 200
  | k201_Created => 201
  | k202_Accepted => 202
  | k203_NonAuthoritativeInformation => 203
  | k204_NoContent => 204
  | k205_ResetContent => 205
  | k206_PartialContent => 206
  | k300_MultipleChoices => 300
  | k301_MovedPermanently => 301
  | k302_Found => 302
  | k303_SeeOther => 303
  | k304_NotModified => 304
  | k305_UseProxy => 305
  | k307_TemporaryRedirect => 307
  | k400_BadRequest => 400
  | k401_Unauthorized => 401
  | k402_PaymentRequired => 402
  | k403_Forbidden => 403
  | k404_NotFound => 404
  | k405_MethodNotAllowed => 405
  | k406_NotAcceptable => 406
  | k407_ProxyAuthenticationRequired => 407
  | k408_RequestTimeout => 408
  | k409_Conflict => 409
  | k410_Gone => 410
  | k411_LengthRequired => 411
  | k412_PreconditionFailed => 412
  | k413_RequestEntityTooLarge => 413
  | k414_RequestURITooLong => 414
  | k415_UnsupportedMediaType => 415
  | k416_RequestedRangeNotSatisfiable => 416
  | k417_ExpectationFailed => 417
  | k500_InternalServerError => 500
  | k501_NotImplemented => 501
  | k502_BadGateway => 502
  | k503_ServiceUnavailable => 503
  | k504_GatewayTimeout => 504
  | k505_HTTPVersionNotSupported => 505
  | kMax => 506
  end.

#[global] Instance eq_dec : EqDecision StatusCode.
Proof. intros a b. destruct (decide (value a = value b)) as [E|N]; [left|right; by intros ->].
  abstract (destruct a, b; done || (vm_compute in E; done)). Defined.
End StatusCode.

(** [std::find_if] *)
Fixpoint find_if {A} (p : A -> bool) (l : list A) : option A :=
  match l with [] => None | x :: l' => if p x then Some x else find_if p l' end.

Section Table.
Context {E : Type} `{EqDecision E} (table : list (E * chars)) (unset : E).

Definition enum_to_string (v : E) : chars :=
  match find_if (fun item => bool_decide (item.1 = v)) table with Some item => item.2 | None => [] end.
Definition string_to_enum (s : chars) : E :=
  match find_if (fun item => bool_decide (item.2 = s)) table with Some item => item.1 | None => unset end.
End Table.

Definition http_ver_map : list (HttpVer.HttpVer * chars) :=
  [(HttpVer.k1_0, str "HTTP/1.0"); (HttpVer.k1_1, str "HTTP/1.1"); (HttpVer.k2_0, str "HTTP/2.0")].
Definition HttpVerToString := enum_to_string http_ver_map.
Definition StringToHttpVer := string_to_enum http_ver_map HttpVer.kUnset.

Definition method_map : list (Method.Method * chars) :=
  [(Method.kGet, str "GET"); (Method.kHead, str "HEAD"); (Method.kPut, str "PUT"); (Method.kPost, str "POST");
   (Method.kTrace, str "TRACE"); (Method.kOptions, str "OPTIONS"); (Method.kDelete, str "DELETE")].
Definition MethodToString := enum_to_string method_map.
Definition StringToMethod := string_to_enum method_map Method.kUnset.

Definition status_code_map : list (StatusCode.StatusCode * chars) :=
  [(StatusCode.k200_OK, str "200 OK");
   (StatusCode.k201_Created, str "201 Created");
   (StatusCode.k202_Accepted, str "202 Accepted");
   (StatusCode.k203_NonAuthoritativeInformation, str "203 Non-Authoritative Information");
   (StatusCode.k204_NoContent, str "204 No Content");
   (StatusCode.k205_ResetContent, str "205 Reset Content");
   (StatusCode.k206_PartialContent, str "206 Partial Content");
   (StatusCode.k300_MultipleChoices, str "300 Multiple Choices");
   (StatusCode.k301_MovedPermanently, str "301 Moved Permanently");
   (StatusCode.k302_Found, str "302 Found");
   (StatusCode.k303_SeeOther, str "303 See Other");
   (StatusCode.k304_NotModified, str "304 Not Modified");
   (StatusCode.k305_UseProxy, str "305 Use Proxy");
   (StatusCode.k307_TemporaryRedirect, str "307 Temporary Redirect");
   (StatusCode.k400_BadRequest, str "400 Bad Request");
   (StatusCode.k401_Unauthorized, str "401 Unauthorized");
   (StatusCode.k402_PaymentRequired, str "402 Payment Required");
   (StatusCode.k403_Forbidden, str "403 Forbidden");
   (StatusCode.k404_NotFound, str "404 Not Found");
   (StatusCode.k405_MethodNotAllowed, str "405 Method Not Allowed");
   (StatusCode.k406_NotAcceptable, str "406 Not Acceptable");
   (StatusCode.k407_ProxyAuthenticationRequired, str "407 Proxy Authentication Required");
   (StatusCode.k408_RequestTimeout, str "408 Request Timeout");
   (StatusCode.k409_Conflict, str "409 Conflict");
   (StatusCode.k410_Gone, str "410 Gone");
   (StatusCode.k411_LengthRequired, str "411 Length Required");
   (StatusCode.k412_PreconditionFailed, str "412 Precondition Failed");
   (StatusCode.k413_RequestEntityTooLarge, str "413 Request Entity Too Large");
   (StatusCode.k414_RequestURITooLong, str "414 Request URI Too Long");
   (StatusCode.k415_UnsupportedMediaType, str "415 Unsupported Media Type");
   (StatusCode.k416_RequestedRangeNotSatisfiable, str "416 Requested Range Not Satisfiable");
   (StatusCode.k417_ExpectationFailed, str "417 Expectation Failed");
   (StatusCode.k500_InternalServerError, str "500 Internal Server Error");
   (StatusCode.k501_NotImplemented, str "501 Not Implemented");
   (StatusCode.k502_BadGateway, str "502 Bad Gateway");
   (StatusCode.k503_ServiceUnavailable, str "503 Service Unavailable");
   (StatusCode.k504_GatewayTimeout, str "504 Gateway Timeout");
   (StatusCode.k505_HTTPVersionNotSupported, str "505 HTTP Version Not Supported")].
Definition StatusCodeToString := enum_to_string status_code_map.
Definition StringToStatusCode := string_to_enum status_code_map StatusCode.kUnset.

(** ** Requests and responds *)

Definition CRLF : chars := [13; 10].

Record Request := mkRequest {
  method : Method.Method; http_ver : HttpVer.HttpVer; url : UrlPath; headers : StringMap; body : chars }.
Definition new_Request := mkRequest Method.kUnset HttpVer.kUnset no_path [] [].

Record Respond := mkRespond {
  r_http_ver : HttpVer.HttpVer; status_code : StatusCode.StatusCode; r_headers : StringMap; r_body : chars }.

Definition Request_isValid (r : Request) : bool :=
  negb (bool_decide (method r = Method.kUnset)) && negb (bool_decide (http_ver r = HttpVer.kUnset)) &&
  negb (is_empty (p_path (url r))).
Definition Respond_isValid (r : Respond) : bool :=
  negb (bool_decide (status_code r = StatusCode.kUnset)) && negb (bool_decide (r_http_ver r = HttpVer.kUnset)).

Definition print_header (kv : chars * chars) : chars := kv.1 ++ str ": " ++ kv.2 ++ CRLF.
Definition print_headers (m : StringMap) : chars := flat_map print_header m.

(** The part that both have: headers, length, blank line and body. *)
Definition print_message (m : StringMap) (b : chars) : chars :=
  print_headers m ++ str "Content-Length: " ++ to_string (size b) ++ CRLF ++ CRLF ++ b.

Definition Request_toString (r : Request) : chars :=
  MethodToString (method r) ++ str " " ++ UrlPathToString (url r) ++ str " " ++ HttpVerToString (http_ver r) ++ CRLF ++
  print_message (headers r) (body r).
Definition Respond_toString (r : Respond) : chars :=
  HttpVerToString (r_http_ver r) ++ str " " ++ StatusCodeToString (status_code r) ++ CRLF ++
  print_message (r_headers r) (r_body r).

(** ** The parser (server/request_parser) *)

Module State.
Inductive State := kInit | kFinishedStartLine | kFinishedHeads | kFinishedAll | kFail.
#[global] Instance eq_dec : EqDecision State.
Proof. solve_decision. Defined.
End State.

Record RequestParser := mkParser { state_ : State.State; sp_request_ : option Request; content_length_ : Z }.
Definition new_RequestParser := mkParser State.kInit None 0.

Definition set_state (s : State.State) (p : RequestParser) := mkParser s (sp_request_ p) (content_length_ p).
Definition set_request (r : Request) (p : RequestParser) := mkParser (state_ p) (Some r) (content_length_ p).
Definition set_content_length (n : Z) (p : RequestParser) := mkParser (state_ p) (sp_request_ p) n.
Definition set_method (m : Method.Method) (r : Request) := mkRequest m (http_ver r) (url r) (headers r) (body r).
Definition set_http_ver (v : HttpVer.HttpVer) (r : Request) := mkRequest (method r) v (url r) (headers r) (body r).
Definition set_url (u : UrlPath) (r : Request) := mkRequest (method r) (http_ver r) u (headers r) (body r).
Definition set_headers (m : StringMap) (r : Request) := mkRequest (method r) (http_ver r) (url r) m (body r).
Definition set_body (b : chars) (r : Request) := mkRequest (method r) (http_ver r) (url r) (headers r) b.

(** How a phase ends: [Next] goes on with the next one, [Stop] returns from
    [parse]; [Throw] is an exception that nobody catches, [Crash] the use of the
    request when there is none. *)
Inductive phase := Next (p : RequestParser) (pos : Z) | Stop (p : RequestParser) (pos : Z) | Throw | Crash | NoFuel.

Definition fail_at (p : RequestParser) (pos : Z) : phase := Stop (set_state State.kFail p) pos.

Definition try {A} (o : option A) (k : A -> phase) : phase := match o with Some a => k a | None => Throw end.
Notation "x <-! o ; k" := (try o (fun x => k)) (at level 20, o at level 100, k at level 200, only parsing).

Definition beyond (pos end_pos : Z) : bool := (pos =? npos) || (end_pos <=? pos).

(** The start line. *)
Definition parse_start (s : chars) (p : RequestParser) : phase :=
  let r := default new_Request (sp_request_ p) in
  let p := mkParser State.kInit (Some r) SIZE_MAX in
  let method_str_end := find_first_of s (str " ") 0 in
  method_str <-! substr s 0 method_str_end;
  let m := StringToMethod method_str in
  if bool_decide (m = Method.kUnset) then fail_at p 0
  else
    let end_pos := find s CRLF method_str_end in
    if end_pos =? npos then Stop p 0
    else
      let r := set_method m r in
      let url_str_begin := find_first_not_of s (str " ") method_str_end in
      if beyond url_str_begin end_pos then fail_at (set_request r p) 0
      else
        let url_str_end := find_first_of s (str " ") url_str_begin in
        url_str <-! substr s url_str_begin (u64 (url_str_end - url_str_begin));
        let '(ok, u) := StringToUrlPath url_str (url r) in
        let r := set_url u r in
        if negb ok then fail_at (set_request r p) 0
        else
          let ver_str_begin := find_first_not_of s (str " ") url_str_end in
          if beyond ver_str_begin end_pos then fail_at (set_request r p) 0
          else
            ver_str <-! substr s ver_str_begin (u64 (end_pos - ver_str_begin));
            if negb (bool_decide (take 5 ver_str = str "HTTP/")) then fail_at (set_request r p) 0
            else
              let ver := StringToHttpVer ver_str in
              if bool_decide (ver = HttpVer.kUnset) then fail_at (set_request r p) 0
              else Next (mkParser State.kFinishedStartLine (Some (set_http_ver ver r)) SIZE_MAX) (end_pos + 2).

(** One round of the loop over the headers: [inl] goes round again at a new position. *)
Definition head_step (s : chars) (p : RequestParser) (pos : Z) : (RequestParser * Z) + phase :=
  let end_pos := find s CRLF pos in
  if end_pos =? pos then inr (Next (set_state State.kFinishedHeads p) (pos + 2))
  else if end_pos =? npos then inr (Next p pos)
  else
    let colon_pos := find_first_of s (str ":") pos in
    if beyond colon_pos end_pos then inr (fail_at p pos)
    else
      match substr s pos (u64 (colon_pos - pos)) ≫= Strip with
      | None => inr Throw
      | Some head_key =>
          let head_value_start_pos := find_first_not_of s (str " ") (colon_pos + 1) in
          if beyond head_value_start_pos end_pos then inr (fail_at p pos)
          else
            match substr s head_value_start_pos (u64 (end_pos - head_value_start_pos)) ≫= Strip with
            | None => inr Throw
            | Some head_value =>
                match sp_request_ p with
                | None => inr Crash
                | Some r =>
                    let p := set_request (set_headers (map_set head_key head_value (headers r)) r) p in
                    if bool_decide (head_key = str "Content-Length") then
                      match stoi head_value with
                      | Some n => inl (set_content_length (u64 n) p, end_pos + 2)
                      | None => inr Throw
                      end
                    else inl (p, end_pos + 2)
                end
            end
      end.

Fixpoint head_loop (fuel : nat) (s : chars) (p : RequestParser) (pos : Z) : phase :=
  match fuel with
  | O => NoFuel
  | S f => match head_step s p pos with
           | inl (p, pos) => head_loop f s p pos
           | inr ph => ph
           end
  end.

Definition parse_heads (s : chars) (p : RequestParser) (pos : Z) : phase := head_loop (S (length s)) s p pos.

Definition parse_body (s : chars) (p : RequestParser) (pos : Z) : phase :=
  match sp_request_ p with
  | None => Crash
  | Some r =>
      if negb (content_length_ p =? SIZE_MAX) then
        if content_length_ p <=? u64 (size s - pos) then
          b <-! substr s pos (content_length_ p);
          Next (set_state State.kFinishedAll (set_request (set_body b r) p)) (u64 (pos + content_length_ p))
        else Next p pos
      else
        b <-! substr s pos npos;
        Next (set_state State.kFinishedAll (set_request (set_body b r) p)) (size s)
  end.

(** The phases of [parse], each guarded by the state. *)
Definition in_state (st : State.State) (f : RequestParser -> Z -> phase) (ph : phase) : phase :=
  match ph with
  | Next p pos => if bool_decide (state_ p = st) then f p pos else ph
  | _ => ph
  end.

Definition parse_from (s : chars) (p : RequestParser) (pos : Z) : phase :=
  in_state State.kFinishedHeads (parse_body s) (in_state State.kFinishedStartLine (parse_heads s)
    (in_state State.kInit (fun p _ => parse_start s p) (Next p pos))).

Definition parse (s : chars) (p : RequestParser) : phase := parse_from s p 0.

(** The parser afterwards and what was consumed. *)
Definition result (ph : phase) : option (RequestParser * Z) :=
  match ph with Next p pos | Stop p pos => Some (p, pos) | _ => None end.

Definition getRequest (p : RequestParser) : option Request * RequestParser :=
  if bool_decide (state_ p = State.kFinishedAll) then (sp_request_ p, mkParser State.kInit None (content_length_ p))
  else (None, p).

(** [swap] leaves the content lengths where they are. *)
Definition parser_swap (a b : RequestParser) : RequestParser * RequestParser :=
  (mkParser (state_ b) (sp_request_ b) (content_length_ a), mkParser (state_ a) (sp_request_ a) (content_length_ b)).
Definition parser_reset (p : RequestParser) : RequestParser := (parser_swap p new_RequestParser).1.

Definition demo_request := mkRequest Method.kPost HttpVer.k1_1 (mkPath (str "/a b") [] [(str "k", str "v")] [])
  [(str "Host", str "x.cn")] (str "hello").

Example parse_demo : result (parse (Request_toString demo_request ++ str "GET") new_RequestParser) =
  Some (mkParser State.kFinishedAll (Some (set_headers [(str "Content-Length", str "5"); (str "Host", str "x.cn")] demo_request)) 5,
        size (Request_toString demo_request)).
Proof. by vm_compute. Qed.

(** ** Searching within the received part *)

Notation bounded s := (size s < SIZE_MAX).

Lemma npos_scan p s : bounded s -> scan_from p s npos = npos.
Proof. intros H. unfold scan_from. by rewrite (proj2 (Z.ltb_lt _ _)). Qed.

Lemma beyond_false v e : beyond v e = false -> v <> npos /\ v < e.
Proof. unfold beyond. rewrite orb_false_iff, Z.eqb_neq, Z.leb_gt. done. Qed.

(** The length of a span of [s]. *)
Lemma span_small s a b : bounded s -> 0 <= a <= b -> b <= size s -> u64 (b - a) = b - a.
Proof. unfold SIZE_MAX. intros Hs Ha Hb. apply wrap_small. unfold in_range. lia. Qed.

Lemma span_prefix a b x y : bounded a -> 0 <= x <= y -> y <= size a ->
  substr (a ++ b) x (u64 (y - x)) = substr a x (u64 (y - x)).
Proof. intros Hs Hx Hy. rewrite (span_small a) by done. apply substr_prefix; lia. Qed.

Lemma crlf_local : local 2 (starts_with CRLF).
Proof. apply (starts_with_local CRLF). Qed.
#[export] Hint Resolve crlf_local : core.

Lemma search_ne p s pos : bounded s -> scan_from p s pos <> npos -> pos <> npos.
Proof. intros Hs H ->. by rewrite npos_scan in H. Qed.

(** A position that is not found, or found too late, stays so when more text
    follows. *)
Lemma scan_later p a b pos : local 1 p -> 0 <= pos -> bounded a -> scan_from p a pos = npos ->
  scan_from p (a ++ b) pos = npos \/ size a <= scan_from p (a ++ b) pos.
Proof.
  intros Hp H0 Ha E. destruct (Z.eq_dec (scan_from p (a ++ b) pos) npos) as [|Hn]; [by left|right].
  destruct (scan_from_bound 1 p (a ++ b) pos Hp H0 Hn) as [B _]. revert E Hn B. unfold scan_from.
  destruct (Z.ltb_spec (size a) pos); [intros; lia|]. pose proof (size_nonneg b). rewrite size_app.
  rewrite (proj2 (Z.ltb_ge _ _)) by lia. rewrite drop_app_le by (unfold size in *; lia).
  destruct (scan p (drop (Z.to_nat pos) a)) as [i|] eqn:Es; cbn [to_pos].
  - intros E. exfalso. apply scan_Some in Es as [Hi _]. rewrite length_drop in Hi. unfold SIZE_MAX, npos, size in *. lia.
  - intros _. destruct (scan p (drop (Z.to_nat pos) a ++ b)) as [i|] eqn:Es2; [|done]. cbn [to_pos]. intros _ _.
    destruct (Z.le_gt_cases (size a) (pos + Z.of_nat i)) as [|Hlt]; [done|]. exfalso.
    destruct (scan_Some _ _ _ Es2) as (_ & Hi & _). pose proof (scan_None _ _ Es i) as Hf.
    rewrite drop_app_le in Hi by (rewrite length_drop; unfold size in *; lia).
    rewrite (local_app 1 p Hp) in Hi; [congruence|]. rewrite !length_drop. unfold size in *. lia.
Qed.

Lemma beyond_later p a b pos e : local 1 p -> 0 <= pos -> bounded a -> e <= size a ->
  beyond (scan_from p a pos) e = true -> beyond (scan_from p (a ++ b) pos) e = true.
Proof.
  intros Hp H0 Ha He Hb. destruct (Z.eq_dec (scan_from p a pos) npos) as [E|E].
  - unfold beyond. rewrite orb_true_iff, Z.eqb_eq, Z.leb_le. destruct (scan_later p a b pos Hp H0 Ha E); [by left|right; lia].
  - by rewrite (scan_from_prefix 1 p a b pos).
Qed.

(** The start line is read alike when more follows it. *)
Lemma parse_start_prefix a b p p' n : bounded a -> parse_start a p = Next p' n ->
  parse_start (a ++ b) p = Next p' n /\ state_ p' = State.kFinishedStartLine /\ content_length_ p' = SIZE_MAX /\
  2 <= n <= size a.
Proof.
  intros Ha. unfold parse_start. cbv zeta. unfold find_first_of, find_first_not_of, find.
  set (ms := scan_from (head_in (str " ")) a 0).
  destruct (substr a 0 ms) as [mstr|] eqn:Em; cbn [try]; [|done].
  destruct (bool_decide (StringToMethod mstr = Method.kUnset)) eqn:Eb; [done|].
  set (ep := scan_from (starts_with CRLF) a ms). destruct (Z.eqb_spec ep npos) as [|Hep]; [done|].
  pose proof (search_ne _ _ _ Ha Hep) as Hms. unfold ms in Hms. fold ms in Hms.
  destruct (scan_from_bound 1 _ a 0 (head_in_local _) ltac:(done) Hms) as [Bm1 Bm2]. fold ms in Bm1, Bm2.
  destruct (scan_from_bound 2 _ a ms crlf_local Bm1 Hep) as [Be1 Be2]. fold ep in Be1, Be2.
  set (ub := scan_from (head_not_in (str " ")) a ms). destruct (beyond ub ep) eqn:Eub; [done|].
  apply beyond_false in Eub as [Hub Lub].
  destruct (scan_from_bound 1 _ a ms (head_not_in_local _) Bm1 Hub) as [Bu1 Bu2]. fold ub in Bu1, Bu2.
  set (ue := scan_from (head_in (str " ")) a ub).
  destruct (substr a ub (u64 (ue - ub))) as [ustr|] eqn:Eu; cbn [try]; [|done].
  destruct (StringToUrlPath ustr _) as [ok u] eqn:Ep. destruct ok; cbn [negb]; [|done].
  set (vb := scan_from (head_not_in (str " ")) a ue). destruct (beyond vb ep) eqn:Evb; [done|].
  apply beyond_false in Evb as [Hvb Lvb]. pose proof (search_ne _ _ _ Ha Hvb) as Hue.
  assert (0 <= ub) as Bu0 by lia.
  destruct (scan_from_bound 1 _ a ub (head_in_local _) Bu0 Hue) as [Bx1 Bx2]. fold ue in Bx1, Bx2.
  assert (0 <= ue) as Bx0 by lia.
  destruct (scan_from_bound 1 _ a ue (head_not_in_local _) Bx0 Hvb) as [Bv1 Bv2]. fold vb in Bv1, Bv2.
  destruct (substr a vb (u64 (ep - vb))) as [vstr|] eqn:Ev; cbn [try]; [|done].
  destruct (bool_decide (take 5 vstr = str "HTTP/")) eqn:E5; cbn [negb]; [|done].
  destruct (bool_decide (StringToHttpVer vstr = HttpVer.kUnset)) eqn:Ehv; [done|].
  intros E. injection E as <- <-. split; [|split; [done|split; [done|lia]]].
  rewrite (scan_from_prefix 1 _ a b 0) by done. fold ms.
  rewrite (scan_from_prefix 2 _ a b ms), (scan_from_prefix 1 _ a b ms) by done. fold ep ub.
  rewrite (scan_from_prefix 1 _ a b ub) by done. fold ue. rewrite (scan_from_prefix 1 _ a b ue) by done. fold vb.
  rewrite substr_prefix, Em by lia. cbn [try]. rewrite Eb, (proj2 (Z.eqb_neq _ _) Hep).
  assert (beyond ub ep = false /\ beyond vb ep = false) as [-> ->].
  { unfold beyond. rewrite !orb_false_iff, !Z.eqb_neq, !Z.leb_gt. done. }
  rewrite span_prefix, Eu by (done || lia). cbn [try]. rewrite Ep. cbn [negb].
  rewrite span_prefix, Ev by (done || lia). cbn [try]. rewrite E5. cbn [negb]. by rewrite Ehv.
Qed.

Lemma found c a : bounded a -> c ∈ a -> scan_from (head_in [c]) a 0 <> npos.
Proof.
  intros Ha Hc. unfold scan_from. rewrite (proj2 (Z.ltb_ge _ _)) by apply size_nonneg. change (drop (Z.to_nat 0) a) with a.
  destruct (scan (head_in [c]) a) as [i|] eqn:E; cbn [to_pos].
  - apply scan_Some in E as [Hi _]. unfold SIZE_MAX, npos, size in *. lia.
  - apply list_elem_of_lookup in Hc as [j Hj]. pose proof (scan_None _ _ E j) as H.
    rewrite (drop_S _ _ _ Hj) in H. cbn in H. by rewrite Z.eqb_refl in H.
Qed.

Lemma substr_some s pos n : pos <= size s -> exists x, substr s pos n = Some x.
Proof. intros H. unfold substr. rewrite (proj2 (Z.ltb_ge _ _)) by lia. by eexists. Qed.

(** A rejected start line stays rejected, once the method is there. *)
Lemma parse_start_failed a b p p1 n : bounded (a ++ b) -> 32 ∈ a -> parse_start a p = Stop p1 n -> state_ p1 = State.kFail ->
  exists p2, parse_start (a ++ b) p = Stop p2 0 /\ state_ p2 = State.kFail.
Proof.
  intros Hs H32. pose proof Hs as Ha. rewrite size_app in Ha. pose proof (size_nonneg b). assert (bounded a) by lia. clear Ha.
  rename H0 into Ha. pose proof (found 32 a Ha H32) as Hms. change [32] with (str " ") in Hms.
  unfold parse_start. cbv zeta. unfold find_first_of, find_first_not_of, find.
  destruct (scan_from_bound 1 _ a 0 (head_in_local _) ltac:(done) Hms) as [Bm1 Bm2].
  rewrite (scan_from_prefix 1 _ a b 0) by done.
  set (ms := scan_from (head_in (str " ")) a 0) in *. rewrite substr_prefix by lia.
  destruct (substr a 0 ms) as [mstr|] eqn:Em; cbn [try]; [|done].
  destruct (bool_decide (StringToMethod mstr = Method.kUnset)) eqn:Eb; [by eexists|].
  set (ep := scan_from (starts_with CRLF) a ms). destruct (Z.eqb_spec ep npos) as [|Hep]; [intros [= <- _]; done|].
  rewrite (scan_from_prefix 2 _ a b ms) by done. fold ep. rewrite (proj2 (Z.eqb_neq _ _) Hep).
  destruct (scan_from_bound 2 _ a ms crlf_local Bm1 Hep) as [Be1 Be2]. fold ep in Be1, Be2. assert (ep <= size a) as Be by lia.
  destruct (beyond (scan_from (head_not_in (str " ")) a ms) ep) eqn:Eub.
  { rewrite beyond_later by done. intros _ _. by eexists. }
  set (ub := scan_from (head_not_in (str " ")) a ms) in *. apply beyond_false in Eub as [Hub Lub].
  destruct (scan_from_bound 1 _ a ms (head_not_in_local _) Bm1 Hub) as [Bu1 Bu2]. fold ub in Bu1, Bu2.
  rewrite (scan_from_prefix 1 _ a b ms) by done. fold ub.
  assert (beyond ub ep = false) as -> by (unfold beyond; rewrite orb_false_iff, Z.eqb_neq, Z.leb_gt; done).
  assert (0 <= ub) as Bu0 by lia.
  destruct (Z.eq_dec (scan_from (head_in (str " ")) a ub) npos) as [Eue|Hue].
  - (* the end of the target is not there yet: it will be beyond the line *)
    intros _ _. destruct (substr_some (a ++ b) ub (u64 (scan_from (head_in (str " ")) (a ++ b) ub - ub))) as [x ->]; [rewrite size_app; lia|].
    cbn [try]. destruct (StringToUrlPath x _) as [ok u]. destruct ok; cbn [negb]; [|by eexists].
    enough (beyond (scan_from (head_not_in (str " ")) (a ++ b) (scan_from (head_in (str " ")) (a ++ b) ub)) ep = true) as -> by (by eexists).
    unfold beyond. rewrite orb_true_iff, Z.eqb_eq, Z.leb_le.
    destruct (Z.eq_dec (scan_from (head_not_in (str " ")) (a ++ b) (scan_from (head_in (str " ")) (a ++ b) ub)) npos) as [|Hv]; [by left|right].
    destruct (scan_later _ a b ub (head_in_local _) Bu0 Ha Eue) as [E|E].
    + by rewrite E, npos_scan in Hv.
    + assert (0 <= scan_from (head_in (str " ")) (a ++ b) ub) as H0 by lia.
      destruct (scan_from_bound 1 _ _ _ (head_not_in_local _) H0 Hv). lia.
  - rewrite (scan_from_prefix 1 _ a b ub) by done. set (ue := scan_from (head_in (str " ")) a ub) in *.
    destruct (scan_from_bound 1 _ a ub (head_in_local _) Bu0 Hue) as [Bx1 Bx2]. fold ue in Bx1, Bx2.
    rewrite span_prefix by (done || lia).
    destruct (substr a ub (u64 (ue - ub))) as [ustr|] eqn:Eu; cbn [try]; [|done].
    destruct (StringToUrlPath ustr _) as [ok u]. destruct ok; cbn [negb]; [|by eexists].
    assert (0 <= ue) as Bx0 by lia.
    destruct (beyond (scan_from (head_not_in (str " ")) a ue) ep) eqn:Evb.
    { rewrite beyond_later by done. intros _ _. by eexists. }
    set (vb := scan_from (head_not_in (str " ")) a ue) in *. apply beyond_false in Evb as [Hvb Lvb].
    destruct (scan_from_bound 1 _ a ue (head_not_in_local _) Bx0 Hvb) as [Bv1 Bv2]. fold vb in Bv1, Bv2.
    rewrite (scan_from_prefix 1 _ a b ue) by done. fold vb.
    assert (beyond vb ep = false) as -> by (unfold beyond; rewrite orb_false_iff, Z.eqb_neq, Z.leb_gt; done).
    rewrite span_prefix by (done || lia).
    destruct (substr a vb (u64 (ep - vb))) as [vstr|] eqn:Ev; cbn [try]; [|done].
    destruct (bool_decide (take 5 vstr = str "HTTP/")); cbn [negb]; [|by eexists].
    destruct (bool_decide (StringToHttpVer vstr = HttpVer.kUnset)); [by eexists|done].
Qed.

(** ** One header *)

(** What a round of the loop depends on: the positions that it finds. *)
Lemma head_step_bounds s p pos p' pos' : bounded s -> 0 <= pos -> head_step s p pos = inl (p', pos') ->
  pos + 2 <= pos' <= size s /\ state_ p' = state_ p /\ sp_request_ p <> None /\ sp_request_ p' <> None.
Proof.
  intros Hs H0. unfold head_step. cbv zeta. unfold find_first_of, find_first_not_of, find.
  set (ep := scan_from (starts_with CRLF) s pos). destruct (Z.eqb_spec ep pos); [done|].
  destruct (Z.eqb_spec ep npos) as [|He]; [done|].
  destruct (scan_from_bound 2 _ s pos crlf_local H0 He) as [B1 B2]. fold ep in B1, B2.
  destruct (beyond _ ep); [done|]. destruct (_ ≫= Strip) as [k|]; [|done]. destruct (beyond _ ep); [done|].
  destruct (_ ≫= Strip) as [v|]; [|done]. destruct (sp_request_ p) as [r|]; [|done].
  destruct (bool_decide _); [destruct (stoi v) as [x|]; [|done]|]; intros E; injection E as <- <-; cbn;
    (split; [lia|done]).
Qed.

Lemma head_step_prefix a b p pos : bounded a -> 0 <= pos -> find a CRLF pos <> npos ->
  head_step (a ++ b) p pos = head_step a p pos.
Proof.
  intros Ha H0. unfold head_step. cbv zeta. unfold find_first_of, find_first_not_of, find. intros He.
  set (ep := scan_from (starts_with CRLF) a pos) in *.
  rewrite (scan_from_prefix 2 _ a b pos) by done. fold ep.
  destruct (scan_from_bound 2 _ a pos crlf_local H0 He) as [B1 B2]. fold ep in B1, B2.
  destruct (Z.eqb_spec ep pos); [done|]. rewrite (proj2 (Z.eqb_neq _ _) He). assert (ep <= size a) as Be by lia.
  destruct (beyond (scan_from (head_in (str ":")) a pos) ep) eqn:Ec; [by rewrite beyond_later by done|].
  set (cp := scan_from (head_in (str ":")) a pos) in *.
  apply beyond_false in Ec as [Hc Lc]. destruct (scan_from_bound 1 _ a pos (head_in_local _) H0 Hc) as [C1 C2]. fold cp in C1, C2.
  rewrite (scan_from_prefix 1 _ a b pos) by done. fold cp.
  assert (beyond cp ep = false) as -> by (unfold beyond; rewrite orb_false_iff, Z.eqb_neq, Z.leb_gt; done).
  rewrite span_prefix by (done || lia). destruct (substr a pos _ ≫= Strip) as [k|]; [|done]. assert (0 <= cp + 1) as H1 by lia.
  destruct (beyond (scan_from (head_not_in (str " ")) a (cp + 1)) ep) eqn:Ev; [by rewrite beyond_later by done|].
  set (vp := scan_from (head_not_in (str " ")) a (cp + 1)) in *. apply beyond_false in Ev as [Hv Lv].
  destruct (scan_from_bound 1 _ a (cp + 1) (head_not_in_local _) H1 Hv) as [D1 D2]. fold vp in D1, D2.
  rewrite (scan_from_prefix 1 _ a b (cp + 1)) by done. fold vp.
  assert (beyond vp ep = false) as -> by (unfold beyond; rewrite orb_false_iff, Z.eqb_neq, Z.leb_gt; done).
  by rewrite span_prefix by (done || lia).
Qed.

(** The outcome of a phase in the suffix, seen in the whole text. *)
Definition shift_phase (n : Z) (ph : phase) : phase :=
  match ph with Next p pos => Next p (n + pos) | Stop p pos => Stop p (n + pos) | _ => ph end.
Definition shift_step (n : Z) (x : (RequestParser * Z) + phase) : (RequestParser * Z) + phase :=
  match x with inl (p, pos) => inl (p, n + pos) | inr ph => inr (shift_phase n ph) end.

Lemma shift_ne n z : z <> npos -> shift n z = n + z.
Proof. intros H. unfold shift. by rewrite (proj2 (Z.eqb_neq _ _) H). Qed.

Lemma beyond_shift n v e : 0 <= n -> e <> npos -> n + e < npos -> (v = npos \/ n + v < npos) ->
  beyond (shift n v) (shift n e) = beyond v e.
Proof.
  intros Hn He Hb Hv. unfold beyond. rewrite (shift_ne n e He). unfold shift. destruct (Z.eqb_spec v npos) as [|Hne]; [done|].
  destruct Hv as [|Hv]; [done|]. rewrite (proj2 (Z.eqb_neq _ _)) by lia. cbn [orb].
  destruct (Z.leb_spec e v), (Z.leb_spec (n + e) (n + v)); (done || lia).
Qed.

Lemma scan_from_range p k s pos : local k p -> bounded s -> 0 <= pos ->
  scan_from p s pos = npos \/ pos <= scan_from p s pos <= size s.
Proof.
  intros Hp Hs H0. destruct (Z.eq_dec (scan_from p s pos) npos) as [|H]; [by left|right].
  destruct (scan_from_bound k p s pos Hp H0 H). lia.
Qed.

Lemma head_step_shift x y p pos : bounded (x ++ y) -> 0 <= pos <= size y ->
  head_step (x ++ y) p (size x + pos) = shift_step (size x) (head_step y p pos).
Proof.
  intros Hs H0. pose proof (size_nonneg x). assert (bounded y) as Hy by (rewrite size_app in Hs; lia).
  rewrite size_app in Hs. unfold head_step. cbv zeta. unfold find_first_of, find_first_not_of, find.
  rewrite !scan_from_shift by (rewrite ?size_app; lia).
  destruct (scan_from_range (starts_with CRLF) 2 y pos crlf_local Hy ltac:(lia)) as [->|Be].
  { change (shift (size x) npos) with npos. rewrite Z.eqb_refl, !(proj2 (Z.eqb_neq _ _)) by (unfold SIZE_MAX in *; lia). done. }
  set (ep := scan_from (starts_with CRLF) y pos) in *. assert (ep <> npos) as He by lia. rewrite (shift_ne _ ep He).
  rewrite (proj2 (Z.eqb_neq ep npos) He), (proj2 (Z.eqb_neq (size x + ep) npos)) by lia.
  destruct (Z.eqb_spec ep pos) as [->|]; [rewrite Z.eqb_refl; cbn; by rewrite Z.add_assoc|].
  rewrite (proj2 (Z.eqb_neq (size x + ep) (size x + pos))) by lia. rewrite <- (shift_ne _ ep He).
  destruct (scan_from_range (head_in (str ":")) 1 y pos (head_in_local _) Hy ltac:(lia)) as [->|Bc]; [done|].
  set (cp := scan_from (head_in (str ":")) y pos) in *. assert (cp <> npos) as Hc by lia.
  rewrite beyond_shift by lia. destruct (beyond cp ep) eqn:Ec; [done|]. apply beyond_false in Ec as [_ Lc].
  rewrite (shift_ne _ cp Hc). replace (size x + cp - (size x + pos)) with (cp - pos) by lia. rewrite substr_shift by lia.
  destruct (substr y pos _ ≫= Strip) as [k|]; [|done].
  rewrite <- Z.add_assoc, scan_from_shift by (rewrite ?size_app; lia).
  destruct (scan_from_range (head_not_in (str " ")) 1 y (cp + 1) (head_not_in_local _) Hy ltac:(lia)) as [->|Bv]; [done|].
  set (vp := scan_from (head_not_in (str " ")) y (cp + 1)) in *. assert (vp <> npos) as Hv by lia.
  rewrite beyond_shift by lia. destruct (beyond vp ep) eqn:Ev; [done|]. apply beyond_false in Ev as [_ Lv].
  rewrite (shift_ne _ vp Hv), (shift_ne _ ep He). replace (size x + ep - (size x + vp)) with (ep - vp) by lia.
  rewrite substr_shift by lia. destruct (substr y vp _ ≫= Strip) as [v|]; [|done]. destruct (sp_request_ p) as [r|]; [|done].
  destruct (bool_decide _); [destruct (stoi v); [|done]|]; cbn; by rewrite Z.add_assoc.
Qed.

(** ** The loop over the headers *)

Lemma head_loop_fuel s p pos f g : bounded s -> 0 <= pos <= size s -> size s - pos < Z.of_nat f -> size s - pos < Z.of_nat g ->
  head_loop f s p pos = head_loop g s p pos.
Proof.
  intros Hs. revert g p pos. induction f as [|f IH]; intros g p pos H0 Hf Hg; [lia|]. destruct g as [|g]; [lia|].
  cbn [head_loop]. destruct (head_step s p pos) as [[p' pos']|ph] eqn:E; [|done].
  destruct (head_step_bounds s p pos p' pos' Hs ltac:(lia) E) as [B _]. apply IH; lia.
Qed.

(** The loop unfolds, its fuel is always enough. *)
Lemma parse_heads_step s p pos : bounded s -> 0 <= pos <= size s ->
  parse_heads s p pos = match head_step s p pos with inl (p', pos') => parse_heads s p' pos' | inr ph => ph end.
Proof.
  intros Hs H0. unfold parse_heads at 1. cbn [head_loop]. destruct (head_step s p pos) as [[p' pos']|ph] eqn:E; [|done].
  destruct (head_step_bounds s p pos p' pos' Hs ltac:(lia) E) as [B _].
  apply head_loop_fuel; [done|lia|unfold size in *; lia..].
Qed.

(** Induction over the headers of a text. *)
Lemma heads_ind s (P : RequestParser -> Z -> Prop) : bounded s ->
  (forall p pos, 0 <= pos <= size s ->
     (forall p' pos', head_step s p pos = inl (p', pos') -> pos < pos' <= size s -> P p' pos') -> P p pos) ->
  forall p pos, 0 <= pos <= size s -> P p pos.
Proof.
  intros Hs Hstep. assert (forall n p pos, 0 <= pos <= size s -> size s - pos < Z.of_nat n -> P p pos) as H.
  { induction n as [|n IH]; intros p pos H0 Hn; [lia|]. apply Hstep; [done|]. intros p' pos' E B. apply IH; lia. }
  intros p pos H0. apply (H (S (length s))); [done|]. unfold size in *. lia.
Qed.

Lemma parse_heads_shift x y p pos : bounded (x ++ y) -> 0 <= pos <= size y ->
  parse_heads (x ++ y) p (size x + pos) = shift_phase (size x) (parse_heads y p pos).
Proof.
  intros Hs. pose proof (size_nonneg x). pose proof (size_nonneg y). pose proof Hs as Hs'. rewrite size_app in Hs'.
  assert (bounded y) as Hy by lia. revert p pos. apply (heads_ind y); [done|]. intros p pos H0' IH.
  rewrite !parse_heads_step by (rewrite ?size_app; done || lia). rewrite head_step_shift by done.
  destruct (head_step y p pos) as [[p' pos']|ph] eqn:E; [|done].
  destruct (head_step_bounds y p pos p' pos' Hy ltac:(lia) E) as [B _]. cbn [shift_step]. apply IH; [done|lia].
Qed.

(** Stopping in the middle of the headers: the rest of the text goes on from there. *)
Lemma parse_heads_prefix a b p pos p1 n : bounded (a ++ b) -> 0 <= pos <= size a -> state_ p = State.kFinishedStartLine ->
  parse_heads a p pos = Next p1 n -> 0 <= n <= size a /\
  ((state_ p1 = State.kFinishedHeads /\ parse_heads (a ++ b) p pos = Next p1 n) \/
   (state_ p1 = State.kFinishedStartLine /\ parse_heads (a ++ b) p pos = parse_heads (a ++ b) p1 n)).
Proof.
  intros Hs H0. pose proof (size_nonneg b). pose proof Hs as Hs'. rewrite size_app in Hs'. assert (bounded a) as Ha by lia.
  revert p pos H0. apply (heads_ind a (fun p pos => state_ p = _ -> parse_heads a p pos = Next p1 n -> _)); [done|].
  intros p pos H0 IH Hst. rewrite (parse_heads_step a) by done.
  destruct (Z.eq_dec (find a CRLF pos) npos) as [E|E].
  { unfold head_step. rewrite E. cbv zeta. rewrite (proj2 (Z.eqb_neq _ _)) by lia. rewrite Z.eqb_refl.
    intros E1. injection E1 as <- <-. split; [lia|]. by right. }
  intros E1. rewrite (parse_heads_step (a ++ b)) by (rewrite ?size_app; done || lia).
  rewrite (head_step_prefix a b p pos Ha ltac:(lia) E).
  destruct (head_step a p pos) as [[p' pos']|ph] eqn:Es.
  - destruct (head_step_bounds a p pos p' pos' Ha ltac:(lia) Es) as (B & Hst' & _).
    apply IH; [done|lia|congruence|done].
  - subst ph. unfold head_step in Es. cbv zeta in Es. destruct (Z.eqb_spec (find a CRLF pos) pos) as [Ep|_].
    + injection Es as <- <-. destruct (scan_from_bound 2 _ a pos crlf_local ltac:(lia) E). unfold find in *. split; [lia|]. by left.
    + exfalso. rewrite (proj2 (Z.eqb_neq _ _) E) in Es. destruct (beyond _ _); [done|].
      destruct (_ ≫= Strip); [|done]. destruct (beyond _ _); [done|]. destruct (_ ≫= Strip); [|done].
      destruct (sp_request_ p); [|done]. destruct (bool_decide _); [destruct (stoi _)|]; done.
Qed.

(** An exception or a rejection among the headers stays where it is. *)
Lemma parse_heads_ends a b p pos : bounded (a ++ b) -> 0 <= pos <= size a ->
  match parse_heads a p pos with Next _ _ => True | ph => parse_heads (a ++ b) p pos = ph end.
Proof.
  intros Hs. pose proof (size_nonneg b). pose proof Hs as Hs'. rewrite size_app in Hs'. assert (bounded a) as Ha by lia.
  revert p pos. apply (heads_ind a (fun p pos => match parse_heads a p pos with Next _ _ => True | ph => _ = ph end)); [done|].
  intros p pos H0 IH. rewrite (parse_heads_step a) by done.
  destruct (Z.eq_dec (find a CRLF pos) npos) as [E|E].
  { unfold head_step. rewrite E. cbv zeta. by rewrite (proj2 (Z.eqb_neq _ _)), Z.eqb_refl by lia. }
  rewrite (parse_heads_step (a ++ b)), (head_step_prefix a b p pos Ha) by (rewrite ?size_app; done || lia).
  destruct (head_step a p pos) as [[p' pos']|ph] eqn:Es; [|by destruct ph].
  destruct (head_step_bounds a p pos p' pos' Ha ltac:(lia) Es) as [B _]. apply IH; [done|lia].
Qed.

(** ** What the phases keep *)

Notation length_ok p := (in_range 64 (content_length_ p)).

Lemma head_step_length s p pos p' pos' : head_step s p pos = inl (p', pos') -> length_ok p -> length_ok p'.
Proof.
  unfold head_step. cbv zeta. destruct (_ =? pos); [done|]. destruct (_ =? npos); [done|]. destruct (beyond _ _); [done|].
  destruct (_ ≫= Strip); [|done]. destruct (beyond _ _); [done|]. destruct (_ ≫= Strip); [|done].
  destruct (sp_request_ p); [|done]. destruct (bool_decide _); [destruct (stoi _) as [x|]; [|done]|];
    intros E; injection E as <- <-; [|done]. intros _. cbn. by apply wrap_range.
Qed.

Lemma head_step_stop s p pos ph : bounded s -> 0 <= pos <= size s -> head_step s p pos = inr ph ->
  match ph with
  | Next p' n => pos <= n <= size s /\ content_length_ p' = content_length_ p /\ sp_request_ p' = sp_request_ p /\
                 (state_ p' = State.kFinishedHeads \/ p' = p)
  | Stop p' n => n = pos /\ state_ p' = State.kFail /\ content_length_ p' = content_length_ p
  | Throw => True
  | Crash => sp_request_ p = None
  | NoFuel => False
  end.
Proof.
  intros Hs H0. unfold head_step. cbv zeta. destruct (Z.eqb_spec (find s CRLF pos) pos) as [Ep|].
  { intros E. injection E as <-. cbn. destruct (Z.eq_dec (find s CRLF pos) npos); [lia|].
    destruct (scan_from_bound 2 _ s pos crlf_local ltac:(lia) n). unfold find in *. split; [lia|]. auto. }
  destruct (_ =? npos); [intros E; injection E as <-; split; [lia|auto]|].
  destruct (beyond _ _); [intros E; by injection E as <-|].
  destruct (_ ≫= Strip); [|intros E; by injection E as <-]. destruct (beyond _ _); [intros E; by injection E as <-|].
  destruct (_ ≫= Strip); [|intros E; by injection E as <-]. destruct (sp_request_ p); [|intros E; by injection E as <-].
  destruct (bool_decide _); [destruct (stoi _)|]; intros E; (done || by injection E as <-).
Qed.

Lemma parse_heads_result s p pos : bounded s -> 0 <= pos <= size s -> length_ok p ->
  match parse_heads s p pos with
  | Next p' n => pos <= n <= size s /\ length_ok p' /\ (state_ p' = State.kFinishedHeads \/ state_ p' = state_ p) /\
                 (sp_request_ p <> None -> sp_request_ p' <> None)
  | Stop p' n => pos <= n <= size s /\ state_ p' = State.kFail /\ length_ok p'
  | Throw => True
  | Crash => sp_request_ p = None
  | NoFuel => False
  end.
Proof.
  intros Hs. revert p pos. apply (heads_ind s (fun p pos => length_ok p -> match parse_heads s p pos with
    | Next p' n => _ | Stop p' n => _ | Throw => _ | Crash => _ | NoFuel => _ end)); [done|].
  intros p pos H0 IH Hl. rewrite parse_heads_step by done.
  destruct (head_step s p pos) as [[p' pos']|ph] eqn:E.
  - destruct (head_step_bounds s p pos p' pos' Hs ltac:(lia) E) as (B & Hst & Hr & Hr').
    specialize (IH p' pos' eq_refl ltac:(lia) (head_step_length _ _ _ _ _ E Hl)). rewrite Hst in IH.
    destruct (parse_heads s p' pos') as [q n|q n| | |]; [|destruct IH; split; [lia|done]|done|done|done].
    destruct IH as (B1 & Hl1 & Hs1 & Hr1). split; [lia|]. auto.
  - pose proof (head_step_stop s p pos ph Hs H0 E) as H. destruct ph as [q n|q n| | |]; [|destruct H as (-> & ? & ->); split; [lia|done]|done|done|done].
    destruct H as (B & Hc & Hr & Hst). split; [lia|]. rewrite Hc, Hr. split; [done|]. split; [|done].
    destruct Hst as [Hst| ->]; auto.
Qed.

(** ** The body *)

Lemma parse_body_shift x y p pos : bounded (x ++ y) -> 0 <= pos <= size y -> length_ok p ->
  parse_body (x ++ y) p (size x + pos) = shift_phase (size x) (parse_body y p pos).
Proof.
  intros Hs H0 Hl. pose proof (size_nonneg x). rewrite size_app in Hs. unfold parse_body, SIZE_MAX, in_range in *.
  destruct (sp_request_ p) as [r|]; [|done]. rewrite !substr_shift by lia.
  replace (size (x ++ y) - (size x + pos)) with (size y - pos) by (rewrite size_app; lia).
  rewrite (wrap_small 64 (size y - pos)) by (unfold in_range; lia).
  destruct (negb _); [|destruct (substr y pos _); [cbn; by rewrite size_app|done]].
  destruct (Z.leb_spec (content_length_ p) (size y - pos)); [|done]. destruct (substr y pos _); [|done]. cbn [try].
  rewrite !wrap_small by (unfold in_range; lia). cbn. by rewrite Z.add_assoc.
Qed.

Lemma parse_body_result s p pos : bounded s -> 0 <= pos <= size s -> length_ok p ->
  match parse_body s p pos with
  | Next p' n => pos <= n <= size s /\ length_ok p' /\ sp_request_ p' <> None /\
                 (state_ p' = State.kFinishedAll \/ (p' = p /\ n = pos /\ content_length_ p <> SIZE_MAX))
  | Stop _ _ | NoFuel | Throw => False
  | Crash => sp_request_ p = None
  end.
Proof.
  intros Hs H0 Hl. unfold parse_body, SIZE_MAX, in_range in *. destruct (sp_request_ p) as [r|] eqn:Er; [|done].
  rewrite (wrap_small 64 (size s - pos)) by (unfold in_range; lia).
  assert (forall n, exists x, substr s pos n = Some x) as Hsub
    by (intros n; unfold substr; rewrite (proj2 (Z.ltb_ge _ _)) by lia; by eexists).
  destruct (Z.eqb_spec (content_length_ p) (2 ^ 64 - 1)) as [E|E]; cbn [negb].
  - destruct (Hsub (2 ^ 64 - 1)) as [x ->]. cbn. split; [lia|]. auto.
  - destruct (Z.leb_spec (content_length_ p) (size s - pos)).
    + destruct (Hsub (content_length_ p)) as [x ->]. cbn. rewrite wrap_small by (unfold in_range; lia). split; [lia|]. auto.
    + rewrite Er. split; [lia|]. split; [done|]. split; [done|]. by right.
Qed.

(** ** The phases after the start line *)

Definition rest (s : chars) (p : RequestParser) (pos : Z) : phase :=
  in_state State.kFinishedHeads (parse_body s) (in_state State.kFinishedStartLine (parse_heads s) (Next p pos)).

(** The states in which the request must be there. *)
Definition needs_request (p : RequestParser) : Prop :=
  state_ p = State.kFinishedStartLine \/ state_ p = State.kFinishedHeads \/ state_ p = State.kFinishedAll.

Definition in_middle (p : RequestParser) : Prop := state_ p = State.kFinishedStartLine \/ state_ p = State.kFinishedHeads.

Lemma rest_heads s p pos : state_ p = State.kFinishedStartLine ->
  rest s p pos = in_state State.kFinishedHeads (parse_body s) (parse_heads s p pos).
Proof. intros H. unfold rest, in_state at 2. by rewrite bool_decide_true. Qed.

Lemma rest_body s p pos : state_ p = State.kFinishedHeads -> rest s p pos = parse_body s p pos.
Proof. intros H. unfold rest, in_state. rewrite (bool_decide_false _) by congruence. by rewrite bool_decide_true. Qed.

Lemma parse_middle s p pos : in_middle p -> parse_from s p pos = rest s p pos.
Proof. intros H. unfold parse_from, in_state at 3. rewrite bool_decide_false; [done|]. destruct H; congruence. Qed.

Lemma rest_shift x y p pos : bounded (x ++ y) -> 0 <= pos <= size y -> length_ok p -> in_middle p ->
  rest (x ++ y) p (size x + pos) = shift_phase (size x) (rest y p pos).
Proof.
  intros Hs H0 Hl [Hst|Hst]; [|rewrite !rest_body by done; by apply parse_body_shift].
  assert (bounded y) as Hy by (pose proof (size_nonneg x); rewrite size_app in Hs; lia).
  rewrite !rest_heads, parse_heads_shift by done. pose proof (parse_heads_result y p pos Hy H0 Hl) as H.
  destruct (parse_heads y p pos) as [q n|q n| | |]; try done. cbn [shift_phase in_state].
  destruct (bool_decide _); [|done]. apply parse_body_shift; [done|lia|apply H].
Qed.

Lemma rest_prefix a b p pos p1 n : bounded (a ++ b) -> 0 <= pos <= size a -> length_ok p -> in_middle p ->
  result (rest a p pos) = Some (p1, n) -> state_ p1 <> State.kFail -> state_ p1 <> State.kFinishedAll ->
  0 <= n <= size a /\ length_ok p1 /\ in_middle p1 /\ rest (a ++ b) p pos = rest (a ++ b) p1 n.
Proof.
  intros Hs H0 Hl Hst Hr Hf Hall. pose proof (size_nonneg b). pose proof Hs as Hs'. rewrite size_app in Hs'.
  assert (bounded a) as Ha by lia.
  assert (forall p pos, 0 <= pos <= size a -> length_ok p -> state_ p = State.kFinishedHeads ->
    result (parse_body a p pos) = Some (p1, n) -> p1 = p /\ n = pos) as Hbody.
  { intros q k Hk Hlq _ Hq. pose proof (parse_body_result a q k Ha Hk Hlq) as H'.
    destruct (parse_body a q k) as [q' k'|q' k'| | |]; try done. injection Hq as -> ->.
    destruct H' as (_ & _ & _ & [H'|(-> & -> & _)]); done. }
  destruct Hst as [Hst|Hst].
  - rewrite rest_heads in Hr by done. pose proof (parse_heads_result a p pos Ha H0 Hl) as H'.
    destruct (parse_heads a p pos) as [q k|q k| | |] eqn:E; try done; [|injection Hr as -> ->; by destruct H' as (_ & ? & _)].
    destruct H' as (B & Hlq & _ & _). destruct (parse_heads_prefix a b p pos q k Hs H0 Hst E) as (B2 & [[Hq E2]|[Hq E2]]).
    + unfold in_state in Hr. rewrite bool_decide_true in Hr by done.
      destruct (Hbody q k) as [-> ->]; [done..|]. split; [done|]. split; [done|]. split; [by right|].
      rewrite rest_heads, E2, rest_body by done. unfold in_state. by rewrite bool_decide_true.
    + unfold in_state in Hr. rewrite bool_decide_false in Hr by congruence. injection Hr as -> ->.
      split; [done|]. split; [done|]. split; [by left|]. by rewrite !rest_heads, E2.
  - rewrite rest_body in Hr by done. destruct (Hbody p pos) as [-> ->]; [done..|]. split; [done|]. split; [done|].
    split; [by right|done].
Qed.

(** ** Piecewise parsing *)

(** A message without a length takes all that is there as its body. *)
Definition more_body (b : chars) (p : RequestParser) : RequestParser :=
  match sp_request_ p with Some r => set_request (set_body (body r ++ b) r) p | None => p end.

(** The end of a message that is complete in the first piece. *)
Definition completed (b : chars) (p : RequestParser) (n : Z) : phase :=
  if content_length_ p =? SIZE_MAX then Next (more_body b p) (n + size b) else Next p n.

Lemma parse_body_more a b p pos p1 n : bounded (a ++ b) -> 0 <= pos <= size a -> length_ok p -> state_ p = State.kFinishedHeads ->
  parse_body a p pos = Next p1 n -> state_ p1 = State.kFinishedAll -> parse_body (a ++ b) p pos = completed b p1 n.
Proof.
  intros Hs H0 Hl Hst E H1. pose proof (size_nonneg b). rewrite size_app in Hs. revert E. unfold parse_body, completed.
  destruct (sp_request_ p) as [r|]; [|done]. unfold SIZE_MAX, in_range in *. rewrite size_app.
  rewrite !(wrap_small 64 (_ - pos)) by (unfold in_range; lia).
  destruct (Z.eqb_spec (content_length_ p) (2 ^ 64 - 1)) as [E|E]; cbn [negb].
  - unfold substr. rewrite size_app, !(proj2 (Z.ltb_ge _ _)) by lia. cbn [try]. intros [= <- <-]. cbn.
    rewrite (proj2 (Z.eqb_eq _ _) E). unfold more_body, set_request, set_body. cbn.
    rewrite !take_ge, drop_app_le by (rewrite ?length_drop, ?length_app; unfold size in *; rewrite ?length_app; lia). done.
  - destruct (Z.leb_spec (content_length_ p) (size a - pos)); [|intros [= <- _]; congruence].
    rewrite (proj2 (Z.leb_le _ (size a + size b - pos))) by lia. rewrite substr_prefix by lia.
    destruct (substr a pos (content_length_ p)); cbn [try]; [|done]. intros [= <- <-]. cbn.
    by rewrite (proj2 (Z.eqb_neq _ _) E).
Qed.

(** What the first piece decides. *)
Lemma rest_ends a b p pos : bounded (a ++ b) -> 0 <= pos <= size a -> length_ok p -> in_middle p ->
  match rest a p pos with
  | Next p1 n => state_ p1 = State.kFinishedAll -> rest (a ++ b) p pos = completed b p1 n
  | Stop p1 _ => exists n, rest (a ++ b) p pos = Stop p1 n
  | ph => rest (a ++ b) p pos = ph
  end.
Proof.
  intros Hs H0 Hl Hm. pose proof (size_nonneg b). pose proof Hs as Ha. rewrite size_app in Ha. assert (bounded a) as Ha' by lia. clear Ha.
  assert (forall q k, 0 <= k <= size a -> length_ok q -> state_ q = State.kFinishedHeads ->
    match parse_body a q k with
    | Next p1 n => state_ p1 = State.kFinishedAll -> parse_body (a ++ b) q k = completed b p1 n
    | Stop p1 _ => exists n, parse_body (a ++ b) q k = Stop p1 n
    | ph => parse_body (a ++ b) q k = ph
    end) as Hbody.
  { intros q k Hk Hlq Hq. pose proof (parse_body_result a q k Ha' Hk Hlq) as Hr.
    destruct (parse_body a q k) eqn:E; try done.
    - intros Hall. by eapply parse_body_more.
    - unfold parse_body. by rewrite Hr. }
  destruct Hm as [Hst|Hst]; [|rewrite !rest_body by done; by apply Hbody].
  rewrite !rest_heads by done. pose proof (parse_heads_ends a b p pos Hs H0) as He. pose proof (parse_heads_result a p pos Ha' H0 Hl) as Hr.
  destruct (parse_heads a p pos) as [q k|q k| | |] eqn:E; [|rewrite He; cbn [in_state]; by eexists|by rewrite He..].
  destruct Hr as (B & Hlq & _ & _). cbn [in_state]. destruct (parse_heads_prefix a b p pos q k Hs H0 Hst E) as (B2 & [[Hq E2]|[Hq E2]]).
  - rewrite bool_decide_true, E2 by done. cbn [in_state]. rewrite bool_decide_true by done. by apply Hbody.
  - rewrite bool_decide_false by congruence. congruence.
Qed.

Definition shift_result (n : Z) (x : option (RequestParser * Z)) : option (RequestParser * Z) :=
  match x with Some (p, k) => Some (p, n + k) | None => None end.

Lemma result_shift n ph : result (shift_phase n ph) = shift_result n (result ph).
Proof. by destruct ph. Qed.

Lemma parse_start_state s p p' n : parse_start s p = Stop p' n -> state_ p' <> State.kFinishedAll.
Proof.
  unfold parse_start, fail_at, try; cbv zeta;
    repeat (match goal with |- context [match ?x with _ => _ end] => destruct x end);
    intros E; try discriminate; injection E as <- _; done.
Qed.

Lemma parse_start_returns s p : bounded s -> match parse_start s p with Next _ _ | Stop _ _ => True | _ => False end.
Proof.
  intros Hs. unfold parse_start. cbv zeta. unfold find_first_of, find_first_not_of, find. pose proof (size_nonneg s).
  set (ms := scan_from (head_in (str " ")) s 0). destruct (substr_some s 0 ms) as [x ->]; [done|]. cbn [try].
  destruct (bool_decide _); [done|]. set (ep := scan_from (starts_with CRLF) s ms). destruct (Z.eqb_spec ep npos) as [|Hep]; [done|].
  pose proof (search_ne _ _ _ Hs Hep) as Hms. destruct (scan_from_bound 1 _ s 0 (head_in_local _) ltac:(done) Hms) as [Bm _]. fold ms in Bm.
  destruct (scan_from_bound 2 _ s ms crlf_local Bm Hep) as [_ Be]. fold ep in Be.
  set (ub := scan_from (head_not_in (str " ")) s ms). destruct (beyond ub ep) eqn:Eu; [done|]. apply beyond_false in Eu as [_ Lu].
  destruct (substr_some s ub (u64 (scan_from (head_in (str " ")) s ub - ub))) as [y ->]; [lia|]. cbn [try].
  destruct (StringToUrlPath y _) as [ok u]. destruct ok; cbn [negb]; [|done].
  set (vb := scan_from (head_not_in (str " ")) s _). destruct (beyond vb ep) eqn:Ev; [done|]. apply beyond_false in Ev as [_ Lv].
  destruct (substr_some s vb (u64 (ep - vb))) as [z ->]; [lia|]. cbn [try].
  destruct (bool_decide (take 5 z = str "HTTP/")); cbn [negb]; [|done]. by destruct (bool_decide _).
Qed.

(** The state after the phases that stop. *)
Lemma rest_stop s p pos : bounded s -> 0 <= pos <= size s -> length_ok p -> in_middle p ->
  match rest s p pos with
  | Next p1 _ => state_ p1 <> State.kFail
  | Stop p1 _ => state_ p1 = State.kFail
  | _ => True
  end.
Proof.
  intros Hs H0 Hl Hm.
  assert (forall q k, 0 <= k <= size s -> length_ok q -> state_ q = State.kFinishedHeads ->
    match parse_body s q k with Next p1 _ => state_ p1 <> State.kFail | Stop p1 _ => state_ p1 = State.kFail | _ => True end) as Hbody.
  { intros q k Hk Hlq Hq. pose proof (parse_body_result s q k Hs Hk Hlq) as Hr.
    destruct (parse_body s q k); try done. destruct Hr as (_ & _ & _ & [?|(-> & _ & _)]); congruence. }
  destruct Hm as [Hst|Hst]; [|rewrite rest_body by done; by apply Hbody].
  rewrite rest_heads by done. pose proof (parse_heads_result s p pos Hs H0 Hl) as Hr.
  destruct (parse_heads s p pos) as [q k|q k| | |]; try done; cbn [in_state]; [|apply Hr].
  destruct Hr as (B & Hlq & Hq & _). destruct Hq as [Hq|Hq].
  - rewrite bool_decide_true by done. apply Hbody; [lia|done|done].
  - rewrite bool_decide_false by congruence. congruence.
Qed.

(** The parser that the first look at a start line leaves behind. *)
Lemma parse_start_again s p p1 : parse_start s p = Stop p1 0 -> state_ p1 <> State.kFail ->
  state_ p1 = State.kInit /\ forall t, parse_start t p1 = parse_start t p.
Proof.
  intros E Hf. assert (p1 = mkParser State.kInit (Some (default new_Request (sp_request_ p))) SIZE_MAX) as ->; [|done].
  revert E. unfold parse_start, fail_at, try. cbv zeta.
  repeat (match goal with |- context [match ?x with _ => _ end] => destruct x end);
    intros E; (discriminate || (injection E as <-; done)).
Qed.

Lemma parse_start_stop s p p1 n : parse_start s p = Stop p1 n -> n = 0.
Proof.
  unfold parse_start, fail_at, try. cbv zeta.
  repeat (match goal with |- context [match ?x with _ => _ end] => destruct x end); intros E; (discriminate || by injection E as _ <-).
Qed.

Lemma parse_init s p : state_ p = State.kInit -> parse s p =
  match parse_start s p with Next p' n => rest s p' n | ph => ph end.
Proof.
  intros H. unfold parse, parse_from, in_state at 3. rewrite bool_decide_true by done. by destruct (parse_start s p).
Qed.

Lemma middle_chunks a b p pos p1 n : bounded (a ++ b) -> 0 <= pos <= size a -> length_ok p -> in_middle p ->
  result (rest a p pos) = Some (p1, n) -> state_ p1 <> State.kFail -> state_ p1 <> State.kFinishedAll ->
  result (rest (a ++ b) p pos) = shift_result n (result (parse (drop (Z.to_nat n) a ++ b) p1)).
Proof.
  intros Hs H0 Hl Hm Hr Hf Hall. destruct (rest_prefix a b p pos p1 n Hs H0 Hl Hm Hr Hf Hall) as (Hn & Hl1 & Hm1 & ->).
  set (x := take (Z.to_nat n) a). assert (size x = n) as Ex by (unfold x, size in *; rewrite length_take; lia).
  assert (a ++ b = x ++ (drop (Z.to_nat n) a ++ b)) as Eab by (unfold x; by rewrite app_assoc, take_drop).
  rewrite Eab in *. replace (rest (x ++ _) p1 n) with (rest (x ++ drop (Z.to_nat n) a ++ b) p1 (size x + 0)) by (f_equal; lia).
  rewrite rest_shift; [|done| |done|done].
  - rewrite result_shift, Ex. unfold parse. by rewrite parse_middle.
  - pose proof (size_nonneg (drop (Z.to_nat n) a ++ b)). lia.
Qed.

Lemma parse_waits a b p p1 n : bounded (a ++ b) -> length_ok p ->
  result (parse a p) = Some (p1, n) -> state_ p1 <> State.kFail -> state_ p1 <> State.kFinishedAll ->
  result (parse (a ++ b) p) = shift_result n (result (parse (drop (Z.to_nat n) a ++ b) p1)).
Proof.
  intros Hs Hl Hr Hf Hall. pose proof (size_nonneg b). pose proof (size_nonneg a).
  assert (bounded a) as Ha by (rewrite size_app in Hs; lia).
  assert (in_middle p \/ state_ p = State.kInit \/ parse a p = Next p 0) as [Hm|[Hi|E]].
  { destruct (state_ p) eqn:E; [by right; left|by left; left|by left; right|right; right..];
      unfold parse, parse_from, in_state; by rewrite !bool_decide_false by congruence. }
  - unfold parse at 1 in Hr. rewrite parse_middle in Hr by done. unfold parse at 1. rewrite parse_middle by done.
    apply (middle_chunks a b p 0); [done|lia|done..].
  - rewrite parse_init in Hr by done. rewrite (parse_init _ p) by done.
    destruct (parse_start a p) as [p' k|p' k| | |] eqn:Es; try done.
    + destruct (parse_start_prefix a b p p' k Ha Es) as (-> & Hst & Hc & Hk).
      apply (middle_chunks a b p' k); [done|lia| |by left|done|done|done]. unfold in_range. rewrite Hc. unfold SIZE_MAX. lia.
    + cbn in Hr. injection Hr as -> ->. assert (n = 0) as -> by (by eapply parse_start_stop).
      destruct (parse_start_again a p p1 Es Hf) as [Hi1 Hag]. cbn [Z.to_nat drop]. rewrite (parse_init _ p1), Hag by done.
      by destruct (result _) as [[]|].
  - rewrite E in Hr. injection Hr as <- <-. cbn [Z.to_nat drop]. by destruct (result _) as [[]|].
Qed.

(** What a first piece that is not left waiting decides. *)
Lemma parse_ends a b p : bounded (a ++ b) -> length_ok p -> state_ p <> State.kFinishedAll ->
  match parse a p with
  | Next p1 n | Stop p1 n =>
      (state_ p1 = State.kFinishedAll -> parse (a ++ b) p = completed b p1 n) /\
      (state_ p1 = State.kFail -> (state_ p = State.kInit -> 32 ∈ a) ->
       exists p2 k, result (parse (a ++ b) p) = Some (p2, k) /\ state_ p2 = State.kFail)
  | ph => parse (a ++ b) p = ph
  end.
Proof.
  intros Hs Hl Hst. pose proof (size_nonneg a). pose proof (size_nonneg b).
  assert (bounded a) as Ha by (rewrite size_app in Hs; lia).
  assert (forall q k, 0 <= k <= size a -> length_ok q -> in_middle q ->
    match rest a q k with
    | Next p1 n | Stop p1 n =>
        (state_ p1 = State.kFinishedAll -> rest (a ++ b) q k = completed b p1 n) /\
        (state_ p1 = State.kFail -> exists p2 j, result (rest (a ++ b) q k) = Some (p2, j) /\ state_ p2 = State.kFail)
    | ph => rest (a ++ b) q k = ph
    end) as Hrest.
  { intros q k Hk Hlq Hq. pose proof (rest_ends a b q k Hs Hk Hlq Hq) as He. pose proof (rest_stop a q k Ha Hk Hlq Hq) as Hp.
    destruct (rest a q k) as [p1 n|p1 n| | |]; [|destruct He as [j ->]|done..].
    - split; [done|]. intros Hf. by rewrite Hf in Hp.
    - split; [congruence|]. intros Hf. by exists p1, j. }
  assert (in_middle p \/ state_ p = State.kInit \/ state_ p = State.kFail) as [Hm|[Ep|Ep]]
    by (unfold in_middle; destruct (state_ p); tauto).
  - specialize (Hrest p 0 ltac:(lia) Hl Hm). unfold parse. rewrite !parse_middle by done.
    destruct (rest a p 0); try done; split; naive_solver.
  - rewrite !parse_init by done. destruct (parse_start a p) as [p' k|p' k| | |] eqn:Es.
    + destruct (parse_start_prefix a b p p' k Ha Es) as (-> & Hs' & Hc & Hk).
      assert (length_ok p') as Hl' by (unfold in_range; rewrite Hc; unfold SIZE_MAX; lia).
      specialize (Hrest p' k ltac:(lia) Hl' ltac:(by left)). destruct (rest a p' k); try done; split; naive_solver.
    + split; [intros Hall; by apply parse_start_state in Es|]. intros Hf H32.
      destruct (parse_start_failed a b p p' k Hs (H32 Ep) Es Hf) as (p2 & -> & H2). by exists p2, 0.
    + pose proof (parse_start_returns a p Ha) as Hn. by rewrite Es in Hn.
    + pose proof (parse_start_returns a p Ha) as Hn. by rewrite Es in Hn.
    + pose proof (parse_start_returns a p Ha) as Hn. by rewrite Es in Hn.
  - unfold parse, parse_from, in_state. rewrite !bool_decide_false by congruence. split; [congruence|]. intros _ _. by exists p, 0.
Qed.

(** C23: Parsing is independent of how the bytes arrive.  Whatever the state of the
    parser and whatever the text: let it read a first piece [a], and then, as the
    server does, what [a] left together with the next piece [b]; compare with
    [a ++ b] at once.  When the parser waits for more after [a], the outcomes are
    the same: request, state and number of bytes.  When [a] completes the request,
    [a ++ b] completes the same request with the same number of bytes; only a
    request without a length takes all that is there as its body.  When [a] is
    rejected, [a ++ b] is rejected, provided that [a] reaches the space behind the
    method (a piece that ends within the method is rejected although the whole is
    fine, [cut_method_fails]).  And an exception in [a] is one in [a ++ b]. *)
Theorem parse_chunks a b p : size (a ++ b) < SIZE_MAX -> in_range 64 (content_length_ p) -> state_ p <> State.kFinishedAll ->
  match parse a p with
  | Next p1 n | Stop p1 n =>
      match state_ p1 with
      | State.kFinishedAll => parse (a ++ b) p =
          (if content_length_ p1 =? SIZE_MAX then Next (more_body b p1) (n + size b) else Next p1 n)
      | State.kFail => (state_ p = State.kInit -> 32 ∈ a) ->
          exists p2 k, result (parse (a ++ b) p) = Some (p2, k) /\ state_ p2 = State.kFail
      | _ => result (parse (a ++ b) p) = shift_result n (result (parse (drop (Z.to_nat n) a ++ b) p1))
      end
  | ph => parse (a ++ b) p = ph
  end.
Proof.
  intros Hs Hl Hst. pose proof (parse_ends a b p Hs Hl Hst) as He.
  destruct (parse a p) as [p1 n|p1 n| | |] eqn:E; try done; destruct He as [H1 H2];
    (destruct (state_ p1) eqn:E1; [| | |by apply H1|by apply H2]); apply parse_waits; rewrite ?E; try done; congruence.
Qed.

Definition chunk1 : chars := str "GET /x HTTP/1.1" ++ CRLF ++ str "Content-Length: 3" ++ CRLF ++ str "Ho".
Definition chunk2 : chars := str "st: a" ++ CRLF ++ CRLF ++ str "abc".

Lemma parse_chunks_witness :
  match parse chunk1 new_RequestParser with
  | Next p1 n => result (parse (chunk1 ++ chunk2) new_RequestParser) =
      shift_result n (result (parse (drop (Z.to_nat n) chunk1 ++ chunk2) p1))
  | _ => False
  end.
Proof.
  apply (parse_chunks chunk1 chunk2 new_RequestParser); [reflexivity|split; [discriminate|reflexivity]|discriminate].
Defined.

(** A start line that is not finished leaves a request behind. *)
Lemma parse_start_request s p : match parse_start s p with
  | Next p' _ => sp_request_ p' <> None
  | Stop p' _ => ~ in_middle p' /\ content_length_ p' = SIZE_MAX /\ (needs_request p' -> sp_request_ p' <> None)
  | Throw => True
  | Crash | NoFuel => False
  end.
Proof.
  destruct (parse_start s p) as [p' n|p' n| | |] eqn:E; revert E; unfold parse_start, fail_at, try; cbv zeta;
    repeat (match goal with |- context [match ?x with _ => _ end] => destruct x end);
    intros E; try discriminate; try done; injection E as <- _; unfold in_middle; cbn; naive_solver.
Qed.

Lemma rest_returns s p pos : bounded s -> 0 <= pos <= size s -> length_ok p -> (needs_request p -> sp_request_ p <> None) ->
  match rest s p pos with
  | Next p' n | Stop p' n => 0 <= n <= size s /\ length_ok p' /\ (needs_request p' -> sp_request_ p' <> None)
  | Throw => True
  | Crash | NoFuel => False
  end.
Proof.
  intros Hs H0 Hl Hr.
  assert (forall q k, 0 <= k <= size s -> length_ok q -> sp_request_ q <> None -> match parse_body s q k with
    | Next p' n | Stop p' n => 0 <= n <= size s /\ length_ok p' /\ (needs_request p' -> sp_request_ p' <> None)
    | Throw => True | Crash | NoFuel => False end) as Hbody.
  { intros q k Hk Hlq Hq. pose proof (parse_body_result s q k Hs Hk Hlq) as H'.
    destruct (parse_body s q k) as [q' k'|q' k'| | |]; try done. destruct H' as (B & Hl' & Hq' & _). split; [lia|done]. }
  unfold rest. destruct (decide (state_ p = State.kFinishedStartLine)) as [E|E].
  - unfold in_state at 2. rewrite bool_decide_true by done. pose proof (parse_heads_result s p pos Hs H0 Hl) as H'.
    assert (sp_request_ p <> None) as Hp by (apply Hr; by left).
    destruct (parse_heads s p pos) as [q k|q k| | |]; try done; cbn [in_state].
    + destruct H' as (B & Hlq & Hst & Hq). specialize (Hq Hp). destruct (bool_decide _); [apply Hbody; [lia|done..]|].
      split; [lia|done].
    + destruct H' as (B & Hst & Hlq). split; [lia|]. split; [done|]. intros [?|[?|?]]; congruence.
  - unfold in_state at 2. rewrite bool_decide_false by done. cbn [in_state]. destruct (bool_decide _) eqn:Eh.
    + apply bool_decide_eq_true in Eh. apply Hbody; [done|done|]. apply Hr. by right; left.
    + split; [lia|done].
Qed.

Lemma parse_total s p : size s < SIZE_MAX -> in_range 64 (content_length_ p) ->
  (needs_request p -> sp_request_ p <> None) ->
  match parse s p with
  | Next p' n | Stop p' n => 0 <= n <= size s /\ in_range 64 (content_length_ p') /\ (needs_request p' -> sp_request_ p' <> None)
  | Throw => True
  | Crash | NoFuel => False
  end.
Proof.
  intros Hs Hl Hr. destruct (decide (state_ p = State.kInit)) as [Hi|Hi].
  - rewrite parse_init by done. pose proof (parse_start_request s p) as Hq. destruct (parse_start s p) as [p' n|p' n| | |] eqn:E; try done.
    + destruct (parse_start_prefix s [] p p' n Hs E) as (_ & Hst & Hc & Hn).
      apply rest_returns; [done|lia| |done]. unfold in_range. rewrite Hc. unfold SIZE_MAX. lia.
    + rewrite (parse_start_stop _ _ _ _ E). destruct Hq as (H1 & H2 & H3). pose proof (size_nonneg s). split; [lia|].
      split; [unfold in_range; rewrite H2; unfold SIZE_MAX; lia|done].
  - unfold parse, parse_from, in_state at 3. rewrite bool_decide_false by done.
    apply (rest_returns s p 0 Hs); [pose proof (size_nonneg s); lia|done|done].
Qed.

(** A length that is not a number ends the program: nobody catches the exception. *)
Example bad_length_throws :
  parse (str "GET / HTTP/1.1" ++ CRLF ++ str "Content-Length: x" ++ CRLF ++ CRLF) new_RequestParser = Throw.
Proof. by vm_compute. Qed.

(** A piece that ends within the method is rejected. *)
Example cut_method_fails : result (parse (str "GE") new_RequestParser) =
  Some (mkParser State.kFail (Some new_Request) SIZE_MAX, 0).
Proof. by vm_compute. Qed.

(** A length of -1 stands for no length at all: everything becomes the body. *)
Example negative_length : option_map (fun r => (state_ r.1, option_map body (sp_request_ r.1), r.2)) (result (parse (str "GET / HTTP/1.1" ++ CRLF ++
    str "Content-Length: -1" ++ CRLF ++ CRLF ++ str "GET / HTTP/1.1") new_RequestParser)) =
  Some (State.kFinishedAll, Some (str "GET / HTTP/1.1"), 52).
Proof. by vm_compute. Qed.

(** *** Progress

    A parser that waits for the body waits for at least one byte, so a request
    is never completed without consuming something. *)

Definition pending (p : RequestParser) : Prop := state_ p = State.kFinishedHeads -> 0 < content_length_ p.

Lemma parse_heads_advance s p pos p' n : bounded s -> 0 <= pos <= size s -> length_ok p ->
  state_ p = State.kFinishedStartLine -> parse_heads s p pos = Next p' n -> state_ p' = State.kFinishedHeads -> pos < n.
Proof.
  intros Hs H0 Hl Hst. revert p pos H0 Hl Hst.
  apply (heads_ind s (fun p pos => length_ok p -> state_ p = _ -> parse_heads s p pos = Next p' n -> _ -> pos < n)); [done|].
  intros p pos H0 IH Hl Hst. rewrite parse_heads_step by done. destruct (head_step s p pos) as [[q k]|ph] eqn:E.
  - destruct (head_step_bounds s p pos q k Hs ltac:(lia) E) as (B & Hq & _). intros E1 Hp'.
    specialize (IH q k eq_refl ltac:(lia) (head_step_length _ _ _ _ _ E Hl) ltac:(congruence) E1 Hp'). lia.
  - intros -> Hp'. unfold head_step in E. cbv zeta in E. destruct (_ =? pos); [injection E as <- <-; lia|].
    destruct (_ =? npos); [injection E as <- <-; congruence|]. destruct (beyond _ _); [done|].
    destruct (_ ≫= Strip); [|done]. destruct (beyond _ _); [done|]. destruct (_ ≫= Strip); [|done].
    destruct (sp_request_ p); [|done]. destruct (bool_decide _); [destruct (stoi _)|]; done.
Qed.

Lemma parse_body_progress s p pos p' n : bounded s -> 0 <= pos <= size s -> length_ok p ->
  state_ p = State.kFinishedHeads -> parse_body s p pos = Next p' n ->
  (state_ p' = State.kFinishedAll -> 0 < content_length_ p -> pos < size s -> pos < n) /\ pending p'.
Proof.
  intros Hs H0 Hl Hst. unfold parse_body, pending, SIZE_MAX, in_range in *. destruct (sp_request_ p) as [r|]; [|done].
  rewrite (wrap_small 64 (size s - pos)) by (unfold in_range; lia).
  destruct (negb _); [|destruct (substr _ _ _); [|done]; intros E; injection E as <- <-; cbn; split; [intros; lia|done]].
  destruct (Z.leb_spec (content_length_ p) (size s - pos)).
  - destruct (substr _ _ _); [|done]. intros E. injection E as <- <-. cbn.
    rewrite wrap_small by (unfold in_range; lia). split; [intros; lia|done].
  - intros E. injection E as <- <-. split; [|intros; lia]. intros Ha. congruence.
Qed.

Lemma rest_progress s p pos p' n : bounded s -> 0 <= pos <= size s -> length_ok p -> in_middle p -> pending p ->
  result (rest s p pos) = Some (p', n) -> pos <= n /\ (state_ p' = State.kFinishedAll -> pos < size s -> pos < n) /\ pending p'.
Proof.
  intros Hs H0 Hl [Hst|Hst] Hp Hr.
  - rewrite rest_heads in Hr by done. pose proof (parse_heads_result s p pos Hs H0 Hl) as Hh.
    destruct (parse_heads s p pos) as [q k|q k| | |] eqn:E; try done; cbn [in_state] in Hr.
    2: { cbn in Hr. injection Hr as <- <-. destruct Hh as (B & Hq & _). split; [lia|]. split; intros; congruence. }
    destruct Hh as (B & Hlq & Hsq & _). destruct (bool_decide _) eqn:Eb.
    + apply bool_decide_eq_true in Eb. pose proof (parse_heads_advance s p pos q k Hs H0 Hl Hst E Eb).
      pose proof (parse_body_result s q k Hs ltac:(lia) Hlq) as Hb.
      destruct (parse_body s q k) as [q' k'|q' k'| | |] eqn:E2; try done. cbn in Hr. injection Hr as <- <-.
      split; [lia|]. split; [intros; lia|]. apply (parse_body_progress s q k q' k'); [done|lia|done..].
    + apply bool_decide_eq_false in Eb. cbn in Hr. injection Hr as <- <-. destruct Hsq as [?|Hsq]; [done|].
      split; [lia|]. split; intros ?; congruence.
  - rewrite rest_body in Hr by done. pose proof (parse_body_result s p pos Hs H0 Hl) as Hb.
    destruct (parse_body s p pos) as [q' k'|q' k'| | |] eqn:E2; try done. cbn in Hr. injection Hr as <- <-.
    destruct (parse_body_progress s p pos q' k' Hs H0 Hl Hst E2) as [H1 H2]. split; [lia|]. split; [|done].
    intros Ha. apply H1; [done|by apply Hp].
Qed.

Lemma parse_progress s p p' n : bounded s -> s <> [] -> length_ok p -> pending p -> state_ p <> State.kFinishedAll ->
  result (parse s p) = Some (p', n) -> (state_ p' = State.kFinishedAll -> 0 < n) /\ pending p'.
Proof.
  intros Hs Hne Hl Hp Hst Hr. assert (0 < size s) as H0 by (destruct s; [done|]; unfold size; cbn; lia).
  destruct (decide (in_middle p)) as [Hm|Hm].
  - unfold parse in Hr. rewrite parse_middle in Hr by done.
    destruct (rest_progress s p 0 p' n) as (_ & H1 & H2); [done|lia|done..|]. split; [|done]. intros Ha. by apply H1.
  - destruct (decide (state_ p = State.kInit)) as [Ei|Ei].
    + rewrite parse_init in Hr by done. pose proof (parse_start_request s p) as Hq.
      destruct (parse_start s p) as [q k|q k| | |] eqn:E; try done.
      * destruct (parse_start_prefix s [] p q k Hs E) as (_ & Hsq & Hc & Hk).
        destruct (rest_progress s q k p' n) as (H1 & _ & H2); [done|lia| |by left| |done|split; [lia|done]].
        { rewrite Hc. unfold in_range, SIZE_MAX. lia. }
        { unfold pending. congruence. }
      * cbn in Hr. injection Hr as <- <-. destruct Hq as (Hq & Hc & _). unfold in_middle, pending in *. split; [|tauto].
        intros Ha. by apply (parse_start_state s p q k E) in Ha.
    + unfold parse, parse_from, in_state in Hr. unfold in_middle in Hm.
      rewrite !bool_decide_false in Hr by tauto. cbn in Hr. injection Hr as <- <-. done.
Qed.

(** What a parser keeps between two calls. *)
Definition parser_wf (p : RequestParser) : Prop :=
  in_range 64 (content_length_ p) /\ (needs_request p -> sp_request_ p <> None) /\ pending p.

(** The parser always returns.  For every text that is not empty and every parser
    in an unfinished state, [parse] neither runs forever nor uses a request that is
    not there: it ends with a position within the text and a well-formed parser,
    and has consumed something if the request is complete, unless an exception
    ([std::stoi] on the value of Content-Length) passes through it. *)
Theorem parse_returns s p : size s < SIZE_MAX -> s <> [] -> parser_wf p -> state_ p <> State.kFinishedAll ->
  match parse s p with
  | Next p' n | Stop p' n => 0 <= n <= size s /\ parser_wf p' /\ (state_ p' = State.kFinishedAll -> 0 < n)
  | Throw => True
  | Crash | NoFuel => False
  end.
Proof.
  intros Hs Hne (Hl & Hr & Hp) Hst. pose proof (parse_total s p Hs Hl Hr) as Ht. pose proof (parse_progress s p) as Hg.
  unfold parser_wf. destruct (parse s p) as [p' n|p' n| | |]; try done;
    destruct Ht as (Hn & Hl' & Hr'), (Hg p' n Hs Hne Hl Hp Hst eq_refl); done.
Qed.

Lemma parse_returns_witness : match parse chunk1 new_RequestParser with
  | Next p' n | Stop p' n => 0 <= n <= size chunk1 /\ parser_wf p' /\ (state_ p' = State.kFinishedAll -> 0 < n)
  | Throw => True
  | Crash | NoFuel => False
  end.
Proof.
  apply (parse_returns chunk1 new_RequestParser); [reflexivity|discriminate| |discriminate].
  split; [split; [discriminate|reflexivity]|]. split; [intros [H|[H|H]]; discriminate H|intros H; discriminate H].
Defined.

(** ** Printing, then parsing *)

Lemma find_crlf pre mid post : 13 ∉ mid -> find (pre ++ mid ++ CRLF ++ post) CRLF (size pre) = size (pre ++ mid).
Proof.
  intros H. unfold find. rewrite scan_from_app. assert (scan (starts_with CRLF) (mid ++ CRLF ++ post) = Some (length mid)) as ->.
  - induction mid as [|c mid IH]; [done|]. apply not_elem_of_cons in H as [Hc H]. cbn [app scan].
    assert (starts_with CRLF (c :: mid ++ CRLF ++ post) = false) as ->.
    { destruct (starts_with _ _) eqn:E; [|done]. apply starts_with_app in E as [t E]. injection E as -> _. done. }
    by rewrite IH.
  - cbn [to_pos]. by rewrite size_app.
Qed.

Lemma find_until c pre mid post : c ∉ mid -> find_first_of (pre ++ mid ++ c :: post) [c] (size pre) = size (pre ++ mid).
Proof.
  intros H. apply (find_stops _ _ pre mid c post (head_in_stops [c])); [|by left].
  apply Forall_forall. intros x Hx Hc. by apply list_elem_of_singleton in Hc as ->.
Qed.

Lemma skip_one c pre x post : x <> c ->
  find_first_not_of (pre ++ c :: x :: post) [c] (size pre) = size (pre ++ [c]).
Proof.
  intros H. apply (find_stops _ _ pre [c] x post (head_not_in_stops [c])).
  - apply Forall_cons. split; [|by apply Forall_nil]. intros Hn. apply Hn. by left.
  - intros Hx. by apply list_elem_of_singleton in Hx.
Qed.

(** No spaces at the ends. *)
Definition trimmed (s : chars) : bool := negb (head_in (str " ") s) && negb (head_in (str " ") (reverse s)).

Lemma strip_trimmed s : size s < SIZE_MAX -> trimmed s = true -> Strip s = Some s.
Proof.
  unfold trimmed. rewrite andb_true_iff, !negb_true_iff. intros Hn [H1 H2]. unfold Strip. cbv zeta.
  destruct s as [|c s]; [done|]. assert (find_first_not_of (c :: s) (str " ") 0 = 0) as ->.
  { unfold find_first_not_of. apply (find_here _ _ [] c s (head_not_in_stops _)). by apply is_in_false. }
  change (0 =? npos) with false. unfold find_last_not_of.
  destruct (reverse (c :: s)) as [|d r] eqn:Er; [apply (f_equal length) in Er; by rewrite length_reverse in Er|].
  assert (scan (head_not_in (str " ")) (d :: r) = Some 0%nat) as ->.
  { cbn [scan]. cbn [head_not_in]. cbn [head_in] in H2. by rewrite H2. }
  assert (0 < size (c :: s)) by (unfold size; cbn; lia). rewrite (proj2 (Z.eqb_neq _ _)) by lia.
  apply (substr_rest []). lia.
Qed.

Definition header_ok (kv : chars * chars) : Prop :=
  (13 ∉ kv.1) /\ (58 ∉ kv.1) /\ trimmed kv.1 = true /\ (13 ∉ kv.2) /\ kv.2 <> [] /\ trimmed kv.2 = true.

(** The parser after one header of a printed message. *)
Definition with_header (kv : chars * chars) (r : Request) : Request := set_headers (map_set kv.1 kv.2 (headers r)) r.

Lemma head_step_printed pre kv post st r cl : header_ok kv -> bounded (pre ++ print_header kv ++ post) ->
  head_step (pre ++ print_header kv ++ post) (mkParser st (Some r) cl) (size pre) =
  if bool_decide (kv.1 = str "Content-Length") then
    match stoi kv.2 with
    | Some n => inl (mkParser st (Some (with_header kv r)) (u64 n), size (pre ++ print_header kv))
    | None => inr Throw
    end
  else inl (mkParser st (Some (with_header kv r)) cl, size (pre ++ print_header kv)).
Proof.
  destruct kv as [k v]. unfold header_ok, with_header, print_header. cbn [fst snd]. intros (H1 & H2 & H3 & H4 & H5 & H6) Hs.
  change (str ": ") with [58; 32] in *. set (s := pre ++ (k ++ [58; 32] ++ v ++ CRLF) ++ post) in *.
  assert (s = pre ++ (k ++ [58; 32] ++ v) ++ CRLF ++ post) as E1 by (unfold s; by rewrite <- !app_assoc).
  assert (s = pre ++ k ++ 58 :: 32 :: v ++ CRLF ++ post) as E2 by (unfold s; by rewrite <- !app_assoc).
  assert (s = (pre ++ k ++ [58; 32]) ++ v ++ CRLF ++ post) as E3 by (unfold s; by rewrite <- !app_assoc).
  assert (size s = size pre + size k + 2 + size v + 2 + size post) as Es
    by (rewrite E2; unfold size; rewrite !length_app; cbn; rewrite !length_app; cbn; lia).
  pose proof (size_nonneg pre). pose proof (size_nonneg k). pose proof (size_nonneg v). pose proof (size_nonneg post).
  unfold head_step. cbv zeta. change (str ":") with [58]. change (str " ") with [32].
  assert (find s CRLF (size pre) = size pre + size k + 2 + size v) as ->.
  { rewrite E1, find_crlf; [rewrite !size_app; change (size [58; 32]) with 2; lia|].
    rewrite !not_elem_of_app. split; [done|]. split; [set_solver|done]. }
  assert (find_first_of s [58] (size pre) = size pre + size k) as -> by (rewrite E2, find_until, size_app; done).
  rewrite !(proj2 (Z.eqb_neq _ _)) by lia. assert (beyond (size pre + size k) (size pre + size k + 2 + size v) = false) as ->
    by (unfold beyond; rewrite orb_false_iff, Z.eqb_neq, Z.leb_gt; lia).
  rewrite (span_small s) by (done || lia). replace (size pre + size k - size pre) with (size k) by lia.
  rewrite E2 at 1. rewrite substr_app by done. cbn [mbind option_bind]. rewrite strip_trimmed by (done || lia).
  assert (find_first_not_of s [32] (size pre + size k + 1) = size pre + size k + 2) as ->.
  { destruct v as [|c v]; [done|]. unfold trimmed in H6. rewrite andb_true_iff, !negb_true_iff in H6. destruct H6 as [H6 _].
    assert (s = (pre ++ k ++ [58]) ++ 32 :: c :: v ++ CRLF ++ post) as -> by (rewrite E2, <- !app_assoc; done).
    assert (size pre + size k + 1 = size (pre ++ k ++ [58])) as -> by (rewrite !size_app; change (size [58]) with 1; lia).
    rewrite skip_one; [rewrite !size_app; change (size [58]) with 1; change (size [32]) with 1; lia|].
    cbn [head_in] in H6. apply is_in_false in H6. intros ->. apply H6. by left. }
  assert (beyond (size pre + size k + 2) (size pre + size k + 2 + size v) = false) as ->.
  { unfold beyond. rewrite orb_false_iff, Z.eqb_neq, Z.leb_gt. destruct v; [done|]. unfold size in *. cbn [length] in *. lia. }
  rewrite (span_small s) by (done || lia). replace (size pre + size k + 2 + size v - (size pre + size k + 2)) with (size v) by lia.
  assert (size pre + size k + 2 = size (pre ++ k ++ [58; 32])) as Ep by (rewrite !size_app; change (size [58; 32]) with 2; lia).
  rewrite Ep at 1. rewrite E3 at 1. rewrite substr_app by done. cbn [mbind option_bind]. rewrite strip_trimmed by (done || lia).
  cbn [sp_request_]. replace (size pre + size k + 2 + size v + 2) with (size (pre ++ k ++ [58; 32] ++ v ++ CRLF)); [done|].
  rewrite !size_app. change (size [58; 32]) with 2. change (size CRLF) with 2. lia.
Qed.

Definition plain_header (kv : chars * chars) : Prop := header_ok kv /\ kv.1 <> str "Content-Length".

Lemma headers_parsed pre m post st r cl : Forall plain_header m -> bounded (pre ++ print_headers m ++ post) ->
  sorted_keys (headers r ++ m) = true ->
  parse_heads (pre ++ print_headers m ++ post) (mkParser st (Some r) cl) (size pre) =
  parse_heads (pre ++ print_headers m ++ post) (mkParser st (Some (set_headers (headers r ++ m) r)) cl) (size (pre ++ print_headers m)).
Proof.
  intros Hm. revert pre r. induction Hm as [|[k v] m [Hk Hc] Hm IH]; intros pre r Hs Hsort.
  { cbn. rewrite !app_nil_r. by destruct r. }
  change (print_headers ((k, v) :: m)) with (print_header (k, v) ++ print_headers m) in *. rewrite <- !app_assoc in *.
  pose proof (size_nonneg pre). pose proof (size_nonneg (print_header (k, v) ++ print_headers m ++ post)).
  rewrite parse_heads_step by (rewrite ?size_app in *; done || lia). rewrite head_step_printed by done.
  rewrite bool_decide_false by done. unfold with_header. cbn [fst snd].
  rewrite map_set_last by (by apply (sorted_before _ k v m)).
  rewrite (app_assoc pre (print_header (k, v))) in *. rewrite IH; [|done|cbn; by rewrite <- app_assoc].
  unfold set_headers. cbn [headers method http_ver url body]. by rewrite <- !app_assoc.
Qed.

Lemma length_header_ok n : 0 <= n -> header_ok (str "Content-Length", to_string n).
Proof.
  intros Hn. pose proof (to_string_digits n Hn) as Hd.
  assert (forall x, isdigit x = false -> x ∉ to_string n) as Hx by (intros x Hx; by apply digits_not_in).
  assert (exists c s, to_string n = c :: s) as (c & s & E) by apply dec_loop_cons.
  unfold header_ok. cbn [fst snd]. split; [apply is_in_false; reflexivity|]. split; [apply is_in_false; reflexivity|].
  split; [reflexivity|]. split; [by apply Hx|]. split; [by rewrite E|].
  assert (forall l, Forall (fun c => isdigit c = true) l -> head_in (str " ") l = false) as Hh.
  { intros [|x l] Hl; [done|]. apply Forall_cons in Hl as [Hl _]. cbn [head_in]. apply is_in_false. intros Hin.
    apply list_elem_of_singleton in Hin as ->. done. }
  unfold trimmed. rewrite !Hh; [done|by apply Forall_reverse|done].
Qed.

(** The headers of a message, its length and the blank line. *)
Lemma message_parsed pre m b t st r cl : Forall plain_header m -> bounded (pre ++ print_message m b ++ t) ->
  sorted_keys (headers r ++ m) = true -> size b < 2 ^ 31 ->
  exists q, pre ++ print_message m b ++ t = q ++ b ++ t /\
  parse_heads (pre ++ print_message m b ++ t) (mkParser st (Some r) cl) (size pre) =
  Next (mkParser State.kFinishedHeads
    (Some (set_headers (map_set (str "Content-Length") (to_string (size b)) (headers r ++ m)) r)) (size b)) (size q).
Proof.
  intros Hm Hs Hsort Hb. pose proof (size_nonneg b) as H0. unfold print_message in *.
  set (kv := (str "Content-Length", to_string (size b))).
  assert ((print_headers m ++ str "Content-Length: " ++ to_string (size b) ++ CRLF ++ CRLF ++ b) ++ t =
          print_headers m ++ print_header kv ++ CRLF ++ b ++ t) as E
    by (unfold print_header, kv; cbn [fst snd]; rewrite <- !app_assoc; done).
  rewrite E in *. clear E. exists (((pre ++ print_headers m) ++ print_header kv) ++ CRLF). split; [by rewrite <- !app_assoc|].
  rewrite headers_parsed by done. pose proof (size_nonneg (pre ++ print_headers m)). pose proof (size_nonneg (print_header kv ++ CRLF ++ b ++ t)).
  rewrite (app_assoc pre) in *. rewrite parse_heads_step by (rewrite ?size_app in *; done || lia).
  rewrite head_step_printed by (done || by apply length_header_ok). rewrite bool_decide_true by done.
  assert (stoi kv.2 = Some (size b)) as -> by (apply stoi_to_string; lia). unfold with_header, set_headers, kv. cbn [fst snd headers method http_ver url body].
  fold kv. rewrite (wrap_small 64) by (unfold in_range; lia). rewrite app_assoc in *.
  pose proof (size_nonneg ((pre ++ print_headers m) ++ print_header kv)). pose proof (size_nonneg (CRLF ++ b ++ t)).
  rewrite parse_heads_step by (rewrite ?size_app in *; done || lia). unfold head_step. cbv zeta.
  assert (forall x, find (x ++ CRLF ++ b ++ t) CRLF (size x) = size x) as ->.
  { intros x. rewrite <- (app_nil_r x) at 3. apply (find_crlf x []), not_elem_of_nil. }
  rewrite Z.eqb_refl. unfold set_state. cbn [sp_request_ content_length_]. by rewrite (size_app _ CRLF).
Qed.

(** *** The start line *)

Lemma method_back m : m <> Method.kUnset -> m <> Method.kMax ->
  StringToMethod (MethodToString m) = m /\ Forall (fun c => c <> 32 /\ c <> 13) (MethodToString m).
Proof.
  intros H1 H2. split; [by destruct m|]. destruct m; try done; (repeat (apply Forall_cons; split; [split; discriminate|]); by apply Forall_nil).
Qed.

Lemma ver_back v : v <> HttpVer.kUnset -> v <> HttpVer.kMax ->
  StringToHttpVer (HttpVerToString v) = v /\ take 5 (HttpVerToString v) = str "HTTP/" /\ (13 ∉ HttpVerToString v) /\
  exists x, HttpVerToString v = 72 :: x.
Proof.
  intros H1 H2. split; [by destruct v|]. split; [by destruct v|]. split; [|destruct v; try done; by eexists].
  apply is_in_false. by destruct v.
Qed.

(** The path of a request: what is printed must not end the word or the line. *)
Definition target_ok (p : UrlPath) : Prop := path_ok p /\ Forall (fun c => c <> 32 /\ c <> 13) (p_frag p).

Lemma isprint_13 x : isprint x = true -> x <> 13.
Proof. unfold isprint. lia. Qed.

Lemma encoded_word s mode : are_bytes s -> Forall (fun c => c <> 32 /\ c <> 13) (UrlEncode s mode).
Proof.
  intros Hs. eapply Forall_impl; [by apply encode_clean|]. intros c [Hp Hc]. split; [|by apply isprint_13].
  intros ->. destruct Hc as [|Hc]; [done|]. apply Hc. destruct mode; in_list.
Qed.

Lemma join_word b l sep : Forall (fun s => Forall (fun c => c <> 32 /\ c <> 13) s) l -> Forall (fun c => c <> 32 /\ c <> 13) sep ->
  Forall (fun c => c <> 32 /\ c <> 13) (join_loop sep b l).
Proof.
  intros Hl Hs. revert b. induction Hl as [|x l Hx Hl IH]; intros b; [by apply Forall_nil|]. cbn.
  rewrite !Forall_app. split; [by destruct b; [|apply Forall_nil]|]. done.
Qed.

Ltac word := repeat (apply Forall_cons; split; [split; discriminate|]); apply Forall_nil; exact I.

Lemma items_word m : forallb item_ok m = true -> Forall (fun s => Forall (fun c => c <> 32 /\ c <> 13) s) (map print_kv m).
Proof.
  intros Hm. apply Forall_fmap, Forall_forall. intros kv Hkv. rewrite forallb_forall in Hm.
  destruct (item_ok_spec kv) as (_ & Hk & Hv); [by apply Hm, list_elem_of_In|]. cbn. unfold print_kv.
  rewrite !Forall_app. split; [by apply encoded_word|]. split; [word|by apply encoded_word].
Qed.

Lemma target_word p : target_ok p -> Forall (fun c => c <> 32 /\ c <> 13) (UrlPathToString p).
Proof.
  intros [Hp Hf]. rewrite path_text. rewrite !Forall_app. split; [apply encoded_word, Hp|]. split; [|split].
  - destruct (decide (p_params p = [])) as [->|E]; [by apply Forall_nil|]. rewrite print_params_join by done.
    apply Forall_cons. split; [done|]. apply join_word; [apply items_word, Hp|word].
  - unfold text_query. pose proof (ok_query p Hp) as Hq. destruct (p_query p) as [|kv m]; [by apply Forall_nil|].
    rewrite print_query_join. apply Forall_app. split; [word|]. apply join_word; [by apply items_word|word].
  - unfold text_frag. destruct (is_empty _); [by apply Forall_nil|]. apply Forall_app. split; [word|done].
Qed.

Lemma word_not s : Forall (fun c => c <> 32 /\ c <> 13) s -> (32 ∉ s) /\ (13 ∉ s).
Proof. rewrite Forall_forall. intros H. split; intros Hin; by destruct (H _ Hin). Qed.

Lemma start_parsed m u v R : m <> Method.kUnset -> m <> Method.kMax -> v <> HttpVer.kUnset -> v <> HttpVer.kMax -> target_ok u ->
  let line := MethodToString m ++ str " " ++ UrlPathToString u ++ str " " ++ HttpVerToString v ++ CRLF in
  bounded (line ++ R) ->
  parse_start (line ++ R) new_RequestParser =
  Next (mkParser State.kFinishedStartLine (Some (mkRequest m v u [] [])) SIZE_MAX) (size line).
Proof.
  intros Hm1 Hm2 Hv1 Hv2 Hu line Hs.
  destruct (method_back m Hm1 Hm2) as [Em HM]. destruct (word_not _ HM) as [HM1 HM2].
  destruct (word_not _ (target_word u Hu)) as [HU1 HU2]. destruct (ver_back v Hv1 Hv2) as (Ev & E5 & HV & x & Ex).
  destruct (path_text_slash u (proj1 Hu)) as [ut Eut].
  assert (StringToUrlPath (UrlPathToString u) no_path = (true, u)) as EU.
  { apply path_roundtrip; [apply Hu|]. unfold line in Hs. rewrite !size_app in Hs.
    pose proof (size_nonneg (MethodToString m)). pose proof (size_nonneg R). pose proof (size_nonneg (HttpVerToString v)).
    change (size (str " ")) with 1 in Hs. change (size CRLF) with 2 in Hs. lia. }
  unfold line in *. clear line. change (str " ") with [32] in *.
  set (M := MethodToString m) in *. set (U := UrlPathToString u) in *. set (V := HttpVerToString v) in *.
  set (s := (M ++ [32] ++ U ++ [32] ++ V ++ CRLF) ++ R) in *.
  assert (s = M ++ 32 :: U ++ 32 :: V ++ CRLF ++ R) as E1 by (unfold s; by rewrite <- !app_assoc).
  assert (s = M ++ ([32] ++ U ++ [32] ++ V) ++ CRLF ++ R) as E2 by (unfold s; by rewrite <- !app_assoc).
  assert (s = (M ++ [32]) ++ U ++ 32 :: V ++ CRLF ++ R) as E3 by (unfold s; by rewrite <- !app_assoc).
  assert (s = (M ++ [32] ++ U) ++ 32 :: V ++ CRLF ++ R) as E4 by (unfold s; by rewrite <- !app_assoc).
  assert (s = (M ++ [32] ++ U ++ [32]) ++ V ++ CRLF ++ R) as E6 by (unfold s; by rewrite <- !app_assoc).
  pose proof (size_nonneg M). pose proof (size_nonneg U). pose proof (size_nonneg V). pose proof (size_nonneg R).
  assert (size s = size M + size U + size V + 4 + size R) as Es
    by (unfold s; rewrite !size_app; change (size [32]) with 1; change (size CRLF) with 2; lia).
  unfold parse_start. cbv zeta. cbn [sp_request_ new_RequestParser default url new_Request]. change (str " ") with [32].
  assert (find_first_of s [32] 0 = size M) as -> by (rewrite E1; by apply (find_until 32 [] M)).
  assert (substr s 0 (size M) = Some M) as -> by (rewrite E1; by apply (substr_app [] M)).
  cbn [try]. rewrite Em, bool_decide_false by done.
  assert (find s CRLF (size M) = size M + size U + size V + 2) as ->.
  { rewrite E2, find_crlf; [rewrite !size_app; change (size [32]) with 1; lia|]. rewrite !not_elem_of_app.
    repeat split; (done || set_solver). }
  assert (find_first_not_of s [32] (size M) = size M + 1) as ->.
  { rewrite E1, Eut. cbn [app]. rewrite skip_one by done. by rewrite size_app. }
  rewrite (proj2 (Z.eqb_neq _ _)) by lia.
  assert (beyond (size M + 1) (size M + size U + size V + 2) = false) as ->
    by (unfold beyond; rewrite orb_false_iff, Z.eqb_neq, Z.leb_gt; lia).
  assert (size M + 1 = size (M ++ [32])) as Ep by (by rewrite size_app).
  assert (find_first_of s [32] (size M + 1) = size M + 1 + size U) as -> by (rewrite Ep, E3, find_until, size_app; done).
  rewrite (span_small s) by (done || lia). replace (size M + 1 + size U - (size M + 1)) with (size U) by lia.
  rewrite Ep at 1. rewrite E3 at 1. rewrite substr_app by done. cbn [try].
  change (url (set_method m new_Request)) with no_path. rewrite EU. cbn [negb].
  assert (find_first_not_of s [32] (size M + 1 + size U) = size M + size U + 2) as ->.
  { rewrite E4. assert (size M + 1 + size U = size (M ++ [32] ++ U)) as -> by (rewrite !size_app; change (size [32]) with 1; lia).
    rewrite Ex. change ((72 :: x) ++ ?t) with (72 :: x ++ t). rewrite skip_one, !size_app by done. change (size [32]) with 1. lia. }
  assert (beyond (size M + size U + 2) (size M + size U + size V + 2) = false) as ->.
  { unfold beyond. rewrite orb_false_iff, Z.eqb_neq, Z.leb_gt. assert (size V <> 0) by (rewrite Ex; unfold size; cbn; lia). lia. }
  rewrite (span_small s) by (done || lia). replace (size M + size U + size V + 2 - (size M + size U + 2)) with (size V) by lia.
  assert (size M + size U + 2 = size (M ++ [32] ++ U ++ [32])) as -> by (rewrite !size_app; change (size [32]) with 1; lia).
  rewrite E6 at 1. rewrite substr_app by done. cbn [try]. rewrite E5, bool_decide_true, Ev, bool_decide_false by done.
  cbn [negb]. unfold set_http_ver, set_url, set_method. cbn [method http_ver url headers body].
  replace (size M + size U + size V + 2 + 2) with (size (M ++ [32] ++ U ++ [32] ++ V ++ CRLF)); [done|].
  rewrite !size_app. change (size [32]) with 1. change (size CRLF) with 2. lia.
Qed.

(** Requests whose text can be read back. *)
Record request_ok (r : Request) : Prop := {
  rq_method : method r <> Method.kUnset /\ method r <> Method.kMax;
  rq_ver : http_ver r <> HttpVer.kUnset /\ http_ver r <> HttpVer.kMax;
  rq_url : target_ok (url r);
  rq_headers : Forall plain_header (headers r);
  rq_sorted : sorted_keys (headers r) = true;
  rq_body : size (body r) < 2 ^ 31
}.

Lemma request_printed r t : request_ok r -> size (Request_toString r ++ t) < SIZE_MAX ->
  parse (Request_toString r ++ t) new_RequestParser =
  Next (mkParser State.kFinishedAll
         (Some (set_headers (map_set (str "Content-Length") (to_string (size (body r))) (headers r)) r)) (size (body r)))
       (size (Request_toString r)).
Proof.
  intros [[Hm1 Hm2] [Hv1 Hv2] Hu Hh Hsort Hb] Hs. pose proof (size_nonneg (body r)). pose proof (size_nonneg t).
  set (line := MethodToString (method r) ++ str " " ++ UrlPathToString (url r) ++ str " " ++ HttpVerToString (http_ver r) ++ CRLF).
  assert (Request_toString r = line ++ print_message (headers r) (body r)) as Er by (unfold Request_toString, line; by rewrite <- !app_assoc).
  rewrite Er in *. rewrite <- app_assoc in *. rewrite parse_init by done. unfold line at 1. rewrite start_parsed by done. fold line.
  rewrite rest_heads by done.
  destruct (message_parsed line (headers r) (body r) t State.kFinishedStartLine
    (mkRequest (method r) (http_ver r) (url r) [] []) SIZE_MAX Hh Hs Hsort Hb) as (q & Eq & ->).
  unfold in_state. rewrite bool_decide_true by done. rewrite Eq in *. unfold parse_body. cbn [sp_request_ content_length_].
  pose proof (size_nonneg q). rewrite !size_app in Hs. unfold SIZE_MAX in *. rewrite (proj2 (Z.eqb_neq _ _)) by lia. cbn [negb].
  replace (size (q ++ body r ++ t) - size q) with (size (body r) + size t) by (rewrite !size_app; lia).
  rewrite (wrap_small 64 (_ + size t)) by (unfold in_range; lia). rewrite (proj2 (Z.leb_le _ _)) by lia.
  rewrite substr_app by done. cbn [try]. rewrite wrap_small by (unfold in_range; lia).
  assert (size (line ++ print_message (headers r) (body r)) = size q + size (body r)) as ->; [|by destruct r].
  apply (f_equal size) in Eq. rewrite !size_app in *. lia.
Qed.

(** A header whose value is empty is printed, but the text is rejected. *)
Definition empty_header : Request := mkRequest Method.kGet HttpVer.k1_1 (mkPath (str "/") [] [] []) [(str "A", [])] [].

Example empty_header_rejected :
  option_map (fun r => state_ r.1) (result (parse (Request_toString empty_header) new_RequestParser)) = Some State.kFail.
Proof. by vm_compute. Qed.

(** A value with a space at its end is printed, and read without it. *)
Definition padded_header : Request := mkRequest Method.kGet HttpVer.k1_1 (mkPath (str "/") [] [] []) [(str "A", str "b ")] [].

Example padded_header_stripped :
  option_map (fun r => option_map headers (sp_request_ r.1)) (result (parse (Request_toString padded_header) new_RequestParser)) =
  Some (Some [(str "A", str "b"); (str "Content-Length", str "0")]).
Proof. by vm_compute. Qed.


