(* ===== verification/HttpServer.v ===== *)
(** * HttpServer: a connection of the HTTP server

    [modules/http/server]: the middleware chain and the router, the [Context]
    that hands the respond over when it is destroyed, and the part of
    [server_imp.cpp] that concerns one connection: taking requests out of the
    received bytes, and sending the responds in the order of the requests,
    whatever the order in which the contexts are released.

    The TCP connection is the world's [sent] (what [TcpServer::send] was given),
    [inbox] (the receive buffer) and [conn]: [None] once the client's token is
    no longer valid.  [held] are the contexts that somebody keeps, and [commits]
    records what each released context handed over. *)
From S2P Require Import Prelude Strings Url Http.

(** ** Middleware *)

(** What a callback does with its context: it drops it, keeps a reference for
    later, or calls the next one. *)
Inductive verdict := Release | Hold | CallNext.

Notation RequestCallback := (Request -> Respond -> Respond * verdict).

(** [handle(sp_ctx, 0)] over the callbacks; a null one does nothing. *)
Fixpoint handle (req_cb : list (option RequestCallback)) (req : Request) (res : Respond) : Respond * verdict :=
  match req_cb with
  | [] => (res, Release)
  | None :: _ => (res, Release)
  | Some func :: req_cb' =>
      let '(res, v) := func req res in
      match v with CallNext => handle req_cb' req res | _ => (res, v) end
  end.

(** [Router::handle] as such a callback; the table maps the prefixed path. *)
Definition route_prefix (m : Method.Method) : chars :=
  match m with
  | Method.kGet => str "get:"
  | Method.kPut => str "put:"
  | Method.kPost => str "post:"
  | Method.kDelete => str "del:"
  | _ => []
  end.

Definition Router_handle (cbs : list (chars * option RequestCallback)) : RequestCallback := fun req res =>
  match find_if (fun e => bool_decide (e.1 = route_prefix (method req) ++ p_path (url req))) cbs with
  | Some (_, Some cb) => cb req res
  | _ => (res, CallNext)
  end.

(** The respond of a new context. *)
Definition new_context_respond : Respond := mkRespond HttpVer.k1_1 StatusCode.k404_NotFound [] [].

(** ** The connection *)


Record Connection := mkConn {
  req_parser : RequestParser; req_index : Z; res_index : Z; close_index : Z; res_buff : gmap Z Respond }.
Definition new_Connection := mkConn new_RequestParser 0 0 INT_MAX ∅.

Record world := mkWorld {
  conn : option Connection; inbox : chars; sent : list chars; read_shut : bool;
  held : gset Z; commits : gmap Z Respond }.
Definition new_world := mkWorld (Some new_Connection) [] [] false ∅ ∅.

Notation W := (M world).

Definition set_conn (c : option Connection) (w : world) :=
  mkWorld c (inbox w) (sent w) (read_shut w) (held w) (commits w).
Definition set_inbox (b : chars) (w : world) := mkWorld (conn w) b (sent w) (read_shut w) (held w) (commits w).
Definition add_sent (t : chars) (w : world) := mkWorld (conn w) (inbox w) (sent w ++ [t]) (read_shut w) (held w) (commits w).
Definition shut_read (w : world) := mkWorld (conn w) (inbox w) (sent w) true (held w) (commits w).
Definition hold (i : Z) (w : world) := mkWorld (conn w) (inbox w) (sent w) (read_shut w) ({[i]} ∪ held w) (commits w).
Definition hand_over (i : Z) (r : Respond) (w : world) :=
  mkWorld (conn w) (inbox w) (sent w) (read_shut w) (held w ∖ {[i]}) (<[i := r]> (commits w)).

Definition set_parser (p : RequestParser) (c : Connection) := mkConn p (req_index c) (res_index c) (close_index c) (res_buff c).
Definition next_req (c : Connection) := mkConn (req_parser c) (req_index c + 1) (res_index c) (close_index c) (res_buff c).
Definition next_res (c : Connection) := mkConn (req_parser c) (req_index c) (res_index c + 1) (close_index c) (res_buff c).
Definition set_close (i : Z) (c : Connection) := mkConn (req_parser c) (req_index c) (res_index c) i (res_buff c).
Definition set_buff (b : gmap Z Respond) (c : Connection) := mkConn (req_parser c) (req_index c) (res_index c) (close_index c) b.

Definition update (f : Connection -> Connection) : W () := modify (fun w => set_conn (option_map f (conn w)) w).
Definition the_conn : W Connection := w ← get; the (conn w).
Definition send (t : chars) : W () := modify (add_sent t).

(** ** Sending the responds *)

(** The loop over the kept responds. *)
Fixpoint commit_loop (fuel : nat) : W () :=
  match fuel with
  | O => out_of_fuel
  | S f =>
      c ← the_conn;
      match res_buff c !! res_index c with
      | None => mret ()
      | Some res =>
          send (Respond_toString res) ;;
          update (fun c => next_res (set_buff (delete (res_index c) (res_buff c)) c)) ;;
          c ← the_conn;
          if close_index c <? res_index c then mret () else commit_loop f
      end
  end.

Definition commitRespond (index : Z) (res : Respond) : W () :=
  w ← get;
  match conn w with
  | None => mret ()
  | Some c =>
      if index =? res_index c then
        send (Respond_toString res) ;;
        update next_res ;;
        c ← the_conn;
        if close_index c <? res_index c then mret ()
        else commit_loop (S (base.size (res_buff c)))
      else update (fun c => set_buff (<[index := res]> (res_buff c)) c)
  end.

(** [Context::~Context] *)
Definition release (index : Z) (res : Respond) : W () := modify (hand_over index res) ;; commitRespond index res.

(** ** Receiving *)

Fixpoint map_get (k : chars) (m : StringMap) : option chars :=
  match m with [] => None | (k', v) :: m' => if bool_decide (k' = k) then Some v else map_get k m' end.

Definition IsLastRequest (req : Request) : bool :=
  match http_ver req, map_get (str "Connection") (headers req) with
  | HttpVer.k1_0, None => true
  | HttpVer.k1_0, Some v => find v (str "keep-alive") 0 =? npos
  | _, None => false
  | _, Some v => negb (find v (str "close") 0 =? npos)
  end.

Section Server.
Context (req_cb : list (option RequestCallback)).

(** A complete request: its context runs through the callbacks. *)
Definition on_request (req : Request) : W () :=
  (if IsLastRequest req
   then update (fun c => set_close (req_index c) c) ;; modify shut_read
   else mret ()) ;;
  c ← the_conn;
  let index := req_index c in
  update next_req ;;
  modify (hold index) ;;
  let '(res, v) := handle req_cb req new_context_respond in
  match v with Hold => mret () | _ => release index res end.

Definition disconnect : W () := modify (set_conn None).

(** The loop while there are readable bytes. *)
Fixpoint receive_loop (fuel : nat) : W () :=
  match fuel with
  | O => out_of_fuel
  | S f =>
      w ← get;
      match inbox w with
      | [] => mret ()
      | data =>
          c ← the_conn;
          '(p, rsize) ← the (result (parse data (req_parser c)));
          modify (set_inbox (drop (Z.to_nat rsize) data)) ;;
          match state_ p with
          | State.kFinishedAll =>
              let '(req, p) := getRequest p in
              update (set_parser p) ;;
              req ← the req;
              on_request req ;;
              receive_loop f
          | State.kFail => update (set_parser p) ;; disconnect
          | _ => update (set_parser p)
          end
      end
  end.

(** [data] has been added to the receive buffer. *)
Definition onTcpReceived (data : chars) : W () :=
  w ← get;
  match conn w with
  | None => mret () (* nobody receives for a freed connection *)
  | Some c =>
      modify (set_inbox (inbox w ++ data)) ;;
      if negb (close_index c =? INT_MAX) then modify (set_inbox [])
      else receive_loop (S (length (inbox w ++ data)))
  end.

Definition onTcpSendCompleted : W () :=
  w ← get;
  match conn w with
  | None => mret ()
  | Some c => if close_index c <? res_index c then disconnect else mret ()
  end.

Definition onTcpDisconnected : W () := disconnect.

(** ** Histories of a connection *)

Inductive event :=
| Received (data : chars)
| Released (index : Z) (res : Respond)
| SendCompleted
| Disconnected.

(** Only somebody who keeps a context can release it. *)
Definition on_event (e : event) : W () :=
  match e with
  | Received data => onTcpReceived data
  | Released i res => w ← get; if bool_decide (i ∈ held w) then release i res else mret ()
  | SendCompleted => onTcpSendCompleted
  | Disconnected => onTcpDisconnected
  end.

Fixpoint run (es : list event) : W () :=
  match es with [] => mret () | e :: es' => on_event e ;; run es' end.
End Server.

(** ** Examples *)

(** Keeps every context. *)
Definition keep_all : list (option RequestCallback) := [Some (fun _ res => (res, Hold))].

Definition get_x : chars := str "GET /x HTTP/1.1" ++ CRLF ++ str "Content-Length: 0" ++ CRLF ++ CRLF.
Definition get_close : chars := str "GET /y HTTP/1.1" ++ CRLF ++ str "Connection: close" ++ CRLF ++
  str "Content-Length: 0" ++ CRLF ++ CRLF.

Definition reply (s : chars) : Respond := mkRespond HttpVer.k1_1 StatusCode.k200_OK [] s.

Example pipelined : exists w, run keep_all [Received (get_x ++ get_x ++ take 5 get_x); Received (drop 5 get_x);
    Released 1 (reply (str "one")); Released 2 (reply (str "two")); Released 0 (reply (str "zero"))] new_world = Ret (tt, w) /\
  sent w = map Respond_toString [reply (str "zero"); reply (str "one"); reply (str "two")].
Proof. eexists. split; vm_compute; reflexivity. Qed.

(** A request behind the one that closes the connection is still answered. *)
Example answered_after_close : exists w, run [Some (fun _ res => (res, Release))] [Received (get_close ++ get_x)] new_world = Ret (tt, w) /\
  option_map close_index (conn w) = Some 0 /\ length (sent w) = 2%nat.
Proof. eexists. split; [|split]; vm_compute; reflexivity. Qed.

(** ** What holds between two events *)

(** [t]: when the computation may end with an exception. *)
Definition wp {A} (t : Prop) (m : W A) (Q : A -> world -> Prop) (w : world) : Prop :=
  match m w with
  | Ret (a, w') => Q a w'
  | Stuck => t
  | OutOfFuel => False
  end.

Lemma wpc_bind {A B} t (m : W A) (k : A -> W B) Q w :
  wp t m (fun a => wp t (k a) Q) w -> wp t (m ≫= k) Q w.
Proof. unfold wp, mbind, M_bind. by destruct (m w) as [[]| |]. Qed.

Lemma wpc_mono {A} t (m : W A) (Q Q' : A -> world -> Prop) w : (forall a w, Q a w -> Q' a w) -> wp t m Q w -> wp t m Q' w.
Proof. unfold wp. intros H. destruct (m w) as [[]| |]; auto. Qed.

Lemma wpc_throws {A} (t t' : Prop) (m : W A) Q w : (t -> t') -> wp t m Q w -> wp t' m Q w.
Proof. unfold wp. intros H. destruct (m w) as [[]| |]; auto. Qed.

(** The parser throws for one of the requests in the received bytes. *)
Fixpoint parser_throws (fuel : nat) (data : chars) (p : RequestParser) : bool :=
  match fuel, data with
  | S f, _ :: _ =>
      match result (parse data p) with
      | None => true
      | Some (p, rsize) =>
          match state_ p with
          | State.kFinishedAll => parser_throws f (drop (Z.to_nat rsize) data) (getRequest p).2
          | _ => false
          end
      end
  | _, _ => false
  end.

Definition event_throws (e : event) (w : world) : Prop :=
  match e, conn w with
  | Received data, Some c => close_index c = INT_MAX /\
      parser_throws (S (length (inbox w ++ data))) (inbox w ++ data) (req_parser c) = true
  | _, _ => False
  end.

(** The parser throws at one of the events. *)
Fixpoint run_throws (req_cb : list (option RequestCallback)) (es : list event) (w : world) : Prop :=
  match es with
  | [] => False
  | e :: es' => event_throws e w \/ exists w', on_event req_cb e w = Ret (tt, w') /\ run_throws req_cb es' w'
  end.

(** [x]: a context that has just been released; [n]: whether the next respond may be
    among the kept ones. *)
Record inv_conn (x : option Z) (n : bool) (c : Connection) (w : world) : Prop := {
  ic_len : Z.of_nat (length (sent w)) = res_index c;
  ic_req : res_index c <= req_index c;
  ic_buff : forall k r, res_buff c !! k = Some r -> commits w !! k = Some r /\ res_index c <= k /\ x <> Some k;
  ic_next : n = false -> res_index c <= close_index c -> res_buff c !! res_index c = None;
  ic_com : forall k r, commits w !! k = Some r ->
    0 <= k < req_index c /\ (k < res_index c \/ res_buff c !! k = Some r \/ x = Some k);
  ic_held : forall k, k ∈ held w -> 0 <= k < req_index c;
  ic_all : forall k, 0 <= k < req_index c -> k ∈ held w \/ is_Some (commits w !! k)
}.

Record inv_log (w : world) : Prop := {
  i_sent : forall k t, sent w !! k = Some t -> exists r, commits w !! Z.of_nat k = Some r /\ t = Respond_toString r;
  i_held : forall k, k ∈ held w -> commits w !! k = None
}.

(** What the connection keeps of the parser. *)
Definition parser_ok (p : RequestParser) : Prop :=
  parser_wf p /\ state_ p <> State.kFinishedAll /\ state_ p <> State.kFail.

Definition inv (w : world) : Prop :=
  inv_log w /\ forall c, conn w = Some c -> inv_conn None false c w /\ parser_ok (req_parser c).

(** *** Committing *)

Definition sent_next (res : Respond) (b : gmap Z Respond) (c : Connection) (w : world) : world :=
  set_conn (Some (next_res (set_buff b c))) (add_sent (Respond_toString res) w).

Lemma commit_loop_eq f c w : conn w = Some c -> commit_loop (S f) w =
  match res_buff c !! res_index c with
  | None => Ret (tt, w)
  | Some res =>
      let w' := sent_next res (delete (res_index c) (res_buff c)) c w in
      if close_index c <? res_index c + 1 then Ret (tt, w') else commit_loop f w'
  end.
Proof.
  intros Hc. destruct w as [[c'|] ib st rs hd cm]; [|done]. injection Hc as ->.
  cbn [commit_loop]. unfold the_conn, get, the, mbind, M_bind. cbn [conn mret M_ret].
  destruct (res_buff c !! res_index c) as [res|]; [|done]. cbn. by destruct (close_index c <? res_index c + 1).
Qed.

(** The next respond goes out. *)
Lemma sent_next_inv x res b c w : conn w = Some c -> inv_log w -> inv_conn x true c w ->
  commits w !! res_index c = Some res -> b = delete (res_index c) (res_buff c) -> (x = None \/ x = Some (res_index c)) ->
  inv_log (sent_next res b c w) /\ inv_conn None true (next_res (set_buff b c)) (sent_next res b c w).
Proof.
  intros Hc [Hs Hh] [Hlen Hreq Hbuff _ Hcom Hheld Hall] Hr -> Hx. split; split; cbn.
  - intros k t Hk. destruct (Nat.lt_ge_cases k (length (sent w))) as [Hlt|Hge].
    + rewrite lookup_app_l in Hk by done. by apply Hs.
    + rewrite lookup_app_r in Hk by done. destruct (k - length (sent w))%nat eqn:E; [|done].
      injection Hk as <-. exists res. split; [|done]. by replace (Z.of_nat k) with (res_index c) by lia.
  - done.
  - rewrite length_app. cbn. lia.
  - destruct (Hcom _ _ Hr) as [? _]. lia.
  - intros k r. rewrite lookup_delete_Some. intros [Hne Hk]. destruct (Hbuff k r Hk) as (H1 & H2 & H3).
    split; [done|]. split; [lia|done].
  - done.
  - intros k r Hk. destruct (Hcom k r Hk) as (H1 & H2). split; [done|].
    destruct (Z.eq_dec k (res_index c)) as [->|Hne]; [left; lia|]. rewrite lookup_delete_ne by done.
    destruct H2 as [?|[?|H2]]; [left; lia|by right; left|]. destruct Hx as [->| ->]; [done|]. congruence.
  - done.
  - done.
Qed.

Lemma commit_loop_inv f c w : conn w = Some c -> inv_log w -> inv_conn None true c w -> parser_ok (req_parser c) ->
  res_index c <= close_index c -> (base.size (res_buff c) < f)%nat -> wp False (commit_loop f) (fun _ => inv) w.
Proof.
  revert c w. induction f as [|f IH]; intros c w Hc Hl Hi Hp Hle Hf; [lia|].
  unfold wp. rewrite (commit_loop_eq f c w Hc). destruct (res_buff c !! res_index c) as [res|] eqn:E.
  - destruct (ic_buff _ _ _ _ Hi _ _ E) as (Hr & _).
    destruct (sent_next_inv None res _ c w Hc Hl Hi Hr eq_refl ltac:(by left)) as [Hl' Hi'].
    cbv zeta. destruct (Z.ltb_spec (close_index c) (res_index c + 1)).
    + split; [done|]. intros c' Hc'. injection Hc' as <-. split; [|done]. destruct Hi'. split; try done. cbn in *. lia.
    + apply (IH (next_res (set_buff (delete (res_index c) (res_buff c)) c))); [done|done|done|done|cbn; lia|].
      assert (base.size (res_buff c) <> 0%nat) by (apply map_size_ne_0_lookup; by eexists _, _).
      cbn. rewrite map_size_delete_Some by (by eexists). lia.
  - split; [done|]. intros c' Hc'. rewrite Hc in Hc'. injection Hc' as <-. split; [|done]. destruct Hi. by split.
Qed.

Lemma commitRespond_eq c res w : conn w = Some c -> commitRespond (res_index c) res w =
  let w' := sent_next res (res_buff c) c w in
  if close_index c <? res_index c + 1 then Ret (tt, w') else commit_loop (S (base.size (res_buff c))) w'.
Proof.
  intros Hc. destruct w as [[c'|] ib st rs hd cm]; [|done]. injection Hc as ->.
  unfold commitRespond, send, update, modify, the_conn, get, the, mbind, M_bind. cbn -[commit_loop]. rewrite Z.eqb_refl.
  cbn -[commit_loop]. destruct c; cbn -[commit_loop]. by destruct (_ <? _).
Qed.

Lemma commitRespond_inv i res w : inv_log w -> commits w !! i = Some res ->
  (forall c, conn w = Some c -> inv_conn (Some i) false c w /\ parser_ok (req_parser c) /\ res_index c <= i) ->
  wp False (commitRespond i res) (fun _ => inv) w.
Proof.
  intros Hl Hr Hc. destruct (conn w) as [c|] eqn:E.
  2: { unfold wp, commitRespond, mbind, M_bind, get. rewrite E. split; [done|]. intros c Hc'. congruence. }
  destruct (Hc c eq_refl) as (Hi & Hp & Hle). destruct (Z.eq_dec i (res_index c)) as [->|Hne].
  - assert (res_buff c !! res_index c = None) as En.
    { destruct (res_buff c !! res_index c) as [r|] eqn:Eb; [|done]. destruct (ic_buff _ _ _ _ Hi _ _ Eb) as (_ & _ & []). done. }
    assert (inv_conn (Some (res_index c)) true c w) as Hi' by (destruct Hi; by split).
    destruct (sent_next_inv _ res _ c w E Hl Hi' Hr eq_refl ltac:(by right)) as [Hl2 Hi2].
    rewrite delete_id in * by done. unfold wp. rewrite (commitRespond_eq c) by done. cbv zeta.
    destruct (Z.ltb_spec (close_index c) (res_index c + 1)).
    + split; [done|]. intros c' Hc'. injection Hc' as <-. split; [|done]. destruct Hi2. split; try done. cbn in *. lia.
    + apply (commit_loop_inv _ (next_res (set_buff (res_buff c) c))); [done|done|done|done|cbn; lia|cbn; lia].
  - unfold wp, commitRespond, mbind, M_bind, get. rewrite E, (proj2 (Z.eqb_neq _ _) Hne). unfold update, modify.
    split; [by destruct w, Hl|]. intros c' Hc'. cbn in Hc'. rewrite E in Hc'. injection Hc' as <-.
    split; [|done]. destruct Hi as [Hlen Hreq Hbuff Hnext Hcom Hheld Hall]. split; cbn.
    + done.
    + done.
    + intros k r. rewrite lookup_insert_Some. intros [[<- <-]|[Hk Hb]]; [split; [done|split; [lia|done]]|]. destruct (Hbuff k r Hb) as (? & ? & ?). done.
    + intros _ Hcl. rewrite lookup_insert_ne by done. by apply Hnext.
    + intros k r Hk. destruct (Hcom k r Hk) as (H1 & H2). split; [done|].
      destruct (Z.eq_dec k i) as [->|Hki]; [right; left; rewrite lookup_insert_eq; congruence|]. rewrite lookup_insert_ne by done.
      destruct H2 as [?|[?|H2]]; [by left|by right; left|congruence].
    + done.
    + done.
Qed.

(** *** Releasing a context *)

Lemma held_not_sent c w i : inv_log w -> inv_conn None false c w -> i ∈ held w -> res_index c <= i.
Proof.
  intros Hl Hi Hh. destruct (Z.lt_ge_cases i (res_index c)) as [Hlt|]; [|done]. exfalso.
  pose proof (ic_held _ _ _ _ Hi i Hh). pose proof (ic_len _ _ _ _ Hi).
  destruct (lookup_lt_is_Some_2 (sent w) (Z.to_nat i)) as [t Ht]; [lia|].
  destruct (i_sent _ Hl _ _ Ht) as (r & Hr & _). rewrite Z2Nat.id in Hr by lia. by rewrite (i_held _ Hl i Hh) in Hr.
Qed.

Lemma hand_over_inv i res w : inv w -> i ∈ held w -> inv_log (hand_over i res w) /\
  forall c, conn w = Some c -> inv_conn (Some i) false c (hand_over i res w) /\ parser_ok (req_parser c) /\ res_index c <= i.
Proof.
  intros [Hl Hc] Hh. pose proof (i_held _ Hl i Hh) as Hn. split.
  - split; cbn.
    + intros k t Hk. destruct (i_sent _ Hl k t Hk) as (r & Hr & ->). exists r. split; [|done].
      rewrite lookup_insert_ne; [done|]. congruence.
    + intros k Hk. rewrite lookup_insert_ne by set_solver. apply (i_held _ Hl). set_solver.
  - intros c Ec. destruct (Hc c Ec) as [Hi Hp]. pose proof (held_not_sent c w i Hl Hi Hh). split; [|done].
    pose proof (ic_held _ _ _ _ Hi i Hh) as Hir. destruct Hi as [Hlen Hreq Hbuff Hnext Hcom Hheld Hall]. split; cbn.
    + done.
    + done.
    + intros k r Hk. destruct (Hbuff k r Hk) as (H1 & H2 & _). assert (k <> i) by congruence.
      rewrite lookup_insert_ne by done. split; [done|]. split; [done|congruence].
    + done.
    + intros k r. rewrite lookup_insert_Some. intros [[<- <-]|[Hki Hk]]; [by auto|].
      destruct (Hcom k r Hk) as (H1 & [?|[?|?]]); [by auto|by auto|done].
    + intros k Hk. apply Hheld. set_solver.
    + intros k Hk. destruct (decide (k = i)) as [->|Hne]; [right; rewrite lookup_insert_eq; by eexists|].
      rewrite lookup_insert_ne by done. destruct (Hall k Hk); [left; set_solver|by right].
Qed.

Lemma release_inv i res w : inv w -> i ∈ held w -> wp False (release i res) (fun _ => inv) w.
Proof.
  intros Hw Hh. destruct (hand_over_inv i res w Hw Hh) as [Hl Hc]. unfold release. apply wpc_bind. unfold wp at 1, modify.
  apply commitRespond_inv; [done|apply lookup_insert_eq|done].
Qed.

(** *** A new request *)

(** No respond is kept for the next index: so it is while bytes are taken in. *)
Definition tight (w : world) : Prop := forall c, conn w = Some c -> res_buff c !! res_index c = None.

Lemma new_context_inv c x w w' : inv w -> tight w -> conn w = Some c -> conn w' = Some (next_req (set_close x c)) ->
  sent w' = sent w -> commits w' = commits w -> held w' = {[req_index c]} ∪ held w -> inv w' /\ tight w'.
Proof.
  intros [Hl Hc] Ht Ec Ec' Es Em Eh. destruct (Hc c Ec) as [[Hlen Hreq Hbuff Hnext Hcom Hheld Hall] Hp].
  assert (commits w !! req_index c = None) as Hn.
  { destruct (commits w !! req_index c) as [r|] eqn:E; [|done]. destruct (Hcom _ _ E). lia. }
  assert (0 <= req_index c) by lia. split; [split|].
  - destruct Hl as [Hs Hh]. split; rewrite ?Es, ?Em, ?Eh; [done|]. intros k Hk. rewrite elem_of_union, elem_of_singleton in Hk.
    destruct Hk as [->|Hk]; [done|by apply Hh].
  - intros c' Hc'. rewrite Ec' in Hc'. injection Hc' as <-. split; [|done].
    split; rewrite ?Es, ?Em, ?Eh; cbn; [done|lia|done| | | |].
    + intros _ _. by apply Ht.
    + intros k r Hk. destruct (Hcom k r Hk). split; [lia|done].
    + intros k Hk. rewrite elem_of_union, elem_of_singleton in Hk. destruct Hk as [->|Hk]; [lia|]. specialize (Hheld k Hk). lia.
    + intros k Hk. destruct (Z.eq_dec k (req_index c)) as [->|]; [left; set_solver|].
      destruct (Hall k ltac:(lia)); [left; set_solver|by right].
  - intros c' Hc'. rewrite Ec' in Hc'. injection Hc' as <-. exact (Ht c Ec).
Qed.

(** A respond for the newest request goes out at once or is kept. *)
Definition committed_newest (i : Z) (res : Respond) (c : Connection) (w : world) : world :=
  if i =? res_index c then sent_next res (res_buff c) c w else set_conn (Some (set_buff (<[i := res]> (res_buff c)) c)) w.

Lemma commit_newest_eq i res c w : conn w = Some c -> res_buff c !! (res_index c + 1) = None \/ i <> res_index c ->
  commitRespond i res w = Ret (tt, committed_newest i res c w).
Proof.
  intros Hc Hn. unfold committed_newest. destruct (Z.eqb_spec i (res_index c)) as [->|Hne].
  - destruct Hn as [Hn|]; [|done]. rewrite (commitRespond_eq c) by done. cbv zeta. destruct (_ <? _); [done|].
    rewrite (commit_loop_eq _ (next_res (set_buff (res_buff c) c))) by done. cbn. by rewrite Hn.
  - destruct w as [c' ib st rs hd cm]. cbn in Hc. subst c'. unfold commitRespond, update, modify, mbind, M_bind, get. cbn [conn].
    by rewrite (proj2 (Z.eqb_neq _ _) Hne).
Qed.

Lemma release_newest i res c w : inv w -> tight w -> conn w = Some c -> i ∈ held w -> req_index c = i + 1 ->
  exists w' c', release i res w = Ret (tt, w') /\ inv w' /\ tight w' /\ inbox w' = inbox w /\ conn w' = Some c' /\
    req_index c' = req_index c /\ req_parser c' = req_parser c /\ close_index c' = close_index c.
Proof.
  intros Hw Ht Hc Hh Hi. pose proof (release_inv i res w Hw Hh) as Hr. destruct Hw as [Hl Hcw]. destruct (Hcw c Hc) as [Hic Hp].
  assert (forall k, i < k -> res_buff c !! k = None) as Hbig.
  { intros k Hk. destruct (res_buff c !! k) as [r|] eqn:E; [|done]. destruct (ic_buff _ _ _ _ Hic _ _ E) as (E2 & _).
    destruct (ic_com _ _ _ _ Hic _ _ E2). lia. }
  assert (conn (hand_over i res w) = Some c) as Hc' by (by destruct w).
  assert (release i res w = Ret (tt, committed_newest i res c (hand_over i res w))) as E.
  { unfold release, mbind, M_bind, modify. apply commit_newest_eq; [done|].
    destruct (Z.eq_dec i (res_index c)) as [->|]; [left; apply Hbig; lia|by right]. }
  unfold wp in Hr. rewrite E in *. clear E. revert Hr. unfold tight, committed_newest. intros Hr.
  destruct (Z.eqb_spec i (res_index c)) as [->|Hne]; (eexists _, _; split; [done|]; split; [exact Hr|]);
    (split; [|by repeat split]); intros c' H'; injection H' as <-; cbn.
  - apply Hbig. lia.
  - rewrite lookup_insert_ne by done. by apply Ht.
Qed.

Lemma on_request_inv req_cb req c w : inv w -> tight w -> conn w = Some c ->
  exists w' c', on_request req_cb req w = Ret (tt, w') /\ inv w' /\ tight w' /\ inbox w' = inbox w /\ conn w' = Some c' /\
    req_index c' = req_index c + 1 /\ req_parser c' = req_parser c.
Proof.
  intros Hw Ht Hc. set (x := if IsLastRequest req then req_index c else close_index c).
  set (w1 := (if IsLastRequest req then shut_read (set_conn (Some (set_close x c)) w) else w)).
  set (w2 := hold (req_index c) (set_conn (Some (next_req (set_close x c))) w1)).
  assert (on_request req_cb req w = let '(res, v) := handle req_cb req new_context_respond in
    match v with Hold => Ret (tt, w2) | _ => release (req_index c) res w2 end) as ->.
  { destruct w as [c0 ib st rs hd cm]. cbn in Hc. subst c0.
    unfold on_request, w2, w1, x, update, modify, the_conn, get, the, mbind, M_bind. cbn.
    destruct (IsLastRequest req); cbn; destruct c; cbn; destruct (handle _ _ _) as [res []]; reflexivity. }
  destruct (new_context_inv c x w w2 Hw Ht Hc) as [Hw2 Ht2]; [done|by unfold w2, w1; destruct (IsLastRequest req)..|].
  assert (inbox w2 = inbox w) as Hib by (by unfold w2, w1; destruct (IsLastRequest req)).
  destruct (handle _ _ _) as [res v].
  destruct (release_newest (req_index c) res (next_req (set_close x c)) w2) as (w' & c' & E & H1 & H2 & H3 & H4 & H5 & H6 & _);
    [done|done|done|unfold w2; cbn; set_solver|done|].
  destruct v; [|eexists w2, _; done|]; (eexists w', c'; rewrite H3; done).
Qed.

(** *** The loop and the events *)

(** Releasing takes in nothing. *)
Definition same_intake (w w' : world) : Prop :=
  inbox w' = inbox w /\ forall c', conn w' = Some c' -> exists c, conn w = Some c /\ req_index c' = req_index c.

Lemma commit_loop_intake f w w' : commit_loop f w = Ret (tt, w') -> same_intake w w'.
Proof.
  revert w. induction f as [|f IH]; intros w; [done|]. destruct (conn w) as [c|] eqn:Ec.
  - rewrite (commit_loop_eq f c w Ec). destruct (res_buff c !! _) as [r|]; [|intros E; injection E as <-; split; [done|by eexists]].
    cbv zeta. destruct (_ <? _); intros E.
    + injection E as <-. split; [done|]. intros c' Hc'. injection Hc' as <-. by eexists.
    + destruct (IH _ E) as [H1 H2]. split; [done|]. intros c' Hc'. destruct (H2 c' Hc') as (c2 & Hc2 & ->). injection Hc2 as <-. by eexists.
  - cbn [commit_loop]. unfold the_conn, get, the, mbind, M_bind. by rewrite Ec.
Qed.

Lemma release_intake i res w w' : release i res w = Ret (tt, w') -> same_intake w w'.
Proof.
  unfold release, modify. unfold mbind at 1, M_bind at 1. set (w0 := hand_over i res w).
  assert (inbox w0 = inbox w /\ conn w0 = conn w) as [E1 E2] by (by destruct w). unfold same_intake. rewrite <- E1, <- E2. clearbody w0.
  destruct (conn w0) as [c|] eqn:Ec.
  - destruct (Z.eq_dec i (res_index c)) as [->|Hne].
    + rewrite (commitRespond_eq c) by done. cbv zeta. destruct (_ <? _); intros E.
      * injection E as <-. split; [done|]. intros c' Hc'. injection Hc' as <-. by eexists.
      * destruct (commit_loop_intake _ _ _ E) as [H1 H2]. split; [done|]. intros c' Hc'.
        destruct (H2 c' Hc') as (c2 & Hc2 & ->). injection Hc2 as <-. by eexists.
    + unfold commitRespond, mbind, M_bind, get. rewrite Ec, (proj2 (Z.eqb_neq _ _) Hne). intros E. injection E as <-.
      split; [done|]. intros c' Hc'. cbn in Hc'. rewrite Ec in Hc'. injection Hc' as <-. by eexists.
  - unfold commitRespond, mbind, M_bind, get. rewrite Ec. intros E. injection E as <-. rewrite Ec. done.
Qed.

(** Requests and unread bytes are bounded by what was received. *)
Definition budget (n : Z) (w : world) : Prop :=
  forall c, conn w = Some c -> req_index c + size (inbox w) <= n.

Lemma set_parser_inv c p w : inv_log w -> inv_conn None false c w -> inv_conn None false (set_parser p c) w.
Proof. intros Hl []. by split. Qed.

Definition consumed (k : Z) (q : RequestParser) (c : Connection) (w : world) : world :=
  set_inbox (drop (Z.to_nat k) (inbox w)) (set_conn (Some (set_parser q c)) w).

Lemma receive_loop_eq req_cb f c w : conn w = Some c -> inbox w <> [] ->
  receive_loop req_cb (S f) w =
  match result (parse (inbox w) (req_parser c)) with
  | None => Stuck
  | Some (p, k) =>
      match state_ p with
      | State.kFinishedAll =>
          match sp_request_ p with
          | None => Stuck
          | Some r => (on_request req_cb r ;; receive_loop req_cb f) (consumed k (mkParser State.kInit None (content_length_ p)) c w)
          end
      | State.kFail => Ret (tt, set_conn None (consumed k p c w))
      | _ => Ret (tt, consumed k p c w)
      end
  end.
Proof.
  destruct w as [c0 [|x data] st rs hd cm]; [done|]. cbn [conn inbox]. intros -> _. cbn [receive_loop].
  unfold the_conn, update, disconnect, the, modify, get, mbind, M_bind, getRequest. cbn -[parse receive_loop on_request result drop Z.to_nat].
  destruct (result (parse (x :: data) (req_parser c))) as [[p k]|]; [|done]. cbn [mret M_ret].
  destruct (state_ p) eqn:E; try reflexivity.
  rewrite bool_decide_true by done. by destruct (sp_request_ p).
Qed.

Lemma consumed_inv k q c w : inv w -> tight w -> conn w = Some c -> parser_ok q -> inv (consumed k q c w) /\ tight (consumed k q c w).
Proof.
  intros [Hl Hc] Ht Ec Hq. destruct (Hc c Ec) as [Hi _]. split; [split; [by destruct Hl|]|]; intros c' Hc'; injection Hc' as <-.
  - split; [by destruct Hi|done].
  - exact (Ht c Ec).
Qed.

(** What a call of the parser gives the loop. *)
Lemma parse_step s p p' k : size s < SIZE_MAX -> s <> [] -> parser_ok p -> result (parse s p) = Some (p', k) ->
  0 <= k <= size s /\ parser_wf p' /\ (state_ p' = State.kFinishedAll -> 0 < k).
Proof.
  intros Hs Hne ((Hl & Hr & Hp) & Hst & _) E. destruct (parse_progress s p p' k Hs Hne Hl Hp Hst E) as [H1 H2].
  pose proof (parse_total s p Hs Hl Hr) as Ht. unfold parser_wf.
  destruct (parse s p); try done; cbn in E; injection E as -> ->; destruct Ht as (? & ? & ?); done.
Qed.

Lemma drop_size k (s : chars) : 0 <= k <= size s -> size (drop (Z.to_nat k) s) = size s - k.
Proof. unfold size. rewrite length_drop. lia. Qed.

Lemma receive_loop_inv req_cb n fuel c w : n < INT_MAX -> inv w -> tight w -> conn w = Some c ->
  req_index c + size (inbox w) <= n -> (length (inbox w) < fuel)%nat ->
  wp (parser_throws fuel (inbox w) (req_parser c) = true) (receive_loop req_cb fuel) (fun _ w' => inv w' /\ budget n w') w.
Proof.
  intros Hn. revert c w. induction fuel as [|f IH]; intros c w Hw Ht Ec Hb Hf; [lia|].
  destruct (decide (inbox w = [])) as [Ei|Hne].
  { unfold wp. cbn [receive_loop]. unfold mbind, M_bind, get. rewrite Ei. split; [done|]. intros c' Hc'.
    rewrite Ei in *. assert (c' = c) as -> by congruence. done. }
  pose proof Hw as [Hl Hc]. destruct (Hc c Ec) as [Hi Hp]. assert (0 <= req_index c) as H0 by (destruct Hi; lia).
  assert (size (inbox w) < SIZE_MAX) as Hs by (unfold INT_MAX, SIZE_MAX in *; lia).
  assert (parser_throws (S f) (inbox w) (req_parser c) = match result (parse (inbox w) (req_parser c)) with
    | None => true
    | Some (p, k) => match state_ p with
        | State.kFinishedAll => parser_throws f (drop (Z.to_nat k) (inbox w)) (getRequest p).2 | _ => false end
    end) as Eth by (by destruct (inbox w)).
  unfold wp. rewrite Eth, (receive_loop_eq req_cb f c w Ec Hne). clear Eth.
  destruct (result (parse (inbox w) (req_parser c))) as [[p k]|] eqn:Er; [|done].
  destruct (parse_step _ _ _ _ Hs Hne Hp Er) as (Hk & Hwf & Hpos).
  assert (forall q, budget n (consumed k q c w)) as Hbud.
  { intros q c' Hc'. injection Hc' as <-. cbn. rewrite drop_size by done. lia. }
  destruct (state_ p) eqn:Est.
  1-3: (split; [|by apply Hbud]; apply consumed_inv; [done|done|done|]; split; [done|]; rewrite Est; done).
  - destruct Hwf as (Hlp & Hrp & _). destruct (sp_request_ p) as [r|] eqn:Erq; [|exfalso; apply Hrp; [by right; right|done]].
    set (w1 := consumed k (mkParser State.kInit None (content_length_ p)) c w).
    assert (parser_ok (mkParser State.kInit None (content_length_ p))) as Hp0.
    { split; [|done]. split; [done|]. split; [intros [?|[?|?]]; done|done]. }
    destruct (consumed_inv k _ c w Hw Ht Ec Hp0) as [Hw1 Ht1].
    destruct (on_request_inv req_cb r (set_parser (mkParser State.kInit None (content_length_ p)) c) w1 Hw1 Ht1 eq_refl)
      as (w' & c' & E & Hw' & Ht' & Hib & Ec' & Hri & Hrp').
    unfold mbind, M_bind. rewrite E. specialize (Hpos eq_refl). unfold getRequest. rewrite Est, bool_decide_true by done. cbn [snd].
    assert (inbox w' = drop (Z.to_nat k) (inbox w)) as Hib' by done. cbn [set_parser req_parser req_index] in Hri, Hrp'.
    rewrite <- Hib', <- Hrp'. apply (IH c' w' Hw' Ht' Ec'); rewrite Hib', ?Hri.
    + rewrite drop_size by done. lia.
    + rewrite length_drop. unfold size in Hk. lia.
  - split; [|done]. destruct Hw as [Hl' _]. split; [by destruct Hl'|done].
Qed.

(** The bytes that an event brings. *)
Definition bytes_of (e : event) : Z := match e with Received data => size data | _ => 0 end.

Lemma release_budget i res n w w' : budget n w -> release i res w = Ret (tt, w') -> budget n w'.
Proof.
  intros Hb E c' Hc'. destruct (release_intake _ _ _ _ E) as [-> H]. destruct (H c' Hc') as (c & Hc & ->). by apply Hb.
Qed.

Lemma disconnect_inv n w : inv w -> inv (set_conn None w) /\ budget n (set_conn None w).
Proof. intros [Hl _]. split; [split; [by destruct Hl|done]|done]. Qed.

Lemma received_inv req_cb data n w : inv w -> budget n w -> n + size data < INT_MAX ->
  wp (event_throws (Received data) w) (onTcpReceived req_cb data) (fun _ w' => inv w' /\ budget (n + size data) w') w.
Proof.
  intros Hw Hb Hn. pose proof (size_nonneg data) as H0. unfold wp, onTcpReceived, mbind, M_bind, get. pose proof Hw as [Hl Hc].
  destruct (conn w) as [c|] eqn:Ec; [|split; [done|]; intros c Hc'; congruence].
  destruct (Hc c eq_refl) as [Hi Hp]. specialize (Hb c Ec).
  assert (forall b, inv (set_inbox b w)) as Hset.
  { intros b. split; [by destruct Hl|]. intros c' Hc'. cbn in Hc'. rewrite Ec in Hc'. injection Hc' as <-. split; [by destruct Hi|done]. }
  unfold modify. destruct (Z.eqb_spec (close_index c) INT_MAX) as [Ecl|]; cbn [negb].
  - apply (wpc_throws (parser_throws (S (length (inbox w ++ data))) (inbox w ++ data) (req_parser c) = true)).
    { cbn [event_throws]. by rewrite Ec. }
    apply (receive_loop_inv req_cb _ _ c (set_inbox (inbox w ++ data) w)); [done|by apply Hset| |done|cbn; rewrite size_app; lia|cbn; lia].
    intros c' Hc'. cbn in Hc'. rewrite Ec in Hc'. injection Hc' as <-. apply (ic_next _ _ _ _ Hi); [done|].
    destruct Hi. pose proof (size_nonneg (inbox w)). lia.
  - split; [apply (Hset [])|]. intros c' Hc'. cbn in Hc'. rewrite Ec in Hc'. injection Hc' as <-. cbn.
    pose proof (size_nonneg (inbox w)). change (size []) with 0. lia.
Qed.

Lemma event_inv req_cb e n w : inv w -> budget n w -> n + bytes_of e < INT_MAX ->
  wp (event_throws e w) (on_event req_cb e) (fun _ w' => inv w' /\ budget (n + bytes_of e) w') w.
Proof.
  intros Hw Hb Hn. destruct e as [data|i res| |]; cbn [on_event bytes_of] in *.
  - by apply received_inv.
  - rewrite Z.add_0_r. unfold wp, mbind, M_bind, get. destruct (bool_decide (i ∈ held w)) eqn:Ei; [|done].
    apply bool_decide_eq_true in Ei. pose proof (release_inv i res w Hw Ei) as H.
    unfold wp in H. destruct (release i res w) as [[[] w']| |] eqn:E; [|done..]. split; [done|].
    by apply (release_budget i res n w).
  - rewrite Z.add_0_r. unfold wp, onTcpSendCompleted, mbind, M_bind, get. destruct (conn w) as [c|] eqn:Ec; [|done].
    destruct (_ <? _); [by apply disconnect_inv|done].
  - rewrite Z.add_0_r. by apply disconnect_inv.
Qed.

Definition received (es : list event) : Z := fold_right (fun e n => bytes_of e + n) 0 es.

Lemma received_nonneg es : 0 <= received es.
Proof.
  induction es as [|e es IH]; [done|]. cbn [received fold_right]. fold (received es).
  destruct e; cbn [bytes_of]; pose proof size_nonneg; [specialize (H data)|..]; lia.
Qed.

Lemma run_inv req_cb es n w : inv w -> budget n w -> n + received es < INT_MAX ->
  wp (run_throws req_cb es w) (run req_cb es) (fun _ w' => inv w' /\ budget (n + received es) w') w.
Proof.
  revert n w. induction es as [|e es IH]; intros n w Hw Hb Hn.
  - split; [done|]. intros c Hc. specialize (Hb c Hc). cbn. lia.
  - change (received (e :: es)) with (bytes_of e + received es) in *. pose proof (received_nonneg es).
    pose proof (event_inv req_cb e n w Hw Hb ltac:(lia)) as He. unfold wp in He |- *. cbn [run run_throws]. unfold mbind, M_bind.
    destruct (on_event req_cb e w) as [[[] w']| |]; [|by left|done]. destruct He as [Hw' Hb']. rewrite Z.add_assoc.
    apply (wpc_throws (run_throws req_cb es w')); [|apply IH; [done|done|lia]]. intros Hth. right. by exists w'.
Qed.

Lemma new_world_inv : inv new_world.
Proof.
  split; [split; cbn; [done|intros; apply lookup_empty]|]. intros c Hc. injection Hc as <-. split.
  - split; cbn; try done; intros; try (by rewrite lookup_empty in *); try lia.
  - split; [|done]. split; [split; cbn; lia|]. split; [intros [?|[?|?]]; done|done].
Qed.

(** The next respond that is due has not been handed over. *)
Lemma next_missing c w : inv_conn None false c w -> commits w !! res_index c = None \/ close_index c < res_index c.
Proof.
  intros [Hlen Hreq Hbuff Hnext Hcom Hheld Hall]. destruct (Z.lt_ge_cases (close_index c) (res_index c)) as [|Hle]; [by right|left].
  destruct (commits w !! res_index c) as [r|] eqn:E; [|done]. destruct (Hcom _ _ E) as (_ & [?|[Hb|?]]); [lia| |done].
  by rewrite (Hnext eq_refl Hle) in Hb.
Qed.

(** All requests were answered, or the last one was. *)
Lemma all_answered c w : inv_log w -> inv_conn None false c w -> held w = ∅ ->
  res_index c = req_index c \/ close_index c < res_index c.
Proof.
  intros Hl [Hlen Hreq Hbuff Hnext Hcom Hheld Hall] Hh. destruct (Z.lt_ge_cases (close_index c) (res_index c)) as [|Hle]; [by right|left].
  destruct (Z.eq_dec (res_index c) (req_index c)) as [|Hne]; [done|]. exfalso.
  destruct (Hall (res_index c) ltac:(lia)) as [H|[r Hr]]; [set_solver|].
  destruct (Hcom _ _ Hr) as (_ & [?|[Hb|?]]); [lia| |done]. by rewrite (Hnext eq_refl Hle) in Hb.
Qed.

(** C11: Pipelined responds go out in the order of the requests.  For every chain of
    middleware and every history of a connection (pieces of data, contexts released
    in any order, completed sends, a disconnection) of less than 2^31 bytes, the
    server never loops, and stops only where the parser throws an exception for one of the
    requests it receives ([run_throws]).  What it has sent is, in this order, the text of
    the respond handed over by the context of the first request, of the second, and so on,
    each exactly once.  Nothing is kept back: as long as the connection lives, the respond
    that would be sent next has not been handed over yet, or the one that closes the
    connection has been sent; so when nobody keeps a context any more, every request has
    been answered, or the one that closes the connection has. *)
Theorem responds_in_order req_cb es : received es < INT_MAX ->
  match run req_cb es new_world with
  | Ret (_, w) =>
      (forall k t, sent w !! k = Some t -> exists r, commits w !! Z.of_nat k = Some r /\ t = Respond_toString r) /\
      forall c, conn w = Some c ->
        Z.of_nat (length (sent w)) = res_index c /\ res_index c <= req_index c /\
        (commits w !! res_index c = None \/ close_index c < res_index c) /\
        (held w = ∅ -> res_index c = req_index c \/ close_index c < res_index c)
  | Stuck => run_throws req_cb es new_world
  | OutOfFuel => False
  end.
Proof.
  intros Hn. pose proof (run_inv req_cb es 0 new_world new_world_inv) as H. unfold wp in H.
  assert (budget 0 new_world) as H0 by (intros c Hc; injection Hc as <-; done). specialize (H H0 ltac:(lia)).
  destruct (run req_cb es new_world) as [[[] w]| |]; [|done|done]. destruct H as [[Hl Hc] _].
  split; [apply Hl|]. intros c Ec. destruct (Hc c Ec) as [Hi _]. split; [apply Hi|]. split; [apply Hi|].
  split; [by apply next_missing|by apply all_answered].
Qed.

Lemma responds_in_order_witness : exists w,
  run keep_all [Received (get_x ++ get_x); Released 1 (reply (str "one"))] new_world = Ret (tt, w) /\ sent w = [] /\
  forall k t, sent w !! k = Some t -> exists r, commits w !! Z.of_nat k = Some r /\ t = Respond_toString r.
Proof.
  pose proof (responds_in_order keep_all [Received (get_x ++ get_x); Released 1 (reply (str "one"))] eq_refl) as H.
  destruct (run _ _ _) as [[[] w]| |] eqn:E; [|vm_compute in E; discriminate|destruct H].
  exists w. split; [reflexivity|]. split; [vm_compute in E; injection E as <-; reflexivity|exact (proj1 H)].
Defined.
