(* ===== verification/StateMachine.v ===== *)
(** * StateMachine: the hierarchical state machine of flow

    [modules/flow/state_machine.h], [state_machine.cpp].  Machines refer to
    their sub-machines by pointer, so they live in a store; a state pointer is
    the key of a state in its machine, or the terminal state.  The user's
    functions are identified by numbers: what a guard or an event function
    returns may depend on all the calls made so far, and every call is
    recorded. *)
From S2P Require Import Prelude.

(** ** Data *)

Record event := mkEvent { ev_id : Z; ev_extra : Z }.
Definition no_event : event := mkEvent 0 0.

Definition NULL_STATE_ID : Z := -1.
Definition TERM_STATE_ID : Z := 0.
Definition ANY_EVENT_ID : Z := 0.

Record route := mkRoute {
  r_event_id : Z;
  r_next_state_id : Z;
  r_guard : option nat;
  r_action : option nat
}.

Record state := mkState {
  st_id : Z;
  st_enter : option nat;
  st_exit : option nat;
  st_sub : option nat;
  st_routes : list route;
  st_events : gmap Z nat;
  st_default : option nat
}.

Definition term_state : state := mkState TERM_STATE_ID None None None [] ∅ None.

Inductive state_ptr := PState (id : Z) | PTerm.

Record machine := mkMachine {
  init_state_id : Z;
  is_running : bool;
  last_state : option state_ptr;
  curr_state : option state_ptr;
  next_state : option state_ptr;
  states : gmap Z state;
  changed_cb : bool;
  cb_level : Z
}.

Definition new_machine : machine := mkMachine NULL_STATE_ID false None None None ∅ false 0.

(** The calls of user functions. *)
Inductive call :=
| CAction (f : nat) (e : event)
| CGuard (f : nat) (e : event)
| CEvent (f : nat) (e : event)
| CChanged (mid : nat) (from to : Z) (e : event).

Record world := mkWorld { store : gmap nat machine; calls : list call }.

(** ** Field updates *)

Definition with_running (b : bool) (m : machine) : machine :=
  mkMachine (init_state_id m) b (last_state m) (curr_state m) (next_state m) (states m) (changed_cb m) (cb_level m).
Definition with_last (p : option state_ptr) (m : machine) : machine :=
  mkMachine (init_state_id m) (is_running m) p (curr_state m) (next_state m) (states m) (changed_cb m) (cb_level m).
Definition with_curr (p : option state_ptr) (m : machine) : machine :=
  mkMachine (init_state_id m) (is_running m) (last_state m) p (next_state m) (states m) (changed_cb m) (cb_level m).
Definition with_next (p : option state_ptr) (m : machine) : machine :=
  mkMachine (init_state_id m) (is_running m) (last_state m) (curr_state m) p (states m) (changed_cb m) (cb_level m).
Definition with_level (d : Z) (m : machine) : machine :=
  mkMachine (init_state_id m) (is_running m) (last_state m) (curr_state m) (next_state m) (states m) (changed_cb m) (cb_level m + d).
Definition with_states (f : gmap Z state -> gmap Z state) (m : machine) : machine :=
  mkMachine (init_state_id m) (is_running m) (last_state m) (curr_state m) (next_state m) (f (states m)) (changed_cb m) (cb_level m).
Definition with_init (id : Z) (m : machine) : machine :=
  mkMachine id (is_running m) (last_state m) (curr_state m) (next_state m) (states m) (changed_cb m) (cb_level m).
Definition with_changed (b : bool) (m : machine) : machine :=
  mkMachine (init_state_id m) (is_running m) (last_state m) (curr_state m) (next_state m) (states m) b (cb_level m).

Definition st_add_route (r : route) (st : state) : state :=
  mkState (st_id st) (st_enter st) (st_exit st) (st_sub st) (st_routes st ++ [r]) (st_events st) (st_default st).
Definition st_add_event (ev : Z) (f : nat) (st : state) : state :=
  mkState (st_id st) (st_enter st) (st_exit st) (st_sub st) (st_routes st) (<[ev := f]> (st_events st)) (st_default st).
Definition st_set_default (f : nat) (st : state) : state :=
  mkState (st_id st) (st_enter st) (st_exit st) (st_sub st) (st_routes st) (st_events st) (Some f).
Definition st_set_sub (sub : nat) (st : state) : state :=
  mkState (st_id st) (st_enter st) (st_exit st) (Some sub) (st_routes st) (st_events st) (st_default st).

(** ** The code *)

Definition findState (m : machine) (id : Z) : option state_ptr :=
  if negb (id =? NULL_STATE_ID) then
    match states m !! id with Some _ => Some (PState id) | None => None end
  else None.

(** [*p] *)
Definition deref (m : machine) (p : state_ptr) : option state :=
  match p with PState id => states m !! id | PTerm => Some term_state end.

Definition ptr_id (p : option state_ptr) : Z :=
  match p with Some (PState id) => id | Some PTerm => TERM_STATE_ID | None => NULL_STATE_ID end.

Definition currentState (m : machine) : Z := ptr_id (curr_state m).
Definition lastState (m : machine) : Z := ptr_id (last_state m).
Definition nextState (m : machine) : Z := ptr_id (next_state m).

Definition isTerminated (m : machine) : bool :=
  match curr_state m with Some p => ptr_id (Some p) =? TERM_STATE_ID | None => false end.

(** *** Building a machine *)

Definition newState (m : machine) (id : Z) (enter exit : option nat) : machine * bool :=
  if is_running m then (m, false)
  else match states m !! id with
       | Some _ => (m, false)
       | None =>
           let m := with_states (<[id := mkState id enter exit None [] ∅ None]>) m in
           ((if init_state_id m =? NULL_STATE_ID then with_init id m else m), true)
       end.

Definition update_state (m : machine) (id : Z) (f : state -> state) : machine * bool :=
  match findState m id with
  | Some _ => (with_states (alter f id) m, true)
  | None => (m, false)
  end.

Definition addRoute (m : machine) (from ev to : Z) (guard action : option nat) : machine * bool :=
  if is_running m then (m, false)
  else match findState m from with
       | None => (m, false)
       | Some _ =>
           if negb (to =? TERM_STATE_ID) && match findState m to with None => true | Some _ => false end
           then (m, false)
           else update_state m from (st_add_route (mkRoute ev to guard action))
       end.

Definition addEvent (m : machine) (id ev : Z) (action : option nat) : machine * bool :=
  if is_running m then (m, false)
  else match action with
       | None => (m, false)
       | Some f =>
           update_state m id (if negb (ev =? ANY_EVENT_ID) then st_add_event ev f else st_set_default f)
       end.

Definition setInitState (m : machine) (id : Z) : machine := with_init id m.
Definition setStateChangedCallback (m : machine) (b : bool) : machine := with_changed b m.

Definition setSubStateMachine (m : machine) (id : Z) (sub : nat) : machine * bool :=
  if is_running m then (m, false) else update_state m id (st_set_sub sub).

(** *** Running *)

Definition machine_of (mid : nat) : M world machine := w ← get; the (store w !! mid).
Definition update_machine (mid : nat) (f : machine -> machine) : M world () :=
  modify (fun w => mkWorld (alter f mid (store w)) (calls w)).
Definition record_call (c : call) : M world () :=
  modify (fun w => mkWorld (store w) (calls w ++ [c])).

(** [if (action) action(event);] *)
Definition do_action (f : option nat) (e : event) : M world () :=
  match f with Some f => record_call (CAction f e) | None => mret () end.

(** [*curr_state_] *)
Definition curr (mid : nat) : M world state :=
  m ← machine_of mid; p ← the (curr_state m); the (deref m p).

Section Run.
(** The user's guards and event functions. *)
Context (guard_fn : nat -> list call -> event -> bool)
        (event_fn : nat -> list call -> event -> Z).

Definition call_guard (f : nat) (e : event) : M world bool :=
  w ← get; record_call (CGuard f e);; mret (guard_fn f (calls w) e).

Definition call_event (f : nat) (e : event) : M world Z :=
  w ← get; record_call (CEvent f e);; mret (event_fn f (calls w) e).

Fixpoint start (fuel : nat) (mid : nat) : M world bool :=
  match fuel with
  | O => out_of_fuel
  | S fuel' =>
      m ← machine_of mid;
      if is_running m then mret false
      else if negb (cb_level m =? 0) then mret false
      else match findState m (init_state_id m) with
           | None => mret false
           | Some init =>
               update_machine mid (fun m => with_curr (Some init) (with_running true m));;
               init_state ← the (deref m init);
               update_machine mid (with_level 1);;
               do_action (st_enter init_state) no_event;;
               update_machine mid (with_level (-1));;
               c ← curr mid;
               match st_sub c with
               | Some sub => start fuel' sub;; mret true
               | None => mret true
               end
           end
  end.

Definition stop (mid : nat) : M world () :=
  m ← machine_of mid;
  if negb (is_running m) then mret ()
  else if negb (cb_level m =? 0) then mret ()
  else
    update_machine mid (with_level 1);;
    c ← curr mid;
    do_action (st_exit c) no_event;;
    update_machine mid (with_level (-1));;
    update_machine mid (fun m => with_running false (with_curr None m)).

Definition restart (fuel : nat) (mid : nat) : M world bool := stop mid;; start fuel mid.

(** [find_if] over the routes. *)
Fixpoint find_route (routes : list route) (e : event) : M world (option route) :=
  match routes with
  | [] => mret None
  | r :: routes' =>
      if negb (r_event_id r =? ANY_EVENT_ID) && negb (r_event_id r =? ev_id e)
      then find_route routes' e
      else
        ok ← match r_guard r with Some g => call_guard g e | None => mret true end;
        if (ok : bool) then mret (Some r) else find_route routes' e
  end.

(** The state that the event functions choose, and then the routes:
    [None] when the event is not handled here. *)
Definition choose (mid : nat) (e : event) : M world (option (Z * option nat)) :=
  update_machine mid (with_level 1);;
  c ← curr mid;
  next_state_id ← match st_events c !! ev_id e with
                  | Some f => call_event f e
                  | None => match st_default c with
                            | Some f => call_event f e
                            | None => mret NULL_STATE_ID
                            end
                  end;
  update_machine mid (with_level (-1));;
  if next_state_id =? NULL_STATE_ID then
    update_machine mid (with_level 1);;
    c ← curr mid;
    r ← find_route (st_routes c) e;
    update_machine mid (with_level (-1));;
    mret (option_map (fun r => (r_next_state_id r, r_action r)) r)
  else mret (Some (next_state_id, None)).

(** From the choice of [next_state_] to the state-changed callback. *)
Definition enter_next (mid : nat) (e : event) (next : state_ptr) (route_action : option nat) : M world () :=
  update_machine mid (with_next (Some next));;
  update_machine mid (with_level 1);;
  c ← curr mid;
  do_action (st_exit c) e;;
  update_machine mid (fun m => with_curr None (with_last (curr_state m) m));;
  do_action route_action e;;
  update_machine mid (fun m => with_next None (with_curr (next_state m) m));;
  c ← curr mid;
  do_action (st_enter c) e;;
  m ← machine_of mid;
  when (changed_cb m) (record_call (CChanged mid (ptr_id (last_state m)) (ptr_id (curr_state m)) e)).

(** [findState(next_state_id)], with the terminal state as a default. *)
Definition resolve (m : machine) (id : Z) : option state_ptr :=
  match findState m id with
  | Some p => Some p
  | None => if id =? TERM_STATE_ID then Some PTerm else None
  end.

(** [run] from the event functions on; [enter_sub] starts the sub-machine of
    the new state and hands it the event. *)
Definition run_own (enter_sub : nat -> M world ()) (mid : nat) (e : event) : M world bool :=
  choice ← choose mid e;
  match choice with
  | None => mret false
  | Some (next_state_id, route_action) =>
      m ← machine_of mid;
      match resolve m next_state_id with
      | None => update_machine mid (with_next None);; mret false
      | Some next =>
          enter_next mid e next route_action;;
          c ← curr mid;
          match st_sub c with Some sub => enter_sub sub | None => mret () end;;
          update_machine mid (with_level (-1));;
          mret true
      end
  end.

Fixpoint run (fuel : nat) (mid : nat) (e : event) : M world bool :=
  match fuel with
  | O => out_of_fuel
  | S fuel' =>
      m ← machine_of mid;
      if negb (is_running m) then mret false
      else if negb (cb_level m =? 0) then mret false
      else
        c ← curr mid;
        early ← match st_sub c with
                | Some sub =>
                    ret ← run fuel' sub e;
                    s ← machine_of sub;
                    if negb (isTerminated s) then mret (Some ret)
                    else stop sub;; mret None
                | None => mret None
                end;
        match early with
        | Some ret => mret ret
        | None => run_own (fun sub => start fuel' sub;; run fuel' sub e;; mret ()) mid e
        end
  end.
End Run.

(** The example of the tests: an on/off machine with a guard. *)
Definition demo : machine :=
  let m := (newState new_machine 1 (Some 1%nat) (Some 2%nat)).1 in
  let m := (newState m 2 (Some 3%nat) None).1 in
  let m := (addRoute m 1 5 2 (Some 9%nat) (Some 4%nat)).1 in
  (addRoute m 2 ANY_EVENT_ID TERM_STATE_ID None None).1.

Definition demo_guard (_ : nat) (cs : list call) (_ : event) : bool := (2 <=? Z.of_nat (length cs)).
Definition demo_event (_ : nat) (_ : list call) (_ : event) : Z := -1.

Definition demo_run : M world (list bool) :=
  a ← start 3 0; b ← run demo_guard demo_event 3 0 (mkEvent 5 0);
  c ← run demo_guard demo_event 3 0 (mkEvent 5 0); d ← run demo_guard demo_event 3 0 (mkEvent 7 0);
  mret [a; b; c; d].

Example demo_ok :
  match demo_run (mkWorld {[0%nat := demo]} []) with
  | Ret (l, w) => l = [true; false; true; true] /\ option_map isTerminated (store w !! 0%nat) = Some true /\
      calls w = [CAction 1 no_event; CGuard 9 (mkEvent 5 0); CGuard 9 (mkEvent 5 0);
                 CAction 2 (mkEvent 5 0); CAction 4 (mkEvent 5 0); CAction 3 (mkEvent 5 0)]
  | _ => False
  end.
Proof. vm_compute. repeat split. Qed.

(** ** Stepping through the code *)

Lemma alter_known {A} (f : A -> A) (i : nat) (s : gmap nat A) m :
  s !! i = Some m -> alter f i s = <[i := f m]> s.
Proof.
  intros H. apply map_eq. intros j. destruct (decide (i = j)) as [<-|Hj].
  - by rewrite lookup_alter_eq, lookup_insert_eq, H.
  - by rewrite lookup_alter_ne, lookup_insert_ne.
Qed.

Lemma machine_of_ok mid w m : store w !! mid = Some m -> machine_of mid w = Ret (m, w).
Proof. intros H. unfold machine_of, mbind, M_bind, get. by rewrite H. Qed.

Lemma update_ok mid f w m : store w !! mid = Some m ->
  update_machine mid f w = Ret ((), mkWorld (<[mid := f m]> (store w)) (calls w)).
Proof. intros H. unfold update_machine, modify. by rewrite (alter_known f mid _ m). Qed.

Lemma curr_ok mid w m p st : store w !! mid = Some m -> curr_state m = Some p ->
  deref m p = Some st -> curr mid w = Ret (st, w).
Proof.
  intros H Hc Hd. unfold curr. rewrite (bind_Ret _ _ _ m w) by (by apply machine_of_ok).
  unfold mbind, M_bind. by rewrite Hc; cbn; rewrite Hd.
Qed.

Definition action_calls (f : option nat) (e : event) : list call :=
  match f with Some f => [CAction f e] | None => [] end.

Lemma do_action_ok f e w : do_action f e w = Ret ((), mkWorld (store w) (calls w ++ action_calls f e)).
Proof. destruct f; [done|]. cbn. rewrite app_nil_r. by destruct w. Qed.

(** Run one command of known effect. *)
Ltac step H := rewrite (bind_Ret _ _ _ _ _ H); cbn [store calls].
Ltac step_update mid w :=
  match goal with
  | |- context [(update_machine mid ?f ≫= ?k) ?w0] =>
      let Hl := fresh in
      eassert (Hl : store w0 !! mid = Some _) by
        (cbn [store]; first [eassumption | apply lookup_insert_eq]);
      rewrite (bind_Ret _ _ _ _ _ (update_ok mid f w0 _ Hl)); cbn [store calls]; clear Hl
  end.
Ltac step_action :=
  match goal with
  | |- context [(do_action ?f ?e ≫= ?k) ?w0] =>
      rewrite (bind_Ret _ _ _ _ _ (do_action_ok f e w0)); cbn [store calls]
  end.

Lemma level_back m : with_level (-1) (with_level 1 m) = m.
Proof. destruct m; unfold with_level; cbn. f_equal. lia. Qed.

Section Steps.
Context (guard_fn : nat -> list call -> event -> bool)
        (event_fn : nat -> list call -> event -> Z).

(** *** Which route is taken, after which calls *)
Inductive picks (e : event) : list route -> list call -> option route -> list call -> Prop :=
| picks_none cs : picks e [] cs None cs
| picks_skip r rs cs o cs' : r_event_id r <> ANY_EVENT_ID -> r_event_id r <> ev_id e ->
    picks e rs cs o cs' -> picks e (r :: rs) cs o cs'
| picks_unguarded r rs cs : r_event_id r = ANY_EVENT_ID \/ r_event_id r = ev_id e ->
    r_guard r = None -> picks e (r :: rs) cs (Some r) cs
| picks_allowed r rs cs g : r_event_id r = ANY_EVENT_ID \/ r_event_id r = ev_id e ->
    r_guard r = Some g -> guard_fn g cs e = true ->
    picks e (r :: rs) cs (Some r) (cs ++ [CGuard g e])
| picks_refused r rs cs g o cs' : r_event_id r = ANY_EVENT_ID \/ r_event_id r = ev_id e ->
    r_guard r = Some g -> guard_fn g cs e = false ->
    picks e rs (cs ++ [CGuard g e]) o cs' -> picks e (r :: rs) cs o cs'.

Lemma find_route_ok e rs : forall w, exists r cs,
  find_route guard_fn rs e w = Ret (r, mkWorld (store w) cs) /\ picks e rs (calls w) r cs.
Proof.
  induction rs as [|r rs IH]; intros w; cbn [find_route].
  { exists None, (calls w). split; [by destruct w|constructor]. }
  destruct (Z.eqb_spec (r_event_id r) ANY_EVENT_ID) as [Ha|Ha], (Z.eqb_spec (r_event_id r) (ev_id e)) as [He|He];
    cbn [negb andb].
  4: { destruct (IH w) as (o & cs & -> & Hp). exists o, cs. split; [done|]. by apply picks_skip. }
  all: assert (Hor : r_event_id r = ANY_EVENT_ID \/ r_event_id r = ev_id e) by tauto;
    destruct (r_guard r) as [g|] eqn:Hg;
    [|exists (Some r), (calls w); split; [by destruct w|by apply picks_unguarded]];
    unfold call_guard, mbind, M_bind, get, record_call, modify; cbn;
    destruct (guard_fn g (calls w) e) eqn:Hgf;
    [do 2 eexists; split; [done|]; by eapply picks_allowed|];
    destruct (IH (mkWorld (store w) (calls w ++ [CGuard g e]))) as (o & cs & -> & Hp);
    exists o, cs; split; [done|]; by eapply picks_refused.
Qed.

(** The event function that handles [e] in [st]. *)
Definition handler (st : state) (e : event) : option nat :=
  match st_events st !! ev_id e with Some f => Some f | None => st_default st end.

(** *** What a state decides on an event *)
Inductive decides (st : state) (e : event) (cs : list call) :
  option (Z * option nat) -> list call -> Prop :=
| decides_event f id : handler st e = Some f -> event_fn f cs e = id -> id <> NULL_STATE_ID ->
    decides st e cs (Some (id, None)) (cs ++ [CEvent f e])
| decides_route cs1 r cs2 :
    (handler st e = None /\ cs1 = cs \/
     exists f, handler st e = Some f /\ event_fn f cs e = NULL_STATE_ID /\ cs1 = cs ++ [CEvent f e]) ->
    picks e (st_routes st) cs1 r cs2 ->
    decides st e cs (option_map (fun r => (r_next_state_id r, r_action r)) r) cs2.

Lemma choose_ok mid e w m p st : store w !! mid = Some m -> curr_state m = Some p ->
  deref m p = Some st ->
  exists choice cs, choose guard_fn event_fn mid e w = Ret (choice, mkWorld (store w) cs) /\
    decides st e (calls w) choice cs.
Proof.
  intros H Hc Hd. unfold choose.
  step_update mid w. set (s1 := <[mid := _]> (store w)).
  assert (H1 : s1 !! mid = Some (with_level 1 m)) by apply lookup_insert_eq.
  assert (Hback : forall cs, update_machine mid (with_level (-1)) (mkWorld s1 cs) = Ret ((), mkWorld (store w) cs)).
  { intros cs. rewrite (update_ok _ _ (mkWorld s1 cs) _ H1). cbn. unfold s1.
    by rewrite insert_insert_eq, level_back, insert_id. }
  step (curr_ok mid (mkWorld s1 (calls w)) (with_level 1 m) p st H1 Hc Hd).
  assert (Hroutes : forall cs1, exists choice cs, 
    (update_machine mid (with_level 1);;
     c ← curr mid; r ← find_route guard_fn (st_routes c) e;
     update_machine mid (with_level (-1));;
     mret (option_map (fun r => (r_next_state_id r, r_action r)) r)) (mkWorld (store w) cs1)
    = Ret (choice, mkWorld (store w) cs) /\ exists r, picks e (st_routes st) cs1 r cs /\
      choice = option_map (fun r => (r_next_state_id r, r_action r)) r).
  { intros cs1. step (update_ok mid (with_level 1) (mkWorld (store w) cs1) m H). fold s1.
    step (curr_ok mid (mkWorld s1 cs1) (with_level 1 m) p st H1 Hc Hd).
    destruct (find_route_ok e (st_routes st) (mkWorld s1 cs1)) as (r & cs & E & Hp).
    step E. step (Hback cs). do 2 eexists; split; [done|]. by exists r. }
  assert (Hev : exists id cs1,
    (match st_events st !! ev_id e with
     | Some f => call_event event_fn f e
     | None => match st_default st with Some f => call_event event_fn f e | None => mret NULL_STATE_ID end
     end) (mkWorld s1 (calls w)) = Ret (id, mkWorld s1 cs1) /\
    (handler st e = None /\ cs1 = calls w /\ id = NULL_STATE_ID \/
     exists f, handler st e = Some f /\ event_fn f (calls w) e = id /\ cs1 = calls w ++ [CEvent f e])).
  { unfold handler. destruct (st_events st !! ev_id e) as [f|]; [|destruct (st_default st) as [f|]];
      do 2 eexists; (split; [done|]); eauto. }
  destruct Hev as (id & cs1 & E & Hh). step E. step (Hback cs1).
  destruct (Z.eqb_spec id NULL_STATE_ID) as [->|Hid].
  - destruct (Hroutes cs1) as (choice & cs & E2 & r & Hp & ->). rewrite E2.
    do 2 eexists; split; [done|]. eapply decides_route; [|done]. naive_solver.
  - destruct Hh as [(? & ? & ?)|(f & Hf & Hv & ->)]; [done|].
    do 2 eexists; split; [done|]. by eapply decides_event.
Qed.

Definition entered (m : machine) (next : state_ptr) : machine :=
  mkMachine (init_state_id m) (is_running m) (curr_state m) (Some next) None (states m) (changed_cb m) (cb_level m + 1).

Definition transition_calls (mid : nat) (m : machine) (st st' : state) (next : state_ptr) (act : option nat) (e : event) : list call :=
  action_calls (st_exit st) e ++ action_calls act e ++ action_calls (st_enter st') e ++
  (if changed_cb m then [CChanged mid (ptr_id (curr_state m)) (ptr_id (Some next)) e] else []).

Lemma enter_next_ok mid e next act w m p st st' :
  store w !! mid = Some m -> curr_state m = Some p -> deref m p = Some st -> deref m next = Some st' ->
  enter_next mid e next act w =
  Ret ((), mkWorld (<[mid := entered m next]> (store w))
             (calls w ++ transition_calls mid m st st' next act e)).
Proof.
  intros H Hc Hd Hn. unfold enter_next.
  step_update mid w. step_update mid w. rewrite insert_insert_eq.
  erewrite bind_Ret; [|eapply curr_ok; [apply lookup_insert_eq|exact Hc|exact Hd]]. cbn [store calls].
  step_action. step_update mid w. step_action. step_update mid w. rewrite !insert_insert_eq.
  erewrite bind_Ret; [|eapply curr_ok; [apply lookup_insert_eq|reflexivity|exact Hn]]. cbn [store calls].
  step_action.
  erewrite bind_Ret; [|eapply machine_of_ok; apply lookup_insert_eq].
  unfold transition_calls, entered. cbn [changed_cb with_next with_curr with_last with_level last_state curr_state
    init_state_id is_running states cb_level next_state].
  rewrite !app_assoc. destruct m as [i r l c n ss [] lv]; [done|]. cbn. by rewrite app_nil_r.
Qed.
End Steps.

(** ** Well-formed stores

    [rank] orders the machines so that a sub-machine is below its owner. *)

Definition ptr_ok (m : machine) (p : state_ptr) : Prop := is_Some (deref m p).

(** A machine that is not in the middle of a call. *)
Record rest (m : machine) : Prop := mkRest {
  rest_level : cb_level m = 0;
  rest_next : next_state m = None;
  rest_run : if is_running m then exists p, curr_state m = Some p /\ ptr_ok m p
             else curr_state m = None
}.

(** What a run never changes. *)
Definition same_shape (m m' : machine) : Prop :=
  init_state_id m' = init_state_id m /\ states m' = states m /\ changed_cb m' = changed_cb m.

Section Wired.
Context (guard_fn : nat -> list call -> event -> bool)
        (event_fn : nat -> list call -> event -> Z) (rank : nat -> nat).

Definition wired (w : world) : Prop :=
  forall mid m id st sub, store w !! mid = Some m -> states m !! id = Some st ->
    st_sub st = Some sub -> is_Some (store w !! sub) /\ (rank sub < rank mid)%nat.

(** Only the machines of [P] change, and only their run-time fields. *)
Definition evolves (P : nat -> Prop) (w w' : world) : Prop :=
  forall i, match store w !! i, store w' !! i with
       | Some m, Some m' => same_shape m m' /\ (~ P i -> m' = m)
       | None, None => True
       | _, _ => False
       end.

Definition calm (P : nat -> Prop) (w : world) : Prop :=
  forall i m, P i -> store w !! i = Some m -> rest m.

Definition below (mid i : nat) : Prop := (rank i < rank mid)%nat.
Definition zone (mid i : nat) : Prop := i = mid \/ below mid i.

Lemma evolves_refl P w : evolves P w w.
Proof. intros i. destruct (store w !! i); done. Qed.

Lemma evolves_trans (P : nat -> Prop) w1 w2 w3 : evolves P w1 w2 -> evolves P w2 w3 -> evolves P w1 w3.
Proof.
  intros H1 H2 i. specialize (H1 i). specialize (H2 i).
  destruct (store w1 !! i), (store w2 !! i), (store w3 !! i); try done.
  destruct H1 as [(A1 & B1 & C1) D1], H2 as [(A2 & B2 & C2) D2]. split.
  - split_and!; congruence.
  - intros HP. rewrite D2, D1; done.
Qed.

Lemma evolves_mono (P Q : nat -> Prop) w w' : evolves P w w' -> (forall i, P i -> Q i) -> evolves Q w w'.
Proof.
  intros H HPQ i. specialize (H i). destruct (store w !! i), (store w' !! i); try done.
  destruct H as [A B]. split; [done|]. intros HQ. apply B. naive_solver.
Qed.

Lemma evolves_insert (P : nat -> Prop) w mid m m' cs :
  store w !! mid = Some m -> same_shape m m' -> P mid ->
  evolves P w (mkWorld (<[mid := m']> (store w)) cs).
Proof.
  intros H Hs HP i. cbn. destruct (decide (mid = i)) as [<-|Hi].
  - rewrite lookup_insert_eq, H. done.
  - rewrite lookup_insert_ne by done. destruct (store w !! i); done.
Qed.

Lemma evolves_lookup P w w' i m : evolves P w w' -> store w !! i = Some m ->
  exists m', store w' !! i = Some m' /\ same_shape m m' /\ (~ P i -> m' = m).
Proof. intros H Hm. specialize (H i). rewrite Hm in H. destruct (store w' !! i); [eauto|done]. Qed.

Lemma evolves_lookup_back P w w' i m' : evolves P w w' -> store w' !! i = Some m' ->
  exists m, store w !! i = Some m /\ same_shape m m' /\ (~ P i -> m' = m).
Proof. intros H Hm. specialize (H i). rewrite Hm in H. destruct (store w !! i); [eauto|done]. Qed.

Lemma evolves_wired P w w' : evolves P w w' -> wired w -> wired w'.
Proof.
  intros H Hw mid m' id st sub Hm Hst Hsub.
  destruct (evolves_lookup_back P w w' mid m' H Hm) as (m & Em & (_ & Es & _) & _).
  destruct (Hw mid m id st sub Em ltac:(congruence) Hsub) as [[ms Hms] Hr]. split; [|done].
  destruct (evolves_lookup P w w' sub ms H Hms) as (ms' & ? & _). eauto.
Qed.

Lemma shape_deref m m' p : same_shape m m' -> deref m' p = deref m p.
Proof. intros (_ & E & _). destruct p; cbn; by rewrite ?E. Qed.

Lemma sub_zone mid sub i : (rank sub < rank mid)%nat -> zone sub i -> below mid i.
Proof. unfold zone, below. intros Hr [->|]; lia. Qed.

Lemma calm_evolves (P Q : nat -> Prop) w w' : (forall i, P i \/ ~ P i) -> evolves P w w' -> calm P w' -> calm Q w -> calm Q w'.
Proof.
  intros Hdec He HP HQ i m Hi Hm. destruct (evolves_lookup_back P w w' i m He Hm) as (m0 & Hm0 & _ & Hsame).
  destruct (Hdec i) as [Hp|Hp]; [by apply (HP i m)|].
  rewrite Hsame by done. by apply (HQ i).
Qed.

Lemma zone_dec mid i : zone mid i \/ ~ zone mid i.
Proof. unfold zone, below. lia. Qed.

Lemma calm_insert mid w m cs : calm (below mid) w -> rest m ->
  calm (zone mid) (mkWorld (<[mid := m]> (store w)) cs).
Proof.
  intros Hc Hr i mi Hi Hmi. cbn in Hmi. destruct (decide (mid = i)) as [<-|Hne].
  - rewrite lookup_insert_eq in Hmi. by injection Hmi as <-.
  - rewrite lookup_insert_ne in Hmi by done. destruct Hi as [|Hi]; [done|]. by apply (Hc i).
Qed.

Lemma calm_sub (P Q : nat -> Prop) w : calm P w -> (forall i, Q i -> P i) -> calm Q w.
Proof. intros H HQ i m Hi. apply H. by apply HQ. Qed.

Lemma below_not_self mid i : below mid i -> i <> mid.
Proof. unfold below. intros H ->. lia. Qed.

(** What every operation on the machine [mid] does to the store. *)
Definition settles {A} (mid : nat) (c : M world A) (w : world) : Prop :=
  exists a w', c w = Ret (a, w') /\ evolves (zone mid) w w' /\ calm (zone mid) w'.

Lemma settles_sub mid sub w w1 (m : machine) : below mid sub -> store w !! mid = Some m -> rest m ->
  calm (below mid) w -> evolves (zone sub) w w1 -> calm (zone sub) w1 ->
  evolves (zone mid) w w1 /\ calm (zone mid) w1 /\ store w1 !! mid = Some m.
Proof.
  intros Hb Hm Hr Hc He Hc1.
  assert (Hm1 : store w1 !! mid = Some m).
  { destruct (evolves_lookup _ _ _ _ _ He Hm) as (m' & Hm' & _ & E).
    rewrite E in Hm'; [done|]. intros Hz.
    by destruct (below_not_self mid mid (sub_zone mid sub mid Hb Hz)). }
  split; [|split; [|done]].
  - eapply evolves_mono; [done|]. intros i Hi. right. by apply (sub_zone mid sub).
  - intros i mi [->|Hi] Hmi; [congruence|].
    eapply (calm_evolves _ (below mid)); try done. intros j. apply zone_dec.
Qed.

Lemma stop_running mid w m p st : store w !! mid = Some m -> rest m -> is_running m = true ->
  curr_state m = Some p -> deref m p = Some st ->
  stop mid w = Ret ((), mkWorld (<[mid := with_running false (with_curr None m)]> (store w))
                          (calls w ++ action_calls (st_exit st) no_event)).
Proof.
  intros H Hr Hrun Hc Hd. unfold stop. step (machine_of_ok mid w m H).
  rewrite Hrun, (rest_level m Hr). cbn [negb Z.eqb].
  step_update mid w.
  erewrite bind_Ret; [|eapply curr_ok; [apply lookup_insert_eq|exact Hc|exact Hd]]. cbn [store calls].
  step_action. step_update mid w. rewrite !insert_insert_eq, level_back.
  erewrite update_ok by apply lookup_insert_eq. cbn [store calls]. by rewrite insert_insert_eq.
Qed.

Lemma stop_idle mid w m : store w !! mid = Some m -> is_running m = false -> stop mid w = Ret ((), w).
Proof. intros H Hr. unfold stop. step (machine_of_ok mid w m H). by rewrite Hr. Qed.

Lemma rest_stopped m : rest m -> rest (with_running false (with_curr None m)).
Proof. intros []. by constructor. Qed.

Lemma stop_settles mid w : is_Some (store w !! mid) -> calm (zone mid) w -> settles mid (stop mid) w.
Proof.
  intros [m Hm] Hc. assert (Hr : rest m) by (apply (Hc mid); [by left|done]).
  destruct (is_running m) eqn:Hrun.
  - pose proof (rest_run m Hr) as Hp. rewrite Hrun in Hp. destruct Hp as (p & Hp & [st Hst]).
    eexists _, _. split; [by eapply stop_running|]. split.
    + eapply evolves_insert; [done|done|by left].
    + apply calm_insert; [|by apply rest_stopped]. eapply calm_sub; [done|]. by right.
  - eexists _, _. split; [by eapply stop_idle|]. split; [apply evolves_refl|done].
Qed.

Definition started (m : machine) (p : state_ptr) : machine := with_curr (Some p) (with_running true m).

Lemma findState_ptr m id p : findState m id = Some p -> p = PState id /\ is_Some (states m !! id).
Proof. unfold findState. repeat case_match; naive_solver. Qed.

(** [start] up to the start of the sub-machine. *)
Lemma start_enters fuel mid w m p st : store w !! mid = Some m -> rest m -> is_running m = false ->
  findState m (init_state_id m) = Some p -> deref m p = Some st ->
  start (S fuel) mid w =
  (match st_sub st with Some sub => start fuel sub;; mret true | None => mret true end)
    (mkWorld (<[mid := started m p]> (store w)) (calls w ++ action_calls (st_enter st) no_event)).
Proof.
  intros H Hr Hrun Hf Hd. cbn [start]. step (machine_of_ok mid w m H).
  rewrite Hrun, (rest_level m Hr), Hf. cbn [negb Z.eqb].
  step_update mid w. rewrite Hd. cbn [the]. unfold mret at 1, M_ret at 1. 
  erewrite bind_Ret by reflexivity. cbn [store calls].
  step_update mid w. step_action. step_update mid w. rewrite !insert_insert_eq, level_back.
  erewrite bind_Ret; [done|]. eapply curr_ok; [apply lookup_insert_eq|done|]. by destruct p.
Qed.

Lemma rest_started m p : rest m -> ptr_ok m p -> rest (started m p).
Proof. intros [] Hp. constructor; [done|done|]. cbn. exists p. split; [done|]. by destruct p. Qed.

Lemma start_settles fuel : forall mid w, (rank mid < fuel)%nat -> wired w -> calm (zone mid) w ->
  is_Some (store w !! mid) -> settles mid (start fuel mid) w.
Proof.
  induction fuel as [|fuel IH]; intros mid w Hf Hw Hc [m Hm]; [lia|].
  assert (Hr : rest m) by (apply (Hc mid); [by left|done]).
  assert (Hno : forall b, start (S fuel) mid w = Ret (b, w) -> settles mid (start (S fuel) mid) w)
    by (intros b E; exists b, w; split; [done|]; split; [apply evolves_refl|done]).
  destruct (is_running m) eqn:Hrun.
  { apply (Hno false). cbn [start]. step (machine_of_ok mid w m Hm). by rewrite Hrun. }
  destruct (findState m (init_state_id m)) as [p|] eqn:Hp.
  2: { apply (Hno false). cbn [start]. step (machine_of_ok mid w m Hm).
       by rewrite Hrun, (rest_level m Hr), Hp. }
  destruct (findState_ptr m _ p Hp) as [-> [st Hst]].
  unfold settles. rewrite (start_enters fuel mid w m _ st) by done.
  set (w1 := mkWorld _ _).
  assert (He : evolves (zone mid) w w1) by (eapply evolves_insert; [done|done|by left]).
  assert (Hr1 : rest (started m (PState (init_state_id m)))) by (apply rest_started; [done|by exists st]).
  assert (Hcb : calm (below mid) w) by (eapply calm_sub; [done|]; by right).
  assert (Hc1 : calm (zone mid) w1) by (by apply calm_insert).
  destruct (st_sub st) as [sub|] eqn:Hsub; [|by eexists _, _].
  destruct (Hw mid m _ st sub Hm Hst Hsub) as [Hex Hrk].
  destruct (IH sub w1) as (b & w2 & E & He2 & Hc2); [lia|by eapply evolves_wired| | |].
  - eapply calm_sub; [exact Hc1|]. intros i Hi. right. by apply (sub_zone mid sub).
  - destruct Hex as [ms Hms]. destruct (evolves_lookup _ _ _ _ _ He Hms) as (ms' & ? & _). eauto.
  - rewrite (bind_Ret _ _ _ _ _ E).
    destruct (settles_sub mid sub w1 w2 _ Hrk ltac:(apply lookup_insert_eq) Hr1) as (A & B & _); try done.
    { eapply calm_sub; [exact Hc1|]. by right. }
    eexists _, _. split; [done|]. split; [by eapply evolves_trans|done].
Qed.

Definition moved (m : machine) (next : state_ptr) : machine := with_level (-1) (entered m next).

Lemma rest_moved m next : rest m -> is_running m = true -> ptr_ok m next -> rest (moved m next).
Proof.
  intros [] Hrun Hp. constructor; cbn; [lia|done|]. rewrite Hrun. exists next. split; [done|]. by destruct next.
Qed.

Lemma resolve_ok m id next : resolve m id = Some next -> exists st', deref m next = Some st'.
Proof.
  unfold resolve. destruct (findState m id) as [q|] eqn:Hf.
  - intros [= <-]. destruct (findState_ptr m id q Hf) as [-> [st ?]]. by exists st.
  - destruct (id =? TERM_STATE_ID); intros [= <-]. by exists term_state.
Qed.

(** The three outcomes of [run_own]. *)
Lemma run_own_cases enter_sub mid e w m p st :
  store w !! mid = Some m -> rest m -> is_running m = true -> curr_state m = Some p ->
  deref m p = Some st ->
  exists choice cs, decides guard_fn event_fn st e (calls w) choice cs /\
  run_own guard_fn event_fn enter_sub mid e w =
  match choice with
  | None => Ret (false, mkWorld (store w) cs)
  | Some (id, act) =>
      match resolve m id with
      | None => Ret (false, mkWorld (store w) cs)
      | Some next =>
          match deref m next with
          | None => Stuck
          | Some st' =>
              ((match st_sub st' with Some sub => enter_sub sub | None => mret () end);;
               update_machine mid (with_level (-1));; mret true)
              (mkWorld (<[mid := entered m next]> (store w))
                 (cs ++ transition_calls mid m st st' next act e))
          end
      end
  end.
Proof.
  intros Hm Hr Hrun Hc Hd.
  destruct (choose_ok guard_fn event_fn mid e w m p st Hm Hc Hd) as (choice & cs & E & Hdec).
  exists choice, cs. split; [done|]. unfold run_own. step E.
  destruct choice as [[id act]|]; [|done].
  step (machine_of_ok mid (mkWorld (store w) cs) m Hm).
  destruct (resolve m id) as [next|] eqn:Hn.
  - destruct (resolve_ok m id next Hn) as [st' Hst']. rewrite Hst'.
    step (enter_next_ok mid e next act (mkWorld (store w) cs) m p st st' Hm Hc Hd Hst').
    erewrite bind_Ret; [|eapply curr_ok; [apply lookup_insert_eq|done|]; by destruct next].
    done.
  - step (update_ok mid (with_next None) (mkWorld (store w) cs) m Hm).
    assert (with_next None m = m) as ->
      by (destruct Hr as [_ Hn' _], m; unfold with_next; cbn in *; by rewrite Hn').
    by rewrite insert_id.
Qed.

Lemma run_own_settles enter_sub mid e w m p st :
  store w !! mid = Some m -> is_running m = true -> curr_state m = Some p -> deref m p = Some st ->
  wired w -> calm (zone mid) w ->
  (forall sub w1, below mid sub -> wired w1 -> calm (below mid) w1 -> is_Some (store w1 !! sub) ->
     settles sub (enter_sub sub) w1) ->
  settles mid (run_own guard_fn event_fn enter_sub mid e) w.
Proof.
  intros Hm Hrun Hc Hd Hw Hcalm Hsub.
  assert (Hr : rest m) by (apply (Hcalm mid); [by left|done]).
  destruct (run_own_cases enter_sub mid e w m p st Hm Hr Hrun Hc Hd) as (choice & cs & _ & E).
  unfold settles. rewrite E.
  assert (Hsame : exists a w', Ret (false, mkWorld (store w) cs) = Ret (a, w') /\
    evolves (zone mid) w w' /\ calm (zone mid) w').
  { do 2 eexists; split; [done|]. split; [apply (evolves_refl _ w)|done]. }
  destruct choice as [[id act]|]; [|done].
  destruct (resolve m id) as [next|] eqn:Hn; [|done]. clear Hsame.
  destruct (resolve_ok m id next Hn) as [st' Hst']. rewrite Hst'.
  set (w1 := mkWorld (<[mid := entered m next]> (store w)) _).
  assert (Hsh : same_shape m (entered m next)) by done.
  assert (He : evolves (zone mid) w w1) by (eapply evolves_insert; [done|done|by left]).
  assert (Hw1 : wired w1) by (by eapply evolves_wired).
  assert (Hcb : calm (below mid) w) by (eapply calm_sub; [done|]; by right).
  assert (Hcb1 : calm (below mid) w1).
  { intros i mi Hi Hmi. cbn in Hmi. rewrite lookup_insert_ne in Hmi by (by apply not_eq_sym, below_not_self).
    by apply (Hcb i). }
  assert (Hfin : forall w2, evolves (below mid) w1 w2 -> calm (below mid) w2 ->
    exists b w3, (update_machine mid (with_level (-1));; mret true) w2 = Ret (b, w3) /\
      evolves (zone mid) w w3 /\ calm (zone mid) w3).
  { intros w2 He2 Hc2.
    destruct (evolves_lookup (below mid) w1 w2 mid (entered m next) He2) as (m2 & Hm2 & _ & Hsame).
    { apply lookup_insert_eq. }
    rewrite Hsame in Hm2 by (intros Hz; by apply (below_not_self mid mid)).
    step (update_ok mid (with_level (-1)) w2 _ Hm2). do 2 eexists; split; [done|]. split.
    - eapply evolves_trans; [exact He|]. eapply evolves_trans;
        [eapply evolves_mono; [exact He2|]; by right|].
      eapply evolves_insert; [exact Hm2|done|by left].
    - apply calm_insert; [done|]. apply rest_moved; [done|done|by exists st']. }
  destruct (st_sub st') as [sub|] eqn:Hs'.
  - destruct next as [nid|]; [|cbn in Hst'; injection Hst' as <-; discriminate Hs'].
    destruct (Hw mid m nid st' sub Hm Hst' Hs') as [Hex Hrk].
    assert (Hex1 : is_Some (store w1 !! sub)).
    { destruct Hex as [ms Hms]. destruct (evolves_lookup _ _ _ _ _ He Hms) as (ms' & ? & _). eauto. }
    destruct (Hsub sub w1 Hrk Hw1 Hcb1 Hex1) as ([] & w2 & Es & He2 & Hc2). step Es.
    apply Hfin; [eapply evolves_mono; [exact He2|]; intros i; by apply sub_zone|].
    eapply calm_evolves; [apply zone_dec|exact He2|exact Hc2|exact Hcb1].
  - erewrite bind_Ret by reflexivity. apply Hfin; [apply evolves_refl|done].
Qed.

Lemma run_settles fuel : forall mid e w, (rank mid < fuel)%nat -> wired w -> calm (zone mid) w ->
  is_Some (store w !! mid) -> settles mid (run guard_fn event_fn fuel mid e) w.
Proof.
  induction fuel as [|fuel IH]; intros mid e w Hf Hw Hc [m Hm]; [lia|].
  assert (Hr : rest m) by (apply (Hc mid); [by left|done]).
  unfold settles. cbn [run]. step (machine_of_ok mid w m Hm). rewrite (rest_level m Hr).
  pose proof (rest_run m Hr) as Hp. destruct (is_running m) eqn:Hrun; cbn [negb Z.eqb].
  2: { do 2 eexists; split; [done|]. split; [apply evolves_refl|done]. }
  destruct Hp as (p & Hp & [st Hst]). step (curr_ok mid w m p st Hm Hp Hst).
  set (es := fun sub => start fuel sub;; run guard_fn event_fn fuel sub e;; mret ()).
  assert (Hes : forall sub w1, below mid sub -> wired w1 -> calm (below mid) w1 ->
    is_Some (store w1 !! sub) -> settles sub (es sub) w1).
  { intros sub w1 Hb Hw1 Hc1 Hex. unfold es.
    assert (Hz : forall i, zone sub i -> below mid i) by (intros; by apply (sub_zone mid sub)).
    destruct (start_settles fuel sub w1) as (b1 & w2 & E & He & Hc2);
      [unfold below in Hb; lia|done|by eapply calm_sub|done|].
    destruct (IH sub e w2) as (b2 & w3 & E3 & He3 & Hc3);
      [unfold below in Hb; lia|by eapply evolves_wired|done| |].
    { destruct Hex as [ms Hms]. destruct (evolves_lookup _ _ _ _ _ He Hms) as (ms' & ? & _). eauto. }
    exists (), w3. step E. step E3. split; [done|]. split; [by eapply evolves_trans|done]. }
  destruct (st_sub st) as [sub|] eqn:Hsub.
  2: { erewrite bind_Ret by reflexivity. by eapply run_own_settles. }
  destruct p as [pid|]; [|cbn in Hst; injection Hst as <-; discriminate Hsub].
  destruct (Hw mid m pid st sub Hm Hst Hsub) as [Hex Hrk].
  assert (Hz : forall i, zone sub i -> below mid i) by (intros; by apply (sub_zone mid sub)).
  assert (Hcb : calm (below mid) w) by (eapply calm_sub; [done|]; by right).
  destruct (IH sub e w) as (b & w1 & E & He & Hc1); [lia|done|by eapply calm_sub|done|].
  rewrite bind_assoc. step E.
  destruct (settles_sub mid sub w w1 m Hrk Hm Hr Hcb He Hc1) as (He1 & Hcm1 & Hm1).
  assert (Hex1 : is_Some (store w1 !! sub)).
  { destruct Hex as [ms Hms]. destruct (evolves_lookup _ _ _ _ _ He Hms) as (ms' & ? & _). eauto. }
  pose proof Hex1 as [ms1 Hms1]. rewrite bind_assoc. step (machine_of_ok sub w1 ms1 Hms1).
  destruct (isTerminated ms1); cbn [negb].
  2: { erewrite bind_Ret by reflexivity. eexists _, _. split; [done|]. by split. }
  destruct (stop_settles sub w1 Hex1 Hc1) as ([] & w2 & E2 & He2 & Hc2).
  rewrite bind_assoc. step E2. erewrite bind_Ret by reflexivity.
  destruct (settles_sub mid sub w1 w2 m Hrk Hm1 Hr ltac:(eapply calm_sub; [exact Hcm1|]; by right) He2 Hc2)
    as (He3 & Hcm2 & Hm2).
  destruct (run_own_settles es mid e w2 m (PState pid) st) as (b3 & w3 & E3 & He4 & Hc4);
    try done.
  { eapply evolves_wired; [exact He3|]. by eapply evolves_wired. }
  exists b3, w3. split; [done|]. split; [|done].
  eapply evolves_trans; [exact He1|]. by eapply evolves_trans.
Qed.
End Wired.

(** ** Clients *)

Inductive sm_op :=
| ONewState (mid : nat) (id : Z) (enter exit : option nat)
| OAddRoute (mid : nat) (from ev to : Z) (guard action : option nat)
| OAddEvent (mid : nat) (id ev : Z) (action : option nat)
| OSetInit (mid : nat) (id : Z)
| OSetChanged (mid : nat) (b : bool)
| OSetSub (mid : nat) (id : Z) (sub : nat)
| OStart (mid : nat)
| OStop (mid : nat)
| ORestart (mid : nat)
| ORun (mid : nat) (e : event).

Definition op_machine (o : sm_op) : nat :=
  match o with
  | ONewState mid _ _ _ | OAddRoute mid _ _ _ _ _ | OAddEvent mid _ _ _ | OSetInit mid _
  | OSetChanged mid _ | OSetSub mid _ _ | OStart mid | OStop mid | ORestart mid | ORun mid _ => mid
  end.

Definition build (mid : nat) (f : machine -> machine * bool) : M world bool :=
  m ← machine_of mid; update_machine mid (fun _ => (f m).1);; mret (f m).2.

Section Client.
Context (guard_fn : nat -> list call -> event -> bool)
        (event_fn : nat -> list call -> event -> Z) (fuel : nat).

Definition exec (o : sm_op) : M world bool :=
  match o with
  | ONewState mid id en ex => build mid (fun m => newState m id en ex)
  | OAddRoute mid from ev to g a => build mid (fun m => addRoute m from ev to g a)
  | OAddEvent mid id ev a => build mid (fun m => addEvent m id ev a)
  | OSetInit mid id => build mid (fun m => (setInitState m id, true))
  | OSetChanged mid b => build mid (fun m => (setStateChangedCallback m b, true))
  | OSetSub mid id sub => build mid (fun m => setSubStateMachine m id sub)
  | OStart mid => start fuel mid
  | OStop mid => stop mid;; mret true
  | ORestart mid => restart fuel mid
  | ORun mid e => run guard_fn event_fn fuel mid e
  end.

Fixpoint exec_all (ops : list sm_op) : M world (list bool) :=
  match ops with
  | [] => mret []
  | o :: ops' => b ← exec o; bs ← exec_all ops'; mret (b :: bs)
  end.
End Client.

(** The machines are those of [D], and a sub-machine has a smaller rank than
    its owner. *)
Definition op_allowed (D : gset nat) (rank : nat -> nat) (o : sm_op) : Prop :=
  op_machine o ∈ D /\
  match o with OSetSub mid _ sub => sub ∈ D /\ (rank sub < rank mid)%nat | _ => True end.

Record sound (D : gset nat) (rank : nat -> nat) (w : world) : Prop := mkSound {
  sound_dom : dom (store w) = D;
  sound_wired : wired rank w;
  sound_rest : forall i m, store w !! i = Some m -> rest m
}.

Section ClientSound.
Context (D : gset nat) (rank : nat -> nat).

(** A building operation keeps a machine at rest and adds at most the given
    sub-machine. *)
Definition builds (sub_ok : nat -> Prop) (m m' : machine) : Prop :=
  (rest m -> rest m') /\
  forall id st' sub, states m' !! id = Some st' -> st_sub st' = Some sub ->
    (exists id' st, states m !! id' = Some st /\ st_sub st = Some sub) \/ sub_ok sub.

Lemma build_sound mid f w : sound D rank w -> mid ∈ D ->
  (forall m, builds (fun sub => sub ∈ D /\ (rank sub < rank mid)%nat) m (f m).1) ->
  exists b w', build mid f w = Ret (b, w') /\ sound D rank w'.
Proof.
  intros [Hdom Hw Hr] Hmid Hf. rewrite <- Hdom in Hmid. apply elem_of_dom in Hmid as [m Hm].
  unfold build. step (machine_of_ok mid w m Hm). step (update_ok mid (fun _ => (f m).1) w m Hm).
  do 2 eexists; split; [done|]. destruct (Hf m) as [Hrest Hsub].
  assert (Hd : dom (<[mid := (f m).1]> (store w)) = D).
  { rewrite dom_insert_L, Hdom. apply subseteq_union_1_L.
    apply singleton_subseteq_l. rewrite <- Hdom. by apply elem_of_dom_2 in Hm. }
  constructor; cbn.
  - done.
  - intros i mi id st sub Hi Hst Hs. cbn in Hi.
    assert (Hin : forall s, s ∈ D -> is_Some (<[mid := (f m).1]> (store w) !! s))
      by (intros s Hs'; rewrite <- Hd in Hs'; by apply elem_of_dom in Hs').
    destruct (decide (mid = i)) as [<-|Hne].
    + rewrite lookup_insert_eq in Hi. injection Hi as <-.
      destruct (Hsub id st sub Hst Hs) as [(id' & st0 & Hst0 & Hs0)|[HD Hrk]]; [|by split; [apply Hin|]].
      destruct (Hw mid m id' st0 sub Hm Hst0 Hs0) as [Hex Hrk]. split; [|done].
      apply Hin. rewrite <- Hdom. by apply elem_of_dom.
    + rewrite lookup_insert_ne in Hi by done. destruct (Hw i mi id st sub Hi Hst Hs) as [Hex Hrk].
      split; [|done]. apply Hin. rewrite <- Hdom. by apply elem_of_dom.
  - intros i mi Hi. destruct (decide (mid = i)) as [<-|Hne].
    + rewrite lookup_insert_eq in Hi. injection Hi as <-. apply Hrest. by apply (Hr mid).
    + rewrite lookup_insert_ne in Hi by done. by apply (Hr i).
Qed.

Lemma builds_same P m m' : rest m -> rest m' -> states m' = states m -> builds P m m'.
Proof. intros _ H E. split; [done|]. rewrite E. eauto. Qed.

Lemma builds_refl P m : builds P m m.
Proof. split; eauto. Qed.

Lemma rest_with_states f m : is_running m = false -> rest m -> rest (with_states f m).
Proof. intros E []. constructor; [done|done|]. cbn. by rewrite E in *. Qed.

Lemma builds_update P m id f : is_running m = false ->
  (forall st, st_sub (f st) = st_sub st \/ exists sub, st_sub (f st) = Some sub /\ P sub) ->
  builds P m (update_state m id f).1.
Proof.
  intros Hrun Hf. unfold update_state. destruct (findState m id); [|apply builds_refl].
  split; [intros; by apply rest_with_states|]. cbn. intros id' st' sub Hst' Hs.
  destruct (decide (id = id')) as [<-|].
  - rewrite lookup_alter_eq in Hst'. destruct (states m !! id) as [st|] eqn:Hst; [|done].
    injection Hst' as <-. destruct (Hf st) as [E|(sb & E & HP)]; rewrite E in Hs.
    + left. eauto.
    + right. by injection Hs as <-.
  - rewrite lookup_alter_ne in Hst' by done. left. eauto.
Qed.

Lemma builds_newState P m id en ex : builds P m (newState m id en ex).1.
Proof.
  unfold newState. destruct (is_running m) eqn:Hrun; [apply builds_refl|].
  destruct (states m !! id) eqn:Hid; [apply builds_refl|]. cbn [fst].
  set (m1 := with_states _ m).
  assert (builds P m m1) as [Hr Hs].
  { split; [intros; by apply rest_with_states|]. cbn. intros id' st' sub Hst' Hs.
    destruct (decide (id = id')) as [<-|].
    - rewrite lookup_insert_eq in Hst'. by injection Hst' as <-.
    - rewrite lookup_insert_ne in Hst' by done. left. eauto. }
  case_match; [|done]. split; [|done]. intros H0. destruct (Hr H0). by constructor.
Qed.

Lemma builds_addRoute P m from ev to g a : builds P m (addRoute m from ev to g a).1.
Proof.
  unfold addRoute. destruct (is_running m) eqn:Hrun; [apply builds_refl|].
  destruct (findState m from); [|apply builds_refl]. case_match; [apply builds_refl|].
  apply builds_update; [done|]. by left.
Qed.

Lemma builds_addEvent P m id ev a : builds P m (addEvent m id ev a).1.
Proof.
  unfold addEvent. destruct (is_running m) eqn:Hrun; [apply builds_refl|].
  destruct a; [|apply builds_refl]. case_match; (apply builds_update; [done|]); by left.
Qed.

Lemma builds_setSub (P : nat -> Prop) m id sub : P sub -> builds P m (setSubStateMachine m id sub).1.
Proof.
  intros HP. unfold setSubStateMachine. destruct (is_running m) eqn:Hrun; [apply builds_refl|].
  apply builds_update; [done|]. intros st. right. by exists sub.
Qed.

Lemma settles_sound {A} mid (c : M world A) w : sound D rank w -> mid ∈ D ->
  (forall w, wired rank w -> calm (zone rank mid) w -> is_Some (store w !! mid) -> settles rank mid c w) ->
  exists a w', c w = Ret (a, w') /\ sound D rank w'.
Proof.
  intros [Hd Hw Hr] Hmid Hc. rewrite <- Hd in Hmid. apply elem_of_dom in Hmid.
  assert (Hcalm : forall P : nat -> Prop, calm P w) by (intros P i m _; apply Hr).
  destruct (Hc w Hw (Hcalm _) Hmid) as (a & w' & E & He & Hc').
  exists a, w'. split; [done|]. constructor.
  - rewrite <- Hd. apply set_eq. intros i. rewrite !elem_of_dom. specialize (He i).
    destruct (store w !! i), (store w' !! i); try done.
  - by eapply evolves_wired.
  - intros i m Hm. eapply (calm_evolves _ (fun _ => True)); try done.
    intros j. apply zone_dec.
Qed.
End ClientSound.

Lemma exec_sound D rank guard_fn event_fn fuel o w :
  (forall i, i ∈ D -> (rank i < fuel)%nat) -> sound D rank w -> op_allowed D rank o ->
  exists b w', exec guard_fn event_fn fuel o w = Ret (b, w') /\ sound D rank w'.
Proof.
  intros Hf Hs [Hmid Ho].
  assert (Hstart : forall mid w, mid ∈ D -> sound D rank w ->
    exists b w', start fuel mid w = Ret (b, w') /\ sound D rank w').
  { intros mid w1 Hm Hs1. eapply (settles_sound D rank mid); try done.
    intros w0 ? ? ?. apply start_settles; auto. }
  assert (Hstop : exists w', stop (op_machine o) w = Ret ((), w') /\ sound D rank w').
  { destruct (settles_sound D rank (op_machine o) (stop (op_machine o)) w Hs Hmid) as ([] & w' & E & Hs');
      [|by exists w']. intros w0 _ Hc Hex. by apply stop_settles. }
  destruct o as [mid id en ex|mid from ev to g a|mid id ev a|mid id|mid b|mid id sub|mid|mid|mid|mid e];
    cbn [op_machine exec] in *.
  - apply build_sound; [done..|]. intros m. apply builds_newState.
  - apply build_sound; [done..|]. intros m. apply builds_addRoute.
  - apply build_sound; [done..|]. intros m. apply builds_addEvent.
  - apply build_sound; [done..|]. intros m. split; [|cbn; eauto]. intros []. by constructor.
  - apply build_sound; [done..|]. intros m. split; [|cbn; eauto]. intros []. by constructor.
  - apply build_sound; [done..|]. intros m. by apply builds_setSub.
  - by apply Hstart.
  - destruct Hstop as (w' & E & Hs'). step E. by do 2 eexists.
  - destruct Hstop as (w' & E & Hs'). unfold restart. step E. by apply Hstart.
  - eapply (settles_sound D rank mid); try done. intros w0 ? ? ?. apply run_settles; auto.
Qed.

(** ** Properties *)

(** C20: no sequence of calls on a family of machines (creating states, routes,
    events and sub-machines, starting, stopping, restarting and running, in any
    order) dereferences a null state or recurses without end, whatever the
    user's guards and event functions return, provided that sub-machines are
    nested and no machine is deeper than the fuel.  Between calls a running
    machine has a current state of its own and a stopped one has none. *)
Theorem machines_never_crash D rank guard_fn event_fn fuel ops w :
  (forall i, i ∈ D -> (rank i < fuel)%nat) -> sound D rank w -> Forall (op_allowed D rank) ops ->
  exists bs w', exec_all guard_fn event_fn fuel ops w = Ret (bs, w') /\
    sound D rank w' /\ length bs = length ops.
Proof.
  intros Hf Hs Hops. revert w Hs. induction Hops as [|o ops Ho _ IH]; intros w Hs; cbn [exec_all].
  { by exists [], w. }
  destruct (exec_sound D rank guard_fn event_fn fuel o w Hf Hs Ho) as (b & w1 & E & Hs1). step E.
  destruct (IH w1 Hs1) as (bs & w2 & E2 & Hs2 & Hl). step E2.
  exists (b :: bs), w2. cbn. by rewrite Hl.
Qed.

(** what one event does to a machine without sub-machines.  The state's
    event function is asked first; when there is none, or it answers -1, the
    first route whose event matches (0 matches any) and whose guard, evaluated
    in order, allows it is taken.  Without a decision, or with an unknown target,
    [run] returns false and no field changes.  Otherwise the exit action, the
    route's action, the enter action and the state-changed callback are called
    in this order, the target becomes the current state and the old one the last
    state, and [run] returns true. *)
Theorem flat_transition guard_fn event_fn fuel mid e w m p st :
  store w !! mid = Some m -> rest m -> is_running m = true -> curr_state m = Some p ->
  deref m p = Some st -> (forall q t, deref m q = Some t -> st_sub t = None) ->
  exists choice cs, decides guard_fn event_fn st e (calls w) choice cs /\
  match choice with
  | None => run guard_fn event_fn (S fuel) mid e w = Ret (false, mkWorld (store w) cs)
  | Some (id, act) =>
      match resolve m id with
      | None => run guard_fn event_fn (S fuel) mid e w = Ret (false, mkWorld (store w) cs)
      | Some next => exists st', deref m next = Some st' /\
          run guard_fn event_fn (S fuel) mid e w =
          Ret (true, mkWorld (<[mid := moved m next]> (store w))
                       (cs ++ transition_calls mid m st st' next act e)) /\
          currentState (moved m next) = id /\ lastState (moved m next) = ptr_id (Some p) /\
          nextState (moved m next) = -1 /\ rest (moved m next)
      end
  end.
Proof.
  intros Hm Hr Hrun Hc Hd Hflat.
  set (es := fun sub => start fuel sub;; run guard_fn event_fn fuel sub e;; mret ()).
  assert (Erun : run guard_fn event_fn (S fuel) mid e w = run_own guard_fn event_fn es mid e w).
  { cbn [run]. step (machine_of_ok mid w m Hm). rewrite Hrun, (rest_level m Hr). cbn [negb Z.eqb].
    step (curr_ok mid w m p st Hm Hc Hd). rewrite (Hflat p st Hd). done. }
  destruct (run_own_cases guard_fn event_fn es mid e w m p st Hm Hr Hrun Hc Hd) as (choice & cs & Hdec & E).
  exists choice, cs. split; [done|]. rewrite Erun, E.
  destruct choice as [[id act]|]; [|done]. destruct (resolve m id) as [next|] eqn:Hn; [|done].
  destruct (resolve_ok m id next Hn) as [st' Hst']. exists st'. split; [done|]. rewrite Hst', (Hflat next st' Hst').
  split.
  { erewrite bind_Ret by reflexivity.
    erewrite bind_Ret; [|apply update_ok, lookup_insert_eq]. cbn [store calls]. by rewrite insert_insert_eq. }
  split_and!; [|by rewrite <- Hc|done|by apply rest_moved; [..|exists st']].
  unfold resolve in Hn. destruct (findState m id) as [q|] eqn:Hf.
  - injection Hn as <-. by destruct (findState_ptr m id q Hf) as [-> _].
  - destruct (Z.eqb_spec id TERM_STATE_ID) as [->|]; [by injection Hn as <-|done].
Qed.

(** a callback of a machine cannot act on that machine: while a call is in
    progress [start], [stop], [restart] and [run] return at once, and while the
    machine is running its states, routes, events and sub-machines cannot be
    edited; nothing changes and nothing is called. *)
Theorem reentrant_calls_refused guard_fn event_fn fuel w mid m o :
  store w !! mid = Some m -> cb_level m <> 0 -> is_running m = true -> op_machine o = mid ->
  match o with OSetInit _ _ | OSetChanged _ _ => True | _ =>
    exec guard_fn event_fn (S fuel) o w = Ret (match o with OStop _ => true | _ => false end, w)
  end.
Proof.
  intros Hm Hl Hrun Ho. apply Z.eqb_neq in Hl.
  assert (Hstart : start (S fuel) mid w = Ret (false, w))
    by (cbn [start]; step (machine_of_ok mid w m Hm); by rewrite Hrun).
  assert (Hstop : stop mid w = Ret ((), w))
    by (unfold stop; step (machine_of_ok mid w m Hm); by rewrite Hrun, Hl).
  assert (Hbuild : forall f, f m = (m, false) -> build mid f w = Ret (false, w)).
  { intros f E. unfold build. step (machine_of_ok mid w m Hm). rewrite E. cbn [fst snd].
    step (update_ok mid (fun _ => m) w m Hm). rewrite insert_id by done. by destruct w. }
  destruct o; cbn [op_machine] in Ho; subst; cbn [exec]; try done.
  1-4: apply Hbuild; cbn; unfold newState, addRoute, addEvent, setSubStateMachine; by rewrite Hrun.
  - by step Hstop.
  - unfold restart. by step Hstop.
  - cbn [run]. step (machine_of_ok _ w m Hm). by rewrite Hrun, Hl.
Qed.

Fixpoint run_all (guard_fn : nat -> list call -> event -> bool)
    (event_fn : nat -> list call -> event -> Z) (fuel mid : nat) (es : list event) : M world (list bool) :=
  match es with
  | [] => mret []
  | e :: es' => b ← run guard_fn event_fn fuel mid e; bs ← run_all guard_fn event_fn fuel mid es'; mret (b :: bs)
  end.

(** when the sub-machine of the current state terminates on an event that
    the state itself does not handle, the parent is stranded: the sub-machine is
    stopped, but the state is not left, and from then on every event is offered
    to the stopped sub-machine only: every [run] of the parent returns false
    and calls nothing, whatever events and routes its state has. *)
Theorem stranded_by_unrouted_termination guard_fn event_fn fuel mid sub e es w w1 m p st sm b :
  store w !! mid = Some m -> rest m -> is_running m = true -> curr_state m = Some p ->
  deref m p = Some st -> st_sub st = Some sub -> sub <> mid ->
  run guard_fn event_fn (S fuel) sub e w = Ret (b, w1) -> store w1 !! mid = Some m ->
  store w1 !! sub = Some sm -> rest sm -> is_running sm = true -> isTerminated sm = true ->
  handler st e = None ->
  Forall (fun r => r_event_id r <> ANY_EVENT_ID /\ r_event_id r <> ev_id e) (st_routes st) ->
  exists w2, run guard_fn event_fn (S (S fuel)) mid e w = Ret (false, w2) /\
    store w2 !! mid = Some m /\
    run_all guard_fn event_fn (S (S fuel)) mid es w2 = Ret (map (fun _ => false) es, w2).
Proof.
  intros Hm Hr Hrun Hc Hd Hsub Hne E Hm1 Hs1 Hrs Hruns Ht Hh Hroutes.
  pose proof (rest_run sm Hrs) as Hps. rewrite Hruns in Hps. destruct Hps as (ps & Hps & [sts Hsts]).
  pose proof (stop_running sub w1 sm ps sts Hs1 Hrs Hruns Hps Hsts) as Estop.
  set (sm2 := with_running false (with_curr None sm)) in Estop.
  set (w2 := mkWorld _ _) in Estop.
  assert (Hm2 : store w2 !! mid = Some m) by (cbn; by rewrite lookup_insert_ne).
  assert (Hs2 : store w2 !! sub = Some sm2) by apply lookup_insert_eq.
  assert (Hrun_m : forall w' e' k, store w' !! mid = Some m -> run guard_fn event_fn (S k) mid e' w' =
    (ret ← run guard_fn event_fn k sub e';
     s ← machine_of sub;
     early ← (if negb (isTerminated s) then mret (Some ret) else stop sub;; mret None);
     match early with
     | Some r => mret r
     | None => run_own guard_fn event_fn (fun sub => start k sub;; run guard_fn event_fn k sub e';; mret ()) mid e'
     end) w').
  { intros w' e' k Hm'. cbn [run]. step (machine_of_ok mid w' m Hm'). rewrite Hrun, (rest_level m Hr).
    cbn [negb Z.eqb]. step (curr_ok mid w' m p st Hm' Hc Hd). rewrite Hsub, bind_assoc.
    unfold mbind, M_bind. destruct (run guard_fn event_fn k sub e' w') as [[? wk]| |]; [|done..].
    by destruct (machine_of sub wk) as [[? ?]| |]. }
  set (es1 := fun sub => start (S fuel) sub;; run guard_fn event_fn (S fuel) sub e;; mret ()).
  destruct (run_own_cases guard_fn event_fn es1 mid e w2 m p st Hm2 Hr Hrun Hc Hd) as (choice & cs & Hdec & Eown).
  assert (choice = None /\ cs = calls w2) as [-> ->].
  { inversion Hdec as [f id Hf ? ?|cs1 r cs2 [[_ ->]|(f & Hf & _)] Hp]; subst; try congruence.
    clear Hdec Eown. remember (calls w2) as cs0 eqn:Ecs. clear Ecs.
    induction Hp; inversion_clear Hroutes as [|? ? [? ?] Hrs']; try (by destruct Hh); naive_solver. }
  exists w2. split; [|split; [done|]].
  - rewrite Hrun_m by done. step E. step (machine_of_ok sub w1 sm Hs1). rewrite Ht. cbn [negb].
    rewrite bind_assoc. step Estop. erewrite bind_Ret by reflexivity.
    change (run_own guard_fn event_fn es1 mid e w2 = Ret (false, w2)). by rewrite Eown.
  - induction es as [|e' es IH]; cbn [run_all map]; [done|].
    assert (Efalse : run guard_fn event_fn (S (S fuel)) mid e' w2 = Ret (false, w2)).
    { rewrite Hrun_m by done.
      erewrite bind_Ret; [|cbn [run]; step (machine_of_ok sub w2 sm2 Hs2); reflexivity].
      step (machine_of_ok sub w2 sm2 Hs2). done. }
    step Efalse. step IH. done.
Qed.

(** ** Witnesses *)

Definition yes (_ : nat) (_ : list call) (_ : event) : bool := true.
Definition pass (_ : nat) (_ : list call) (_ : event) : Z := -1.

Lemma machines_never_crash_witness :
  exists bs w', exec_all yes pass 2
    [ONewState 0 1 None None; OAddRoute 0 1 5 0 None None; ONewState 1 1 (Some 7%nat) None;
     ONewState 1 2 None None; OSetSub 1 1 0; OAddRoute 1 1 6 2 (Some 3%nat) None; OStart 1; ORun 1 (mkEvent 5 0); ORestart 1]
    (mkWorld {[0%nat := new_machine; 1%nat := new_machine]} []) = Ret (bs, w') /\
    sound {[0%nat; 1%nat]} (fun i => i) w' /\ length bs = 9%nat.
Proof.
  apply (machines_never_crash {[0%nat; 1%nat]} (fun i => i) yes pass 2 [_; _; _; _; _; _; _; _; _]).
  - intros i. rewrite elem_of_union, !elem_of_singleton. lia.
  - assert (H : forall i m, ({[0%nat := new_machine; 1%nat := new_machine]} : gmap nat machine) !! i = Some m ->
      m = new_machine).
    { intros i m. rewrite lookup_insert_Some, lookup_singleton_Some. naive_solver. }
    constructor; cbn.
    + rewrite dom_insert_L, dom_singleton_L. reflexivity.
    + intros mid m id st sub Hm Hst _. apply H in Hm as ->. cbn in Hst. by rewrite lookup_empty in Hst.
    + intros i m Hm. apply H in Hm as ->. by constructor.
  - repeat constructor; cbn; try lia; rewrite elem_of_union, !elem_of_singleton; auto.
Defined.

Definition on_demo : machine := with_curr (Some (PState 1)) (with_running true demo).

Definition demo_state : state :=
  mkState 1 (Some 1%nat) (Some 2%nat) None [mkRoute 5 2 (Some 9%nat) (Some 4%nat)] ∅ None.

Lemma flat_transition_witness :
  exists choice cs, decides yes pass demo_state
    (mkEvent 5 0) [] choice cs /\
  match choice with
  | None => run yes pass 1 0 (mkEvent 5 0) (mkWorld {[0%nat := on_demo]} []) = Ret (false, mkWorld {[0%nat := on_demo]} cs)
  | Some (id, act) =>
      match resolve on_demo id with
      | None => run yes pass 1 0 (mkEvent 5 0) (mkWorld {[0%nat := on_demo]} []) = Ret (false, mkWorld {[0%nat := on_demo]} cs)
      | Some next => exists st', deref on_demo next = Some st' /\
          run yes pass 1 0 (mkEvent 5 0) (mkWorld {[0%nat := on_demo]} []) =
          Ret (true, mkWorld (<[0%nat := moved on_demo next]> {[0%nat := on_demo]})
            (cs ++ transition_calls 0 on_demo demo_state st' next act (mkEvent 5 0))) /\
          currentState (moved on_demo next) = id /\ lastState (moved on_demo next) = 1 /\
          nextState (moved on_demo next) = -1 /\ rest (moved on_demo next)
      end
  end.
Proof.
  pose proof (flat_transition yes pass 0 0 (mkEvent 5 0) (mkWorld {[0%nat := on_demo]} []) on_demo
    (PState 1) demo_state) as H.
  cbn [store calls] in H. change (ptr_id (Some (PState 1))) with 1 in H. apply H; clear H.
  - reflexivity.
  - constructor; [reflexivity..|]. exists (PState 1). split; [reflexivity|]. by eexists.
  - reflexivity.
  - reflexivity.
  - reflexivity.
  - intros [id|] t; cbn; [|by intros [= <-]].
    assert (E : states on_demo = <[1 := demo_state]>
      {[2 := mkState 2 (Some 3%nat) None None [mkRoute 0 0 None None] ∅ None]}) by reflexivity.
    intros H. assert (H' : states on_demo !! id = Some t) by exact H.
    rewrite E in H'. apply lookup_insert_Some in H'. rewrite lookup_singleton_Some in H'. naive_solver.
Defined.

Lemma reentrant_calls_refused_witness :
  exec yes pass 1 (ORun 0 (mkEvent 5 0)) (mkWorld {[0%nat := with_level 1 on_demo]} []) =
  Ret (false, mkWorld {[0%nat := with_level 1 on_demo]} []).
Proof.
  apply (reentrant_calls_refused yes pass 0 (mkWorld {[0%nat := with_level 1 on_demo]} []) 0
           (with_level 1 on_demo) (ORun 0 (mkEvent 5 0))); [reflexivity|discriminate|reflexivity|reflexivity].
Defined.

Definition inner : machine :=
  with_curr (Some (PState 1)) (with_running true
    (addRoute (newState new_machine 1 None None).1 1 5 0 None None).1).
Definition inner_done : machine := mkMachine 1 true (Some (PState 1)) (Some PTerm) None (states inner) false 0.
Definition outer : machine :=
  with_curr (Some (PState 1)) (with_running true
    (setSubStateMachine (addRoute (newState (newState new_machine 1 None None).1 2 None None).1
       1 6 2 None None).1 1 0).1).

Lemma stranded_by_unrouted_termination_witness :
  exists w2, run yes pass 2 1 (mkEvent 5 0) (mkWorld {[0%nat := inner; 1%nat := outer]} []) = Ret (false, w2) /\
    store w2 !! 1%nat = Some outer /\
    run_all yes pass 2 1 [mkEvent 6 0; mkEvent 6 0] w2 = Ret ([false; false], w2).
Proof.
  apply (stranded_by_unrouted_termination yes pass 0 1 0 (mkEvent 5 0) [mkEvent 6 0; mkEvent 6 0]
    (mkWorld {[0%nat := inner; 1%nat := outer]} [])
    (mkWorld (<[0%nat := inner_done]> {[0%nat := inner; 1%nat := outer]}) [])
    outer (PState 1) (mkState 1 None None (Some 0%nat) [mkRoute 6 2 None None] ∅ None) inner_done true);
    try reflexivity.
  - constructor; [reflexivity..|]. exists (PState 1). split; [reflexivity|]. by eexists.
  - discriminate.
  - constructor; [reflexivity..|]. exists PTerm. split; [reflexivity|]. by eexists.
  - repeat constructor; discriminate.
Defined.
