(* ===== verification/Timers.v ===== *)
(** * Timers: the timers of the event loop

    [modules/event/common_loop_timer.cpp] and, on top of it, the timer event of
    [timer_event_impl.cpp].  A timer is an object in memory; a heap of pointers
    orders the live ones by their time, and a cabinet gives them out as tokens.
    The heap algorithms of the standard library and the cabinet are used through
    interfaces only.

    The [n]-th reading of the steady clock is [time n].  What the callbacks do is
    a program of calls that depends on what happened so far. *)
From S2P Require Import Prelude Cabinet.

(** ** The heap algorithms

    The elements are compared by a key, the smallest one is at the front. *)
Class HeapOps := {
  push_heap : (nat -> Z) -> list nat -> list nat;
  pop_heap : (nat -> Z) -> list nat -> list nat;
  make_heap : (nat -> Z) -> list nat -> list nat;
  is_heap : (nat -> Z) -> list nat -> Prop;
  heap_nil key : is_heap key [];
  heap_front key p v : is_heap key (p :: v) -> forall q, q ∈ v -> key p <= key q;
  heap_ext key key' v : (forall p, p ∈ v -> key p = key' p) -> is_heap key v -> is_heap key' v;
  push_ok key v p : is_heap key v -> is_heap key (push_heap key (v ++ [p])) /\ push_heap key (v ++ [p]) ≡ₚ v ++ [p];
  pop_ok key p v : is_heap key (p :: v) -> exists w, pop_heap key (p :: v) = w ++ [p] /\ is_heap key w /\ w ≡ₚ v;
  make_ok key v : is_heap key (make_heap key v) /\ make_heap key v ≡ₚ v }.

(** A sorted list is such a heap. *)
Fixpoint insert_by (key : nat -> Z) (p : nat) (v : list nat) : list nat :=
  match v with
  | [] => [p]
  | q :: v' => if key p <? key q then p :: v else q :: insert_by key p v'
  end.
Definition sort_by (key : nat -> Z) (v : list nat) : list nat := fold_right (insert_by key) [] v.
Fixpoint sorted_by (key : nat -> Z) (v : list nat) : Prop :=
  match v with [] => True | p :: v' => (forall q, q ∈ v' -> key p <= key q) /\ sorted_by key v' end.

Lemma insert_by_perm key p v : insert_by key p v ≡ₚ p :: v.
Proof.
  induction v as [|q v IH]; [done|]. cbn. destruct (_ <? _); [done|]. rewrite IH. apply Permutation_swap.
Qed.

Lemma insert_by_sorted key p v : sorted_by key v -> sorted_by key (insert_by key p v).
Proof.
  induction v as [|q v IH]; intros H; cbn in *; [split; [intros ? []%elem_of_nil|done]|].
  destruct H as [H1 H2]. destruct (Z.ltb_spec (key p) (key q)); cbn.
  - split; [|done]. intros r [->|Hr]%elem_of_cons; [lia|]. specialize (H1 r Hr). lia.
  - split; [|by apply IH]. intros r Hr. rewrite insert_by_perm in Hr. apply elem_of_cons in Hr as [->|Hr]; [lia|by apply H1].
Qed.

Lemma sort_by_ok key v : sorted_by key (sort_by key v) /\ sort_by key v ≡ₚ v.
Proof.
  induction v as [|p v [IH1 IH2]]; [done|]. cbn. split; [by apply insert_by_sorted|]. by rewrite insert_by_perm, IH2.
Qed.

#[global, refine] Instance sorted_heap : HeapOps := {|
  push_heap := sort_by;
  pop_heap _ v := match v with [] => [] | p :: v' => v' ++ [p] end;
  make_heap := sort_by;
  is_heap := sorted_by |}.
Proof.
  - done.
  - intros key p v H. apply H.
  - intros key key' v. induction v as [|p v IH]; [done|]. intros He [H1 H2]. split.
    + intros q Hq. rewrite <- !He by (by left || by right). by apply H1.
    + apply IH; [|done]. intros q Hq. apply He. by right.
  - intros key v p _. apply sort_by_ok.
  - intros key p v [_ H]. exists v. done.
  - intros. apply sort_by_ok.
Defined.

(** ** Timers *)

Record Timer := mkTimer { t_token : Token; t_interval : Z; t_expired : Z; t_repeat : Z; t_cb : nat }.

(** What is known of a timer by its token. *)
Record entry := mkEntry { e_interval : Z; e_expired : Z; e_repeat : Z; e_cb : nat }.
Definition entry_of (t : Timer) : entry := mkEntry (t_interval t) (t_expired t) (t_repeat t) (t_cb t).

Inductive happened :=
| Added (tok : Token) (e : entry)
| Deleted (tok : Token)
| Fired (tok : Token).

(** The calls a callback makes, in order; the program sees the tokens it is given. *)
Inductive call := CallAdd (interval repeat : Z) (cb : nat) | CallDelete (tok : Token).
Inductive prog := PDone | PCall (c : call) (k : Token -> prog).

Section Timers.
Context {S : Type -> Type} {STORE : TokenStore S} {HEAP : HeapOps}.
Context (time : nat -> Z).

Record timers := mkTimers {
  min_heap : list nat; store : gmap nat Timer; cab : S nat; next_ptr : nat;
  reads : nat; garbage : list nat; log : list happened }.

Definition new_timers : timers := mkTimers [] ∅ ts_empty 0 0 [] [].

Notation T := (M timers).

Definition set_heap (h : list nat) (s : timers) :=
  mkTimers h (store s) (cab s) (next_ptr s) (reads s) (garbage s) (log s).
Definition set_store (m : gmap nat Timer) (s : timers) :=
  mkTimers (min_heap s) m (cab s) (next_ptr s) (reads s) (garbage s) (log s).
Definition set_cab (c : S nat) (s : timers) :=
  mkTimers (min_heap s) (store s) c (next_ptr s) (reads s) (garbage s) (log s).
Definition note (e : happened) : T () := modify (fun s =>
  mkTimers (min_heap s) (store s) (cab s) (next_ptr s) (reads s) (garbage s) (log s ++ [e])).

(** [GetCurrentSteadyClockMilliseconds] *)
Definition now_ms : T Z := fun s =>
  Ret (time (reads s), mkTimers (min_heap s) (store s) (cab s) (next_ptr s) (reads s + 1)%nat (garbage s) (log s)).

(** [timer_object_pool_.alloc]: an object that nobody uses. *)
Definition pool_alloc (t : Timer) : T nat := fun s =>
  Ret (next_ptr s, mkTimers (min_heap s) (<[next_ptr s := t]> (store s)) (cab s) (next_ptr s + 1)%nat (reads s) (garbage s) (log s)).
Definition pool_free (p : nat) : T () := modify (fun s => set_store (delete p (store s)) s).

Definition get_timer (p : nat) : T Timer := s ← get; the (store s !! p).
Definition set_timer (p : nat) (t : Timer) : T () := modify (fun s => set_store (<[p := t]> (store s)) s).

(** The comparison reads the timers. *)
Definition key (s : timers) (p : nat) : Z := default 0 (t_expired <$> store s !! p).
Definition on_heap (f : (nat -> Z) -> list nat -> list nat) : T () :=
  s ← get;
  if forallb (fun p => bool_decide (is_Some (store s !! p))) (min_heap s)
  then put (set_heap (f (key s) (min_heap s)) s) else stuck.
Definition push_back (p : nat) : T () := modify (fun s => set_heap (min_heap s ++ [p]) s).
Definition pop_back : T () := modify (fun s => set_heap (removelast (min_heap s)) s).

Definition cabinet_alloc (p : nat) : T Token :=
  s ← get; '(c, tok) ← the (ts_alloc (cab s) (Some p)); put (set_cab c s) ;; mret tok.
Definition cabinet_free (tok : Token) : T (option nat) :=
  s ← get; '(c, o) ← the (ts_free (cab s) tok); put (set_cab c s) ;; mret o.

Definition with_token (tok : Token) (t : Timer) := mkTimer tok (t_interval t) (t_expired t) (t_repeat t) (t_cb t).
Definition with_expired (x : Z) (t : Timer) := mkTimer (t_token t) (t_interval t) x (t_repeat t) (t_cb t).
Definition with_repeat (n : Z) (t : Timer) := mkTimer (t_token t) (t_interval t) (t_expired t) n (t_cb t).

Definition addTimer (interval repeat : Z) (cb : nat) : T Token :=
  now ← now_ms;
  p ← pool_alloc (mkTimer token_null 0 0 0 cb);
  tok ← cabinet_alloc p;
  let t := mkTimer tok interval (u64 (now + interval)) repeat cb in
  set_timer p t ;;
  push_back p ;;
  on_heap push_heap ;;
  note (Added tok (entry_of t)) ;;
  mret tok.

Definition deleteTimer (tok : Token) : T () :=
  o ← cabinet_free tok;
  match o with
  | None => mret ()
  | Some p =>
      t ← get_timer p;
      set_timer p (with_expired 0 t) ;;
      on_heap make_heap ;;
      on_heap pop_heap ;;
      pop_back ;;
      note (Deleted tok) ;;
      (* run([this, timer] { timer_object_pool_.free(timer); }) *)
      modify (fun s => mkTimers (min_heap s) (store s) (cab s) (next_ptr s) (reads s) (garbage s ++ [p]) (log s))
  end.

(** The deferred tasks that [deleteTimer] has posted. *)
Definition collect : T () := modify (fun s =>
  mkTimers (min_heap s) (foldr delete (store s) (garbage s)) (cab s) (next_ptr s) (reads s) [] (log s)).

Definition exec_call (c : call) : T Token :=
  match c with
  | CallAdd i r cb => addTimer i r cb
  | CallDelete tok => deleteTimer tok ;; mret token_null
  end.

Fixpoint exec_prog (p : prog) : T () :=
  match p with
  | PDone => mret ()
  | PCall c k => tok ← exec_call c; exec_prog (k tok)
  end.

Section Handle.
Context (body : nat -> list happened -> prog).

(** [t->cb()] *)
Definition run_cb (cb : nat) : T () := s ← get; exec_prog (body cb (log s)).

(** What becomes of the front timer [p] when it fires. *)
Definition expire (p : nat) (t : Timer) : T () :=
  on_heap pop_heap ;;
  (if t_repeat t =? 1 then
     pop_back ;; _ ← cabinet_free (t_token t); pool_free p
   else
     set_timer p (with_expired (u64 (t_expired t + t_interval t)) t) ;;
     on_heap push_heap ;;
     if t_repeat t =? 0 then mret ()
     else (t ← get_timer p; set_timer p (with_repeat (t_repeat t - 1) t))).

Fixpoint handle_loop (fuel : nat) (now : Z) : T () :=
  match fuel with
  | O => out_of_fuel
  | Datatypes.S f =>
      s ← get;
      match min_heap s with
      | [] => mret ()
      | p :: _ =>
          t ← get_timer p;
          if now <? t_expired t then mret ()
          else
            expire p t ;;
            note (Fired (t_token t)) ;;
            run_cb (t_cb t) ;;
            handle_loop f now
      end
  end.

Definition handleExpiredTimers (fuel : nat) : T () := now ← now_ms; handle_loop fuel now.
End Handle.

(** [getWaitTime]: -1 waits for ever. *)
Definition getWaitTime (has_next_func : bool) : T Z :=
  if has_next_func then mret 0
  else
    s ← get;
    match min_heap s with
    | [] => mret (-1)
    | p :: _ => t ← get_timer p; now ← now_ms; mret (Z.max 0 (to_signed 64 (u64 (t_expired t - now))))
    end.

(** ** Timer events (timer_event_impl)

    [te_cb] stands for the closure that [enable] hands to [addTimer]; running
    it is [onEvent], which also says whether the user's callback is called. *)

Record timer_event := mkTE {
  te_inited : bool; te_enabled : bool; te_token : Token; te_interval : Z; te_oneshot : bool; te_cb : nat }.

Definition new_timer_event (cb : nat) := mkTE false false token_null 0 true cb.
Definition te_set (enabled : bool) (tok : Token) (e : timer_event) :=
  mkTE (te_inited e) enabled tok (te_interval e) (te_oneshot e) (te_cb e).

Definition te_isEnabled (e : timer_event) : bool := if te_inited e then te_enabled e else false.

Definition te_disable (e : timer_event) : T (bool * timer_event) :=
  if negb (te_inited e) then mret (false, e)
  else if negb (te_isEnabled e) then mret (true, e)
  else deleteTimer (te_token e) ;; mret (true, te_set false (te_token e) e).

Definition te_initialize (interval : Z) (oneshot : bool) (e : timer_event) : T (bool * timer_event) :=
  '(_, e) ← te_disable e;
  mret (true, mkTE true (te_enabled e) (te_token e) interval oneshot (te_cb e)).

Definition te_enable (e : timer_event) : T (bool * timer_event) :=
  if negb (te_inited e) then mret (false, e)
  else if te_isEnabled e then mret (true, e)
  else
    tok ← addTimer (u64 (te_interval e)) (if te_oneshot e then 1 else 0) (te_cb e);
    mret (true, te_set true tok e).

Definition te_onEvent (e : timer_event) : timer_event :=
  if te_oneshot e then te_set false token_null e else e.

End Timers.

(** ** Example *)

Definition clock (n : nat) : Z := 1000 + 10 * Z.of_nat n.

(** Callback 1 adds a timer of 7 ms, the others do nothing. *)
Definition demo_body (cb : nat) (_ : list happened) : prog :=
  if (cb =? 1)%nat then PCall (CallAdd 7 1 9) (fun _ => PDone) else PDone.

Definition demo_run : M (timers (S := cabinet)) () :=
  _ ← addTimer clock 15 0 2;
  _ ← addTimer clock 5 1 1;
  t ← addTimer clock 1 1 3;
  deleteTimer t ;;
  handleExpiredTimers clock demo_body 10 ;;
  handleExpiredTimers clock demo_body 10.

Definition fired (l : list happened) : list Z := omap (fun e => match e with Fired t => Some (tok_id t) | _ => None end) l.

Example demo_fires : match demo_run new_timers with
  | Ret (_, s) => fired (log s) = [2; 1; 1; 1; 4] /\ length (min_heap s) = 1%nat | _ => False end.
Proof. vm_compute. split; reflexivity. Qed.

(** ** Abstract timers

    A finite map from tokens to timers, and how each thing that happens changes
    it: only a timer that is due, and none before it, may fire. *)

Definition fire (tok : Token) (e : entry) (m : gmap Token entry) : gmap Token entry :=
  if e_repeat e =? 1 then delete tok m
  else <[tok := mkEntry (e_interval e) (e_expired e + e_interval e)
                  (if e_repeat e =? 0 then 0 else e_repeat e - 1) (e_cb e)]> m.

Inductive spec_step (now : Z) (m : gmap Token entry) : happened -> gmap Token entry -> Prop :=
| spec_added tok e : m !! tok = None -> now < e_expired e -> spec_step now m (Added tok e) (<[tok := e]> m)
| spec_deleted tok : is_Some (m !! tok) -> spec_step now m (Deleted tok) (delete tok m)
| spec_fired tok e : m !! tok = Some e -> e_expired e <= now ->
    (forall tok' e', m !! tok' = Some e' -> e_expired e <= e_expired e') ->
    spec_step now m (Fired tok) (fire tok e m).

Inductive spec_run (now : Z) (m : gmap Token entry) : list happened -> gmap Token entry -> Prop :=
| spec_nil : spec_run now m [] m
| spec_cons h m1 hs m2 : spec_step now m h m1 -> spec_run now m1 hs m2 -> spec_run now m (h :: hs) m2.

Lemma spec_run_app now m hs1 m1 hs2 m2 : spec_run now m hs1 m1 -> spec_run now m1 hs2 m2 -> spec_run now m (hs1 ++ hs2) m2.
Proof. induction 1; [done|]. intros. econstructor; eauto. Qed.

(** How often a timer fires until [now]. *)
Definition firings (now : Z) (e : entry) : nat :=
  if now <? e_expired e then 0%nat else Z.to_nat ((now - e_expired e) / e_interval e + 1).

(** How often all the timers fire until [now]. *)
Definition total (now : Z) (m : gmap Token entry) : nat := map_fold (fun _ e n => (firings now e + n)%nat) 0%nat m.

Lemma total_insert now m tok e : m !! tok = None -> total now (<[tok := e]> m) = (firings now e + total now m)%nat.
Proof. intros H. unfold total. rewrite map_fold_insert_L; [done|intros; lia|done]. Qed.

Lemma total_delete now m tok e : m !! tok = Some e -> total now m = (firings now e + total now (delete tok m))%nat.
Proof. intros H. rewrite <- (total_insert now (delete tok m) tok e) by apply lookup_delete_eq. by rewrite insert_delete_id. Qed.

Lemma total_delete_le now m tok : (total now (delete tok m) <= total now m)%nat.
Proof.
  destruct (m !! tok) as [e|] eqn:E; [rewrite (total_delete now m tok e E); lia|]. by rewrite delete_id.
Qed.

Lemma firings_later now e : now < e_expired e -> firings now e = 0%nat.
Proof. intros H. unfold firings. by rewrite (proj2 (Z.ltb_lt _ _)). Qed.

Lemma firings_due now e : e_expired e <= now -> 1 <= e_interval e ->
  firings now e = Datatypes.S (firings now (mkEntry (e_interval e) (e_expired e + e_interval e) 0 0)).
Proof.
  intros H1 H2. unfold firings. cbn. rewrite (proj2 (Z.ltb_ge _ _)) by done.
  pose proof (Z.div_pos (now - e_expired e) (e_interval e) ltac:(lia) ltac:(lia)).
  destruct (Z.ltb_spec now (e_expired e + e_interval e)) as [Hlt|Hge].
  - rewrite Z.div_small by lia. done.
  - replace (now - (e_expired e + e_interval e)) with (now - e_expired e + (-1) * e_interval e) by lia.
    rewrite Z.div_add by lia. assert (1 <= (now - e_expired e) / e_interval e); [|lia].
    apply Z.div_le_lower_bound; lia.
Qed.

(** Firing uses up one of them. *)
Lemma total_fire now m tok e : m !! tok = Some e -> e_expired e <= now -> 1 <= e_interval e ->
  (total now (fire tok e m) < total now m)%nat.
Proof.
  intros Hm H1 H2. rewrite (total_delete now m tok e Hm), (firings_due now e H1 H2). unfold fire.
  destruct (e_repeat e =? 1); [lia|]. rewrite <- insert_delete_eq, total_insert by (apply lookup_delete_eq).
  unfold firings. cbn. lia.
Qed.

(** At most [n] timers are added, with intervals of at least a millisecond. *)
Fixpoint within (n : nat) (p : prog) : Prop :=
  match p with
  | PDone => True
  | PCall (CallAdd i r _) k =>
      1 <= i < 2 ^ 62 /\ 0 <= r < 2 ^ 64 /\
      match n with O => False | Datatypes.S n' => forall tok, tok_wf tok -> within n' (k tok) end
  | PCall (CallDelete tok) k => tok_wf tok /\ forall tok, tok_wf tok -> within n (k tok)
  end.

Section Correct.
Context {S : Type -> Type} {STORE : TokenStore S} {HEAP : HeapOps}.
Context (time : nat -> Z).
Context (Hmono : forall m n, (m <= n)%nat -> time m <= time n) (Hrange : forall n, 0 <= time n < 2 ^ 62).
Notation timers := (timers (S := S)).
Implicit Types (s : timers) (t : Timer) (p q : nat).

Definition timer_ok t : Prop :=
  1 <= t_interval t < 2 ^ 62 /\ 1 <= t_expired t < 2 ^ 63 /\ 0 <= t_repeat t < 2 ^ 64 /\ tok_wf (t_token t).

Record good s : Prop := {
  g_wf : ts_wf (cab s);
  g_cells : ts_cells (cab s) <= Z.of_nat (next_ptr s);
  g_nodup : NoDup (min_heap s);
  g_heap : is_heap (key s) (min_heap s);
  g_live : forall p, p ∈ min_heap s -> exists t, store s !! p = Some t /\ ts_view (cab s) !! t_token t = Some (Some p) /\ timer_ok t;
  g_view : forall tok o, ts_view (cab s) !! tok = Some o -> exists p t, o = Some p /\ p ∈ min_heap s /\ store s !! p = Some t /\ t_token t = tok;
  g_fresh : forall p, is_Some (store s !! p) -> (p < next_ptr s)%nat;
  g_garbage : forall p, p ∈ garbage s -> (p ∉ min_heap s) /\ (p < next_ptr s)%nat
}.

(** The map that the program's state stands for. *)
Definition abs s : gmap Token entry :=
  omap (fun o => p ← o; t ← store s !! p; Some (entry_of t)) (ts_view (cab s)).

Lemma abs_lookup s tok : good s ->
  match abs s !! tok with
  | Some e => exists p t, ts_view (cab s) !! tok = Some (Some p) /\ p ∈ min_heap s /\ store s !! p = Some t /\ t_token t = tok /\ entry_of t = e
  | None => ts_view (cab s) !! tok = None
  end.
Proof.
  intros Hg. unfold abs. rewrite lookup_omap. destruct (ts_view (cab s) !! tok) as [o|] eqn:E; [|done]. cbn.
  destruct (g_view s Hg tok o E) as (p & t & -> & Hp & Ht & Htok). cbn. rewrite Ht. cbn. by exists p, t.
Qed.

Lemma abs_live s p t : good s -> p ∈ min_heap s -> store s !! p = Some t -> abs s !! t_token t = Some (entry_of t).
Proof.
  intros Hg Hp Ht. destruct (g_live s Hg p Hp) as (t' & Ht' & Hv & _). assert (t' = t) as -> by congruence.
  unfold abs. rewrite lookup_omap, Hv. cbn. by rewrite Ht.
Qed.

(** Two pointers of the heap have different tokens. *)
Lemma token_inj s p q t t' : good s -> p ∈ min_heap s -> q ∈ min_heap s -> store s !! p = Some t -> store s !! q = Some t' ->
  t_token t = t_token t' -> p = q.
Proof.
  intros Hg Hp Hq Ht Ht' E. destruct (g_live s Hg p Hp) as (t1 & H1 & V1 & _), (g_live s Hg q Hq) as (t2 & H2 & V2 & _).
  congruence.
Qed.

Lemma heap_valid s : good s -> forallb (fun p => bool_decide (is_Some (store s !! p))) (min_heap s) = true.
Proof.
  intros Hg. apply forallb_forall. intros p Hp. apply list_elem_of_In in Hp. destruct (g_live s Hg p Hp) as (t & -> & _).
  by apply bool_decide_eq_true.
Qed.

Lemma on_heap_eq f s : (forall p, p ∈ min_heap s -> is_Some (store s !! p)) ->
  on_heap f s = Ret (tt, set_heap (f (key s) (min_heap s)) s).
Proof.
  intros H. unfold on_heap, mbind, M_bind, get. assert (forallb (fun p => bool_decide (is_Some (store s !! p))) (min_heap s) = true) as ->; [|done].
  apply forallb_forall. intros p Hp. by apply bool_decide_eq_true, H, list_elem_of_In.
Qed.

(** *** Removing a timer *)

Lemma good_remove s s' p t : good s -> store s !! p = Some t -> min_heap s ≡ₚ p :: min_heap s' ->
  is_heap (key s') (min_heap s') -> (forall q, q <> p -> store s' !! q = store s !! q) ->
  (is_Some (store s' !! p) -> (p < next_ptr s')%nat) ->
  ts_wf (cab s') -> ts_cells (cab s') = ts_cells (cab s) -> ts_view (cab s') = delete (t_token t) (ts_view (cab s)) ->
  next_ptr s' = next_ptr s -> (forall q, q ∈ garbage s' -> q ∈ garbage s \/ q = p) ->
  good s' /\ abs s' = delete (t_token t) (abs s).
Proof.
  intros Hg Ht Hperm Hheap Hst Hp0 Hwf Hcells Hview Hnext Hgar.
  assert (p ∈ min_heap s) as Hp by (rewrite Hperm; by left).
  pose proof (g_nodup s Hg) as Hnd. rewrite Hperm in Hnd. apply NoDup_cons in Hnd as [Hnp Hnd].
  assert (forall q, q ∈ min_heap s' -> q ∈ min_heap s /\ q <> p) as Hin
    by (intros q Hq; split; [rewrite Hperm; by right|by intros ->]).
  assert (good s') as Hg'.
  { split; [done|rewrite Hcells, Hnext; apply Hg|done|done| | | |].
    - intros q Hq. destruct (Hin q Hq) as [Hq1 Hq2]. destruct (g_live s Hg q Hq1) as (t' & Ht' & Hv & Hok).
      exists t'. rewrite Hst, Hview, lookup_delete_ne by (done || (intros E; apply Hq2; by eapply (token_inj s q p t' t))). done.
    - intros tok o. rewrite Hview, lookup_delete_Some. intros [Hne Ho].
      destruct (g_view s Hg tok o Ho) as (q & t' & -> & Hq & Ht' & Htok). exists q, t'. split; [done|].
      assert (q <> p) by (intros ->; congruence). rewrite Hst by done. split; [|done].
      rewrite Hperm in Hq. by apply elem_of_cons in Hq as [->|Hq].
    - intros q Hq. destruct (Nat.eq_dec q p) as [->|Hne]; [by apply Hp0|]. rewrite Hnext. rewrite Hst in Hq by done. by apply Hg.
    - intros q Hq. rewrite Hnext. destruct (Hgar q Hq) as [Hq'| ->].
      + destruct (g_garbage s Hg q Hq'). split; [|done]. intros Hq2. by destruct (Hin q Hq2).
      + split; [done|]. apply (g_fresh s Hg). by eexists. }
  split; [done|]. apply map_eq. intros tok. rewrite lookup_delete. unfold abs. rewrite !lookup_omap, Hview, lookup_delete.
  case_decide as E; [done|]. destruct (ts_view (cab s) !! tok) as [o|] eqn:Eo; [|done].
  destruct (g_view s Hg tok o Eo) as (q & t' & -> & Hq & Ht' & Htok). cbn. rewrite Hst; [done|]. intros ->. congruence.
Qed.

(** *** Changing a timer in place *)

Lemma good_update s s' p t t' : good s -> p ∈ min_heap s -> store s !! p = Some t -> timer_ok t' -> t_token t' = t_token t ->
  min_heap s' ≡ₚ min_heap s -> is_heap (key s') (min_heap s') -> store s' = <[p := t']> (store s) -> cab s' = cab s ->
  next_ptr s' = next_ptr s -> garbage s' = garbage s ->
  good s' /\ abs s' = <[t_token t := entry_of t']> (abs s).
Proof.
  intros Hg Hp Ht Hok Htok Hperm Hheap Hst Hcab Hnext Hgar.
  assert (forall q, q ∈ min_heap s' <-> q ∈ min_heap s) as Hin by (intros q; by rewrite Hperm).
  assert (good s') as Hg'.
  { split; rewrite ?Hcab, ?Hnext, ?Hgar; [apply Hg|apply Hg|rewrite Hperm; apply Hg|done| | | |].
    - intros q Hq. rewrite Hin in Hq. destruct (g_live s Hg q Hq) as (t1 & Ht1 & Hv & Hok1). rewrite Hst.
      destruct (Nat.eq_dec q p) as [->|Hne]; [|rewrite lookup_insert_ne by done; by exists t1].
      rewrite lookup_insert_eq. exists t'. rewrite Htok. assert (t1 = t) as -> by congruence. done.
    - intros tok o Ho. destruct (g_view s Hg tok o Ho) as (q & t1 & -> & Hq & Ht1 & Hk). rewrite Hst.
      destruct (Nat.eq_dec q p) as [->|Hne].
      + exists p, t'. rewrite lookup_insert_eq, Hin. assert (t1 = t) as -> by congruence. by rewrite Htok.
      + exists q, t1. by rewrite lookup_insert_ne, Hin.
    - intros q. rewrite Hst. intros Hq. apply (g_fresh s Hg). destruct (Nat.eq_dec q p) as [->|Hne]; [by eexists|].
      by rewrite lookup_insert_ne in Hq.
    - intros q Hq. rewrite Hin. by apply (g_garbage s Hg). }
  split; [done|]. apply map_eq. intros tok. rewrite lookup_insert. unfold abs. rewrite !lookup_omap, Hcab.
  destruct (g_live s Hg p Hp) as (t1 & Ht1 & Hv & _). assert (t1 = t) as -> by congruence.
  case_decide as E; [subst tok; rewrite Hv; cbn; by rewrite Hst, lookup_insert_eq|].
  destruct (ts_view (cab s) !! tok) as [o|] eqn:Eo; [|done].
  destruct (g_view s Hg tok o Eo) as (q & t2 & -> & Hq & Ht2 & Hk). cbn. rewrite Hst, lookup_insert_ne; [done|]. intros ->. congruence.
Qed.

(** *** The operations *)

Lemma new_good : good new_timers.
Proof.
  destruct (@ts_empty_ok S STORE nat) as (H1 & H2 & H3). split; cbn; [done|lia|constructor|apply heap_nil| | | |].
  - by intros p ?%elem_of_nil.
  - intros tok o. by rewrite H2, lookup_empty.
  - intros p. rewrite lookup_empty. by intros [].
  - by intros p ?%elem_of_nil.
Qed.

Lemma key_ext s s' v : (forall p, p ∈ v -> store s !! p = store s' !! p) -> is_heap (key s) v -> is_heap (key s') v.
Proof. intros H. apply heap_ext. intros p Hp. unfold key. by rewrite H. Qed.

Definition added_entry s (interval repeat : Z) (cb : nat) : entry :=
  mkEntry interval (time (reads s) + interval) repeat cb.

Lemma addTimer_ok interval repeat cb s : good s -> Z.of_nat (next_ptr s) < 2 ^ 62 ->
  1 <= interval < 2 ^ 62 -> 0 <= repeat < 2 ^ 64 ->
  exists s' tok, addTimer time interval repeat cb s = Ret (tok, s') /\ good s' /\ tok_wf tok /\
    log s' = log s ++ [Added tok (added_entry s interval repeat cb)] /\ reads s' = (reads s + 1)%nat /\
    next_ptr s' = (next_ptr s + 1)%nat /\ abs s !! tok = None /\ abs s' = <[tok := added_entry s interval repeat cb]> (abs s).
Proof.
  intros Hg Hnext Hi Hr. pose proof (g_cells s Hg) as Hcells. pose proof (Hrange (reads s)) as Htime.
  destruct (ts_alloc_ok (cab s) (Some (next_ptr s)) (g_wf s Hg)) as (c & tok & Ea & Hc & Htok & _ & Hnone & Hview & Hce).
  { unfold SIZE_MAX. lia. }
  set (t := mkTimer tok interval (u64 (time (reads s) + interval)) repeat cb). set (p := next_ptr s) in *.
  set (st := <[p := t]> (<[p := mkTimer token_null 0 0 0 cb]> (store s))).
  assert (p ∉ min_heap s) as Hp.
  { intros Hin. destruct (g_live s Hg p Hin) as (t' & Ht' & _). pose proof (g_fresh s Hg p ltac:(by eexists)). unfold p in *. lia. }
  assert (forall q, q <> p -> st !! q = store s !! q) as Hst by (intros q Hq; unfold st; by rewrite !lookup_insert_ne).
  assert (st !! p = Some t) as Hstp by apply lookup_insert_eq.
  set (s1 := mkTimers (min_heap s ++ [p]) st c (p + 1)%nat (reads s + 1)%nat (garbage s) (log s)).
  assert (is_heap (key s1) (min_heap s)) as Hh.
  { apply (key_ext s); [|apply Hg]. intros q Hq. symmetry. apply Hst. intros ->. done. }
  destruct (push_ok (key s1) (min_heap s) p Hh) as [Hh1 Hp1].
  assert (u64 (time (reads s) + interval) = time (reads s) + interval) as Eu by (apply wrap_small; unfold in_range; lia).
  set (s2 := mkTimers (push_heap (key s1) (min_heap s ++ [p])) st c (p + 1)%nat (reads s + 1)%nat (garbage s)
    (log s ++ [Added tok (entry_of t)])).
  assert (addTimer time interval repeat cb s = Ret (tok, s2)) as E.
  { unfold addTimer, now_ms, pool_alloc, cabinet_alloc, set_timer, push_back, note, get, put, modify, the, mbind, M_bind. cbn -[on_heap].
    fold p. rewrite Ea. cbn -[on_heap]. fold t st. fold s1. rewrite on_heap_eq; [done|]. intros q Hq. cbn in Hq.
    apply elem_of_app in Hq as [Hq|Hq%list_elem_of_singleton]; [|subst q; cbn; by rewrite Hstp].
    destruct (g_live s Hg q Hq) as (t' & Ht' & _). cbn. rewrite Hst by (intros ->; done). by eexists. }
  assert (forall q, q ∈ min_heap s2 <-> q ∈ min_heap s \/ q = p) as Hin
    by (intros q; cbn; by rewrite Hp1, elem_of_app, list_elem_of_singleton).
  exists s2, tok. split; [done|].
  assert (added_entry s interval repeat cb = entry_of t) as Ee by (unfold added_entry, entry_of; cbn; by rewrite Eu). rewrite Ee.
  assert (ts_view (cab s) !! tok = None -> abs s !! tok = None) as Habs by (intros H; unfold abs; by rewrite lookup_omap, H).
  split; [|split; [done|split; [done|split; [done|split; [done|split; [by apply Habs|]]]]]].
  - split; [done|cbn; lia| |done| | | |].
    + cbn. rewrite Hp1. apply NoDup_app. split; [apply Hg|]. split; [|apply NoDup_singleton].
      intros q Hq Hq'%list_elem_of_singleton. by subst q.
    + intros q Hq. rewrite Hin in Hq. cbn. rewrite Hview. destruct Hq as [Hq| ->].
      * destruct (g_live s Hg q Hq) as (t' & Ht' & Hv & Hok). exists t'. rewrite Hst by (intros ->; done).
        rewrite lookup_insert_ne by congruence. done.
      * exists t. rewrite Hstp, lookup_insert_eq. split; [done|]. split; [done|]. unfold timer_ok. cbn. rewrite Eu. split; [lia|]. split; [lia|done].
    + intros tok' o. cbn. rewrite Hview, lookup_insert_Some. intros [[<- <-]|[Hne Ho]].
      * exists p, t. split; [done|]. split; [by apply Hin; right|done].
      * destruct (g_view s Hg tok' o Ho) as (q & t' & -> & Hq & Ht' & Hk). exists q, t'. rewrite Hst by (intros ->; done).
        split; [done|]. split; [by apply Hin; left|done].
    + intros q Hq. cbn in *. destruct (Nat.eq_dec q p) as [->|Hne]; [lia|]. rewrite Hst in Hq by done.
      pose proof (g_fresh s Hg q Hq). unfold p. lia.
    + intros q Hq. destruct (g_garbage s Hg q Hq) as [H1 H2]. rewrite Hin. cbn. split; [|unfold p; lia]. intros [?| ->]; [done|unfold p in *; lia].
  - apply map_eq. intros tok'. rewrite lookup_insert. unfold abs. rewrite !lookup_omap. cbn. rewrite Hview, lookup_insert.
    case_decide as Ek; [cbn; by rewrite Hstp|]. destruct (ts_view (cab s) !! tok') as [o|] eqn:Eo; [|done].
    destruct (g_view s Hg tok' o Eo) as (q & t' & -> & Hq & Ht' & Hk). cbn. rewrite Hst; [done|]. intros ->. done.
Qed.

Lemma removelast_snoc {A} (l : list A) x : removelast (l ++ [x]) = l.
Proof. rewrite removelast_app by done. cbn. by rewrite app_nil_r. Qed.

(** The timer whose key has been lowered is at the front of the rebuilt heap. *)
Lemma lowered_front (k : nat -> Z) p v : p ∈ v -> (forall q, q ∈ v -> q <> p -> k p < k q) ->
  exists w, make_heap k v = p :: w /\ p :: w ≡ₚ v.
Proof.
  intros Hp Hlow. destruct (make_ok k v) as [Hh Hperm]. destruct (make_heap k v) as [|q w] eqn:E.
  - rewrite <- Hperm in Hp. by apply elem_of_nil in Hp.
  - destruct (Nat.eq_dec q p) as [->|Hne]; [by exists w|]. exfalso.
    assert (q ∈ v) as Hq by (rewrite <- Hperm; by left). pose proof (Hlow q Hq Hne).
    rewrite <- Hperm in Hp. apply elem_of_cons in Hp as [->|Hp]; [done|]. pose proof (heap_front k q w Hh p Hp). lia.
Qed.

Lemma deleteTimer_ok tok s : good s -> tok_wf tok ->
  exists s', deleteTimer tok s = Ret (tt, s') /\ good s' /\ reads s' = reads s /\ next_ptr s' = next_ptr s /\
    abs s' = delete tok (abs s) /\
    log s' = log s ++ (if bool_decide (is_Some (abs s !! tok)) then [Deleted tok] else []).
Proof.
  intros Hg Htok. destruct (ts_free_ok (cab s) tok (g_wf s Hg) Htok) as (c & Ec & Hc & Hview & Hce).
  pose proof (abs_lookup s tok Hg) as Hl. destruct (abs s !! tok) as [e|] eqn:Ea.
  - destruct Hl as (p & t & Hv & Hp & Ht & Hk & He). rewrite Hv in Ec. cbn in Ec.
    set (t0 := with_expired 0 t). set (s1 := mkTimers (min_heap s) (<[p := t0]> (store s)) c (next_ptr s) (reads s) (garbage s) (log s)).
    destruct (lowered_front (key s1) p (min_heap s) Hp) as (w & Ew & Hperm).
    { intros q Hq Hne. destruct (g_live s Hg q Hq) as (t' & Ht' & _ & Hok). unfold key. cbn.
      rewrite lookup_insert_eq, lookup_insert_ne, Ht' by done. cbn. destruct Hok. lia. }
    destruct (make_ok (key s1) (min_heap s)) as [Hmh _]. rewrite Ew in Hmh.
    destruct (pop_ok (key s1) p w Hmh) as (v & Ev & Hvh & Hvw).
    assert (forall h q, q ∈ h -> h ≡ₚ min_heap s -> is_Some (store s1 !! q)) as Hval.
    { intros h q Hq Hh. rewrite Hh in Hq. cbn. destruct (Nat.eq_dec q p) as [->|]; [rewrite lookup_insert_eq; by eexists|].
      rewrite lookup_insert_ne by done. destruct (g_live s Hg q Hq) as (t' & -> & _). by eexists. }
    set (s2 := mkTimers v (<[p := t0]> (store s)) c (next_ptr s) (reads s) (garbage s ++ [p]) (log s ++ [Deleted tok])).
    assert (deleteTimer tok s = Ret (tt, s2)) as E.
    { unfold deleteTimer, cabinet_free, get_timer, set_timer, pop_back, note, get, put, modify, the, mbind, M_bind. cbn -[on_heap].
      rewrite Ec. cbn -[on_heap]. rewrite Ht. cbn -[on_heap].
      change (set_store _ (set_cab c s)) with s1.
      rewrite on_heap_eq by (intros q Hq; by apply (Hval (min_heap s))). cbn -[on_heap s1]. change (min_heap s1) with (min_heap s). rewrite Ew.
      rewrite on_heap_eq by (intros q Hq; cbn in Hq; by apply (Hval (p :: w))). cbn -[removelast].
      change (key (set_heap (p :: w) s1)) with (key s1). rewrite Ev, removelast_snoc. done. }
    assert (min_heap s ≡ₚ p :: v) as Hpv by (by rewrite Hvw, Hperm).
    destruct (good_remove s s2 p t Hg Ht) as [Hg2 Ha2]; cbn.
    + done.
    + apply (key_ext s1); [done|exact Hvh].
    + intros q Hq. by rewrite lookup_insert_ne.
    + intros _. apply (g_fresh s Hg). by eexists.
    + done.
    + done.
    + by rewrite Hview, Hk.
    + done.
    + intros q Hq. apply elem_of_app in Hq as [Hq|Hq%list_elem_of_singleton]; [by left|by right].
    + exists s2. by rewrite Ha2, Hk.
  - rewrite Hl in Ec. cbn in Ec. exists (set_cab c s). rewrite bool_decide_false by (by intros []).
    split; [|split; [|split; [done|split; [done|split]]]].
    + unfold deleteTimer, cabinet_free, get, put, the, mbind, M_bind. by rewrite Ec.
    + rewrite delete_id in Hview by done. destruct Hg. split; cbn; try done; [lia|..]; by rewrite Hview.
    + rewrite delete_id in Hview by done. rewrite delete_id by done. unfold abs. cbn. by rewrite Hview.
    + by rewrite app_nil_r.
Qed.

Lemma expire_ok p v t s : good s -> min_heap s = p :: v -> store s !! p = Some t -> t_expired t < 2 ^ 62 ->
  exists s', expire p t s = Ret (tt, s') /\ good s' /\ abs s' = fire (t_token t) (entry_of t) (abs s) /\
    reads s' = reads s /\ next_ptr s' = next_ptr s /\ log s' = log s.
Proof.
  intros Hg Eh Ht Hlt. assert (p ∈ min_heap s) as Hp by (rewrite Eh; by left).
  destruct (g_live s Hg p Hp) as (t1 & Ht1 & Hv & Hok). assert (t1 = t) as -> by congruence. clear Ht1.
  pose proof (g_heap s Hg) as Hheap. rewrite Eh in Hheap. destruct (pop_ok (key s) p v Hheap) as (w & Ew & Hwh & Hwv).
  pose proof (g_nodup s Hg) as Hnd. rewrite Eh in Hnd. apply NoDup_cons in Hnd as [Hpv _].
  assert (p ∉ w) as Hpw by (by rewrite Hwv).
  assert (forall q, q ∈ min_heap s -> is_Some (store s !! q)) as Hval
    by (intros q Hq; destruct (g_live s Hg q Hq) as (? & -> & _); by eexists).
  unfold expire. unfold mbind at 1, M_bind at 1. rewrite on_heap_eq, Eh, Ew by done. unfold fire. cbn [entry_of e_repeat].
  destruct (Z.eqb_spec (t_repeat t) 1) as [E1|E1].
  - destruct (ts_free_ok (cab s) (t_token t) (g_wf s Hg)) as (c & Ec & Hc & Hview & Hce); [apply Hok|]. rewrite Hv in Ec. cbn in Ec.
    set (s1 := mkTimers w (delete p (store s)) c (next_ptr s) (reads s) (garbage s) (log s)).
    exists s1. split.
    { unfold pop_back, cabinet_free, pool_free, get, put, modify, the, mbind, M_bind. cbn -[removelast]. rewrite Ec. cbn -[removelast].
      by rewrite removelast_snoc. }
    destruct (good_remove s s1 p t Hg Ht) as [Hg1 Ha1]; try done; cbn.
    + by rewrite Eh, Hwv.
    + apply (key_ext s); [|done]. intros q Hq. cbn. rewrite lookup_delete_ne; [done|]. intros ->. done.
    + intros q Hq. by rewrite lookup_delete_ne.
    + rewrite lookup_delete_eq. by intros [].
    + intros q Hq. by left.
  - set (x := u64 (t_expired t + t_interval t)). assert (x = t_expired t + t_interval t) as Ex.
    { apply wrap_small. destruct Hok as (? & ? & _). unfold in_range. lia. }
    set (n := if t_repeat t =? 0 then 0 else t_repeat t - 1). set (t' := with_repeat n (with_expired x t)).
    set (s0 := mkTimers (w ++ [p]) (<[p := with_expired x t]> (store s)) (cab s) (next_ptr s) (reads s) (garbage s) (log s)).
    assert (is_heap (key s0) w) as Hw0.
    { apply (key_ext s); [|done]. intros q Hq. cbn. rewrite lookup_insert_ne; [done|]. intros ->. done. }
    destruct (push_ok (key s0) w p Hw0) as [Hh1 Hp1].
    set (s1 := mkTimers (push_heap (key s0) (w ++ [p])) (<[p := t']> (store s)) (cab s) (next_ptr s) (reads s) (garbage s) (log s)).
    exists s1. split.
    { unfold set_timer, modify. unfold mbind at 1, M_bind at 1. change (set_store (<[p:=with_expired x t]> _) _) with s0. unfold mbind at 1, M_bind at 1.
      rewrite on_heap_eq.
      2: { intros q Hq. cbn in *. destruct (Nat.eq_dec q p) as [->|]; [rewrite lookup_insert_eq; by eexists|].
           rewrite lookup_insert_ne by done. apply elem_of_app in Hq as [Hq|Hq%list_elem_of_singleton]; [|done]. apply Hval. rewrite Eh, <- Hwv. by right. }
      unfold s1, t', n. destruct (Z.eqb_spec (t_repeat t) 0) as [E0|E0].
      - unfold mret, M_ret, set_heap. cbn. do 3 f_equal. destruct t; cbn in *; by subst.
      - unfold get_timer, get, the, mbind, M_bind. cbn. rewrite lookup_insert_eq. cbn. unfold set_store. cbn. by rewrite insert_insert_eq. }
    destruct (good_update s s1 p t t' Hg Hp Ht) as [Hg1 Ha1]; try done; cbn.
    + destruct Hok as (? & ? & ? & ?). unfold timer_ok, t', n. cbn. rewrite Ex. split; [done|]. split; [lia|]. split; [|done].
      destruct (Z.eqb_spec (t_repeat t) 0); lia.
    + by rewrite Hp1, Eh, Hwv, Permutation_app_comm.
    + revert Hh1. apply heap_ext. intros q _. unfold key. cbn. destruct (Nat.eq_dec q p) as [->|]; [by rewrite !lookup_insert_eq|].
      by rewrite !lookup_insert_ne.
    + split; [done|]. rewrite Ha1. split; [|done]. unfold entry_of. cbn. by rewrite Ex.
Qed.

(** *** Timer events *)

(** An event that is not initialised is not enabled, and an enabled event owns a live
    timer with its interval, mode and callback. *)
Definition te_ok (e : timer_event) s : Prop :=
  (if te_inited e then 1 <= te_interval e < 2 ^ 62 else te_enabled e = false) /\ tok_wf (te_token e) /\
  (te_isEnabled e = true -> exists x r, abs s !! te_token e = Some (mkEntry (te_interval e) x r (te_cb e)) /\ (te_oneshot e = true -> r = 1)).

Lemma te_enable_ok e s : good s -> te_ok e s -> te_inited e = true -> Z.of_nat (next_ptr s) < 2 ^ 62 ->
  exists s' e', te_enable time e s = Ret ((true, e'), s') /\ good s' /\ te_ok e' s' /\ te_isEnabled e' = true.
Proof.
  intros Hg Hok Hin Hn. pose proof Hok as (Hi & Ht & He). rewrite Hin in Hi. unfold te_enable. rewrite Hin. cbn [negb].
  destruct (te_isEnabled e) eqn:Ee; [by exists s, e|]. rewrite (wrap_small 64) by (unfold in_range; lia).
  destruct (addTimer_ok (te_interval e) (if te_oneshot e then 1 else 0) (te_cb e) s Hg Hn Hi) as
    (s' & tok & E & Hg' & Htok & _ & _ & _ & _ & Habs); [destruct (te_oneshot e); lia|].
  exists s', (te_set true tok e). split; [unfold mbind, M_bind; by rewrite E|]. split; [done|].
  assert (te_isEnabled (te_set true tok e) = true) as Een by (unfold te_isEnabled; cbn; by rewrite Hin). split; [|done].
  split; [cbn; by rewrite Hin|]. split; [done|]. intros _. cbn. rewrite Habs, lookup_insert_eq. eexists _, _. split; [done|]. by intros ->.
Qed.

Lemma te_disable_ok e s : good s -> te_ok e s ->
  exists s' e', te_disable e s = Ret ((te_inited e, e'), s') /\ good s' /\ te_ok e' s' /\ te_isEnabled e' = false /\
    (te_isEnabled e = true -> abs s' = delete (te_token e) (abs s)).
Proof.
  intros Hg Hok. pose proof Hok as (Hi & Ht & He). unfold te_disable. destruct (te_inited e) eqn:Hin; cbn [negb].
  2: { exists s, e. assert (te_isEnabled e = false) as E by (unfold te_isEnabled; by rewrite Hin). rewrite E in *.
       split; [done|]. split; [done|]. split; [done|]. done. }
  destruct (te_isEnabled e) eqn:Ee; cbn [negb].
  - destruct (deleteTimer_ok (te_token e) s Hg Ht) as (s' & E & Hg' & _ & _ & Habs & _).
    exists s', (te_set false (te_token e) e). split; [unfold mbind, M_bind; by rewrite E|]. split; [done|].
    assert (te_isEnabled (te_set false (te_token e) e) = false) as Een by (unfold te_isEnabled; cbn; by rewrite Hin).
    split; [|done]. split; [cbn; by rewrite Hin|]. split; [done|]. intros H. congruence.
  - exists s, e. done.
Qed.

Lemma te_initialize_ok interval oneshot e s : good s -> te_ok e s -> 1 <= interval < 2 ^ 62 ->
  exists s' e', te_initialize interval oneshot e s = Ret ((true, e'), s') /\ good s' /\ te_ok e' s' /\
    te_inited e' = true /\ te_isEnabled e' = false.
Proof.
  intros Hg Hok Hi. destruct (te_disable_ok e s Hg Hok) as (s' & e' & E & Hg' & (Hi' & Ht' & _) & Hen & _).
  assert (te_enabled e' = false) as Hen'.
  { unfold te_isEnabled in Hen. by destruct (te_inited e'). }
  exists s', (mkTE true (te_enabled e') (te_token e') interval oneshot (te_cb e')).
  split; [unfold te_initialize, mbind, M_bind; by rewrite E|]. split; [done|].
  split; [|split; [done|unfold te_isEnabled; cbn; by rewrite Hen']]. split; [done|]. split; [done|].
  unfold te_isEnabled. cbn. by rewrite Hen'.
Qed.

(** The time to wait is never negative, but for the -1 of no timers. *)
Lemma getWaitTime_ok has_next s : good s ->
  exists w s', getWaitTime time has_next s = Ret (w, s') /\ good s' /\ abs s' = abs s /\
    (w = -1 \/ 0 <= w).
Proof.
  intros Hg. unfold getWaitTime. destruct has_next; [exists 0, s; split; [done|]; split; [done|]; split; [done|lia]|].
  unfold mbind at 1, M_bind at 1, get at 1. destruct (min_heap s) as [|p v] eqn:Eh; [exists (-1), s; split; [done|]; split; [done|]; split; [done|lia]|].
  destruct (g_live s Hg p) as (t & Ht & _); [rewrite Eh; by left|].
  rewrite (bind_Ret _ _ s t s) by (unfold get_timer, get, the, mbind, M_bind; by rewrite Ht).
  eexists _, (mkTimers (min_heap s) (store s) (cab s) (next_ptr s) (reads s + 1)%nat (garbage s) (log s)).
  split; [reflexivity|]. split; [by destruct Hg|]. split; [done|lia].
Qed.

(** *** Callbacks and the loop *)

Definition extends (now : Z) s s' : Prop :=
  good s' /\ (reads s <= reads s')%nat /\ (total now (abs s') <= total now (abs s))%nat /\
  exists hs, log s' = log s ++ hs /\ spec_run now (abs s) hs (abs s').

Lemma extends_trans now s1 s2 s3 : extends now s1 s2 -> extends now s2 s3 -> extends now s1 s3.
Proof.
  intros (_ & Hr1 & Ht1 & hs1 & E1 & S1) (Hg & Hr2 & Ht2 & hs2 & E2 & S2). split; [done|]. split; [lia|]. split; [lia|].
  exists (hs1 ++ hs2). split; [by rewrite E2, E1, app_assoc|]. by eapply spec_run_app.
Qed.

Lemma spec_one now m h m' : spec_step now m h m' -> spec_run now m [h] m'.
Proof. intros H. econstructor; [exact H|constructor]. Qed.

Lemma add_extends now interval repeat cb s : good s -> Z.of_nat (next_ptr s) < 2 ^ 62 -> 1 <= interval < 2 ^ 62 ->
  0 <= repeat < 2 ^ 64 -> now <= time (reads s) ->
  exists s' tok, addTimer time interval repeat cb s = Ret (tok, s') /\ tok_wf tok /\ extends now s s' /\
    next_ptr s' = (next_ptr s + 1)%nat.
Proof.
  intros Hg Hn Hi Hr Hnow. destruct (addTimer_ok interval repeat cb s Hg Hn Hi Hr) as (s' & tok & E & Hg' & Htok & Hlog & Hreads & Hnext & Hnone & Habs).
  exists s', tok. split; [done|]. split; [done|]. split; [|done]. assert (now < e_expired (added_entry s interval repeat cb)) as Hlt by (cbn; lia).
  split; [done|]. split; [lia|]. split; [rewrite Habs, total_insert, firings_later by done; lia|].
  eexists. split; [exact Hlog|]. rewrite Habs. apply spec_one. by constructor.
Qed.

Lemma delete_extends now tok s : good s -> tok_wf tok ->
  exists s', deleteTimer tok s = Ret (tt, s') /\ extends now s s' /\ next_ptr s' = next_ptr s.
Proof.
  intros Hg Htok. destruct (deleteTimer_ok tok s Hg Htok) as (s' & E & Hg' & Hreads & Hnext & Habs & Hlog).
  exists s'. split; [done|]. split; [|done]. split; [done|]. split; [lia|].
  split; [rewrite Habs; apply total_delete_le|]. eexists. split; [exact Hlog|]. rewrite Habs.
  destruct (abs s !! tok) as [e|] eqn:Ea.
  - rewrite bool_decide_true by (by eexists). apply spec_one. constructor. by eexists.
  - rewrite bool_decide_false by (by intros []). rewrite delete_id by done. constructor.
Qed.

Lemma exec_prog_ok now (p : prog) : forall (n : nat) s, within n p -> good s -> Z.of_nat (next_ptr s + n) < 2 ^ 62 -> now <= time (reads s) ->
  exists s', exec_prog time p s = Ret (tt, s') /\ extends now s s' /\ (next_ptr s' <= next_ptr s + n)%nat.
Proof.
  induction p as [|[i r cb|tok] k IH]; intros n s Hp Hg Hn Hnow.
  - exists s. split; [done|]. split; [|lia]. split; [done|]. split; [lia|]. split; [lia|]. exists []. rewrite app_nil_r. split; [done|constructor].
  - destruct Hp as (Hi & Hr & Hp). destruct n as [|n]; [done|].
    destruct (add_extends now i r cb s Hg ltac:(lia) Hi Hr Hnow) as (s1 & tok & E1 & Htok & Hx1 & Hn1).
    destruct (IH tok n s1) as (s2 & E2 & Hx2 & Hn2); [by apply Hp|apply Hx1|lia| |].
    { destruct Hx1 as (_ & Hr1 & _). pose proof (Hmono _ _ Hr1). lia. }
    exists s2. split; [|split; [by eapply extends_trans|lia]]. cbn [exec_prog exec_call]. unfold mbind, M_bind. by rewrite E1.
  - destruct Hp as (Htok & Hp). destruct (delete_extends now tok s Hg Htok) as (s1 & E1 & Hx1 & Hn1).
    assert (tok_wf token_null) as Hnull by (split; unfold in_range; cbn; lia).
    destruct (IH token_null n s1) as (s2 & E2 & Hx2 & Hn2); [by apply Hp|apply Hx1|lia| |].
    { destruct Hx1 as (_ & Hr1 & _). pose proof (Hmono _ _ Hr1). lia. }
    exists s2. split; [|split; [by eapply extends_trans|lia]]. cbn [exec_prog exec_call]. unfold mbind, M_bind, mret, M_ret. by rewrite E1.
Qed.

(** Nothing is left that is due. *)
Definition none_due (now : Z) (m : gmap Token entry) : Prop := forall tok e, m !! tok = Some e -> now < e_expired e.

Lemma front_least s p v t : good s -> min_heap s = p :: v -> store s !! p = Some t ->
  forall tok e, abs s !! tok = Some e -> t_expired t <= e_expired e.
Proof.
  intros Hg Eh Ht tok e He. pose proof (abs_lookup s tok Hg) as Hl. rewrite He in Hl.
  destruct Hl as (q & t' & _ & Hq & Ht' & _ & <-). pose proof (g_heap s Hg) as Hheap. rewrite Eh in *.
  apply elem_of_cons in Hq as [->|Hq]; [cbn; assert (t' = t) as -> by congruence; lia|].
  pose proof (heap_front (key s) p v Hheap q Hq) as H. unfold key in H. rewrite Ht, Ht' in H. exact H.
Qed.

Lemma note_fired now s s1 tok e : abs s !! tok = Some e -> e_expired e <= now -> 1 <= e_interval e ->
  (forall tok' e', abs s !! tok' = Some e' -> e_expired e <= e_expired e') ->
  good s1 -> abs s1 = fire tok e (abs s) -> reads s1 = reads s -> log s1 = log s ->
  exists s2, note (Fired tok) s1 = Ret (tt, s2) /\ extends now s s2 /\ (total now (abs s2) < total now (abs s))%nat /\
    next_ptr s2 = next_ptr s1.
Proof.
  intros He Hdue Hi Hleast Hg1 Ha1 Hr1 Hl1. eexists. split; [reflexivity|]. unfold extends. cbn.
  assert (forall x, abs (mkTimers (min_heap s1) (store s1) (cab s1) (next_ptr s1) (reads s1) (garbage s1) x) = abs s1) as Ea by done.
  rewrite Ea, Ha1. pose proof (total_fire now (abs s) tok e He Hdue Hi). split; [|done].
  split; [by destruct Hg1|]. split; [lia|]. split; [lia|]. exists [Fired tok]. rewrite Hl1. split; [done|].
  apply spec_one. by constructor.
Qed.

Section Loop.
Context (body : nat -> list happened -> prog) (K : nat) (Hbody : forall cb l, within K (body cb l)).

Lemma handle_loop_ok now fuel : forall s, good s -> now < 2 ^ 62 -> now <= time (reads s) ->
  (total now (abs s) < fuel)%nat -> Z.of_nat (next_ptr s + K * total now (abs s)) < 2 ^ 62 ->
  exists s', handle_loop time body fuel now s = Ret (tt, s') /\ extends now s s' /\ none_due now (abs s').
Proof.
  induction fuel as [|f IH]; intros s Hg Hnow Htime Hf Hn; [lia|].
  assert (extends now s s) as Hrefl
    by (split; [done|]; split; [lia|]; split; [lia|]; exists []; rewrite app_nil_r; split; [done|constructor]).
  cbn [handle_loop]. unfold mbind at 1, M_bind at 1. unfold get at 1. destruct (min_heap s) as [|p v] eqn:Eh.
  { exists s. split; [done|]. split; [done|]. intros tok e He. pose proof (abs_lookup s tok Hg) as Hl. rewrite He, Eh in Hl.
    destruct Hl as (q & _ & _ & Hq & _). by apply elem_of_nil in Hq. }
  assert (p ∈ min_heap s) as Hp by (rewrite Eh; by left). destruct (g_live s Hg p Hp) as (t & Ht & Hv & Hok).
  rewrite (bind_Ret _ _ s t s) by (unfold get_timer, get, the, mbind, M_bind; by rewrite Ht).
  pose proof (front_least s p v t Hg Eh Ht) as Hleast. pose proof (abs_live s p t Hg Hp Ht) as Ha.
  destruct (Z.ltb_spec now (t_expired t)) as [Hlt|Hge].
  { exists s. split; [done|]. split; [done|]. intros tok e He. specialize (Hleast tok e He). lia. }
  destruct (expire_ok p v t s Hg Eh Ht ltac:(lia)) as (s1 & E1 & Hg1 & Ha1 & Hr1 & Hn1 & Hl1).
  destruct (note_fired now s s1 (t_token t) (entry_of t) Ha Hge ltac:(cbn; destruct Hok; lia) Hleast Hg1 Ha1 Hr1 Hl1)
    as (s2 & E2 & Hx2 & Ht2 & Hn2).
  assert (now <= time (reads s2)) as Htime2 by (destruct Hx2 as (_ & Hr & _); pose proof (Hmono _ _ Hr); lia).
  destruct (exec_prog_ok now (body (t_cb t) (log s2)) K s2 (Hbody _ _) ltac:(apply Hx2) ltac:(nia) Htime2) as (s3 & E3 & Hx3 & Hn3).
  destruct (IH s3) as (s4 & E4 & Hx4 & Hd); [apply Hx3|done| | | |].
  { destruct Hx3 as (_ & Hr & _). pose proof (Hmono _ _ Hr). lia. }
  { destruct Hx3 as (_ & _ & Ht3 & _). lia. }
  { destruct Hx3 as (_ & _ & Ht3 & _). nia. }
  exists s4. split; [|split; [|done]].
  - unfold mbind, M_bind. rewrite E1, E2. unfold run_cb, get, mbind, M_bind. rewrite E3. exact E4.
  - eapply extends_trans; [exact Hx2|]. eapply extends_trans; [exact Hx3|exact Hx4].
Qed.

Lemma handle_ok fuel s : good s -> (total (time (reads s)) (abs s) < fuel)%nat ->
  Z.of_nat (next_ptr s + K * total (time (reads s)) (abs s)) < 2 ^ 62 ->
  exists s', handleExpiredTimers time body fuel s = Ret (tt, s') /\
    extends (time (reads s)) s s' /\ none_due (time (reads s)) (abs s').
Proof.
  intros Hg Hf Hn. set (s0 := mkTimers (min_heap s) (store s) (cab s) (next_ptr s) (reads s + 1)%nat (garbage s) (log s)).
  destruct (handle_loop_ok (time (reads s)) fuel s0) as (s' & E & Hx & Hd); [by destruct Hg|apply Hrange| |done|done|].
  { apply Hmono. cbn. lia. }
  exists s'. split; [exact E|]. split; [|done]. destruct Hx as (H1 & H2 & H3 & H4). cbn in H2. split; [done|]. split; [lia|done].
Qed.
End Loop.

Lemma collect_ok s : good s -> exists s', collect s = Ret (tt, s') /\ good s' /\ abs s' = abs s.
Proof.
  intros Hg. assert (forall l p, (forall q, q ∈ l -> q <> p) -> (foldr delete (store s) l : gmap nat Timer) !! p = store s !! p) as Hd.
  { induction l as [|q l IH]; intros p Hp; [done|]. cbn. rewrite lookup_delete_ne by (apply Hp; by left). apply IH.
    intros r Hr. apply Hp. by right. }
  assert (forall l p, is_Some ((foldr delete (store s) l : gmap nat Timer) !! p) -> is_Some (store s !! p)) as Hsome.
  { induction l as [|q l IH]; intros p; [done|]. cbn. destruct (Nat.eq_dec q p) as [->|]; [rewrite lookup_delete_eq; by intros []|].
    rewrite lookup_delete_ne by done. apply IH. }
  assert (forall p, p ∈ min_heap s -> (foldr delete (store s) (garbage s) : gmap nat Timer) !! p = store s !! p) as Hlive.
  { intros p Hp. apply Hd. intros q Hq ->. by destruct (g_garbage s Hg p Hq). }
  eexists. split; [reflexivity|]. split.
  - split; cbn; [apply Hg|apply Hg|apply Hg| | | | |].
    + apply (key_ext s); [|apply Hg]. intros p Hp. by rewrite <- Hlive.
    + intros p Hp. rewrite Hlive by done. by apply Hg.
    + intros tok o Ho. destruct (g_view s Hg tok o Ho) as (p & t & ? & Hp & Ht & ?). exists p, t. by rewrite Hlive.
    + intros p Hp. by apply (g_fresh s Hg), (Hsome (garbage s)).
    + by intros p ?%elem_of_nil.
  - unfold abs. cbn. apply map_eq. intros tok. rewrite !lookup_omap. destruct (ts_view (cab s) !! tok) as [o|] eqn:Eo; [|done].
    destruct (g_view s Hg tok o Eo) as (p & t & -> & Hp & Ht & _). cbn. by rewrite Hlive.
Qed.
End Correct.

Section Claims.
Context {S : Type -> Type} {STORE : TokenStore S} {HEAP : HeapOps}.
Context (time : nat -> Z).

Definition steady : Prop := (forall m n, (m <= n)%nat -> time m <= time n) /\ forall n, 0 <= time n < 2 ^ 62.


(** C17: Expired timers fire in the order of their times, and the handling ends.  In
    every well-formed state, when a callback adds at most [K] timers, with intervals
    of at least a millisecond, [handleExpiredTimers] returns, and what happened is a
    run of the abstract timers: each timer that fired was live (added, not deleted
    since, not used up), was due, and none was due before it.  Afterwards nothing is
    left that is due, and the state is well formed.  The fuel is one more than the
    number of times the timers can fire. *)
Theorem expired_timers_fire body (K fuel : nat) s : steady -> (forall cb l, within K (body cb l)) ->
  good (S := S) s -> (total (time (reads s)) (abs s) < fuel)%nat ->
  Z.of_nat (next_ptr s + K * total (time (reads s)) (abs s)) < 2 ^ 62 ->
  exists s' hs, handleExpiredTimers time body fuel s = Ret (tt, s') /\ log s' = log s ++ hs /\
    spec_run (time (reads s)) (abs s) hs (abs s') /\ none_due (time (reads s)) (abs s') /\ good s'.
Proof.
  intros [Hmono Hrange] Hb Hg Hf Hn. destruct (handle_ok time Hmono Hrange body K Hb fuel s Hg Hf Hn) as (s' & E & Hx & Hd).
  destruct Hx as (Hg' & _ & _ & hs & El & Hs). by exists s', hs.
Qed.

Lemma single_heap (k : nat -> Z) p : is_heap k [p] /\ pop_heap k [p] = [p] /\ push_heap k [p] = [p].
Proof.
  destruct (push_ok k [] p (heap_nil k)) as [H1 H2]. cbn in H1, H2. apply Permutation_singleton_r in H2. rewrite H2 in H1.
  split; [done|]. split; [|done]. destruct (pop_ok k p [] H1) as (w & -> & _ & Hw). by apply Permutation_nil_r in Hw as ->.
Qed.

Lemma spin body fuel now p t s : min_heap s = [p] -> store s !! p = Some t -> t_interval t = 0 -> t_repeat t = 0 ->
  in_range 64 (t_expired t) -> t_expired t <= now -> (forall l, body (t_cb t) l = PDone) ->
  handle_loop (S := S) time body fuel now s = OutOfFuel.
Proof.
  intros Eh Ht Hi Hr Hx Hle Hb. revert s Eh Ht. induction fuel as [|f IH]; intros s Eh Ht; [done|].
  cbn [handle_loop]. unfold mbind at 1, M_bind at 1. unfold get at 1. rewrite Eh.
  rewrite (bind_Ret _ _ s t s) by (unfold get_timer, get, the, mbind, M_bind; by rewrite Ht).
  rewrite (proj2 (Z.ltb_ge _ _)) by done.
  assert (expire p t s = Ret (tt, s)) as E.
  { unfold expire. unfold mbind at 1, M_bind at 1. rewrite on_heap_eq, Eh by (rewrite Eh; intros q ->%list_elem_of_singleton; by eexists).
    destruct (single_heap (key s) p) as (_ & -> & _). rewrite Hr. cbn [Z.eqb].
    unfold set_timer, modify, mbind, M_bind. rewrite Hi, Z.add_0_r, wrap_small by done.
    assert (with_expired (t_expired t) t = t) as -> by (by destruct t). cbn -[on_heap]. rewrite insert_id by done.
    rewrite on_heap_eq by (cbn; intros q ->%list_elem_of_singleton; by eexists). cbn.
    destruct (single_heap (key (set_store (store s) (set_heap [p] s))) p) as (_ & _ & ->).
    unfold set_heap, set_store. cbn. rewrite <- Eh. by destruct s. }
  unfold mbind, M_bind. rewrite E. unfold note, modify, run_cb, get, mbind, M_bind. rewrite Hb. cbn [exec_prog mret M_ret].
  by apply IH.
Qed.

(** A persistent timer with an interval of zero never lets the loop go on.  Even
    if its callback does nothing, [handleExpiredTimers] finds the timer due again
    after every call: no fuel is enough. *)
Theorem zero_interval_spins body cb fuel : steady -> (forall l, body cb l = PDone) ->
  (_ ← addTimer (S := S) time 0 0 cb; handleExpiredTimers time body fuel) new_timers = OutOfFuel.
Proof.
  intros [Hmono Hrange] Hb. pose proof (Hrange 0%nat) as H0. destruct (@ts_empty_ok S STORE nat) as (H1 & H2 & H3).
  destruct (ts_alloc_ok (ts_empty : S nat) (Some 0%nat) H1) as (c & tok & Ea & _); [rewrite H3; done|].
  unfold addTimer, now_ms, pool_alloc, cabinet_alloc, set_timer, push_back, note, get, put, modify, the, mbind, M_bind.
  cbn -[on_heap handle_loop]. rewrite Ea. cbn -[on_heap handle_loop].
  rewrite on_heap_eq by (cbn; intros q ->%list_elem_of_singleton; rewrite lookup_insert_eq; by eexists). cbn -[handle_loop].
  unfold handleExpiredTimers, now_ms, mbind, M_bind. cbn -[handle_loop].
  apply (spin body fuel (time 1) 0%nat (mkTimer tok 0 (u64 (time 0%nat + 0)) 0 cb)); cbn.
  - apply single_heap.
  - by rewrite lookup_insert_eq.
  - done.
  - done.
  - by apply wrap_range.
  - rewrite wrap_small by (unfold in_range; lia). pose proof (Hmono 0%nat 1%nat ltac:(lia)). lia.
  - done.
Qed.
End Claims.

(** ** Concrete inputs *)

Definition slow_clock (n : nat) : Z := Z.min (1000 + 10 * Z.of_nat n) (2 ^ 61).

Lemma slow_clock_steady : steady slow_clock.
Proof. split; intros; unfold slow_clock; lia. Qed.

Lemma demo_body_within cb l : within 1 (demo_body cb l).
Proof. unfold demo_body. destruct (cb =? 1)%nat; [|done]. split; [lia|]. split; [lia|]. by intros tok _. Qed.


(** A timer of 5 ms, added at 1000 and handled at 1010. *)
Definition one_timer : timers (S := cabinet) :=
  match addTimer (S := cabinet) slow_clock 5 1 1 new_timers with Ret (_, s) => s | _ => new_timers end.

Lemma one_timer_good : good one_timer.
Proof.
  destruct (addTimer_ok slow_clock (proj2 slow_clock_steady) 5 1 1 new_timers new_good) as (s' & tok & E & Hg & _);
    [done|lia|lia|]. unfold one_timer. by rewrite E.
Qed.

Lemma expired_timers_fire_witness : exists s' hs,
  handleExpiredTimers slow_clock demo_body 5 one_timer = Ret (tt, s') /\ log s' = log one_timer ++ hs /\ good s'.
Proof.
  destruct (expired_timers_fire slow_clock demo_body 1 5 one_timer slow_clock_steady demo_body_within one_timer_good)
    as (s' & hs & H1 & H2 & _ & _ & H3); [vm_compute; lia|vm_compute; reflexivity|].
  exists s', hs. split; [exact H1|]. split; [exact H2|exact H3].
Defined.

Lemma zero_interval_spins_witness :
  (_ ← addTimer (S := cabinet) slow_clock 0 0 7; handleExpiredTimers slow_clock demo_body 1000) new_timers = OutOfFuel.
Proof. apply (zero_interval_spins slow_clock demo_body 7 1000 slow_clock_steady). reflexivity. Defined.
