(* ===== verification/Monitor.v ===== *)
(** * Timeouts in a ring and the pool of pending requests

    Models [modules/eventx/timeout_monitor.hpp] and [timeout_monitor_impl.hpp],
    and on top of it [modules/eventx/request_pool.hpp].  A monitor is part of the
    state of its client, which may use it again from the callback: the operations
    are over any state with a monitor in it ([HasMonitor]).  The pool keeps its
    contexts in a store with tokens ([TokenStore]).  The ring of [PollItem]s is the
    list of their vectors in the order in which they were linked, and a pointer to
    an item its index; [nullptr] is [None].  The timer is what the class uses of
    [TimerEvent]: it ticks or not. *)
From S2P Require Import Prelude Cabinet.

Record monitor (V : Type) := mkMonitor {
  slots : list (list V);
  curr_item_ : option nat;
  value_number_ : Z;
  cb_ : bool;
  cb_level_ : Z;
  ticking : bool }.
Arguments mkMonitor {V}.
Arguments slots {V}.
Arguments curr_item_ {V}.
Arguments value_number_ {V}.
Arguments cb_ {V}.
Arguments cb_level_ {V}.
Arguments ticking {V}.

Definition new_monitor {V} : monitor V := mkMonitor [] None 0 false 0 false.

(** A state that contains a monitor. *)
Class HasMonitor (W V : Type) := {
  get_mon : W -> monitor V;
  put_mon : monitor V -> W -> W;
  get_put_mon m w : get_mon (put_mon m w) = m;
  put_put_mon m m' w : put_mon m (put_mon m' w) = put_mon m w }.

(** ** Operations *)

Section operations.

Context {W V : Type} {HM : HasMonitor W V}.

(** A change of the monitor; [None] is a null pointer that is followed. *)
Definition change {A} (f : monitor V -> option (A * monitor V)) : M W A :=
  w ← get; p ← the (f (get_mon w)); put (put_mon p.2 w);; mret p.1.

(** [initialize]: the ring is linked anew, the timer is set up, not enabled. *)
Definition ring (check_times : Z) : list (list V) := replicate (Z.to_nat check_times) [].

Definition initialize_ (check_times : Z) (m : monitor V) : option (bool * monitor V) :=
  if check_times <? 1 then Some (false, m)
  else Some (true, mkMonitor (ring check_times) (Some O) (value_number_ m) (cb_ m) (cb_level_ m) false).

Definition setCallback_ (m : monitor V) : option (() * monitor V) :=
  Some ((), mkMonitor (slots m) (curr_item_ m) (value_number_ m) true (cb_level_ m) (ticking m)).

(** [curr_item_->items.push_back(value)] and the rest of [add]. *)
Definition add_ (v : V) (m : monitor V) : option (() * monitor V) :=
  i ← curr_item_ m;
  items ← slots m !! i;
  Some ((), mkMonitor (<[i := items ++ [v]]> (slots m)) (curr_item_ m) (value_number_ m + 1)
         (cb_ m) (cb_level_ m) ((value_number_ m =? 0) || ticking m)).

Definition cleanup_ (m : monitor V) : option (() * monitor V) :=
  match curr_item_ m with
  | None => Some ((), m)
  | Some _ =>
      Some ((), mkMonitor [] None 0 false (cb_level_ m)
             (if 0 <? value_number_ m then false else ticking m))
  end.

(** [curr_item_->next]. *)
Definition next_item (m : monitor V) (i : nat) : nat :=
  if (S i =? length (slots m))%nat then O else S i.

(** The first half of [onTimerTick]: step to the next item, take its values. *)
Definition take_ (m : monitor V) : option (list V * monitor V) :=
  c ← curr_item_ m;
  let i := next_item m c in
  tobe_handle ← slots m !! i;
  let n := value_number_ m - Z.of_nat (length tobe_handle) in
  Some (tobe_handle, mkMonitor (<[i := []]> (slots m)) (Some i) n (cb_ m) (cb_level_ m)
                       (if n =? 0 then false else ticking m)).

Definition level_ (d : Z) (m : monitor V) : option (() * monitor V) :=
  Some ((), mkMonitor (slots m) (curr_item_ m) (value_number_ m) (cb_ m) (cb_level_ m + d) (ticking m)).

Definition initialize (check_times : Z) : M W bool := change (initialize_ check_times).
Definition setCallback : M W () := change setCallback_.
Definition add (v : V) : M W () := change (add_ v).
Definition cleanup : M W () := change cleanup_.

(** [for (auto value : tobe_handle) cb_(value);]: [callback] is what [cb_] does;
    calling it after it has been set to null throws. *)
Fixpoint call_all (callback : V -> M W ()) (l : list V) : M W () :=
  match l with
  | [] => mret ()
  | v :: l' =>
      w ← get;
      if cb_ (get_mon w) then callback v;; call_all callback l' else stuck
  end.

Definition onTimerTick (callback : V -> M W ()) : M W () :=
  tobe_handle ← change take_;
  w ← get;
  when (cb_ (get_mon w))
    (change (level_ 1);; call_all callback tobe_handle;; change (level_ (-1))).

End operations.

(** ** The ring as a queue of deadlines *)

Section ring.

Context {V : Type}.
Implicit Types m : monitor V.

(** The items in the order in which the ticks reach them. *)
Definition coming m : list (list V) :=
  match curr_item_ m with
  | Some i => drop (S i) (slots m) ++ take (S i) (slots m)
  | None => []
  end.

(** The values with the number of ticks until they are handled. *)
Definition due_from (d : nat) (l : list (list V)) : list (V * nat) :=
  concat (imap (fun k items => map (fun v => (v, d + k)%nat) items) l).

Definition due m : list (V * nat) := due_from 1 (coming m).

(** A monitor between calls that has been initialized with [n] check times. *)
Record ring_ok (n : nat) m : Prop := {
  ro_len : length (slots m) = n;
  ro_curr : exists i, curr_item_ m = Some i /\ (i < n)%nat;
  ro_number : value_number_ m = Z.of_nat (length (due m));
  ro_ticking : ticking m = negb (value_number_ m =? 0) }.

Lemma due_from_cons d items l :
  due_from d (items :: l) = map (fun v => (v, d)) items ++ due_from (S d) l.
Proof.
  unfold due_from. cbn. f_equal.
  - apply map_ext. intros v. f_equal. lia.
  - f_equal. apply imap_ext. intros. apply map_ext. intros v. cbn. f_equal. lia.
Qed.

Lemma due_from_app d l1 l2 : due_from d (l1 ++ l2) = due_from d l1 ++ due_from (d + length l1) l2.
Proof.
  revert d. induction l1 as [|items l1 IH]; intros d; cbn [app length].
  - by rewrite Nat.add_0_r.
  - rewrite !due_from_cons, IH, app_assoc. do 2 f_equal. lia.
Qed.

Lemma due_from_nil d n : due_from d (replicate n []) = [].
Proof. revert d. induction n as [|n IH]; intros d; [done|]. cbn [replicate]. by rewrite due_from_cons, IH. Qed.

Lemma due_from_shift d l : due_from (S d) l = map (prod_map id S) (due_from d l).
Proof.
  revert d. induction l as [|items l IH]; intros d; [done|].
  rewrite !due_from_cons, map_app, IH. f_equal. by rewrite map_map.
Qed.

Lemma ring_initialize_ok n m : 0 < n -> value_number_ m = 0 ->
  exists m', initialize_ n m = Some (true, m') /\ ring_ok (Z.to_nat n) m' /\ due m' = [] /\
    cb_ m' = cb_ m /\ cb_level_ m' = cb_level_ m.
Proof.
  intros Hn Hv. unfold initialize_. rewrite (proj2 (Z.ltb_ge _ _)) by lia.
  eexists. split; [reflexivity|].
  assert (due (mkMonitor (ring n) (Some O) (value_number_ m) (cb_ m) (cb_level_ m) false) = [] :> list (V * nat)) as Hd.
  { unfold due, coming, ring. cbn [curr_item_ slots].
    rewrite drop_replicate, take_replicate, <- replicate_add. apply due_from_nil. }
  split; [|done]. split; cbn [slots curr_item_ value_number_ ticking].
  - apply length_replicate.
  - exists O. split; [done|lia].
  - by rewrite Hd, Hv.
  - by rewrite Hv.
Qed.

Lemma add_ok n v m : ring_ok n m ->
  exists m', add_ v m = Some ((), m') /\ ring_ok n m' /\ due m' = due m ++ [(v, n)] /\
    cb_ m' = cb_ m /\ cb_level_ m' = cb_level_ m.
Proof.
  intros [Hl (i & Hi & Hlt) Hv Ht]. unfold add_. rewrite Hi. cbn.
  destruct (lookup_lt_is_Some_2 (slots m) i) as [items Es]; [lia|]. rewrite Es. cbn.
  eexists. split; [reflexivity|].
  match goal with |- ring_ok _ ?x /\ _ => set (m' := x) end.
  assert (due m' = due m ++ [(v, n)]) as Hd.
  { unfold due, coming, m'. cbn [curr_item_ slots]. rewrite Hi.
    rewrite drop_insert_lt by lia. rewrite !(take_S_r _ _ _ Es).
    assert (take (S i) (<[i:=items ++ [v]]> (slots m)) = take i (slots m) ++ [items ++ [v]]) as ->.
    { erewrite take_S_r by (apply list_lookup_insert_eq; lia). by rewrite take_insert_ge by lia. }
    rewrite !due_from_app, !due_from_cons, map_app, <- !app_assoc. do 3 f_equal.
    rewrite length_drop, length_take. cbn. do 2 f_equal. lia. }
  split; [|done]. split; cbn [slots curr_item_ value_number_ ticking m'].
  - by rewrite length_insert.
  - eauto.
  - rewrite Hd, length_app, Hv. cbn. lia.
  - rewrite Ht, Hv. by destruct (length (due m)).
Qed.

(** A tick hands out the values whose time has come and brings the others one
    tick nearer. *)
Lemma take_ok n m : ring_ok n m ->
  exists l m', take_ m = Some (l, m') /\ ring_ok n m' /\
    due m = map (fun v => (v, 1%nat)) l ++ map (prod_map id S) (due m') /\
    cb_ m' = cb_ m /\ cb_level_ m' = cb_level_ m.
Proof.
  intros [Hl (i & Hi & Hlt) Hv Ht]. unfold take_. rewrite Hi. cbn.
  set (j := next_item m i).
  assert (j < n)%nat as Hj by (unfold j, next_item; case_match eqn:E; rewrite ?Nat.eqb_neq in E; lia).
  destruct (lookup_lt_is_Some_2 (slots m) j) as [items Es]; [lia|]. rewrite Es. cbn.
  exists items. eexists. split; [reflexivity|].
  match goal with |- ring_ok _ ?x /\ _ => set (m' := x) end.
  assert (exists rest, coming m = items :: rest /\ coming m' = rest ++ [[]]) as (rest & E1 & E2).
  { unfold coming, m'. cbn [curr_item_ slots]. rewrite Hi.
    assert (take (S j) (<[j:=[]]> (slots m)) = take j (slots m) ++ [[]]) as ->.
    { erewrite take_S_r by (apply list_lookup_insert_eq; lia). by rewrite take_insert_ge by lia. }
    rewrite drop_insert_lt by lia. unfold j, next_item in *.
    destruct (Nat.eqb_spec (S i) (length (slots m))) as [E|E].
    - exists (drop 1 (slots m)). rewrite (drop_ge _ (S i)), take_ge by lia.
      destruct (slots m) as [|x r]; [done|]. injection Es as <-. done.
    - exists (drop (S (S i)) (slots m) ++ take (S i) (slots m)).
      rewrite (drop_S _ _ _ Es). split; [done|]. by rewrite app_assoc. }
  assert (due m = map (fun v => (v, 1%nat)) items ++ map (prod_map id S) (due m')) as Hd.
  { unfold due. rewrite E1, E2, due_from_cons, (due_from_shift 1 rest), due_from_app. f_equal.
    rewrite due_from_cons. cbn. by rewrite app_nil_r. }
  assert (length (due m) = length items + length (due m'))%nat as Hlen
    by (rewrite Hd, length_app, !length_map; done).
  split; [|done]. split; cbn [slots curr_item_ value_number_ ticking m'].
  - by rewrite length_insert.
  - eauto.
  - rewrite Hv, Hlen. fold m'. lia.
  - rewrite Ht, Hv, Hlen. destruct (Z.eqb_spec (Z.of_nat (length items + length (due m')) - Z.of_nat (length items)) 0);
      [done|]. destruct (Z.eqb_spec (Z.of_nat (length items + length (due m'))) 0); [lia|done].
Qed.

Lemma cleanup_ok m : exists m', cleanup_ m = Some ((), m') /\ curr_item_ m' = None.
Proof.
  unfold cleanup_. destruct (curr_item_ m) as [i|] eqn:E; [by eexists|]. by exists m.
Qed.

End ring.

(** ** Values in time

    The history of a monitor: values are added, the timer ticks, values are handed
    to the callback. *)

Inductive tevent (V : Type) := Added (v : V) | Ticked | Fired (v : V).
Arguments Added {V}.
Arguments Ticked {V}.
Arguments Fired {V}.

Section tracking.

Context {V : Type} {ED : EqDecision V}.
Implicit Types (m : monitor V) (h : list (tevent V)).

(** The ticks since the value was added. *)
Definition age_step (v : V) (k : nat) (e : tevent V) : nat :=
  match e with
  | Added v' => if decide (v = v') then O else k
  | Ticked => S k
  | Fired _ => k
  end.

Definition age (v : V) h : nat := foldl (age_step v) O h.
Definition added (v : V) h : Prop := Added v ∈ h.
Definition fired (v : V) h : Prop := Fired v ∈ h.

(** A value fires [n] ticks after it was added, and only once. *)
Definition timely (n : nat) (v : V) h : Prop := added v h /\ age v h = n /\ ~ fired v h.

(** The state of a monitor after a history; [l] are the values of a tick that are
    still to be handled. *)
Record tracks (n : nat) (l : list V) m h : Prop := {
  tr_ring : ring_ok n m;
  tr_cb : cb_ m = true;
  tr_due v d : (v, d) ∈ due m -> added v h /\ (age v h + d = n)%nat;
  tr_left v : v ∈ l -> added v h /\ age v h = n;
  tr_once : NoDup (l ++ map fst (due m));
  tr_added v : added v h -> v ∈ map fst (due m) \/ v ∈ l \/ fired v h;
  tr_fired v : fired v h -> added v h /\ v ∉ l ++ map fst (due m) }.

Section snoc.
Context (h : list (tevent V)) (e : tevent V).
Lemma age_snoc v : age v (h ++ [e]) = age_step v (age v h) e.
Proof. unfold age. by rewrite foldl_app. Qed.
Lemma added_snoc v : added v (h ++ [e]) <-> added v h \/ e = Added v.
Proof. unfold added. rewrite elem_of_app, list_elem_of_singleton. naive_solver. Qed.
Lemma fired_snoc v : fired v (h ++ [e]) <-> fired v h \/ e = Fired v.
Proof. unfold fired. rewrite elem_of_app, list_elem_of_singleton. naive_solver. Qed.
End snoc.

Lemma due_from_ge d (L : list (list V)) v k : (v, k) ∈ due_from d L -> (d <= k)%nat.
Proof.
  revert d. induction L as [|items L IH]; intros d; [by intros ?%not_elem_of_nil|].
  rewrite due_from_cons, elem_of_app, list_elem_of_fmap. intros [(? & ? & _)|H%IH]; [by simplify_eq|lia].
Qed.

Lemma in_due v m : v ∈ map fst (due m) <-> exists d, (v, d) ∈ due m.
Proof. rewrite list_elem_of_fmap. split; [intros ([? d] & -> & ?); eauto|intros (d & ?); by exists (v, d)]. Qed.

Lemma tracks_start n m : 0 < n -> value_number_ m = 0 -> cb_ m = true -> exists m',
  initialize_ n m = Some (true, m') /\ tracks (Z.to_nat n) [] m' [].
Proof.
  intros Hn Hv Hcb. destruct (ring_initialize_ok n m Hn Hv) as (m' & E & Hr & Hd & Hcb' & _).
  exists m'. split; [done|]. split; [done|congruence|..]; rewrite ?Hd; cbn; try by intros ? ?%not_elem_of_nil.
  - by intros v d ?%not_elem_of_nil.
  - constructor.
Qed.

Lemma tracks_add n l m h v : tracks n l m h -> ~ added v h -> exists m',
  add_ v m = Some ((), m') /\ tracks n l m' (h ++ [Added v]).
Proof.
  intros [] Hnew. destruct (add_ok n v m tr_ring0) as (m' & Em & Hr & Hd & Hcb & _).
  exists m'. split; [done|].
  assert (forall v', added v' h -> age v' (h ++ [Added v]) = age v' h) as Ea.
  { intros v' H. rewrite age_snoc. cbn. rewrite decide_False; [done|]. by intros ->. }
  split; [done|congruence|..]; rewrite ?Hd, ?map_app; cbn [map fst]; try setoid_rewrite added_snoc; try setoid_rewrite fired_snoc.
  - intros v' d. rewrite elem_of_app, list_elem_of_singleton. intros [[H1 H2]%tr_due0|[= -> ->]].
    + rewrite Ea by done. auto.
    + split; [by right|]. rewrite age_snoc. cbn. by rewrite decide_True.
  - intros v' [H1 H2]%tr_left0. rewrite Ea by done. auto.
  - rewrite app_assoc. apply NoDup_app. split_and!; [done| |apply NoDup_singleton].
    intros v' H. rewrite list_elem_of_singleton. intros ->. apply Hnew.
    apply elem_of_app in H as [H|[d H]%in_due]; [by apply tr_left0|by apply (tr_due0 v d)].
  - intros v'. rewrite elem_of_app, list_elem_of_singleton. intros [H%tr_added0|[= ->]]; naive_solver.
  - intros v' [[H1 H2]%tr_fired0|H]; [|done]. split; [by left|].
    rewrite app_assoc, elem_of_app, list_elem_of_singleton. intros [H| ->]; by auto.
Qed.

Lemma tracks_fire n v l m h : tracks n (v :: l) m h -> timely n v h /\ tracks n l m (h ++ [Fired v]).
Proof.
  intros []. destruct (tr_left0 v) as [H1 H2]; [by left|].
  assert (~ fired v h) as H3 by (intros [_ H]%tr_fired0; apply H; by left).
  split; [done|]. cbn in tr_once0. apply NoDup_cons in tr_once0 as [Hnot Hnodup].
  assert (forall v', age v' (h ++ [Fired v]) = age v' h) as Ea by (intros v'; by rewrite age_snoc).
  split; auto; try setoid_rewrite added_snoc; try setoid_rewrite fired_snoc; try setoid_rewrite Ea.
  - intros v' d H. destruct (tr_due0 v' d H). auto.
  - intros v' H. destruct (tr_left0 v'); [by right|auto].
  - intros v' [H|?]; [|done]. destruct (tr_added0 v' H) as [H4|[[->|H4]%elem_of_cons|H4]]; auto.
  - intros v' [[H4 H5]%tr_fired0|[= <-]]; [|auto]. split; [by left|].
    intros H. apply H5. cbn. by right.
Qed.

Lemma tracks_tick n m h : (1 <= n)%nat -> tracks n [] m h -> exists l m',
  take_ m = Some (l, m') /\ tracks n l m' (h ++ [Ticked]).
Proof.
  intros Hn []. destruct (take_ok n m tr_ring0) as (l & m' & Em & Hr & Hd & Hcb & _).
  exists l, m'. split; [done|].
  assert (map fst (due m) = l ++ map fst (due m')) as Hf.
  { rewrite Hd, map_app, !map_map. cbn. by rewrite map_id. }
  assert (forall v, age v (h ++ [Ticked]) = S (age v h)) as Ea by (intros v; by rewrite age_snoc).
  split; [done|congruence|..]; try setoid_rewrite added_snoc; try setoid_rewrite fired_snoc; try setoid_rewrite Ea.
  - intros v d H. destruct (tr_due0 v (S d)) as [H1 H2]; [|split; [by left|lia]].
    rewrite Hd. apply elem_of_app. right. apply list_elem_of_fmap. by exists (v, d).
  - intros v H. destruct (tr_due0 v 1%nat) as [H1 H2]; [|split; [by left|lia]].
    rewrite Hd. apply elem_of_app. left. apply list_elem_of_fmap. by exists v.
  - by rewrite <- Hf.
  - intros v [H|?]; [|done]. apply tr_added0 in H as H2. rewrite Hf, elem_of_app in H2.
    destruct H2 as [[H2|H2]|[?%not_elem_of_nil|H2]]; [auto..|done|auto].
  - intros v [H|?]; [|done]. rewrite <- Hf. apply tr_fired0 in H as [H1 H2]. auto.
Qed.

(** The level of the callbacks plays no part. *)
Lemma tracks_level n l m h d : tracks n l m h -> exists m', level_ d m = Some ((), m') /\ tracks n l m' h.
Proof. intros []. eexists. split; [done|]. split; auto. by destruct tr_ring0. Qed.

(** Between the ticks every value that has not fired is younger than [n], and the
    timer ticks. *)
Lemma tracks_rest n m h v : tracks n [] m h -> added v h ->
  fired v h \/ (age v h < n)%nat /\ ticking m = true.
Proof.
  intros [] [[d H]%in_due|[H%not_elem_of_nil|H]]%tr_added0; [right|done|by left].
  pose proof (tr_due0 v d H) as [_ Hd]. pose proof (due_from_ge _ _ _ _ H). split; [lia|].
  destruct tr_ring0 as [_ _ Hv ->]. rewrite Hv. destruct (due m); [by apply not_elem_of_nil in H|done].
Qed.

End tracking.

(** A tick with an invariant of the client. *)
Section tick.

Context {W V : Type} {HM : HasMonitor W V} (I : list V -> W -> Prop) (callback : V -> M W ()).
Hypothesis I_cb : forall l w, I l w -> cb_ (get_mon w) = true.
Hypothesis I_level : forall l w d, I l w -> exists m, level_ d (get_mon w) = Some ((), m) /\ I l (put_mon m w).
Hypothesis I_callback : forall v l w, I (v :: l) w -> exists w', callback v w = Ret ((), w') /\ I l w'.

Lemma call_all_ok l w : I l w -> exists w', call_all callback l w = Ret ((), w') /\ I [] w'.
Proof using I_cb I_callback.
  revert w. induction l as [|v l IH]; intros w Hi; [by exists w|].
  destruct (I_callback v l w Hi) as (w1 & E1 & Hi1). destruct (IH w1 Hi1) as (w2 & E2 & Hi2).
  exists w2. split; [|done]. cbn. unfold get, mbind, M_bind. cbn. by rewrite (I_cb _ _ Hi), E1.
Qed.

Lemma onTimerTick_ok w l m : take_ (get_mon w) = Some (l, m) -> I l (put_mon m w) ->
  exists w', onTimerTick callback w = Ret ((), w') /\ I [] w'.
Proof using I_cb I_level I_callback.
  intros Em Hi. destruct (I_level _ _ 1 Hi) as (m2 & E2 & Hi2).
  destruct (call_all_ok _ _ Hi2) as (w3 & E3 & Hi3). destruct (I_level _ _ (-1) Hi3) as (m4 & E4 & Hi4).
  pose proof (I_cb _ _ Hi) as Hcb.
  eexists. split; [|exact Hi4]. unfold onTimerTick, change, get, put, the, mbind, M_bind. cbn -[level_].
  rewrite Em. cbn -[level_]. rewrite Hcb. cbn -[level_]. rewrite E2. cbn -[level_]. rewrite E3. cbn -[level_]. by rewrite E4.
Qed.

End tick.

(** ** The request pool *)

(** What happens at the pool, in order.  [New], [Update] and [Remove] are calls of
    the user with their results; [Tick] is the timer; [Expire] is the monitor's
    callback with what the cabinet held, [Action] and [Delete] what it does with a
    context. *)
Inductive pevent :=
  | New (t : Token) (p : option nat)
  | Update (t : Token) (p : option nat) (b : bool)
  | Remove (t : Token) (o : option nat)
  | Tick
  | Expire (t : Token) (o : option nat)
  | Action (p : nat)
  | Delete (t : Token) (p : nat)
  | Cleared (l : list (option nat)).

(** The calls of a user; a context is a number, [None] is [nullptr]. *)
Inductive call :=
  | CNew (p : option nat)
  | CUpdate (t : Token) (p : option nat)
  | CRemove (t : Token)
  | CCleanup.

(** [RequestPool]: the cabinet, the monitor, and the history. *)
Record pool (C : Type -> Type) := mkPool {
  req_ctx_cabinet_ : C nat;
  timeout_monitor_ : monitor Token;
  log : list pevent }.
Arguments mkPool {C}.
Arguments req_ctx_cabinet_ {C}.
Arguments timeout_monitor_ {C}.
Arguments log {C}.

#[global, refine] Instance pool_monitor (C : Type -> Type) : HasMonitor (pool C) Token := {|
  get_mon := timeout_monitor_;
  put_mon m w := mkPool (req_ctx_cabinet_ w) m (log w) |}.
Proof. all: done. Defined.

Section pool.

Context {C : Type -> Type} {STORE : TokenStore C}.

Definition MP := M (pool C).

Definition new_pool : pool C := mkPool ts_empty new_monitor [].

Definition set_cabinet (c : C nat) : MP () :=
  modify (fun w => mkPool c (timeout_monitor_ w) (log w)).
Definition note (e : pevent) : MP () :=
  modify (fun w => mkPool (req_ctx_cabinet_ w) (timeout_monitor_ w) (log w ++ [e])).

Definition newRequest (req_ctx : option nat) : MP Token :=
  w ← get;
  '(c, token) ← the (ts_alloc (req_ctx_cabinet_ w) req_ctx);
  set_cabinet c;;
  add token;;
  note (New token req_ctx);;
  mret token.

Definition updateRequest (token : Token) (req_ctx : option nat) : MP bool :=
  w ← get;
  '(c, b) ← the (ts_update (req_ctx_cabinet_ w) token req_ctx);
  set_cabinet c;;
  note (Update token req_ctx b);;
  mret b.

(** [req_ctx_cabinet_.free(token)]. *)
Definition free_request (token : Token) : MP (option nat) :=
  w ← get;
  '(c, o) ← the (ts_free (req_ctx_cabinet_ w) token);
  set_cabinet c;;
  mret o.

Definition removeRequest (token : Token) : MP (option nat) :=
  o ← free_request token;
  note (Remove token o);;
  mret o.

(** [foreach] deletes the contexts. *)
Definition pool_cleanup : MP () :=
  cleanup;;
  w ← get;
  l ← the (ts_objects (req_ctx_cabinet_ w));
  set_cabinet (ts_clear (req_ctx_cabinet_ w));;
  note (Cleared l).

Definition pool_initialize (check_times : Z) : MP bool := initialize check_times.

Definition do_call (c : call) : MP () :=
  match c with
  | CNew p => newRequest p;; mret ()
  | CUpdate t p => updateRequest t p;; mret ()
  | CRemove t => removeRequest t;; mret ()
  | CCleanup => pool_cleanup
  end.

Fixpoint do_calls (l : list call) : MP () :=
  match l with [] => mret () | c :: l' => do_call c;; do_calls l' end.

(** The action of the user, if there is one, makes calls that may depend on all
    that happened before. *)
Context (action : option (list pevent -> nat -> list call)).

Definition setTimeoutAction : MP () := setCallback.

(** The lambda of [setTimeoutAction]. *)
Definition on_timeout (token : Token) : MP () :=
  req_ctx ← free_request token;
  note (Expire token req_ctx);;
  match req_ctx with
  | None => mret ()
  | Some p =>
      match action with
      | Some a => note (Action p);; w ← get; do_calls (a (log w) p)
      | None => mret ()
      end;;
      note (Delete token p)
  end.

Definition tick : MP () := note Tick;; onTimerTick on_timeout.

Inductive pool_op := Call (c : call) | TimerTick.

Definition pool_exec (o : pool_op) : MP () :=
  match o with Call c => do_call c | TimerTick => tick end.

Fixpoint pool_run (l : list pool_op) : MP () :=
  match l with [] => mret () | o :: l' => pool_exec o;; pool_run l' end.

(** *** Reading the history *)

(** What the request [t] holds after the events. *)
Definition holds_step (t : Token) (c : option (option nat)) (e : pevent) : option (option nat) :=
  match e with
  | New t' p => if decide (t = t') then Some p else c
  | Update t' p b => if decide (t = t') then (if b then Some p else c) else c
  | Remove t' _ | Expire t' _ => if decide (t = t') then None else c
  | Cleared _ => None
  | Tick | Action _ | Delete _ _ => c
  end.

Definition holds (t : Token) (l : list pevent) : option (option nat) := foldl (holds_step t) None l.

(** What the monitor sees. *)
Definition timed (e : pevent) : option (tevent Token) :=
  match e with
  | New t _ => Some (Added t)
  | Tick => Some Ticked
  | Expire t _ => Some (Fired t)
  | _ => None
  end.

Definition times (l : list pevent) : list (tevent Token) := omap timed l.

Definition is_new (e : pevent) : bool := match e with New _ _ => true | _ => false end.
Definition news (l : list pevent) : Z := Z.of_nat (length (filter (fun e => is_new e = true) l)).

(** An event is as the events before it demand: tokens are new; a call finds what
    the request holds; a request expires at its [n]th tick and not again; the action
    gets what the request held, which is then deleted, once. *)
Definition event_ok (n : nat) (before : list pevent) (e : pevent) : Prop :=
  match e with
  | New t _ => ~ added t (times before)
  | Update t _ b => b = bool_decide (is_Some (holds t before))
  | Remove t o => o = mjoin (holds t before)
  | Expire t o => o = mjoin (holds t before) /\ timely n t (times before)
  | Action p => exists t, last before = Some (Expire t (Some p))
  | Delete t p => Expire t (Some p) ∈ before /\ forall p', Delete t p' ∉ before
  | Tick | Cleared _ => True
  end.

Definition explained (n : nat) (l : list pevent) : Prop :=
  forall before e after, l = before ++ e :: after -> event_ok n before e.

(** When a request expires that holds a context, the action is called with it at once, if
    there is one, and the context is deleted later. *)
Definition settled (l : list pevent) : Prop :=
  forall i t p, l !! i = Some (Expire t (Some p)) ->
    (is_Some action -> l !! S i = Some (Action p)) /\ exists j, (i < j)%nat /\ l !! j = Some (Delete t p).

(** *** Legal calls

    Tokens are 64-bit words, [cleanup] is not called, and less than 2^64 requests
    are made in all. *)
Definition call_legal (c : call) : Prop :=
  match c with CNew _ => True | CUpdate t _ | CRemove t => tok_wf t | CCleanup => False end.

Definition call_news (c : call) : Z := match c with CNew _ => 1 | _ => 0 end.
Definition calls_news (l : list call) : Z := foldr (fun c k => call_news c + k) 0 l.

Definition calls_legal (before : list pevent) (l : list call) : Prop :=
  Forall call_legal l /\ (calls_news l = 0 \/ news before + calls_news l <= SIZE_MAX).

Definition action_legal : Prop :=
  forall a, action = Some a -> forall before p, calls_legal before (a before p).

(** The calls between the ticks are legal when they are made. *)
Fixpoint ops_legal (l : list pool_op) (w : pool C) : Prop :=
  match l with
  | [] => True
  | o :: l' =>
      (if o is Call c then calls_legal (log w) [c] else True) /\
      forall w', pool_exec o w = Ret ((), w') -> ops_legal l' w'
  end.

(** *** The invariant *)

Section one_event.
Context (lg : list pevent) (e : pevent).
Lemma holds_snoc t : holds t (lg ++ [e]) = holds_step t (holds t lg) e.
Proof. unfold holds. by rewrite foldl_app. Qed.
Lemma times_snoc : times (lg ++ [e]) = times lg ++ option_list (timed e).
Proof. unfold times. rewrite omap_app. cbn. by destruct (timed e). Qed.
Lemma news_snoc : news (lg ++ [e]) = news lg + (if is_new e then 1 else 0).
Proof.
  unfold news. rewrite filter_app, length_app, filter_cons, filter_nil.
  case_decide as E; [rewrite E|destruct (is_new e); [done|]]; cbn; lia.
Qed.
Lemma explained_snoc n : explained n lg -> event_ok n lg e -> explained n (lg ++ [e]).
Proof.
  intros H He before x after E. destruct after as [|y after _] using rev_ind.
  - apply app_inj_tail in E as [-> ->]. done.
  - rewrite app_comm_cons, app_assoc in E. apply app_inj_tail in E as [-> ->]. by apply (H _ _ after).
Qed.
End one_event.

Lemma fired_expire t lg : fired t (times lg) <-> exists o, Expire t o ∈ lg.
Proof.
  unfold fired, times. rewrite list_elem_of_omap. split.
  - intros ([] & H & [=]); subst. eauto.
  - intros [o H]. by exists (Expire t o).
Qed.

(** Between two calls of the monitor's callback; [l] are the tokens of the tick
    that are still to be handled. *)
Record inv (n : nat) (l : list Token) (w : pool C) : Prop := {
  i_wf : ts_wf (req_ctx_cabinet_ w);
  i_cells : ts_cells (req_ctx_cabinet_ w) <= news (log w);
  i_last : ts_last (req_ctx_cabinet_ w) = news (log w);
  i_view t : ts_view (req_ctx_cabinet_ w) !! t = holds t (log w);
  i_tracks : tracks n l (timeout_monitor_ w) (times (log w));
  i_made t : added t (times (log w)) -> tok_wf t /\ tok_id t <= news (log w);
  i_held t : is_Some (holds t (log w)) -> added t (times (log w));
  i_gone t : fired t (times (log w)) -> holds t (log w) = None;
  i_explained : explained n (log w) }.

(** An event that the monitor does not see. *)
Lemma inv_untimed n l w c e : inv n l w -> timed e = None -> is_new e = false -> event_ok n (log w) e ->
  ts_wf c -> ts_cells c = ts_cells (req_ctx_cabinet_ w) -> ts_last c = ts_last (req_ctx_cabinet_ w) ->
  (forall t, ts_view c !! t = holds_step t (holds t (log w)) e) ->
  (forall t, holds t (log w) = None -> holds_step t (holds t (log w)) e = None) ->
  inv n l (mkPool c (timeout_monitor_ w) (log w ++ [e])).
Proof.
  intros [] Ht Hn Hok Hc Hce Hl Hv He.
  assert (times (log w ++ [e]) = times (log w)) as Et by (rewrite times_snoc, Ht; apply app_nil_r).
  assert (news (log w ++ [e]) = news (log w)) as En by (rewrite news_snoc, Hn; lia).
  split; cbn [req_ctx_cabinet_ timeout_monitor_ log]; rewrite ?En, ?Et; auto using explained_snoc.
  - congruence.
  - congruence.
  - intros t. by rewrite holds_snoc.
  - intros t H. apply i_held0. rewrite holds_snoc in H. destruct (holds t (log w)) eqn:E; [done|].
    specialize (He t). rewrite E in He. rewrite He in H by done. by destruct H.
  - intros t H. rewrite holds_snoc. by apply He, i_gone0.
Qed.

(** Runs the monad. *)
Ltac run := unfold set_cabinet, note, get, put, modify, the, mbind, M_bind; cbn.

Lemma updateRequest_ok n l w t p : inv n l w -> tok_wf t -> exists w' b,
  updateRequest t p w = Ret (b, w') /\ inv n l w' /\ log w' = log w ++ [Update t p b].
Proof.
  intros Hi Ht. destruct (ts_update_ok (req_ctx_cabinet_ w) t p (i_wf _ _ _ Hi) Ht) as (c & Ec & Hc & Hv).
  destruct (ts_update_last _ _ _ _ _ (i_wf _ _ _ Hi) Ht Ec) as [Hl Hce].
  rewrite (i_view _ _ _ Hi) in Ec, Hv.
  eexists _, _. split.
  { unfold updateRequest. run. rewrite Ec. reflexivity. }
  split; [|done]. apply (inv_untimed n l w); try done; cbn [holds_step req_ctx_cabinet_]; intros t'.
  - rewrite Hv. case_decide as E; [subst t'|]; destruct (holds t (log w)) eqn:E2; cbn;
      rewrite ?lookup_insert_eq, ?lookup_insert_ne by done; rewrite ?(i_view _ _ _ Hi); done.
  - intros H. case_decide as E; [subst t'|done]. by rewrite H.
Qed.

Lemma removeRequest_ok n l w t : inv n l w -> tok_wf t -> exists w' o,
  removeRequest t w = Ret (o, w') /\ inv n l w' /\ log w' = log w ++ [Remove t o].
Proof.
  intros Hi Ht. destruct (ts_free_ok (req_ctx_cabinet_ w) t (i_wf _ _ _ Hi) Ht) as (c & Ec & Hc & Hv & Hce).
  pose proof (ts_free_last _ _ _ _ (i_wf _ _ _ Hi) Ht Ec) as Hl.
  rewrite (i_view _ _ _ Hi) in Ec.
  eexists _, _. split.
  { unfold removeRequest, free_request. run. rewrite Ec. reflexivity. }
  split; [|done]. apply (inv_untimed n l w); try done; cbn [holds_step req_ctx_cabinet_]; intros t'.
  - rewrite Hv. case_decide as E; [subst t'; by rewrite lookup_delete_eq|].
    by rewrite lookup_delete_ne, (i_view _ _ _ Hi).
  - intros ->. by case_decide.
Qed.

Lemma newRequest_ok n l w p : inv n l w -> news (log w) < SIZE_MAX -> exists w' t,
  newRequest p w = Ret (t, w') /\ inv n l w' /\ log w' = log w ++ [New t p].
Proof.
  intros Hi Hn. pose proof (i_cells _ _ _ Hi) as Hce. pose proof (i_last _ _ _ Hi) as Hl.
  destruct (ts_alloc_ok (req_ctx_cabinet_ w) p (i_wf _ _ _ Hi)) as (c & t & Ec & Hc & Ht & _ & Hnone & Hv & Hce'); [lia|].
  destruct (ts_alloc_last _ _ _ _ (i_wf _ _ _ Hi) ltac:(lia) ltac:(lia) Ec) as [Hid Hl'].
  assert (~ added t (times (log w))) as Hnew by (intros [_ ?]%(i_made _ _ _ Hi); lia).
  destruct (tracks_add _ _ _ _ t (i_tracks _ _ _ Hi) Hnew) as (m & Em & Htr).
  eexists _, _. split.
  { unfold newRequest, add, change. run. rewrite Ec. cbn. rewrite Em. reflexivity. }
  split; [|done]. destruct Hi.
  assert (forall t', added t' (times (log w)) -> t' <> t) as Hne by (intros t' Hadd ->; done).
  assert (news (log w ++ [New t p]) = news (log w) + 1) as En by (rewrite news_snoc; done).
  assert (times (log w ++ [New t p]) = times (log w) ++ [Added t]) as Et by (by rewrite times_snoc).
  split; cbn [req_ctx_cabinet_ timeout_monitor_ log snd]; rewrite ?En, ?Et;
    auto using explained_snoc; try setoid_rewrite added_snoc; try setoid_rewrite fired_snoc.
  - lia.
  - lia.
  - intros t'. rewrite Hv, holds_snoc. cbn [holds_step]. rewrite <- i_view0.
    case_decide as E; [subst; by rewrite lookup_insert_eq|by rewrite lookup_insert_ne by done].
  - intros t' [H|[= ->]]; [|split; [done|lia]]. destruct (i_made0 _ H). split; [done|lia].
  - intros t'. rewrite holds_snoc. cbn. case_decide; [subst; by right|]. intros Hh. left. by apply i_held0.
  - intros t' [H|?]; [|done]. rewrite holds_snoc. cbn. rewrite decide_False; [by apply i_gone0|].
    apply Hne. by apply (tr_fired _ _ _ _ i_tracks0).
Qed.

Definition of_call (e : pevent) : Prop :=
  match e with New _ _ | Update _ _ _ | Remove _ _ => True | _ => False end.

Lemma settled_app l1 l2 : settled l1 -> settled l2 -> settled (l1 ++ l2).
Proof.
  intros H1 H2 i t p [E|[Hi E]]%lookup_app_Some.
  - destruct (H1 _ _ _ E) as (Ha & j & Hj & Ej). split; [|exists j; split; [done|by apply lookup_app_l_Some]].
    intros H. apply lookup_app_l_Some. by apply Ha.
  - destruct (H2 _ _ _ E) as (Ha & j & Hj & Ej). split.
    + intros H. rewrite lookup_app_r by lia. replace (S i - length l1)%nat with (S (i - length l1)) by lia. by apply Ha.
    + exists (length l1 + j)%nat. split; [lia|]. rewrite lookup_app_r by lia. by replace (length l1 + j - length l1)%nat with j by lia.
Qed.

Lemma settled_quiet l : Forall (fun e => forall t p, e <> Expire t (Some p)) l -> settled l.
Proof. intros H i t p E. rewrite Forall_forall in H. apply list_elem_of_lookup_2 in E. by destruct (H _ E t p). Qed.

Lemma settled_calls l : Forall of_call l -> settled l.
Proof. intros H. apply settled_quiet. eapply Forall_impl; [exact H|]. by intros [] Ho ? ?. Qed.

(** What an expired request leaves in the history. *)
Lemma settled_expiry t p es : Forall of_call es ->
  settled (Expire t (Some p) :: match action with Some _ => Action p :: es | None => [] end ++ [Delete t p]).
Proof.
  intros Hes. change (Expire t (Some p) :: ?x) with ([Expire t (Some p)] ++ x).
  assert (settled (match action with Some _ => Action p :: es | None => [] end ++ [Delete t p])) as Hrest.
  { apply settled_app; [|by apply settled_quiet; repeat constructor]. destruct action; [|by apply settled_quiet].
    apply (settled_app [Action p]); [by apply settled_quiet; repeat constructor|by apply settled_calls]. }
  intros [|i] t' p' E; [|destruct (Hrest i t' p' E) as (Ha & j & Hj & Ej);
    split; [exact Ha|exists (S j); split; [lia|exact Ej]]].
  injection E as <- <-. cbn [app]. split.
  - intros [a Ea]. cbn. by rewrite Ea.
  - exists (S (length (match action with Some _ => Action p :: es | None => [] end))). split; [lia|].
    cbn [lookup list_lookup]. by apply list_lookup_middle.
Qed.

Lemma call_ok n l w c : inv n l w -> calls_legal (log w) [c] -> exists w' e,
  do_call c w = Ret ((), w') /\ inv n l w' /\ log w' = log w ++ [e] /\ of_call e /\
  news (log w') = news (log w) + call_news c.
Proof.
  intros Hi [Hc Hn]. rewrite Forall_singleton in Hc. destruct c as [p|t p|t|]; cbn in Hc, Hn; [| | |done].
  - destruct (newRequest_ok n l w p Hi) as (w' & t & E & H & Hl); [lia|].
    exists w', (New t p). split; [cbn; unfold mbind, M_bind; by rewrite E|]. by rewrite Hl, news_snoc.
  - destruct (updateRequest_ok n l w t p Hi Hc) as (w' & b & E & H & Hl).
    exists w', (Update t p b). split; [cbn; unfold mbind, M_bind; by rewrite E|]. by rewrite Hl, news_snoc.
  - destruct (removeRequest_ok n l w t Hi Hc) as (w' & o & E & H & Hl).
    exists w', (Remove t o). split; [cbn; unfold mbind, M_bind; by rewrite E|]. by rewrite Hl, news_snoc.
Qed.

Lemma calls_news_nonneg cs : 0 <= calls_news cs.
Proof. unfold calls_news. induction cs as [|[] cs IH]; cbn in *; lia. Qed.

Lemma calls_ok n l w cs : inv n l w -> calls_legal (log w) cs -> exists w' es,
  do_calls cs w = Ret ((), w') /\ inv n l w' /\ log w' = log w ++ es /\ Forall of_call es.
Proof.
  revert w. induction cs as [|c cs IH]; intros w Hi [Hc Hn].
  { exists w, []. by rewrite app_nil_r. }
  apply Forall_cons in Hc as [Hc Hcs].
  change (calls_news (c :: cs)) with (call_news c + calls_news cs) in Hn. pose proof (calls_news_nonneg cs).
  destruct (call_ok n l w c Hi) as (w1 & e & E1 & Hi1 & Hl1 & He & Hn1).
  { split; [by apply Forall_singleton|]. destruct c; cbn in *; lia. }
  destruct (IH w1 Hi1) as (w2 & es & E2 & Hi2 & Hl2 & Hes).
  { split; [done|]. rewrite Hn1. destruct c; cbn in *; lia. }
  exists w2, (e :: es). split; [cbn; unfold mbind, M_bind; by rewrite E1|].
  rewrite Hl2, Hl1, <- app_assoc. auto.
Qed.

(** The monitor's callback takes the request out of the cabinet. *)
Lemma timeout_ok n t l w : inv n (t :: l) w -> exists c,
  ts_free (req_ctx_cabinet_ w) t = Some (c, mjoin (holds t (log w))) /\ timely n t (times (log w)) /\
  inv n l (mkPool c (timeout_monitor_ w) (log w ++ [Expire t (mjoin (holds t (log w)))])).
Proof.
  intros Hi. destruct (tracks_fire _ _ _ _ _ (i_tracks _ _ _ Hi)) as [Htimely Htr].
  destruct (i_made _ _ _ Hi t (proj1 Htimely)) as [Ht _].
  destruct (ts_free_ok (req_ctx_cabinet_ w) t (i_wf _ _ _ Hi) Ht) as (c & Ec & Hc & Hv & Hce).
  pose proof (ts_free_last _ _ _ _ (i_wf _ _ _ Hi) Ht Ec) as Hl.
  rewrite (i_view _ _ _ Hi) in Ec. exists c. split; [done|]. split; [done|]. set (o := mjoin _). destruct Hi.
  assert (news (log w ++ [Expire t o]) = news (log w)) as En by (rewrite news_snoc; cbn; lia).
  assert (times (log w ++ [Expire t o]) = times (log w) ++ [Fired t]) as Et by (by rewrite times_snoc).
  split; cbn [req_ctx_cabinet_ timeout_monitor_ log]; rewrite ?En, ?Et;
    auto; try setoid_rewrite added_snoc; try setoid_rewrite fired_snoc.
  - congruence.
  - congruence.
  - intros t'. rewrite Hv, holds_snoc. cbn [holds_step]. rewrite <- i_view0.
    case_decide as E; [subst; by rewrite lookup_delete_eq|by rewrite lookup_delete_ne by done].
  - intros t' [H|?]; [auto|done].
  - intros t'. rewrite holds_snoc. cbn. case_decide; [by intros []|auto].
  - intros t' H. rewrite holds_snoc. cbn. case_decide; [done|]. destruct H as [H|[= <-]]; [auto|done].
  - by apply explained_snoc.
Qed.

Lemma deleted_expired n l t p : explained n l -> Delete t p ∈ l -> Expire t (Some p) ∈ l.
Proof.
  intros H (before & after & ->)%list_elem_of_split.
  destruct (H _ _ _ eq_refl) as [H1 _]. apply elem_of_app. by left.
Qed.

Lemma inv_passive n l w e : inv n l w -> (exists p, e = Action p) \/ (exists t p, e = Delete t p) ->
  event_ok n (log w) e ->
  inv n l (mkPool (req_ctx_cabinet_ w) (timeout_monitor_ w) (log w ++ [e])).
Proof.
  intros Hi He Hok. apply inv_untimed; try done; try naive_solver; try apply Hi.
  intros t. rewrite (i_view _ _ _ Hi). naive_solver.
Qed.

Lemma on_timeout_ok n t l w : action_legal -> inv n (t :: l) w -> exists w',
  on_timeout t w = Ret ((), w') /\ inv n l w' /\ exists es, log w' = log w ++ es /\ settled es.
Proof.
  intros Ha Hi. pose proof (i_explained _ _ _ Hi) as Hex.
  destruct (timeout_ok n t l w Hi) as (c & Ec & (_ & _ & Hfirst) & Hi1).
  assert (forall p, Delete t p ∉ log w) as Hdel.
  { intros p H%(deleted_expired _ _ _ _ Hex). apply Hfirst, fired_expire. eauto. }
  unfold on_timeout, free_request. run. rewrite Ec. cbn.
  destruct (mjoin (holds t (log w))) as [p|].
  2: { eexists. split; [done|]. split; [done|]. eexists. split; [done|]. apply settled_quiet. by repeat constructor. }
  set (w1 := mkPool c _ _) in *.
  assert (forall w2 es, inv n l w2 -> log w2 = log w1 ++ es -> (forall p', Delete t p' ∉ es) ->
    inv n l (mkPool (req_ctx_cabinet_ w2) (timeout_monitor_ w2) (log w2 ++ [Delete t p]))) as Hdelete.
  { intros w2 es Hi2 Hl2 Hes. apply inv_passive; [done|eauto|]. rewrite Hl2. subst w1. cbn.
    split; [by rewrite !elem_of_app, list_elem_of_singleton; auto|].
    intros p'. rewrite !elem_of_app, list_elem_of_singleton. naive_solver. }
  destruct action as [a|] eqn:Eact.
  - assert (inv n l (mkPool c (timeout_monitor_ w) (log w1 ++ [Action p]))) as Hi2.
    { apply (inv_passive n l w1); [done|eauto|]. exists t. subst w1. cbn. by rewrite last_snoc. }
    cbn in Hi2. destruct (calls_ok n l _ (a ((log w ++ [Expire t (Some p)]) ++ [Action p]) p) Hi2) as (w3 & es & E & Hi3 & Hl3 & Hes).
    + by apply Ha.
    + cbn. rewrite E. eexists. split; [done|]. split.
      * apply (Hdelete w3 (Action p :: es)); [done|by rewrite Hl3; cbn; rewrite <- app_assoc|].
        intros p'. rewrite elem_of_cons. intros [?|H]; [done|]. rewrite Forall_forall in Hes. by apply Hes in H.
      * exists (Expire t (Some p) :: (Action p :: es) ++ [Delete t p]). split; [cbn; rewrite Hl3; cbn; by rewrite <- !app_assoc|].
        pose proof (settled_expiry t p es Hes) as H. by rewrite Eact in H.
  - eexists. split; [done|]. split; [apply (Hdelete w1 []); [done|by rewrite app_nil_r|]; by intros p' ?%not_elem_of_nil|].
    exists [Expire t (Some p); Delete t p]. split; [cbn; by rewrite <- app_assoc|]. pose proof (settled_expiry t p [] ltac:(done)) as H. by rewrite Eact in H.
Qed.

Lemma tick_ok n w : (1 <= n)%nat -> action_legal -> inv n [] w -> settled (log w) -> exists w',
  tick w = Ret ((), w') /\ inv n [] w' /\ settled (log w').
Proof.
  intros Hn Ha Hi Hset. destruct (tracks_tick _ _ _ Hn (i_tracks _ _ _ Hi)) as (l & m & Em & Htr).
  unfold tick. run. apply (onTimerTick_ok (fun l w => inv n l w /\ settled (log w)) on_timeout) with l m; cbn.
  - intros l' w' H. apply H.
  - intros l' w' d [H Hs]. destruct (tracks_level _ _ _ _ d (i_tracks _ _ _ H)) as (m' & E & H').
    exists m'. split; [done|]. by destruct H.
  - intros t l' w' [H Hs]. destruct (on_timeout_ok n t l' w' Ha H) as (w2 & E & H2 & es & El & Hes). exists w2.
    split; [done|]. split; [done|]. rewrite El. by apply settled_app.
  - done.
  - split; [|apply settled_app; [done|]; apply settled_quiet; by repeat constructor]. destruct Hi.
    assert (news (log w ++ [Tick]) = news (log w)) as En by (rewrite news_snoc; cbn; lia).
    assert (times (log w ++ [Tick]) = times (log w) ++ [Ticked]) as Et by (by rewrite times_snoc).
    split; cbn [req_ctx_cabinet_ timeout_monitor_ log]; rewrite ?En, ?Et; auto;
      try setoid_rewrite added_snoc; try setoid_rewrite fired_snoc; try setoid_rewrite holds_snoc; auto.
    + intros t [H|?]; [auto|done].
    + intros t [H|?]; [by apply i_gone0|done].
    + by apply explained_snoc.
Qed.

Lemma pool_exec_ok n w o : (1 <= n)%nat -> action_legal -> inv n [] w -> settled (log w) ->
  (if o is Call c then calls_legal (log w) [c] else True) -> exists w',
  pool_exec o w = Ret ((), w') /\ inv n [] w' /\ settled (log w').
Proof.
  intros Hn Ha Hi Hs Ho. destruct o as [c|]; [|by apply tick_ok].
  destruct (call_ok n [] w c Hi Ho) as (w' & e & E & H & El & He & _). exists w'. split_and!; [done|done|]. rewrite El.
  apply settled_app; [done|]. apply settled_calls. by repeat constructor.
Qed.

Lemma run_ok n ops w : (1 <= n)%nat -> action_legal -> inv n [] w -> settled (log w) -> ops_legal ops w -> exists w',
  pool_run ops w = Ret ((), w') /\ inv n [] w' /\ settled (log w').
Proof.
  intros Hn Ha. revert w. induction ops as [|o ops IH]; intros w Hi Hs Hops; [by exists w|].
  destruct Hops as [Ho Hops]. destruct (pool_exec_ok n w o Hn Ha Hi Hs Ho) as (w1 & E1 & Hi1 & Hs1).
  destruct (IH w1 Hi1 Hs1 (Hops w1 E1)) as (w2 & E2 & Hi2). exists w2. split; [|done].
  cbn. unfold mbind, M_bind. by rewrite E1.
Qed.

(** A pool that has been initialized and has its action. *)
Definition started (check_times : Z) : pool C :=
  mkPool ts_empty (mkMonitor (ring check_times) (Some O) 0 true 0 false) [].

Lemma start check_times : 0 < check_times ->
  (pool_initialize check_times;; setTimeoutAction) new_pool = Ret ((), started check_times).
Proof.
  intros H. unfold pool_initialize, setTimeoutAction, initialize, setCallback, change, initialize_. run.
  by rewrite (proj2 (Z.ltb_ge _ _)) by lia.
Qed.

Lemma started_inv check_times : 0 < check_times -> inv (Z.to_nat check_times) [] (started check_times).
Proof.
  intros Hn.
  destruct (tracks_start (V:=Token) check_times (mkMonitor [] None 0 true 0 false) Hn eq_refl eq_refl) as (m & Em & Htr).
  unfold initialize_ in Em. rewrite (proj2 (Z.ltb_ge _ _)) in Em by lia. injection Em as <-.
  destruct (ts_empty_ok (V:=nat)) as (H1 & H2 & H3).
  split; cbn [req_ctx_cabinet_ timeout_monitor_ log started] in *; try done.
  - by rewrite H3.
  - apply ts_empty_last.
  - intros t. by rewrite H2, lookup_empty.
  - by intros t ?%not_elem_of_nil.
  - by intros t [].
  - intros before e after E. by destruct before.
Qed.

End pool.

Section properties.

Context {C : Type -> Type} {STORE : TokenStore C}.


End properties.

(** *** A run *)

Definition retry (before : list pevent) (p : nat) : list call :=
  if news before <? 3 then [CNew (Some (100 + p)%nat)] else [].

Definition some_ops : list pool_op :=
  [Call (CNew (Some 7%nat)); TimerTick; Call (CNew None); Call (CUpdate (mkToken 2 1) (Some 8%nat));
   TimerTick; Call (CRemove (mkToken 2 1)); TimerTick; TimerTick].


(** *** Where the contract ends *)

Definition with_call (c : call) (before : list pevent) (p : nat) : list call := [c].

Definition run_pool (action : option (list pevent -> nat -> list call)) (ops : list pool_op) : M (pool cabinet) () :=
  pool_initialize 2;; setTimeoutAction;; pool_run action ops.

(** After [cleanup] there is no ring to put a request in. *)
Example request_after_cleanup : run_pool None [Call CCleanup; Call (CNew None)] new_pool = Stuck.
Proof. vm_compute. reflexivity. Qed.

(** An action may clean up the pool when its request is the only one of the tick;
    when there is another one, its callback is gone. *)
Example cleanup_in_action :
  (exists w, run_pool (Some (with_call CCleanup)) [Call (CNew (Some 1%nat)); TimerTick; TimerTick] new_pool = Ret ((), w)) /\
  run_pool (Some (with_call CCleanup))
    [Call (CNew (Some 1%nat)); Call (CNew (Some 2%nat)); TimerTick; TimerTick] new_pool = Stuck.
Proof. split; [eexists|]; vm_compute; reflexivity. Qed.

Definition history {C} (o : outcome (() * pool C)) : option (list pevent) :=
  match o with Ret (_, w) => Some (log w) | _ => None end.

(** [cleanup] also drops the callback: initialized again, the pool forgets the
    requests of a tick, but the cabinet keeps them. *)
Example initialized_again :
  history ((run_pool None [Call CCleanup];; pool_initialize 2;;
            pool_run None [Call (CNew (Some 1%nat)); TimerTick; TimerTick; TimerTick; Call (CRemove (mkToken 1 0))])
             (new_pool (C:=cabinet))) =
  Some [Cleared []; New (mkToken 1 0) (Some 1%nat); Tick; Tick; Tick; Remove (mkToken 1 0) (Some 1%nat)].
Proof. vm_compute. reflexivity. Qed.

(** Initialized without [cleanup] while a request waits, the timer stays off, and
    no later request turns it on. *)
Example initialized_twice :
  match (run_pool None [Call (CNew None)];; pool_initialize 2;;
         pool_run None [Call (CNew None); Call (CNew None)]) (new_pool (C:=cabinet)) with
  | Ret (_, w) => ticking (timeout_monitor_ w) = false /\ value_number_ (timeout_monitor_ w) = 3
  | _ => False
  end.
Proof. vm_compute. split; reflexivity. Qed.
