(* ===== verification/Jsonrpc.v ===== *)
(** * The wire of JSON-RPC

    Models [FindEndPos] and the getters of [modules/util/json.cpp], and of
    [modules/jsonrpc] the messages ([proto.cpp]) and the three ways to frame them
    ([protos/]).  A JSON value is the tagged union of the vendored nlohmann library;
    its [dump] and [parse] are parameters.  The interface [StreamProto] states what
    a framing promises to its reader. *)
From S2P Require Import Prelude Serializer.

(** ** The end of a JSON text *)

(** [::isgraph] in the C locale. *)
Definition isgraph (c : Z) : bool := (33 <=? c) && (c <=? 126).

(** Double quote, backslash, brackets and braces. *)
Notation QUOTE := 34.
Notation BACKSLASH := 92.
Notation LBRACKET := 91.
Notation RBRACKET := 93.
Notation LBRACE := 123.
Notation RBRACE := 125.

Record scan := mkScan {
  is_started : bool;
  braces_level : Z;
  square_level : Z;
  in_string : bool }.

(** [for (size_t j = (i - 1); j != 0 && str_ptr[j] == '\\'; --j)]: [seen] is the
    text before [i], the last character first. *)
Fixpoint flip_escapes (seen : list Z) (in_str : bool) : bool :=
  match seen with
  | [] => in_str
  | c :: seen' =>
      match seen' with
      | [] => in_str
      | _ => if c =? BACKSLASH then flip_escapes seen' (negb in_str) else in_str
      end
  end.

(** One round of the loop, up to the tests at its end. *)
Definition scan_char (seen : list Z) (c : Z) (s : scan) : scan :=
  let started := is_started s || isgraph c in
  if c =? QUOTE then
    mkScan started (braces_level s) (square_level s)
      (if in_string s then flip_escapes seen false else true)
  else if in_string s then mkScan started (braces_level s) (square_level s) true
  else
    mkScan started
      (braces_level s + if c =? LBRACE then 1 else if c =? RBRACE then -1 else 0)
      (square_level s + if c =? LBRACKET then 1 else if c =? RBRACKET then -1 else 0) false.

(** [continue]. *)
Definition skips (c : Z) (s : scan) : bool := negb (c =? QUOTE) && in_string s.

Definition at_end_pos (s : scan) : bool :=
  (braces_level s =? 0) && (square_level s =? 0) && negb (in_string s) && is_started s.

Definition unbalanced (s : scan) : bool := (braces_level s <? 0) || (square_level s <? 0).

Fixpoint find_loop (seen rest : list Z) (s : scan) : Z :=
  match rest with
  | [] => 0
  | c :: rest' =>
      let s' := scan_char seen c s in
      if skips c s then find_loop (c :: seen) rest' s'
      else if at_end_pos s' then to_signed 32 (u32 (Z.of_nat (length seen) + 1))
      else if unbalanced s' then -1
      else find_loop (c :: seen) rest' s'
  end.

Definition FindEndPos (text : list Z) : Z := find_loop [] text (mkScan false 0 0 false).

(** A literal with single quotes for double ones. *)
Definition json (s : string) : list Z := map (fun c => if c =? 39 then QUOTE else c) (str s).

Example find_escaped : FindEndPos (json " {'a\\':']'}[]") = 12.
Proof. reflexivity. Qed.

(** ** Texts with balanced brackets

    Strings with escapes and brackets that match outside of strings: every JSON
    array and object is a [container] text. *)

Inductive string_body : list Z -> Prop :=
  | body_nil : string_body []
  | body_char c s : c <> QUOTE -> c <> BACKSLASH -> string_body s -> string_body (c :: s)
  | body_escape c s : string_body s -> string_body (BACKSLASH :: c :: s).

Definition structural (c : Z) : Prop :=
  c = QUOTE \/ c = LBRACKET \/ c = RBRACKET \/ c = LBRACE \/ c = RBRACE.

Inductive balanced : list Z -> Prop :=
  | bal_nil : balanced []
  | bal_char c s : ~ structural c -> balanced s -> balanced (c :: s)
  | bal_string b s : string_body b -> balanced s -> balanced (QUOTE :: b ++ QUOTE :: s)
  | bal_array a s : balanced a -> balanced s -> balanced (LBRACKET :: a ++ RBRACKET :: s)
  | bal_object a s : balanced a -> balanced s -> balanced (LBRACE :: a ++ RBRACE :: s).

Inductive container : list Z -> Prop :=
  | array_text a : balanced a -> container (LBRACKET :: a ++ [RBRACKET])
  | object_text a : balanced a -> container (LBRACE :: a ++ [RBRACE]).

Section scanning.

#[local] Arguments reverse : simpl never.

(** The state after a piece of text in which the loop does not return. *)
Fixpoint scan_all (seen text : list Z) (s : scan) : option scan :=
  match text with
  | [] => Some s
  | c :: text' =>
      let s' := scan_char seen c s in
      if skips c s || negb (at_end_pos s' || unbalanced s') then scan_all (c :: seen) text' s' else None
  end.

Lemma scan_all_app a b seen s :
  scan_all seen (a ++ b) s = s' ← scan_all seen a s; scan_all (reverse a ++ seen) b s'.
Proof.
  revert seen s. induction a as [|c a IH]; intros seen s; [done|]. cbn.
  case_match; [|done]. by rewrite IH, reverse_cons, <- app_assoc.
Qed.

Lemma find_loop_app a rest seen s s' : scan_all seen a s = Some s' ->
  find_loop seen (a ++ rest) s = find_loop (reverse a ++ seen) rest s'.
Proof.
  revert seen s. induction a as [|c a IH]; intros seen s; cbn; [by intros [= ->]|].
  destruct (skips c s); cbn.
  - intros H. by rewrite (IH _ _ H), reverse_cons, <- app_assoc.
  - destruct (at_end_pos _); [done|]. destruct (unbalanced _); [done|]. cbn.
    intros H. by rewrite (IH _ _ H), reverse_cons, <- app_assoc.
Qed.

Lemma find_loop_wait a seen s s' : scan_all seen a s = Some s' -> find_loop seen a s = 0.
Proof. intros H. rewrite <- (app_nil_r a). by rewrite (find_loop_app _ _ _ _ _ H). Qed.

Lemma scan_all_prefix a b seen s s' : scan_all seen (a ++ b) s = Some s' -> is_Some (scan_all seen a s).
Proof. rewrite scan_all_app. destruct (scan_all seen a s); [by eexists|done]. Qed.

(** Between the units of a string the backslashes before the position pair up. *)
Definition paired (seen : list Z) : Prop := seen <> [] /\ flip_escapes seen false = false.

Lemma flip_negb seen b : flip_escapes seen (negb b) = negb (flip_escapes seen b).
Proof.
  revert b. induction seen as [|c seen IH]; intros b; [done|]. cbn.
  destruct seen; [done|]. case_match; [|done]. apply IH.
Qed.

Lemma flip_backslash seen : paired seen -> flip_escapes (BACKSLASH :: seen) false = true.
Proof.
  intros [H1 H2]. cbn. destruct seen; [done|]. change true with (negb false). rewrite flip_negb. by rewrite H2.
Qed.

Lemma paired_char c seen : c <> BACKSLASH -> paired (c :: seen).
Proof. intros H. split; [done|]. cbn. destruct seen; [done|]. by rewrite (proj2 (Z.eqb_neq _ _)). Qed.

Lemma paired_escape c seen : paired seen -> paired (c :: BACKSLASH :: seen).
Proof.
  intros H. destruct (decide (c = BACKSLASH)) as [->|Hc]; [|by apply paired_char].
  split; [done|]. change (flip_escapes (BACKSLASH :: BACKSLASH :: seen) false) with (flip_escapes (BACKSLASH :: seen) (negb false)).
  rewrite flip_negb. by rewrite flip_backslash.
Qed.

Definition inside (s : scan) : Prop :=
  is_started s = true /\ 0 <= braces_level s /\ 0 <= square_level s /\
  0 < braces_level s + square_level s.

Lemma inside_step s : inside s -> at_end_pos s || unbalanced s = false.
Proof.
  intros (Hs & H1 & H2 & H3). unfold at_end_pos, unbalanced. rewrite Hs.
  destruct (Z.eqb_spec (braces_level s) 0), (Z.eqb_spec (square_level s) 0); try lia; cbn;
    rewrite !(proj2 (Z.ltb_ge _ _)) by lia; done.
Qed.

Lemma scan_step seen c s t : skips c s || negb (at_end_pos (scan_char seen c s) || unbalanced (scan_char seen c s)) = true ->
  scan_all seen (c :: t) s = scan_all (c :: seen) t (scan_char seen c s).
Proof. intros H. cbn. by rewrite H. Qed.

(** A piece that changes nothing and at which the loop does not return. *)
Definition neutral (t : list Z) : Prop := forall seen s, inside s -> in_string s = false -> scan_all seen t s = Some s.

Lemma scan_string_body b : string_body b -> forall seen s, inside s -> in_string s = true -> paired seen ->
  scan_all seen b s = Some s /\ paired (reverse b ++ seen).
Proof.
  induction 1 as [|c b H1 H2 Hb IH|c b Hb IH]; intros seen s Hs Hi Hp; [done| |].
  - destruct (IH (c :: seen) s Hs Hi) as [E1 E2]; [by apply paired_char|].
    rewrite reverse_cons, <- app_assoc. split; [|done]. cbn.
    unfold skips, scan_char. rewrite (proj2 (Z.eqb_neq _ _) H1), Hi. cbn.
    destruct Hs as (Hs & _). destruct s; cbn in *; by subst.
  - destruct (IH (c :: BACKSLASH :: seen) s Hs Hi) as [E1 E2]; [by apply paired_escape|].
    rewrite !reverse_cons, <- !app_assoc. split; [|done].
    assert (scan_char seen BACKSLASH s = s) as E.
    { unfold scan_char. cbn. rewrite Hi. destruct Hs as (Hs & _). destruct s; cbn in *; by subst. }
    rewrite scan_step by (unfold skips; by rewrite Hi). rewrite E.
    assert (scan_char (BACKSLASH :: seen) c s = s) as E'.
    { unfold scan_char. rewrite Hi, (flip_backslash _ Hp). destruct Hs as (Hs & _).
      destruct (c =? QUOTE); destruct s; cbn in *; by subst. }
    rewrite scan_step; rewrite E'; [done|]. rewrite (inside_step s Hs). cbn. by rewrite orb_true_r.
Qed.

Lemma neutral_string b : string_body b -> neutral (QUOTE :: b ++ [QUOTE]).
Proof.
  intros Hb seen s Hs Hi. destruct s as [st br sq ins]. cbn in Hi. subst ins.
  pose proof Hs as (Hst & _). cbn in Hst. subst st. set (s1 := mkScan true br sq true).
  assert (inside s1) as Hs1 by exact Hs.
  destruct (scan_string_body b Hb (QUOTE :: seen) s1 Hs1 eq_refl) as [E1 E2]; [by apply paired_char|].
  rewrite scan_step; change (scan_char seen QUOTE (mkScan true br sq false)) with s1;
    [|by rewrite (inside_step s1 Hs1)].
  rewrite scan_all_app, E1. cbn [mbind option_bind].
  assert (scan_char (reverse b ++ QUOTE :: seen) QUOTE s1 = mkScan true br sq false) as E.
  { unfold scan_char. cbn. by rewrite (proj2 E2). }
  rewrite scan_step; rewrite E; [done|]. by rewrite (inside_step _ Hs).
Qed.

Lemma neutral_app a b : neutral a -> neutral b -> neutral (a ++ b).
Proof. intros Ha Hb seen s Hs Hi. rewrite scan_all_app, Ha by done. cbn. by apply Hb. Qed.

Lemma neutral_char c : ~ structural c -> neutral [c].
Proof.
  intros H seen s Hs Hi. assert (scan_char seen c s = s) as E.
  { unfold structural in H. unfold scan_char. rewrite !(proj2 (Z.eqb_neq c _)) by tauto. rewrite Hi, !Z.add_0_r.
    destruct Hs as (Hs & _). destruct s; cbn in *; by subst. }
  rewrite scan_step; rewrite E; [done|]. rewrite (inside_step _ Hs). by rewrite orb_true_r.
Qed.

(** Brackets around a neutral text. *)
Lemma neutral_brackets o c a (db dq : Z) :
  (o, c, db, dq) ∈ [(LBRACKET, RBRACKET, 0, 1); (LBRACE, RBRACE, 1, 0)] ->
  neutral a -> neutral (o :: a ++ [c]).
Proof.
  intros H Ha seen s Hs Hi. destruct s as [st br sq ins]. cbn in Hi. subst ins.
  pose proof Hs as (Hst & H1 & H2 & H3). cbn in Hst, H1, H2, H3. subst st.
  set (s1 := mkScan true (br + db) (sq + dq) false).
  assert (inside s1) as Hs1.
  { unfold inside, s1. cbn. rewrite !elem_of_cons in H.
    destruct H as [[= -> -> -> ->]|[[= -> -> -> ->]|H%not_elem_of_nil]]; [lia..|done]. }
  assert (scan_char seen o (mkScan true br sq false) = s1) as E1.
  { rewrite !elem_of_cons in H. by destruct H as [[= -> -> -> ->]|[[= -> -> -> ->]|?%not_elem_of_nil]]. }
  rewrite scan_step; rewrite E1; [|rewrite (inside_step _ Hs1); by rewrite orb_true_r].
  rewrite scan_all_app, Ha by done. cbn [mbind option_bind].
  assert (forall seen, scan_char seen c s1 = mkScan true br sq false) as E2.
  { intros seen'. rewrite !elem_of_cons in H. unfold scan_char, s1.
    destruct H as [[= -> -> -> ->]|[[= -> -> -> ->]|?%not_elem_of_nil]]; cbn; [f_equal; lia..|done]. }
  rewrite scan_step; rewrite E2; [done|]. rewrite (inside_step _ Hs). by rewrite orb_true_r.
Qed.

Lemma balanced_neutral a : balanced a -> neutral a.
Proof.
  induction 1 as [|c s Hc _ IH|b s Hb _ IH|a s _ IHa _ IHs|a s _ IHa _ IHs]; [done|..].
  - apply (neutral_app [c]); [by apply neutral_char|done].
  - replace (QUOTE :: b ++ QUOTE :: s) with ((QUOTE :: b ++ [QUOTE]) ++ s)
      by (cbn; by rewrite <- app_assoc).
    apply neutral_app; [by apply neutral_string|done].
  - replace (LBRACKET :: a ++ RBRACKET :: s) with ((LBRACKET :: a ++ [RBRACKET]) ++ s)
      by (cbn; by rewrite <- app_assoc).
    apply neutral_app; [|done]. eapply neutral_brackets; [left|done].
  - replace (LBRACE :: a ++ RBRACE :: s) with ((LBRACE :: a ++ [RBRACE]) ++ s)
      by (cbn; by rewrite <- app_assoc).
    apply neutral_app; [|done]. eapply neutral_brackets; [right; left|done].
Qed.

Definition blank (ws : list Z) : Prop := Forall (fun c => isgraph c = false) ws.

Lemma scan_blank ws seen : blank ws -> scan_all seen ws (mkScan false 0 0 false) = Some (mkScan false 0 0 false).
Proof.
  revert seen. induction ws as [|c ws IH]; intros seen H; [done|]. apply Forall_cons in H as [Hc H].
  assert (scan_char seen c (mkScan false 0 0 false) = mkScan false 0 0 false) as E.
  { unfold scan_char, isgraph in *. rewrite Hc. cbn. apply andb_false_iff in Hc.
    rewrite !(proj2 (Z.eqb_neq c _)); [done|..]; intros ->; by destruct Hc. }
  rewrite scan_step; rewrite E; [by apply IH|by rewrite orb_true_r].
Qed.

(** A container up to its last bracket: the loop waits, and then returns. *)
Lemma container_split t : container t -> exists u c s,
  t = u ++ [c] /\ u <> [] /\
  (forall ws, blank ws -> scan_all [] (ws ++ u) (mkScan false 0 0 false) = Some s) /\
  skips c s = false /\ forall seen, at_end_pos (scan_char seen c s) = true.
Proof.
  intros [a Ha|a Ha]; apply balanced_neutral in Ha.
  - exists (LBRACKET :: a), RBRACKET, (mkScan true 0 1 false). split_and!; try done.
    intros ws Hws. rewrite scan_all_app, (scan_blank ws _ Hws). cbn [mbind option_bind].
    rewrite scan_step by done. by apply Ha.
  - exists (LBRACE :: a), RBRACE, (mkScan true 1 0 false). split_and!; try done.
    intros ws Hws. rewrite scan_all_app, (scan_blank ws _ Hws). cbn [mbind option_bind].
    rewrite scan_step by done. by apply Ha.
Qed.

Lemma FindEndPos_complete ws t rest : blank ws -> container t -> Z.of_nat (length (ws ++ t)) < 2 ^ 31 ->
  FindEndPos (ws ++ t ++ rest) = Z.of_nat (length (ws ++ t)).
Proof.
  intros Hws (u & c & s & -> & _ & Hu & Hc & He)%container_split Hl. unfold FindEndPos.
  replace (ws ++ (u ++ [c]) ++ rest) with ((ws ++ u) ++ c :: rest) by (by rewrite <- !app_assoc).
  rewrite (find_loop_app _ _ _ _ _ (Hu ws Hws)). cbn. rewrite Hc, He, app_nil_r, length_reverse.
  rewrite !length_app in *. cbn in *.
  rewrite to_signed_wrap by (unfold in_srange; lia). lia.
Qed.

Lemma FindEndPos_partial ws t p q : blank ws -> container t -> ws ++ t = p ++ q -> q <> [] ->
  FindEndPos p = 0.
Proof.
  intros Hws (u & c & s & -> & _ & Hu & _)%container_split E Hq.
  destruct q as [|x q _] using rev_ind; [done|]. rewrite !app_assoc in E. apply app_inj_tail in E as [E _].
  specialize (Hu ws Hws). rewrite E in Hu. apply scan_all_prefix in Hu as [s' Hs'].
  by apply (find_loop_wait _ _ _ _ Hs').
Qed.

End scanning.

(** [FindEndPos] finds the end of the first JSON array or object of a stream.
    For any text whose brackets match outside of its strings, blanks before it, and
    whatever follows, the result is the length of blanks and text; for every proper
    beginning of them it is zero, which tells the caller to wait.  Quotes that are
    escaped, backslashes before a quote, and brackets inside strings do not confuse
    it. *)
Theorem FindEndPos_finds_end ws t :
  blank ws -> container t ->
  (forall rest, Z.of_nat (length (ws ++ t)) < 2 ^ 31 ->
     FindEndPos (ws ++ t ++ rest) = Z.of_nat (length (ws ++ t))) /\
  (forall p q, ws ++ t = p ++ q -> q <> [] -> FindEndPos p = 0).
Proof.
  intros Hws Ht. split; [intros rest; by apply FindEndPos_complete|].
  intros p q. by apply (FindEndPos_partial ws t).
Qed.

(** ** JSON values

    [json_value] of nlohmann: an object is a [std::map], here its entries in the
    order of their keys.  A float is its representation. *)
Inductive Json :=
  | Null
  | Boolean (b : bool)
  | Integer (z : Z)
  | Unsigned (z : Z)
  | Float (bits : Z)
  | String (s : list Z)
  | Array (l : list Json)
  | Object (m : list (list Z * Json)).

(** [std::less] on strings. *)
Fixpoint key_ltb (a b : list Z) : bool :=
  match a, b with
  | _, [] => false
  | [], _ :: _ => true
  | x :: a', y :: b' => if x =? y then key_ltb a' b' else x <? y
  end.

(** [map[k] = v] and [map.find(k)]. *)
Fixpoint map_set (k : list Z) (v : Json) (m : list (list Z * Json)) : list (list Z * Json) :=
  match m with
  | [] => [(k, v)]
  | (k', v') :: m' =>
      if decide (k = k') then (k, v) :: m'
      else if key_ltb k k' then (k, v) :: m else (k', v') :: map_set k v m'
  end.

Fixpoint map_find (k : list Z) (m : list (list Z * Json)) : option Json :=
  match m with
  | [] => None
  | (k', v) :: m' => if decide (k = k') then Some v else map_find k m'
  end.

(** An object written as a list of pairs. *)
Definition object (l : list (list Z * Json)) : Json := Object (foldl (fun m kv => map_set kv.1 kv.2 m) [] l).

(** [js[k] = v] on an object. *)
Definition set_field (js : Json) (k : list Z) (v : Json) : Json :=
  match js with Object m => Object (map_set k v m) | _ => js end.

(** [js.at(k)] where [js.contains(k)]. *)
Definition field (js : Json) (k : list Z) : option Json :=
  match js with Object m => map_find k m | _ => None end.

Definition contains (js : Json) (k : list Z) : bool := if field js k is Some _ then true else false.

(** *** The getters of [util/json.cpp] *)

Definition get_int (js : Json) : option Z :=
  match js with Integer z | Unsigned z => Some (to_signed 32 (u32 z)) | _ => None end.

Definition get_string (js : Json) : option (list Z) := match js with String s => Some s | _ => None end.

Definition GetField_int (js : Json) (k : list Z) : option Z := field js k ≫= get_int.
Definition GetField_string (js : Json) (k : list Z) : option (list Z) := field js k ≫= get_string.

(** ** Messages *)

Inductive message :=
  | Request (id : Z) (method : list Z) (js_params : Json)
  | Result (id : Z) (js_result : Json)
  | Error (id : Z) (errcode : Z) (msg : list Z).

(** What the [send] functions of [Proto] give to [sendJson]. *)
Definition sendRequest (id : Z) (method : list Z) (js_params : Json) : Json :=
  let js := object [(str "jsonrpc", String (str "2.0")); (str "method", String method)] in
  let js := if id =? 0 then js else set_field js (str "id") (Integer id) in
  match js_params with Null => js | _ => set_field js (str "params") js_params end.

Definition sendResult (id : Z) (js_result : Json) : Json :=
  object [(str "jsonrpc", String (str "2.0")); (str "id", Integer id); (str "result", js_result)].

Definition sendError (id : Z) (errcode : Z) (msg : list Z) : Json :=
  let err := object [(str "code", Integer errcode)] in
  let err := match msg with [] => err | _ => set_field err (str "message") (String msg) end in
  object [(str "jsonrpc", String (str "2.0")); (str "id", Integer id); (str "error", err)].

Definition send (m : message) : Json :=
  match m with
  | Request id method params => sendRequest id method params
  | Result id r => sendResult id r
  | Error id errcode msg => sendError id errcode msg
  end.

(** Calls of the receive callbacks. *)
Inductive received :=
  | RecvRequest (id : Z) (method : list Z) (params : Json)
  | RecvRespond (id : Z) (errcode : Z) (result : Json).

(** [onRecvJson] when [js] is an object; the callbacks are set. *)
Definition recv_object (js : Json) : list received :=
  match GetField_string js (str "jsonrpc") with
  | Some version =>
      if decide (version = str "2.0") then
        if contains js (str "method") then
          match GetField_string js (str "method") with
          | None => []
          | Some method =>
              [RecvRequest (default 0 (GetField_int js (str "id"))) method
                 (default Null (field js (str "params")))]
          end
        else match field js (str "result") with
        | Some r =>
            match GetField_int js (str "id") with
            | None => []
            | Some id => [RecvRespond id 0 r]
            end
        | None =>
            match field js (str "error") with
            | None => []
            | Some js_error =>
                match GetField_int js_error (str "code") with
                | None => []
                | Some errcode => [RecvRespond (default 0 (GetField_int js (str "id"))) errcode Null]
                end
            end
        end
      else []
  | None => []
  end.

Fixpoint onRecvJson (js : Json) : list received :=
  match js with
  | Object _ => recv_object js
  | Array l => concat (map onRecvJson l)
  | _ => []
  end.

(** What a message means to its receiver. *)
Definition meaning (m : message) : received :=
  match m with
  | Request id method params => RecvRequest id method params
  | Result id r => RecvRespond id 0 r
  | Error id errcode _ => RecvRespond id errcode Null
  end.

Definition message_ok (m : message) : Prop :=
  match m with
  | Request id _ _ | Result id _ => in_srange 32 id
  | Error id errcode _ => in_srange 32 id /\ in_srange 32 errcode
  end.

(** Reading back what was written, an integer that is not negative is unsigned. *)
Fixpoint norm (js : Json) : Json :=
  match js with
  | Integer z => if z <? 0 then Integer z else Unsigned z
  | Array l => Array (map norm l)
  | Object m => Object (map (fun kv => (kv.1, norm kv.2)) m)
  | _ => js
  end.

Definition norm_received (r : received) : received :=
  match r with
  | RecvRequest id method params => RecvRequest id method (norm params)
  | RecvRespond id errcode result => RecvRespond id errcode (norm result)
  end.

Lemma map_find_norm k m : map_find k (map (fun kv => (kv.1, norm kv.2)) m) = norm <$> map_find k m.
Proof. induction m as [|[k' v] m IH]; [done|]. cbn. by case_decide. Qed.

Lemma get_int_norm z : get_int (norm (Integer z)) = get_int (Integer z).
Proof. cbn. by destruct (z <? 0). Qed.

Lemma get_int_ok z : in_srange 32 z -> get_int (Integer z) = Some z.
Proof. intros H. cbn. by rewrite to_signed_wrap. Qed.

(** The entries of the messages in the order of their keys. *)
Lemma send_result id r : norm (send (Result id r)) =
  Object [(str "id", norm (Integer id)); (str "jsonrpc", String (str "2.0")); (str "result", norm r)].
Proof. reflexivity. Qed.

Lemma send_error id errcode msg : exists rest, norm (send (Error id errcode msg)) =
  Object [(str "error", Object ((str "code", norm (Integer errcode)) :: rest)); (str "id", norm (Integer id));
          (str "jsonrpc", String (str "2.0"))].
Proof. destruct msg as [|x msg]; [by exists []|]. by exists [(str "message", String (x :: msg))]. Qed.

Lemma send_request id method params : norm (send (Request id method params)) =
  Object ((if id =? 0 then [] else [(str "id", norm (Integer id))]) ++
          [(str "jsonrpc", String (str "2.0")); (str "method", String method)] ++
          (if params is Null then [] else [(str "params", norm params)])).
Proof. cbn [send]. unfold sendRequest. destruct (id =? 0), params; reflexivity. Qed.

Lemma send_meaning m : message_ok m -> onRecvJson (norm (send m)) = [norm_received (meaning m)].
Proof.
  destruct m as [id method params|id r|id errcode msg]; intros H.
  - rewrite send_request. pose proof (get_int_ok _ H) as Hid. rewrite <- get_int_norm in Hid.
    unfold onRecvJson, recv_object, contains, GetField_string, GetField_int, field.
    destruct (Z.eqb_spec id 0) as [->|Hz], params; cbv -[norm get_int]; try rewrite Hid; done.
  - rewrite send_result. pose proof (get_int_ok _ H) as Hid. rewrite <- get_int_norm in Hid.
    unfold onRecvJson, recv_object, contains, GetField_string, GetField_int, field.
    cbv -[norm get_int]. by rewrite Hid.
  - destruct H as [H1 H2]. destruct (send_error id errcode msg) as [rest ->].
    pose proof (get_int_ok _ H1) as Hid. rewrite <- get_int_norm in Hid.
    pose proof (get_int_ok _ H2) as Herr. rewrite <- get_int_norm in Herr.
    unfold onRecvJson, recv_object, contains, GetField_string, GetField_int, field.
    cbv -[norm get_int]. by rewrite Hid, Herr.
Qed.

(** ** Framing *)

(** What [onRecvData] returns, and the value it gives to [onRecvJson]. *)
Definition receipt : Type := Z * option Json.

Section protos.

Context (dump : Json -> option (list Z)) (parse : list Z -> option Json).

(** [Json::parse] in [CatchThrow], then [onRecvJson] and [return ret]. *)
Definition parse_text (json_text : list Z) (ret : Z) : receipt :=
  match parse json_text with
  | None => (-1, None)
  | Some js => (ret, Some js)
  end.

(** *** [RawStreamProto]; what leaves as an exception or undefined is [None] *)

Definition raw_sendJson (js : Json) : option (list Z) := dump js.

Definition raw_onRecvData (data : list Z) : option receipt :=
  if Z.of_nat (length data) <? 2 then Some (0, None)
  else
    let str_len := FindEndPos data in
    if 0 <? str_len then Some (parse_text (take (Z.to_nat str_len) data) str_len) else Some (0, None).

(** *** [PacketProto] *)

Definition packet_sendJson (js : Json) : option (list Z) := dump js.

Definition packet_onRecvData (data : list Z) : option receipt :=
  if Z.of_nat (length data) <? 2 then Some (0, None)
  else Some (parse_text data (Z.of_nat (length data))).

(** *** [HeaderStreamProto] *)

Context (header_code_ : Z).

Definition kHeadSize : Z := 6.

Definition header_sendJson (js : Json) : option (list Z) :=
  json_text ← dump js;
  '(pack, _) ← put_items (vector_serializer [] kBig)
      [IUnsigned W16 header_code_; IUnsigned W32 (u32 (Z.of_nat (length json_text))); IBlock json_text];
  Some (s_start pack).

(** The sum of [content_size] and [kHeadSize] has 32 bits; [std::string] refuses
    the null pointer of a failed [fetchNoCopy]. *)
Definition header_onRecvData (data : list Z) : option receipt :=
  let data_size := Z.of_nat (length data) in
  if data_size <? kHeadSize then Some (0, None)
  else
    '(unpack, header_magic) ← fetch_uint W16 (new_deserializer data kBig);
    '(unpack, content_size) ← fetch_uint W32 unpack;
    let content_size := default 0 content_size in
    if negb (default 0 header_magic =? header_code_) then Some (-2, None)
    else if data_size <? u32 (content_size + kHeadSize) then Some (0, None)
    else
      let '(unpack, str_ptr) := fetchNoCopy unpack content_size in
      p ← str_ptr;
      json_text ← slice data p content_size;
      Some (parse_text json_text (d_pos unpack)).

(** ** The interface *)

(** A value whose text is an array or an object that is read back as [js']. *)
Definition sent (js js' : Json) (text : list Z) : Prop :=
  dump js = Some text /\ parse text = Some js' /\ container text /\ Z.of_nat (length text) < 2 ^ 31.

(** A framing on a stream: a complete frame is taken whatever follows it, and for a
    piece of one the reader waits. *)
Class StreamProto (sendJson : Json -> option (list Z)) (onRecvData : list Z -> option receipt) := {
  sp_nonempty js js' text f : sent js js' text -> sendJson js = Some f -> f <> [];
  sp_recv js js' text f rest : sent js js' text -> sendJson js = Some f ->
    Z.of_nat (length (f ++ rest)) < 2 ^ 64 ->
    onRecvData (f ++ rest) = Some (Z.of_nat (length f), Some js');
  sp_wait js js' text f p q : sent js js' text -> sendJson js = Some f ->
    f = p ++ q -> q <> [] -> onRecvData p = Some (0, None) }.

Lemma container_length t : container t -> (2 <= length t)%nat.
Proof. intros []; cbn; rewrite length_app; cbn; lia. Qed.

#[export] Instance raw_stream : StreamProto raw_sendJson raw_onRecvData.
Proof.
  split; unfold raw_sendJson; intros js js' text f.
  - intros (E & _ & H%container_length & _) Ef ->. rewrite E in Ef. injection Ef as ->. cbn in H. lia.
  - intros rest (E & Hp & Hc & Hl) Ef _. rewrite E in Ef. injection Ef as <-. unfold raw_onRecvData.
    pose proof (container_length _ Hc). rewrite (proj2 (Z.ltb_ge _ _)) by (rewrite length_app; lia).
    pose proof (FindEndPos_complete [] text rest ltac:(constructor) Hc Hl) as HF. cbn [app] in HF. rewrite HF.
    rewrite (proj2 (Z.ltb_lt _ _)) by lia. rewrite Nat2Z.id, take_app_length. unfold parse_text. by rewrite Hp.
  - intros p q (E & Hp & Hc & Hl) Ef Hf Hq. rewrite E in Ef. injection Ef as <-. unfold raw_onRecvData.
    case_match; [done|]. by rewrite (FindEndPos_partial [] text p q ltac:(constructor) Hc Hf Hq).
Qed.

(** *** The header *)

Definition header (text : list Z) : list item := [IUnsigned W16 header_code_; IUnsigned W32 (Z.of_nat (length text))].

Lemma header_ok text : in_range 16 header_code_ -> Z.of_nat (length text) < 2 ^ 31 -> Forall item_ok (header text).
Proof.
  intros H Hl. apply Forall_cons. split; [exact H|]. apply Forall_singleton.
  change (in_range 32 (Z.of_nat (length text))). unfold in_range. lia.
Qed.

Lemma header_frame js js' text : in_range 16 header_code_ -> sent js js' text ->
  header_sendJson js = Some (items_bytes kBig (header text) ++ text).
Proof.
  intros Hcode (E & _ & _ & Hl). unfold header_sendJson. rewrite E. opt.
  rewrite (wrap_small 32) by (unfold in_range; lia).
  destruct (put_items_ok (header text ++ [IBlock text]) (vector_serializer [] kBig) [] []) as (s & Es & Hs & _).
  - by apply (new_at_end kVector).
  - apply Forall_app. split; [by apply header_ok|]. by apply Forall_singleton.
  - done.
  - cbn. lia.
  - cbn [header app] in Es. rewrite Es. opt. rewrite Hs. f_equal. cbn -[in_order le_bytes bytes_of].
    by rewrite !app_nil_r, <- app_assoc.
Qed.

Lemma header_length text : length (items_bytes kBig (header text)) = 6%nat.
Proof. done. Qed.

Lemma fetch_uint_item w v d d' : get_item d (IUnsigned w v) = Some (d', Some (IUnsigned w v)) ->
  fetch_uint w d = Some (d', Some v).
Proof. cbn. destruct (fetch_uint w d) as [[d1 [r|]]|]; cbn; intros [=]; by subst. Qed.

Lemma fetch_header text rest data : in_range 16 header_code_ -> Z.of_nat (length text) < 2 ^ 31 ->
  data = items_bytes kBig (header text) ++ rest -> Z.of_nat (length data) < 2 ^ 64 ->
  exists d1, fetch_uint W16 (new_deserializer data kBig) = Some (d1, Some header_code_) /\
    fetch_uint W32 d1 =
      Some (mkDes data (Z.of_nat (length data)) kBig 6, Some (Z.of_nat (length text))).
Proof.
  intros Hcode Hl Hd Hlen. pose proof (header_ok text Hcode Hl) as [Hok1 Hok2]%Forall_cons.
  rewrite Forall_singleton in Hok2. cbn [header items_bytes next_endian] in Hd. rewrite app_nil_r in Hd.
  eexists. split.
  - apply fetch_uint_item. rewrite (get_item_ok _ _ [] (item_bytes kBig (IUnsigned W32 (Z.of_nat (length text))) ++ rest));
      [reflexivity|by rewrite app_assoc|done..].
  - apply fetch_uint_item. rewrite (get_item_ok _ _ (item_bytes kBig (IUnsigned W16 header_code_)) rest);
      [reflexivity|by rewrite app_assoc|done..].
Qed.

Lemma header_wait js js' text p q : in_range 16 header_code_ -> sent js js' text ->
  items_bytes kBig (header text) ++ text = p ++ q -> q <> [] -> header_onRecvData p = Some (0, None).
Proof.
  intros Hcode (_ & _ & _ & Hl) E Hq. unfold header_onRecvData, kHeadSize.
  assert (0 < length q)%nat by (destruct q; [done|cbn; lia]).
  pose proof (f_equal length E) as Hlen. rewrite !length_app, header_length in Hlen.
  destruct (Z.ltb_spec (Z.of_nat (length p)) 6) as [|H6]; [done|].
  assert (p = items_bytes kBig (header text) ++ drop 6 p) as Hp.
  { rewrite <- (take_drop 6 p) at 1. f_equal. rewrite <- (take_app_length' (items_bytes kBig (header text)) text 6) by done.
    by rewrite E, take_app_le by lia. }
  destruct (fetch_header text (drop 6 p) p) as (d1 & E1 & E2); [done..|lia|].
  rewrite E1. opt. rewrite E2. opt. cbn [from_option id]. rewrite Z.eqb_refl. cbn [negb].
  rewrite (wrap_small 32) by (unfold in_range; lia). by rewrite (proj2 (Z.ltb_lt _ _)) by lia.
Qed.

Lemma header_recv js js' text rest : in_range 16 header_code_ -> sent js js' text ->
  let f := items_bytes kBig (header text) ++ text in
  Z.of_nat (length (f ++ rest)) < 2 ^ 64 ->
  header_onRecvData (f ++ rest) = Some (Z.of_nat (length f), Some js').
Proof.
  intros Hcode (_ & Hp & _ & Hl) f Hlen. unfold header_onRecvData, kHeadSize.
  assert (length f = 6 + length text)%nat as Hf by (unfold f; by rewrite length_app, header_length).
  rewrite (proj2 (Z.ltb_ge _ _)) by (rewrite length_app; lia).
  destruct (fetch_header text (text ++ rest) (f ++ rest)) as (d1 & E1 & E2); [done..|unfold f; by rewrite app_assoc|done|].
  rewrite E1. opt. rewrite E2. opt. cbn [from_option id]. rewrite Z.eqb_refl. cbn [negb].
  rewrite (wrap_small 32) by (unfold in_range; lia). rewrite (proj2 (Z.ltb_ge _ _)) by (rewrite length_app; lia).
  unfold fetchNoCopy, checkSize. cbn [d_pos d_size].
  rewrite (wrap_small 64) by (unfold in_range; lia).
  rewrite (proj2 (Z.leb_le _ _)) by (rewrite length_app; lia). cbn [d_pos des_done]. opt.
  unfold f. rewrite <- app_assoc, slice_app by done. opt. unfold parse_text. rewrite Hp.
  rewrite (wrap_small 64) by (unfold in_range; lia). do 2 f_equal.
  fold f. rewrite Hf. f_equal. lia.
Qed.

Definition header_stream (Hcode : in_range 16 header_code_) : StreamProto header_sendJson header_onRecvData.
Proof.
  split; intros js js' text f.
  - intros Hs. rewrite (header_frame js js' text) by done. intros E%Some_inj <-%eq_sym. apply (f_equal length) in E.
    by rewrite length_app, header_length in E.
  - intros rest Hs. rewrite (header_frame js js' text) by done. intros <-%Some_inj. by apply (header_recv js).
  - intros p q Hs. rewrite (header_frame js js' text) by done. intros <-%Some_inj. by apply (header_wait js js').
Qed.

(** ** A reader

    The loop around [onRecvData] in the receive callback of the transport (as in
    [examples/jsonrpc/req_rsp/ping/ping.cpp]): it takes values from the front of the
    buffer while they are complete.  [None] is an error. *)
Section reader.

Context (onRecvData : list Z -> option receipt).

Fixpoint drain (fuel : nat) (buff : list Z) : option (list Json * list Z) :=
  match fuel, buff with
  | O, _ => None
  | _, [] => Some ([], [])
  | S fuel', _ =>
      '(ret, js) ← onRecvData buff;
      if 0 <? ret then
        '(l, b) ← drain fuel' (drop (Z.to_nat ret) buff); Some (option_list js ++ l, b)
      else if ret <? 0 then None
      else Some ([], buff)
  end.

(** The pieces arrive one after the other. *)
Fixpoint receive (buff : list Z) (pieces : list (list Z)) : option (list Json * list Z) :=
  match pieces with
  | [] => Some ([], buff)
  | c :: pieces' =>
      '(l, b) ← drain (S (length (buff ++ c))) (buff ++ c);
      '(l', b') ← receive b pieces';
      Some (l ++ l', b')
  end.

Context (sendJson : Json -> option (list Z)) {SP : StreamProto sendJson onRecvData}.

(** [f] is the frame of a value that is read as [js']. *)
Definition frame (js' : Json) (f : list Z) : Prop :=
  exists js text, sent js js' text /\ sendJson js = Some f.

(** What the reader waits with: nothing, or the beginning of a frame. *)
Definition waiting (p : list Z) : Prop := p = [] \/ exists js' f q, frame js' f /\ f = p ++ q /\ q <> [].

Lemma drain_frames fs jss p fuel : Forall2 frame jss fs -> waiting p ->
  Z.of_nat (length (concat fs ++ p)) < 2 ^ 64 -> (length (concat fs) < fuel)%nat ->
  drain fuel (concat fs ++ p) = Some (jss, p).
Proof.
  intros H Hp. revert fuel. induction H as [|js' f jss fs (js & text & Hs & Hf) _ IH]; intros fuel Hl Hfuel.
  - cbn in *. destruct fuel as [|fuel]; [lia|]. destruct Hp as [->|(js' & f & q & (js & text & Hs & Hf) & E & Hq)]; [done|].
    cbn. destruct p as [|x p]; [done|]. rewrite (sp_wait _ _ _ _ _ _ Hs Hf E Hq). done.
  - pose proof (sp_nonempty _ _ _ _ Hs Hf) as Hne. cbn [concat] in *. rewrite <- app_assoc in *.
    destruct fuel as [|fuel]; [lia|]. rewrite length_app in Hfuel.
    assert (0 < length f)%nat by (destruct f; [done|cbn; lia]).
    cbn [drain]. destruct (f ++ concat fs ++ p) as [|x b] eqn:E; [by apply app_nil in E as [-> _]|].
    rewrite <- E in *. rewrite (sp_recv _ _ _ _ _ Hs Hf Hl). opt.
    rewrite (proj2 (Z.ltb_lt _ _)) by lia. rewrite Nat2Z.id, drop_app_length.
    rewrite IH; [done| |lia]. rewrite length_app in Hl. lia.
Qed.

(** A piece of the stream ends in some frame. *)
Lemma cut_stream x y fs jss p : Forall2 frame jss fs -> waiting p -> x ++ y = concat fs ++ p ->
  exists fs1 fs2 jss1 jss2 p1, fs = fs1 ++ fs2 /\ jss = jss1 ++ jss2 /\
    Forall2 frame jss1 fs1 /\ Forall2 frame jss2 fs2 /\ waiting p1 /\
    x = concat fs1 ++ p1 /\ p1 ++ y = concat fs2 ++ p.
Proof.
  intros H Hp. revert x. induction H as [|js' f jss fs Hf Hfs IH]; intros x E.
  - exists [], [], [], [], x. cbn in *. split_and!; try done.
    destruct Hp as [->|(js' & f & q & Hf & Ef & Hq)]; [left; by apply app_nil in E as [-> _]|].
    right. exists js', f, (y ++ q). split_and!; [done|by rewrite app_assoc, E|].
    by intros [_ ->]%app_nil.
  - cbn in E. rewrite <- app_assoc in E. apply app_eq_app in E as [l [[-> E]|[-> E]]].
    + destruct (IH l (eq_sym E)) as (fs1 & fs2 & jss1 & jss2 & p1 & -> & -> & H1 & H2 & H3 & -> & H4).
      exists (f :: fs1), fs2, (js' :: jss1), jss2, p1. cbn. rewrite <- app_assoc.
      split_and!; try done. by constructor.
    + destruct l as [|c l].
      * exists [x], fs, [js'], jss, []. cbn in *. rewrite !app_nil_r in *. split_and!; try done.
        -- by repeat constructor.
        -- by left.
      * exists [], ((x ++ c :: l) :: fs), [], (js' :: jss), x. cbn. split_and!; try done.
        -- by constructor.
        -- right. by exists js', (x ++ c :: l), (c :: l).
        -- by rewrite E, <- !app_assoc.
Qed.

(** No frame is the beginning of another one. *)
Lemma waiting_no_frame fs jss p : Forall2 frame jss fs -> waiting (concat fs ++ p) ->
  Z.of_nat (length (concat fs ++ p)) < 2 ^ 64 -> fs = [] /\ jss = [].
Proof.
  intros [|js' f jss' fs' (js & text & Hs & Hf) _] Hw Hl; [done|]. cbn [concat] in *.
  rewrite <- app_assoc in *. destruct Hw as [[Hn _]%app_nil|(js2 & f2 & q & (js3 & text2 & Hs2 & Hf2) & E & Hq)].
  - by destruct (sp_nonempty _ _ _ _ Hs Hf).
  - pose proof (sp_wait _ _ _ _ _ _ Hs2 Hf2 E Hq) as H1. by rewrite (sp_recv _ _ _ _ _ Hs Hf Hl) in H1.
Qed.

Lemma receive_frames pieces : forall buff fs jss p, Forall2 frame jss fs -> waiting p ->
  buff ++ concat pieces = concat fs ++ p -> waiting buff -> Z.of_nat (length (concat fs ++ p)) < 2 ^ 64 ->
  receive buff pieces = Some (jss, p).
Proof.
  induction pieces as [|c pieces IH]; intros buff fs jss p H Hp E Hb Hl; cbn [concat receive] in *.
  - rewrite app_nil_r in E. subst buff. by destruct (waiting_no_frame fs jss p H Hb Hl) as [-> ->].
  - rewrite app_assoc in E. pose proof (f_equal length E) as Hlen. rewrite length_app in Hlen.
    destruct (cut_stream _ _ _ _ _ H Hp E) as (fs1 & fs2 & jss1 & jss2 & p1 & -> & -> & H1 & H2 & H3 & Ex & E2).
    rewrite Ex in *. rewrite (drain_frames fs1 jss1 p1); [|done..|lia|rewrite length_app; lia]. opt.
    rewrite (IH p1 fs2 jss2 p); [done..|]. rewrite <- E2. rewrite !length_app in *. lia.
Qed.

End reader.

End protos.

(** C7: A peer receives the messages that are sent, whatever way the transport cuts
    the stream.  For a framing that implements [StreamProto] (raw texts, whose end
    [FindEndPos] finds, and texts behind a header do), let the requests,
    notifications, results and errors be sent one after the other, and a last one of
    which only a part [p] has arrived; the stream comes in any pieces.  Then the
    reader delivers exactly these messages, in order, with their numbers, methods,
    parameters, results and error codes, and keeps [p].  The library must read back
    the texts it writes. *)
Theorem messages_arrive (dump : Json -> option (list Z)) (parse : list Z -> option Json)
    sendJson onRecvData {SP : StreamProto dump parse sendJson onRecvData}
    (ms : list message) (fs : list (list Z)) (p : list Z) (pieces : list (list Z)) :
  Forall message_ok ms ->
  Forall2 (fun m f => sendJson (send m) = Some f /\ exists text, sent dump parse (send m) (norm (send m)) text) ms fs ->
  waiting dump parse sendJson p ->
  concat pieces = concat fs ++ p -> Z.of_nat (length (concat pieces)) < 2 ^ 64 ->
  exists jss, receive onRecvData [] pieces = Some (jss, p) /\
    concat (map onRecvJson jss) = map (fun m => norm_received (meaning m)) ms.
Proof.
  intros Hok Hfs Hp E Hl. exists (map (fun m => norm (send m)) ms). split.
  - eapply receive_frames; [exact SP| |exact Hp|exact E|by left|by rewrite <- E].
    clear - Hfs. induction Hfs as [|m f ms fs (H & text & Hs) _ IH]; [constructor|].
    cbn. constructor; [by exists (send m), text|done].
  - clear - Hok. induction Hok as [|m ms H _ IH]; [done|]. cbn. by rewrite send_meaning, IH.
Qed.

(** *** Two messages in three pieces *)

Definition a_message : message := Request 7 (str "add") (String (str "]")).
Definition a_text : list Z := json "{'id':7,'jsonrpc':'2.0','method':'add','params':']'}".
Definition a_dump (js : Json) : option (list Z) := Some a_text.
Definition a_parse (text : list Z) : option Json := if decide (text = a_text) then Some (norm (send a_message)) else None.

(** Splits a literal text into strings and other characters. *)
Ltac upto c l k :=
  lazymatch l with
  | c :: ?r => k (@nil Z) r
  | ?x :: ?r => upto c r ltac:(fun a s => k constr:(x :: a) s)
  end.
Ltac balance :=
  repeat first
    [ apply bal_nil
    | apply bal_char; [unfold structural; lia|]
    | lazymatch goal with |- balanced (34 :: ?l) =>
        upto 34 l ltac:(fun b s => apply (bal_string b s); [repeat (apply body_char; [lia..|]); apply body_nil|])
      end ].

Lemma a_container : container a_text.
Proof.
  change (container (LBRACE :: json "'id':7,'jsonrpc':'2.0','method':'add','params':']'" ++ [RBRACE])).
  apply object_text. vm_compute. balance.
Qed.

Lemma FindEndPos_finds_end_witness :
  FindEndPos (32 :: a_text ++ [10]) = 53 /\ FindEndPos (32 :: take 51 a_text) = 0.
Proof.
  destruct (FindEndPos_finds_end [32] a_text) as [H1 H2]; [by constructor|apply a_container|].
  split; [exact (H1 [10] eq_refl)|exact (H2 (32 :: take 51 a_text) (drop 51 a_text) eq_refl ltac:(done))].
Defined.

Lemma messages_arrive_witness : exists jss,
  receive (header_onRecvData a_parse 0x3e5a) [] 
    [[0x3e]; [0x5a; 0; 0; 0; 52] ++ a_text ++ [0x3e; 0x5a; 0; 0]; [0; 52] ++ a_text; [0x3e]] = Some (jss, [0x3e]) /\
  concat (map onRecvJson jss) =
    [RecvRequest 7 (str "add") (String (str "]")); RecvRequest 7 (str "add") (String (str "]"))].
Proof.
  assert (in_range 16 0x3e5a) as Hcode by (unfold in_range; lia).
  assert (sent a_dump a_parse (send a_message) (norm (send a_message)) a_text) as Hs
    by (split_and!; [done|done|apply a_container|done]).
  set (f := [0x3e; 0x5a; 0; 0; 0; 52] ++ a_text).
  assert (header_sendJson a_dump 0x3e5a (send a_message) = Some f) as Hf by (vm_compute; reflexivity).
  destruct (messages_arrive a_dump a_parse _ _ (SP := header_stream a_dump a_parse 0x3e5a Hcode)
    [a_message; a_message] [f; f] [0x3e]
    [[0x3e]; [0x5a; 0; 0; 0; 52] ++ a_text ++ [0x3e; 0x5a; 0; 0]; [0; 52] ++ a_text; [0x3e]]) as (jss & H1 & H2).
  - repeat constructor; done.
  - repeat constructor; eauto.
  - right. exists (norm (send a_message)), f, (tail f). split_and!; [by exists (send a_message), a_text|done|done].
  - vm_compute. reflexivity.
  - vm_compute. reflexivity.
  - exists jss. split; [exact H1|]. rewrite H2. reflexivity.
Defined.

(** *** Where the framing breaks *)

(** A length that is close to 2^32 wraps: the frame looks complete, and a string is
    made of the null pointer. *)
Example header_length_wraps : forall parse, header_onRecvData parse 0x3e5a [0x3e; 0x5a; 0xff; 0xff; 0xff; 0xfa] = None.
Proof. reflexivity. Qed.

(** [FindEndPos] says that a closing bracket alone is wrong; the reader waits for
    ever all the same. *)
Example unbalanced_text_waits : forall parse,
  FindEndPos (str "]}") = -1 /\ raw_onRecvData parse (str "]}") = Some (0, None).
Proof. done. Qed.

(** An [id] beyond 32 bits is cut: here a request becomes a notification. *)
Example large_id_is_cut :
  onRecvJson (object [(str "jsonrpc", String (str "2.0")); (str "method", String (str "m")); (str "id", Unsigned (2 ^ 32))]) =
  [RecvRequest 0 (str "m") Null].
Proof. vm_compute. reflexivity. Qed.
