(* ===== verification/Rpc.v ===== *)
(** * Requests and responds of JSON-RPC

    Models [modules/jsonrpc/rpc.cpp]: the numbers of requests, their callbacks, the
    services, and the timeouts in two monitors ([Monitor.v]).  The callbacks of a
    user are programs of calls that may depend on all that happened before. *)
From S2P Require Import Prelude Monitor Jsonrpc.

Definition kMethodNotFound : Z := -32601.
Definition kRequestTimeout : Z := -32000.

(** The calls of a user; [notify] is a request without a callback.  The three
    forms of [respond] are apart. *)
Inductive call :=
  | CRequest (method : list Z) (js_params : Json) (cb : option nat)
  | CRespond (id : Z) (errcode : Z) (js_result : Json)
  | CRespondResult (id : Z) (js_result : Json)
  | CRespondError (id : Z) (errcode : Z)
  | CCleanup.

(** What a service returns: whether the respond is at once, and which. *)
Definition answer : Type := bool * Z * Json.

(** What happens to an [Rpc], in order: calls of the user, a new number, what the
    peer sends, what services return, and the timer of the requests. *)
Inductive event :=
  | Did (c : call)
  | Asked (id : Z) (method : list Z) (js_params : Json) (cb : nat)
  | Registered (method : list Z) (cb : option nat)
  | Got (r : received)
  | Returned (id : Z) (a : answer)
  | Tick
  | Expired (id : Z).

(** What it does: messages to the peer and calls of the user's callbacks. *)
Inductive output :=
  | Sent (m : message)
  | Called (id : Z) (cb : nat) (errcode : Z) (js_result : Json)
  | Served (cb : nat) (id : Z) (js_params : Json).

(** Null functions in the maps are [None].  [rehashes_] counts how often the hash table
    of [request_callback_] has rehashed, which ends the validity of its iterators. *)
Record rpc := mkRpc {
  proto_ : bool;
  method_services_ : gmap (list Z) (option nat);
  id_alloc_ : Z;
  request_callback_ : gmap Z (option nat);
  rehashes_ : nat;
  tobe_respond_ : gset Z;
  request_timeout_ : monitor Z;
  respond_timeout_ : monitor Z;
  log : list event;
  out : list output }.

(** The constructor sets the callbacks of the monitors. *)
Definition new_rpc : rpc :=
  let m := mkMonitor [] None 0 true 0 false in mkRpc false ∅ 0 ∅ 0 ∅ m m [] [].

Definition set_proto (b : bool) (w : rpc) : rpc :=
  mkRpc b (method_services_ w) (id_alloc_ w) (request_callback_ w) (rehashes_ w) (tobe_respond_ w)
    (request_timeout_ w) (respond_timeout_ w) (log w) (out w).
Definition set_services (s : gmap (list Z) (option nat)) (w : rpc) : rpc :=
  mkRpc (proto_ w) s (id_alloc_ w) (request_callback_ w) (rehashes_ w) (tobe_respond_ w)
    (request_timeout_ w) (respond_timeout_ w) (log w) (out w).
Definition set_alloc (i : Z) (w : rpc) : rpc :=
  mkRpc (proto_ w) (method_services_ w) i (request_callback_ w) (rehashes_ w) (tobe_respond_ w)
    (request_timeout_ w) (respond_timeout_ w) (log w) (out w).
Definition set_callbacks (c : gmap Z (option nat)) (w : rpc) : rpc :=
  mkRpc (proto_ w) (method_services_ w) (id_alloc_ w) c (rehashes_ w) (tobe_respond_ w)
    (request_timeout_ w) (respond_timeout_ w) (log w) (out w).
Definition set_tobe (t : gset Z) (w : rpc) : rpc :=
  mkRpc (proto_ w) (method_services_ w) (id_alloc_ w) (request_callback_ w) (rehashes_ w) t
    (request_timeout_ w) (respond_timeout_ w) (log w) (out w).
Definition add_rehash (w : rpc) : rpc :=
  mkRpc (proto_ w) (method_services_ w) (id_alloc_ w) (request_callback_ w) (S (rehashes_ w)) (tobe_respond_ w)
    (request_timeout_ w) (respond_timeout_ w) (log w) (out w).
Definition add_event (e : event) (w : rpc) : rpc :=
  mkRpc (proto_ w) (method_services_ w) (id_alloc_ w) (request_callback_ w) (rehashes_ w) (tobe_respond_ w)
    (request_timeout_ w) (respond_timeout_ w) (log w ++ [e]) (out w).
Definition add_output (o : output) (w : rpc) : rpc :=
  mkRpc (proto_ w) (method_services_ w) (id_alloc_ w) (request_callback_ w) (rehashes_ w) (tobe_respond_ w)
    (request_timeout_ w) (respond_timeout_ w) (log w) (out w ++ [o]).

(** The two monitors. *)
Definition req_mon : HasMonitor rpc Z := {|
  get_mon := request_timeout_;
  put_mon m w := mkRpc (proto_ w) (method_services_ w) (id_alloc_ w) (request_callback_ w) (rehashes_ w) (tobe_respond_ w)
    m (respond_timeout_ w) (log w) (out w);
  get_put_mon m w := eq_refl;
  put_put_mon m m' w := eq_refl |}.

Definition rsp_mon : HasMonitor rpc Z := {|
  get_mon := respond_timeout_;
  put_mon m w := mkRpc (proto_ w) (method_services_ w) (id_alloc_ w) (request_callback_ w) (rehashes_ w) (tobe_respond_ w)
    (request_timeout_ w) m (log w) (out w);
  get_put_mon m w := eq_refl;
  put_put_mon m m' w := eq_refl |}.

Definition MR := M rpc.
Definition note (e : event) : MR () := modify (add_event e).
Definition emit (o : output) : MR () := modify (add_output o).

(** ** Operations *)

Section operations.

(** Whether the table of [request_callback_] rehashes when the next request is put into
    it: the standard leaves this to the implementation, which sees the history of the
    table at most. *)
Context (grows : list event -> bool).
Context (reply : nat -> list event -> Z -> Json -> list call).
Context (service : nat -> list event -> Z -> Json -> list call * answer).

Definition initialize (timeout_sec : Z) : MR bool :=
  Monitor.initialize (HM := req_mon) timeout_sec;;
  Monitor.initialize (HM := rsp_mon) timeout_sec;;
  modify (set_proto true);;
  mret true.

Definition cleanup : MR () :=
  Monitor.cleanup (HM := rsp_mon);;
  Monitor.cleanup (HM := req_mon);;
  modify (set_tobe ∅);;
  modify (set_callbacks ∅);;
  modify (set_services ∅);;
  w ← get;
  if proto_ w then modify (set_proto false) else stuck.

(** [proto_->send...]. *)
Definition send (m : message) : MR () :=
  w ← get; if proto_ w then emit (Sent m) else stuck.

(** [request_callback_[id] = cb] *)
Definition insert_callback (id : Z) (cb : nat) : MR () :=
  w ← get;
  modify (set_callbacks (<[id := Some cb]> (request_callback_ w)));;
  if grows (log w) then modify add_rehash else mret ().

(** [id = ++id_alloc_] and the two lines after it. *)
Definition new_id (method : list Z) (js_params : Json) (cb : nat) : MR Z :=
  w ← get;
  let id := id_alloc_ w + 1 in
  if INT_MAX <? id then stuck
  else
    modify (set_alloc id);;
    insert_callback id cb;;
    add (HM := req_mon) id;;
    note (Asked id method js_params cb);;
    mret id.

Definition request (method : list Z) (js_params : Json) (cb : option nat) : MR () :=
  id ← (match cb with Some f => new_id method js_params f | None => mret 0 end);
  send (Request id method js_params).

Definition addService (method : list Z) (cb : option nat) : MR () :=
  w ← get; modify (set_services (<[method := cb]> (method_services_ w)));; note (Registered method cb).

Definition erase_tobe (id : Z) : MR () := w ← get; modify (set_tobe (tobe_respond_ w ∖ {[id]})).

Definition respond_message (id errcode : Z) (js_result : Json) : message :=
  if errcode =? 0 then Result id js_result else Error id errcode [].

Definition respond_with (id : Z) (m : message) : MR () :=
  if id =? 0 then mret () else send m;; erase_tobe id.

Definition respond (id errcode : Z) (js_result : Json) : MR () :=
  respond_with id (respond_message id errcode js_result).

Definition do_call (c : call) : MR () :=
  note (Did c);;
  match c with
  | CRequest method js_params cb => request method js_params cb
  | CRespond id errcode js_result => respond id errcode js_result
  | CRespondResult id js_result => respond_with id (Result id js_result)
  | CRespondError id errcode => respond_with id (Error id errcode [])
  | CCleanup => cleanup
  end.

Fixpoint do_calls (l : list call) : MR () :=
  match l with [] => mret () | c :: l' => do_call c;; do_calls l' end.

(** [iter->second(id, js_params, errcode, js_result)] of a service. *)
Definition serve (f : nat) (id : Z) (js_params : Json) : MR answer :=
  emit (Served f id js_params);;
  w ← get;
  do_calls (service f (log w) id js_params).1;;
  note (Returned id (service f (log w) id js_params).2);;
  mret (service f (log w) id js_params).2.

Definition onRecvRequest (id : Z) (method : list Z) (js_params : Json) : MR () :=
  w ← get;
  match method_services_ w !! method with
  | Some (Some f) =>
      if id =? 0 then serve f id js_params;; mret ()
      else
        modify (set_tobe (tobe_respond_ w ∪ {[id]}));;
        '(sync, errcode, js_result) ← serve f id js_params;
        if sync : bool then respond id errcode js_result else add (HM := rsp_mon) id
  | _ => send (Error id kMethodNotFound [])
  end.

(** [if (iter->second) iter->second(errcode, js_result); request_callback_.erase(iter);]
    The iterator is gone when the callback has erased its entry, and no longer valid when
    the table has rehashed. *)
Definition call_back (id : Z) (errcode : Z) (js_result : Json) : MR () :=
  w ← get;
  match request_callback_ w !! id with
  | None => mret ()
  | Some second =>
      match second with
      | Some f => emit (Called id f errcode js_result);; do_calls (reply f (log w) errcode js_result)
      | None => mret ()
      end;;
      w' ← get;
      match request_callback_ w' !! id with
      | None => stuck
      | Some _ => if Nat.eqb (rehashes_ w') (rehashes_ w) then modify (set_callbacks (delete id (request_callback_ w'))) else stuck
      end
  end.

Definition onRecvRespond (id errcode : Z) (js_result : Json) : MR () := call_back id errcode js_result.

Definition onRequestTimeout (id : Z) : MR () := note (Expired id);; call_back id kRequestTimeout Null.

Definition onRespondTimeout (id : Z) : MR () := erase_tobe id.

(** ** Runs *)

Inductive op := Call (c : call) | AddService (method : list Z) (cb : option nat) | Recv (r : received)
  | RequestTick | RespondTick.

Definition exec (o : op) : MR () :=
  match o with
  | Call c => do_call c
  | AddService method cb => addService method cb
  | Recv r =>
      note (Got r);;
      match r with
      | RecvRequest id method params => onRecvRequest id method params
      | RecvRespond id errcode result => onRecvRespond id errcode result
      end
  | RequestTick => note Tick;; onTimerTick (HM := req_mon) onRequestTimeout
  | RespondTick => onTimerTick (HM := rsp_mon) onRespondTimeout
  end.

Fixpoint run (l : list op) : MR () :=
  match l with [] => mret () | o :: l' => exec o;; run l' end.

(** ** What an [Rpc] promises

    The pending requests, the services and the outputs as functions of what has
    happened. *)

Definition pend_step (p : gmap Z nat) (e : event) : gmap Z nat :=
  match e with
  | Asked id _ _ cb => <[id := cb]> p
  | Got (RecvRespond id _ _) | Expired id => delete id p
  | _ => p
  end.
Definition pend (l : list event) : gmap Z nat := foldl pend_step ∅ l.

Definition services_step (p : gmap (list Z) (option nat)) (e : event) : gmap (list Z) (option nat) :=
  match e with Registered method cb => <[method := cb]> p | _ => p end.
Definition services (l : list event) : gmap (list Z) (option nat) := foldl services_step ∅ l.

Definition respond_output (id : Z) (m : message) : list output := if id =? 0 then [] else [Sent m].

Definition called (before : list event) (id errcode : Z) (r : Json) : list output :=
  match pend before !! id with Some cb => [Called id cb errcode r] | None => [] end.

(** The output that an event causes, at once. *)
Definition effect (before : list event) (e : event) : list output :=
  match e with
  | Did (CRequest method params None) => [Sent (Request 0 method params)]
  | Did (CRespond id errcode r) => respond_output id (respond_message id errcode r)
  | Did (CRespondResult id r) => respond_output id (Result id r)
  | Did (CRespondError id errcode) => respond_output id (Error id errcode [])
  | Asked id method params _ => [Sent (Request id method params)]
  | Got (RecvRequest id method params) =>
      match services before !! method with
      | Some (Some f) => [Served f id params]
      | _ => [Sent (Error id kMethodNotFound [])]
      end
  | Got (RecvRespond id errcode r) => called before id errcode r
  | Returned id (sync, errcode, r) => if sync : bool then respond_output id (respond_message id errcode r) else []
  | Expired id => called before id kRequestTimeout Null
  | Did _ | Registered _ _ | Tick => []
  end.

Fixpoint effects_from (before l : list event) : list output :=
  match l with [] => [] | e :: l' => effect before e ++ effects_from (before ++ [e]) l' end.
Definition effects (l : list event) : list output := effects_from [] l.

(** What the monitor of the requests sees. *)
Definition timed (e : event) : option (tevent Z) :=
  match e with
  | Asked id _ _ _ => Some (Added id)
  | Tick => Some Ticked
  | Expired id => Some (Fired id)
  | _ => None
  end.
Definition times (l : list event) : list (tevent Z) := omap timed l.

Definition asks (e : event) : bool := match e with Asked _ _ _ _ => true | _ => false end.
Definition asked (l : list event) : Z := Z.of_nat (length (filter (fun e => asks e = true) l)).

(** Numbers are new, and requests expire in time. *)
Definition event_ok (n : nat) (before : list event) (e : event) : Prop :=
  match e with
  | Asked id _ _ _ => id = asked before + 1
  | Expired id => timely n id (times before)
  | _ => True
  end.
Definition explained (n : nat) (l : list event) : Prop :=
  forall before e after, l = before ++ e :: after -> event_ok n before e.

(** How often the callback of a request has been called. *)
Definition is_called (id : Z) (o : output) : bool := match o with Called id' _ _ _ => id =? id' | _ => false end.
Definition times_called (id : Z) (l : list output) : nat := length (filter (fun o => is_called id o = true) l).

End operations.

(** ** The invariant *)

Section proofs.

Context (grows : list event -> bool).
Context (reply : nat -> list event -> Z -> Json -> list call).
Context (service : nat -> list event -> Z -> Json -> list call * answer).

Section snoc.
Context (lg : list event) (e : event).
Lemma pend_snoc : pend (lg ++ [e]) = pend_step (pend lg) e.
Proof. unfold pend. by rewrite foldl_app. Qed.
Lemma services_snoc : services (lg ++ [e]) = services_step (services lg) e.
Proof. unfold services. by rewrite foldl_app. Qed.
Lemma rpc_times_snoc : times (lg ++ [e]) = times lg ++ option_list (timed e).
Proof. unfold times. rewrite omap_app. cbn. by destruct (timed e). Qed.
Lemma asked_snoc : asked (lg ++ [e]) = asked lg + (if asks e then 1 else 0).
Proof.
  unfold asked. rewrite filter_app, length_app, filter_cons, filter_nil.
  case_decide as E; [rewrite E|destruct (asks e); [done|]]; cbn; lia.
Qed.
Lemma effects_snoc : effects (lg ++ [e]) = effects lg ++ effect lg e.
Proof.
  unfold effects. assert (forall before, effects_from before (lg ++ [e]) = effects_from before lg ++ effect (before ++ lg) e) as H.
  { induction lg as [|x l IH]; intros before; cbn; [by rewrite !app_nil_r|].
    rewrite IH, <- !app_assoc. done. }
  apply H.
Qed.
Lemma rpc_explained_snoc n : explained n lg -> event_ok n lg e -> explained n (lg ++ [e]).
Proof.
  intros H He before x after E. destruct after as [|y after _] using rev_ind.
  - apply app_inj_tail in E as [-> ->]. done.
  - rewrite app_comm_cons, app_assoc in E. apply app_inj_tail in E as [-> ->]. by apply (H _ _ after).
Qed.
End snoc.

Lemma times_called_app id a b : times_called id (a ++ b) = (times_called id a + times_called id b)%nat.
Proof. unfold times_called. by rewrite filter_app, length_app. Qed.

Lemma times_called_one i id f errcode res : times_called i [Called id f errcode res] = if i =? id then 1%nat else 0%nat.
Proof.
  unfold times_called. rewrite filter_cons, filter_nil. cbn [is_called].
  destruct (i =? id); [by rewrite decide_True|by rewrite decide_False].
Qed.

(** [l] are the values of a tick that are still to be handled, [r] is the callback
    that runs: its entry is still in the map. *)
Record inv (n : nat) (l : list Z) (r : option (Z * nat)) (w : rpc) : Prop := {
  v_proto : proto_ w = true;
  v_services : method_services_ w = services (log w);
  v_alloc : id_alloc_ w = asked (log w);
  v_callbacks : request_callback_ w =
    match r with Some (id, f) => <[id := Some f]> (Some <$> pend (log w)) | None => Some <$> pend (log w) end;
  v_running : match r with Some (id, _) => pend (log w) !! id = None /\ id <= asked (log w) | None => True end;
  v_out : out w = effects (log w);
  v_tracks : tracks n l (request_timeout_ w) (times (log w));
  v_respond : ring_ok n (respond_timeout_ w) /\ cb_ (respond_timeout_ w) = true;
  v_added id : added id (times (log w)) <-> 1 <= id <= asked (log w);
  v_pend id : is_Some (pend (log w) !! id) -> added id (times (log w)) /\ ~ fired id (times (log w));
  v_called id : times_called id (out w) =
    if bool_decide (1 <= id <= asked (log w)) then if pend (log w) !! id is Some _ then 0%nat else 1%nat else 0%nat;
  v_explained : explained n (log w) }.

(** An event that changes nothing of this, with what it causes. *)
Definition plain (e : event) : Prop :=
  match e with Did _ | Returned _ _ | Got (RecvRequest _ _ _) => True | _ => False end.

Definition with_event (e : event) (t : gset Z) (w : rpc) : rpc :=
  mkRpc (proto_ w) (method_services_ w) (id_alloc_ w) (request_callback_ w) (rehashes_ w) t
    (request_timeout_ w) (respond_timeout_ w) (log w ++ [e]) (out w ++ effect (log w) e).

Lemma plain_silent lg e id : plain e -> times_called id (effect lg e) = O.
Proof.
  unfold respond_output. destruct e as [[| | | |]| | |[|]|? [[[] ?] ?]| |]; try done; intros _; cbn;
    unfold respond_output; repeat case_match; done.
Qed.

Lemma inv_plain n l r w e t : inv n l r w -> plain e -> inv n l r (with_event e t w).
Proof.
  intros [] He.
  assert (pend (log w ++ [e]) = pend (log w)) as Ep
    by (rewrite pend_snoc; destruct e as [| | |[|]| | |]; done).
  assert (services (log w ++ [e]) = services (log w)) as Es
    by (rewrite services_snoc; destruct e as [| | |[|]| | |]; done).
  assert (times (log w ++ [e]) = times (log w)) as Et
    by (rewrite rpc_times_snoc; destruct e as [| | |[|]| | |]; try done; apply app_nil_r).
  assert (asked (log w ++ [e]) = asked (log w)) as Ea
    by (rewrite asked_snoc; destruct e as [| | |[|]| | |]; try done; cbn; lia).
  unfold with_event.
  split; cbn [proto_ method_services_ id_alloc_ request_callback_ request_timeout_ respond_timeout_ log out];
    rewrite ?Ep, ?Es, ?Et, ?Ea; auto.
  - by rewrite effects_snoc, v_out0.
  - intros id. rewrite times_called_app, (plain_silent _ _ _ He), Nat.add_0_r. auto.
  - apply rpc_explained_snoc; [done|]. by destruct e as [| | |[|]| | |].
Qed.

Ltac run := unfold note, emit, get, put, modify, the, mbind, M_bind; cbn.

(** *** Calls *)

Definition call_legal (c : call) : Prop := if c is CCleanup then False else True.
Definition call_asks (c : call) : Z := match c with CRequest _ _ (Some _) => 1 | _ => 0 end.
Definition calls_ask (l : list call) : Z := foldr (fun c k => call_asks c + k) 0 l.
Definition calls_legal (before : list event) (l : list call) : Prop :=
  Forall call_legal l /\ (calls_ask l = 0 \/ asked before + calls_ask l <= INT_MAX).

Lemma respond_with_ok id m w : proto_ w = true -> exists t,
  respond_with id m w = Ret ((), mkRpc (proto_ w) (method_services_ w) (id_alloc_ w) (request_callback_ w) (rehashes_ w) t
    (request_timeout_ w) (respond_timeout_ w) (log w) (out w ++ respond_output id m)).
Proof.
  intros Hp. unfold respond_with, respond_output. destruct (id =? 0).
  - exists (tobe_respond_ w). rewrite app_nil_r. by destruct w.
  - destruct w. cbn in Hp. subst. unfold send, erase_tobe. run. eexists. reflexivity.
Qed.

Lemma new_id_ok n l r w method params cb : inv n l r w -> asked (log w) < INT_MAX ->
  exists w', (id ← new_id grows method params cb; send (Request id method params)) w = Ret ((), w') /\ inv n l r w' /\
    log w' = log w ++ [Asked (asked (log w) + 1) method params cb] /\ (grows (log w) = false -> rehashes_ w' = rehashes_ w).
Proof.
  intros Hi Hn. set (id := id_alloc_ w + 1). pose proof (v_alloc _ _ _ _ Hi) as Hid.
  assert (~ added id (times (log w))) as Hnew by (rewrite (v_added _ _ _ _ Hi); lia).
  destruct (tracks_add _ _ _ _ id (v_tracks _ _ _ _ Hi) Hnew) as (m & Em & Htr).
  set (e := Asked id method params cb).
  assert (asked (log w ++ [e]) = asked (log w) + 1) as Ea by (by rewrite asked_snoc).
  exists (mkRpc (proto_ w) (method_services_ w) id (<[id := Some cb]> (request_callback_ w))
    (if grows (log w) then S (rehashes_ w) else rehashes_ w) (tobe_respond_ w) m
    (respond_timeout_ w) (log w ++ [e]) (out w ++ [Sent (Request id method params)])). split.
  { unfold new_id, insert_callback, send, add, change. run. rewrite (proj2 (Z.ltb_ge _ _)) by lia. run. fold id.
    destruct (grows (log w)); cbn; rewrite Em; cbn; by rewrite (v_proto _ _ _ _ Hi). }
  split; [|split; [cbn; unfold e, id; by rewrite Hid|cbn; by intros ->]]. destruct Hi.
  assert (0 <= asked (log w)) by (unfold asked; lia).
  assert (pend (log w) !! id = None) as Hpn.
  { destruct (pend (log w) !! id) eqn:E; [|done]. destruct Hnew. apply v_pend0. by eexists. }
  assert (times (log w ++ [e]) = times (log w) ++ [Added id]) as Et by (by rewrite rpc_times_snoc).
  split; cbn [proto_ method_services_ id_alloc_ request_callback_ request_timeout_ respond_timeout_ log out];
    rewrite ?Ea, ?Et, ?pend_snoc; auto; unfold e; cbn [pend_step].
  - by rewrite services_snoc.
  - lia.
  - rewrite v_callbacks0, fmap_insert. destruct r as [[id' f]|]; [|done].
    rewrite insert_insert_ne; [done|]. intros <-. lia.
  - destruct r as [[id' f]|]; [|done]. destruct v_running0. rewrite lookup_insert_ne by lia. split; [done|lia].
  - by rewrite effects_snoc, v_out0.
  - intros id'. rewrite added_snoc, v_added0. split; [intros [?|[= <-]]; lia|].
    intros H'. destruct (decide (id' = id)) as [->|]; [by right|left; lia].
  - intros id'. rewrite added_snoc, fired_snoc. destruct (decide (id' = id)) as [->|].
    + intros _. split; [by right|]. intros [Hf|?]; [|done]. by apply Hnew, (tr_fired _ _ _ _ v_tracks0).
    + rewrite lookup_insert_ne by done. intros [H1 H2]%v_pend0. split; [by left|]. intros [?|?]; done.
  - intros id'. rewrite times_called_app. replace (times_called id' [Sent (Request id method params)]) with O by done.
    rewrite Nat.add_0_r, v_called0. destruct (decide (id' = id)) as [->|Hne].
    + rewrite lookup_insert_eq, bool_decide_false by lia. by destruct (bool_decide _).
    + rewrite lookup_insert_ne by done. destruct (decide (1 <= id' <= asked (log w))).
      * by rewrite !bool_decide_true by lia.
      * by rewrite !bool_decide_false by lia.
  - apply rpc_explained_snoc; [done|]. cbn. lia.
Qed.

Lemma respond_effect n l r w e id m : inv n l r w -> plain e -> effect (log w) e = respond_output id m ->
  exists w', (note e;; respond_with id m) w = Ret ((), w') /\ inv n l r w' /\ log w' = log w ++ [e] /\ rehashes_ w' = rehashes_ w.
Proof.
  intros Hi He Eo. destruct (respond_with_ok id m (add_event e w)) as [t Et]; [apply Hi|].
  exists (with_event e t w). split.
  { unfold note, modify, mbind, M_bind. rewrite Et. unfold with_event. by rewrite Eo. }
  split; [by apply inv_plain|done].
Qed.

(** What a call leaves in the history, and that it does not make the table rehash. *)
Definition call_events (before : list event) (c : call) : list event :=
  Did c :: match c with CRequest method params (Some cb) => [Asked (asked before + 1) method params cb] | _ => [] end.
Definition call_quiet (before : list event) (c : call) : Prop :=
  match c with CRequest _ _ (Some _) => grows (before ++ [Did c]) = false | _ => True end.
Fixpoint quiet (before : list event) (l : list call) : Prop :=
  match l with [] => True | c :: l' => call_quiet before c /\ quiet (before ++ call_events before c) l' end.

Lemma asked_call lg c : asked (lg ++ call_events lg c) = asked lg + call_asks c.
Proof.
  unfold call_events. change (Did c :: ?x) with ([Did c] ++ x). rewrite app_assoc. destruct c as [method params [cb|]|id errcode res|id res|id errcode|];
    rewrite ?app_nil_r, !asked_snoc; cbn; lia.
Qed.

Lemma rpc_call_ok n l r w c : inv n l r w -> calls_legal (log w) [c] -> exists w',
  do_call grows c w = Ret ((), w') /\ inv n l r w' /\ log w' = log w ++ call_events (log w) c /\
    (call_quiet (log w) c -> rehashes_ w' = rehashes_ w).
Proof.
  intros Hi [Hc Hn]. rewrite Forall_singleton in Hc.
  destruct c as [method params [cb|]|id errcode res|id res|id errcode|]; cbn [call_asks call_events call_quiet] in *; [| | | | |done].
  - pose proof (inv_plain n l r w (Did (CRequest method params (Some cb))) (tobe_respond_ w) Hi I) as Hi1.
    cbn in Hn. assert (asked (log w ++ [Did (CRequest method params (Some cb))]) = asked (log w)) as Ea
      by (rewrite asked_snoc; cbn; lia).
    destruct (new_id_ok _ _ _ _ method params cb Hi1) as (w' & E & Hi' & Hlog & Hg); [cbn; lia|].
    exists w'. split; [|split; [done|]; split; [rewrite Hlog; cbn; by rewrite Ea, <- app_assoc|exact Hg]].
    unfold do_call, note, modify, mbind, M_bind. cbn [effect] in *.
    unfold with_event in E. cbn [effect] in E. rewrite app_nil_r in E. exact E.
  - exists (with_event (Did (CRequest method params None)) (tobe_respond_ w) w).
    pose proof (v_proto _ _ _ _ Hi) as Hp.
    split; [|split; [by apply inv_plain|done]].
    unfold do_call, request, send. run. rewrite Hp. done.
  - destruct (respond_effect n l r w (Did (CRespond id errcode res)) id (respond_message id errcode res) Hi I eq_refl) as (w' & ? & ? & ? & ?). by exists w'.
  - destruct (respond_effect n l r w (Did (CRespondResult id res)) id (Result id res) Hi I eq_refl) as (w' & ? & ? & ? & ?). by exists w'.
  - destruct (respond_effect n l r w (Did (CRespondError id errcode)) id (Error id errcode []) Hi I eq_refl) as (w' & ? & ? & ? & ?). by exists w'.
Qed.

Lemma calls_ask_nonneg cs : 0 <= calls_ask cs.
Proof. unfold calls_ask. induction cs as [|[? ? [|]| | | |] cs IH]; cbn in *; lia. Qed.

Lemma rpc_calls_ok n l r w cs : inv n l r w -> calls_legal (log w) cs -> exists w',
  do_calls grows cs w = Ret ((), w') /\ inv n l r w' /\ (quiet (log w) cs -> rehashes_ w' = rehashes_ w).
Proof.
  revert w. induction cs as [|c cs IH]; intros w Hi [Hc Hn]; [by exists w|].
  apply Forall_cons in Hc as [Hc Hcs].
  change (calls_ask (c :: cs)) with (call_asks c + calls_ask cs) in Hn. pose proof (calls_ask_nonneg cs).
  destruct (rpc_call_ok n l r w c Hi) as (w1 & E1 & Hi1 & Hn1 & Hq1).
  { split; [by apply Forall_singleton|]. destruct c as [? ? [|]| | | |]; cbn in *; lia. }
  destruct (IH w1 Hi1) as (w2 & E2 & Hi2 & Hq2).
  { split; [done|]. rewrite Hn1, asked_call. destruct c as [? ? [|]| | | |]; cbn in *; lia. }
  exists w2. split; [cbn; unfold mbind, M_bind; by rewrite E1|]. split; [done|]. intros [Hc1 Hc2]. rewrite Hq2, Hq1; [done..|by rewrite Hn1].
Qed.

(** *** Callbacks *)

(** A callback of a request must not make the table rehash that it is called from. *)
Definition callbacks_legal : Prop :=
  (forall f before errcode res, calls_legal before (reply f before errcode res) /\ quiet before (reply f before errcode res)) /\
  (forall f before id params, calls_legal before (service f before id params).1).

(** The peer's respond or the timeout settles a request. *)
Definition settles (e : event) (id errcode : Z) (res : Json) : Prop :=
  e = Got (RecvRespond id errcode res) \/ e = Expired id /\ errcode = kRequestTimeout /\ res = Null.

Lemma inv_settle n l l' w e id errcode res : inv n l None w -> settles e id errcode res ->
  tracks n l' (request_timeout_ w) (times (log w ++ [e])) -> event_ok n (log w) e ->
  inv n l' (match pend (log w) !! id with Some f => Some (id, f) | None => None end)
    (with_event e (tobe_respond_ w) w).
Proof.
  intros [] He Htr Hok.
  assert (pend (log w ++ [e]) = delete id (pend (log w))) as Ep
    by (rewrite pend_snoc; destruct He as [->|(-> & _)]; done).
  assert (services (log w ++ [e]) = services (log w)) as Es
    by (rewrite services_snoc; destruct He as [->|(-> & _)]; done).
  assert (asked (log w ++ [e]) = asked (log w)) as Ea
    by (rewrite asked_snoc; destruct He as [->|(-> & _)]; cbn; lia).
  assert (forall i, added i (times (log w ++ [e])) <-> added i (times (log w))) as Ead.
  { intros i. rewrite rpc_times_snoc. destruct He as [->|(-> & _)]; cbn; [by rewrite app_nil_r|].
    rewrite added_snoc. naive_solver. }
  assert (forall i, i <> id -> fired i (times (log w ++ [e])) -> fired i (times (log w))) as Ef.
  { intros i Hne. rewrite rpc_times_snoc. destruct He as [->|(-> & _)]; cbn; [by rewrite app_nil_r|].
    rewrite fired_snoc. naive_solver. }
  assert (effect (log w) e = called (log w) id errcode res) as Ee by (destruct He as [->|(-> & -> & ->)]; done).
  unfold with_event.
  split; cbn [proto_ method_services_ id_alloc_ request_callback_ request_timeout_ respond_timeout_ log out];
    rewrite ?Ep, ?Es, ?Ea; auto; try setoid_rewrite Ead; auto.
  - rewrite v_callbacks0, fmap_delete. destruct (pend (log w) !! id) as [f|] eqn:E.
    + rewrite insert_delete_eq, insert_id; [done|]. by rewrite lookup_fmap, E.
    + rewrite delete_id; [done|]. by rewrite lookup_fmap, E.
  - destruct (pend (log w) !! id) as [f|] eqn:E; [|done]. split; [apply lookup_delete_eq|].
    apply v_added0. apply v_pend0. by eexists.
  - by rewrite effects_snoc, v_out0.
  - intros i. destruct (decide (i = id)) as [->|Hne]; [by rewrite lookup_delete_eq; intros []|].
    rewrite lookup_delete_ne by done. intros [H1 H2]%v_pend0. split; [done|]. intros H. by apply H2, Ef.
  - intros i. rewrite times_called_app, v_called0, Ee. unfold called.
    destruct (decide (i = id)) as [->|Hne].
    + rewrite lookup_delete_eq. destruct (pend (log w) !! id) as [f|] eqn:E.
      * rewrite bool_decide_true by (apply v_added0, v_pend0; by eexists).
        by rewrite times_called_one, Z.eqb_refl.
      * apply Nat.add_0_r.
    + rewrite lookup_delete_ne by done.
      replace (times_called i _) with O; [apply Nat.add_0_r|]. case_match; [|done].
      by rewrite times_called_one, (proj2 (Z.eqb_neq _ _)).
  - by apply rpc_explained_snoc.
Qed.

Lemma call_back_ok n l l' w e id errcode res : callbacks_legal -> inv n l None w -> settles e id errcode res ->
  tracks n l' (request_timeout_ w) (times (log w ++ [e])) -> event_ok n (log w) e -> exists w',
  (note e;; call_back grows reply id errcode res) w = Ret ((), w') /\ inv n l' None w'.
Proof.
  intros [Hr _] Hi He Htr Hok. pose proof (inv_settle _ _ _ _ _ _ _ _ Hi He Htr Hok) as Hi1.
  assert (effect (log w) e = called (log w) id errcode res) as Ee by (destruct He as [->|(-> & -> & ->)]; done).
  unfold with_event in Hi1. rewrite Ee in Hi1. unfold called in Hi1.
  unfold call_back. run. rewrite (v_callbacks _ _ _ _ Hi), lookup_fmap.
  destruct (pend (log w) !! id) as [f|] eqn:E; cbn.
  - set (w1 := mkRpc _ _ _ _ _ _ _ _ _ _) in Hi1.
    destruct (rpc_calls_ok _ _ _ _ (reply f (log w ++ [e]) errcode res) Hi1) as (w2 & E2 & Hi2 & Hq); [apply Hr|].
    assert (add_output (Called id f errcode res) (add_event e w) = w1) as -> by done. rewrite E2.
    pose proof (v_callbacks _ _ _ _ Hi2) as Hc. rewrite Hc, lookup_insert_eq, (Hq (proj2 (Hr _ _ _ _))). cbn [rehashes_ w1]. rewrite Nat.eqb_refl.
    eexists. split; [done|]. pose proof (v_running _ _ _ _ Hi2) as [Hn _]. destruct Hi2.
    unfold set_callbacks. split; cbn [proto_ method_services_ id_alloc_ request_callback_ request_timeout_ respond_timeout_ log out]; auto.
    rewrite delete_insert_id; [done|]. by rewrite lookup_fmap, Hn.
  - rewrite app_nil_r in Hi1. eexists. split; [done|exact Hi1].
Qed.

(** *** Requests of the peer *)

Lemma serve_ok n l w0 f id params : callbacks_legal -> inv n l None (add_output (Served f id params) w0) ->
  exists w2 a, serve grows service f id params w0 = Ret (a, add_event (Returned id a) w2) /\ inv n l None w2.
Proof.
  intros [_ Hs] Hi.
  destruct (rpc_calls_ok _ _ _ _ (service f (log w0) id params).1 Hi) as (w2 & E & Hi2 & _); [apply Hs|].
  exists w2, (service f (log w0) id params).2. split; [|done].
  unfold serve. run. by rewrite E.
Qed.

(** A value for the timer of the responds: only the ring matters. *)
Lemma inv_rsp n l r w m : inv n l r w -> ring_ok n m -> cb_ m = true ->
  inv n l r (put_mon (HasMonitor := rsp_mon) m w).
Proof. intros [] Hm Hcb. by split. Qed.

Lemma add_respond_ok n l r w id : inv n l r w -> exists w',
  add (HM := rsp_mon) id w = Ret ((), w') /\ inv n l r w'.
Proof.
  intros Hi. destruct (v_respond _ _ _ _ Hi) as [Hr Hcb].
  destruct (add_ok n id _ Hr) as (m & Em & Hr' & _ & Hcb' & _).
  exists (put_mon (HasMonitor := rsp_mon) m w). split; [unfold add, change; run; by rewrite Em|].
  apply inv_rsp; [done..|congruence].
Qed.

Lemma recv_request_ok n l w id method params : callbacks_legal -> inv n l None w -> exists w',
  exec grows reply service (Recv (RecvRequest id method params)) w = Ret ((), w') /\ inv n l None w'.
Proof.
  intros Hl Hi. set (e := Got (RecvRequest id method params)).
  pose proof (inv_plain n l None w e (tobe_respond_ w) Hi I) as Hi1.
  pose proof (inv_plain n l None w e (tobe_respond_ w ∪ {[id]}) Hi I) as Hi2.
  unfold with_event in Hi1, Hi2. cbn [effect e] in Hi1, Hi2. rewrite <- (v_services _ _ _ _ Hi) in Hi1, Hi2.
  cbn [exec]. fold e. unfold onRecvRequest. run.
  destruct (method_services_ w !! method) as [[f|]|]; [destruct (Z.eqb_spec id 0) as [->|Hid]| |].
  - destruct (serve_ok n l (add_event e w) f 0 params Hl Hi1) as (w2 & a & E & Hw2). rewrite E.
    eexists. split; [done|]. pose proof (inv_plain _ _ _ _ (Returned 0 a) (tobe_respond_ w2) Hw2 I) as H.
    unfold with_event in H. destruct a as [[[] errcode] res]; cbn in H; rewrite app_nil_r in H; exact H.
  - destruct (serve_ok n l (set_tobe (tobe_respond_ w ∪ {[id]}) (add_event e w)) f id params Hl Hi2)
      as (w2 & [[sync errcode] res] & E & Hw2).
    unfold set_tobe in E |- *. cbn in E |- *. rewrite E. destruct sync.
    + destruct (respond_effect n l None w2 (Returned id (true, errcode, res)) id (respond_message id errcode res) Hw2 I eq_refl)
        as (w' & E' & Hw' & _). exists w'. split; [exact E'|done].
    + pose proof (inv_plain _ _ _ _ (Returned id (false, errcode, res)) (tobe_respond_ w2) Hw2 I) as H.
      unfold with_event in H. cbn in H. rewrite app_nil_r in H. destruct (add_respond_ok _ _ _ _ id H) as (w' & E' & Hw').
      exists w'. split; [exact E'|done].
  - pose proof (v_proto _ _ _ _ Hi) as Hp. unfold send. run. rewrite Hp. eexists. split; [done|exact Hi1].
  - pose proof (v_proto _ _ _ _ Hi) as Hp. unfold send. run. rewrite Hp. eexists. split; [done|exact Hi1].
Qed.

(** *** The timers *)

Lemma request_tick_ok n w : (1 <= n)%nat -> callbacks_legal -> inv n [] None w -> exists w',
  exec grows reply service RequestTick w = Ret ((), w') /\ inv n [] None w'.
Proof.
  intros Hn Hl Hi. destruct (tracks_tick _ _ _ Hn (v_tracks _ _ _ _ Hi)) as (l & m & Em & Htr).
  cbn [exec]. run. apply (onTimerTick_ok (HM := req_mon) (fun l => inv n l None)) with l m; cbn [get_mon put_mon req_mon].
  - intros l' w' H. apply H.
  - intros l' w' d H. destruct (tracks_level _ _ _ _ d (v_tracks _ _ _ _ H)) as (m' & E & H').
    exists m'. split; [done|]. by destruct H.
  - intros id l' w' H. destruct (tracks_fire _ _ _ _ _ (v_tracks _ _ _ _ H)) as [Ht Htr'].
    apply (call_back_ok n (id :: l') l' w' (Expired id)); [done|done|by right|by rewrite rpc_times_snoc|done].
  - done.
  - destruct Hi.
    assert (times (log w ++ [Tick]) = times (log w) ++ [Ticked]) as Et by (by rewrite rpc_times_snoc).
    assert (asked (log w ++ [Tick]) = asked (log w)) as Ea by (rewrite asked_snoc; cbn; lia).
    split; cbn [proto_ method_services_ id_alloc_ request_callback_ request_timeout_ respond_timeout_ log out add_event];
      rewrite ?Ea, ?Et, ?pend_snoc, ?services_snoc; auto; try setoid_rewrite added_snoc; try setoid_rewrite fired_snoc.
    + by rewrite effects_snoc, app_nil_r.
    + intros id. rewrite v_added0. naive_solver.
    + intros id [H1 H2]%v_pend0. split; [by left|]. intros [?|?]; done.
    + by apply rpc_explained_snoc.
Qed.

Lemma respond_tick_ok n w : inv n [] None w -> exists w',
  exec grows reply service RespondTick w = Ret ((), w') /\ inv n [] None w'.
Proof.
  intros Hi. destruct (v_respond _ _ _ _ Hi) as [Hr Hcb].
  destruct (take_ok n _ Hr) as (l & m & Em & Hr' & _ & Hcb' & _).
  apply (onTimerTick_ok (HM := rsp_mon) (fun _ => inv n [] None)) with l m; cbn [get_mon put_mon rsp_mon].
  - intros l' w' H. apply H.
  - intros l' w' d H. eexists. split; [done|]. apply inv_rsp; [done| |apply H].
    destruct (v_respond _ _ _ _ H) as [[] _]. by split.
  - intros id l' w' H. eexists. split; [done|]. by destruct H.
  - done.
  - apply (inv_rsp n [] None w m Hi); [done|congruence].
Qed.

Definition op_legal (before : list event) (o : op) : Prop :=
  match o with Call c => calls_legal before [c] | _ => True end.

Fixpoint ops_legal (l : list op) (w : rpc) : Prop :=
  match l with
  | [] => True
  | o :: l' => op_legal (log w) o /\ forall w', exec grows reply service o w = Ret ((), w') -> ops_legal l' w'
  end.

Lemma rpc_exec_ok n w o : (1 <= n)%nat -> callbacks_legal -> inv n [] None w -> op_legal (log w) o -> exists w',
  exec grows reply service o w = Ret ((), w') /\ inv n [] None w'.
Proof.
  intros Hn Hl Hi Ho. destruct o as [c|method cb|[id method params|id errcode res]| |].
  - destruct (rpc_call_ok n [] None w c Hi Ho) as (w' & E & H & _ & _). by exists w'.
  - eexists. split; [done|]. destruct Hi.
    assert (times (log w ++ [Registered method cb]) = times (log w)) as Et by (rewrite rpc_times_snoc; apply app_nil_r).
    assert (asked (log w ++ [Registered method cb]) = asked (log w)) as Ea by (rewrite asked_snoc; cbn; lia).
    split; cbn [proto_ method_services_ id_alloc_ request_callback_ request_timeout_ respond_timeout_ log out add_event set_services];
      rewrite ?Ea, ?Et, ?pend_snoc; auto.
    + by rewrite services_snoc, v_services0.
    + by rewrite effects_snoc, app_nil_r.
    + by apply rpc_explained_snoc.
  - by apply recv_request_ok.
  - apply (call_back_ok n [] [] w (Got (RecvRespond id errcode res))); [done..|by left| |done].
    rewrite rpc_times_snoc. cbn. rewrite app_nil_r. apply Hi.
  - by apply request_tick_ok.
  - by apply respond_tick_ok.
Qed.

Lemma rpc_run_ok n ops w : (1 <= n)%nat -> callbacks_legal -> inv n [] None w -> ops_legal ops w -> exists w',
  Rpc.run grows reply service ops w = Ret ((), w') /\ inv n [] None w'.
Proof.
  intros Hn Ha. revert w. induction ops as [|o ops IH]; intros w Hi Hops; [by exists w|].
  destruct Hops as [Ho Hops]. destruct (rpc_exec_ok n w o Hn Ha Hi Ho) as (w1 & E1 & Hi1).
  destruct (IH w1 Hi1 (Hops w1 E1)) as (w2 & E2 & Hi2). exists w2. split; [|done].
  cbn. unfold mbind, M_bind. by rewrite E1.
Qed.

(** An [Rpc] after [initialize]. *)
Definition started (timeout_sec : Z) : rpc :=
  let m := mkMonitor (ring timeout_sec) (Some O) 0 true 0 false in mkRpc true ∅ 0 ∅ 0 ∅ m m [] [].

Lemma rpc_start timeout_sec : 0 < timeout_sec -> initialize timeout_sec new_rpc = Ret (true, started timeout_sec).
Proof.
  intros H. unfold initialize, Monitor.initialize, change, initialize_. run.
  by rewrite !(proj2 (Z.ltb_ge _ _)) by lia.
Qed.

Lemma rpc_started_inv timeout_sec : 0 < timeout_sec -> inv (Z.to_nat timeout_sec) [] None (started timeout_sec).
Proof.
  intros Hn.
  destruct (tracks_start (V:=Z) timeout_sec (mkMonitor [] None 0 true 0 false) Hn eq_refl eq_refl) as (m & Em & Htr).
  unfold initialize_ in Em. rewrite (proj2 (Z.ltb_ge _ _)) in Em by lia. injection Em as <-.
  split; cbn [proto_ method_services_ id_alloc_ request_callback_ request_timeout_ respond_timeout_ log out started]; try done.
  - split; [apply Htr|done].
  - intros id. change (asked []) with 0. split; [by intros ?%not_elem_of_nil|lia].
  - intros id. change (pend []) with (∅ : gmap Z nat). rewrite lookup_empty. by intros [].
  - intros id. change (asked []) with 0. by rewrite bool_decide_false by lia.
  - intros before e after E. by destruct before.
Qed.

End proofs.

(** C2: An [Rpc] does what it promises.  Let there be any sequence of calls of the
    user, also from inside his callbacks, of requests and responds of the peer, with
    any numbers, and of ticks of the two timers; [cleanup] is not called, less
    than 2^31 requests are made, and the callback of a request makes no request for which
    the hash table rehashes ([callbacks_legal], where the code would use an iterator
    that is no longer valid).  Then nothing crashes, and the messages sent and the
    callbacks called are exactly the [effects] of the history, in its order: every
    request is sent with a new number, the first respond of the peer to a pending
    number calls its callback, any other is ignored, services and unknown methods
    are answered.  A request expires at the tick number [timeout_sec] after it was
    made.  The callback of a request has been called exactly once, or it is pending,
    younger than that, and the timer ticks. *)
Theorem requests_answered_once (grows : list event -> bool) (reply : nat -> list event -> Z -> Json -> list call)
    (service : nat -> list event -> Z -> Json -> list call * answer) (timeout_sec : Z) (ops : list op) :
  0 < timeout_sec -> callbacks_legal grows reply service ->
  ops_legal grows reply service ops (started timeout_sec) ->
  exists w,
    (initialize timeout_sec;; run grows reply service ops) new_rpc = Ret ((), w) /\
    out w = effects (log w) /\ explained (Z.to_nat timeout_sec) (log w) /\
    forall id, added id (times (log w)) ->
      times_called id (out w) = 1%nat \/
      times_called id (out w) = 0%nat /\ is_Some (pend (log w) !! id) /\
        (age id (times (log w)) < Z.to_nat timeout_sec)%nat /\ ticking (request_timeout_ w) = true.
Proof.
  intros Hn Hl Hops.
  destruct (rpc_run_ok grows reply service (Z.to_nat timeout_sec) ops _ ltac:(lia) Hl (rpc_started_inv _ Hn) Hops) as (w & E & Hi).
  exists w. split; [unfold mbind, M_bind; by rewrite (rpc_start _ Hn)|].
  split; [apply Hi|]. split; [apply Hi|]. intros id Hid.
  rewrite (v_called _ _ _ _ Hi), bool_decide_true by (by apply (v_added _ _ _ _ Hi)).
  destruct (pend (log w) !! id) as [f|] eqn:Ep; [right|by left].
  destruct (v_pend _ _ _ _ Hi id) as [_ Hf]; [by rewrite Ep|].
  destruct (tracks_rest _ _ _ id (v_tracks _ _ _ _ Hi) Hid) as [?|[? ?]]; [done|]. by eauto.
Qed.

(** *** A run *)

(** A table that begins with one bucket and gets thirteen with the first request. *)
Definition thirteen (before : list event) : bool := (asked before =? 0) || (12 <? asked before).

(** The callback repeats a request that has expired; the service number 1 answers
    at once, the others do not. *)
Definition retry (f : nat) (before : list event) (errcode : Z) (res : Json) : list call :=
  if (errcode =? kRequestTimeout) && ((0 <? asked before) && (asked before <? 10)) then [CRequest (str "ping") Null (Some f)] else [].
Definition serves (f : nat) (before : list event) (id : Z) (params : Json) : list call * answer :=
  ([], (Nat.eqb f 1, 0, Boolean true)).

Definition some_ops : list op :=
  [AddService (str "now") (Some 1%nat); AddService (str "later") (Some 2%nat);
   Call (CRequest (str "ping") Null (Some 7%nat)); RequestTick; RequestTick;
   Recv (RecvRespond 1 0 Null); Recv (RecvRespond 2 0 (Integer 5));
   Recv (RecvRequest 9 (str "now") Null); Recv (RecvRequest 4 (str "later") Null); Call (CRespond 4 (-1) Null);
   Recv (RecvRequest 3 (str "what") Null); RespondTick; RespondTick].

Lemma requests_answered_once_witness : exists w,
  (initialize 2;; run thirteen retry serves some_ops) new_rpc = Ret ((), w) /\
  out w = [Sent (Request 1 (str "ping") Null); Called 1 7 kRequestTimeout Null; Sent (Request 2 (str "ping") Null);
           Called 2 7 0 (Integer 5); Served 1 9 Null; Sent (Result 9 (Boolean true)); Served 2 4 Null;
           Sent (Error 4 (-1) []); Sent (Error 3 kMethodNotFound [])] /\
  out w = effects (log w).
Proof.
  destruct (requests_answered_once thirteen retry serves 2 some_ops) as (w & H1 & H2 & _).
  - lia.
  - split; [|by split; [constructor|left]]. intros f before errcode res. unfold retry.
    destruct (Z.ltb_spec 0 (asked before)); rewrite ?andb_false_r; [|by split; [split; [constructor|left]|]].
    destruct (Z.ltb_spec (asked before) 10); rewrite ?andb_false_r, ?andb_true_r; [|by split; [split; [constructor|left]|]].
    case_match; [|by split; [split; [constructor|left]|]]. split; [split; [by repeat constructor|]; right; cbn; unfold INT_MAX; lia|].
    split; [|done]. unfold call_quiet, thirteen. rewrite asked_snoc. cbn [asks]. rewrite Z.add_0_r.
    apply orb_false_iff. split; [apply Z.eqb_neq; lia|apply Z.ltb_ge; lia].
  - repeat first [exact I | split; [first [exact I | split; [by repeat constructor | vm_compute; intuition discriminate]]|
      let w' := fresh in let E := fresh in intros w' E; vm_compute in E; injection E as <-]].
  - exists w. split; [exact H1|]. split; [|exact H2].
    assert (option_map out (match (initialize 2;; run thirteen retry serves some_ops) new_rpc with Ret (_, w) => Some w | _ => None end) = Some (out w)) as E
      by (by rewrite H1).
    apply Some_inj. rewrite <- E. vm_compute. reflexivity.
Defined.

(** *** Where the contract ends *)

(** The iterator into the map outlives a callback that cleans up. *)
Example cleanup_in_callback :
  (initialize 2;; run thirteen (fun _ _ _ _ => [CCleanup]) serves
     [Call (CRequest (str "ping") Null (Some 7%nat)); Recv (RecvRespond 1 0 Null)]) new_rpc = Stuck.
Proof. vm_compute. reflexivity. Qed.

(** Neither does it outlive a request from the callback for which the table rehashes. *)
Example rehash_in_callback :
  (initialize 2;; run (fun _ => true) (fun _ _ _ _ => [CRequest (str "ping") Null (Some 8%nat)]) serves
     [Call (CRequest (str "ping") Null (Some 7%nat)); Recv (RecvRespond 1 0 Null)]) new_rpc = Stuck.
Proof. vm_compute. reflexivity. Qed.

(** [initialize] ignores that a monitor refuses: the first request follows null. *)
Example initialized_with_zero :
  initialize 0 new_rpc = Ret (true, set_proto true new_rpc) /\
  (initialize 0;; run thirteen retry serves [Call (CRequest (str "ping") Null (Some 7%nat))]) new_rpc = Stuck.
Proof. split; vm_compute; reflexivity. Qed.

(** Cleaned up and initialized again, requests do not expire any more. *)
Example requests_never_expire :
  match (initialize 1;; cleanup;; initialize 1;;
         run thirteen retry serves [Call (CRequest (str "ping") Null (Some 7%nat)); RequestTick; RequestTick; RequestTick]) new_rpc with
  | Ret (_, w) => out w = [Sent (Request 1 (str "ping") Null)] /\ ticking (request_timeout_ w) = false
  | _ => False
  end.
Proof. vm_compute. split; reflexivity. Qed.
