(* ===== verification/Dns.v ===== *)
(** * The DNS resolver

    Models [modules/network/dns_request.cpp]: queries are written with the serializer
    and replies read with the deserializer ([Serializer.v]), requests wait in a map
    and in a timeout monitor ([Monitor.v]).  A variable that is read before a value
    was stored in it is [None] and its use is [Stuck].  Names in a reply can point to
    other places of the packet; [fuel] bounds how many steps are followed. *)
From S2P Require Import Prelude Serializer Strings Monitor.

(** ** Queries *)

Definition DNS_TYPE_A : Z := 1.
Definition DNS_TYPE_CNAME : Z := 5.
Definition DNS_CLASS_IN : Z := 1.
Definition DNS_RC_FORMAT_ERROR : Z := 1.
Definition DNS_RC_NAME_ERROR : Z := 3.

Notation DOT := 46.

Definition segment (seg : list Z) : list item := [IUnsigned W8 (u8 (size seg)); IBlock seg].

Definition AppendDomain (dump : serializer) (domain : list Z) : option (serializer * bool) :=
  str_vec ← Split domain (str ".");
  put_items dump (concat (map segment str_vec) ++ [IUnsigned W8 0]).

(** What [request] puts into [send_buff]. *)
Definition query (req_id : Z) (domain : list Z) : option (list Z) :=
  '(dump, _) ← put_items (vector_serializer [] kBig)
     [IUnsigned W16 req_id; IUnsigned W16 0x0100; IUnsigned W16 1; IUnsigned W16 0; IUnsigned W16 0; IUnsigned W16 0];
  '(dump, _) ← AppendDomain dump domain;
  '(dump, _) ← put_items dump [IUnsigned W16 DNS_TYPE_A; IUnsigned W16 DNS_CLASS_IN];
  Some (s_start dump).

Example query_example : query 1 (str "a.bc") =
  Some ([0; 1; 1; 0; 0; 1; 0; 0; 0; 0; 0; 0] ++ [1; 97; 2; 98; 99; 0] ++ [0; 1; 0; 1]).
Proof. reflexivity. Qed.

(** ** Replies *)

Definition MP := M deserializer.

(** [parser >> v]; [old] is what [v] holds before. *)
Definition read (w : width) (old : option Z) : MP (option Z) :=
  parser ← get; '(parser, r) ← the (fetch_uint w parser); put parser;;
  mret (match r with Some v => Some v | None => old end).

(** [parser.fetch(str, len)] into an array that has not been initialised. *)
Definition read_block (len : Z) : MP (option (list Z)) :=
  parser ← get; '(parser, r) ← the (fetch_block parser len); put parser;; mret r.

Definition set_endian (e : endian) : MP endian :=
  parser ← get; put (des_setEndian parser e).1;; mret (des_setEndian parser e).2.

Definition skip (n : Z) : MP () := parser ← get; put (des_skip parser n).1.

(** [m] with a parser of its own. *)
Definition with_copy {A} (parser : deserializer) (m : MP A) : MP A :=
  own ← get; put parser;; a ← m; put own;; mret a.

(** [oss << str] ends at the first null. *)
Fixpoint c_str (s : list Z) : list Z :=
  match s with [] => [] | c :: s' => if c =? 0 then [] else c :: c_str s' end.

(** The loop of [FetchDomain]; a call of [FetchDomain] starts it with [first]. *)
Fixpoint fetch_loop (fuel : nat) (first : bool) (oss : list Z) : MP (list Z) :=
  match fuel with
  | O => out_of_fuel
  | S fuel' =>
      len ← read W8 (Some 0);
      len ← the len;
      if len =? 0 then mret oss
      else
        let oss := if first then oss else oss ++ [DOT] in
        if Z.land len 0xc0 =? 0xc0 then
          offset_low ← read W8 (Some 0);
          offset_low ← the offset_low;
          let offset := Z.lor (Z.shiftl (Z.land len 0x3f) 8) offset_low in
          parser ← get;
          name ← with_copy (set_pos parser offset).1 (fetch_loop fuel' true []);
          mret (oss ++ name)
        else
          str ← read_block len;
          str ← the str;
          fetch_loop fuel' false (oss ++ c_str str)
  end.

Definition FetchDomain (fuel : nat) : MP (list Z) := fetch_loop fuel true [].

Inductive Status := kSuccess | kDomainError | kAllDnsFail | kTimeout | kFail.

(** [A] and [CNAME] records with their time to live. *)
Record Result := mkResult {
  status : Status;
  a_vec : list (Z * Z);
  cname_vec : list (Z * list Z) }.

Definition push_a (r : Result) (ttl ip : Z) : Result := mkResult (status r) (a_vec r ++ [(ttl, ip)]) (cname_vec r).
Definition push_cname (r : Result) (ttl : Z) (cname : list Z) : Result :=
  mkResult (status r) (a_vec r) (cname_vec r ++ [(ttl, cname)]).

Definition fetch_question (fuel : nat) : MP () :=
  FetchDomain fuel;; read W16 None;; read W16 None;; mret ().

Definition fetch_answer (fuel : nat) (result : Result) : MP Result :=
  FetchDomain fuel;;
  an_type ← read W16 None;
  read W16 None;;
  an_ttl ← read W32 None;
  an_len ← read W16 None;
  an_type ← the an_type;
  if an_type =? DNS_TYPE_A then
    old_endian ← set_endian kLittle;
    ip_value ← read W32 None;
    set_endian old_endian;;
    an_ttl ← the an_ttl;
    ip_value ← the ip_value;
    mret (push_a result an_ttl ip_value)
  else if an_type =? DNS_TYPE_CNAME then
    domain ← FetchDomain fuel;
    an_ttl ← the an_ttl;
    mret (push_cname result an_ttl domain)
  else
    an_len ← the an_len;
    skip an_len;;
    mret result.

Fixpoint fetch_questions (fuel n : nat) : MP () :=
  match n with O => mret () | S n' => fetch_question fuel;; fetch_questions fuel n' end.

Fixpoint fetch_answers (fuel n : nat) (result : Result) : MP Result :=
  match n with O => mret result | S n' => result ← fetch_answer fuel result; fetch_answers fuel n' result end.

(** [req_id] and [flags]. *)
Definition fetch_head : MP (Z * Z) :=
  req_id ← read W16 None;
  flags ← read W16 None;
  req_id ← the req_id;
  flags ← the flags;
  mret (req_id, flags).

(** The counts, the questions and the answers of a reply without error. *)
Definition fetch_body (fuel : nat) : MP Result :=
  qd_count ← read W16 None;
  an_count ← read W16 None;
  read W16 None;;
  read W16 None;;
  qd_count ← the qd_count;
  fetch_questions fuel (Z.to_nat qd_count);;
  an_count ← the an_count;
  fetch_answers fuel (Z.to_nat an_count) (mkResult kSuccess [] []).

(** ** Names in a packet (RFC 1035)

    A name is a sequence of labels that ends with a null byte or with a pointer to
    the rest of the name.  [name_at data p labs e]: the name at [p] has the labels
    [labs], and what follows it is at [e]. *)
Inductive name_at (data : list Z) : Z -> list (list Z) -> Z -> Prop :=
  | name_end p : index data p = Some 0 -> name_at data p [] (p + 1)
  | name_label p lab labs e :
      1 <= size lab < 64 -> index data p = Some (size lab) -> slice data (p + 1) (size lab) = Some lab ->
      name_at data (p + 1 + size lab) labs e -> name_at data p (lab :: labs) e
  | name_pointer p b1 b2 off labs e :
      index data p = Some b1 -> 192 <= b1 < 256 -> index data (p + 1) = Some b2 -> is_byte b2 ->
      off = (b1 - 192) * 256 + b2 -> off < size data -> labs <> [] ->
      name_at data off labs e -> name_at data p labs (p + 2).

(** The text of a name; a label is cut at a null character. *)
Definition name_text (labs : list (list Z)) : list Z := Join (map c_str labs) (str ".").

Section reading.

Context (data : list Z).
Hypothesis Hsize : size data < 2 ^ 64.

(** A parser of [data] at [p]. *)
Definition at_pos (e : endian) (p : Z) : deserializer := mkDes data (size data) e p.

Lemma index_bound p b : index data p = Some b -> 0 <= p < size data.
Proof.
  unfold index, size. destruct (Z.ltb_spec p 0); [done|]. intros Hi%lookup_lt_Some. lia.
Qed.

Lemma slice_bound p n l : slice data p n = Some l -> 0 <= p /\ 0 <= n /\ p + n <= size data /\ size l = n /\
  data = take (Z.to_nat p) data ++ l ++ drop (Z.to_nat (p + n)) data.
Proof using Type.
  unfold slice, size. destruct (0 <=? p) eqn:E1, (0 <=? n) eqn:E2, (p + n <=? _) eqn:E3; try done; cbn.
  intros [= <-]. rewrite length_take, length_drop. apply Z.leb_le in E1, E2, E3. split_and!; [lia..|].
  replace (Z.to_nat (p + n)) with (Z.to_nat p + Z.to_nat n)%nat by lia.
  rewrite <- drop_drop, take_drop, take_drop. done.
Qed.

Lemma read8 e p b old : index data p = Some b -> read W8 old (at_pos e p) = Ret (Some b, at_pos e (p + 1)).
Proof using Hsize.
  intros H. pose proof (index_bound _ _ H). unfold read, get, put, the, mbind, M_bind, at_pos. cbn.
  unfold fetch8, checkSize. cbn [d_pos d_size d_start]. rewrite (wrap_small 64) by (unfold in_range; lia).
  rewrite (proj2 (Z.leb_le _ _)) by lia. rewrite H. cbn. unfold des_done. cbn.
  by rewrite (wrap_small 64) by (unfold in_range; lia).
Qed.

Lemma read_bytes e p n l : slice data p n = Some l -> read_block n (at_pos e p) = Ret (Some l, at_pos e (p + n)).
Proof using Hsize.
  intros H. pose proof (slice_bound _ _ _ H) as (H1 & H2 & H3 & _). unfold read_block, get, put, the, mbind, M_bind, at_pos. cbn.
  unfold fetch_block, checkSize. cbn [d_pos d_size d_start]. rewrite (wrap_small 64) by (unfold in_range; lia).
  rewrite (proj2 (Z.leb_le _ _)) by lia. rewrite H. cbn. unfold des_done. cbn.
  by rewrite (wrap_small 64) by (unfold in_range; lia).
Qed.

(** The big-endian word at [p]. *)
Definition word_at (e : endian) (p : Z) (w : width) (v : Z) : Prop :=
  in_range (bits_of w) v /\
  slice data p (bytes_of w) = Some (in_order e (le_bytes (Z.to_nat (bytes_of w)) v)).

Lemma read_word e p w v old : word_at e p w v -> read w old (at_pos e p) = Ret (Some v, at_pos e (p + bytes_of w)).
Proof using Hsize.
  intros [Hv H]. pose proof (slice_bound _ _ _ H) as (H1 & H2 & H3 & H4 & Hd).
  assert (get_item (at_pos e p) (IUnsigned w v) =
    Some (at_pos e (p + bytes_of w), Some (IUnsigned w v))) as E.
  { rewrite (get_item_ok (at_pos e p) (IUnsigned w v) (take (Z.to_nat p) data) (drop (Z.to_nat (p + bytes_of w)) data)).
    - cbn. unfold at_pos. do 3 f_equal. rewrite length_take. unfold size in *. lia.
    - exact Hd.
    - done.
    - cbn. rewrite length_take. unfold size in *. lia.
    - exact Hsize.
    - exact Hv. }
  cbn in E. unfold read, get, put, the, mbind, M_bind. cbn -[bytes_of].
  destruct (fetch_uint w (at_pos e p)) as [[d [r|]]|]; cbn in E; simplify_eq. done.
Qed.

(** One step along a pointer. *)
Lemma fetch_pointer e p b1 b2 off fuel first oss :
  index data p = Some b1 -> 192 <= b1 < 256 -> index data (p + 1) = Some b2 -> is_byte b2 ->
  off = (b1 - 192) * 256 + b2 -> off < size data ->
  fetch_loop (S fuel) first oss (at_pos e p) =
  match fetch_loop fuel true [] (at_pos e off) with
  | Ret (name, _) => Ret ((if first then oss else oss ++ [DOT]) ++ name, at_pos e (p + 2))
  | Stuck => Stuck
  | OutOfFuel => OutOfFuel
  end.
Proof using Hsize.
  intros Hb1 Hr Hb2 Hbyte Hoff Hlt. cbn -[read read_block Z.land Z.lor Z.shiftl]. unfold mbind, M_bind.
  rewrite (read8 e p b1) by done. cbn -[read read_block Z.land Z.lor Z.shiftl].
  rewrite (proj2 (Z.eqb_neq _ _)) by lia.
  assert (forallb (fun b => implb (192 <=? b) ((Z.land b 192 =? 192) && (Z.land b 63 =? b - 192))) (seqZ 0 256) = true) as Hall by reflexivity.
  pose proof (range_forallb 256 _ Hall b1 ltac:(lia)) as Hmask. cbn beta in Hmask.
  rewrite (proj2 (Z.leb_le _ _)) in Hmask by lia. apply andb_true_iff in Hmask as [Hm1 Hm2%Z.eqb_eq].
  rewrite Hm1, Hm2.
  rewrite (read8 e (p + 1) b2) by done. cbn -[read read_block Z.land Z.lor Z.shiftl].
  rewrite shl_mul, (lor_fields _ _ 8) by (done || lia). change (2 ^ 8) with 256. rewrite <- Hoff.
  unfold with_copy, get, put, mbind, M_bind. cbn -[fetch_loop].
  assert ((set_pos (at_pos e (p + 1 + 1)) off).1 = at_pos e off) as ->.
  { unfold set_pos, at_pos. cbn. by rewrite (proj2 (Z.ltb_lt _ _)). }
  destruct (fetch_loop fuel true [] (at_pos e off)) as [[name d]| |]; [|done..].
  cbn. by replace (p + 1 + 1) with (p + 2) by lia.
Qed.

Lemma read_word_to e p q w v old : word_at e p w v -> q = p + bytes_of w ->
  read w old (at_pos e p) = Ret (Some v, at_pos e q).
Proof using Hsize. intros H ->. by apply read_word. Qed.

Lemma fetch_name e p labs p' : name_at data p labs p' -> eventually (fun fuel => forall first oss,
  fetch_loop fuel first oss (at_pos e p) = Ret (oss ++ join_loop (str ".") (negb first) (map c_str labs), at_pos e p')).
Proof using Hsize.
  induction 1 as [p Hp|p lab labs p' Hlab Hp Hs _ [f IH]|p b1 b2 off labs p' Hb1 Hr Hb2 Hbyte Hoff Hlt Hne _ [f IH]].
  - exists 1%nat. intros [|fuel] ? first oss; [lia|]. cbn -[read]. unfold mbind, M_bind.
    rewrite (read8 e p 0) by done. cbn. by rewrite app_nil_r.
  - exists (S f). intros [|fuel] ? first oss; [lia|]. cbn -[read read_block Z.land size]. unfold mbind, M_bind.
    rewrite (read8 e p (size lab)) by done. cbn -[read read_block Z.land size].
    rewrite (proj2 (Z.eqb_neq _ _)) by lia.
    assert (forallb (fun b => negb (Z.land b 192 =? 192)) (seqZ 0 64) = true) as Hall by reflexivity.
    pose proof (range_forallb 64 _ Hall (size lab) ltac:(lia)) as Hmask. cbn beta in Hmask.
    apply negb_true_iff in Hmask. rewrite Hmask.
    rewrite (read_bytes e (p + 1) (size lab) lab Hs). cbn -[read read_block].
    rewrite IH by lia. destruct first; cbn [negb join_loop map]; by rewrite <- ?app_assoc.
  - exists (S f). intros [|fuel] ? first oss; [lia|].
    rewrite (fetch_pointer e p b1 b2 off), IH by (done || lia).
    destruct labs as [|lab labs]; [done|]. destruct first; cbn; by rewrite <- ?app_assoc.
Qed.

(** A name that points to itself is followed for ever. *)
Lemma fetch_pointer_loop e p b1 b2 fuel : index data p = Some b1 -> 192 <= b1 < 256 -> index data (p + 1) = Some b2 ->
  is_byte b2 -> p = (b1 - 192) * 256 + b2 -> forall first oss, fetch_loop fuel first oss (at_pos e p) = OutOfFuel.
Proof using Hsize.
  intros Hb1 Hr Hb2 Hbyte Hoff. induction fuel as [|fuel IH]; intros first oss; [done|].
  pose proof (index_bound _ _ Hb1). rewrite (fetch_pointer e p b1 b2 p) by (done || lia). by rewrite IH.
Qed.

End reading.

(** ** Names that are written *)

Definition domain_bytes (labs : list (list Z)) : list Z := concat (map (fun l => size l :: l) labs) ++ [0].

Definition label_ok (l : list Z) : Prop := 1 <= size l < 64 /\ (DOT ∉ l) /\ (0 ∉ l).

Lemma put_items_app a b s : put_items s (a ++ b) =
  match put_items s a with
  | Some (s1, o1) => match put_items s1 b with Some (s2, o2) => Some (s2, o1 && o2) | None => None end
  | None => None
  end.
Proof.
  revert s. induction a as [|it a IH]; intros s; cbn.
  - by destruct (put_items s b) as [[? ?]|].
  - destruct (put_item s it) as [[s1 o1]|]; cbn; [|done]. rewrite IH.
    destruct (put_items s1 a) as [[s2 o2]|]; cbn; [|done].
    destruct (put_items s2 b) as [[s3 o3]|]; cbn; [|done]. by rewrite andb_assoc.
Qed.

Definition head_items (req_id : Z) : list item :=
  [IUnsigned W16 req_id; IUnsigned W16 0x0100; IUnsigned W16 1; IUnsigned W16 0; IUnsigned W16 0; IUnsigned W16 0].
Definition domain_items (labs : list (list Z)) : list item := concat (map segment labs) ++ [IUnsigned W8 0].
Definition tail_items : list item := [IUnsigned W16 DNS_TYPE_A; IUnsigned W16 DNS_CLASS_IN].

Lemma items_bytes_app e a b : Forall (fun it => next_endian e it = e) a ->
  items_bytes e (a ++ b) = items_bytes e a ++ items_bytes e b.
Proof.
  induction 1 as [|it a H _ IH]; [done|]. cbn. by rewrite H, IH, app_assoc.
Qed.

Lemma domain_items_ok labs : Forall label_ok labs ->
  Forall item_ok (domain_items labs) /\ items_bytes kBig (domain_items labs) = domain_bytes labs /\
  Forall (fun it => next_endian kBig it = kBig) (domain_items labs).
Proof.
  unfold domain_items, domain_bytes. induction 1 as [|l labs (Hl & _) _ (IH1 & IH2 & IH3)].
  - split_and!; [|done|by repeat constructor]. by repeat constructor.
  - assert (u8 (size l) = size l) as E by (apply (wrap_small 8); unfold in_range; lia).
    cbn [map concat app segment]. rewrite !E. split_and!.
    + constructor; [change (in_range 8 (size l)); unfold in_range; lia|]. by constructor.
    + cbn [items_bytes next_endian]. rewrite IH2. cbn [item_bytes]. cbn [app]. 
      rewrite <- app_assoc. change (Z.to_nat (bytes_of W8)) with 1%nat. cbn.
      rewrite (land_mask _ 255 8) by done. by rewrite Z.mod_small by lia.
    + by repeat constructor.
Qed.

Lemma join_cons l labs : labs <> [] -> Join (l :: labs) [DOT] = l ++ DOT :: Join labs [DOT].
Proof. by destruct labs. Qed.

Lemma domain_bytes_size labs : labs <> [] -> size (domain_bytes labs) = size (Join labs [DOT]) + 2.
Proof.
  unfold domain_bytes, size. induction labs as [|l labs IH]; [done|]. intros _.
  destruct (decide (labs = [])) as [->|Hne].
  - cbn. rewrite ?length_app. cbn. rewrite ?length_app. cbn. lia.
  - rewrite join_cons by done. specialize (IH Hne). cbn [map concat app length]. cbn in IH.
    rewrite !length_app in *. cbn [length] in *. rewrite ?length_app in *. lia.
Qed.

Lemma query_bytes req_id labs : in_range 16 req_id -> labs <> [] -> Forall label_ok labs ->
  size (Join labs [DOT]) < 2 ^ 32 ->
  query req_id (Join labs [DOT]) =
    Some (items_bytes kBig (head_items req_id) ++ domain_bytes labs ++ [0; 1; 0; 1]).
Proof.
  intros Hid Hne Hl Hs. destruct (domain_items_ok labs Hl) as (H1 & H2 & H3).
  assert (Split (Join labs [DOT]) (str ".") = Some labs) as HS.
  { apply (split_join_parts DOT); [done| |unfold SIZE_MAX; lia].
    eapply Forall_impl; [exact Hl|]. by intros l (_ & ? & _). }
  assert (Forall item_ok (head_items req_id)) as Hh.
  { unfold head_items. by repeat (constructor; [first [exact Hid | by split]|]). }
  assert (Forall item_ok tail_items) as Ht by (unfold tail_items; by repeat (constructor; [by split|])).
  pose proof (domain_bytes_size labs Hne) as Hd.
  assert (items_bytes kBig (head_items req_id ++ domain_items labs ++ tail_items) =
    items_bytes kBig (head_items req_id) ++ domain_bytes labs ++ [0; 1; 0; 1]) as Eb.
  { rewrite items_bytes_app by (unfold head_items; by repeat constructor). by rewrite items_bytes_app, H2. }
  destruct (put_items_ok (head_items req_id ++ domain_items labs ++ tail_items) (vector_serializer [] kBig) [] [])
    as (s & Es & Hb & _).
  - by apply (new_at_end kVector).
  - rewrite !Forall_app. auto.
  - done.
  - pose proof (items_bytes_length (head_items req_id ++ domain_items labs ++ tail_items) kBig) as Hlen.
    rewrite Eb, !length_app in Hlen. cbn [length] in Hlen |- *. unfold size in *.
    assert (length (items_bytes kBig (head_items req_id)) = 12%nat) as H12 by done. lia.
  - assert (left_over (vector_serializer [] kBig) [] (head_items req_id ++ domain_items labs ++ tail_items) = []) as El.
    { done. }
    unfold query, AppendDomain. rewrite HS. rewrite !put_items_app in Es. fold (head_items req_id) tail_items.
    destruct (put_items (vector_serializer [] kBig) (head_items req_id)) as [[s1 o1]|]; [|done].
    rewrite put_items_app in Es. opt. cbn beta iota. fold (domain_items labs). destruct (put_items s1 (domain_items labs)) as [[s2 o2]|]; [|done].
    opt. cbn beta iota. destruct (put_items s2 tail_items) as [[s3 o3]|]; [|done].
    injection Es as -> _. opt. cbn beta iota. by rewrite Hb, El, <- Eb, app_nil_r.
Qed.

Lemma domain_bytes_cons l labs : domain_bytes (l :: labs) = size l :: l ++ domain_bytes labs.
Proof. unfold domain_bytes. cbn. by rewrite <- app_assoc. Qed.

Lemma size_app_cons (pre l : list Z) c : size (pre ++ c :: l) = size pre + 1 + size l.
Proof. unfold size. rewrite length_app. cbn. lia. Qed.

Lemma index_at (pre post : list Z) c : index (pre ++ c :: post) (size pre) = Some c.
Proof.
  pose proof (index_app pre (c :: post) [] (size pre) 0 eq_refl) as H.
  rewrite Z.add_0_r, app_nil_r in H. apply H. cbn. lia.
Qed.

Lemma name_at_append labs : Forall label_ok labs -> forall pre post,
  name_at (pre ++ domain_bytes labs ++ post) (size pre) labs (size pre + size (domain_bytes labs)).
Proof.
  induction 1 as [|l labs (Hl & _) _ IH]; intros pre post.
  - apply name_end. exact (index_at pre post 0).
  - specialize (IH (pre ++ size l :: l) post). rewrite <- app_assoc in IH. cbn [app] in IH.
    rewrite domain_bytes_cons. cbn [app]. rewrite <- app_assoc.
    replace (size pre + size (size l :: l ++ domain_bytes labs))
      with (size (pre ++ size l :: l) + size (domain_bytes labs))
      by (rewrite size_app_cons; unfold size; cbn; rewrite length_app; lia).
    apply name_label.
    + exact Hl.
    + apply index_at.
    + replace (pre ++ size l :: l ++ domain_bytes labs ++ post) with ((pre ++ [size l]) ++ l ++ domain_bytes labs ++ post)
        by (by rewrite <- app_assoc).
      apply slice_app; [|done]. unfold size. rewrite length_app. cbn. lia.
    + rewrite size_app_cons in IH |- *. exact IH.
Qed.

(** ** Replies of RFC 1035 *)

Inductive record :=
  | RA (ttl ip : Z)
  | RCname (ttl : Z) (labs : list (list Z))
  | ROther.

Section replies.

Context (data : list Z).
Hypothesis Hsize : size data < 2 ^ 64.

Notation be := (word_at data kBig).

Definition question_at (p p' : Z) : Prop :=
  exists labs p1 ty cl, name_at data p labs p1 /\ be p1 W16 ty /\ be (p1 + 2) W16 cl /\ p' = p1 + 4.

(** A record: its name, type, class, time to live, length, and its data; an address
    is read as the memory of a little-endian word. *)
Definition record_at (p : Z) (r : record) (p' : Z) : Prop :=
  exists labs p1 ty cl ttl len, name_at data p labs p1 /\
    be p1 W16 ty /\ be (p1 + 2) W16 cl /\ be (p1 + 4) W32 ttl /\ be (p1 + 8) W16 len /\
    match r with
    | RA ttl' ip => ty = DNS_TYPE_A /\ ttl' = ttl /\ word_at data kLittle (p1 + 10) W32 ip /\ p' = p1 + 14
    | RCname ttl' labs' => ty = DNS_TYPE_CNAME /\ ttl' = ttl /\ name_at data (p1 + 10) labs' p'
    | ROther => ty <> DNS_TYPE_A /\ ty <> DNS_TYPE_CNAME /\ p1 + 10 + len <= size data /\ p' = p1 + 10 + len
    end.

Inductive questions_at : Z -> nat -> Z -> Prop :=
  | questions_end p : questions_at p 0 p
  | questions_more p p1 n p' : question_at p p1 -> questions_at p1 n p' -> questions_at p (S n) p'.

Inductive records_at : Z -> list record -> Z -> Prop :=
  | records_end p : records_at p [] p
  | records_more p r p1 rs p' : record_at p r p1 -> records_at p1 rs p' -> records_at p (r :: rs) p'.

(** What the user is told. *)
Definition collect_record (res : Result) (r : record) : Result :=
  match r with
  | RA ttl ip => push_a res ttl ip
  | RCname ttl labs => push_cname res ttl (name_text labs)
  | ROther => res
  end.
Definition collect (rs : list record) : Result := foldl collect_record (mkResult kSuccess [] []) rs.

(** A reply without error to the query [id]. *)
Definition reply_at (id flags : Z) (rs : list record) : Prop :=
  exists qd nq c1 c2 p p', be 0 W16 id /\ be 2 W16 flags /\ be 4 W16 qd /\ be 6 W16 (Z.of_nat (length rs)) /\
    be 8 W16 c1 /\ be 10 W16 c2 /\ qd = Z.of_nat nq /\ questions_at 12 nq p /\ records_at p rs p'.

Ltac open := unfold mbind, M_bind; cbn -[read set_endian FetchDomain skip bytes_of].
Ltac step H q := rewrite (read_word_to data Hsize _ _ q _ _ _ H) by (cbn; lia); open.

Lemma fetch_domain e p labs p' : name_at data p labs p' ->
  eventually (fun fuel => FetchDomain fuel (at_pos data e p) = Ret (name_text labs, at_pos data e p')).
Proof using Hsize.
  intros H. apply (eventually_mono _ _) with (2 := fetch_name data Hsize e p labs p' H).
  intros fuel Hf. apply Hf.
Qed.

Lemma fetch_question_ok p p' : question_at p p' ->
  eventually (fun fuel => fetch_question fuel (at_pos data kBig p) = Ret ((), at_pos data kBig p')).
Proof using Hsize.
  intros (labs & p1 & ty & cl & Hn & H1 & H2 & ->).
  apply (eventually_mono _ _) with (2 := fetch_domain kBig p labs p1 Hn). intros fuel Hf.
  unfold fetch_question. open. rewrite Hf. open. step H1 (p1 + 2). by step H2 (p1 + 4).
Qed.

Lemma fetch_answer_ok p r p' res : record_at p r p' ->
  eventually (fun fuel => fetch_answer fuel res (at_pos data kBig p) = Ret (collect_record res r, at_pos data kBig p')).
Proof using Hsize.
  intros (labs & p1 & ty & cl & ttl & len & Hn & H1 & H2 & H3 & H4 & Hr).
  pose proof (fetch_domain kBig p labs p1 Hn) as Hf.
  destruct r as [ttl' ip|ttl' labs'|].
  - destruct Hr as (-> & -> & H5 & ->). revert Hf. apply eventually_mono. intros fuel Hf.
    unfold fetch_answer. open. rewrite Hf. open. step H1 (p1 + 2). step H2 (p1 + 4). step H3 (p1 + 8). step H4 (p1 + 10).
    change (set_endian kLittle (at_pos data kBig (p1 + 10))) with (Ret (kBig, at_pos data kLittle (p1 + 10))). open.
    step H5 (p1 + 14).
    change (set_endian kBig (at_pos data kLittle (p1 + 14))) with (Ret (kLittle, at_pos data kBig (p1 + 14))). by open.
  - destruct Hr as (-> & -> & H5).
    pose proof (eventually_and _ _ Hf (fetch_domain kBig (p1 + 10) labs' p' H5)) as Hb. revert Hb.
    apply eventually_mono. intros fuel [Hf1 Hf2].
    unfold fetch_answer. open. rewrite Hf1. open. step H1 (p1 + 2). step H2 (p1 + 4). step H3 (p1 + 8). step H4 (p1 + 10).
    rewrite Hf2. by open.
  - destruct Hr as (Ha & Hc & Hb & ->). revert Hf. apply eventually_mono. intros fuel Hf.
    unfold fetch_answer. open. rewrite Hf. open. step H1 (p1 + 2). step H2 (p1 + 4). step H3 (p1 + 8). step H4 (p1 + 10).
    rewrite !(proj2 (Z.eqb_neq _ _)) by done. open.
    unfold skip, get, put, mbind, M_bind. cbn. unfold des_skip, checkSize, at_pos. cbn [d_pos d_size].
    destruct H4 as [[Hl0 Hl1] H4]. apply slice_bound in H4 as (? & _).
    rewrite (wrap_small 64) by (unfold in_range; lia).
    rewrite (proj2 (Z.leb_le _ _)) by lia. cbn. unfold des_done. cbn.
    by rewrite (wrap_small 64) by (unfold in_range; lia).
Qed.

Lemma fetch_questions_ok p n p' : questions_at p n p' ->
  eventually (fun fuel => fetch_questions fuel n (at_pos data kBig p) = Ret ((), at_pos data kBig p')).
Proof using Hsize.
  induction 1 as [p|p p1 n p' Hq _ IH]; [by apply eventually_all|].
  pose proof (eventually_and _ _ (fetch_question_ok _ _ Hq) IH) as Hb. revert Hb.
  apply eventually_mono. intros fuel [H1 H2]. cbn. unfold mbind, M_bind. by rewrite H1.
Qed.

Lemma fetch_answers_ok p rs p' : records_at p rs p' -> forall res,
  eventually (fun fuel => fetch_answers fuel (length rs) res (at_pos data kBig p) =
    Ret (foldl collect_record res rs, at_pos data kBig p')).
Proof using Hsize.
  induction 1 as [p|p r p1 rs p' Hr _ IH]; intros res; [by apply eventually_all|].
  pose proof (eventually_and _ _ (fetch_answer_ok _ _ _ res Hr) (IH (collect_record res r))) as Hb. revert Hb.
  apply eventually_mono. intros fuel [H1 H2]. cbn. unfold mbind, M_bind. by rewrite H1.
Qed.

Lemma fetch_reply id flags rs : reply_at id flags rs ->
  fetch_head (at_pos data kBig 0) = Ret ((id, flags), at_pos data kBig 4) /\
  eventually (fun fuel => exists d, fetch_body fuel (at_pos data kBig 4) = Ret (collect rs, d)).
Proof using Hsize.
  intros (qd & nq & c1 & c2 & p & p' & H0 & H2 & H4 & H6 & H8 & H10 & -> & Hq & Hr). split.
  - unfold fetch_head. open. step H0 2. by step H2 4.
  - pose proof (eventually_and _ _ (fetch_questions_ok _ _ _ Hq) (fetch_answers_ok _ _ _ Hr (mkResult kSuccess [] []))) as Hb.
    revert Hb. apply eventually_mono. intros fuel [E1 E2]. exists (at_pos data kBig p').
    unfold fetch_body. open. step H4 6. step H6 8. step H8 10. step H10 12.
    rewrite !Nat2Z.id, E1. open. by rewrite E2.
Qed.

End replies.

(** ** Requests *)

Inductive call :=
  | CRequest (domain : list Z) (cb : option nat)
  | CCancel (req_id : Z).

Inductive event :=
  | Did (c : call)
  | Asked (req_id : Z) (domain : list Z) (cb : option nat)
  | SetServers (n : nat)
  | Got (data : list Z)
  | Tick
  | Expired (req_id : Z).

(** A packet to every server, and calls of callbacks. *)
Inductive output :=
  | Query (packet : list Z) (servers : nat)
  | Called (req_id : Z) (cb : nat) (result : Result).

(** [DnsRequest]; of the addresses of the servers their number matters.  [running_]
    are the requests whose callbacks run: to erase one destroys the function that is
    running. *)
Record dns := mkDns {
  udp_enabled : bool;
  timeout_monitor_ : monitor Z;
  dns_ip_vec_ : nat;
  req_id_alloc_ : Z;
  requests_ : gmap Z (option nat * Z);
  running_ : list Z;
  log : list event;
  out : list output }.

Definition set_requests (udp : bool) (r : gmap Z (option nat * Z)) (w : dns) : dns :=
  mkDns udp (timeout_monitor_ w) (dns_ip_vec_ w) (req_id_alloc_ w) r (running_ w) (log w) (out w).
Definition set_servers (n : nat) (w : dns) : dns :=
  mkDns (udp_enabled w) (timeout_monitor_ w) n (req_id_alloc_ w) (requests_ w) (running_ w) (log w) (out w).
Definition set_alloc (i : Z) (w : dns) : dns :=
  mkDns (udp_enabled w) (timeout_monitor_ w) (dns_ip_vec_ w) i (requests_ w) (running_ w) (log w) (out w).
Definition set_running (l : list Z) (w : dns) : dns :=
  mkDns (udp_enabled w) (timeout_monitor_ w) (dns_ip_vec_ w) (req_id_alloc_ w) (requests_ w) l (log w) (out w).
Definition add_event (e : event) (w : dns) : dns :=
  mkDns (udp_enabled w) (timeout_monitor_ w) (dns_ip_vec_ w) (req_id_alloc_ w) (requests_ w) (running_ w)
    (log w ++ [e]) (out w).
Definition add_output (o : output) (w : dns) : dns :=
  mkDns (udp_enabled w) (timeout_monitor_ w) (dns_ip_vec_ w) (req_id_alloc_ w) (requests_ w) (running_ w)
    (log w) (out w ++ [o]).

#[export, refine] Instance dns_monitor : HasMonitor dns Z := {|
  get_mon := timeout_monitor_;
  put_mon m w := mkDns (udp_enabled w) m (dns_ip_vec_ w) (req_id_alloc_ w) (requests_ w) (running_ w) (log w) (out w) |}.
Proof. all: done. Defined.

Definition MD := M dns.
Definition note (e : event) : MD () := modify (add_event e).
Definition emit (o : output) : MD () := modify (add_output o).

(** [init] sets up the monitor: five ticks. *)
Definition new_dns (servers : nat) : dns :=
  mkDns false (mkMonitor (ring 5) (Some O) 0 true 0 false) servers 0 ∅ [] [] [].

Section operations.

Context (fuel : nat) (done_cb : nat -> list event -> Result -> list call).

Definition addRequest (req_id : Z) (cb : option nat) : MD () :=
  w ← get;
  modify (set_requests (if decide (requests_ w = ∅) then true else udp_enabled w) (<[req_id := (cb, 0)]> (requests_ w)));;
  add req_id.

(** The result of [return false] is the number 0. *)
Definition request (domain : list Z) (cb : option nat) : MD Z :=
  w ← get;
  match dns_ip_vec_ w with
  | O => mret 0
  | n =>
      let req_id := u16 (req_id_alloc_ w + 1) in
      modify (set_alloc req_id);;
      send_buff ← the (query req_id domain);
      note (Asked req_id domain cb);;
      emit (Query send_buff n);;
      addRequest req_id cb;;
      mret req_id
  end.

Definition deleteRequest (req_id : Z) : MD bool :=
  w ← get;
  match requests_ w !! req_id with
  | Some _ =>
      if decide (req_id ∈ running_ w) then stuck
      else
        let r := delete req_id (requests_ w) in
        modify (set_requests (if decide (r = ∅) then false else udp_enabled w) r);;
        mret true
  | None => mret false
  end.

Definition cancel (req_id : Z) : MD bool := deleteRequest req_id.

Definition isRunning (w : dns) (req_id : Z) : bool := if requests_ w !! req_id is Some _ then true else false.

Definition setDnsIPAddresses (n : nat) : MD () := modify (set_servers n);; note (SetServers n).

Definition do_call (c : call) : MD () :=
  note (Did c);;
  match c with
  | CRequest domain cb => request domain cb;; mret ()
  | CCancel req_id => cancel req_id;; mret ()
  end.

Fixpoint do_calls (l : list call) : MD () :=
  match l with [] => mret () | c :: l' => do_call c;; do_calls l' end.

(** [if (req->cb) req->cb(result);] *)
Definition call_cb (req_id : Z) (cb : option nat) (result : Result) : MD () :=
  match cb with
  | None => mret ()
  | Some f =>
      w ← get;
      modify (set_running (req_id :: running_ w));;
      emit (Called req_id f result);;
      do_calls (done_cb f (log w) result);;
      modify (set_running (running_ w))
  end.

Definition finish (req_id : Z) (cb : option nat) (result : Result) : MD () :=
  call_cb req_id cb result;; deleteRequest req_id;; mret ().

Definition onRequestTimeout (req_id : Z) : MD () :=
  note (Expired req_id);;
  w ← get;
  match requests_ w !! req_id with
  | None => mret ()
  | Some (cb, _) => finish req_id cb (mkResult kTimeout [] [])
  end.

(** A parser that runs beside the object. *)
Definition with_parser {A} (parser : deserializer) (m : MP A) : MD (A * deserializer) :=
  fun w => match m parser with
           | Ret r => Ret (r, w)
           | Stuck => Stuck
           | OutOfFuel => OutOfFuel
           end.

Definition onUdpRecv (data : list Z) : MD () :=
  note (Got data);;
  w ← get;
  if decide (requests_ w = ∅) then mret ()
  else
    '((req_id, flags), parser) ← with_parser (new_deserializer data kBig) fetch_head;
    match requests_ w !! req_id with
    | None => mret ()
    | Some (cb, response_count) =>
        if Z.land flags 0x8000 =? 0 then mret ()
        else
          let rcode := Z.land flags 0xf in
          if rcode =? 0 then
            '(result, _) ← with_parser parser (fetch_body fuel);
            finish req_id cb result
          else if rcode =? DNS_RC_NAME_ERROR then finish req_id cb (mkResult kDomainError [] [])
          else if rcode =? DNS_RC_FORMAT_ERROR then finish req_id cb (mkResult kFail [] [])
          else
            modify (set_requests (udp_enabled w) (<[req_id := (cb, response_count + 1)]> (requests_ w)));;
            if response_count + 1 <? Z.of_nat (dns_ip_vec_ w) then mret ()
            else finish req_id cb (mkResult kAllDnsFail [] [])
    end.

Inductive op := Call (c : call) | Servers (n : nat) | Recv (data : list Z) | TimerTick.

Definition exec (o : op) : MD () :=
  match o with
  | Call c => do_call c
  | Servers n => setDnsIPAddresses n
  | Recv data => onUdpRecv data
  | TimerTick => note Tick;; onTimerTick onRequestTimeout
  end.

Fixpoint run (l : list op) : MD () :=
  match l with [] => mret () | o :: l' => exec o;; run l' end.

(** ** What the resolver promises *)

(** What a datagram says, when all that is read of it is there. *)
Inductive reading := NotReply | Trouble | Answer (result : Result).

Definition reading_of (data : list Z) : option (Z * reading) :=
  match fetch_head (new_deserializer data kBig) with
  | Ret ((req_id, flags), parser) =>
      let rcode := Z.land flags 0xf in
      if Z.land flags 0x8000 =? 0 then Some (req_id, NotReply)
      else if rcode =? 0 then
        match fetch_body fuel parser with Ret (result, _) => Some (req_id, Answer result) | _ => None end
      else if rcode =? DNS_RC_NAME_ERROR then Some (req_id, Answer (mkResult kDomainError [] []))
      else if rcode =? DNS_RC_FORMAT_ERROR then Some (req_id, Answer (mkResult kFail [] []))
      else Some (req_id, Trouble)
  | _ => None
  end.

(** The pending requests, with the servers that were in trouble, and the number of
    servers. *)
Definition spec : Type := gmap Z (option nat * Z) * nat.

(** The request that an event settles, and how. *)
Definition settles (s : spec) (e : event) : option (Z * option nat * Result) :=
  match e with
  | Expired req_id => '(cb, _) ← s.1 !! req_id; Some (req_id, cb, mkResult kTimeout [] [])
  | Got data =>
      '(req_id, r) ← reading_of data;
      '(cb, k) ← s.1 !! req_id;
      match r with
      | NotReply => None
      | Answer result => Some (req_id, cb, result)
      | Trouble => if k + 1 <? Z.of_nat s.2 then None else Some (req_id, cb, mkResult kAllDnsFail [] [])
      end
  | _ => None
  end.

(** One more server in trouble. *)
Definition count (s : spec) (data : list Z) : gmap Z (option nat * Z) :=
  match reading_of data with
  | Some (req_id, Trouble) => alter (fun v => (v.1, v.2 + 1)) req_id s.1
  | _ => s.1
  end.

Definition spec_step (s : spec) (e : event) : spec :=
  match e with
  | Asked req_id _ cb => (<[req_id := (cb, 0)]> s.1, s.2)
  | SetServers n => (s.1, n)
  | Did (CCancel req_id) => (delete req_id s.1, s.2)
  | Got data =>
      match settles s e with Some (req_id, _, _) => (delete req_id s.1, s.2) | None => (count s data, s.2) end
  | Expired req_id => (delete req_id s.1, s.2)
  | _ => s
  end.

Definition effect (s : spec) (e : event) : list output :=
  match e with
  | Asked req_id domain _ => match query req_id domain with Some p => [Query p s.2] | None => [] end
  | _ => match settles s e with Some (req_id, Some f, result) => [Called req_id f result] | _ => [] end
  end.

Fixpoint effects_from (s : spec) (l : list event) : list output :=
  match l with [] => [] | e :: l' => effect s e ++ effects_from (spec_step s e) l' end.

Definition state (servers : nat) (l : list event) : spec := foldl spec_step (∅, servers) l.
Definition effects (servers : nat) (l : list event) : list output := effects_from (∅, servers) l.

End operations.

Definition timed (e : event) : option (tevent Z) :=
  match e with
  | Asked id _ _ => Some (Added id)
  | Tick => Some Ticked
  | Expired id => Some (Fired id)
  | _ => None
  end.
Definition times (l : list event) : list (tevent Z) := omap timed l.

Definition asks (e : event) : bool := match e with Asked _ _ _ => true | _ => false end.
Definition asked (l : list event) : Z := Z.of_nat (length (filter (fun e => asks e = true) l)).

Definition is_called (id : Z) (o : output) : bool := match o with Called id' _ _ => id =? id' | _ => false end.
Definition times_called (id : Z) (l : list output) : nat := length (filter (fun o => is_called id o = true) l).

(** Requests get the numbers 1, 2, ... and expire at the fifth tick. *)
Definition event_ok (before : list event) (e : event) : Prop :=
  match e with
  | Asked id _ _ => id = asked before + 1
  | Expired id => timely 5 id (times before)
  | _ => True
  end.
Definition explained (l : list event) : Prop :=
  forall before e after, l = before ++ e :: after -> event_ok before e.

#[global] Arguments query : simpl never.

(** *** Every domain has a query *)

Lemma its_size_cons it its : its_size (it :: its) = item_size it + its_size its.
Proof. done. Qed.

Lemma its_size_app a b : its_size (a ++ b) = its_size a + its_size b.
Proof. induction a as [|it a IH]; [done|]. cbn [app]. rewrite !its_size_cons, IH. lia. Qed.

Lemma segments_size v : Forall item_ok (concat (map segment v) ++ [IUnsigned W8 0]) /\
  its_size (concat (map segment v)) = Z.of_nat (length v) + its_size (map IBlock v).
Proof.
  split.
  - apply Forall_app. split; [|by repeat constructor]. induction v as [|x v IH]; [done|]. cbn.
    constructor; [apply (wrap_range 8); lia|]. by constructor.
  - induction v as [|x v IH]; [done|]. cbn [map concat length]. rewrite its_size_app, IH.
    unfold segment. rewrite !its_size_cons. cbn [item_size bytes_of]. change (its_size []) with 0. lia.
Qed.

Lemma join_size v : v <> [] -> Z.of_nat (length v) + its_size (map IBlock v) = size (Join v [DOT]) + 1.
Proof.
  induction v as [|x v IH]; [done|]. intros _. destruct (decide (v = [])) as [->|Hv].
  - cbn [map length]. rewrite its_size_cons. cbn. unfold size. rewrite app_nil_r. lia.
  - rewrite join_cons by done. unfold size in *. rewrite length_app. specialize (IH Hv). cbn [map length].
    rewrite its_size_cons. cbn [item_size]. lia.
Qed.

Lemma query_total req_id domain : in_range 16 req_id -> size domain < 2 ^ 32 -> is_Some (query req_id domain).
Proof.
  intros Hid Hs.
  destruct (split_loop_join domain (str ".") (S (length domain)) [] domain []) as (v & E & Hv & Hj);
    [done|done|unfold SIZE_MAX; lia|lia|]. cbn [app] in E. change (size []) with 0 in E.
  destruct (segments_size v) as [Hok Hsz]. pose proof (join_size v Hv) as Hj2. rewrite <- Hj in Hs.
  assert (Forall item_ok (head_items req_id)) as Hh.
  { unfold head_items. by repeat (constructor; [first [exact Hid | by split]|]). }
  assert (Forall item_ok tail_items) as Ht by (unfold tail_items; by repeat (constructor; [by split|])).
  destruct (put_items_ok (head_items req_id ++ (concat (map segment v) ++ [IUnsigned W8 0]) ++ tail_items)
    (vector_serializer [] kBig) [] []) as (s & Es & _).
  - by apply (new_at_end kVector).
  - rewrite !(Forall_app item_ok (head_items req_id)), (Forall_app item_ok (concat _ ++ _)). auto.
  - done.
  - rewrite !its_size_app, Hsz. cbn [length]. change (its_size (head_items req_id)) with 12.
    change (its_size tail_items) with 4. change (its_size [IUnsigned W8 0]) with 1.
    change (str ".") with [DOT] in *. lia.
  - unfold query, AppendDomain. unfold Split. rewrite E. rewrite put_items_app in Es.
    fold (head_items req_id) tail_items.
    destruct (put_items (vector_serializer [] kBig) (head_items req_id)) as [[s1 o1]|]; [|done].
    rewrite put_items_app in Es. opt. cbn beta iota.
    destruct (put_items s1 (concat (map segment v) ++ [IUnsigned W8 0])) as [[s2 o2]|]; [|done].
    opt. cbn beta iota. by destruct (put_items s2 tail_items) as [[s3 o3]|].
Qed.

(** *** The invariant *)

Section proofs.

Context (fuel : nat) (done_cb : nat -> list event -> Result -> list call) (servers : nat).

Notation at_log := (state fuel servers).
Notation promised := (effects fuel servers).

Section snoc.
Context (lg : list event) (e : event).
Lemma state_snoc : at_log (lg ++ [e]) = spec_step fuel (at_log lg) e.
Proof. unfold state. by rewrite foldl_app. Qed.
Lemma dns_times_snoc : times (lg ++ [e]) = times lg ++ option_list (timed e).
Proof. unfold times. rewrite omap_app. cbn. by destruct (timed e). Qed.
Lemma dns_asked_snoc : asked (lg ++ [e]) = asked lg + (if asks e then 1 else 0).
Proof.
  unfold asked. rewrite filter_app, length_app, filter_cons, filter_nil.
  case_decide as E; [rewrite E|destruct (asks e); [done|]]; cbn; lia.
Qed.
Lemma dns_effects_snoc : promised (lg ++ [e]) = promised lg ++ effect fuel (at_log lg) e.
Proof.
  unfold effects, state. generalize (∅ : gmap Z (option nat * Z), servers).
  induction lg as [|x l IH]; intros s; cbn; [by rewrite app_nil_r|]. by rewrite IH, app_assoc.
Qed.
Lemma dns_explained_snoc : explained lg -> event_ok lg e -> explained (lg ++ [e]).
Proof.
  intros H He before x after E. destruct after as [|y after _] using rev_ind.
  - apply app_inj_tail in E as [-> ->]. done.
  - rewrite app_comm_cons, app_assoc in E. apply app_inj_tail in E as [-> ->]. by apply (H _ _ after).
Qed.
End snoc.

Lemma dns_called_app id a b : times_called id (a ++ b) = (times_called id a + times_called id b)%nat.
Proof. unfold times_called. by rewrite filter_app, length_app. Qed.

Lemma dns_called_one i id f res : times_called i [Called id f res] = if i =? id then 1%nat else 0%nat.
Proof.
  unfold times_called. rewrite filter_cons, filter_nil. cbn [is_called].
  destruct (i =? id); [by rewrite decide_True|by rewrite decide_False].
Qed.

(** [l] are the numbers of a tick that are still to be handled, [r] the request
    whose callback runs: it is still in the map. *)
Record inv (l : list Z) (r : option (Z * (option nat * Z))) (w : dns) : Prop := {
  d_servers : dns_ip_vec_ w = (at_log (log w)).2;
  d_alloc : req_id_alloc_ w = asked (log w);
  d_small : asked (log w) < 2 ^ 16;
  d_requests : requests_ w =
    match r with Some (id, v) => <[id := v]> (at_log (log w)).1 | None => (at_log (log w)).1 end;
  d_running : running_ w = match r with Some (id, _) => [id] | None => [] end;
  d_run : match r with Some (id, _) => (at_log (log w)).1 !! id = None /\ id <= asked (log w) | None => True end;
  d_udp : udp_enabled w = bool_decide (requests_ w <> ∅);
  d_out : out w = promised (log w);
  d_tracks : tracks 5 l (timeout_monitor_ w) (times (log w));
  d_added id : added id (times (log w)) <-> 1 <= id <= asked (log w);
  d_pend id : is_Some ((at_log (log w)).1 !! id) ->
    added id (times (log w)) /\ ~ fired id (times (log w)) /\ times_called id (out w) = 0%nat;
  d_called id : (times_called id (out w) <= 1)%nat;
  d_new id : asked (log w) < id -> times_called id (out w) = 0%nat;
  d_explained : explained (log w) }.

Ltac run := unfold note, emit, get, put, modify, the, mbind, M_bind; cbn.

(** *** Calls *)

Definition call_legal (before : list event) (c : call) : Prop :=
  match c with CRequest domain _ => size domain < 2 ^ 32 | CCancel _ => True end.
Definition call_asks (c : call) : Z := match c with CRequest _ _ => 1 | _ => 0 end.
Definition calls_ask (l : list call) : Z := foldr (fun c k => call_asks c + k) 0 l.

(** Domains are no longer than 2^32, less than 2^16 requests are made in all. *)
Definition calls_legal (before : list event) (l : list call) : Prop :=
  Forall (call_legal before) l /\ (calls_ask l = 0 \/ asked before + calls_ask l < 2 ^ 16).

(** A callback cancels no other requests than those that wait. *)
Definition callbacks_legal : Prop :=
  forall f before res, calls_legal before (done_cb f before res) /\
    Forall (fun c => if c is CCancel id then is_Some ((at_log before).1 !! id) else True) (done_cb f before res).

Lemma request_ok l r w domain cb : inv l r w -> size domain < 2 ^ 32 -> asked (log w) + 1 < 2 ^ 16 ->
  exists w' id, request domain cb w = Ret (id, w') /\ inv l r w' /\ asked (log w') <= asked (log w) + 1.
Proof.
  intros Hi Hd Hn. pose proof (d_alloc _ _ _ Hi) as Ha. assert (0 <= asked (log w)) as H0 by (unfold asked; lia).
  unfold request. run. destruct (dns_ip_vec_ w) as [|n] eqn:En; [exists w, 0; split_and!; [done|done|lia]|].
  set (id := u16 (req_id_alloc_ w + 1)).
  assert (id = asked (log w) + 1) as Hid by (unfold id; rewrite Ha, (wrap_small 16) by (unfold in_range; lia); done).
  destruct (query_total id domain) as [p Ep]; [unfold in_range; lia|done|].
  assert (~ added id (times (log w))) as Hnew by (rewrite (d_added _ _ _ Hi); lia).
  destruct (tracks_add _ _ _ _ id (d_tracks _ _ _ Hi) Hnew) as (m & Em & Htr).
  set (e := Asked id domain cb).
  assert (asked (log w ++ [e]) = asked (log w) + 1) as Ea by (by rewrite dns_asked_snoc).
  exists (mkDns true m (dns_ip_vec_ w) id (<[id := (cb, 0)]> (requests_ w)) (running_ w) (log w ++ [e])
    (out w ++ [Query p (S n)])), id. split.
  { unfold addRequest, add, change. run. rewrite Ep. cbn. rewrite Em. cbn. rewrite En.
    destruct (decide (requests_ w = ∅)) as [|Hne]; [done|].
    by rewrite (d_udp _ _ _ Hi), bool_decide_true. }
  split; [|cbn; lia]. destruct Hi.
  assert ((at_log (log w)).1 !! id = None) as Hpn.
  { destruct ((at_log (log w)).1 !! id) eqn:E; [|done]. destruct Hnew. apply d_pend0. by eexists. }
  assert (times (log w ++ [e]) = times (log w) ++ [Added id]) as Et by (by rewrite dns_times_snoc).
  assert (forall i, times_called i (out w ++ [Query p (S n)]) = times_called i (out w)) as Ec
    by (intros i; rewrite dns_called_app; apply Nat.add_0_r).
  split; cbn [dns_ip_vec_ req_id_alloc_ requests_ running_ udp_enabled out timeout_monitor_ log];
    rewrite ?Ea, ?Et, ?state_snoc; auto; unfold e; cbn [spec_step fst snd].
  - rewrite d_requests0. destruct r as [[i v]|]; [|done]. rewrite insert_insert_ne; [done|]. intros <-. lia.
  - destruct r as [[i v]|]; [|done]. destruct d_run0. rewrite lookup_insert_ne by lia. split; [done|lia].
  - symmetry. apply bool_decide_eq_true. apply insert_non_empty.
  - rewrite dns_effects_snoc, d_out0. unfold e. cbn [effect]. by rewrite Ep, <- d_servers0, En.
  - intros i. rewrite added_snoc, d_added0. split; [intros [?|[= <-]]; lia|].
    intros H'. destruct (decide (i = id)) as [->|]; [by right|left; lia].
  - intros i. rewrite added_snoc, fired_snoc, Ec. destruct (decide (i = id)) as [->|].
    + intros _. split_and!; [by right| |apply d_new0; lia].
      intros [Hf|?]; [|done]. by apply Hnew, (tr_fired _ _ _ _ d_tracks0).
    + rewrite lookup_insert_ne by done. intros (H1 & H2 & H3)%d_pend0. split_and!; [by left| |exact H3]. intros [Hf|Hf]; [by apply H2|discriminate Hf].
  - intros i. rewrite Ec. auto.
  - intros i Hlt. rewrite Ec. apply d_new0. lia.
  - by apply dns_explained_snoc.
Qed.

(** *** Other events *)

Lemma inv_step l l' r r' w e reqs run' :
  inv l r w -> asks e = false -> event_ok (log w) e ->
  tracks 5 l' (timeout_monitor_ w) (times (log w ++ [e])) ->
  let s := at_log (log w) in let s' := spec_step fuel s e in let o := effect fuel s e in
  reqs = match r' with Some (id, v) => <[id := v]> s'.1 | None => s'.1 end ->
  run' = match r' with Some (id, _) => [id] | None => [] end ->
  match r' with Some (id, _) => s'.1 !! id = None /\ id <= asked (log w) | None => True end ->
  (forall id, is_Some (s'.1 !! id) -> is_Some (s.1 !! id) /\ times_called id o = 0%nat /\
     (fired id (times (log w ++ [e])) -> fired id (times (log w)))) ->
  (forall id, times_called id o = 0%nat \/ times_called id o = 1%nat /\ is_Some (s.1 !! id)) ->
  inv l' r' (mkDns (bool_decide (reqs <> ∅)) (timeout_monitor_ w) s'.2 (req_id_alloc_ w) reqs run'
               (log w ++ [e]) (out w ++ o)).
Proof.
  intros [] Hask Hok Htr s s' o Hreqs Hrun Hr Hp Ho.
  assert (asked (log w ++ [e]) = asked (log w)) as Ea by (rewrite dns_asked_snoc, Hask; lia).
  assert (forall i, added i (times (log w ++ [e])) <-> added i (times (log w))) as Ead.
  { intros i. rewrite dns_times_snoc. destruct e; try done; cbn; rewrite ?app_nil_r, ?added_snoc; naive_solver. }
  split; cbn [dns_ip_vec_ req_id_alloc_ requests_ running_ udp_enabled out timeout_monitor_ log];
    rewrite ?Ea, ?state_snoc; auto; try setoid_rewrite Ead; auto.
  - by rewrite dns_effects_snoc, d_out0.
  - intros i Hi. destruct (Hp i Hi) as (H1 & H2 & H3). destruct (d_pend0 i H1) as (H4 & H5 & H6).
    split_and!; [done|auto|]. by rewrite dns_called_app, H6, H2.
  - intros i. rewrite dns_called_app. destruct (Ho i) as [->|[-> H]]; [specialize (d_called0 i); lia|].
    apply d_pend0 in H as (_ & _ & ->). lia.
  - intros i Hi. rewrite dns_called_app, (d_new0 i Hi). destruct (Ho i) as [->|[_ H]]; [done|].
    apply d_pend0 in H as (H & _). apply d_added0 in H. lia.
  - by apply dns_explained_snoc.
Qed.

(** An event without an output that the monitor does not see. *)
Lemma inv_quiet l r w e : inv l r w -> asks e = false -> timed e = None -> event_ok (log w) e ->
  effect fuel (at_log (log w)) e = [] ->
  dom (spec_step fuel (at_log (log w)) e).1 ⊆ dom (at_log (log w)).1 ->
  inv l r (mkDns
    (bool_decide (match r with Some (id, v) => <[id := v]> (spec_step fuel (at_log (log w)) e).1
                          | None => (spec_step fuel (at_log (log w)) e).1 end <> ∅))
    (timeout_monitor_ w) (spec_step fuel (at_log (log w)) e).2 (req_id_alloc_ w)
    (match r with Some (id, v) => <[id := v]> (spec_step fuel (at_log (log w)) e).1
             | None => (spec_step fuel (at_log (log w)) e).1 end)
    (running_ w) (log w ++ [e]) (out w)).
Proof.
  intros Hi Ha Ht Hok Ho Hd. rewrite <- (app_nil_r (out w)), <- Ho.
  assert (times (log w ++ [e]) = times (log w)) as Et by (rewrite dns_times_snoc, Ht; apply app_nil_r).
  assert (forall id, is_Some ((spec_step fuel (at_log (log w)) e).1 !! id) -> is_Some ((at_log (log w)).1 !! id)) as Hsub.
  { intros id H. apply elem_of_dom, Hd, elem_of_dom, H. }
  apply (inv_step l l r r w e); [done|done|done|rewrite Et; apply Hi|done|apply Hi| | |].
  - pose proof (d_run _ _ _ Hi) as Hr. destruct r as [[id v]|]; [|done]. destruct Hr as [Hr ?]. split; [|done].
    apply eq_None_not_Some. intros Hs%Hsub. rewrite Hr in Hs. by destruct Hs.
  - intros id H. rewrite Ho, Et. auto.
  - intros id. left. by rewrite Ho.
Qed.

(** [with_spec]: the state that [inv_quiet] describes. *)
Lemma quiet_same l r w e : inv l r w -> asks e = false -> timed e = None -> event_ok (log w) e ->
  effect fuel (at_log (log w)) e = [] -> spec_step fuel (at_log (log w)) e = at_log (log w) ->
  inv l r (add_event e w).
Proof.
  intros Hi Ha Ht Hok Ho Hs. pose proof (inv_quiet l r w e Hi Ha Ht Hok Ho) as H. rewrite Hs in H.
  specialize (H ltac:(done)). rewrite <- (d_requests _ _ _ Hi), <- (d_udp _ _ _ Hi), <- (d_servers _ _ _ Hi) in H.
  exact H.
Qed.

Definition not_running (r : option (Z * (option nat * Z))) (c : call) : Prop :=
  match c, r with CCancel id, Some (id', _) => id <> id' | _, _ => True end.

Lemma udp_after (m : gmap Z (option nat * Z)) id v : m !! id = Some v ->
  (if decide (delete id m = ∅) then false else bool_decide (m <> ∅)) = bool_decide (delete id m <> ∅).
Proof.
  intros H. case_decide as Hd; [by rewrite bool_decide_false by tauto|]. rewrite bool_decide_true.
  - by rewrite bool_decide_true.
  - intros ->. done.
Qed.

Lemma dns_call_ok l r w c : inv l r w -> calls_legal (log w) [c] -> not_running r c -> exists w',
  do_call c w = Ret ((), w') /\ inv l r w' /\ asked (log w') <= asked (log w) + call_asks c.
Proof.
  intros Hi [Hc Hn] Hr. rewrite Forall_singleton in Hc. set (e := Did c).
  destruct c as [domain cb|id]; cbn in Hc, Hn, Hr |- *.
  - assert (inv l r (add_event e w)) as Hi1 by (by apply quiet_same).
    assert (asked (log w ++ [e]) = asked (log w)) as Ea by (rewrite dns_asked_snoc; cbn; lia).
    destruct (request_ok _ _ _ domain cb Hi1 Hc) as (w' & id & E & Hi' & Ha); [cbn; lia|].
    exists w'. split; [unfold do_call; run; fold e; by rewrite E|]. split; [done|]. cbn in Ha. lia.
  - pose proof (inv_quiet l r w e Hi eq_refl eq_refl I eq_refl) as Hq. cbn [spec_step e fst snd] in Hq.
    specialize (Hq ltac:(rewrite dom_delete_L; set_solver)).
    assert (match r with Some (id', v) => <[id' := v]> (delete id (at_log (log w)).1) | None => delete id (at_log (log w)).1 end
      = delete id (requests_ w)) as Er.
    { rewrite (d_requests _ _ _ Hi). destruct r as [[id' v]|]; [|done]. by rewrite delete_insert_ne. }
    rewrite Er, <- (d_servers _ _ _ Hi) in Hq.
    eexists. split; [|split; [exact Hq|cbn; rewrite dns_asked_snoc; cbn; lia]].
    unfold do_call, cancel, deleteRequest. run. destruct (requests_ w !! id) as [v|] eqn:Ev.
    + rewrite decide_False.
      2: { rewrite (d_running _ _ _ Hi). destruct r as [[id' ?]|]; [|by intros ?%not_elem_of_nil].
           rewrite list_elem_of_singleton. done. }
      cbn. unfold set_requests, add_event. cbn. by rewrite (d_udp _ _ _ Hi), (udp_after _ _ _ Ev).
    + rewrite delete_id by done. rewrite <- (d_udp _ _ _ Hi). done.
Qed.

Lemma calls_ask_pos cs : 0 <= calls_ask cs.
Proof. induction cs as [|[] cs IH]; unfold calls_ask in *; cbn in *; lia. Qed.

Lemma dns_calls_ok l r w cs : inv l r w -> calls_legal (log w) cs -> Forall (not_running r) cs -> exists w',
  do_calls cs w = Ret ((), w') /\ inv l r w'.
Proof.
  revert w. induction cs as [|c cs IH]; intros w Hi [Hc Hn] Hr; [by exists w|].
  apply Forall_cons in Hc as [Hc Hcs]. apply Forall_cons in Hr as [Hr Hrs].
  change (calls_ask (c :: cs)) with (call_asks c + calls_ask cs) in Hn. pose proof (calls_ask_pos cs).
  destruct (dns_call_ok l r w c Hi) as (w1 & E1 & Hi1 & Hn1); [|done|].
  { split; [by apply Forall_singleton|]. destruct c; cbn in *; lia. }
  destruct (IH w1 Hi1) as (w2 & E2 & Hi2); [|done|].
  { split; [exact Hcs|]. destruct c; cbn in *; lia. }
  exists w2. split; [|done]. cbn. unfold mbind, M_bind. by rewrite E1.
Qed.

(** *** The end of a request *)

(** A callback runs while its request is in the map, which is then erased. *)
Lemma finish_ok l id cb v res w0 : callbacks_legal ->
  inv l (Some (id, v)) (set_running [id]
    (match cb with Some f => add_output (Called id f res) w0 | None => w0 end)) ->
  running_ w0 = [] -> exists w', finish done_cb id cb res w0 = Ret ((), w') /\ inv l None w'.
Proof.
  intros Hl Hi Hrun.
  assert (exists w1, call_cb done_cb id cb res w0 = Ret ((), set_running [] w1) /\ inv l (Some (id, v)) w1) as (w1 & E1 & Hi1).
  { unfold call_cb. destruct cb as [f|].
    - destruct (Hl f (log w0) res) as [Hl1 Hl2].
      destruct (dns_calls_ok _ _ _ (done_cb f (log w0) res) Hi Hl1) as (w1 & E1 & Hi1).
      { pose proof (proj1 (d_run _ _ _ Hi) : (at_log (log w0)).1 !! id = None) as Hn.
        eapply Forall_impl; [exact Hl2|]. intros [|id'] H; [done|]. intros ->. rewrite Hn in H. by destruct H. }
      exists w1. split; [|done]. run. rewrite Hrun. cbn.
      change (add_output (Called id f res) (set_running [id] w0)) with (set_running [id] (add_output (Called id f res) w0)).
      by rewrite E1.
    - exists (set_running [id] w0). split; [|done]. unfold set_running. cbn. destruct w0. cbn in *. by subst. }
  pose proof (d_run _ _ _ Hi1) as [Hn _]. pose proof (d_requests _ _ _ Hi1) as Hreq. cbn in Hreq.
  assert (delete id (requests_ w1) = (at_log (log w1)).1) as Ed by (rewrite Hreq; by apply delete_insert_id).
  assert (requests_ w1 !! id = Some v) as Hlook by (by rewrite Hreq, lookup_insert_eq).
  eexists. split.
  { unfold finish, deleteRequest. unfold mbind at 1, M_bind at 1. rewrite E1. run.
    rewrite Hlook. cbn. reflexivity. }
  rewrite Ed. destruct Hi1. unfold set_requests, set_running.
  split; cbn [dns_ip_vec_ req_id_alloc_ requests_ running_ udp_enabled out timeout_monitor_ log]; auto.
  rewrite <- Ed, d_udp0. by apply (udp_after _ _ v).
Qed.

Lemma settles_step s e id cb res : settles fuel s e = Some (id, cb, res) ->
  spec_step fuel s e = (delete id s.1, s.2) /\
  effect fuel s e = match cb with Some f => [Called id f res] | None => [] end /\
  asks e = false /\ (forall i h, fired i (h ++ option_list (timed e)) -> fired i h \/ i = id).
Proof.
  intros H. destruct e as [c|? ? ?|?|data| |id']; cbn in H; try done.
  - cbn [spec_step effect settles]. rewrite H. split_and!; [done|done|done|]. intros i h. cbn. rewrite app_nil_r. by left.
  - cbn [spec_step effect settles]. destruct (s.1 !! id') as [[cb' k]|] eqn:E; cbn in H |- *; [|done]. simplify_eq.
    split_and!; [done|done|done|]. intros i h [?|[= <-]]%fired_snoc; auto.
Qed.

Lemma settle_ok l l' w e id cb k res v : callbacks_legal -> inv l None w ->
  settles fuel (at_log (log w)) e = Some (id, cb, res) -> (at_log (log w)).1 !! id = Some (cb, k) ->
  event_ok (log w) e -> tracks 5 l' (timeout_monitor_ w) (times (log w ++ [e])) -> exists w',
  finish done_cb id cb res (set_requests true (<[id := v]> (requests_ w)) (add_event e w)) = Ret ((), w') /\
  inv l' None w'.
Proof.
  intros Hl Hi Hset Hk Hok Htr. destruct (settles_step _ _ _ _ _ Hset) as (Hs & Ho & Ha & Hf).
  apply (finish_ok l' id cb v res); [done| |apply Hi].
  pose proof (inv_step l l' None (Some (id, v)) w e (<[id := v]> (requests_ w)) [id] Hi Ha Hok Htr) as H.
  cbn zeta in H. rewrite Hs, Ho in H. cbn [fst snd] in H.
  rewrite bool_decide_true in H by apply insert_non_empty. rewrite <- (d_servers _ _ _ Hi) in H.
  assert (set_running [id] match cb with
    | Some f => add_output (Called id f res) (set_requests true (<[id:=v]> (requests_ w)) (add_event e w))
    | None => set_requests true (<[id:=v]> (requests_ w)) (add_event e w) end =
    mkDns true (timeout_monitor_ w) (dns_ip_vec_ w) (req_id_alloc_ w) (<[id:=v]> (requests_ w)) [id] (log w ++ [e])
      (out w ++ match cb with Some f => [Called id f res] | None => [] end)) as ->.
  { destruct cb; [done|]. unfold set_running, set_requests, add_event. cbn. by rewrite app_nil_r. }
  assert (1 <= id <= asked (log w)) as Hid by (apply (d_added _ _ _ Hi), (d_pend _ _ _ Hi); by rewrite Hk).
  apply H; clear H.
  - rewrite (d_requests _ _ _ Hi). by rewrite insert_delete_eq.
  - done.
  - split; [apply lookup_delete_eq|lia].
  - intros i Hi2. destruct (decide (i = id)) as [->|Hne]; [rewrite lookup_delete_eq in Hi2; by destruct Hi2|].
    rewrite lookup_delete_ne in Hi2 by done. split_and!; [done| |].
    + destruct cb as [f|]; [|done]. by rewrite dns_called_one, (proj2 (Z.eqb_neq _ _)).
    + rewrite dns_times_snoc. intros [?|?]%Hf; done.
  - intros i. destruct cb as [f|]; [|by left]. rewrite dns_called_one.
    destruct (Z.eqb_spec i id) as [->|]; [right|by left]. split; [done|by rewrite Hk].
Qed.

Lemma dns_on_timeout_ok id l w : callbacks_legal -> inv (id :: l) None w -> exists w',
  onRequestTimeout done_cb id w = Ret ((), w') /\ inv l None w'.
Proof.
  intros Hl Hi. set (e := Expired id). destruct (tracks_fire _ _ _ _ _ (d_tracks _ _ _ Hi)) as [Ht Htr].
  assert (times (log w ++ [e]) = times (log w) ++ [Fired id]) as Et by (by rewrite dns_times_snoc).
  rewrite <- Et in Htr. pose proof (d_requests _ _ _ Hi) as Hreq. cbn in Hreq.
  unfold onRequestTimeout. run. fold e. destruct (requests_ w !! id) as [[cb k]|] eqn:E.
  - rewrite Hreq in E. destruct (settle_ok (id :: l) l w e id cb k (mkResult kTimeout [] []) (cb, k) Hl Hi)
      as (w' & Ew & Hw'); [by cbn; rewrite E|done|exact Ht|done|].
    exists w'. split; [|done]. rewrite <- Ew. f_equal. unfold set_requests, add_event. cbn. f_equal.
    + rewrite (d_udp _ _ _ Hi). apply bool_decide_eq_true. rewrite Hreq. intros H. by rewrite H in E.
    + rewrite Hreq. by rewrite insert_id.
  - eexists. split; [done|]. rewrite Hreq in E.
    assert (settles fuel (at_log (log w)) e = None) as Hset by (cbn; by rewrite E).
    assert (effect fuel (at_log (log w)) e = []) as Ho by (cbn; by rewrite E).
    assert (spec_step fuel (at_log (log w)) e = at_log (log w)) as Hs.
    { cbn. rewrite delete_id by done. by destruct (at_log (log w)). }
    pose proof (inv_step (id :: l) l None None w e (requests_ w) [] Hi eq_refl Ht Htr) as H.
    cbn zeta in H. rewrite Hs, Ho, app_nil_r, <- (d_servers _ _ _ Hi), <- (d_udp _ _ _ Hi) in H.
    unfold add_event. rewrite (d_running _ _ _ Hi). apply H; [done|done|done| |by left].
    intros i Hp. split; [done|]. split; [done|]. rewrite Et. intros [?|[= <-]]%fired_snoc; [done|].
    rewrite E in Hp. by destruct Hp.
Qed.

Lemma alter_count (m : gmap Z (option nat * Z)) id cb k : m !! id = Some (cb, k) ->
  alter (fun v => (v.1, v.2 + 1)) id m = <[id := (cb, k + 1)]> m.
Proof.
  intros H. apply map_eq. intros i. destruct (decide (i = id)) as [->|Hne].
  - by rewrite lookup_alter_eq, lookup_insert_eq, H.
  - by rewrite lookup_alter_ne, lookup_insert_ne.
Qed.

(** A reply that settles nothing and counts nothing. *)
Lemma got_quiet l w data : inv l None w ->
  settles fuel (at_log (log w)) (Got data) = None -> count fuel (at_log (log w)) data = (at_log (log w)).1 ->
  inv l None (add_event (Got data) w).
Proof.
  intros Hi Hset Hc. apply quiet_same; [done|done|done|done| |].
  - cbn [effect]. by rewrite Hset.
  - cbn [spec_step]. rewrite Hset, Hc. by destruct (at_log (log w)).
Qed.

Lemma recv_ok w data : callbacks_legal -> inv [] None w -> is_Some (reading_of fuel data) -> exists w',
  onUdpRecv fuel done_cb data w = Ret ((), w') /\ inv [] None w'.
Proof.
  intros Hl Hi [[id r] Hread]. set (e := Got data). pose proof (d_requests _ _ _ Hi) as Hreq. cbn in Hreq.
  assert (times (log w ++ [e]) = times (log w)) as Et by (rewrite dns_times_snoc; apply app_nil_r).
  assert (tracks 5 [] (timeout_monitor_ w) (times (log w ++ [e]))) as Htr by (rewrite Et; apply Hi).
  assert (forall cb k, (at_log (log w)).1 !! id = Some (cb, k) -> forall res v,
    settles fuel (at_log (log w)) e = Some (id, cb, res) -> exists w',
    finish done_cb id cb res (set_requests true (<[id := v]> (requests_ w)) (add_event e w)) = Ret ((), w') /\
    inv [] None w') as Hsettle.
  { intros cb k Hk res v Hs. by apply (settle_ok [] [] w e id cb k res v). }
  assert (forall cb k, (at_log (log w)).1 !! id = Some (cb, k) ->
    set_requests true (<[id := (cb, k)]> (requests_ w)) (add_event e w) = add_event e w) as Hsame.
  { intros cb k Hk. unfold set_requests, add_event. cbn. f_equal.
    - rewrite (d_udp _ _ _ Hi). symmetry. apply bool_decide_eq_true. rewrite Hreq. intros H. by rewrite H in Hk.
    - rewrite Hreq. by apply insert_id. }
  unfold onUdpRecv. run. fold e. case_decide as Hempty.
  { eexists. split; [done|]. rewrite Hreq in Hempty. apply got_quiet; [done| |].
    - cbn. rewrite Hread. cbn. by rewrite Hempty.
    - unfold count. rewrite Hread, Hempty. by destruct r. }
  assert ((at_log (log w)).1 !! id = None -> inv [] None (add_event e w)) as Hnone.
  { intros Hk. apply got_quiet; [done| |].
    - cbn. rewrite Hread. cbn. by rewrite Hk.
    - unfold count. rewrite Hread. destruct r; [done| |done]. by apply alter_id_None || (apply map_eq; intros i; destruct (decide (i = id)) as [->|]; [by rewrite lookup_alter_eq, Hk|by rewrite lookup_alter_ne]). }
  pose proof Hread as Hread'. unfold reading_of in Hread'. unfold with_parser.
  destruct (fetch_head (new_deserializer data kBig)) as [[[id' flags] parser]| |]; [|done..]. cbn.
  assert (id' = id) as ->.
  { repeat case_match; simplify_eq; done. }
  rewrite Hreq. destruct ((at_log (log w)).1 !! id) as [[cb k]|] eqn:Hk; [|by eauto].
  specialize (Hsettle cb k eq_refl). specialize (Hsame cb k eq_refl).
  assert (settles fuel (at_log (log w)) e = match r with
    | NotReply => None
    | Answer result => Some (id, cb, result)
    | Trouble => if k + 1 <? Z.of_nat (at_log (log w)).2 then None else Some (id, cb, mkResult kAllDnsFail [] [])
    end) as Hset by (cbn; rewrite Hread; cbn; by rewrite Hk).
  assert (forall rr, r = rr -> count fuel (at_log (log w)) data =
    match rr with Trouble => <[id := (cb, k + 1)]> (at_log (log w)).1 | _ => (at_log (log w)).1 end) as Hcount.
  { intros rr <-. unfold count. rewrite Hread. destruct r; try done. by apply alter_count. }
  destruct (Z.land flags 32768 =? 0).
  { simplify_eq. eexists. split; [done|]. by apply got_quiet, (Hcount NotReply). }
  destruct (Z.land flags 15 =? 0).
  { destruct (fetch_body fuel parser) as [[result parser']| |]; [|done..]. simplify_eq. cbn.
    destruct (Hsettle result (cb, k) Hset) as (w' & E & Hw'). rewrite Hsame in E. eauto. }
  destruct (Z.land flags 15 =? DNS_RC_NAME_ERROR).
  { simplify_eq. destruct (Hsettle _ (cb, k) Hset) as (w' & E & Hw'). rewrite Hsame in E. eauto. }
  destruct (Z.land flags 15 =? DNS_RC_FORMAT_ERROR).
  { simplify_eq. destruct (Hsettle _ (cb, k) Hset) as (w' & E & Hw'). rewrite Hsame in E. eauto. }
  injection Hread' as <-. specialize (Hcount Trouble eq_refl). cbn in Hcount.
  assert (udp_enabled w = true) as Hudp by (rewrite (d_udp _ _ _ Hi); by apply bool_decide_eq_true).
  rewrite (d_servers _ _ _ Hi), Hudp.
  destruct (k + 1 <? Z.of_nat (at_log (log w)).2) eqn:Ek.
  - eexists. split; [done|]. pose proof (inv_quiet [] None w e Hi eq_refl eq_refl I) as H.
    cbn [spec_step effect e fst snd] in H. fold e in H. rewrite Hset, Hcount, <- Hreq, <- (d_servers _ _ _ Hi) in H.
    rewrite bool_decide_true in H by apply insert_non_empty. cbn [fst snd] in H.
    rewrite <- Hreq. unfold set_requests, add_event. cbn. apply H; [done|].
    rewrite dom_insert_lookup_L; [done|]. rewrite Hreq, Hk. done.
  - rewrite <- Hreq. by apply (Hsettle _ (cb, k + 1) Hset).
Qed.

Lemma dns_tick_ok w : callbacks_legal -> inv [] None w -> exists w',
  exec fuel done_cb TimerTick w = Ret ((), w') /\ inv [] None w'.
Proof.
  intros Hl Hi. destruct (tracks_tick (V:=Z) 5 _ _ ltac:(lia) (d_tracks _ _ _ Hi)) as (l & m & Em & Htr).
  cbn [exec]. run. apply (onTimerTick_ok (HM := dns_monitor) (fun l => inv l None)) with l m; cbn [get_mon put_mon dns_monitor].
  - intros l' w' H. apply (tr_cb _ _ _ _ (d_tracks _ _ _ H)).
  - intros l' w' d H. destruct (tracks_level _ _ _ _ d (d_tracks _ _ _ H)) as (m' & E & H').
    exists m'. split; [done|]. by destruct H.
  - intros id l' w' H. by apply dns_on_timeout_ok.
  - done.
  - destruct Hi.
    assert (times (log w ++ [Tick]) = times (log w) ++ [Ticked]) as Et by (by rewrite dns_times_snoc).
    assert (asked (log w ++ [Tick]) = asked (log w)) as Ea by (rewrite dns_asked_snoc; cbn; lia).
    split; cbn [dns_ip_vec_ req_id_alloc_ requests_ running_ udp_enabled out timeout_monitor_ log add_event];
      rewrite ?Ea, ?Et, ?state_snoc; auto; try setoid_rewrite added_snoc; try setoid_rewrite fired_snoc.
    + by rewrite dns_effects_snoc, app_nil_r.
    + intros id. rewrite d_added0. split; [intros [?|?]; [done|discriminate]|by left].
    + intros id (H1 & H2 & H3)%d_pend0. split_and!; [by left| |exact H3]. intros [H|H]; [by apply H2|discriminate H].
    + by apply dns_explained_snoc.
Qed.

Definition op_legal (before : list event) (o : op) : Prop :=
  match o with Call c => calls_legal before [c] | _ => True end.

Fixpoint ops_legal (l : list op) (w : dns) : Prop :=
  match l with
  | [] => True
  | o :: l' => op_legal (log w) o /\ forall w', exec fuel done_cb o w = Ret ((), w') -> ops_legal l' w'
  end.

Definition op_read (o : op) : Prop := match o with Recv data => is_Some (reading_of fuel data) | _ => True end.

Lemma dns_exec_ok w o : callbacks_legal -> inv [] None w -> op_legal (log w) o -> op_read o -> exists w',
  exec fuel done_cb o w = Ret ((), w') /\ inv [] None w'.
Proof.
  intros Hl Hi Ho Hd. destruct o as [c|n|data|].
  - destruct (dns_call_ok [] None w c Hi Ho) as (w' & E & H & _); [by destruct c|]. by exists w'.
  - eexists. split; [done|]. pose proof (inv_quiet [] None w (SetServers n) Hi eq_refl eq_refl I eq_refl ltac:(done)) as H.
    cbn [spec_step fst snd] in H. pose proof (d_requests _ _ _ Hi) as Hreq. cbn in Hreq.
    rewrite <- Hreq, <- (d_udp _ _ _ Hi) in H. exact H.
  - by apply recv_ok.
  - by apply dns_tick_ok.
Qed.

Lemma dns_run_ok ops w : callbacks_legal -> inv [] None w -> ops_legal ops w -> Forall op_read ops -> exists w',
  run fuel done_cb ops w = Ret ((), w') /\ inv [] None w'.
Proof.
  intros Ha. revert w. induction ops as [|o ops IH]; intros w Hi Hops Hd; [by exists w|]. apply Forall_cons in Hd as [Hd Hds].
  destruct Hops as [Ho Hops]. destruct (dns_exec_ok w o Ha Hi Ho Hd) as (w1 & E1 & Hi1).
  destruct (IH w1 Hi1 (Hops w1 E1) Hds) as (w2 & E2 & Hi2). exists w2. split; [|done].
  cbn. unfold mbind, M_bind. by rewrite E1.
Qed.

Lemma new_dns_inv : inv [] None (new_dns servers).
Proof.
  destruct (tracks_start (V:=Z) 5 (mkMonitor [] None 0 true 0 false) ltac:(done) eq_refl eq_refl) as (m & Em & Htr).
  unfold initialize_ in Em. cbn in Em. injection Em as <-.
  split; cbn [dns_ip_vec_ req_id_alloc_ requests_ running_ udp_enabled out timeout_monitor_ log new_dns]; try done.
  - intros id. change (asked []) with 0. split; [by intros ?%not_elem_of_nil|lia].
  - intros id. cbn. rewrite lookup_empty. by intros [].
  - intros id. cbn. lia.
  - intros before e after E. by destruct before.
Qed.

End proofs.

(** *** Datagrams *)

(** A datagram has its number and its flags; a reply without error is one of RFC 1035. *)
Definition datagram_ok (data : list Z) : Prop :=
  size data < 2 ^ 64 /\ exists id flags, word_at data kBig 0 W16 id /\ word_at data kBig 2 W16 flags /\
    (Z.land flags 0x8000 <> 0 -> Z.land flags 0xf = 0 -> exists rs, reply_at data id flags rs).

Definition op_ok (o : op) : Prop := match o with Recv data => datagram_ok data | _ => True end.

(** The reading of a reply is what its records say. *)
Lemma reply_read data id flags rs : size data < 2 ^ 64 -> reply_at data id flags rs ->
  Z.land flags 0x8000 <> 0 -> Z.land flags 0xf = 0 -> eventually (fun fuel => reading_of fuel data = Some (id, Answer (collect rs))).
Proof.
  intros Hs Hr H1 H2. destruct (fetch_reply data Hs id flags rs Hr) as [Eh Eb]. revert Eb. apply eventually_mono.
  intros fuel [d Ed]. unfold reading_of. change (new_deserializer data kBig) with (at_pos data kBig 0). rewrite Eh.
  rewrite (proj2 (Z.eqb_neq _ _) H1), H2. change (0 =? 0) with true. cbn iota. by rewrite Ed.
Qed.

Lemma datagram_read data : datagram_ok data -> eventually (fun fuel => is_Some (reading_of fuel data)).
Proof.
  intros (Hs & id & flags & H0 & H2 & Hr). destruct (decide (Z.land flags 0x8000 <> 0 /\ Z.land flags 0xf = 0)) as [[Hf Hc]|Hn].
  - destruct (Hr Hf Hc) as [rs Hrs]. apply (eventually_mono _ _) with (2 := reply_read data id flags rs Hs Hrs Hf Hc).
    intros fuel ->. by eexists.
  - apply eventually_all. intros fuel. unfold reading_of. change (new_deserializer data kBig) with (at_pos data kBig 0).
    assert (fetch_head (at_pos data kBig 0) = Ret ((id, flags), at_pos data kBig 4)) as ->.
    { unfold fetch_head. unfold mbind, M_bind. cbn -[read].
      rewrite (read_word_to data Hs _ _ 2 _ _ _ H0) by done. cbn -[read]. by rewrite (read_word_to data Hs _ _ 4 _ _ _ H2) by done. }
    destruct (Z.eqb_spec (Z.land flags 0x8000) 0); [by eexists|]. destruct (Z.eqb_spec (Z.land flags 0xf) 0); [tauto|].
    repeat case_match; by eexists.
Qed.

Lemma ops_read ops : Forall op_ok ops -> eventually (fun fuel => Forall (op_read fuel) ops).
Proof.
  induction 1 as [|o ops Ho _ IH]; [apply eventually_all; constructor|].
  assert (eventually (fun fuel => op_read fuel o)) as Ho' by (destruct o; try (by apply eventually_all); by apply datagram_read).
  apply (eventually_mono _ _) with (2 := eventually_and _ _ Ho' IH). intros fuel [? ?]. by constructor.
Qed.

(** *** The output only grows *)

Create HintDb grows.

Definition grows {A} (m : MD A) : Prop := forall w a w', m w = Ret (a, w') -> exists o, out w' = out w ++ o.

Lemma grows_ret {A} (a : A) : grows (mret a).
Proof. intros w a' w' [= _ <-]. exists []. by rewrite app_nil_r. Qed.

Lemma grows_bind {A B} (m : MD A) (k : A -> MD B) : grows m -> (forall a, grows (k a)) -> grows (m ≫= k).
Proof.
  intros Hm Hk w b w' E. unfold mbind, M_bind in E. destruct (m w) as [[a w1]| |] eqn:E1; [|done..].
  destruct (Hm _ _ _ E1) as [o1 H1], (Hk _ _ _ _ E) as [o2 H2]. exists (o1 ++ o2). by rewrite H2, H1, app_assoc.
Qed.

Lemma grows_get {A} (k : dns -> MD A) : (forall w, grows (k w)) -> grows (get ≫= k).
Proof. intros H w a w' E. by apply (H w w a w'). Qed.

Lemma grows_modify f : (forall w, exists o, out (f w) = out w ++ o) -> grows (modify f).
Proof. intros H w a w' E. unfold modify in E. injection E as _ <-. apply H. Qed.

Lemma grows_same f : (forall w, out (f w) = out w) -> grows (modify f).
Proof. intros H. apply grows_modify. intros w. exists []. by rewrite app_nil_r. Qed.

Lemma grows_the {A} (o : option A) : grows (the o).
Proof. destruct o; [apply grows_ret|by intros w a w' E]. Qed.

Lemma grows_put_monitor (f : monitor Z -> option (() * monitor Z)) : grows (change (HM := dns_monitor) f).
Proof.
  intros w a w' E. unfold change, get, the, put, mbind, M_bind in E. destruct (f _) as [[? m]|]; [|done]. cbn in E. injection E as _ <-.
  exists []. by rewrite app_nil_r.
Qed.

#[local] Hint Resolve grows_ret grows_the grows_put_monitor : grows.

Lemma do_call_grows c : grows (do_call c).
Proof.
  unfold do_call. apply grows_bind; [by apply grows_same|]. intros _. destruct c as [domain cb|id].
  - apply grows_bind; [|auto with grows]. unfold request. apply grows_get. intros w. destruct (dns_ip_vec_ w); [auto with grows|].
    apply grows_bind; [by apply grows_same|]. intros _. apply grows_bind; [auto with grows|]. intros p.
    apply grows_bind; [by apply grows_same|]. intros _. apply grows_bind; [apply grows_modify; by eexists|]. intros _.
    apply grows_bind; [|auto with grows]. unfold addRequest. apply grows_get. intros w'. apply grows_bind; [by apply grows_same|].
    intros _. apply grows_put_monitor.
  - apply grows_bind; [|auto with grows]. unfold cancel, deleteRequest. apply grows_get. intros w.
    destruct (requests_ w !! id); [|auto with grows]. case_decide; [by intros ? ? ? ?|]. apply grows_bind; [by apply grows_same|auto with grows].
Qed.

Lemma do_calls_grows l : grows (do_calls l).
Proof. induction l as [|c l IH]; [apply grows_ret|]. apply grows_bind; [apply do_call_grows|done]. Qed.

Lemma finish_grows done_cb id cb res w w' : finish done_cb id cb res w = Ret ((), w') ->
  exists o, out w' = out w ++ match cb with Some f => [Called id f res] | None => [] end ++ o.
Proof.
  intros E. assert (grows (x ← deleteRequest id; mret ())) as Hd.
  { apply grows_bind; [|auto with grows]. unfold deleteRequest. apply grows_get. intros w1.
    destruct (requests_ w1 !! id); [|auto with grows]. case_decide; [by intros ? ? ? ?|]. apply grows_bind; [by apply grows_same|auto with grows]. }
  unfold finish, call_cb in E. destruct cb as [f|].
  - assert (grows (do_calls (done_cb f (log w) res);; modify (set_running (running_ w));; x ← deleteRequest id; mret ())) as Hg.
    { apply grows_bind; [apply do_calls_grows|]. intros _. apply grows_bind; [by apply grows_same|]. intros _. exact Hd. }
    destruct (Hg (add_output (Called id f res) (set_running (id :: running_ w) w)) () w') as [o Ho].
    { rewrite <- E. unfold get, emit, modify, mbind, M_bind. cbn. by destruct (do_calls _ _) as [[? ?]| |]. }
    exists o. rewrite Ho. cbn. by rewrite <- app_assoc.
  - destruct (Hd w () w' E) as [o Ho]. by exists o.
Qed.

(** ** What holds *)

(** C3: A [DnsRequest] does what it promises.  Let there be any sequence of calls of
    the user, also from inside his callbacks, of datagrams of any senders and of
    ticks of the timer, where callbacks cancel no requests but those that wait, less
    than 2^16 requests are made, and every datagram has a number and flags and is, when
    it is a reply without error, one of RFC 1035 ([datagram_ok]; other datagrams are
    read where there is nothing, or for ever).  Then nothing crashes, given the stack
    that the names in the datagrams need, and the queries sent and the callbacks called
    are exactly the [effects] of the history, in its order: a reply settles the request
    whose number it has, the trouble of a server only if it is the last one's, and
    the fifth tick after the request; other datagrams are ignored, and so is
    everything that comes after a request was settled or cancelled.  What a reply says
    are the records it has.  No callback is called twice; a request that is pending has
    not been called, is younger than five ticks, and the timer ticks.  The socket is
    open exactly while requests are pending. *)
Theorem dns_requests_settled (ops : list op) : Forall op_ok ops ->
  eventually (fun fuel => forall (done_cb : nat -> list event -> Result -> list call) (servers : nat),
    callbacks_legal fuel done_cb servers -> ops_legal fuel done_cb ops (new_dns servers) -> exists w,
      run fuel done_cb ops (new_dns servers) = Ret ((), w) /\
      out w = effects fuel servers (log w) /\ explained (log w) /\
      requests_ w = (state fuel servers (log w)).1 /\
      udp_enabled w = bool_decide (requests_ w <> ∅) /\
      forall id, (times_called id (out w) <= 1)%nat /\
        (isRunning w id = true -> times_called id (out w) = 0%nat /\
          (age id (times (log w)) < 5)%nat /\ ticking (timeout_monitor_ w) = true)).
Proof.
  intros Hok. apply (eventually_mono _ _) with (2 := ops_read ops Hok). intros fuel Hread done_cb servers Hl Hops.
  destruct (dns_run_ok fuel done_cb servers ops _ Hl (new_dns_inv fuel servers) Hops Hread) as (w & E & Hi).
  exists w. split; [done|]. split; [apply Hi|]. split; [apply Hi|]. split; [apply Hi|]. split; [apply Hi|].
  intros id. split; [apply Hi|]. unfold isRunning. rewrite (d_requests _ _ _ _ _ Hi). intros Hr.
  destruct (d_pend _ _ _ _ _ Hi id) as (Ha & Hf & Hc).
  { destruct ((state fuel servers (log w)).1 !! id); [by eexists|discriminate Hr]. }
  split; [done|]. by destruct (tracks_rest _ _ _ id (d_tracks _ _ _ _ _ Hi) Ha) as [?|?].
Qed.

(** C6: A reply of RFC 1035 without error is understood: after any run of a
    [DnsRequest] in which the request with its number is pending, [onUdpRecv] calls the
    callback of that request first of all, with the addresses and the canonical names of
    the records of the reply, in their order and with their times to live, however many
    questions and records of other types there are, and whether names are compressed or
    not; the request is no longer pending, and its callback has been called this one time. *)
Theorem reply_is_understood (ops : list op) (data : list Z) (id flags : Z) (rs : list record) :
  Forall op_ok ops -> size data < 2 ^ 64 -> reply_at data id flags rs -> Z.land flags 0x8000 <> 0 -> Z.land flags 0xf = 0 ->
  eventually (fun fuel => forall (done_cb : nat -> list event -> Result -> list call) (servers : nat) w f k,
    callbacks_legal fuel done_cb servers -> ops_legal fuel done_cb ops (new_dns servers) ->
    run fuel done_cb ops (new_dns servers) = Ret ((), w) -> requests_ w !! id = Some (Some f, k) ->
    exists w' more, onUdpRecv fuel done_cb data w = Ret ((), w') /\
      out w' = out w ++ Called id f (collect rs) :: more /\
      isRunning w' id = false /\ times_called id (out w') = 1%nat).
Proof.
  intros Hok Hs Hr Hf Hc. destruct (fetch_reply data Hs id flags rs Hr) as [Eh Eb].
  pose proof (eventually_and _ _ Eb (eventually_and _ _ (reply_read data id flags rs Hs Hr Hf Hc) (ops_read ops Hok))) as H.
  revert H. apply eventually_mono. intros fuel ([d Ed] & Hread & Hops) done_cb servers w f k Hl Hlegal Erun Hw.
  destruct (dns_run_ok fuel done_cb servers ops _ Hl (new_dns_inv fuel servers) Hlegal Hops) as (w1 & E1 & Hi).
  rewrite Erun in E1. injection E1 as <-. destruct (recv_ok fuel done_cb servers w data Hl Hi) as (w' & E & Hi'); [by rewrite Hread|].
  assert (onUdpRecv fuel done_cb data w = finish done_cb id (Some f) (collect rs) (add_event (Got data) w)) as Eq.
  { unfold onUdpRecv, note, modify, get, mbind, M_bind. cbn -[fetch_head fetch_body finish].
    rewrite decide_False by (intros H; by rewrite H in Hw). unfold with_parser.
    change (new_deserializer data kBig) with (at_pos data kBig 0). rewrite Eh. cbn -[fetch_body finish]. rewrite Hw.
    rewrite (proj2 (Z.eqb_neq _ _) Hf), Hc. change (0 =? 0) with true. cbn -[fetch_body finish]. by rewrite Ed. }
  rewrite Eq in E. destruct (finish_grows _ _ _ _ _ _ E) as [o Ho]. cbn in Ho. exists w', o. split; [by rewrite Eq|]. split; [done|].
  assert (0 < times_called id (out w'))%nat as Hpos.
  { rewrite Ho, dns_called_app. change (Called id f (collect rs) :: o) with ([Called id f (collect rs)] ++ o).
    rewrite dns_called_app, dns_called_one, Z.eqb_refl. lia. }
  split; [|pose proof (d_called _ _ _ _ _ Hi' id); lia].
  unfold isRunning. rewrite (d_requests _ _ _ _ _ Hi'). destruct ((state fuel servers (log w')).1 !! id) eqn:E2; [|done].
  destruct (d_pend _ _ _ _ _ Hi' id) as (_ & _ & H0); [by rewrite E2|]. lia.
Qed.

(** The name in a query is the domain that was asked for: [FetchDomain] reads
    back what [AppendDomain] wrote, and stops where the type and the class begin,
    for every domain whose labels have 1 to 63 characters. *)
Theorem query_names_domain (req_id : Z) (labs : list (list Z)) :
  in_range 16 req_id -> labs <> [] -> Forall label_ok labs -> size (Join labs (str ".")) < 2 ^ 32 -> exists packet,
    query req_id (Join labs (str ".")) = Some packet /\
    eventually (fun fuel => FetchDomain fuel (at_pos packet kBig 12) =
      Ret (Join labs (str "."), at_pos packet kBig (size packet - 4))).
Proof.
  intros Hid Hne Hl Hs. change (str ".") with [DOT] in *. eexists. split; [by apply query_bytes|].
  set (head := items_bytes kBig (head_items req_id)). assert (size head = 12) as H12 by done.
  pose proof (name_at_append labs Hl head [0; 1; 0; 1]) as Hn. rewrite H12 in Hn.
  assert (size (head ++ domain_bytes labs ++ [0; 1; 0; 1]) = 12 + size (domain_bytes labs) + 4) as Esz.
  { rewrite <- H12. unfold size. rewrite !length_app. cbn [length]. lia. }
  rewrite Esz. replace (12 + size (domain_bytes labs) + 4 - 4) with (12 + size (domain_bytes labs)) by lia.
  assert (map c_str labs = labs) as Ec.
  { clear -Hl. induction Hl as [|l labs (_ & _ & H0) _ IH]; [done|]. cbn. rewrite IH. f_equal. clear -H0.
    induction l as [|c l IH]; [done|]. cbn. apply not_elem_of_cons in H0 as [H0 H1].
    rewrite (proj2 (Z.eqb_neq _ _)) by done. by rewrite IH. }
  pose proof (domain_bytes_size labs Hne) as Hd.
  pose proof (fetch_domain (head ++ domain_bytes labs ++ [0; 1; 0; 1]) ltac:(rewrite Esz; lia) kBig 12 labs _ Hn) as H.
  unfold name_text in H. rewrite Ec in H. exact H.
Qed.

(** C38: One datagram stops the program: when the answer to a pending request has a
    question whose name is a pointer to itself, [FetchDomain] calls itself without
    end, whatever the stack it has. *)
Theorem self_pointer_hangs (done_cb : nat -> list event -> Result -> list call) (w : dns)
    (data : list Z) (id flags qd c1 c2 c3 : Z) :
  size data < 2 ^ 64 -> isRunning w id = true ->
  word_at data kBig 0 W16 id -> word_at data kBig 2 W16 flags -> word_at data kBig 4 W16 qd ->
  word_at data kBig 6 W16 c1 -> word_at data kBig 8 W16 c2 -> word_at data kBig 10 W16 c3 ->
  Z.land flags 0x8000 <> 0 -> Z.land flags 0xf = 0 -> 0 < qd ->
  index data 12 = Some 0xc0 -> index data 13 = Some 12 ->
  forall fuel, onUdpRecv fuel done_cb data w = OutOfFuel.
Proof.
  intros Hs Hrun H0 H2 H4 H6 H8 H10 Hf Hrc Hqd Hp1 Hp2 fuel. unfold isRunning in Hrun.
  destruct (requests_ w !! id) as [[cb k]|] eqn:E; [|discriminate].
  unfold onUdpRecv, note, modify, get, mbind, M_bind. cbn -[fetch_head fetch_body].
  rewrite decide_False by (intros Hw; by rewrite Hw in E).
  change (new_deserializer data kBig) with (at_pos data kBig 0).
  assert (fetch_head (at_pos data kBig 0) = Ret ((id, flags), at_pos data kBig 4)) as Eh.
  { unfold fetch_head. unfold mbind, M_bind. cbn -[read].
    rewrite (read_word_to data Hs _ _ 2 _ _ _ H0) by done. cbn -[read].
    by rewrite (read_word_to data Hs _ _ 4 _ _ _ H2) by done. }
  assert (fetch_body fuel (at_pos data kBig 4) = OutOfFuel) as Eb.
  { unfold fetch_body. unfold mbind, M_bind. cbn -[read fetch_questions].
    rewrite (read_word_to data Hs _ _ 6 _ _ _ H4) by done. cbn -[read fetch_questions].
    rewrite (read_word_to data Hs _ _ 8 _ _ _ H6) by done. cbn -[read fetch_questions].
    rewrite (read_word_to data Hs _ _ 10 _ _ _ H8) by done. cbn -[read fetch_questions].
    rewrite (read_word_to data Hs _ _ 12 _ _ _ H10) by done. cbn -[read fetch_questions].
    destruct (Z.to_nat qd) as [|n] eqn:En; [lia|]. cbn -[read]. unfold mbind, M_bind, fetch_question, FetchDomain.
    unfold mbind, M_bind.
    by rewrite (fetch_pointer_loop data Hs kBig 12 0xc0 12). }
  unfold with_parser. rewrite Eh. cbn -[fetch_body]. rewrite E.
  rewrite (proj2 (Z.eqb_neq _ _) Hf), Hrc. change (0 =? 0) with true. cbn -[fetch_body]. by rewrite Eb.
Qed.

(** *** A run *)

(** The answer to the query number [id] for "a.bc": its canonical name is "x.bc",
    which has the address 1.2.3.4.  The names are compressed. *)
Definition some_reply (id : Z) : list Z :=
  [0; id; 0x81; 0x80; 0; 1; 0; 2; 0; 0; 0; 0] ++
  [1; 97; 2; 98; 99; 0; 0; 1; 0; 1] ++
  [0xc0; 12; 0; 5; 0; 1; 0; 0; 0; 60; 0; 4; 1; 120; 0xc0; 14] ++
  [0xc0; 34; 0; 1; 0; 1; 0; 0; 0; 60; 0; 4; 1; 2; 3; 4].
Definition some_records : list record := [RCname 60 [[120]; [98; 99]]; RA 60 0x04030201].

(** A reply whose code is a trouble of the server. *)
Definition some_trouble (id : Z) : list Z := [0; id; 0x81; 0x82].

(** A query, which is nothing to a client. *)
Definition some_query : list Z := [0; 9; 0x01; 0x80].

(** The callback asks again, once. *)
Definition again (f : nat) (before : list event) (res : Result) : list call :=
  if (match status res with kTimeout => true | _ => false end) && (asked before <? 4) then [CRequest (str "d") None] else [].

Definition some_ops : list op :=
  [Servers 2; Call (CRequest (str "a.bc") (Some 7%nat)); Call (CRequest (str "e") (Some 8%nat));
   Call (CRequest (str "f") (Some 9%nat)); Recv some_query; Recv (some_reply 1); Recv (some_reply 1);
   Call (CCancel 2); TimerTick; Recv (some_trouble 3); TimerTick; TimerTick; TimerTick; TimerTick; Recv (some_trouble 4);
   Recv (some_trouble 4)].

Definition answered (l : list output) : list (Z * nat * Status) :=
  omap (fun o => if o is Called id cb res then Some (id, cb, status res) else None) l.
Definition seen (w : dns) : list (Z * nat * Status) * bool := (answered (out w), udp_enabled w).

Ltac word := split; [split; vm_compute; [discriminate|reflexivity]|vm_compute; reflexivity].
Ltac words := repeat (split; [word|]).
Ltac is_index := vm_compute; reflexivity.

Lemma some_name : name_at (some_reply 1) 14 [[98; 99]] 18.
Proof.
  apply (name_label _ 14 [98; 99]); [by cbn|is_index|is_index|]. by apply (name_end _ 17).
Qed.

Lemma some_question : name_at (some_reply 1) 12 [[97]; [98; 99]] 18.
Proof. apply (name_label _ 12 [97]); [by cbn|is_index|is_index|]. exact some_name. Qed.

Lemma some_cname : name_at (some_reply 1) 34 [[120]; [98; 99]] 38.
Proof.
  apply (name_label _ 34 [120]); [by cbn|is_index|is_index|].
  apply (name_pointer _ 36 0xc0 14 14 [[98; 99]] 18); [is_index|lia|is_index|done|lia|vm_compute; reflexivity|done|exact some_name].
Qed.

Lemma some_reply_at : reply_at (some_reply 1) 1 0x8180 some_records.
Proof.
  exists 1, 1%nat, 0, 0, 22, 54. words. split; [done|]. split.
  - apply (questions_more _ 12 22 0 22); [|constructor].
    exists [[97]; [98; 99]], 18, 1, 1. split; [exact some_question|]. words. done.
  - apply (records_more _ 22 _ 38); [|apply (records_more _ 38 _ 54); [|constructor]].
    + exists [[97]; [98; 99]], 24, 5, 1, 60, 4. split; [|words; split; [done|split; [done|exact some_cname]]].
      apply (name_pointer _ 22 0xc0 12 12 _ 18); [is_index|lia|is_index|done|lia|vm_compute; reflexivity|done|exact some_question].
    + exists [[120]; [98; 99]], 40, 1, 1, 60, 4. split; [|words; split; [done|split; [done|words; done]]].
      apply (name_pointer _ 38 0xc0 34 34 _ 38); [is_index|lia|is_index|done|lia|vm_compute; reflexivity|done|exact some_cname].
Qed.

Lemma some_ops_ok : Forall op_ok some_ops.
Proof.
  assert (forall id, id = 3 \/ id = 4 -> datagram_ok (some_trouble id)) as Ht.
  { intros id Hid. split; [destruct Hid as [->| ->]; vm_compute; reflexivity|]. exists id, 0x8182. destruct Hid as [->| ->]; words; by intros _ H. }
  assert (datagram_ok some_query) as Hq by (split; [vm_compute; reflexivity|]; exists 9, 0x0180; words; by intros H).
  assert (datagram_ok (some_reply 1)) as Hr.
  { split; [vm_compute; reflexivity|]. exists 1, 0x8180. words. intros _ _. exists some_records. exact some_reply_at. }
  unfold some_ops. repeat first [apply List.Forall_nil | apply List.Forall_cons; [first [exact I|exact Hq|exact Hr|apply Ht; auto]|]].
Qed.

Lemma again_legal fuel servers : callbacks_legal fuel again servers.
Proof.
  intros f before res. unfold again. case_match eqn:E; [|by split; [split; [constructor|left]|constructor]].
  apply andb_true_iff in E as [_ E%Z.ltb_lt]. split; [split; [by repeat constructor|right; cbn; lia]|by repeat constructor].
Qed.

Ltac legal_ops := repeat first [exact I | split; [first [exact I | split; [by repeat constructor | vm_compute; intuition discriminate]]|
  let w' := fresh in let E := fresh in intros w' E; vm_compute in E; injection E as <-]].

Lemma dns_requests_settled_witness : exists n w,
  run (9 + n) again some_ops (new_dns 0) = Ret ((), w) /\
  option_list (query 4 (str "d")) = [[0; 4; 1; 0; 0; 1; 0; 0; 0; 0; 0; 0; 1; 100; 0; 0; 1; 0; 1]] /\
  seen w = ([(1, 7%nat, kSuccess); (3, 9%nat, kTimeout)], false) /\ out w = effects (9 + n) 0 (log w).
Proof.
  destruct (dns_requests_settled some_ops some_ops_ok) as [n Hn].
  destruct (Hn (9 + n)%nat ltac:(lia) again 0%nat) as (w & H1 & H2 & _); [apply again_legal|legal_ops|].
  exists n, w. split; [exact H1|]. split; [reflexivity|]. split; [|exact H2].
  assert (option_map seen (match run (9 + n) again some_ops (new_dns 0) with Ret (_, w) => Some w | _ => None end) = Some (seen w)) as E
    by (by rewrite H1).
  apply Some_inj. rewrite <- E. vm_compute. reflexivity.
Defined.

(** Two requests are pending when the reply to the first comes. *)
Definition two_requests : list op := [Servers 2; Call (CRequest (str "a.bc") (Some 7%nat)); Call (CRequest (str "e") (Some 8%nat))].

Lemma two_legal fuel : ops_legal fuel again two_requests (new_dns 0).
Proof. unfold two_requests. legal_ops. Qed.

Lemma reply_is_understood_witness : exists n w w' more,
  run (9 + n) again two_requests (new_dns 0) = Ret ((), w) /\
  onUdpRecv (9 + n) again (some_reply 1) w = Ret ((), w') /\
  out w' = out w ++ Called 1 7 (mkResult kSuccess [(60, 0x04030201)] [(60, str "x.bc")]) :: more /\
  isRunning w' 1 = false /\ times_called 1 (out w') = 1%nat.
Proof.
  destruct (reply_is_understood two_requests (some_reply 1) 1 0x8180 some_records) as [n Hn].
  - unfold two_requests. by repeat constructor.
  - vm_compute. reflexivity.
  - exact some_reply_at.
  - done.
  - done.
  - destruct (run (9 + n) again two_requests (new_dns 0)) as [[[] w]| |] eqn:E; [|vm_compute in E; discriminate E..].
    destruct (Hn (9 + n)%nat ltac:(lia) again 0%nat w 7%nat 0) as (w' & more & H); [apply again_legal|apply two_legal|exact E| |].
    + vm_compute in E. injection E as <-. vm_compute. reflexivity.
    + exists n, w, w', more. split; [exact E|exact H].
Defined.

Lemma query_names_domain_witness : exists packet,
  query 1 (str "a.bc") = Some packet /\ size packet = 22 /\
  eventually (fun fuel => FetchDomain fuel (at_pos packet kBig 12) = Ret (str "a.bc", at_pos packet kBig 18)).
Proof.
  destruct (query_names_domain 1 [[97]; [98; 99]]) as (packet & E & H).
  - unfold in_range. lia.
  - done.
  - apply Forall_cons; split; [|apply Forall_cons; split; [|constructor]].
    all: split; [by cbn|split; apply (bool_decide_unpack _); vm_compute; exact I].
  - vm_compute. reflexivity.
  - exists packet. assert (Some packet = query 1 (str "a.bc")) as Ep by (by rewrite <- E).
    vm_compute in Ep. injection Ep as ->. split; [reflexivity|]. split; [reflexivity|exact H].
Defined.

(** The name of the question is a pointer to itself. *)
Definition self_reply : list Z := [0; 1; 0x81; 0x80; 0; 1; 0; 0; 0; 0; 0; 0; 0xc0; 12; 0; 1; 0; 1].

Lemma self_pointer_hangs_witness :
  match run 1 again [Servers 1; Call (CRequest (str "a") None)] (new_dns 0) with
  | Ret (_, w) => forall fuel, onUdpRecv fuel again self_reply w = OutOfFuel
  | _ => False
  end.
Proof.
  destruct (run 1 again [Servers 1; Call (CRequest (str "a") None)] (new_dns 0)) as [[? w]| |] eqn:E;
    [|vm_compute in E; discriminate E..].
  apply (self_pointer_hangs again w self_reply 1 0x8180 1 0 0 0);
    [vm_compute; reflexivity| |word..|done|done|lia|is_index|is_index].
  vm_compute in E. injection E as _ <-. vm_compute. reflexivity.
Defined.

(** *** Where the contract ends *)

(** Of a datagram of three bytes, flags are used that were never read. *)
Example short_datagram :
  run 9 again [Servers 1; Call (CRequest (str "a") None); Recv [0; 1; 0x81]] (new_dns 0) = Stuck.
Proof. vm_compute. reflexivity. Qed.

(** A label that is longer than the datagram is copied from an array that has no
    value yet. *)
Example long_label :
  run 9 again [Servers 1; Call (CRequest (str "a") None);
    Recv [0; 1; 0x81; 0x80; 0; 1; 0; 0; 0; 0; 0; 0; 9; 97]] (new_dns 0) = Stuck.
Proof. vm_compute. reflexivity. Qed.

(** A label of 200 characters is written with a length that reads as a pointer. *)
Example label_too_long :
  match query 1 (repeat 97 200) with Some p => index p 12 = Some 200 | None => False end /\
  (let p := default [] (query 1 (repeat 97 200)) in
   FetchDomain 9 (at_pos p kBig 12) <> Ret (repeat 97 200, at_pos p kBig (size p - 4))).
Proof. split; vm_compute; [reflexivity|intros H; discriminate H]. Qed.

(** A callback that cancels its own request destroys the function it runs in. *)
Example cancelled_in_callback :
  run 9 (fun _ _ _ => [CCancel 1])
    [Servers 1; Call (CRequest (str "a") (Some 7%nat)); Recv [0; 1; 0x81; 0x83]] (new_dns 0) = Stuck.
Proof. vm_compute. reflexivity. Qed.

(** After 2^16 requests the number 0 is given, which is also the error value, and a
    number that is pending is given again: the older request is never answered. *)
Example number_zero :
  match run 9 again [Servers 1; Call (CRequest (str "a") None)]
          (set_alloc 0xffff (new_dns 0)) with
  | Ret (_, w) => isRunning w 0 = true /\ request (str "a") None (new_dns 0) = Ret (0, new_dns 0)
  | _ => False
  end.
Proof. vm_compute. split; reflexivity. Qed.
