(* ===== verification/ThreadPool.v ===== *)
(** * ThreadPool: worker threads that execute prioritised tasks

    [modules/eventx/thread_pool.cpp] under every interleaving of its threads.
    What a thread does while it holds the mutex is one step, except that the
    wait on the condition variable takes two: the predicate is evaluated with
    the mutex held, and only the next step of that thread gives the mutex back
    and blocks.  The unlocked write to [all_threads_stop_flag] may come between.

    A [Task] is kept in the cell of its cabinet instead of behind a pointer, a
    [std::thread] is its number in [workers].  [notifies] counts the calls of
    [notify_one] that are still to come, [posted] is what was handed to
    [runInLoop], and [log] is what happened so far. *)
From S2P Require Import Prelude Cabinet.

Definition THREAD_POOL_PRIO_MIN : Z := -2.
Definition THREAD_POOL_PRIO_MAX : Z := 2.
Definition THREAD_POOL_PRIO_SIZE : Z := THREAD_POOL_PRIO_MAX - THREAD_POOL_PRIO_MIN + 1.

Record Task := mkTask { k_token : Token; k_backend : nat; k_main_cb : option nat }.

Inductive TaskStatus := kWaiting | kExecuting | kNotFound.

(** Where a worker stands in [threadProc]. *)
Inductive pc :=
| AtTop               (* before it takes the mutex *)
| WillBlock           (* it holds the mutex, and the predicate was false *)
| Blocked
| Woken               (* it has to take the mutex and evaluate the predicate again *)
| Picked (k : Task)   (* the task is out of the cabinet, the mutex is free *)
| Executing (k : Task)
| Executed (k : Task) (* before the callback is posted *)
| Closing (k : Task)  (* before the task is taken out of [doing_tasks_token] *)
| Leaving             (* out of the loop, [let_main_loop_join_me] is set *)
| Gone.

Record worker := mkWorker { w_token : Token; w_pc : pc }.

(** How far the thread that called [initialize] or [cleanup] has come. *)
Inductive control :=
| CtlNone
| CtlInit                       (* [initialize] has given the mutex back *)
| CtlCleaned (vec : list nat)   (* [cleanup] has given the mutex back *)
| CtlFlagged (vec : list nat)   (* the stop flag is set *)
| CtlJoining (vec : list nat).

Inductive posting := RunCb (t : Token) (cb : nat) | JoinThread (w : nat).

Inductive happened :=
| Accepted (t : Token)
| Answered (t : Token) (r : Z)
| Started (t : Token)
| Finished (t : Token) (main_cb : option nat)
| Called (t : Token) (cb : nat).

(** Worker [w] goes on to [p]. *)
Definition moved (w : nat) (p : pc) (ws : list worker) : list worker := alter (fun x => mkWorker (w_token x) p) w ws.
Arguments moved : simpl never.

Section ThreadPool.
Context {S : Type -> Type} {STORE : TokenStore S}.

Record Data := mkData {
  is_ready : bool; min_thread_num : Z; max_thread_num : Z;
  undo_tasks_cabinet : S Task; undo_tasks_token : list (list Token); doing_tasks_token : gset Token;
  idle_thread_num : Z; threads_cabinet : S nat; all_threads_stop_flag : bool; undo_task_peak_num : Z;
  workers : list worker; locked : bool; notifies : nat; ctl : control;
  posted : list posting; log : list happened }.

Definition new_pool : Data :=
  mkData false 0 0 ts_empty (replicate (Z.to_nat THREAD_POOL_PRIO_SIZE) []) ∅ 0 ts_empty false 0 [] false 0 CtlNone [] [].

Notation P := (M Data).

Definition set_limits (mn mx : Z) (s : Data) :=
  mkData (is_ready s) mn mx (undo_tasks_cabinet s) (undo_tasks_token s) (doing_tasks_token s) (idle_thread_num s)
    (threads_cabinet s) (all_threads_stop_flag s) (undo_task_peak_num s) (workers s) (locked s) (notifies s) (ctl s) (posted s) (log s).
Definition set_ready (b : bool) (s : Data) :=
  mkData b (min_thread_num s) (max_thread_num s) (undo_tasks_cabinet s) (undo_tasks_token s) (doing_tasks_token s) (idle_thread_num s)
    (threads_cabinet s) (all_threads_stop_flag s) (undo_task_peak_num s) (workers s) (locked s) (notifies s) (ctl s) (posted s) (log s).
Definition set_undo (c : S Task) (q : list (list Token)) (s : Data) :=
  mkData (is_ready s) (min_thread_num s) (max_thread_num s) c q (doing_tasks_token s) (idle_thread_num s)
    (threads_cabinet s) (all_threads_stop_flag s) (undo_task_peak_num s) (workers s) (locked s) (notifies s) (ctl s) (posted s) (log s).
Definition set_doing (d : gset Token) (s : Data) :=
  mkData (is_ready s) (min_thread_num s) (max_thread_num s) (undo_tasks_cabinet s) (undo_tasks_token s) d (idle_thread_num s)
    (threads_cabinet s) (all_threads_stop_flag s) (undo_task_peak_num s) (workers s) (locked s) (notifies s) (ctl s) (posted s) (log s).
Definition add_idle (n : Z) (s : Data) :=
  mkData (is_ready s) (min_thread_num s) (max_thread_num s) (undo_tasks_cabinet s) (undo_tasks_token s) (doing_tasks_token s)
    (u64 (idle_thread_num s + n))
    (threads_cabinet s) (all_threads_stop_flag s) (undo_task_peak_num s) (workers s) (locked s) (notifies s) (ctl s) (posted s) (log s).
Definition set_threads (c : S nat) (ws : list worker) (s : Data) :=
  mkData (is_ready s) (min_thread_num s) (max_thread_num s) (undo_tasks_cabinet s) (undo_tasks_token s) (doing_tasks_token s) (idle_thread_num s)
    c (all_threads_stop_flag s) (undo_task_peak_num s) ws (locked s) (notifies s) (ctl s) (posted s) (log s).
Definition set_stop (b : bool) (s : Data) :=
  mkData (is_ready s) (min_thread_num s) (max_thread_num s) (undo_tasks_cabinet s) (undo_tasks_token s) (doing_tasks_token s) (idle_thread_num s)
    (threads_cabinet s) b (undo_task_peak_num s) (workers s) (locked s) (notifies s) (ctl s) (posted s) (log s).
Definition set_peak (n : Z) (s : Data) :=
  mkData (is_ready s) (min_thread_num s) (max_thread_num s) (undo_tasks_cabinet s) (undo_tasks_token s) (doing_tasks_token s) (idle_thread_num s)
    (threads_cabinet s) (all_threads_stop_flag s) n (workers s) (locked s) (notifies s) (ctl s) (posted s) (log s).
Definition set_locked (b : bool) (s : Data) :=
  mkData (is_ready s) (min_thread_num s) (max_thread_num s) (undo_tasks_cabinet s) (undo_tasks_token s) (doing_tasks_token s) (idle_thread_num s)
    (threads_cabinet s) (all_threads_stop_flag s) (undo_task_peak_num s) (workers s) b (notifies s) (ctl s) (posted s) (log s).
Definition set_notifies (n : nat) (s : Data) :=
  mkData (is_ready s) (min_thread_num s) (max_thread_num s) (undo_tasks_cabinet s) (undo_tasks_token s) (doing_tasks_token s) (idle_thread_num s)
    (threads_cabinet s) (all_threads_stop_flag s) (undo_task_peak_num s) (workers s) (locked s) n (ctl s) (posted s) (log s).
Definition set_ctl (c : control) (s : Data) :=
  mkData (is_ready s) (min_thread_num s) (max_thread_num s) (undo_tasks_cabinet s) (undo_tasks_token s) (doing_tasks_token s) (idle_thread_num s)
    (threads_cabinet s) (all_threads_stop_flag s) (undo_task_peak_num s) (workers s) (locked s) (notifies s) c (posted s) (log s).
Definition set_posted (l : list posting) (s : Data) :=
  mkData (is_ready s) (min_thread_num s) (max_thread_num s) (undo_tasks_cabinet s) (undo_tasks_token s) (doing_tasks_token s) (idle_thread_num s)
    (threads_cabinet s) (all_threads_stop_flag s) (undo_task_peak_num s) (workers s) (locked s) (notifies s) (ctl s) l (log s).
Definition note (e : happened) (s : Data) :=
  mkData (is_ready s) (min_thread_num s) (max_thread_num s) (undo_tasks_cabinet s) (undo_tasks_token s) (doing_tasks_token s) (idle_thread_num s)
    (threads_cabinet s) (all_threads_stop_flag s) (undo_task_peak_num s) (workers s) (locked s) (notifies s) (ctl s) (posted s) (log s ++ [e]).

Definition set_pc (w : nat) (p : pc) (s : Data) : Data :=
  set_threads (threads_cabinet s) (moved w p (workers s)) s.

(** ** The tasks *)

(** [undo_tasks_cabinet.free(token)]; the task goes back to [task_pool]. *)
Definition free_task (t : Token) : P (option Task) :=
  s ← get;
  '(c, o) ← the (ts_free (undo_tasks_cabinet s) t);
  put (set_undo c (undo_tasks_token s) s) ;;
  mret o.

(** The first token of the first deque that is not empty. *)
Fixpoint pop_front (qs : list (list Token)) : option (Token * list (list Token)) :=
  match qs with
  | [] => None
  | [] :: qs' => option_map (fun r => (r.1, [] :: r.2)) (pop_front qs')
  | (t :: q) :: qs' => Some (t, q :: qs')
  end.

Definition popOneTask : P (option Task) :=
  s ← get;
  match pop_front (undo_tasks_token s) with
  | None => mret None
  | Some (t, qs) => put (set_undo (undo_tasks_cabinet s) qs s) ;; free_task t
  end.

Definition shouldThreadExitWaiting (s : Data) : bool :=
  all_threads_stop_flag s || existsb (fun q => negb (length q =? 0)%nat) (undo_tasks_token s).

(** [std::thread] starts at the top of [threadProc]. *)
Definition createWorker : P () :=
  s ← get;
  '(c, t) ← the (ts_alloc (threads_cabinet s) None);
  '(c, _) ← the (ts_update c t (Some (length (workers s))));
  put (set_threads c (workers s ++ [mkWorker t AtTop]) s).

Definition level_of (prio : Z) : Z :=
  (if prio <? THREAD_POOL_PRIO_MIN then THREAD_POOL_PRIO_MIN
   else if THREAD_POOL_PRIO_MAX <? prio then THREAD_POOL_PRIO_MAX else prio) + THREAD_POOL_PRIO_MAX.

(** [is_ready] is read before the lock is taken, and here in the same step: it changes only
    in [initialize()] and at the end of [cleanup()], and a call that overlaps with the
    latter is not modelled. *)
Definition execute (backend_task : nat) (main_cb : option nat) (prio : Z) : P Token :=
  s ← get;
  if negb (is_ready s) then mret token_null
  else
    let level := Z.to_nat (level_of prio) in
    '(c, t) ← the (ts_alloc (undo_tasks_cabinet s) (Some (mkTask token_null backend_task main_cb)));
    '(c, _) ← the (ts_update c t (Some (mkTask t backend_task main_cb)));
    q ← the (undo_tasks_token s !! level);
    put (set_undo c (<[level := q ++ [t]]> (undo_tasks_token s)) s) ;;
    (if idle_thread_num s <? ts_size c then
       if ts_size (threads_cabinet s) <? max_thread_num s then createWorker
       else when (undo_task_peak_num s <? ts_size c) (modify (set_peak (ts_size c)))
     else mret ()) ;;
    modify (note (Accepted t)) ;;
    (* the mutex is free; notify_one() is to come *)
    modify (fun s => set_notifies (notifies s + 1)%nat s) ;;
    mret t.

Definition getTaskStatus (t : Token) (s : Data) : option TaskStatus :=
  o ← ts_at (undo_tasks_cabinet s) t;
  match o with
  | Some _ => Some kWaiting
  | None => if bool_decide (t ∈ doing_tasks_token s) then Some kExecuting else Some kNotFound
  end.

(** [std::find] and [erase] in the first deque that has the token. *)
Fixpoint remove_first (t : Token) (q : list Token) : list Token :=
  match q with [] => [] | t' :: q' => if bool_decide (t' = t) then q' else t' :: remove_first t q' end.
Fixpoint take_token (t : Token) (qs : list (list Token)) : option (list (list Token)) :=
  match qs with
  | [] => None
  | q :: qs' => if bool_decide (t ∈ q) then Some (remove_first t q :: qs') else option_map (cons q) (take_token t qs')
  end.

Definition cancel (t : Token) : P Z :=
  s ← get;
  if bool_decide (t ∈ doing_tasks_token s) then mret 2
  else
    match take_token t (undo_tasks_token s) with
    | Some qs =>
        put (set_undo (undo_tasks_cabinet s) qs s) ;;
        o ← free_task t; _ ← the o;
        mret 0
    | None => mret 1
    end.

Record Snapshot := mkSnapshot {
  ss_thread_num : Z; ss_idle_thread_num : Z; ss_undo_task_num : list Z; ss_doing_task_num : Z; ss_undo_task_peak_num : Z }.

Definition snapshot (s : Data) : Snapshot :=
  mkSnapshot (ts_size (threads_cabinet s)) (idle_thread_num s) (map (fun q => Z.of_nat (length q)) (undo_tasks_token s))
    (Z.of_nat (size (doing_tasks_token s))) (undo_task_peak_num s).

(** ** The workers *)

(** The loop of [cond_var.wait] around the predicate, and what follows it. *)
Definition wait_or_pick (w : nat) : P () :=
  s ← get;
  if shouldThreadExitWaiting s then
    modify (add_idle (-1)) ;;
    if all_threads_stop_flag s then modify (set_pc w Gone)
    else
      item ← popOneTask;
      match item with
      | Some k => modify (set_pc w (Picked k))
      | None => modify (set_pc w AtTop)
      end
  else modify (set_locked true) ;; modify (set_pc w WillBlock).

Definition threadProc (w : nat) : P () :=
  s ← get;
  x ← the (workers s !! w);
  match w_pc x with
  | AtTop =>
      if (ts_size (undo_tasks_cabinet s) <=? idle_thread_num s) && (min_thread_num s <? ts_size (threads_cabinet s))
      then modify (set_pc w Leaving)
      else modify (add_idle 1) ;; wait_or_pick w
  | WillBlock => modify (set_locked false) ;; modify (set_pc w Blocked)
  | Blocked => stuck
  | Woken => wait_or_pick w
  | Picked k =>
      modify (set_doing ({[k_token k]} ∪ doing_tasks_token s)) ;;
      modify (note (Started (k_token k))) ;;
      modify (set_pc w (Executing k))
  | Executing k => (* CatchThrow(item->backend_task, true) returns *)
      modify (note (Finished (k_token k) (k_main_cb k))) ;; modify (set_pc w (Executed k))
  | Executed k =>
      match k_main_cb k with
      | Some cb => modify (set_posted (posted s ++ [RunCb (k_token k) cb]))
      | None => mret ()
      end ;;
      modify (set_pc w (Closing k))
  | Closing k =>
      modify (set_doing (doing_tasks_token s ∖ {[k_token k]})) ;; modify (set_pc w AtTop)
  | Leaving =>
      '(c, o) ← the (ts_free (threads_cabinet s) (w_token x));
      t ← the o; (* TBOX_ASSERT(t != nullptr) *)
      put (set_threads c (workers s) s) ;;
      modify (set_posted (posted s ++ [JoinThread t])) ;;
      modify (set_pc w Gone)
  | Gone => stuck
  end.

(** ** [initialize] and [cleanup] *)

Fixpoint create_workers (n : nat) : P () :=
  match n with O => mret () | Datatypes.S n' => createWorker ;; create_workers n' end.

Definition initialize (mn mx : Z) : P () :=
  s ← get;
  if is_ready s then mret ()
  else if (mx <? 0) || (mn <? 0) || (mx <? mn) || (mx =? 0) then mret ()
  else modify (set_limits mn mx) ;; create_workers (Z.to_nat mn) ;; modify (set_ctl CtlInit).

Fixpoint free_all (q : list Token) : P () :=
  match q with [] => mret () | t :: q' => o ← free_task t; _ ← the o; free_all q' end.

Definition cleanup : P () :=
  s ← get;
  if negb (is_ready s) then mret ()
  else
    free_all (concat (undo_tasks_token s)) ;;
    s ← get;
    l ← the (ts_objects (threads_cabinet s));
    vec ← the (mapM id l);
    put (set_threads (ts_clear (threads_cabinet s)) (workers s)
          (set_undo (undo_tasks_cabinet s) (map (fun _ => []) (undo_tasks_token s)) s)) ;;
    modify (set_ctl (CtlCleaned vec)).

Definition wake (x : worker) : worker :=
  match w_pc x with Blocked => mkWorker (w_token x) Woken | _ => x end.

(** The next step of [initialize] or [cleanup]. *)
Definition proceed : P () :=
  s ← get;
  match ctl s with
  | CtlNone => stuck
  | CtlInit => modify (set_stop false) ;; modify (set_ready true) ;; modify (set_ctl CtlNone)
  | CtlCleaned vec => modify (set_stop true) ;; modify (set_ctl (CtlFlagged vec))
  | CtlFlagged vec => (* notify_all() *)
      modify (set_threads (threads_cabinet s) (map wake (workers s))) ;; modify (set_ctl (CtlJoining vec))
  | CtlJoining (_ :: vec) => modify (set_ctl (CtlJoining vec))
  | CtlJoining [] => modify (set_ready false) ;; modify (set_ctl CtlNone)
  end.

(** ** Interleavings *)

Inductive label :=
| Execute (backend_task : nat) (main_cb : option nat) (prio : Z)
| Cancel (t : Token)
| Notify (w : option nat)     (* a [notify_one] reaches this thread, or nobody *)
| Spurious (w : nat)          (* the wait of this thread returns without a notification *)
| Worker (w : nat)
| MainCallback                (* the loop runs what was posted to it *)
| Initialize (mn mx : Z)
| Cleanup
| Control.

Definition in_pc (f : pc -> bool) (w : nat) (s : Data) : bool :=
  match workers s !! w with Some x => f (w_pc x) | None => false end.
Definition is_blocked (p : pc) : bool := match p with Blocked => true | _ => false end.
Definition is_gone (p : pc) : bool := match p with Gone => true | _ => false end.

Definition no_control (s : Data) : bool := match ctl s with CtlNone => true | _ => false end.

Definition enabled (l : label) (s : Data) : bool :=
  match l with
  | Execute _ _ _ | Cancel _ => negb (locked s)
  | Notify None => (0 <? notifies s)%nat && negb (existsb (fun x => is_blocked (w_pc x)) (workers s))
  | Notify (Some w) => (0 <? notifies s)%nat && in_pc is_blocked w s
  | Spurious w => in_pc is_blocked w s
  | Worker w =>
      in_pc (fun p => match p with
                      | Blocked | Gone => false
                      | WillBlock | Executing _ | Executed _ => true
                      | _ => negb (locked s)
                      end) w s
  | MainCallback => no_control s && match posted s with
                                   | [] => false
                                   | RunCb _ _ :: _ => true
                                   | JoinThread w :: _ => in_pc is_gone w s
                                   end
  | Initialize _ _ | Cleanup => no_control s && negb (locked s)
  | Control => match ctl s with
               | CtlNone => false
               | CtlJoining (w :: _) => in_pc is_gone w s
               | _ => true
               end
  end.

Definition fire (l : label) : P () :=
  match l with
  | Execute b cb prio => _ ← execute b cb prio; mret ()
  | Cancel t => r ← cancel t; modify (note (Answered t r))
  | Notify o =>
      modify (fun s => set_notifies (notifies s - 1)%nat s) ;;
      match o with Some w => modify (set_pc w Woken) | None => mret () end
  | Spurious w => modify (set_pc w Woken)
  | Worker w => threadProc w
  | MainCallback =>
      s ← get;
      match posted s with
      | [] => stuck
      | RunCb t cb :: l => modify (set_posted l) ;; modify (note (Called t cb))
      | JoinThread _ :: l => modify (set_posted l)
      end
  | Initialize mn mx => initialize mn mx
  | Cleanup => cleanup
  | Control => proceed
  end.

(** The steps of [ls] in this order; every one has to be possible when its turn comes. *)
Fixpoint exec (ls : list label) (s : Data) : option (outcome Data) :=
  match ls with
  | [] => Some (Ret s)
  | l :: ls' =>
      if enabled l s then
        match fire l s with
        | Ret (_, s') => exec ls' s'
        | Stuck => Some Stuck
        | OutOfFuel => Some OutOfFuel
        end
      else None
  end.
End ThreadPool.

(** ** Examples *)

Notation pool := (Data (S := cabinet)).
Notation play ls := (exec (S := cabinet) ls new_pool).

(** Twice a task: a worker of its own executes it, and the second with a callback. *)
Definition serve_two : list label :=
  [Initialize 0 2; Control; Execute 7 None 0; Notify None; Execute 8 (Some 9%nat) (-5); Notify None] ++
  replicate 5 (Worker 0) ++ replicate 4 (Worker 1) ++ [MainCallback].

Example two_served : match play serve_two with
  | Some (Ret s) => map w_pc (workers s) = [AtTop; Closing (mkTask (mkToken 1 0) 7 None)] /\
      log s = [Accepted (mkToken 1 0); Accepted (mkToken 2 1);
               Started (mkToken 2 1); Finished (mkToken 2 1) (Some 9%nat);
               Started (mkToken 1 0); Finished (mkToken 1 0) None; Called (mkToken 2 1) 9]
  | _ => False end.
Proof. vm_compute. split; reflexivity. Qed.

(** ** Sums and lists over the workers *)

Fixpoint total (f : pc -> Z) (ws : list worker) : Z :=
  match ws with [] => 0 | x :: ws' => f (w_pc x) + total f ws' end.

Definition gather {A} (f : pc -> list A) (ws : list worker) : list A := flat_map (fun x => f (w_pc x)) ws.

Lemma total_app f ws ws' : total f (ws ++ ws') = total f ws + total f ws'.
Proof. induction ws as [|x ws IH]; cbn; lia. Qed.

Lemma total_moved f ws w x p : ws !! w = Some x -> total f (moved w p ws) = total f ws - f (w_pc x) + f p.
Proof.
  revert w. induction ws as [|y ws IH]; intros [|w] H; cbn in H; simplify_eq; [unfold moved; cbn; lia|].
  specialize (IH w H). unfold moved in *. cbn. change (list_alter ?g w ws) with (alter g w ws). lia.
Qed.

Lemma sum_nonneg f ws : (forall p, 0 <= f p) -> 0 <= total f ws.
Proof. intros Hf. induction ws as [|x ws IH]; cbn; [lia|]. specialize (Hf (w_pc x)). lia. Qed.

Lemma total_in f ws w x : (forall p, 0 <= f p) -> ws !! w = Some x -> f (w_pc x) <= total f ws.
Proof.
  intros Hf. revert w. induction ws as [|y ws IH]; intros [|w] H; cbn in *; simplify_eq.
  - pose proof (sum_nonneg f ws Hf). lia.
  - specialize (IH w H). specialize (Hf (w_pc y)). lia.
Qed.

Lemma total_le f g ws : (forall p, f p <= g p) -> total f ws <= total g ws.
Proof. intros H. induction ws as [|x ws IH]; cbn; [lia|]. specialize (H (w_pc x)). lia. Qed.

Lemma total_zero f ws x : (forall p, 0 <= f p) -> total f ws = 0 -> x ∈ ws -> f (w_pc x) = 0.
Proof.
  intros Hf H [i Hi]%list_elem_of_lookup. pose proof (total_in f ws i x Hf Hi). specialize (Hf (w_pc x)). lia.
Qed.

Lemma gather_app {A} (f : pc -> list A) ws ws' : gather f (ws ++ ws') = gather f ws ++ gather f ws'.
Proof. apply flat_map_app. Qed.

Lemma gather_split {A} (f : pc -> list A) ws w x p : ws !! w = Some x -> exists l,
  gather f ws ≡ₚ f (w_pc x) ++ l /\ gather f (moved w p ws) ≡ₚ f p ++ l.
Proof.
  revert w. unfold moved. induction ws as [|y ws IH]; intros [|w] H; cbn in *; simplify_eq; [by eexists|].
  destruct (IH w H) as (l & H1 & H2). change (list_alter ?g w ws) with (alter g w ws).
  exists (f (w_pc y) ++ l). unfold gather in *. rewrite H1, H2. split; rewrite !app_assoc; f_equiv; apply Permutation_app_comm.
Qed.

Lemma gather_in {A} (f : pc -> list A) ws a : a ∈ gather f ws <-> exists w x, ws !! w = Some x /\ a ∈ f (w_pc x).
Proof.
  unfold gather. rewrite list_elem_of_In, in_flat_map. split.
  - intros (x & H1 & H2). apply list_elem_of_In in H1, H2. apply list_elem_of_lookup in H1 as [w H1]. eauto.
  - intros (w & x & H1 & H2). exists x. rewrite <- !list_elem_of_In. split; [by eapply list_elem_of_lookup_2|done].
Qed.

Lemma moved_lookup (ws : list worker) (w : nat) x p (i : nat) y : ws !! w = Some x -> moved w p ws !! i = Some y ->
  (i = w /\ y = mkWorker (w_token x) p) \/ (i <> w /\ ws !! i = Some y).
Proof.
  unfold moved. intros Hx H. destruct (decide (i = w)) as [->|N]; [left|right].
  - rewrite list_lookup_alter_eq, Hx in H. by simplify_eq/=.
  - rewrite list_lookup_alter_ne in H by done. done.
Qed.

Lemma in_pc_true f w (ws : list worker) : match ws !! w with Some x => f (w_pc x) | None => false end = true ->
  exists x, ws !! w = Some x /\ f (w_pc x) = true.
Proof. destruct (ws !! w) as [x|]; [eauto|done]. Qed.

Lemma moved_other ws w p (i : nat) : i <> w -> moved w p ws !! i = ws !! i.
Proof. intros N. by apply list_lookup_alter_ne. Qed.

Lemma moved_length ws w p : length (moved w p ws) = length ws.
Proof. apply length_alter. Qed.

(** ** The deques *)

Lemma pop_front_Some qs t qs' : pop_front qs = Some (t, qs') -> concat qs = t :: concat qs' /\ length qs' = length qs.
Proof.
  revert qs'. induction qs as [|[|t' q] qs IH]; intros qs' H; cbn in *; [done| |by simplify_eq].
  destruct (pop_front qs) as [[t1 qs1]|]; [|done]. cbn in H. simplify_eq. destruct (IH qs1 eq_refl). cbn. auto.
Qed.

Lemma pop_front_None qs : pop_front qs = None -> concat qs = [].
Proof.
  induction qs as [|[|t q] qs IH]; intros H; cbn in *; [done| |done]. apply IH. by destruct (pop_front qs).
Qed.

Lemma any_waiting qs : existsb (fun q : list Token => negb (length q =? 0)%nat) qs = negb (bool_decide (concat qs = [])).
Proof. by induction qs as [|[|t q] qs IH]. Qed.

Lemma remove_first_perm t q : t ∈ q -> q ≡ₚ t :: remove_first t q.
Proof.
  induction q as [|t' q IH]; intros H; [by apply elem_of_nil in H|]. cbn. case_bool_decide as E; [by subst|].
  apply elem_of_cons in H as [->|H]; [done|]. rewrite (IH H) at 1. apply Permutation_swap.
Qed.

Lemma take_token_spec t qs : match take_token t qs with
  | Some qs' => concat qs ≡ₚ t :: concat qs' /\ length qs' = length qs
  | None => t ∉ concat qs end.
Proof.
  induction qs as [|q qs IH]; cbn; [apply not_elem_of_nil|]. case_bool_decide as E.
  - cbn. split; [|done]. by rewrite (remove_first_perm t q E) at 1.
  - destruct (take_token t qs) as [qs'|]; cbn.
    + destruct IH as [IH1 IH2]. split; [|lia]. rewrite IH1. symmetry. apply Permutation_middle.
    + rewrite elem_of_app. tauto.
Qed.

Lemma push_perm (qs : list (list Token)) l q t : qs !! l = Some q -> concat (<[l := q ++ [t]]> qs) ≡ₚ t :: concat qs.
Proof.
  revert l. induction qs as [|q' qs IH]; intros [|l] H; cbn in *; simplify_eq.
  - rewrite <- app_assoc. symmetry. apply Permutation_middle.
  - change (list_insert l ?y qs) with (<[l := y]> qs). rewrite (IH l H). symmetry. apply Permutation_middle.
Qed.

Lemma level_range prio : (Z.to_nat (level_of prio) < 5)%nat.
Proof.
  unfold level_of, THREAD_POOL_PRIO_MIN, THREAD_POOL_PRIO_MAX.
  destruct (Z.ltb_spec prio (-2)); [lia|]. destruct (Z.ltb_spec 2 prio); lia.
Qed.

(** ** What the log says *)

Definition accepted (l : list happened) : list Token := flat_map (fun e => match e with Accepted t => [t] | _ => [] end) l.
Definition cancelled (l : list happened) : list Token :=
  flat_map (fun e => match e with Answered t 0 => [t] | _ => [] end) l.
Definition started (l : list happened) : list Token := flat_map (fun e => match e with Started t => [t] | _ => [] end) l.
Definition finished (l : list happened) : list Token := flat_map (fun e => match e with Finished t _ => [t] | _ => [] end) l.
Definition callbacks (l : list happened) : list (Token * nat) :=
  flat_map (fun e => match e with Finished t (Some cb) => [(t, cb)] | _ => [] end) l.
Definition called (l : list happened) : list (Token * nat) :=
  flat_map (fun e => match e with Called t cb => [(t, cb)] | _ => [] end) l.
Definition to_call (l : list posting) : list (Token * nat) :=
  flat_map (fun e => match e with RunCb t cb => [(t, cb)] | _ => [] end) l.

(** Which task a worker has taken, executes, or has listed as being done. *)
Definition picked (p : pc) : list Token := match p with Picked k => [k_token k] | _ => [] end.
Definition executing (p : pc) : list Token := match p with Executing k => [k_token k] | _ => [] end.
Definition in_hand (p : pc) : list Token :=
  match p with Executing k | Executed k | Closing k => [k_token k] | _ => [] end.
Definition to_post (p : pc) : list (Token * nat) :=
  match p with Executed (mkTask t _ (Some cb)) => [(t, cb)] | _ => [] end.

Definition live (p : pc) : Z := match p with Gone => 0 | _ => 1 end.
Definition in_wait (p : pc) : Z := match p with WillBlock | Blocked | Woken => 1 | _ => 0 end.
Definition holds_lock (p : pc) : Z := match p with WillBlock => 1 | _ => 0 end.
Definition blocked (p : pc) : Z := match p with Blocked => 1 | _ => 0 end.
Definition woken (p : pc) : Z := match p with Woken => 1 | _ => 0 end.

(** The books: what became of every task.  [q] are the waiting tokens. *)
Record books (q : list Token) (doing : gset Token) (ws : list worker) (po : list posting) (l : list happened) : Prop := {
  bk_tasks : accepted l ≡ₚ cancelled l ++ q ++ gather picked ws ++ started l;
  bk_once : NoDup (accepted l);
  bk_run : started l ≡ₚ gather executing ws ++ finished l;
  bk_calls : callbacks l ≡ₚ gather to_post ws ++ to_call po ++ called l;
  bk_hand : gather in_hand ws ⊆+ started l;
  bk_doing t : t ∈ doing <-> t ∈ gather in_hand ws }.

(** [Hb : books _ _ ws _ _] and [Hx : ws !! w = Some x]: the books once the worker is at [p]. *)
Ltac move_books Hb Hx E p :=
  let Ht := fresh in let Ho := fresh in let Hr := fresh in let Hc := fresh in let Hh := fresh in let Hd := fresh in
  destruct Hb as [Ht Ho Hr Hc Hh Hd];
  let rp := fresh "rp" in let re := fresh "re" in let rc := fresh "rc" in let rh := fresh "rh" in
  let Ep := fresh in let Ep' := fresh in let Ee := fresh in let Ee' := fresh in
  let Ec := fresh in let Ec' := fresh in let Eh := fresh in let Eh' := fresh in
  destruct (gather_split picked _ _ _ p Hx) as (rp & Ep & Ep');
  destruct (gather_split executing _ _ _ p Hx) as (re & Ee & Ee');
  destruct (gather_split to_post _ _ _ p Hx) as (rc & Ec & Ec');
  destruct (gather_split in_hand _ _ _ p Hx) as (rh & Eh & Eh');
  rewrite Ep in Ht; rewrite Ee in Hr; rewrite Ec in Hc; rewrite Eh in Hh;
  setoid_rewrite Eh in Hd; rewrite E in Ht, Hr, Hc, Hh; setoid_rewrite E in Hd;
  cbn [picked executing to_post in_hand app] in Ht, Hr, Hc, Hh, Hd;
  split; [rewrite Ep'| |rewrite Ee'|rewrite Ec'|rewrite Eh'|intros t; rewrite Eh'];
  unfold accepted, cancelled, started, finished, callbacks, called, to_call in *;
  cbn [k_main_cb k_token];
  rewrite ?flat_map_app; cbn [flat_map picked executing to_post in_hand app k_main_cb k_token];
  rewrite ?app_nil_r.

Ltac by_perm := first
  [ etransitivity; [eassumption|solve_Permutation]
  | etransitivity; [apply Permutation_app_tail; eassumption|solve_Permutation] ].

Section Books.
Context (q : list Token) (d : gset Token) (ws : list worker) (po : list posting) (l : list happened).
Hypothesis Hb : books q d ws po l.

(** A worker that neither had nor gets a task. *)
Definition idle_pc (p : pc) : Prop := picked p = [] /\ executing p = [] /\ to_post p = [] /\ in_hand p = [].

Lemma books_idle w x p : ws !! w = Some x -> idle_pc (w_pc x) -> idle_pc p -> books q d (moved w p ws) po l.
Proof.
  intros Hx (E1 & E2 & E3 & E4) (F1 & F2 & F3 & F4).
  destruct (gather_split picked _ _ _ p Hx) as (r1 & H1 & H1'), (gather_split executing _ _ _ p Hx) as (r2 & H2 & H2'),
    (gather_split to_post _ _ _ p Hx) as (r3 & H3 & H3'), (gather_split in_hand _ _ _ p Hx) as (r4 & H4 & H4').
  rewrite E1, <- F1, <- H1' in H1. rewrite E2, <- F2, <- H2' in H2. rewrite E3, <- F3, <- H3' in H3. rewrite E4, <- F4, <- H4' in H4.
  destruct Hb as [T1 T2 T3 T4 T5 T6]. rewrite H1 in T1. rewrite H2 in T3. rewrite H3 in T4. rewrite H4 in T5. setoid_rewrite H4 in T6. by split.
Qed.

Lemma books_start w x k : ws !! w = Some x -> w_pc x = Picked k ->
  books q ({[k_token k]} ∪ d) (moved w (Executing k) ws) po (l ++ [Started (k_token k)]).
Proof.
  intros Hx E. move_books Hb Hx E (Executing k); try done; try by_perm.
  - etransitivity; [by apply submseteq_skip|solve_submseteq].
  - set_solver.
Qed.

Lemma books_finish w x k : ws !! w = Some x -> w_pc x = Executing k ->
  books q d (moved w (Executed k) ws) po (l ++ [Finished (k_token k) (k_main_cb k)]).
Proof. intros Hx E. destruct k as [k b [cb|]].
  - move_books Hb Hx E (Executed (mkTask k b (Some cb))); done || by_perm || set_solver.
  - move_books Hb Hx E (Executed (mkTask k b None)); done || by_perm || set_solver.
Qed.

Lemma books_post w x k : ws !! w = Some x -> w_pc x = Executed k ->
  books q d (moved w (Closing k) ws) (match k_main_cb k with Some cb => po ++ [RunCb (k_token k) cb] | None => po end) l.
Proof. intros Hx E. destruct k as [k b [cb|]].
  - move_books Hb Hx E (Closing (mkTask k b (Some cb))); done || by_perm || set_solver.
  - move_books Hb Hx E (Closing (mkTask k b None)); done || by_perm || set_solver.
Qed.

Lemma hand_nodup : NoDup (gather in_hand ws).
Proof.
  destruct (submseteq_Permutation _ _ (bk_hand _ _ _ _ _ Hb)) as [k Hk].
  pose proof (bk_once _ _ _ _ _ Hb) as Hn. rewrite (bk_tasks _ _ _ _ _ Hb), Hk in Hn.
  apply NoDup_app in Hn as (_ & _ & (_ & _ & (_ & _ & (? & _)%NoDup_app)%NoDup_app)%NoDup_app). done.
Qed.

Lemma books_close w x k : ws !! w = Some x -> w_pc x = Closing k ->
  books q (d ∖ {[k_token k]}) (moved w AtTop ws) po l.
Proof.
  intros Hx E. pose proof hand_nodup as Hn. move_books Hb Hx E AtTop; try done; try by_perm.
  - etransitivity; [|eassumption]. by apply submseteq_cons.
  - match goal with H : gather in_hand ws ≡ₚ _ |- _ => rewrite H, E in Hn end. cbn in Hn. apply NoDup_cons in Hn as [Hn _]. set_solver.
Qed.

Lemma books_queue q' : q' ≡ₚ q -> books q' d ws po l.
Proof. intros E. destruct Hb as [T1 T2 T3 T4 T5 T6]. split; [by rewrite E|done..]. Qed.

Lemma books_pick w x k q' : q ≡ₚ k_token k :: q' -> ws !! w = Some x -> idle_pc (w_pc x) -> books q' d (moved w (Picked k) ws) po l.
Proof.
  intros Hq Hx (E1 & E2 & E3 & E4).
  destruct (gather_split picked _ _ _ (Picked k) Hx) as (r1 & H1 & H1'), (gather_split executing _ _ _ (Picked k) Hx) as (r2 & H2 & H2'),
    (gather_split to_post _ _ _ (Picked k) Hx) as (r3 & H3 & H3'), (gather_split in_hand _ _ _ (Picked k) Hx) as (r4 & H4 & H4').
  rewrite E1 in H1. rewrite E2, <- H2' in H2. rewrite E3, <- H3' in H3. rewrite E4, <- H4' in H4.
  destruct Hb as [T1 T2 T3 T4 T5 T6]. rewrite H1, Hq in T1. rewrite H2 in T3. rewrite H3 in T4. rewrite H4 in T5. setoid_rewrite H4 in T6.
  split; try done. rewrite H1'. by_perm.
Qed.

Lemma books_accept t q' ws' : q' ≡ₚ t :: q -> t ∉ accepted l -> (forall A (f : pc -> list A), f AtTop = [] -> gather f ws' = gather f ws) ->
  books q' d ws' po (l ++ [Accepted t]).
Proof.
  intros Hq Ht Hw. destruct Hb as [T1 T2 T3 T4 T5 T6].
  split; rewrite ?(Hw _ picked), ?(Hw _ executing), ?(Hw _ to_post), ?(Hw _ in_hand) by done;
    unfold accepted, cancelled, started, finished, callbacks, called in *; rewrite ?flat_map_app; cbn [flat_map app]; rewrite ?app_nil_r; try done.
  - rewrite T1, Hq. solve_Permutation.
  - apply NoDup_app. split_and!; [done| |apply NoDup_singleton]. intros t' H1 ->%list_elem_of_singleton. done.
Qed.

Lemma books_answer t r q' : (if r =? 0 then q ≡ₚ t :: q' else q' = q) -> books q' d ws po (l ++ [Answered t r]).
Proof.
  intros Hq. destruct Hb as [T1 T2 T3 T4 T5 T6].
  split; unfold accepted, cancelled, started, finished, callbacks, called in *; rewrite ?flat_map_app; cbn [flat_map app]; rewrite ?app_nil_r; try done.
  rewrite T1. destruct r; cbn in Hq |- *; [rewrite Hq; solve_Permutation|by rewrite Hq, app_nil_r..].
Qed.

Lemma books_called po' t cb : po = RunCb t cb :: po' -> books q d ws po' (l ++ [Called t cb]).
Proof.
  intros ->. destruct Hb as [T1 T2 T3 T4 T5 T6].
  split; unfold accepted, cancelled, started, finished, callbacks, called, to_call in *; rewrite ?flat_map_app; cbn [flat_map app] in *; rewrite ?app_nil_r; try done.
  by_perm.
Qed.

End Books.

Section Correct.
Context {S : Type -> Type} {STORE : TokenStore S}.
Notation Data := (Data (S := S)).
Implicit Types s : Data.

Definition waiting s : list Token := concat (undo_tasks_token s).

(** The cabinet of the waiting tasks; [n] bounds the tokens given out. *)
Record tasks_ok (n : Z) (c : S Task) (qs : list (list Token)) (l : list happened) : Prop := {
  tk_wf : ts_wf c;
  tk_room : ts_cells c <= n /\ ts_last c <= n;
  tk_dom t : t ∈ concat qs <-> is_Some (ts_view c !! t);
  tk_obj t o : ts_view c !! t = Some o -> exists k, o = Some k /\ k_token k = t;
  tk_tok t : t ∈ concat qs -> tok_wf t;
  tk_old t : t ∈ accepted l -> tok_id t <= ts_last c;
  tk_levels : length qs = 5%nat }.

(** The threads. *)
Record crew (n mn mx : Z) (c : S nat) (ws : list worker) (po : list posting) : Prop := {
  cr_wf : ts_wf c;
  cr_room : ts_cells c <= n /\ Z.of_nat (length ws) <= n;
  cr_view i x : ws !! i = Some x -> w_pc x <> Gone -> tok_wf (w_token x) /\ ts_view c !! w_token x = Some (Some i);
  cr_size : Z.of_nat (size (ts_view c)) = total live ws;
  cr_max : mn <= mx /\ total live ws <= mx;
  cr_fixed : mn = mx -> forall x, x ∈ ws -> w_pc x <> Leaving /\ w_pc x <> Gone;
  cr_join i : JoinThread i ∈ po -> exists x, ws !! i = Some x /\ w_pc x = Gone }.

(** Waiting and being woken: no task waits while everybody sleeps. *)
Record waits (q : list Token) (ws : list worker) (idle : Z) (lk : bool) (nt : nat) : Prop := {
  wt_idle : idle = total in_wait ws;
  wt_lock : total holds_lock ws = if lk then 1 else 0;
  wt_empty : lk = true -> q = [];
  wt_wake : total blocked ws = 0 \/ Z.of_nat (length q) <= total woken ws + Z.of_nat nt }.

Record inv (mn mx n : Z) s : Prop := {
  in_limits : min_thread_num s = mn /\ max_thread_num s = mx /\ n < SIZE_MAX;
  in_full : mn = mx -> mx <= Z.of_nat (length (workers s));
  in_stop : all_threads_stop_flag s = false;
  in_ctl : ctl s = CtlNone \/ ctl s = CtlInit;
  in_books : books (waiting s) (doing_tasks_token s) (workers s) (posted s) (log s);
  in_tasks : tasks_ok n (undo_tasks_cabinet s) (undo_tasks_token s) (log s);
  in_crew : crew n mn mx (threads_cabinet s) (workers s) (posted s);
  in_waits : waits (waiting s) (workers s) (idle_thread_num s) (locked s) (notifies s) }.

Lemma waiting_nodup q d ws po l : books q d ws po l -> NoDup q.
Proof. intros H. pose proof (bk_once _ _ _ _ _ H) as Hn. rewrite (bk_tasks _ _ _ _ _ H) in Hn. apply NoDup_app in Hn as (_ & _ & Hn). by apply NoDup_app in Hn as (? & _). Qed.

Lemma undo_size n c qs l : tasks_ok n c qs l -> NoDup (concat qs) -> ts_size c = Z.of_nat (length (concat qs)).
Proof.
  intros H Hn. rewrite ts_size_ok by apply H. f_equal. rewrite <- size_dom, <- (size_list_to_set (C := gset Token) _ Hn).
  f_equal. apply set_eq. intros t. rewrite elem_of_dom, elem_of_list_to_set. symmetry. apply (tk_dom _ _ _ _ H).
Qed.

(** Every step of the workers and of the loop makes this smaller. *)
Definition rank (p : pc) : Z :=
  match p with
  | Picked _ => 8 | Executing _ => 7 | Executed _ => 6 | Closing _ => 4
  | AtTop => 3 | Woken | Leaving => 2 | WillBlock => 1 | Blocked | Gone => 0
  end.
Definition measure s : Z :=
  7 * Z.of_nat (length (waiting s)) + 3 * Z.of_nat (notifies s) + total rank (workers s) + Z.of_nat (length (posted s)) +
  match ctl s with CtlNone => 0 | _ => 1 end.

Lemma free_task_ok n s t qs : tasks_ok n (undo_tasks_cabinet s) qs (log s) -> NoDup (concat qs) ->
  concat qs ≡ₚ t :: waiting s -> length qs = length (undo_tasks_token s) ->
  exists c k, free_task t s = Ret (Some k, set_undo c (undo_tasks_token s) s) /\ k_token k = t /\
    tasks_ok n c (undo_tasks_token s) (log s).
Proof.
  intros H Hn Hq Hl. destruct H as [Hwf [Hc1 Hc2] Hd Ho Ht Hold Hlen].
  assert (t ∈ concat qs) as Hin by (rewrite Hq; by left). destruct (proj1 (Hd t) Hin) as [o Eo].
  destruct (Ho t o Eo) as (k & -> & Ek). pose proof (Ht t Hin) as Htok.
  destruct (ts_free_ok _ _ Hwf Htok) as (c & Ef & Hwf' & Hv & Hcells). pose proof (ts_free_last _ _ _ _ Hwf Htok Ef) as Hlast.
  rewrite Eo in Ef. cbn in Ef. exists c, k. split.
  { unfold free_task. unfold mbind, M_bind, get. by rewrite Ef. }
  split; [done|]. rewrite Hq in Hn. apply NoDup_cons in Hn as [Hn _]. fold (waiting s) in *.
  split; [done|lia| | | | |congruence].
  - intros t'. unfold waiting in *. rewrite Hv. destruct (decide (t' = t)) as [->|N].
    + rewrite lookup_delete_eq. split; [done|by intros []].
    + rewrite lookup_delete_ne by done. rewrite <- Hd, Hq, elem_of_cons. naive_solver.
  - intros t' o'. rewrite Hv. intros [_ E]%lookup_delete_Some. by apply Ho.
  - intros t' Hi. apply Ht. rewrite Hq. by right.
  - intros t' Hi. rewrite Hlast. by apply Hold.
Qed.

Ltac counts Hx p :=
  pose proof (total_moved in_wait _ _ _ p Hx); pose proof (total_moved holds_lock _ _ _ p Hx);
  pose proof (total_moved blocked _ _ _ p Hx); pose proof (total_moved woken _ _ _ p Hx);
  pose proof (total_moved live _ _ _ p Hx); pose proof (total_moved rank _ _ _ p Hx).

Lemma crew_move n mn mx c ws po w x p : crew n mn mx c ws po -> ws !! w = Some x ->
  w_pc x <> Gone -> p <> Gone -> (mn = mx -> p <> Leaving) -> crew n mn mx c (moved w p ws) po.
Proof.
  intros [Hwf Hr Hv Hs Hm Hf Hj] Hx Hp Hp' Hl.
  assert (total live (moved w p ws) = total live ws) as El.
  { rewrite (total_moved live _ _ _ p Hx). destruct (w_pc x), p; cbn; done || lia. }
  split; [done|by rewrite moved_length| |by rewrite El|by rewrite El| |].
  - intros i y Hy. destruct (moved_lookup _ _ _ _ _ _ Hx Hy) as [[-> ->]|[_ Hy']]; cbn; [|by apply Hv].
    intros _. by apply Hv.
  - intros E y [i Hy]%list_elem_of_lookup. destruct (moved_lookup _ _ _ _ _ _ Hx Hy) as [[-> ->]|[_ Hy']]; cbn; [auto|].
    eapply (Hf E), list_elem_of_lookup_2, Hy'.
  - intros i Hi. destruct (Hj i Hi) as (y & Hy & Ey). exists y. split; [|done].
    rewrite moved_other; [done|]. intros ->. congruence.
Qed.

Lemma waits_out q ws idle lk nt w x p : waits q ws idle lk nt -> ws !! w = Some x ->
  in_wait (w_pc x) = 0 -> in_wait p = 0 -> waits q (moved w p ws) idle lk nt.
Proof.
  intros [H1 H2 H3 H4] Hx E1 E2. counts Hx p.
  assert (forall p', in_wait p' = 0 -> holds_lock p' = 0 /\ blocked p' = 0 /\ woken p' = 0) as Ho by by intros [].
  destruct (Ho _ E1) as (? & ? & ?), (Ho _ E2) as (? & ? & ?). split; [lia|lia|done|lia].
Qed.

Lemma crew_room n mn mx c ws po : crew n mn mx c ws po -> 0 <= total in_wait ws <= total live ws /\ total live ws <= n.
Proof.
  intros H. assert (forall l, 0 <= total in_wait l <= total live l /\ total live l <= Z.of_nat (length l)) as Hl.
  { intros l. induction l as [|y l IH]; cbn [total length]; [lia|]. destruct (w_pc y); cbn; lia. }
  specialize (Hl ws). pose proof (cr_room _ _ _ _ _ _ H). lia.
Qed.

(** [x] stands before the wait, and is counted as idle already. *)
Lemma wait_or_pick_ok mn mx n s w x : n < SIZE_MAX ->
  min_thread_num s = mn -> max_thread_num s = mx -> (mn = mx -> mx <= Z.of_nat (length (workers s))) -> all_threads_stop_flag s = false -> ctl s = CtlNone \/ ctl s = CtlInit ->
  books (waiting s) (doing_tasks_token s) (workers s) (posted s) (log s) ->
  tasks_ok n (undo_tasks_cabinet s) (undo_tasks_token s) (log s) ->
  crew n mn mx (threads_cabinet s) (workers s) (posted s) ->
  waits (waiting s) (workers s) (idle_thread_num s - 1 + in_wait (w_pc x)) (locked s) (notifies s) ->
  locked s = false -> workers s !! w = Some x -> w_pc x = AtTop \/ w_pc x = Woken ->
  exists s', wait_or_pick w s = Ret (tt, s') /\ inv mn mx n s' /\ measure s' < measure s.
Proof.
  intros Hn Hmn Hmx Hfull Hstop Hctl Hb Ht Hc Hw Hl Hx Hp. unfold wait_or_pick, mbind, M_bind, get.
  unfold shouldThreadExitWaiting. rewrite Hstop, any_waiting. cbn [orb]. fold (waiting s).
  pose proof (waiting_nodup _ _ _ _ _ Hb) as Hnd. destruct (crew_room _ _ _ _ _ _ Hc) as [Hi1 Hi2].
  assert (idle_pc (w_pc x) /\ idle_thread_num s = total in_wait (workers s) + 1 - in_wait (w_pc x) /\
    w_pc x <> Gone /\ 2 <= rank (w_pc x) <= 3 /\ holds_lock (w_pc x) = 0 /\ blocked (w_pc x) = 0 /\ 0 <= in_wait (w_pc x) <= 1) as (Hid & Eidle & Hg & Hr & Hh & Hbl & Hin).
  { pose proof (wt_idle _ _ _ _ _ Hw). destruct Hp as [E|E]; rewrite E in *; cbn in *; split_and!; done || lia. }
  rewrite Hl in Hw. case_bool_decide as Eq; cbn [negb].
  - (* it will block *)
    eexists. split; [reflexivity|]. counts Hx WillBlock. cbn in *. split.
    + split; cbn; rewrite ?moved_length; try done.
      * by apply books_idle with x.
      * by apply crew_move with x.
      * destruct Hw as [W1 W2 W3 W4]. split; try lia; [done|]. right. unfold waiting in *. cbn. rewrite Eq. pose proof (sum_nonneg woken (moved w WillBlock (workers s)) ltac:(by intros [])). cbn in *. lia.
    + unfold measure, waiting in *. cbn. lia.
  - destruct (pop_front (undo_tasks_token s)) as [[t qs]|] eqn:Ef; [|by apply pop_front_None in Ef].
    destruct (pop_front_Some _ _ _ Ef) as [Eq' Elen].
    unfold modify at 1. cbn -[popOneTask]. unfold popOneTask, mbind, M_bind, get, put. cbn -[free_task]. rewrite Ef.
    destruct (free_task_ok n (set_undo (undo_tasks_cabinet s) qs (add_idle (-1) s)) t (undo_tasks_token s) Ht Hnd) as (c & k & -> & Ek & Htk); [|done|].
    { unfold waiting. cbn. by rewrite Eq'. }
    eexists. split; [reflexivity|]. counts Hx (Picked k). cbn in *.
    assert (length (waiting s) = Datatypes.S (length (concat qs))) as El by (unfold waiting; by rewrite Eq').
    assert (0 <= woken (w_pc x) <= 1) by by destruct (w_pc x).
    pose proof (total_in in_wait (workers s) w x ltac:(by intros []) Hx).
    split.
    + split; cbn; rewrite ?moved_length; try done.
      * apply books_pick with (waiting s) x; [done| |done..]. unfold waiting. cbn. by rewrite Eq', Ek.
      * by apply crew_move with x.
      * destruct Hw as [W1 W2 W3 W4]. change (waiting _) with (concat qs). split; rewrite ?Hl; [|lia|done|lia].
        rewrite wrap_small by (unfold in_range, SIZE_MAX in *; lia). lia.
    + unfold measure. cbn. change (waiting (set_pc _ _ _)) with (concat qs). lia.
Qed.

Lemma tasks_log n c qs l e : tasks_ok n c qs l -> accepted [e] = [] -> tasks_ok n c qs (l ++ [e]).
Proof.
  intros [] E. split; try done. intros t. unfold accepted in *. rewrite flat_map_app, E, app_nil_r. auto.
Qed.

Lemma crew_post n mn mx c ws po t cb : crew n mn mx c ws po -> crew n mn mx c ws (po ++ [RunCb t cb]).
Proof. intros []. split; try done. intros i [Hi|Hi%list_elem_of_singleton]%elem_of_app; [auto|done]. Qed.

(** A thread that leaves takes itself out of the cabinet. *)
Lemma crew_leave n mn mx c ws po w x : crew n mn mx c ws po -> ws !! w = Some x -> w_pc x = Leaving ->
  exists c', ts_free c (w_token x) = Some (c', Some w) /\ crew n mn mx c' (moved w Gone ws) (po ++ [JoinThread w]).
Proof.
  intros [Hwf Hr Hv Hs Hm Hf Hj] Hx E. destruct (Hv w x Hx) as [Ht Ev]; [by rewrite E|].
  destruct (ts_free_ok _ _ Hwf Ht) as (c' & Ef & Hwf' & Hv' & Hcells). rewrite Ev in Ef. exists c'. split; [done|].
  pose proof (total_moved live _ _ _ Gone Hx) as El. rewrite E in El. cbn in El.
  split; [done|rewrite moved_length; lia| | |lia| |].
  - intros i y Hy Hy'. destruct (moved_lookup _ _ _ _ _ _ Hx Hy) as [[-> ->]|[N Hi]]; [by cbn in Hy'|].
    destruct (Hv i y Hi Hy') as [? Ei]. split; [done|]. rewrite Hv', lookup_delete_ne; [done|]. intros Etok. rewrite Etok in Ev. congruence.
  - rewrite Hv', map_size_delete_Some by eauto. assert (size (ts_view c) <> 0%nat). { intros Hz%map_size_empty_iff. by rewrite Hz in Ev. } lia.
  - intros Emx. exfalso. destruct (Hf Emx x); [by eapply list_elem_of_lookup_2|done].
  - intros i [Hi|Hi%list_elem_of_singleton]%elem_of_app.
    + destruct (Hj i Hi) as (y & Hy & Ey). exists y. rewrite moved_other; [done|]. intros ->. congruence.
    + injection Hi as ->. exists (mkWorker (w_token x) Gone). split; [|done]. unfold moved. by rewrite list_lookup_alter_eq, Hx.
Qed.

Lemma books_join q d ws po l i : books q d ws po l -> books q d ws (po ++ [JoinThread i]) l.
Proof. intros []. split; try done. unfold to_call in *. by rewrite flat_map_app, app_nil_r. Qed.

Lemma threadProc_ok mn mx n s w : inv mn mx n s -> enabled (Worker w) s = true ->
  exists s', threadProc w s = Ret (tt, s') /\ inv mn mx n s' /\ measure s' < measure s.
Proof.
  intros [[Hmn [Hmx Hn]] Hfull Hstop Hctl Hb Ht Hc Hw] [x [Hx He]]%in_pc_true.
  unfold threadProc, mbind, M_bind, get. rewrite Hx. cbn -[wait_or_pick undo_tasks_cabinet].
  destruct (w_pc x) as [| | | |k|k|k|k| |] eqn:E; try done.
  - (* AtTop *)
    apply negb_true_iff in He. pose proof (waiting_nodup _ _ _ _ _ Hb) as Hnd.
    rewrite (undo_size _ _ _ _ Ht Hnd), ts_size_ok, (cr_size _ _ _ _ _ _ Hc) by apply Hc.
    destruct (crew_room _ _ _ _ _ _ Hc) as [Hi1 Hi2]. rewrite He in Hw.
    destruct (_ && _) eqn:Econd.
    + eexists. split; [reflexivity|]. apply andb_true_iff in Econd as [Ec1 Ec2]. split.
      * split; cbn; rewrite ?moved_length; try done.
        -- apply books_idle with x; [done|done|by rewrite E|done].
        -- apply crew_move with x; [done..|by rewrite E|done|]. pose proof (cr_max _ _ _ _ _ _ Hc). intros ->. lia.
        -- rewrite He. apply waits_out with x; [done|done|by rewrite E|done].
      * unfold measure, waiting. cbn. rewrite (total_moved rank _ _ _ Leaving Hx), E. cbn. lia.
    + destruct (wait_or_pick_ok mn mx n (add_idle 1 s) w x) as (s' & Es & Hi & Hm); try done.
      * cbn. rewrite E, He. cbn. pose proof (wt_idle _ _ _ _ _ Hw).
        rewrite wrap_small by (unfold in_range, SIZE_MAX in *; lia). by rewrite Z.add_simpl_r, Z.add_0_r.
      * rewrite E. by left.
      * eauto.
  - (* WillBlock *)
    eexists. split; [reflexivity|]. counts Hx Blocked. rewrite E in *. cbn in *.
    assert (locked s = true /\ waiting s = []) as [El Ewt].
    { pose proof (wt_lock _ _ _ _ _ Hw) as W. pose proof (total_in holds_lock (workers s) w x ltac:(by intros []) Hx) as W'.
      rewrite E in W'. cbn in W'. destruct (locked s) eqn:El; [|lia]. split; [done|]. by apply (wt_empty _ _ _ _ _ Hw). }
    split.
    + split; cbn; rewrite ?moved_length; try done.
      * apply books_idle with x; [done|done|by rewrite E|done].
      * apply crew_move with x; [done..|by rewrite E|done|done].
      * destruct Hw as [W1 W2 W3 W4]. rewrite El in W2. split; [lia|lia|done|]. right.
        unfold waiting in *. cbn. rewrite Ewt. pose proof (sum_nonneg woken (moved w Blocked (workers s)) ltac:(by intros [])). cbn. lia.
    + unfold measure, waiting. cbn. lia.
  - (* Woken *)
    apply negb_true_iff in He.
    destruct (wait_or_pick_ok mn mx n s w x) as (s' & Es & Hi & Hm); try done; [|by right|by eauto].
    rewrite E. cbn. by rewrite Z.sub_add.
  - (* Picked *)
    eexists. split; [reflexivity|]. split.
    + split; cbn; rewrite ?moved_length; try done.
      * by apply books_start with x.
      * by apply tasks_log.
      * apply crew_move with x; [done..|by rewrite E|done|done].
      * apply waits_out with x; [done|done|by rewrite E|done].
    + unfold measure, waiting. cbn. rewrite (total_moved rank _ _ _ (Executing k) Hx), E. cbn. lia.
  - (* Executing *)
    eexists. split; [reflexivity|]. split.
    + split; cbn; rewrite ?moved_length; try done.
      * by apply books_finish with x.
      * by apply tasks_log.
      * apply crew_move with x; [done..|by rewrite E|done|done].
      * apply waits_out with x; [done|done|by rewrite E|done].
    + unfold measure, waiting. cbn. rewrite (total_moved rank _ _ _ (Executed k) Hx), E. cbn. lia.
  - (* Executed *)
    pose proof (books_post _ _ _ _ _ Hb w x k Hx E) as Hb'.
    destruct (k_main_cb k) as [cb|]; (eexists; split; [reflexivity|]; split;
      [split; cbn; rewrite ?moved_length; try done; [apply crew_move with x; [try apply crew_post; done|done|by rewrite E|done..]|apply waits_out with x; [done|done|by rewrite E|done]]
      |unfold measure, waiting; cbn; rewrite (total_moved rank _ _ _ (Closing k) Hx), E, ?length_app; cbn; lia]).
  - (* Closing *)
    eexists. split; [reflexivity|]. split.
    + split; cbn; rewrite ?moved_length; try done.
      * by apply books_close with x.
      * apply crew_move with x; [done..|by rewrite E|done|done].
      * apply waits_out with x; [done|done|by rewrite E|done].
    + unfold measure, waiting. cbn. rewrite (total_moved rank _ _ _ AtTop Hx), E. cbn. lia.
  - (* Leaving *)
    destruct (crew_leave _ _ _ _ _ _ _ _ Hc Hx E) as (c & Ef & Hc'). rewrite Ef. cbn.
    eexists. split; [reflexivity|]. split.
    + split; cbn; rewrite ?moved_length; try done.
      * apply books_join, books_idle with x; [done|done|by rewrite E|done].
      * apply waits_out with x; [done|done|by rewrite E|done].
    + unfold measure, waiting. cbn. rewrite (total_moved rank _ _ _ Gone Hx), E, length_app. cbn. lia.
Qed.

(** ** The other steps *)

Lemma tasks_mono n n' c qs l : n <= n' -> tasks_ok n c qs l -> tasks_ok n' c qs l.
Proof. intros Hn [? []]. split; try done; lia. Qed.

Lemma crew_mono n n' mn mx c ws po : n <= n' -> crew n mn mx c ws po -> crew n' mn mx c ws po.
Proof. intros Hn [? []]. split; try done; lia. Qed.

Lemma inv_mono mn mx n n' s : n <= n' < SIZE_MAX -> inv mn mx n s -> inv mn mx n' s.
Proof.
  intros [Hn Hn'] [(? & ? & _) ? ? ? ? ? ? ?]. split; try done; [by eapply tasks_mono|by eapply crew_mono].
Qed.

Lemma woken_ok mn mx n s w nt : inv mn mx n s -> in_pc is_blocked w s = true -> (notifies s <= nt + 1)%nat ->
  inv mn mx n (set_pc w Woken (set_notifies nt s)).
Proof.
  intros [[Hmn [Hmx Hn]] Hfull Hstop Hctl Hb Ht Hc Hw] [x [Hx E]]%in_pc_true Hnt.
  assert (w_pc x = Blocked) as Ex by by destruct (w_pc x). split; cbn; rewrite ?moved_length; try done.
  - apply books_idle with x; [done|done|by rewrite Ex|done].
  - apply crew_move with x; [done..|by rewrite Ex|done|done].
  - destruct Hw as [W1 W2 W3 W4]. counts Hx Woken. rewrite Ex in *. cbn in *.
    pose proof (total_in blocked (workers s) w x ltac:(by intros []) Hx) as Hb'. rewrite Ex in Hb'. cbn in Hb'.
    split; [lia|lia|done|]. unfold waiting in *. cbn in *. lia.
Qed.

Lemma nobody_blocked ws : existsb (fun x => is_blocked (w_pc x)) ws = false -> total blocked ws = 0.
Proof.
  induction ws as [|x ws IH]; [done|]. cbn. intros [E1 E2]%orb_false_iff. rewrite (IH E2). by destruct (w_pc x).
Qed.

Lemma notify_ok mn mx n s o : inv mn mx n s -> enabled (Notify o) s = true ->
  exists s', fire (Notify o) s = Ret (tt, s') /\ inv mn mx n s' /\ measure s' < measure s.
Proof.
  intros Hi He. cbn in He. destruct o as [w|]; apply andb_true_iff in He as [He1 He2]; apply Nat.ltb_lt in He1.
  - eexists. split; [reflexivity|]. split; [apply woken_ok; [done..|lia]|].
    apply in_pc_true in He2 as [x [Hx E]]. unfold measure, waiting. cbn. rewrite (total_moved rank _ _ _ Woken Hx).
    destruct (w_pc x); try done. cbn. lia.
  - eexists. split; [reflexivity|]. apply negb_true_iff, nobody_blocked in He2.
    destruct Hi as [? ? ? ? ? ? ? Hw]. split; [|unfold measure, waiting; cbn; lia].
    split; try done. destruct Hw as [W1 W2 W3 W4]. split; try done. by left.
Qed.

Lemma callback_ok mn mx n s : inv mn mx n s -> enabled MainCallback s = true ->
  exists s', fire MainCallback s = Ret (tt, s') /\ inv mn mx n s' /\ measure s' < measure s.
Proof.
  intros [Hlim Hfull Hstop Hctl Hb Ht Hc Hw] [_ He]%andb_true_iff. cbn -[set_posted note]. unfold mbind, M_bind, get.
  assert (forall p po, posted s = p :: po -> crew n mn mx (threads_cabinet s) (workers s) po) as Hcr.
  { intros p po E. rewrite E in Hc. destruct Hc. split; try done. intros i Hi. apply cr_join0. by right. }
  destruct (posted s) as [|[t cb|i] po] eqn:Ep; [done| |]; (eexists; split; [reflexivity|]; split; [|unfold measure, waiting; cbn; rewrite Ep; cbn; lia]);
    split; cbn; try done; try by eapply Hcr.
  - by eapply books_called.
  - by apply tasks_log.
  - destruct Hb as [T1 T2 T3 T4 T5 T6]. by split.
Qed.

Lemma control_ok mn mx n s : inv mn mx n s -> enabled Control s = true ->
  exists s', fire Control s = Ret (tt, s') /\ inv mn mx n s' /\ measure s' < measure s.
Proof.
  intros [Hlim Hfull Hstop Hctl Hb Ht Hc Hw] He. cbn -[set_stop set_ready set_ctl] in *. unfold proceed, mbind, M_bind, get.
  destruct Hctl as [E|E]; rewrite E in *; [done|]. eexists. split; [reflexivity|].
  split; [|unfold measure, waiting; cbn; rewrite E; lia]. split; cbn; try done. by left.
Qed.

Lemma cancel_ok mn mx n s t : inv mn mx n s -> locked s = false -> exists r s',
  cancel t s = Ret (r, s') /\ inv mn mx n (note (Answered t r) s') /\
  r = (if bool_decide (t ∈ doing_tasks_token s) then 2 else if bool_decide (t ∈ waiting s) then 0 else 1).
Proof.
  intros [Hlim Hfull Hstop Hctl Hb Ht Hc Hw] Hl. unfold cancel, mbind at 1, M_bind at 1, get at 1.
  assert (forall r, r <> 0 -> inv mn mx n (note (Answered t r) s)) as Hsame.
  { intros r Hr. split; cbn; try done; [|by apply tasks_log]. apply (books_answer _ _ _ _ _ Hb). by rewrite (proj2 (Z.eqb_neq _ _)). }
  case_bool_decide as Ed; [exists 2, s; split_and!; [done|by apply Hsame|done]|].
  pose proof (take_token_spec t (undo_tasks_token s)) as Hq. destruct (take_token _ _) as [qs|].
  - destruct Hq as [Hq Hlen]. pose proof (waiting_nodup _ _ _ _ _ Hb) as Hnd.
    destruct (free_task_ok n (set_undo (undo_tasks_cabinet s) qs s) t (undo_tasks_token s) Ht Hnd Hq) as (c & k & Ef & Ek & Htk); [done|].
    unfold mbind, M_bind, put. rewrite Ef. cbn. eexists _, _. split; [reflexivity|]. split.
    + split; cbn; try done; [by apply (books_answer _ _ _ _ _ Hb)|by apply tasks_log|].
      destruct Hw as [W1 W2 W3 W4]. split; try done; [intros; congruence|].
      assert (length (waiting s) = Datatypes.S (length (concat qs))) as El by (unfold waiting; by rewrite Hq).
      unfold waiting in *. cbn. lia.
    + rewrite bool_decide_true; [done|]. unfold waiting. rewrite Hq. by left.
  - exists 1, s. split_and!; [done|by apply Hsame|]. by rewrite bool_decide_false.
Qed.

(** ** New tasks and new threads *)

Lemma createWorker_ok n mn mx s : crew n mn mx (threads_cabinet s) (workers s) (posted s) ->
  total live (workers s) < mx -> n < SIZE_MAX ->
  exists c t, createWorker s = Ret (tt, set_threads c (workers s ++ [mkWorker t AtTop]) s) /\
    crew (n + 1) mn mx c (workers s ++ [mkWorker t AtTop]) (posted s).
Proof.
  intros [Hwf [Hr1 Hr2] Hv Hs Hm Hf Hj] Hlt Hn.
  destruct (ts_alloc_ok (threads_cabinet s) None Hwf) as (c1 & t & Ea & Hwf1 & Ht & _ & Hv0 & Hv1 & Hc1); [lia|].
  destruct (ts_update_ok c1 t (Some (length (workers s))) Hwf1 Ht) as (c2 & Eu & Hwf2 & Hv2).
  destruct (ts_update_last _ _ _ _ _ Hwf1 Ht Eu) as [_ Hc2].
  exists c2, t. unfold createWorker, mbind, M_bind, get, put. rewrite Ea. cbn. rewrite Eu. split; [done|].
  rewrite Hv1, lookup_insert_eq, insert_insert_eq in Hv2.
  assert (total live (workers s ++ [mkWorker t AtTop]) = total live (workers s) + 1) as El by (rewrite total_app; cbn; lia).
  split; rewrite ?El.
  - done.
  - rewrite length_app. cbn. lia.
  - intros i x Hx Hg. rewrite Hv2. apply lookup_app_Some in Hx as [Hx|[Hi Hx]].
    + destruct (Hv i x Hx Hg) as [? E]. split; [done|]. rewrite lookup_insert_ne; [done|]. intros ->. congruence.
    + apply list_lookup_singleton_Some in Hx as [Hi' <-]. cbn. split; [done|]. rewrite lookup_insert_eq. do 2 f_equal. lia.
  - rewrite Hv2, map_size_insert_None by done. lia.
  - lia.
  - intros E x [Hx|Hx%list_elem_of_singleton]%elem_of_app; [by apply Hf|by subst].
  - intros i Hi. destruct (Hj i Hi) as (x & Hx & Ex). exists x. split; [|done]. by apply lookup_app_l_Some.
Qed.

Lemma new_waits q ws idle lk nt t : waits q ws idle lk nt -> waits q (ws ++ [mkWorker t AtTop]) idle lk nt.
Proof. intros [W1 W2 W3 W4]. split; rewrite ?total_app; cbn; rewrite ?Z.add_0_r; done. Qed.

Lemma new_gather {A} (f : pc -> list A) ws t : f AtTop = [] -> gather f (ws ++ [mkWorker t AtTop]) = gather f ws.
Proof. intros E. rewrite gather_app. unfold gather. cbn. by rewrite E, !app_nil_r. Qed.

(** The new token is in the cabinet. *)
Lemma enlist_ok n c qs l level q b cb : tasks_ok n c qs l -> n < SIZE_MAX -> qs !! level = Some q ->
  exists c1 t c2, ts_alloc c (Some (mkTask token_null b cb)) = Some (c1, t) /\
    ts_update c1 t (Some (mkTask t b cb)) = Some (c2, true) /\ (t ∉ accepted l) /\
    tasks_ok (n + 1) c2 (<[level := q ++ [t]]> qs) (l ++ [Accepted t]).
Proof.
  intros [Hwf [Hr1 Hr2] Hd Ho Ht Hold Hlen] Hn Hq.
  destruct (ts_alloc_ok c (Some (mkTask token_null b cb)) Hwf) as (c1 & t & Ea & Hwf1 & Htk & _ & Hv0 & Hv1 & Hc1); [lia|].
  destruct (ts_alloc_last _ _ _ _ Hwf ltac:(lia) ltac:(lia) Ea) as [Hid Hlast].
  destruct (ts_update_ok c1 t (Some (mkTask t b cb)) Hwf1 Htk) as (c2 & Eu & Hwf2 & Hv2).
  destruct (ts_update_last _ _ _ _ _ Hwf1 Htk Eu) as [Hlast2 Hc2].
  rewrite Hv1, lookup_insert_eq, insert_insert_eq in Hv2. rewrite bool_decide_true in Eu by (rewrite Hv1, lookup_insert_eq; eauto).
  exists c1, t, c2. split_and!; [done|done|intros Hi%Hold; lia|]. pose proof (push_perm qs level q t Hq) as Hp.
  split.
  - done.
  - lia.
  - intros t'. rewrite Hv2, Hp, elem_of_cons, Hd. destruct (decide (t' = t)) as [->|N].
    + rewrite lookup_insert_eq. naive_solver.
    + rewrite lookup_insert_ne by done. naive_solver.
  - intros t' o. rewrite Hv2. intros [[<- <-]|[_ E]]%lookup_insert_Some; [eauto|by apply Ho].
  - intros t'. rewrite Hp, elem_of_cons. intros [->|Hi]; [done|by apply Ht].
  - intros t'. unfold accepted. rewrite flat_map_app, elem_of_app. intros [Hi|Hi].
    + specialize (Hold t' Hi). lia.
    + cbn in Hi. apply list_elem_of_singleton in Hi as ->. lia.
  - by rewrite length_insert.
Qed.

Lemma execute_ok mn mx n s b cb prio : inv mn mx n s -> n + 1 < SIZE_MAX -> locked s = false ->
  exists t s', execute b cb prio s = Ret (t, s') /\ inv mn mx (n + 1) s'.
Proof.
  intros Hi Hn Hl. unfold execute, mbind at 1, M_bind at 1, get at 1.
  destruct (is_ready s) eqn:Er; cbn [negb]; [|exists token_null, s; split; [done|by apply inv_mono with n; [lia|]]].
  destruct Hi as [(Hmn & Hmx & _) Hfull Hstop Hctl Hb Ht Hc Hw].
  pose proof (level_range prio) as Hlev. rewrite <- (tk_levels _ _ _ _ Ht) in Hlev. apply lookup_lt_is_Some in Hlev as [q Hq].
  destruct (enlist_ok _ _ _ _ _ q b cb Ht ltac:(lia) Hq) as (c1 & t & c2 & Ea & Eu & Hfresh & Ht').
  unfold mbind, M_bind, put, get. rewrite Ea. cbn -[createWorker]. rewrite Eu. cbn -[createWorker]. rewrite Hq. cbn -[createWorker].
  set (qs := <[_ := _]> _) in *. set (s1 := set_undo c2 qs s).
  assert (concat qs ≡ₚ t :: waiting s) as Hp by by apply push_perm.
  assert (forall ws', (forall A (f : pc -> list A), f AtTop = [] -> gather f ws' = gather f (workers s)) ->
    books (concat qs) (doing_tasks_token s) ws' (posted s) (log s ++ [Accepted t])) as Hb'.
  { intros ws' Hws. by apply (books_accept _ _ _ _ _ Hb). }
  assert (waits (concat qs) (workers s) (idle_thread_num s) (locked s) (notifies s + 1)) as Hw'.
  { destruct Hw as [W1 W2 W3 W4]. split; try done; [intros; congruence|]. rewrite Hp. cbn [length]. lia. }
  assert (forall s', s' = s1 \/ (exists p, s' = set_peak p s1) ->
    inv mn mx (n + 1) (set_notifies (notifies s' + 1) (note (Accepted t) s'))) as Hsame.
  { intros s' [->|[p ->]]; (split; cbn; try done; [by apply Hb'|apply crew_mono with n; [lia|done]]). }
  destruct (idle_thread_num s <? ts_size c2); [destruct (_ <? max_thread_num s) eqn:Elt|].
  - rewrite ts_size_ok, (cr_size _ _ _ _ _ _ Hc) in Elt by apply Hc.
    destruct (createWorker_ok n mn mx s1 Hc ltac:(cbn; lia) ltac:(lia)) as (ct & tt' & -> & Hc').
    cbn. eexists _, _. split; [reflexivity|]. split; cbn; try done.
    + intros E. specialize (Hfull E). rewrite length_app. lia.
    + apply Hb'. intros A f. apply new_gather.
    + by apply new_waits.
  - destruct (undo_task_peak_num s <? ts_size c2); (eexists _, _; split; [reflexivity|]; apply Hsame; eauto).
  - eexists _, _. split; [reflexivity|]. apply Hsame. eauto.
Qed.

(** ** Runs *)

(** Everything but another [initialize] or [cleanup]. *)
Definition calm (l : label) : bool := match l with Initialize _ _ | Cleanup => false | _ => true end.

(** What the workers and the loop do by themselves. *)
Definition quiet (l : label) : bool := match l with Notify _ | Worker _ | MainCallback | Control => true | _ => false end.

Lemma quiet_ok mn mx n s l : inv mn mx n s -> quiet l = true -> enabled l s = true ->
  exists s', fire l s = Ret (tt, s') /\ inv mn mx n s' /\ measure s' < measure s.
Proof.
  intros Hi Hq He. destruct l; try done.
  - by apply notify_ok.
  - by apply threadProc_ok.
  - by apply callback_ok.
  - by apply control_ok.
Qed.

Lemma calm_ok mn mx n s l : inv mn mx n s -> n + 1 < SIZE_MAX -> calm l = true -> enabled l s = true ->
  exists s', fire l s = Ret (tt, s') /\ inv mn mx (n + 1) s'.
Proof.
  intros Hi Hn Hq He. destruct (quiet l) eqn:El.
  { destruct (quiet_ok _ _ _ _ _ Hi El He) as (s' & Es & Hi' & _). exists s'. split; [done|]. apply inv_mono with n; [lia|done]. }
  destruct l as [b cb prio|t| |w| | | | | ]; try done.
  - apply negb_true_iff in He. destruct (execute_ok _ _ _ _ b cb prio Hi Hn He) as (t & s' & Es & Hi').
    exists s'. split; [|done]. cbn. unfold mbind, M_bind. by rewrite Es.
  - apply negb_true_iff in He. destruct (cancel_ok _ _ _ _ t Hi He) as (r & s' & Es & Hi' & _).
    eexists. split; [cbn; unfold mbind, M_bind; rewrite Es; reflexivity|]. apply inv_mono with n; [lia|done].
  - pose proof (woken_ok mn mx n s w (notifies s) Hi He ltac:(lia)) as H'. destruct s.
    eexists. split; [reflexivity|]. apply inv_mono with n; [lia|exact H'].
Qed.

Lemma exec_calm mn mx ls : forall n s r, inv mn mx n s -> forallb calm ls = true -> n + Z.of_nat (length ls) < SIZE_MAX ->
  exec ls s = Some r -> exists s', r = Ret s' /\ inv mn mx (n + Z.of_nat (length ls)) s'.
Proof.
  induction ls as [|l ls IH]; intros n s r Hi Hc Hn He; cbn [exec forallb length] in *.
  - simplify_eq. exists s. rewrite Z.add_0_r. done.
  - apply andb_true_iff in Hc as [Hc1 Hc2]. destruct (enabled l s) eqn:El; [|done].
    destruct (calm_ok mn mx n s l Hi ltac:(lia) Hc1 El) as (s1 & Es & Hi1). rewrite Es in He.
    destruct (IH (n + 1) s1 r Hi1 Hc2 ltac:(lia) He) as (s' & -> & Hi'). exists s'. split; [done|].
    by replace (n + Z.of_nat (Datatypes.S (length ls))) with (n + 1 + Z.of_nat (length ls)) by lia.
Qed.

Lemma exec_quiet mn mx n ls : forall s r, inv mn mx n s -> forallb quiet ls = true -> exec ls s = Some r ->
  exists s', r = Ret s' /\ inv mn mx n s' /\ Z.of_nat (length ls) <= measure s - measure s'.
Proof.
  induction ls as [|l ls IH]; intros s r Hi Hc He; cbn [exec forallb length] in *.
  - simplify_eq. exists s. split_and!; [done|done|lia].
  - apply andb_true_iff in Hc as [Hc1 Hc2]. destruct (enabled l s) eqn:El; [|done].
    destruct (quiet_ok mn mx n s l Hi Hc1 El) as (s1 & Es & Hi1 & Hm). rewrite Es in He.
    destruct (IH s1 r Hi1 Hc2 He) as (s' & -> & Hi' & Hm'). exists s'. split_and!; [done|done|lia].
Qed.

Lemma create_workers_ok mn mx k : forall n s, crew n mn mx (threads_cabinet s) (workers s) (posted s) ->
  total live (workers s) + Z.of_nat k <= mx -> n + Z.of_nat k < SIZE_MAX ->
  total in_wait (workers s) = 0 -> (forall A (f : pc -> list A), f AtTop = [] -> gather f (workers s) = []) ->
  exists c ws, create_workers k s = Ret (tt, set_threads c ws s) /\ crew (n + Z.of_nat k) mn mx c ws (posted s) /\
    length ws = (length (workers s) + k)%nat /\ total in_wait ws = 0 /\ (forall A (f : pc -> list A), f AtTop = [] -> gather f ws = []).
Proof.
  induction k as [|k IH]; intros n s Hc Hm Hn Hi Hg.
  - exists (threads_cabinet s), (workers s). replace (n + Z.of_nat 0) with n by lia. split_and!; try done; try lia; by destruct s.
  - destruct (createWorker_ok n mn mx s Hc ltac:(lia) ltac:(lia)) as (c & t & Ec & Hc').
    destruct (IH (n + 1) (set_threads c (workers s ++ [mkWorker t AtTop]) s)) as (c' & ws & Ew & Hc'' & Hl & Hi' & Hg').
    + done.
    + cbn. rewrite total_app. cbn. lia.
    + lia.
    + cbn. rewrite total_app. cbn. lia.
    + intros A f Hf. rewrite <- (Hg A f Hf). by apply new_gather.
    + exists c', ws. cbn [create_workers]. unfold mbind, M_bind. rewrite Ec, Ew. split; [done|].
      replace (n + Z.of_nat (Datatypes.S k)) with (n + 1 + Z.of_nat k) by lia. split_and!; try done.
      rewrite Hl. cbn. rewrite length_app. cbn. lia.
Qed.

Lemma waits_start ws : total in_wait ws = 0 -> waits [] ws 0 false 0.
Proof.
  intros H. pose proof (sum_nonneg holds_lock ws ltac:(by intros [])). pose proof (sum_nonneg blocked ws ltac:(by intros [])).
  pose proof (total_le (fun p => holds_lock p + blocked p) in_wait ws ltac:(by intros [])) as Hle.
  assert (total (fun p => holds_lock p + blocked p) ws = total holds_lock ws + total blocked ws) as E.
  { clear. induction ws as [|x ws IH]; cbn; lia. }
  split; [done|lia|done|lia].
Qed.

Lemma initialize_ok mn mx : 0 <= mn <= mx -> 0 < mx -> mn < SIZE_MAX ->
  exists s, fire (Initialize mn mx) (new_pool (S := S)) = Ret (tt, s) /\ inv mn mx mn s.
Proof.
  intros Hmn Hmx Hn. cbn [fire]. unfold initialize, mbind, M_bind, get. cbn -[create_workers].
  assert ((mx <? 0) || (mn <? 0) || (mx <? mn) || (mx =? 0) = false) as -> by lia.
  destruct (ts_empty_ok (S := S) (V := nat)) as (Hwf & Hv & Hcl).
  destruct (create_workers_ok mn mx (Z.to_nat mn) 0 (set_limits mn mx new_pool)) as (c & ws & -> & Hc & Hl & Hi & Hg); try done.
  - split; cbn; rewrite ?Hcl, ?Hv, ?map_size_empty; try done; try lia; [intros _ x []%elem_of_nil|intros i []%elem_of_nil].
  - cbn. lia.
  - lia.
  - eexists. split; [reflexivity|]. rewrite Z.add_0_l, Z2Nat.id in Hc by lia. cbn in Hl.
    split; cbn; try done.
    + intros ->. lia.
    + by right.
    + split; cbn; rewrite ?Hg by done; try done; [constructor|set_solver].
    + destruct (ts_empty_ok (S := S) (V := Task)) as (Hwf' & Hv' & Hcl').
      split; cbn; rewrite ?Hcl', ?ts_empty_last, ?Hv'; try done.
      * lia.
      * intros t. rewrite lookup_empty. split; [by intros ?%elem_of_nil|by intros []].
      * intros t []%elem_of_nil.
      * intros t []%elem_of_nil.
    + by apply waits_start.
Qed.

(** ** Coming to rest *)

Definition at_rest s : Prop := forall l, quiet l = true -> enabled l s = false.

(** The labels that can be possible at all. *)
Definition candidates s : list label :=
  Control :: MainCallback :: Notify None :: flat_map (fun w => [Worker w; Notify (Some w)]) (seq 0 (length (workers s))).

Lemma in_pc_small f w s : in_pc f w s = true -> (w < length (workers s))%nat.
Proof. intros [x [Hx _]]%in_pc_true. by eapply lookup_lt_Some. Qed.

Lemma candidate l s : quiet l = true -> enabled l s = true -> l ∈ candidates s.
Proof.
  intros Hq He. unfold candidates. destruct l as [| |[w|]| |w| | | | ]; try done; try (set_solver +); cbn in He.
  - apply andb_true_iff in He as [_ He%in_pc_small]. do 3 right. apply list_elem_of_In, in_flat_map. exists w.
    split; [apply in_seq; lia|cbn; auto].
  - apply in_pc_small in He. do 3 right. apply list_elem_of_In, in_flat_map. exists w. split; [apply in_seq; lia|cbn; auto].
Qed.

Lemma rest_or_step s : at_rest s \/ exists l, quiet l = true /\ enabled l s = true.
Proof.
  destruct (existsb (fun l => quiet l && enabled l s) (candidates s)) eqn:E.
  - right. apply existsb_exists in E as (l & _ & [? ?]%andb_true_iff). eauto.
  - left. intros l Hq. destruct (enabled l s) eqn:He; [|done]. exfalso.
    assert (existsb (fun l => quiet l && enabled l s) (candidates s) = true); [|congruence].
    apply existsb_exists. exists l. rewrite <- list_elem_of_In. split; [by apply candidate|by rewrite Hq, He].
Qed.

Lemma comes_to_rest mn mx n s : inv mn mx n s -> exists ls s', forallb quiet ls = true /\ exec ls s = Some (Ret s') /\ at_rest s'.
Proof.
  intros Hi. assert (forall s, 0 <= measure s) as Hpos.
  { intros s0. unfold measure. pose proof (sum_nonneg rank (workers s0) ltac:(by intros [])). destruct (ctl s0); lia. }
  remember (Z.to_nat (measure s)) as m eqn:Em. assert (measure s <= Z.of_nat m) as Hm by (specialize (Hpos s); lia). clear Em.
  revert s Hi Hm. induction m as [|m IH]; intros s Hi Hm; (destruct (rest_or_step s) as [Hr|(l & Hq & He)]; [by exists [], s|]);
    destruct (quiet_ok _ _ _ _ _ Hi Hq He) as (s1 & Es & Hi1 & Hm1).
  - specialize (Hpos s1). lia.
  - destruct (IH s1 Hi1 ltac:(lia)) as (ls & s' & Hls & Hex & Hr). exists (l :: ls), s'. cbn. by rewrite Hq, Hls, He, Es.
Qed.

Lemma gather_none {A} (f : pc -> list A) ws : (forall x, x ∈ ws -> f (w_pc x) = []) -> gather f ws = [].
Proof.
  induction ws as [|x ws IH]; intros H; [done|]. unfold gather in *. cbn. rewrite (H x) by by left. apply IH. intros y Hy. apply H. by right.
Qed.

(** Nobody has anything to do any more. *)
Lemma rest_idle mn mx n s : inv mn mx n s -> at_rest s ->
  (forall x, x ∈ workers s -> w_pc x = Blocked \/ w_pc x = Gone) /\ notifies s = 0%nat /\ posted s = [] /\
  (waiting s = [] \/ forall x, x ∈ workers s -> w_pc x = Gone).
Proof.
  intros Hi Hr. assert (locked s = false) as El.
  { destruct (locked s) eqn:El; [|done]. pose proof (wt_lock _ _ _ _ _ (in_waits _ _ _ _ Hi)) as W. rewrite El in W.
    assert (exists w x, workers s !! w = Some x /\ w_pc x = WillBlock) as (w & x & Hx & E).
    { destruct (existsb (fun x => match w_pc x with WillBlock => true | _ => false end) (workers s)) eqn:E.
      - apply existsb_exists in E as (x & [w Hw]%list_elem_of_In%list_elem_of_lookup & E). exists w, x. by destruct (w_pc x).
      - exfalso. clear -W E. induction (workers s) as [|x ws IH]; [done|]. cbn in *. destruct (w_pc x); cbn in *; try done; by apply IH. }
    specialize (Hr (Worker w) eq_refl). cbn in Hr. unfold in_pc in Hr. by rewrite Hx, E in Hr. }
  assert (forall x, x ∈ workers s -> w_pc x = Blocked \/ w_pc x = Gone) as Hw.
  { intros x [w Hx]%list_elem_of_lookup. specialize (Hr (Worker w) eq_refl). cbn in Hr. unfold in_pc in Hr. rewrite Hx, El in Hr.
    destruct (w_pc x); try done; auto. }
  assert (notifies s = 0%nat) as Hnt.
  { destruct (notifies s) as [|k] eqn:E; [done|exfalso].
    destruct (existsb (fun x => is_blocked (w_pc x)) (workers s)) eqn:Eb.
    - apply existsb_exists in Eb as (x & [w Hx]%list_elem_of_In%list_elem_of_lookup & Ex).
      specialize (Hr (Notify (Some w)) eq_refl). cbn in Hr. unfold in_pc in Hr. by rewrite E, Hx, Ex in Hr.
    - specialize (Hr (Notify None) eq_refl). cbn in Hr. by rewrite E, Eb in Hr. }
  assert (ctl s = CtlNone) as Hctl.
  { destruct (in_ctl _ _ _ _ Hi) as [E|E]; [done|]. specialize (Hr Control eq_refl). cbn in Hr. by rewrite E in Hr. }
  split_and!; [done|done| |].
  - destruct (posted s) as [|[t cb|i] po] eqn:Ep; [done| |]; specialize (Hr MainCallback eq_refl); cbn in Hr; unfold no_control in Hr; rewrite Hctl, Ep in Hr; [done|].
    destruct (cr_join _ _ _ _ _ _ (in_crew _ _ _ _ Hi) i) as (x & Hx & E); [rewrite Ep; by left|].
    unfold in_pc in Hr. by rewrite Hx, E in Hr.
  - destruct (wt_wake _ _ _ _ _ (in_waits _ _ _ _ Hi)) as [W|W].
    + right. intros x Hx. destruct (Hw x Hx) as [E|E]; [|done]. pose proof (total_zero blocked (workers s) x ltac:(by intros []) W Hx) as W'. by rewrite E in W'.
    + left. assert (total woken (workers s) = 0) as Ew.
      { clear -Hw. induction (workers s) as [|x ws IH]; [done|]. cbn. rewrite IH by (intros y Hy; apply Hw; by right).
        by destruct (Hw x ltac:(by left)) as [->| ->]. }
      rewrite Ew, Hnt in W. by destruct (waiting s).
Qed.

(** A run of the pool: [initialize], then anything else in any order. *)
Definition history (mn mx : Z) (ls : list label) : Prop :=
  0 <= mn <= mx /\ 0 < mx /\ forallb calm ls = true /\ mn + Z.of_nat (length ls) < SIZE_MAX.

Lemma history_inv mn mx ls r : history mn mx ls -> exec (Initialize mn mx :: ls) (new_pool (S := S)) = Some r ->
  exists n s, r = Ret s /\ inv mn mx n s.
Proof.
  intros (Hmn & Hmx & Hc & Hn) He. destruct (initialize_ok mn mx Hmn Hmx ltac:(lia)) as (s0 & Es & Hi0).
  assert (exec ls s0 = Some r) as He'.
  { rewrite <- He. cbn [exec]. change (enabled (Initialize mn mx) new_pool) with true. cbn [fire] in Es |- *. by rewrite Es. }
  destruct (exec_calm mn mx ls mn s0 r Hi0 Hc Hn He') as (s & -> & Hi). eauto.
Qed.

(** The state that [getTaskStatus] reports. *)
Definition status_of (t : Token) s : TaskStatus :=
  if bool_decide (t ∈ waiting s) then kWaiting
  else if bool_decide (t ∈ gather in_hand (workers s)) then kExecuting else kNotFound.

Lemma status_ok mn mx n s t : inv mn mx n s -> tok_wf t -> getTaskStatus t s = Some (status_of t s).
Proof.
  intros Hi Ht. pose proof (in_tasks _ _ _ _ Hi) as Htk. unfold getTaskStatus, status_of. rewrite ts_at_ok by (done || apply Htk). cbn.
  pose proof (tk_dom _ _ _ _ Htk t) as Hd. fold (waiting s) in Hd.
  destruct (ts_view (undo_tasks_cabinet s) !! t) as [o|] eqn:E; cbn.
  - destruct (tk_obj _ _ _ _ Htk t o E) as (k & -> & _). rewrite bool_decide_true by (apply Hd; eauto). done.
  - rewrite (bool_decide_false (t ∈ waiting s)) by (intros [? ?]%Hd; done).
    pose proof (bk_doing _ _ _ _ _ (in_books _ _ _ _ Hi) t). by repeat case_bool_decide; try tauto.
Qed.

Lemma executing_in_hand t ws : t ∈ gather executing ws -> t ∈ gather in_hand ws.
Proof.
  unfold gather. rewrite !list_elem_of_In, !in_flat_map. intros (x & Hx & Ht). exists x. split; [done|]. by destruct (w_pc x).
Qed.

(** C9: the books of the thread pool balance under every interleaving of its
    threads.  After [initialize] with valid limits, and with neither [cleanup] nor
    another [initialize], whatever tasks are added and
    cancelled and however the workers, the notifications (spurious wake-ups
    included) and the main loop take turns, no step fails; every accepted task is
    exactly one of waiting, cancelled, taken by one worker or started, never
    twice; every task that has been executed has its callback still to be
    posted, posted or called, once; what was cancelled is never started.  The status
    and the answer of [cancel] are those of the books: waiting is in a queue, executing
    is listed by a worker, and an accepted task that is not found was cancelled, has
    finished, or has been taken by a worker that has not listed it yet and will
    execute it (for this one case the comment of [cancel] says otherwise, see
    [taken_task_not_found]).  There are never more than [max_thread_num] threads. *)
Theorem pool_accounts_for_tasks mn mx ls r : history mn mx ls ->
  exec (Initialize mn mx :: ls) (new_pool (S := S)) = Some r ->
  exists s, r = Ret s /\
    books (waiting s) (doing_tasks_token s) (workers s) (posted s) (log s) /\
    (forall t, t ∈ cancelled (log s) -> t ∉ started (log s)) /\
    (forall t, tok_wf t -> getTaskStatus t s = Some (status_of t s)) /\
    (forall t, t ∈ accepted (log s) -> status_of t s = kNotFound ->
       t ∈ cancelled (log s) \/ t ∈ finished (log s) \/ t ∈ gather picked (workers s)) /\
    (forall t, locked s = false -> exists s', cancel t s =
       Ret (match status_of t s with kWaiting => 0 | kExecuting => 2 | kNotFound => 1 end, s')) /\
    total live (workers s) <= mx /\ idle_thread_num s = total in_wait (workers s).
Proof.
  intros Hh He. destruct (history_inv mn mx ls r Hh He) as (n & s & -> & Hi). exists s.
  pose proof (in_books _ _ _ _ Hi) as Hb. split_and!; [done|done| | | | |apply (in_crew _ _ _ _ Hi)|apply (in_waits _ _ _ _ Hi)].
  - intros t Hc Hs. pose proof (bk_once _ _ _ _ _ Hb) as Hn. rewrite (bk_tasks _ _ _ _ _ Hb) in Hn.
    apply NoDup_app in Hn as (_ & Hn & _). apply (Hn t Hc). set_solver.
  - intros t. by eapply status_ok.
  - intros t Ht. unfold status_of. case_bool_decide as H1; [done|]. case_bool_decide as H2; [done|]. intros _.
    rewrite (bk_tasks _ _ _ _ _ Hb), (bk_run _ _ _ _ _ Hb), !elem_of_app in Ht.
    destruct Ht as [?|[?|[?|[Ht|?]]]]; auto; [done|]. by apply executing_in_hand in Ht.
  - intros t Hl. destruct (cancel_ok _ _ _ _ t Hi Hl) as (a & s' & Ec & _ & Ea). exists s'. rewrite Ec. do 2 f_equal. rewrite Ea.
    pose proof (bk_doing _ _ _ _ _ Hb t) as Hd. pose proof (bk_once _ _ _ _ _ Hb) as Hn. rewrite (bk_tasks _ _ _ _ _ Hb) in Hn.
    pose proof (bk_hand _ _ _ _ _ Hb) as Hh'. unfold status_of.
    apply NoDup_app in Hn as (_ & _ & (_ & Hn & _)%NoDup_app). repeat case_bool_decide; try done; try tauto.
    exfalso. apply (Hn t); [done|]. apply elem_of_app. right. eapply elem_of_submseteq; [|done]. by apply Hd.
Qed.

(** C13: the thread pool drains.  From any state of such a run, if nobody calls
    the pool any more, the workers, the notifications and the main loop can take
    only finitely many further steps, in whatever order, and they can always
    come to rest.  At rest no callback is outstanding, and either no task waits
    or all the threads have left.  If the pool does not shrink, that is if
    [min_thread_num] and [max_thread_num] are equal, then at rest every accepted
    task that was not cancelled has been executed, and every callback called. *)
Theorem pool_drains mn mx ls s : history mn mx ls ->
  exec (Initialize mn mx :: ls) (new_pool (S := S)) = Some (Ret s) ->
  (exists ls' s', forallb quiet ls' = true /\ exec ls' s = Some (Ret s') /\ at_rest s') /\
  forall ls' r, forallb quiet ls' = true -> exec ls' s = Some r ->
    Z.of_nat (length ls') <= measure s /\ exists s', r = Ret s' /\
    (at_rest s' ->
      callbacks (log s') ≡ₚ called (log s') /\
      (waiting s' = [] \/ forall x, x ∈ workers s' -> w_pc x = Gone) /\
      (mn = mx -> accepted (log s') ≡ₚ cancelled (log s') ++ finished (log s'))).
Proof.
  intros Hh He. destruct (history_inv mn mx ls _ Hh He) as (n & s0 & [= <-] & Hi). split; [by eapply comes_to_rest|].
  intros ls' r Hq He'. destruct (exec_quiet _ _ _ _ _ _ Hi Hq He') as (s' & -> & Hi' & Hm).
  assert (0 <= measure s').
  { unfold measure. pose proof (sum_nonneg rank (workers s') ltac:(by intros [])). destruct (ctl s'); lia. }
  split; [lia|]. exists s'. split; [done|]. intros Hr. destruct (rest_idle _ _ _ _ Hi' Hr) as (Hw & _ & Hp & Hwait).
  destruct (in_books _ _ _ _ Hi') as [T1 _ T3 T4 _ _].
  assert (forall A (f : pc -> list A), f Blocked = [] -> f Gone = [] -> gather f (workers s') = []) as Hg.
  { intros A f F1 F2. apply gather_none. intros x Hx. by destruct (Hw x Hx) as [->| ->]. }
  rewrite !Hg in T1, T3, T4 by done. rewrite Hp in T4. split_and!; [done|done|]. intros Emx.
  assert (waiting s' = []) as Hwt.
  { destruct Hwait as [|Hgone]; [done|exfalso]. destruct (workers s') as [|x ws] eqn:Ews.
    - pose proof (in_full _ _ _ _ Hi' Emx) as Hf. rewrite Ews in Hf. destruct Hh. cbn in Hf. lia.
    - destruct (cr_fixed _ _ _ _ _ _ (in_crew _ _ _ _ Hi') Emx x); [rewrite Ews; by left|]. specialize (Hgone x ltac:(by left)). done. }
  by rewrite T1, T3, Hwt.
Qed.

End Correct.

(** ** What goes wrong *)

Lemma rest_check (s : pool) : forallb (fun l => negb (enabled l s)) (candidates s) = true -> at_rest s.
Proof.
  intros H l Hq. destruct (enabled l s) eqn:E; [|done]. pose proof (candidate l s Hq E) as Hin.
  rewrite forallb_forall in H. apply list_elem_of_In, H in Hin. by rewrite E in Hin.
Qed.

(** The worker evaluates the predicate, [cleanup] sets the flag and notifies, and
    only then the worker blocks. *)
Definition lost_wakeup : list label := [Initialize 1 1; Control; Cleanup; Worker 0; Control; Control; Worker 0].

(** The only worker has decided to leave, and still counts when a task comes in. *)
Definition forgotten_task : list label :=
  [Initialize 0 1; Control; Execute 7 None 0; Notify None] ++ replicate 6 (Worker 0) ++
  [Execute 8 None 0; Notify None; Worker 0; MainCallback].

(** the pool can hang.  (1) The stop flag is set without the mutex: if a
    worker has just found the predicate false, it blocks after [notify_all], and
    [cleanup] joins it for ever.  (2) A worker that has decided to leave gives the
    mutex back before it takes itself out of [threads_cabinet]: a task added in
    between gets no thread when [max_thread_num] is reached, and waits although
    no thread is left.  In both states nothing but spurious wake-ups and calls
    from outside is possible. *)
Theorem pool_can_hang :
  (exists s, play lost_wakeup = Some (Ret s) /\ at_rest s /\ ctl s = CtlJoining [0%nat] /\ map w_pc (workers s) = [Blocked]) /\
  (exists s, play forgotten_task = Some (Ret s) /\ at_rest s /\ ctl s = CtlNone /\
     waiting s = [mkToken 2 0] /\ map w_pc (workers s) = [Gone]).
Proof.
  split; eexists; (split; [vm_compute; reflexivity|]); (split; [apply rest_check; vm_compute; reflexivity|]); split_and!; vm_compute; reflexivity.
Qed.

(** [cleanup] takes the thread out of the cabinet that a leaving worker looks for:
    [TBOX_ASSERT(t != nullptr)] fails. *)
Example leaving_worker_asserts :
  play ([Initialize 0 1; Control; Execute 7 None 0; Notify None] ++ replicate 6 (Worker 0) ++ [Cleanup; Worker 0]) = Some Stuck.
Proof. vm_compute. reflexivity. Qed.

(** The second [initialize] starts its threads while the stop flag is still set:
    they leave at once, but stay in the cabinet, and the pool has no thread. *)
Example restarted_pool_is_dead : exists s,
  play ([Initialize 1 1; Control; Worker 0; Worker 0; Cleanup; Control; Control; Worker 0; Control; Control] ++
        [Initialize 1 1; Worker 1; Control; Execute 7 None 0; Notify None]) = Some (Ret s) /\
  at_rest s /\ length (waiting s) = 1%nat /\ ts_size (threads_cabinet s) = 1 /\ map w_pc (workers s) = [Gone; Gone].
Proof. eexists. split; [vm_compute; reflexivity|]. split; [apply rest_check; vm_compute; reflexivity|]. split_and!; vm_compute; reflexivity. Qed.

(** A task that a worker has taken but not yet listed is not found, and executed. *)
Example taken_task_not_found : exists s s',
  play [Initialize 1 1; Control; Execute 7 None 0; Notify None; Worker 0] = Some (Ret s) /\
  getTaskStatus (mkToken 1 0) s = Some kNotFound /\ cancel (mkToken 1 0) s = Ret (1, s) /\
  exec [Worker 0] s = Some (Ret s') /\ started (log s') = [mkToken 1 0].
Proof.
  eexists _, _. split; [vm_compute; reflexivity|]. split; [vm_compute; reflexivity|]. split; [vm_compute; reflexivity|].
  split; vm_compute; reflexivity.
Qed.

(** ** Witnesses *)

Lemma pool_accounts_for_tasks_witness : exists s, play serve_two = Some (Ret s) /\
  books (waiting s) (doing_tasks_token s) (workers s) (posted s) (log s) /\ total live (workers s) <= 2.
Proof.
  destruct (play serve_two) as [r|] eqn:E; [|vm_compute in E; discriminate E].
  destruct (pool_accounts_for_tasks (S := cabinet) 0 2 (tail serve_two) r) as (s & -> & Hb & _ & _ & _ & _ & Hl & _).
  - split_and!; [lia|lia|lia|reflexivity|vm_compute; reflexivity].
  - exact E.
  - exists s. split_and!; [reflexivity|exact Hb|exact Hl].
Defined.

Definition serve_one : list label := [Initialize 1 1; Control; Execute 7 (Some 9%nat) 0; Execute 8 None 1; Notify None; Worker 0].

Lemma pool_drains_witness : exists s ls' s', play serve_one = Some (Ret s) /\ exec ls' s = Some (Ret s') /\
  callbacks (log s') ≡ₚ called (log s') /\ accepted (log s') ≡ₚ cancelled (log s') ++ finished (log s').
Proof.
  destruct (play serve_one) as [[s| |]|] eqn:E; try (vm_compute in E; discriminate E).
  destruct (pool_drains (S := cabinet) 1 1 (tail serve_one) s) as [(ls' & s' & Hq & He & Hr) Hall].
  - split_and!; [lia|lia|lia|reflexivity|vm_compute; reflexivity].
  - exact E.
  - exists s, ls', s'. destruct (Hall ls' (Ret s') Hq He) as (_ & s1 & E1 & H1).
    injection E1 as <-. destruct (H1 Hr) as (Hc & _ & Hf). split_and!; [reflexivity|exact He|exact Hc|by apply Hf].
Defined.
