(* ===== verification/Alarm.v ===== *)
(** * Alarms: the next time of day on the right days

    Models [modules/alarm]: the base class [Alarm], the one-shot, weekly and
    workday alarms and the calendar of workdays.  Alarms and calendars are objects
    in stores, under the numbers that stand for their addresses; using an object
    that has been destroyed is [Stuck].  A time stamp is an unsigned 32-bit number
    of seconds.  The timer of an alarm is what the class uses of [TimerEvent]: not
    armed, or armed to expire after a number of milliseconds.  What
    [gettimeofday] and the system time zone answer is an argument. *)
From S2P Require Import Prelude.

(** ** Days *)

Definition kSecondsOfDay : Z := 60 * 60 * 24.
Definition kSecondsOfWeek : Z := kSecondsOfDay * 7.

(** [WorkdayCalendar]; [watch_alarms_] are pointers to alarms. *)
Record calendar := mkCalendar {
  week_mask_ : Z; special_days_ : gmap Z bool; watch_alarms_ : list nat }.

Definition new_calendar : calendar := mkCalendar 0x3E ∅ [].

(** [week_mask & (1 << week)] as a condition. *)
Definition mask_bit (mask week : Z) : bool := negb (Z.land mask (Z.shiftl 1 week) =? 0).

Definition isWorkay (cal : calendar) (day_index : Z) : bool :=
  match special_days_ cal !! day_index with
  | Some b => b
  | None => mask_bit (week_mask_ cal) (Z.rem (Z.rem day_index 7 + 4) 7)
  end.

(** The classes derived from [Alarm] with their members. *)
Inductive kind :=
  | Oneshot (seconds_of_day : Z)
  | Weekly (seconds_of_day week_mask : Z)
  | Workday (seconds_of_day : Z) (wp_calendar : option nat) (workday : bool).

(** The loop that [WeeklyAlarm] and [WorkdayAlarm] have in common; [ok i] is the
    test on the day of turn [i].  [None] is [return false]. *)
Fixpoint day_loop (n : nat) (i curr next : Z) (ok : Z -> bool) : option Z :=
  match n with
  | O => None
  | S n' =>
      if (curr <? next) && ok i then Some next
      else day_loop n' (i + 1) curr (u32 (next + kSecondsOfDay)) ok
  end.

Definition weekly_next (seconds_of_day mask curr : Z) : option Z :=
  let seconds_from_0000 := curr mod kSecondsOfDay in
  let seconds_at_0000 := u32 (curr - seconds_from_0000) in
  let curr_week := ((curr mod kSecondsOfWeek) / kSecondsOfDay + 4) mod 7 in
  day_loop 8 0 curr (u32 (seconds_at_0000 + seconds_of_day))
    (fun i => mask_bit mask ((i + curr_week) mod 7)).

Definition workday_next (seconds_of_day : Z) (cal : calendar) (workday : bool) (curr : Z) : option Z :=
  let seconds_from_0000 := curr mod kSecondsOfDay in
  let seconds_at_0000 := u32 (curr - seconds_from_0000) in
  let curr_days := curr / kSecondsOfDay in
  day_loop 367 0 curr (u32 (seconds_at_0000 + seconds_of_day))
    (fun i => eqb workday (isWorkay cal (curr_days + i))).

Definition oneshot_next (seconds_of_day curr : Z) : option Z :=
  let seconds_from_0000 := curr mod kSecondsOfDay in
  let seconds_at_0000 := u32 (curr - seconds_from_0000) in
  let next := u32 (seconds_at_0000 + seconds_of_day) in
  Some (if next <=? curr then u32 (next + kSecondsOfDay) else next).

(** ** Alarms *)

Inductive alarm_state := kNone | kInited | kRunning.

#[global] Instance alarm_state_eq_dec : EqDecision alarm_state.
Proof. solve_decision. Defined.

(** [cb_] is whether there is a callback. *)
Record alarm := mkAlarm {
  a_kind : kind; using_independ_timezone_ : bool; timezone_offset_seconds_ : Z;
  cb_ : bool; state_ : alarm_state; target_utc_sec_ : Z; timer_ : option Z }.

(** The constructor of each class. *)
Definition new_alarm (k : kind) : alarm := mkAlarm k false 0 false kNone 0 None.

(** What [gettimeofday] answers ([None] if it fails), and the offset of the system
    time zone. *)
Record wall_clock := mkClock { c_time : option (Z * Z); c_zone : Z }.

Record world := mkWorld {
  alarms : gmap nat alarm; calendars : gmap nat calendar; fired : list nat }.

Definition set_alarms f (w : world) : world := mkWorld (f (alarms w)) (calendars w) (fired w).
Definition set_calendars f (w : world) : world := mkWorld (alarms w) (f (calendars w)) (fired w).

Definition MA := M world.

(** [alarm->...]: the object must exist. *)
Definition get_alarm (a : nat) : MA alarm := w ← get; the (alarms w !! a).
Definition put_alarm (a : nat) (x : alarm) : MA () := modify (set_alarms <[a := x]>).

Definition get_calendar (c : nat) : MA calendar := w ← get; the (calendars w !! c).
Definition put_calendar (c : nat) (x : calendar) : MA () := modify (set_calendars <[c := x]>).

Definition with_state (s : alarm_state) (x : alarm) : alarm :=
  mkAlarm (a_kind x) (using_independ_timezone_ x) (timezone_offset_seconds_ x) (cb_ x) s
    (target_utc_sec_ x) (timer_ x).
Definition with_timer (t : option Z) (x : alarm) : alarm :=
  mkAlarm (a_kind x) (using_independ_timezone_ x) (timezone_offset_seconds_ x) (cb_ x) (state_ x)
    (target_utc_sec_ x) t.
Definition with_target (t : Z) (x : alarm) : alarm :=
  mkAlarm (a_kind x) (using_independ_timezone_ x) (timezone_offset_seconds_ x) (cb_ x) (state_ x)
    t (timer_ x).
Definition with_zone (b : bool) (o : Z) (x : alarm) : alarm :=
  mkAlarm (a_kind x) b o (cb_ x) (state_ x) (target_utc_sec_ x) (timer_ x).
Definition with_cb (b : bool) (x : alarm) : alarm :=
  mkAlarm (a_kind x) (using_independ_timezone_ x) (timezone_offset_seconds_ x) b (state_ x)
    (target_utc_sec_ x) (timer_ x).
Definition with_kind (k : kind) (x : alarm) : alarm :=
  mkAlarm k (using_independ_timezone_ x) (timezone_offset_seconds_ x) (cb_ x) (state_ x)
    (target_utc_sec_ x) (timer_ x).

Definition update_alarm (a : nat) (f : alarm -> alarm) : MA () := x ← get_alarm a; put_alarm a (f x).

Definition valid_seconds (s : Z) : bool := (0 <=? s) && (s <? kSecondsOfDay).

(** [OneshotAlarm::initialize], [WeeklyAlarm::initialize] and
    [WorkdayAlarm::initialize]. *)
Definition oneshot_initialize (a : nat) (seconds_of_day : Z) : MA bool :=
  x ← get_alarm a;
  if decide (state_ x = kRunning) then mret false
  else if negb (valid_seconds seconds_of_day) then mret false
  else put_alarm a (with_state kInited (with_kind (Oneshot seconds_of_day) x));; mret true.

(** [if (week_mask.at(i) == '1') week_mask_ |= (1 << i);] *)
Definition parse_mask (week_mask : list Z) : Z :=
  foldl (fun m (p : Z * Z) => if p.2 =? 0x31 then Z.lor m (Z.shiftl 1 p.1) else m)
    0 (zip (seqZ 0 7) week_mask).

Definition weekly_initialize (a : nat) (seconds_of_day : Z) (week_mask : list Z) : MA bool :=
  x ← get_alarm a;
  if decide (state_ x = kRunning) then mret false
  else if negb (valid_seconds seconds_of_day) then mret false
  else if negb (Z.of_nat (length week_mask) =? 7) then mret false
  else put_alarm a (with_state kInited (with_kind (Weekly seconds_of_day (parse_mask week_mask)) x));;
       mret true.

Definition workday_initialize (a : nat) (seconds_of_day : Z) (wp_calendar : option nat)
    (workday : bool) : MA bool :=
  x ← get_alarm a;
  if decide (state_ x = kRunning) then mret false
  else if negb (valid_seconds seconds_of_day) then mret false
  else match wp_calendar with
  | None => mret false
  | Some c =>
      put_alarm a (with_state kInited (with_kind (Workday seconds_of_day (Some c) workday) x));;
      mret true
  end.

Definition setTimezone (a : nat) (offset_minutes : Z) : MA () :=
  update_alarm a (with_zone true (offset_minutes * 60)).

Definition setCallback (a : nat) : MA () := update_alarm a (with_cb true).

Definition isEnabled (a : nat) : MA bool :=
  x ← get_alarm a; mret (bool_decide (state_ x = kRunning)).

Definition subscribe (c a : nat) : MA () :=
  cal ← get_calendar c;
  put_calendar c (mkCalendar (week_mask_ cal) (special_days_ cal) (watch_alarms_ cal ++ [a])).

Definition unsubscribe (c a : nat) : MA () :=
  cal ← get_calendar c;
  put_calendar c (mkCalendar (week_mask_ cal) (special_days_ cal)
    (filter (fun b => b <> a) (watch_alarms_ cal))).

(** The virtual members: [calculateNextLocalTimeSec], [onEnable], [onDisable]. *)
Definition calculateNextLocalTimeSec (k : kind) (curr : Z) : MA (option Z) :=
  match k with
  | Oneshot s => mret (oneshot_next s curr)
  | Weekly s mask => mret (weekly_next s mask curr)
  | Workday s c b => cal ← (p ← the c; get_calendar p); mret (workday_next s cal b curr)
  end.

Definition onEnable (a : nat) (k : kind) : MA bool :=
  match k with
  | Workday _ c _ => p ← the c; subscribe p a;; mret true
  | _ => mret true
  end.

Definition onDisable (a : nat) (k : kind) : MA bool :=
  match k with
  | Workday _ c _ => p ← the c; unsubscribe p a;; mret true
  | _ => mret true
  end.

(** [remain_usec], in unsigned 32-bit arithmetic. *)
Definition wait_ms (next_utc curr_utc curr_usec : Z) : Z :=
  let remain_sec := u32 (next_utc - curr_utc) in
  u32 (u32 (remain_sec * 1000) - curr_usec / 1000).

Definition activeTimer (ck : wall_clock) (a : nat) : MA bool :=
  match c_time ck with
  | None => mret false
  | Some (curr_utc_sec, curr_utc_usec) =>
      x ← get_alarm a;
      let offset := if using_independ_timezone_ x then timezone_offset_seconds_ x else c_zone ck in
      let next_utc_start_sec := Z.max curr_utc_sec (target_utc_sec_ x) in
      let next_local_start_sec := u32 (next_utc_start_sec + offset) in
      o ← calculateNextLocalTimeSec (a_kind x) next_local_start_sec;
      match o with
      | None => mret false
      | Some next_local_sec =>
          let next_utc_sec := u32 (next_local_sec - offset) in
          update_alarm a (fun x => with_target next_utc_sec (with_state kRunning
            (with_timer (Some (wait_ms next_utc_sec curr_utc_sec curr_utc_usec)) x)));;
          mret true
      end
  end.

Definition enable (ck : wall_clock) (a : nat) : MA bool :=
  x ← get_alarm a;
  if decide (state_ x = kInited) then
    b ← onEnable a (a_kind x);
    if b : bool then activeTimer ck a else mret false
  else mret false.

(** [on_disable] is the virtual member that is called. *)
Definition disable_with (on_disable : MA bool) (a : nat) : MA bool :=
  x ← get_alarm a;
  if decide (state_ x = kRunning) then
    b ← on_disable;
    if b : bool then update_alarm a (fun x => with_timer None (with_state kInited x));; mret true
    else mret false
  else mret false.

Definition disable (a : nat) : MA bool :=
  x ← get_alarm a; disable_with (onDisable a (a_kind x)) a.

Definition cleanup_with (on_disable : MA bool) (a : nat) : MA () :=
  x ← get_alarm a;
  if decide (state_ x = kNone) then mret ()
  else
    disable_with on_disable a;;
    update_alarm a (fun x => with_target 0 (with_state kNone (with_zone false 0 (with_cb false x)))).

Definition cleanup (a : nat) : MA () :=
  x ← get_alarm a; cleanup_with (onDisable a (a_kind x)) a.

(** [~Alarm]: when the destructor of the base class runs, the object is an [Alarm]
    only, and the virtual call goes to [Alarm::onDisable]. *)
Definition destroy (a : nat) : MA () :=
  cleanup_with (mret true) a;; modify (set_alarms (delete a)).

Definition refresh (ck : wall_clock) (a : nat) : MA () :=
  x ← get_alarm a;
  if decide (state_ x = kRunning) then
    update_alarm a (fun x => with_target 0 (with_timer None (with_state kInited x)));;
    activeTimer ck a;; mret ()
  else mret ().

Definition remainSeconds (ck : wall_clock) (a : nat) : MA Z :=
  x ← get_alarm a;
  match c_time ck with
  | Some (curr, _) =>
      mret (if decide (state_ x = kRunning) then u32 (target_utc_sec_ x - curr) else 0)
  | None => mret 0
  end.

(** [for (auto alarm : watch_alarms_) alarm->refresh();] *)
Fixpoint refresh_all (ck : wall_clock) (l : list nat) : MA () :=
  match l with
  | [] => mret ()
  | a :: l' => refresh ck a;; refresh_all ck l'
  end.

Definition updateSpecialDays (ck : wall_clock) (c : nat) (special_days : gmap Z bool) : MA () :=
  cal ← get_calendar c;
  put_calendar c (mkCalendar (week_mask_ cal) special_days (watch_alarms_ cal));;
  refresh_all ck (watch_alarms_ cal).

Definition updateWeekMask (ck : wall_clock) (c : nat) (week_mask : Z) : MA () :=
  cal ← get_calendar c;
  put_calendar c (mkCalendar week_mask (special_days_ cal) (watch_alarms_ cal));;
  refresh_all ck (watch_alarms_ cal).

(** The timer has expired.  The timer event is one-shot: it is not armed any more.
    The callback is called last, so what it
    does to alarms is what the next calls do; here it only notes that it ran. *)
Definition onTimeExpired (ck : wall_clock) (a : nat) : MA () :=
  x ← get_alarm a;
  update_alarm a (fun x => with_state kInited (with_timer None x));;
  match a_kind x with Oneshot _ => mret () | _ => activeTimer ck a;; mret () end;;
  when (cb_ x) (modify (fun w => mkWorld (alarms w) (calendars w) (fired w ++ [a]))).

(** ** The next time *)

(** The days on which an alarm goes off; [cal] is the calendar of a workday
    alarm. *)
Definition day_ok (k : kind) (cal : calendar) (day : Z) : bool :=
  match k with
  | Oneshot _ => true
  | Weekly _ mask => mask_bit mask ((day + 4) mod 7)
  | Workday _ _ b => eqb b (isWorkay cal day)
  end.

Definition seconds_of (k : kind) : Z :=
  match k with Oneshot s | Weekly s _ | Workday s _ _ => s end.

(** The days that the search looks at. *)
Definition horizon (k : kind) : Z :=
  match k with Oneshot _ => 2 | Weekly _ _ => 8 | Workday _ _ _ => 367 end.

Definition next_of (k : kind) (cal : calendar) (curr : Z) : option Z :=
  match k with
  | Oneshot s => oneshot_next s curr
  | Weekly s mask => weekly_next s mask curr
  | Workday s _ b => workday_next s cal b curr
  end.

(** [t] is a time at which an alarm goes off. *)
Definition occurrence (k : kind) (cal : calendar) (t : Z) : Prop :=
  t mod kSecondsOfDay = seconds_of k /\ day_ok k cal (t / kSecondsOfDay) = true.

Definition first_after (k : kind) (cal : calendar) (curr t : Z) : Prop :=
  curr < t /\ occurrence k cal t /\ forall t', curr < t' -> occurrence k cal t' -> t <= t'.

Lemma day_loop_spec n d i curr s ok okd :
  0 <= s < kSecondsOfDay -> 0 <= d + i ->
  (d + i + Z.of_nat n + 1) * kSecondsOfDay < 2 ^ 32 ->
  (forall j, i <= j < i + Z.of_nat n -> ok j = okd (d + j)) ->
  match day_loop n i curr ((d + i) * kSecondsOfDay + s) ok with
  | Some t => exists j, i <= j < i + Z.of_nat n /\ t = (d + j) * kSecondsOfDay + s /\
      curr < t /\ okd (d + j) = true /\
      forall j', i <= j' < j -> ~ (curr < (d + j') * kSecondsOfDay + s /\ okd (d + j') = true)
  | None => forall j, i <= j < i + Z.of_nat n ->
      ~ (curr < (d + j) * kSecondsOfDay + s /\ okd (d + j) = true)
  end.
Proof.
  intros Hs. revert i. induction n as [|n IH]; intros i Hi Hmax Hok; [intros j Hj; lia|].
  cbn [day_loop]. rewrite Hok by lia. set (next := (d + i) * kSecondsOfDay + s).
  destruct (decide (curr < next /\ okd (d + i) = true)) as [[Hlt E]|Hno].
  { rewrite (proj2 (Z.ltb_lt _ _)), E by done. exists i. split_and!; try done; lia. }
  assert ((curr <? next) && okd (d + i) = false) as ->.
  { apply andb_false_iff. destruct (Z.ltb_spec curr next); [right|by left].
    by destruct (okd (d + i)); [destruct Hno|]. }
  assert (u32 (next + kSecondsOfDay) = (d + (i + 1)) * kSecondsOfDay + s) as ->.
  { unfold next, kSecondsOfDay in *. rewrite wrap_small by (unfold in_range; lia). lia. }
  specialize (IH (i + 1) ltac:(lia) ltac:(lia) ltac:(intros; apply Hok; lia)).
  destruct (day_loop n (i + 1) _ _ ok) as [t|].
  - destruct IH as (j & Hj & -> & Hc & Ho & Hmin). exists j. split_and!; try done; try lia.
    intros j' Hj'. destruct (decide (j' = i)) as [->|]; [done|apply Hmin; lia].
  - intros j Hj. destruct (decide (j = i)) as [->|]; [done|apply IH; lia].
Qed.

Lemma occurrence_day k cal t : occurrence k cal t ->
  t = t / kSecondsOfDay * kSecondsOfDay + seconds_of k /\ day_ok k cal (t / kSecondsOfDay) = true.
Proof. intros [E H]. split; [|done]. unfold kSecondsOfDay in *. dlia. Qed.

Lemma day_occurrence k cal d : 0 <= seconds_of k < kSecondsOfDay -> day_ok k cal d = true ->
  occurrence k cal (d * kSecondsOfDay + seconds_of k).
Proof.
  intros Hs Hd. unfold occurrence.
  rewrite Z.add_comm, Z.mod_add, Z.div_add, Z.mod_small, Z.div_small by (done || lia). done.
Qed.

Lemma today curr s : 0 <= s < kSecondsOfDay -> 0 <= curr -> curr + kSecondsOfDay < 2 ^ 32 ->
  u32 (u32 (curr - curr mod kSecondsOfDay) + s) = curr / kSecondsOfDay * kSecondsOfDay + s.
Proof.
  intros Hs Hc Hmax.
  assert (curr - curr mod kSecondsOfDay = curr / kSecondsOfDay * kSecondsOfDay) as ->
    by (unfold kSecondsOfDay; dlia).
  assert (curr / kSecondsOfDay * kSecondsOfDay <= curr) by (unfold kSecondsOfDay; dlia).
  assert (0 <= curr / kSecondsOfDay) by (by apply Z.div_pos).
  unfold kSecondsOfDay in *. rewrite (wrap_small 32 (_ * _)), wrap_small by (unfold in_range; lia).
  lia.
Qed.

(** The loop, started on the day of [curr], finds the first time after [curr]. *)
Lemma day_loop_first n curr k cal ok :
  0 <= seconds_of k < kSecondsOfDay -> 0 <= curr ->
  curr + (Z.of_nat n + 1) * kSecondsOfDay < 2 ^ 32 ->
  (forall j, 0 <= j < Z.of_nat n -> ok j = day_ok k cal (curr / kSecondsOfDay + j)) ->
  match day_loop n 0 curr (u32 (u32 (curr - curr mod kSecondsOfDay) + seconds_of k)) ok with
  | Some t => first_after k cal curr t /\
      t / kSecondsOfDay < curr / kSecondsOfDay + Z.of_nat n
  | None => forall t, curr < t -> occurrence k cal t ->
      curr / kSecondsOfDay + Z.of_nat n <= t / kSecondsOfDay
  end.
Proof.
  intros Hs Hc Hmax Hok. remember (curr / kSecondsOfDay) as d eqn:Ed.
  assert (d * kSecondsOfDay <= curr < (d + 1) * kSecondsOfDay) as Hd
    by (subst d; unfold kSecondsOfDay; dlia).
  assert (u32 (u32 (curr - curr mod kSecondsOfDay) + seconds_of k) =
    (d + 0) * kSecondsOfDay + seconds_of k) as ->.
  { rewrite today, <- Ed by (done || (unfold kSecondsOfDay in *; lia)). lia. }
  assert (forall t, curr < t -> d <= t / kSecondsOfDay) as Hge
    by (intros t Ht; rewrite Ed; apply Z.div_le_mono; [done|lia]).
  pose proof (day_loop_spec n d 0 curr (seconds_of k) ok (day_ok k cal) Hs) as H.
  specialize (H ltac:(unfold kSecondsOfDay in *; lia) ltac:(unfold kSecondsOfDay in *; lia)).
  specialize (H ltac:(intros; by apply Hok)).
  destruct (day_loop n 0 _ _ ok) as [t|].
  - destruct H as (j & Hj & -> & Hlt & Ho & Hmin).
    assert (((d + j) * kSecondsOfDay + seconds_of k) / kSecondsOfDay = d + j) as Ediv.
    { rewrite Z.add_comm, Z.div_add, Z.div_small by (done || lia). lia. }
    rewrite Ediv. split; [|lia]. split; [done|]. split; [by apply day_occurrence|].
    intros t' Ht' [E' D']%occurrence_day. rewrite E'. specialize (Hge t' Ht').
    set (d' := t' / kSecondsOfDay) in *.
    destruct (Z.lt_ge_cases d' (d + j)); [|by apply Z.add_le_mono_r, Z.mul_le_mono_nonneg_r].
    destruct (Hmin (d' - d)); [lia|]. by replace (d + (d' - d)) with d' by lia; rewrite <- E'.
  - intros t Ht [E' D']%occurrence_day. specialize (Hge t Ht). set (d' := t / kSecondsOfDay) in *.
    destruct (Z.lt_ge_cases d' (d + Z.of_nat n)); [|done].
    destruct (H (d' - d)); [lia|]. by replace (d + (d' - d)) with d' by lia; rewrite <- E'.
Qed.

(** The least time after which an alarm of kind [k] goes off, if the search finds
    one; otherwise there is none on the days it looks at. *)
Definition next_spec (k : kind) (cal : calendar) (curr : Z) (o : option Z) : Prop :=
  match o with
  | Some t => first_after k cal curr t /\ t < curr + (horizon k + 1) * kSecondsOfDay
  | None => forall t, curr < t -> occurrence k cal t ->
      match k with
      | Workday _ _ _ => curr / kSecondsOfDay + horizon k <= t / kSecondsOfDay
      | _ => False
      end
  end.

Lemma first_bound k cal curr t n :
  first_after k cal curr t -> t / kSecondsOfDay < curr / kSecondsOfDay + n ->
  t < curr + n * kSecondsOfDay + kSecondsOfDay.
Proof. intros _ H. unfold kSecondsOfDay in *. dlia. Qed.

Lemma weekly_day curr j : 0 <= curr ->
  (j + ((curr mod kSecondsOfWeek) / kSecondsOfDay + 4) mod 7) mod 7 =
  (curr / kSecondsOfDay + j + 4) mod 7.
Proof. unfold kSecondsOfWeek, kSecondsOfDay. intros. dlia. Qed.

Lemma weekly_spec s mask cal curr :
  0 <= s < kSecondsOfDay -> 0 <= curr -> curr + 9 * kSecondsOfDay < 2 ^ 32 ->
  next_spec (Weekly s mask) cal curr (weekly_next s mask curr).
Proof.
  intros Hs Hc Hmax. unfold weekly_next.
  pose proof (day_loop_first 8 curr (Weekly s mask) cal
    (fun i => mask_bit mask ((i + (curr mod kSecondsOfWeek / kSecondsOfDay + 4) mod 7) mod 7))
    Hs Hc Hmax) as H.
  specialize (H ltac:(intros j _; cbn; by rewrite weekly_day)).
  cbn [seconds_of] in H. destruct (day_loop 8 0 _ _ _) as [t|]; cbn [next_spec horizon].
  - destruct H as [H Hd]. split; [done|]. pose proof (first_bound _ _ _ _ _ H Hd). lia.
  - intros t Ht Ho. specialize (H t Ht Ho) as Hge.
    apply occurrence_day in Ho as [E D]. cbn [seconds_of day_ok] in *.
    set (d := curr / kSecondsOfDay) in *. set (d' := t / kSecondsOfDay) in *.
    set (e := d + 1 + (d' - d - 1) mod 7).
    assert (d + 1 <= e < d + 8) as He by (unfold e; dlia).
    assert ((e + 4) mod 7 = (d' + 4) mod 7) as Ee by (unfold e; dlia).
    specialize (H (e * kSecondsOfDay + s)).
    assert (curr < e * kSecondsOfDay + s) as Hlt.
    { assert (curr < (d + 1) * kSecondsOfDay) by (unfold d, kSecondsOfDay; dlia).
      clearbody e. unfold kSecondsOfDay in *. nia. }
    specialize (H Hlt). rewrite Z.add_comm, Z.div_add, Z.div_small in H by (done || lia).
    enough (d + 8 <= 0 + e) by lia. apply H.
    rewrite Z.add_comm. apply (day_occurrence (Weekly s mask) cal e Hs). cbn. by rewrite Ee.
Qed.

Lemma workday_spec s c b cal curr :
  0 <= s < kSecondsOfDay -> 0 <= curr -> curr + 368 * kSecondsOfDay < 2 ^ 32 ->
  next_spec (Workday s c b) cal curr (workday_next s cal b curr).
Proof.
  intros Hs Hc Hmax. unfold workday_next.
  pose proof (day_loop_first 367 curr (Workday s c b) cal
    (fun i => eqb b (isWorkay cal (curr / kSecondsOfDay + i))) Hs Hc Hmax (fun _ _ => eq_refl)) as H.
  cbn [seconds_of] in H. destruct (day_loop 367 0 _ _ _) as [t|]; cbn [next_spec horizon].
  - destruct H as [H Hd]. split; [done|]. pose proof (first_bound _ _ _ _ _ H Hd). lia.
  - intros t Ht Ho. by apply H.
Qed.

Lemma oneshot_spec s cal curr :
  0 <= s < kSecondsOfDay -> 0 <= curr -> curr + 3 * kSecondsOfDay < 2 ^ 32 ->
  next_spec (Oneshot s) cal curr (oneshot_next s curr).
Proof.
  intros Hs Hc Hmax.
  assert (oneshot_next s curr = day_loop 2 0 curr
    (u32 (u32 (curr - curr mod kSecondsOfDay) + s)) (fun _ => true)) as ->.
  { unfold oneshot_next. cbn [day_loop]. rewrite !andb_true_r.
    set (next := u32 _). destruct (Z.leb_spec next curr); destruct (Z.ltb_spec curr next); try lia; [|done].
    destruct (Z.ltb_spec curr (u32 (next + kSecondsOfDay))) as [|Hge]; [done|].
    unfold next in *. rewrite today in * by (done || (unfold kSecondsOfDay in *; lia)).
    rewrite wrap_small in Hge by (unfold in_range, kSecondsOfDay in *; dlia).
    unfold kSecondsOfDay in *; dlia. }
  pose proof (day_loop_first 2 curr (Oneshot s) cal (fun _ => true) Hs Hc Hmax (fun _ _ => eq_refl)) as H.
  cbn [seconds_of] in H. destruct (day_loop 2 0 _ _ _) as [t|]; cbn [next_spec horizon].
  - destruct H as [H Hd]. split; [done|]. pose proof (first_bound _ _ _ _ _ H Hd). lia.
  - intros t Ht Ho. specialize (H ((curr / kSecondsOfDay + 1) * kSecondsOfDay + s)).
    rewrite (Z.add_comm _ s), Z.div_add, (Z.div_small s) in H by (done || lia).
    enough (curr / kSecondsOfDay + Z.of_nat 2 <= 0 + (curr / kSecondsOfDay + 1)) by lia. apply H.
    + unfold kSecondsOfDay; dlia.
    + rewrite (Z.add_comm s). by apply (day_occurrence (Oneshot s)).
Qed.

(** ** The timer is set for the next time *)

Definition valid_kind (k : kind) : Prop := 0 <= seconds_of k < kSecondsOfDay.

Lemma next_of_spec k cal curr : valid_kind k -> 0 <= curr ->
  curr + (horizon k + 1) * kSecondsOfDay < 2 ^ 32 -> next_spec k cal curr (next_of k cal curr).
Proof.
  destruct k; unfold valid_kind; cbn [seconds_of horizon next_of]; intros;
    [by apply oneshot_spec|by apply weekly_spec|by apply workday_spec].
Qed.

Definition calendar_of (cals : gmap nat calendar) (k : kind) : option calendar :=
  match k with Workday _ c _ => p ← c; cals !! p | _ => Some new_calendar end.

Lemma get_calendar_ok c cal w : calendars w !! c = Some cal -> get_calendar c w = Ret (cal, w).
Proof. intros E. unfold get_calendar, get, the, mbind, M_bind. by rewrite E. Qed.

Lemma calculate_ok k cal curr w : calendar_of (calendars w) k = Some cal ->
  calculateNextLocalTimeSec k curr w = Ret (next_of k cal curr, w).
Proof.
  intros E. destruct k as [s|s mask|s [c|] b]; [by injection E as <-|by injection E as <-| |done].
  assert ((p ← the (Some c); get_calendar p) w = Ret (cal, w)) as Eg by (by apply get_calendar_ok).
  cbn [calculateNextLocalTimeSec]. by rewrite (bind_Ret _ _ _ _ _ Eg).
Qed.

Definition zone_of (ck : wall_clock) (x : alarm) : Z :=
  if using_independ_timezone_ x then timezone_offset_seconds_ x else c_zone ck.

(** The clock reads [now] seconds and [usec] microseconds, and nothing overflows
    while an alarm [x] is set that is not to go off before [start]. *)
Definition reads (ck : wall_clock) (now usec : Z) : Prop :=
  c_time ck = Some (now, usec) /\ 0 <= now /\ 0 <= usec < 1000000.

Definition in_bounds (off : Z) (k : kind) (start : Z) : Prop :=
  0 <= start + off /\ start + off + (horizon k + 1) * kSecondsOfDay < 2 ^ 32 /\
  start + (horizon k + 1) * kSecondsOfDay < 2 ^ 32.

(** The alarm after it has been set to go off at [t]. *)
Definition armed (ck : wall_clock) (t : Z) (x : alarm) : alarm :=
  match c_time ck with
  | Some (now, usec) =>
      with_target t (with_state kRunning (with_timer (Some (wait_ms t now usec)) x))
  | None => x
  end.

Lemma get_alarm_ok a x w : alarms w !! a = Some x -> get_alarm a w = Ret (x, w).
Proof. intros E. unfold get_alarm, get, the, mbind, M_bind. by rewrite E. Qed.

Lemma update_alarm_ok a f x w : alarms w !! a = Some x ->
  update_alarm a f w = Ret ((), set_alarms <[a := f x]> w).
Proof. intros E. unfold update_alarm. by rewrite (bind_Ret _ _ _ _ _ (get_alarm_ok _ _ _ E)). Qed.

Lemma activeTimer_ok ck a x cal now usec w :
  alarms w !! a = Some x -> calendar_of (calendars w) (a_kind x) = Some cal ->
  valid_kind (a_kind x) -> reads ck now usec ->
  let off := zone_of ck x in
  let start := Z.max now (target_utc_sec_ x) in
  in_bounds off (a_kind x) start ->
  activeTimer ck a w =
  match next_of (a_kind x) cal (start + off) with
  | Some t => Ret (true, set_alarms <[a := armed ck (t - off) x]> w)
  | None => Ret (false, w)
  end.
Proof.
  intros Ha Hcal Hk (Ht & Hnow & Husec) off start (B0 & B1 & B2).
  unfold activeTimer, armed. rewrite Ht, (bind_Ret _ _ _ _ _ (get_alarm_ok _ _ _ Ha)). cbv zeta.
  fold (zone_of ck x). fold off start. rewrite (wrap_small 32 (start + off)).
  2:{ unfold in_range, kSecondsOfDay in *. destruct (a_kind x); cbn in *; lia. }
  rewrite (bind_Ret _ _ _ _ _ (calculate_ok _ _ _ _ Hcal)).
  pose proof (next_of_spec _ cal (start + off) Hk B0 B1) as Hn.
  destruct (next_of _ _ _) as [t|]; [|done]. destruct Hn as [(Hlt & _) Hb].
  rewrite (wrap_small 32 (t - off)) by (unfold in_range; lia).
  by rewrite (bind_Ret _ _ _ _ _ (update_alarm_ok _ _ _ _ Ha)).
Qed.

Lemma armed_spec ck t x now usec : c_time ck = Some (now, usec) ->
  armed ck t x = with_target t (with_state kRunning (with_timer (Some (wait_ms t now usec)) x)).
Proof. intros E. unfold armed. by rewrite E. Qed.

(** The time is reached exactly, to the millisecond, if it is less than 2^32
    milliseconds away. *)
Lemma wait_ms_ok t now usec : 0 <= now < t -> 0 <= usec < 1000000 -> (t - now) * 1000 < 2 ^ 32 ->
  0 < wait_ms t now usec /\ now * 1000 + usec / 1000 + wait_ms t now usec = t * 1000.
Proof.
  intros Ht Hu Hm. unfold wait_ms.
  assert (0 <= usec / 1000 < 1000) by dlia.
  rewrite (wrap_small 32 (t - now)), (wrap_small 32 (_ * 1000)), wrap_small
    by (unfold in_range; lia). lia.
Qed.

(** ** Theorems *)

(** For every kind of alarm with a valid time of day, every calendar and every
    current time, the search finds the least later time with that time of day on a
    day that the kind admits (weekday of the mask, workday or holiday of the
    calendar; the first day of the epoch was a Thursday).  When it finds none,
    there is none at all for a weekly alarm, none in the next 367 days for a workday
    alarm; a one-shot alarm always finds one. *)
Theorem next_time_is_first k cal curr : valid_kind k -> 0 <= curr ->
  curr + (horizon k + 1) * kSecondsOfDay < 2 ^ 32 ->
  next_spec k cal curr (next_of k cal curr).
Proof. apply next_of_spec. Qed.

(** The alarm [a] waits for the time [t]: its timer expires at that time to the
    millisecond, on a clock that now shows [now] and [usec]. *)
Definition waits_for (w : world) (a : nat) (t now usec : Z) : Prop :=
  exists x ms, alarms w !! a = Some x /\ state_ x = kRunning /\ target_utc_sec_ x = t /\
    timer_ x = Some ms /\ now * 1000 + usec / 1000 + ms = t * 1000.

(** What [onTimeExpired] does, up to the new state of the alarm. *)
Lemma onTimeExpired_ok ck a x cal now usec w :
  alarms w !! a = Some x -> calendar_of (calendars w) (a_kind x) = Some cal ->
  valid_kind (a_kind x) -> reads ck now usec ->
  in_bounds (zone_of ck x) (a_kind x) (Z.max now (target_utc_sec_ x)) ->
  let y := with_state kInited (with_timer None x) in
  let z := match a_kind x, next_of (a_kind x) cal (Z.max now (target_utc_sec_ x) + zone_of ck x) with
           | Oneshot _, _ | _, None => y
           | _, Some t => armed ck (t - zone_of ck x) y
           end in
  exists w', onTimeExpired ck a w = Ret ((), w') /\ fired w' = fired w ++ (if cb_ x then [a] else []) /\ alarms w' !! a = Some z.
Proof.
  intros Ha Hcal Hk Hr Hb y z. set (w1 := set_alarms <[a := y]> w).
  assert (alarms w1 !! a = Some y) as Ha1 by apply lookup_insert_eq.
  pose proof (activeTimer_ok ck a y cal now usec w1 Ha1 Hcal Hk Hr Hb) as Eact.
  change (a_kind y) with (a_kind x) in Eact. change (zone_of ck y) with (zone_of ck x) in Eact.
  change (target_utc_sec_ y) with (target_utc_sec_ x) in Eact.
  assert (exists w2, match a_kind x with Oneshot _ => mret () | _ => activeTimer ck a;; mret () end w1 = Ret ((), w2) /\
    fired w2 = fired w /\ alarms w2 !! a = Some z) as (w2 & E & Ef & Ez).
  { assert (exists b w2, activeTimer ck a w1 = Ret (b, w2) /\ fired w2 = fired w /\ alarms w2 !! a =
      Some (match next_of (a_kind x) cal (Z.max now (target_utc_sec_ x) + zone_of ck x) with
            | Some t => armed ck (t - zone_of ck x) y | None => y end)) as (b & w2 & E2 & Ef & Ez).
    { rewrite Eact. destruct (next_of _ _ _) as [t|]; eexists _, _; (split; [reflexivity|]); split; [done|apply lookup_insert_eq|done|done]. }
    unfold z. destruct (a_kind x) as [s| |]; [by exists w1|..]; exists w2; rewrite (bind_Ret _ _ _ _ _ E2);
      by destruct (next_of _ _ _). }
  exists (if cb_ x then mkWorld (alarms w2) (calendars w2) (fired w2 ++ [a]) else w2).
  split; [|destruct (cb_ x); cbn; rewrite ?app_nil_r, Ef; done].
  unfold onTimeExpired. rewrite (bind_Ret _ _ _ _ _ (get_alarm_ok _ _ _ Ha)).
  rewrite (bind_Ret _ _ _ _ _ (update_alarm_ok _ _ _ _ Ha)). fold y w1. rewrite (bind_Ret _ _ _ _ _ E). by destruct (cb_ x).
Qed.

(** C37: When the timer of an alarm expires, its callback is called once, if it has
    one.  A one-shot alarm is then initialised but does not run, and so is a weekly
    or workday alarm that has no next time: a weekly alarm without a day, a workday
    alarm whose calendar has no fitting day in the next 367.  Any other weekly or
    workday alarm is set for the first time, in its time zone, after both the
    present and the time it has just gone off for.  So an alarm that goes off a
    little early, by a timer that runs faster than the wall clock, does not go off
    twice for the same time; and as long as it is not later than the next time, no
    time is left out.  Its timer expires at that time to the millisecond when it is
    less than 2^32 milliseconds (49 days) away; beyond, the 32-bit arithmetic of
    the code wraps and the alarm goes off at another time ([far_workday_expires_early]). *)
Theorem expired_alarm_is_rearmed ck a x cal now usec w :
  alarms w !! a = Some x -> calendar_of (calendars w) (a_kind x) = Some cal ->
  valid_kind (a_kind x) -> reads ck now usec ->
  let off := zone_of ck x in
  let start := Z.max now (target_utc_sec_ x) in
  in_bounds off (a_kind x) start ->
  exists w', onTimeExpired ck a w = Ret ((), w') /\ fired w' = fired w ++ (if cb_ x then [a] else []) /\
    exists y, alarms w' !! a = Some y /\
    match a_kind x with
    | Oneshot _ => state_ y = kInited /\ timer_ y = None
    | _ =>
        match next_of (a_kind x) cal (start + off) with
        | None => state_ y = kInited /\ timer_ y = None /\
            forall t, start + off < t -> occurrence (a_kind x) cal t ->
              (if a_kind x is Workday _ _ _ then (start + off) / kSecondsOfDay + 367 <= t / kSecondsOfDay else False)
        | Some t => state_ y = kRunning /\ target_utc_sec_ y = t - off /\ target_utc_sec_ x < t - off /\
            first_after (a_kind x) cal (start + off) t /\
            ((forall t', target_utc_sec_ x + off < t' -> occurrence (a_kind x) cal t' -> now + off < t') ->
             first_after (a_kind x) cal (target_utc_sec_ x + off) t) /\
            ((t - off - now) * 1000 < 2 ^ 32 -> waits_for w' a (t - off) now usec)
        end
    end.
Proof.
  intros Ha Hcal Hk Hr off start Hb. pose proof Hr as (Ht & Hnow & Husec).
  destruct (onTimeExpired_ok ck a x cal now usec w Ha Hcal Hk Hr Hb) as (w' & E & Ef & Ez). fold off start in Ez.
  exists w'. split; [done|]. split; [done|]. eexists. split; [exact Ez|].
  pose proof (next_of_spec _ cal (start + off) Hk (proj1 Hb) (proj1 (proj2 Hb))) as Hs.
  assert (forall t, next_of (a_kind x) cal (start + off) = Some t ->
    first_after (a_kind x) cal (start + off) t /\ target_utc_sec_ x < t - off /\
    ((forall t', target_utc_sec_ x + off < t' -> occurrence (a_kind x) cal t' -> now + off < t') ->
      first_after (a_kind x) cal (target_utc_sec_ x + off) t) /\
    ((t - off - now) * 1000 < 2 ^ 32 -> now * 1000 + usec / 1000 + wait_ms (t - off) now usec = (t - off) * 1000)) as Hsome.
  { intros t E1. rewrite E1 in Hs. destruct Hs as [Hf _]. pose proof Hf as (Hlt & Hocc & Hmin). split; [done|]. split; [lia|]. split.
    - intros Hnone. split; [lia|]. split; [done|]. intros t' Ht' Hoc'. apply Hmin; [|done]. specialize (Hnone t' Ht' Hoc'). lia.
    - intros Hfar. apply wait_ms_ok; [lia..|done]. }
  destruct (a_kind x) as [s|s m|s c b]; [done|..]; (destruct (next_of _ cal (start + off)) as [t|];
    [|split; [done|]; split; [done|]; exact Hs]); destruct (Hsome t eq_refl) as (H1 & H2 & H3 & H4);
    rewrite (armed_spec _ _ _ _ _ Ht) in Ez |- *; (split; [done|]; split; [done|]; split; [done|]; split; [done|]; split; [done|]);
    intros Hfar; eexists _, _; (split; [exact Ez|]); (split; [done|]; split; [done|]; split; [reflexivity|]; by apply H4).
Qed.

(** ** Changing the calendar *)

(** An alarm after [refresh]. *)
Definition refreshed (ck : wall_clock) (now : Z) (cals : gmap nat calendar) (x : alarm) : alarm :=
  if decide (state_ x = kRunning) then
    let y := with_target 0 (with_timer None (with_state kInited x)) in
    match calendar_of cals (a_kind x) with
    | Some cal =>
        match next_of (a_kind x) cal (now + zone_of ck x) with
        | Some t => armed ck (t - zone_of ck x) y
        | None => y
        end
    | None => y
    end
  else x.

(** The alarm can be refreshed: if it runs, its calendar exists and nothing
    overflows. *)
Definition refreshable (ck : wall_clock) (now : Z) (cals : gmap nat calendar) (x : alarm) : Prop :=
  state_ x = kRunning -> valid_kind (a_kind x) /\ is_Some (calendar_of cals (a_kind x)) /\
    in_bounds (zone_of ck x) (a_kind x) now.

Lemma armed_fields ck t x : a_kind (armed ck t x) = a_kind x /\ zone_of ck (armed ck t x) = zone_of ck x.
Proof. unfold armed. by destruct (c_time ck) as [[]|]. Qed.

Lemma armed_again ck t x : (exists p, c_time ck = Some p) ->
  with_target 0 (with_timer None (with_state kInited (armed ck t x))) =
  with_target 0 (with_timer None (with_state kInited x)) /\ state_ (armed ck t x) = kRunning.
Proof. intros [[] E]. unfold armed. rewrite E. by destruct x. Qed.

Lemma refreshed_twice ck now cals x : (exists p, c_time ck = Some p) ->
  refreshed ck now cals (refreshed ck now cals x) = refreshed ck now cals x.
Proof.
  intros Hc. unfold refreshed at 2 3. destruct (decide (state_ x = kRunning)) as [Hr|Hr].
  2:{ unfold refreshed. by rewrite decide_False. }
  set (y := with_target 0 (with_timer None (with_state kInited x))).
  assert (refreshed ck now cals y = y) as Ey by done.
  destruct (calendar_of cals (a_kind x)) as [cal|] eqn:Ecal; [|done].
  destruct (next_of _ _ _) as [t|] eqn:En; [|done].
  destruct (armed_fields ck (t - zone_of ck x) y) as [Ek Ez].
  destruct (armed_again ck (t - zone_of ck x) y Hc) as [Ea Es].
  unfold refreshed. rewrite decide_True by done. rewrite Ek, Ez, Ea.
  change (a_kind y) with (a_kind x). change (zone_of ck y) with (zone_of ck x).
  by rewrite Ecal, En.
Qed.

Lemma refreshable_refreshed ck now cals x :
  (exists p, c_time ck = Some p) ->
  refreshable ck now cals x -> refreshable ck now cals (refreshed ck now cals x).
Proof.
  intros Hc Hx Hr. unfold refreshed in *. destruct (decide (state_ x = kRunning)) as [E|E]; [|done].
  specialize (Hx E). destruct (calendar_of cals (a_kind x)) as [cal|] eqn:Ecal; [|done].
  destruct (next_of _ _ _) as [t|]; [|done].
  match goal with |- context [armed ck ?t ?y] => destruct (armed_fields ck t y) as [-> ->] end.
  cbn [a_kind with_target with_timer with_state]. rewrite Ecal. exact Hx.
Qed.

Section calendars.

Context (ck : wall_clock) (now usec : Z) (Hck : reads ck now usec).

Lemma refresh_ok a x w : alarms w !! a = Some x -> refreshable ck now (calendars w) x ->
  refresh ck a w = Ret ((), set_alarms <[a := refreshed ck now (calendars w) x]> w).
Proof using Hck.
  intros Ha Hx. unfold refresh, refreshed. rewrite (bind_Ret _ _ _ _ _ (get_alarm_ok _ _ _ Ha)).
  destruct (decide (state_ x = kRunning)) as [Hr|Hr].
  2:{ unfold set_alarms. rewrite insert_id by done. by destruct w. }
  destruct (Hx Hr) as (Hk & [cal Hcal] & Hb). rewrite Hcal.
  rewrite (bind_Ret _ _ _ _ _ (update_alarm_ok _ _ _ _ Ha)).
  set (y := with_target 0 (with_timer None (with_state kInited x))).
  set (w1 := set_alarms <[a := y]> w).
  assert (alarms w1 !! a = Some y) as Ha1 by apply lookup_insert_eq.
  assert (Z.max now (target_utc_sec_ y) = now) as Emax by (destruct Hck as (_ & ? & _); cbn; lia).
  pose proof (activeTimer_ok ck a y cal now usec w1 Ha1 Hcal Hk Hck) as E.
  rewrite Emax in E. specialize (E Hb).
  change (a_kind y) with (a_kind x) in E. change (zone_of ck y) with (zone_of ck x) in E.
  destruct (next_of _ _ _) as [t|]; rewrite (bind_Ret _ _ _ _ _ E).
  - unfold w1, set_alarms. cbn. by rewrite insert_insert_eq.
  - done.
Qed.

Lemma refresh_all_ok l w :
  (forall a, a ∈ l -> exists x, alarms w !! a = Some x /\ refreshable ck now (calendars w) x) ->
  exists w', refresh_all ck l w = Ret ((), w') /\ calendars w' = calendars w /\ fired w' = fired w /\
    forall b, alarms w' !! b =
      if decide (b ∈ l) then refreshed ck now (calendars w) <$> alarms w !! b else alarms w !! b.
Proof using Hck.
  assert (exists p, c_time ck = Some p) as Hc by (destruct Hck as (E & _); eauto).
  revert w. induction l as [|a l IH]; intros w Hl.
  { exists w. split_and!; try done. }
  destruct (Hl a) as (x & Ha & Hx); [left|].
  cbn [refresh_all]. rewrite (bind_Ret _ _ _ _ _ (refresh_ok _ _ _ Ha Hx)).
  set (w1 := set_alarms _ w).
  destruct (IH w1) as (w' & E & Ec & Ef & Hw').
  { intros b Hb. destruct (decide (b = a)) as [->|Hne].
    - exists (refreshed ck now (calendars w) x). split; [apply lookup_insert_eq|].
      by apply refreshable_refreshed.
    - destruct (Hl b) as (z & Hz & Hz'); [by right|]. exists z. split; [|done].
      cbn. by rewrite lookup_insert_ne by done. }
  exists w'. split_and!; [done|done|done|]. intros b. rewrite Hw'. clear Hw' E IH.
  change (calendars w1) with (calendars w).
  destruct (decide (b = a)) as [->|Hne].
  - rewrite (decide_True (P := a ∈ a :: l)) by left. cbn. rewrite lookup_insert_eq, Ha. cbn.
    destruct (decide (a ∈ l)); [by rewrite refreshed_twice|done].
  - cbn. rewrite lookup_insert_ne by done.
    destruct (decide (b ∈ l)); [rewrite decide_True by (by right)|rewrite decide_False]; try done.
    rewrite elem_of_cons. tauto.
Qed.

End calendars.

(** When the special days or the week mask of a calendar change, every alarm
    that watches it is set anew: if it runs, it waits from now on for the first
    time under the new calendar, or stops if there is none on the days that are
    searched.  All other alarms stay as they are, and no callback is called. *)
Theorem calendar_change_reschedules ck c cal now usec w days mask (b : bool) :
  reads ck now usec -> calendars w !! c = Some cal ->
  let cal' := if b then mkCalendar mask (special_days_ cal) (watch_alarms_ cal)
              else mkCalendar (week_mask_ cal) days (watch_alarms_ cal) in
  let cals' := <[c := cal']> (calendars w) in
  (forall a, a ∈ watch_alarms_ cal ->
     exists x, alarms w !! a = Some x /\ refreshable ck now cals' x) ->
  exists w', (if b then updateWeekMask ck c mask w else updateSpecialDays ck c days w) = Ret ((), w') /\
    calendars w' = cals' /\ fired w' = fired w /\
    forall a, alarms w' !! a =
      if decide (a ∈ watch_alarms_ cal) then refreshed ck now cals' <$> alarms w !! a
      else alarms w !! a.
Proof.
  intros Hck Hc cal' cals' Hl.
  destruct (refresh_all_ok ck now usec Hck (watch_alarms_ cal) (mkWorld (alarms w) cals' (fired w)) Hl)
    as (w' & E & Ec & Ef & Hw').
  exists w'. split; [|done].
  subst cals' cal'. destruct b; [unfold updateWeekMask|unfold updateSpecialDays];
    by rewrite (bind_Ret _ _ _ _ _ (get_calendar_ok _ _ _ Hc)).
Qed.

(** ** Pointers *)

(** The calendars point to alarms that exist, the alarms to calendars that exist;
    a timer is armed only for an alarm that runs. *)
Definition alarm_wf (cals : gmap nat calendar) (x : alarm) : Prop :=
  (state_ x <> kNone -> is_Some (calendar_of cals (a_kind x))) /\
  (timer_ x <> None -> state_ x = kRunning).

Definition watchers_wf (als : gmap nat alarm) (cals : gmap nat calendar) : Prop :=
  forall c cal a, cals !! c = Some cal -> a ∈ watch_alarms_ cal -> is_Some (als !! a).

Definition wf (w : world) : Prop :=
  map_Forall (fun _ x => alarm_wf (calendars w) x) (alarms w) /\
  watchers_wf (alarms w) (calendars w).

Inductive op :=
  | Create (a : nat) (k : kind)
  | InitOneshot (a : nat) (s : Z)
  | InitWeekly (a : nat) (s : Z) (mask : list Z)
  | InitWorkday (a : nat) (s : Z) (c : option nat) (b : bool)
  | SetTimezone (a : nat) (minutes : Z)
  | SetCallback (a : nat)
  | Enable (ck : wall_clock) (a : nat)
  | Disable (a : nat)
  | Cleanup (a : nat)
  | Refresh (ck : wall_clock) (a : nat)
  | Destroy (a : nat)
  | Expire (ck : wall_clock) (a : nat)
  | UpdateDays (ck : wall_clock) (c : nat) (days : gmap Z bool)
  | UpdateMask (ck : wall_clock) (c : nat) (mask : Z).

Definition exec (o : op) : MA () :=
  match o with
  | Create a k => modify (set_alarms <[a := new_alarm k]>)
  | InitOneshot a s => oneshot_initialize a s;; mret ()
  | InitWeekly a s mask => weekly_initialize a s mask;; mret ()
  | InitWorkday a s c b => workday_initialize a s c b;; mret ()
  | SetTimezone a z => setTimezone a z
  | SetCallback a => setCallback a
  | Enable ck a => enable ck a;; mret ()
  | Disable a => disable a;; mret ()
  | Cleanup a => cleanup a
  | Refresh ck a => refresh ck a
  | Destroy a => destroy a
  | Expire ck a => onTimeExpired ck a
  | UpdateDays ck c days => updateSpecialDays ck c days
  | UpdateMask ck c mask => updateWeekMask ck c mask
  end.

Fixpoint run (l : list op) : MA () :=
  match l with [] => mret () | o :: l' => exec o;; run l' end.

(** The calls that a user may make: on objects that exist, a timer expires only if
    it is armed, and an alarm that a calendar still watches is not destroyed. *)
Definition legal (o : op) (w : world) : Prop :=
  match o with
  | Create a _ => alarms w !! a = None
  | InitWorkday a _ c _ => is_Some (alarms w !! a) /\ forall p, c = Some p -> is_Some (calendars w !! p)
  | Destroy a => is_Some (alarms w !! a) /\
      forall c cal, calendars w !! c = Some cal -> a ∉ watch_alarms_ cal
  | Expire _ a => exists x, alarms w !! a = Some x /\ timer_ x <> None
  | UpdateDays _ c _ | UpdateMask _ c _ => is_Some (calendars w !! c)
  | InitOneshot a _ | InitWeekly a _ _ | SetTimezone a _ | SetCallback a | Enable _ a
  | Disable a | Cleanup a | Refresh _ a => is_Some (alarms w !! a)
  end.

(** [m] comes back from [w] and keeps the world well formed. *)
Definition stays_ok {A} (m : MA A) (w : world) : Prop :=
  exists r w', m w = Ret (r, w') /\ wf w' /\
    dom (alarms w') = dom (alarms w) /\ dom (calendars w') = dom (calendars w).

Lemma stays_ret {A} (r : A) w : wf w -> stays_ok (mret r) w.
Proof. intros Hw. by exists r, w. Qed.

Lemma stays_bind {A B} (m : MA A) (k : A -> MA B) w :
  stays_ok m w ->
  (forall r w', m w = Ret (r, w') -> wf w' -> dom (alarms w') = dom (alarms w) ->
    dom (calendars w') = dom (calendars w) -> stays_ok (k r) w') ->
  stays_ok (m ≫= k) w.
Proof.
  intros (r & w1 & E & Hw & Da & Dc) Hk.
  destruct (Hk r w1 E Hw Da Dc) as (r' & w2 & E2 & Hw2 & Da2 & Dc2).
  exists r', w2. rewrite (bind_Ret _ _ _ _ _ E), Da2, Dc2. by split_and!.
Qed.

Lemma stays_get {B} a x (k : alarm -> MA B) w :
  alarms w !! a = Some x -> stays_ok (k x) w -> stays_ok (get_alarm a ≫= k) w.
Proof. intros Ha. unfold stays_ok. by rewrite (bind_Ret _ _ _ _ _ (get_alarm_ok _ _ _ Ha)). Qed.

Lemma stays_update {B} a x f (k : () -> MA B) w :
  alarms w !! a = Some x -> wf w -> alarm_wf (calendars w) (f x) ->
  (forall w', wf w' -> alarms w' = <[a := f x]> (alarms w) -> calendars w' = calendars w ->
     stays_ok (k ()) w') ->
  stays_ok (update_alarm a f ≫= k) w.
Proof.
  intros Ha [Hx Hw] Hf Hk. unfold stays_ok. rewrite (bind_Ret _ _ _ _ _ (update_alarm_ok _ _ _ _ Ha)).
  set (w1 := set_alarms _ w).
  assert (dom (alarms w1) = dom (alarms w)) as Da.
  { cbn. rewrite dom_insert_L. apply elem_of_dom_2 in Ha. set_solver. }
  assert (wf w1) as Hw1.
  { split; [by apply map_Forall_insert_2|].
    intros c cal b Hc Hb. cbn. apply lookup_insert_is_Some'. right. by eapply Hw. }
  destruct (Hk w1 Hw1 eq_refl eq_refl) as (r & w2 & E & Hw2 & D1 & D2).
  exists r, w2. rewrite D1, D2, Da. by split_and!.
Qed.

Lemma stays_update_only a x f w : alarms w !! a = Some x -> wf w -> alarm_wf (calendars w) (f x) ->
  stays_ok (update_alarm a f) w.
Proof.
  intros Ha Hw Hf. destruct (stays_update a x f mret w Ha Hw Hf) as (r & w' & E & H).
  - intros. by apply stays_ret.
  - exists r, w'. split; [|done]. rewrite <- E, (update_alarm_ok _ _ _ _ Ha).
    by rewrite (bind_Ret _ _ _ _ _ (update_alarm_ok _ _ _ _ Ha)).
Qed.

Lemma wf_lookup w a x : wf w -> alarms w !! a = Some x -> alarm_wf (calendars w) x.
Proof. intros [H _] Ha. by apply H in Ha. Qed.

(** Conditions on a changed alarm, by computation from those on the old one. *)
Ltac alarm_wf_tac :=
  repeat match goal with H : alarm_wf _ _ |- _ => destruct H end;
  split; cbn; intros; try done; auto.

(** A change of a calendar that keeps its watchers or adds an alarm. *)
Lemma wf_set_calendar c cal cal' w :
  wf w -> calendars w !! c = Some cal ->
  (forall b, b ∈ watch_alarms_ cal' -> b ∈ watch_alarms_ cal \/ is_Some (alarms w !! b)) ->
  wf (set_calendars <[c := cal']> w).
Proof.
  intros [Hx Hw] Hc Hb. split.
  - intros a x Ha. destruct (Hx a x Ha) as [H1 H2]. split; [|done]. intros Hs.
    specialize (H1 Hs). cbn. destruct (a_kind x) as [| |s [p|] b]; try done. cbn in *.
    by apply lookup_insert_is_Some'; right.
  - intros d cal1 b Hd Hb'. cbn in *. destruct (decide (d = c)) as [->|].
    + rewrite lookup_insert_eq in Hd. injection Hd as <-.
      destruct (Hb b Hb'); [by eapply Hw|done].
    + rewrite lookup_insert_ne in Hd by done. by eapply Hw.
Qed.

Lemma stays_step {A B} (m : MA A) (k : A -> MA B) w r w1 :
  m w = Ret (r, w1) -> dom (alarms w1) = dom (alarms w) -> dom (calendars w1) = dom (calendars w) ->
  stays_ok (k r) w1 -> stays_ok (m ≫= k) w.
Proof.
  intros E Da Dc (r' & w2 & E2 & Hw2 & D1 & D2). exists r', w2.
  rewrite (bind_Ret _ _ _ _ _ E), E2, <- Da, <- Dc. by split_and!.
Qed.

Lemma dom_set_calendar c (cal cal' : calendar) w : calendars w !! c = Some cal ->
  dom (calendars (set_calendars <[c := cal']> w)) = dom (calendars w).
Proof. intros Hc%elem_of_dom_2. cbn. rewrite dom_insert_L. set_solver. Qed.

Lemma stays_get_calendar {B} c cal (k : calendar -> MA B) w :
  calendars w !! c = Some cal -> stays_ok (k cal) w -> stays_ok (get_calendar c ≫= k) w.
Proof. intros Hc. unfold stays_ok. by rewrite (bind_Ret _ _ _ _ _ (get_calendar_ok _ _ _ Hc)). Qed.

Lemma stays_true {A} (m : MA A) w : stays_ok m w -> stays_ok (m;; mret ()) w.
Proof. intros H. apply stays_bind; [done|]. intros. by apply stays_ret. Qed.

Lemma stays_dom w (D : gset nat) a : dom (alarms w) = D -> a ∈ D -> exists x, alarms w !! a = Some x.
Proof. intros <-. by rewrite elem_of_dom. Qed.

Lemma activeTimer_keeps ck a x w : wf w -> alarms w !! a = Some x -> state_ x <> kNone ->
  stays_ok (activeTimer ck a) w.
Proof.
  intros Hw Ha Hs. unfold activeTimer. destruct (c_time ck) as [[now usec]|]; [|by apply stays_ret].
  eapply stays_get; [done|]. destruct (wf_lookup _ _ _ Hw Ha) as [[cal Hcal] _]; [done|].
  unfold stays_ok. cbv zeta. rewrite (bind_Ret _ _ _ _ _ (calculate_ok _ _ _ _ Hcal)).
  destruct (next_of _ _ _) as [t|]; [|by apply stays_ret].
  pose proof (wf_lookup _ _ _ Hw Ha). eapply stays_update; [done|done|alarm_wf_tac|].
  intros. by apply stays_ret.
Qed.

(** What [onEnable] and [onDisable] do to the world. *)
Definition virtual_ok (a : nat) (m : MA bool) (w : world) : Prop :=
  exists w', m w = Ret (true, w') /\ wf w' /\ alarms w' = alarms w /\
    dom (calendars w') = dom (calendars w).

Lemma virtual_none a w : wf w -> virtual_ok a (mret true) w.
Proof. intros Hw. by exists w. Qed.

Lemma workday_virtual a c (f : nat -> MA ()) g w :
  (forall cal, calendars w !! c = Some cal -> f c w = Ret ((), set_calendars <[c := g cal]> w)) ->
  (forall cal b, b ∈ watch_alarms_ (g cal) -> b ∈ watch_alarms_ cal \/ b = a) ->
  wf w -> is_Some (calendars w !! c) -> is_Some (alarms w !! a) ->
  virtual_ok a (p ← the (Some c); f p;; mret true) w.
Proof.
  intros Hf Hg Hw [cal Hc] Ha. pose proof (Hf cal Hc) as E.
  exists (set_calendars <[c := g cal]> w). split_and!.
  - assert ((p ← the (Some c); f p;; mret true) w = (f c;; mret true) w) as -> by done.
    by rewrite (bind_Ret _ _ _ _ _ E).
  - eapply wf_set_calendar; [done|done|]. intros b Hb. destruct (Hg cal b Hb) as [? | ->]; auto.
  - done.
  - by eapply dom_set_calendar.
Qed.

Lemma virtual_enable a x w : wf w -> alarms w !! a = Some x -> state_ x <> kNone ->
  virtual_ok a (onEnable a (a_kind x)) w /\ virtual_ok a (onDisable a (a_kind x)) w.
Proof.
  intros Hw Ha Hs. destruct (wf_lookup _ _ _ Hw Ha) as [Hc _]. specialize (Hc Hs).
  destruct (a_kind x) as [s|s m|s [c|] b]; [split; by apply virtual_none|split; by apply virtual_none| |by destruct Hc].
  cbn [calendar_of] in Hc. cbn in Hc. split.
  - apply (workday_virtual a c (fun p => subscribe p a) (fun cal =>
      mkCalendar (week_mask_ cal) (special_days_ cal) (watch_alarms_ cal ++ [a]))); [|cbn|done..].
    + intros cal E. unfold subscribe. by rewrite (bind_Ret _ _ _ _ _ (get_calendar_ok _ _ _ E)).
    + intros cal d. rewrite elem_of_app, list_elem_of_singleton. tauto.
  - apply (workday_virtual a c (fun p => unsubscribe p a) (fun cal =>
      mkCalendar (week_mask_ cal) (special_days_ cal)
        (filter (fun b => b <> a) (watch_alarms_ cal)))); [|cbn|done..].
    + intros cal E. unfold unsubscribe. by rewrite (bind_Ret _ _ _ _ _ (get_calendar_ok _ _ _ E)).
    + intros cal d [_ Hd]%list_elem_of_filter. auto.
Qed.

Lemma stays_virtual {A} a (m : MA bool) (k : bool -> MA A) w :
  virtual_ok a m w ->
  (forall w', wf w' -> alarms w' = alarms w -> stays_ok (k true) w') -> stays_ok (m ≫= k) w.
Proof.
  intros (w' & E & Hw & Ha & Hc) Hk. eapply stays_step; [done|by rewrite Ha|done|]. by apply Hk.
Qed.

Lemma enable_keeps ck a x w : wf w -> alarms w !! a = Some x -> stays_ok (enable ck a) w.
Proof.
  intros Hw Ha. unfold enable. eapply stays_get; [done|].
  destruct (decide (state_ x = kInited)) as [E|]; [|by apply stays_ret].
  assert (state_ x <> kNone) as Hs by (by rewrite E).
  eapply stays_virtual; [by apply virtual_enable|]. intros w' Hw' Ea.
  eapply activeTimer_keeps; [done|by rewrite Ea|done].
Qed.

Lemma disable_with_ok m a x w : wf w -> alarms w !! a = Some x ->
  (state_ x <> kNone -> virtual_ok a m w) ->
  exists r w' x', disable_with m a w = Ret (r, w') /\ wf w' /\
    dom (alarms w') = dom (alarms w) /\ dom (calendars w') = dom (calendars w) /\
    alarms w' !! a = Some x' /\ timer_ x' = None.
Proof.
  intros Hw Ha Hm. unfold disable_with. rewrite (bind_Ret _ _ _ _ _ (get_alarm_ok _ _ _ Ha)).
  destruct (wf_lookup _ _ _ Hw Ha) as [Hc Ht].
  destruct (decide (state_ x = kRunning)) as [E|E].
  - destruct Hm as (w1 & Em & Hw1 & Ea & Ec); [by rewrite E|].
    rewrite (bind_Ret _ _ _ _ _ Em). rewrite <- Ea in Ha.
    rewrite (bind_Ret _ _ _ _ _ (update_alarm_ok _ _ _ _ Ha)).
    destruct (stays_update a x (fun x => with_timer None (with_state kInited x)) (fun _ => mret true) w1)
      as (r & w2 & E2 & Hw2 & D1 & D2); [done|done| |intros; by apply stays_ret|].
    { destruct (wf_lookup _ _ _ Hw1 Ha) as [Hc1 _]. split; [|done]. intros _. apply Hc1.
      by rewrite E. }
    rewrite (bind_Ret _ _ _ _ _ (update_alarm_ok _ _ _ _ Ha)) in E2. injection E2 as <- <-.
    eexists _, _, _. split; [reflexivity|]. rewrite D1, D2, Ea.
    split_and!; [done|done|done|apply lookup_insert_eq|done].
  - exists false, w, x. split_and!; try done. destruct (timer_ x); [|done].
    by destruct E; apply Ht.
Qed.

Lemma cleanup_with_keeps m a x w : wf w -> alarms w !! a = Some x ->
  (state_ x <> kNone -> virtual_ok a m w) -> stays_ok (cleanup_with m a) w.
Proof.
  intros Hw Ha Hm. unfold cleanup_with. eapply stays_get; [done|].
  destruct (decide (state_ x = kNone)) as [E|E]; [by apply stays_ret|].
  destruct (disable_with_ok m a x w Hw Ha Hm) as (r & w1 & x1 & Ed & Hw1 & D1 & D2 & Ha1 & Ht).
  eapply stays_step; [done..|].
  eapply stays_update_only; [done|done|]. split; [done|]. cbn. by rewrite Ht.
Qed.

Lemma refresh_keeps ck a x w : wf w -> alarms w !! a = Some x -> stays_ok (refresh ck a) w.
Proof.
  intros Hw Ha. unfold refresh. eapply stays_get; [done|]. pose proof (wf_lookup _ _ _ Hw Ha).
  destruct (decide (state_ x = kRunning)) as [E|E]; [|by apply stays_ret].
  assert (state_ x <> kNone) by (by rewrite E).
  eapply stays_update; [done|done|alarm_wf_tac|]. intros w' Hw' Ea Ec.
  apply stays_true. eapply activeTimer_keeps; [done|rewrite Ea; apply lookup_insert_eq|done].
Qed.

Lemma refresh_all_keeps ck l w : wf w -> (forall a, a ∈ l -> is_Some (alarms w !! a)) ->
  stays_ok (refresh_all ck l) w.
Proof.
  revert w. induction l as [|a l IH]; intros w Hw Hl; [by apply stays_ret|].
  destruct (Hl a) as [x Ha]; [left|]. cbn [refresh_all].
  apply stays_bind; [by eapply refresh_keeps|]. intros _ w' _ Hw' Da _. apply IH; [done|].
  intros b Hb. apply elem_of_dom. rewrite Da. apply elem_of_dom, Hl. by right.
Qed.

Lemma calendar_keeps ck c cal cal' w : wf w -> calendars w !! c = Some cal ->
  watch_alarms_ cal' = watch_alarms_ cal ->
  stays_ok (put_calendar c cal';; refresh_all ck (watch_alarms_ cal)) w.
Proof.
  intros Hw Hc El. eapply (stays_step _ _ _ () (set_calendars <[c := cal']> w));
    [done|done|by eapply dom_set_calendar|].
  apply refresh_all_keeps; [|cbn; intros a Hl; by eapply Hw].
  eapply wf_set_calendar; [done|done|]. rewrite El. auto.
Qed.

Lemma onTimeExpired_keeps ck a x w : wf w -> alarms w !! a = Some x -> timer_ x <> None ->
  stays_ok (onTimeExpired ck a) w.
Proof.
  intros Hw Ha Ht. unfold onTimeExpired. eapply stays_get; [done|].
  pose proof (wf_lookup _ _ _ Hw Ha) as Hx. pose proof (proj2 Hx Ht) as E.
  assert (state_ x <> kNone) by (by rewrite E).
  eapply stays_update; [done|done|alarm_wf_tac|]. intros w1 Hw1 Ea Ec.
  assert (alarms w1 !! a = Some (with_state kInited (with_timer None x))) as Ha1
    by (rewrite Ea; apply lookup_insert_eq).
  apply stays_bind.
  - destruct (a_kind x); [by apply stays_ret|apply stays_true; by eapply activeTimer_keeps..].
  - intros _ w2 _ Hw2 _ _. unfold when. destruct (cb_ x); [|by apply stays_ret].
    by eexists _, _.
Qed.

Lemma init_keeps a x k w : wf w -> alarms w !! a = Some x -> state_ x <> kRunning ->
  is_Some (calendar_of (calendars w) k) ->
  stays_ok (put_alarm a (with_state kInited (with_kind k x));; mret true) w.
Proof.
  intros Hw Ha Hs Hk. pose proof (wf_lookup _ _ _ Hw Ha) as [_ Ht].
  destruct (stays_update a x (fun x => with_state kInited (with_kind k x)) (fun _ => mret true) w)
    as (r & w' & E & H); [done|done| |intros; by apply stays_ret|].
  - split; [done|]. intros Hn. by destruct Hs; apply Ht.
  - exists r, w'. split; [|done]. rewrite <- E.
    by rewrite (bind_Ret _ _ _ _ _ (update_alarm_ok _ _ _ _ Ha)).
Qed.

Lemma stays_returns (m : MA ()) w : stays_ok m w -> exists w', m w = Ret ((), w') /\ wf w'.
Proof. intros ([] & w' & E & Hw & _). eauto. Qed.

Lemma wf_create a k w : wf w -> alarms w !! a = None -> wf (set_alarms <[a := new_alarm k]> w).
Proof.
  intros [Hx Hw] Ha. split.
  - apply map_Forall_insert_2; [by split|done].
  - intros c cal b Hc Hb. apply lookup_insert_is_Some'. right. by eapply Hw.
Qed.

Lemma wf_delete a w : wf w ->
  (forall c cal, calendars w !! c = Some cal -> a ∉ watch_alarms_ cal) ->
  wf (set_alarms (delete a) w).
Proof.
  intros [Hx Hw] Ha. split; [by apply map_Forall_delete|].
  intros c cal b Hc Hb. cbn in *. rewrite lookup_delete_ne; [by eapply Hw|].
  intros <-. by eapply Ha.
Qed.

Lemma destroy_ok a x w : wf w -> alarms w !! a = Some x ->
  (forall c cal, calendars w !! c = Some cal -> a ∉ watch_alarms_ cal) ->
  exists w', destroy a w = Ret ((), w') /\ wf w'.
Proof.
  intros Hw Ha Hn. unfold destroy.
  destruct (cleanup_with_keeps (mret true) a x w Hw Ha) as ([] & w1 & E & Hw1 & Da & Dc);
    [intros; by apply virtual_none|].
  rewrite (bind_Ret _ _ _ _ _ E). eexists. split; [reflexivity|]. apply wf_delete; [done|].
  assert (calendars w1 = calendars w) as Ecal.
  { clear - E Ha. revert E. unfold cleanup_with, disable_with.
    rewrite (bind_Ret _ _ _ _ _ (get_alarm_ok _ _ _ Ha)).
    destruct (decide (state_ x = kNone)); [by intros [= <-]|].
    intros (r & w2 & E1 & E2)%bind_Ret_inv.
    rewrite (bind_Ret _ _ _ _ _ (get_alarm_ok _ _ _ Ha)) in E1.
    assert (calendars w2 = calendars w) as <-.
    { destruct (decide (state_ x = kRunning)); [|by injection E1 as _ <-].
      apply bind_Ret_inv in E1 as (b & w3 & [= <- <-] & E1).
      rewrite (bind_Ret _ _ _ _ _ (update_alarm_ok _ _ _ _ Ha)) in E1. by injection E1 as _ <-. }
    revert E2. unfold update_alarm. intros (y & w4 & E3 & E2)%bind_Ret_inv.
    injection E2 as <-. unfold get_alarm, get, the in E3. cbn in E3.
    unfold mbind, M_bind in E3. destruct (alarms w2 !! a); [by injection E3 as _ <-|done]. }
  intros c cal. rewrite Ecal. apply Hn.
Qed.

Lemma exec_ok o w : wf w -> legal o w -> exists w', exec o w = Ret ((), w') /\ wf w'.
Proof.
  intros Hw Ho.
  destruct o as [a k|a s|a s m|a s c b|a z|a|ck a|a|a|ck a|a|ck a|ck c days|ck c mask];
    cbn [exec legal] in *;
    lazymatch type of Ho with _ = None => idtac | _ => destruct Ho as [x Ha] end;
    try (pose proof (wf_lookup _ _ _ Hw Ha) as Hx).
  - eexists. split; [reflexivity|]. by apply wf_create.
  - apply stays_returns, stays_true. unfold oneshot_initialize. eapply stays_get; [done|].
    destruct (decide _); [by apply stays_ret|]. destruct (negb _); [by apply stays_ret|].
    apply init_keeps; (done || by eexists).
  - apply stays_returns, stays_true. unfold weekly_initialize. eapply stays_get; [done|].
    destruct (decide _); [by apply stays_ret|]. do 2 (destruct (negb _); [by apply stays_ret|]).
    apply init_keeps; (done || by eexists).
  - destruct x as [x Ha']. apply stays_returns, stays_true. unfold workday_initialize.
    eapply stays_get; [done|].
    destruct (decide _); [by apply stays_ret|]. destruct (negb _); [by apply stays_ret|].
    destruct c as [c|]; [|by apply stays_ret]. apply init_keeps; try done. cbn. by apply Ha.
  - eapply stays_returns, stays_update_only; [done|done|alarm_wf_tac].
  - eapply stays_returns, stays_update_only; [done|done|alarm_wf_tac].
  - apply stays_returns, stays_true. by eapply enable_keeps.
  - apply stays_returns, stays_true. unfold disable. eapply stays_get; [done|].
    destruct (disable_with_ok (onDisable a (a_kind x)) a x w Hw Ha) as (r & w' & x' & E & H & ? & ? & _);
      [intros; by apply virtual_enable|]. by exists r, w'.
  - apply stays_returns. unfold cleanup. eapply stays_get; [done|].
    eapply cleanup_with_keeps; [done|done|]. intros. by apply virtual_enable.
  - apply stays_returns. by eapply refresh_keeps.
  - destruct x as [x Ha']. by eapply destroy_ok.
  - destruct Ha as [Ha Ht]. apply stays_returns. by eapply onTimeExpired_keeps.
  - apply stays_returns. unfold updateSpecialDays. eapply stays_get_calendar; [done|].
    by apply calendar_keeps.
  - apply stays_returns. unfold updateWeekMask. eapply stays_get_calendar; [done|].
    by apply calendar_keeps.
Qed.

(** Every call of a list is legal when its turn comes. *)
Fixpoint legal_run (l : list op) (w : world) : Prop :=
  match l with
  | [] => True
  | o :: l' => legal o w /\ forall w', exec o w = Ret ((), w') -> legal_run l' w'
  end.

(** Whatever calls a user makes on objects that exist, provided that no alarm
    is destroyed while a calendar watches it, every alarm and calendar that is
    reached through a pointer exists: no call is stuck, timers are armed only for
    alarms that run, and calendars watch living alarms only. *)
Theorem alarms_never_dangle l w : wf w -> legal_run l w -> exists w', run l w = Ret ((), w') /\ wf w'.
Proof.
  revert w. induction l as [|o l IH]; intros w Hw Hl; [by exists w|].
  destruct Hl as [Ho Hl]. destruct (exec_ok o w Hw Ho) as (w1 & E & Hw1).
  cbn [run]. rewrite (bind_Ret _ _ _ _ _ E). apply IH; auto.
Qed.

(** ** Examples and witnesses *)

(** Monday to Friday. *)
Definition workdays_text : list Z := str "0111110".

Example parse_mask_example : parse_mask workdays_text = 0x3E.
Proof. reflexivity. Qed.

(** Friday, 2022-10-21 08:30:00 is followed by Monday, 2022-10-24 08:30:00. *)
Example weekly_example : weekly_next 30600 0x3E 1666341000 = Some 1666600200.
Proof. vm_compute. reflexivity. Qed.

Lemma next_time_is_first_witness :
  next_spec (Weekly 30600 0x3E) new_calendar 1666341000
    (next_of (Weekly 30600 0x3E) new_calendar 1666341000).
Proof.
  apply (next_time_is_first (Weekly 30600 0x3E) new_calendar 1666341000);
    unfold valid_kind, kSecondsOfDay; cbn; lia.
Defined.

(** An alarm that goes off 5 ms before its time, 2022-10-21 08:30:00 UTC. *)
Definition early_clock : wall_clock := mkClock (Some (1666340999, 995000)) 0.

Definition early_alarm : alarm :=
  mkAlarm (Weekly 30600 0x3E) true 0 true kRunning 1666341000 (Some 0).

Lemma expired_alarm_is_rearmed_witness :
  exists w', onTimeExpired early_clock 0%nat (mkWorld {[ 0%nat := early_alarm ]} ∅ []) = Ret ((), w') /\
    fired w' = [] ++ [0%nat] /\
    exists y, alarms w' !! 0%nat = Some y /\
      state_ y = kRunning /\ target_utc_sec_ y = 1666600200 - 0 /\ 1666341000 < 1666600200 - 0 /\
      first_after (Weekly 30600 0x3E) new_calendar (1666341000 + 0) 1666600200 /\
      ((forall t', 1666341000 + 0 < t' -> occurrence (Weekly 30600 0x3E) new_calendar t' ->
          1666340999 + 0 < t') ->
       first_after (Weekly 30600 0x3E) new_calendar (1666341000 + 0) 1666600200) /\
      ((1666600200 - 0 - 1666340999) * 1000 < 2 ^ 32 -> waits_for w' 0%nat (1666600200 - 0) 1666340999 995000).
Proof.
  apply (expired_alarm_is_rearmed early_clock 0%nat early_alarm new_calendar 1666340999 995000
    (mkWorld {[ 0%nat := early_alarm ]} ∅ []));
    try reflexivity; unfold valid_kind, reads, in_bounds, kSecondsOfDay; cbn;
    try split_and!; try reflexivity; try discriminate; try lia.
Defined.

Definition always : kind := Workday 30600 None true.

(** A calendar, an alarm that uses it and a clock. *)
Definition calendar_world : world := mkWorld ∅ {[ 0%nat := new_calendar ]} [].
Definition noon : wall_clock := mkClock (Some (1666353600, 0)) 0.

Definition enable_workday : list op :=
  [Create 0 always; InitWorkday 0 30600 (Some 0%nat) true; SetCallback 0; Enable noon 0].

Lemma alarms_never_dangle_witness : exists w',
  run (enable_workday ++ [UpdateMask noon 0 0x7F; Disable 0; Destroy 0; UpdateMask noon 0 0])
    calendar_world = Ret ((), w') /\ wf w'.
Proof.
  apply (alarms_never_dangle
    (enable_workday ++ [UpdateMask noon 0 0x7F; Disable 0; Destroy 0; UpdateMask noon 0 0])
    calendar_world).
  - split; [apply map_Forall_empty|]. intros c cal a Hc Ha. cbn in Hc.
    apply lookup_singleton_Some in Hc as [<- <-]. by apply not_elem_of_nil in Ha.
  - cbn [enable_workday app legal_run].
    repeat match goal with
    | |- legal _ _ /\ _ => split; [cbn [legal]|]
    | |- forall w', exec _ _ = _ -> _ =>
        let H := fresh in intros ? H; vm_compute in H; injection H as <-
    | |- True => exact I
    end;
    try (eexists; vm_compute; reflexivity); try reflexivity.
    + split; [eexists; vm_compute; reflexivity|]. intros p [= <-]. eexists. vm_compute. reflexivity.
    + split; [eexists; vm_compute; reflexivity|]. intros c cal.
      match goal with |- ?m !! c = _ -> _ =>
        change m with ({[ 0%nat := mkCalendar 0x7F ∅ [] ]} : gmap nat calendar) end.
      intros [<- <-]%lookup_singleton_Some. apply not_elem_of_nil.
Defined.

(** A workday alarm that runs is destroyed: the destructor does not unsubscribe
    it, and the next change of the calendar uses it. *)
Example destroyed_alarm_dangles :
  run (enable_workday ++ [Destroy 0; UpdateMask noon 0 0x7F]) calendar_world = Stuck.
Proof. vm_compute. reflexivity. Qed.

(** So does one whose [enable] found no day, although it is not enabled. *)
Example failed_enable_dangles :
  run ([UpdateMask noon 0 0] ++ enable_workday ++ [Disable 0; Destroy 0; UpdateMask noon 0 0x7F])
    calendar_world = Stuck.
Proof. vm_compute. reflexivity. Qed.

(** Once a change of the calendar leaves an alarm without days, it has stopped, and
    the next change does not start it again. *)
Example stopped_for_good :
  (match run (enable_workday ++ [UpdateMask noon 0 0; UpdateMask noon 0 0x7F]) calendar_world with
   | Ret (_, w) => state_ <$> alarms w !! 0%nat
   | _ => None
   end) = Some kInited.
Proof. vm_compute. reflexivity. Qed.

(** A workday 60 days away: the milliseconds do not fit into 32 bits, and the timer
    expires after less than eleven days. *)
Example far_workday_expires_early :
  workday_next 0 (mkCalendar 0 {[ 60 := true ]} []) true 0 = Some (60 * 86400) /\
  wait_ms (60 * 86400) 0 0 = 889032704.
Proof. split; vm_compute; reflexivity. Qed.

Definition watched_world : world :=
  mkWorld {[ 0%nat := mkAlarm (Workday 30600 (Some 0%nat) true) true 0 true kRunning 1666600200 (Some 1) ]}
    {[ 0%nat := mkCalendar 0x3E ∅ [0%nat] ]} [].

Lemma calendar_change_reschedules_witness :
  let cals' := <[0%nat := mkCalendar 0x7F ∅ [0%nat]]> (calendars watched_world) in
  exists w', updateWeekMask noon 0 0x7F watched_world = Ret ((), w') /\
    calendars w' = cals' /\ fired w' = [] /\
    forall a, alarms w' !! a =
      if decide (a ∈ [0%nat]) then refreshed noon 1666353600 cals' <$> alarms watched_world !! a
      else alarms watched_world !! a.
Proof.
  apply (calendar_change_reschedules noon 0%nat (mkCalendar 0x3E ∅ [0%nat]) 1666353600 0
    watched_world ∅ 0x7F true); [split_and!; (reflexivity || lia)|reflexivity|].
  intros a ->%list_elem_of_singleton. eexists. split; [reflexivity|]. intros _.
  split_and!; [unfold valid_kind, kSecondsOfDay; cbn; lia|eexists; reflexivity|].
  unfold in_bounds, kSecondsOfDay; cbn; lia.
Defined.
