(* ===== verification/Action.v ===== *)
(** * Action: the action trees of flow

    [modules/flow/action.h], [action.cpp] and [modules/flow/actions/].
    Actions refer to each other by pointer and live in a store; the kind of an
    action is its class with the members of that class.  A finish or block
    callback is the bound member function of the parent; like in the code it is
    not called but posted to the loop.  The user's functions may answer
    differently at every call: what they answer depends on the calls made so
    far.  Calls go down the tree, so fuel above its depth is enough. *)
From S2P Require Import Prelude.

(** ** Data *)

Inductive astate := kIdle | kRunning | kPause | kFinished | kStoped.
Inductive aresult := kUnsure | kSuccess | kFail.

Record reason := mkReason { r_code : Z; r_message : string }.
Definition no_reason : reason := mkReason 0 "".

(** The identifiers of the actions that passed a result on. *)
Notation trace := (list nat).

Inductive multi_mode := kAllFinish | kAnyFail | kAnySucc.
Inductive loop_mode := kForever | kUntilFail | kUntilSucc.
Inductive repeat_mode := kNoBreak | kBreakFail | kBreakSucc.
Inductive wrapper_mode := kNormal | kInvert | kAlwaySucc | kAlwayFail.

Inductive kind :=
| Dummy
| FunctionA (f : option nat)
| SuccA
| FailA
| Sequence (mode : multi_mode) (index : nat) (children : list nat)
| Parallel (mode : multi_mode) (children : list nat) (finished : gmap nat bool)
| IfElse (if_ then_ else_ : option nat)
| IfThen (index : nat) (pairs : list (nat * nat)) (tmp : option nat)
| LoopA (mode : loop_mode) (child : option nat)
| LoopIf (if_ exec : option nat) (finish_result : bool)
| Repeat (mode : repeat_mode) (times remain : Z) (child : option nat)
| Switch (switch : option nat) (cases : gmap string nat) (default_ : option nat)
| Wrapper (mode : wrapper_mode) (child : option nat)
| Composite (child : option nat).

(** The finish callback of an action: the user's, or a member function of the
    parent. *)
Inductive handler :=
| HUser
| HLast (p : nat)                  (** [onLastChildFinished] *)
| HSequence (p : nat)
| HParallel (p : nat) (index : nat)
| HIfCond (p : nat)                (** [IfElseAction::onCondActionFinished] *)
| HIfThen (p : nat)                (** [IfThenAction::onIfActionFinished] *)
| HLoop (p : nat)
| HLoopIf (p : nat)                (** [LoopIfAction::onIfFinished] *)
| HLoopExec (p : nat)              (** [LoopIfAction::onExecFinished] *)
| HRepeat (p : nat)
| HSwitch (p : nat)
| HWrapper (p : nat).

Inductive block_handler := BUser | BBlock (p : nat) | BParallel (p : nat).

(** [child_finish_func_]: a handler kept for later, or a [finish]. *)
Inductive deferred :=
| DHandler (h : handler) (succ : bool) (why : reason) (tr : trace)
| DFinish (p : nat) (succ : bool) (why : reason) (tr : trace).

Record action := mkAction {
  a_kind : kind;
  a_state : astate;
  a_result : aresult;
  a_finish_cb : option handler;
  a_block_cb : option block_handler;
  a_parent : option nat;
  a_timer : option bool;           (** the timer, and whether it is enabled *)
  a_finish_id : Z;                 (** [finish_cb_run_id_] *)
  a_block_id : Z;                  (** [block_cb_run_id_] *)
  a_curr : option nat;             (** [curr_action_] *)
  a_pending : option deferred      (** [child_finish_func_] *)
}.

Definition new_action (k : kind) : action :=
  mkAction k kIdle kUnsure None None None None 0 0 None None.

Inductive task :=
| TFinish (h : handler) (succ : bool) (why : reason) (tr : trace)
| TBlock (b : block_handler) (why : reason) (tr : trace)
| TDeferred (d : deferred).

(** What the user observes. *)
Inductive obs :=
| OFinished (succ : bool) (why : reason) (tr : trace)
| OBlocked (why : reason) (tr : trace)
| OFinal (a : nat).

Record world := mkWorld {
  acts : gmap nat action;
  tasks : list (Z * task);         (** the next-tasks of the loop *)
  next_id : Z;
  funcs : list nat;                (** the functions called so far *)
  seen : list obs
}.

Definition set_kind (k : kind) (a : action) : action :=
  mkAction k (a_state a) (a_result a) (a_finish_cb a) (a_block_cb a) (a_parent a) (a_timer a) (a_finish_id a) (a_block_id a) (a_curr a) (a_pending a).
Definition set_state (s : astate) (a : action) : action :=
  mkAction (a_kind a) s (a_result a) (a_finish_cb a) (a_block_cb a) (a_parent a) (a_timer a) (a_finish_id a) (a_block_id a) (a_curr a) (a_pending a).
Definition set_result (r : aresult) (a : action) : action :=
  mkAction (a_kind a) (a_state a) r (a_finish_cb a) (a_block_cb a) (a_parent a) (a_timer a) (a_finish_id a) (a_block_id a) (a_curr a) (a_pending a).
Definition set_cbs (h : handler) (b : block_handler) (a : action) : action :=
  mkAction (a_kind a) (a_state a) (a_result a) (Some h) (Some b) (a_parent a) (a_timer a) (a_finish_id a) (a_block_id a) (a_curr a) (a_pending a).
Definition set_parent (p : option nat) (a : action) : action :=
  mkAction (a_kind a) (a_state a) (a_result a) (a_finish_cb a) (a_block_cb a) p (a_timer a) (a_finish_id a) (a_block_id a) (a_curr a) (a_pending a).
Definition set_timer (t : option bool) (a : action) : action :=
  mkAction (a_kind a) (a_state a) (a_result a) (a_finish_cb a) (a_block_cb a) (a_parent a) t (a_finish_id a) (a_block_id a) (a_curr a) (a_pending a).
Definition set_ids (f b : Z) (a : action) : action :=
  mkAction (a_kind a) (a_state a) (a_result a) (a_finish_cb a) (a_block_cb a) (a_parent a) (a_timer a) f b (a_curr a) (a_pending a).
Definition set_curr (c : option nat) (a : action) : action :=
  mkAction (a_kind a) (a_state a) (a_result a) (a_finish_cb a) (a_block_cb a) (a_parent a) (a_timer a) (a_finish_id a) (a_block_id a) c (a_pending a).
Definition set_pending (d : option deferred) (a : action) : action :=
  mkAction (a_kind a) (a_state a) (a_result a) (a_finish_cb a) (a_block_cb a) (a_parent a) (a_timer a) (a_finish_id a) (a_block_id a) (a_curr a) d.

(** [timer_ev_->enable()] and [disable()], when there is a timer. *)
Definition timer_on (b : bool) (a : action) : action :=
  match a_timer a with Some _ => set_timer (Some b) a | None => a end.

(** ** The loop and the store *)

(** [*a] *)
Definition act (a : nat) : M world action := w ← get; the (acts w !! a).

Definition upd (a : nat) (f : action -> action) : M world () :=
  modify (fun w => mkWorld (alter f a (acts w)) (tasks w) (next_id w) (funcs w) (seen w)).

Definition observe (o : obs) : M world () :=
  modify (fun w => mkWorld (acts w) (tasks w) (next_id w) (funcs w) (seen w ++ [o])).

Definition runNext (t : task) : M world Z :=
  w ← get;
  let id := next_id w + 2 in
  put (mkWorld (acts w) (tasks w ++ [(id, t)]) id (funcs w) (seen w));; mret id.

Definition loop_cancel (id : Z) : M world () :=
  modify (fun w => mkWorld (acts w) (filter (fun t => t.1 <> id) (tasks w)) (next_id w) (funcs w) (seen w)).

(** ** Action *)

Definition is_underway (s : astate) : bool := match s with kRunning | kPause => true | _ => false end.
Definition is_over (s : astate) : bool := match s with kFinished | kStoped => true | _ => false end.

Definition is_assemble (k : kind) : bool :=
  match k with Dummy | FunctionA _ | SuccA | FailA => false | _ => true end.
Definition is_serial (k : kind) : bool :=
  match k with Parallel _ _ _ => false | _ => is_assemble k end.

(** [onFinal]: the user's final callback, for the assembling actions. *)
Definition onFinal (a : nat) : M world () :=
  s ← act a; when (is_assemble (a_kind s)) (observe (OFinal a)).

Definition cancelDispatchedCallback (a : nat) : M world () :=
  s ← act a;
  when (negb (a_finish_id s =? 0)) (loop_cancel (a_finish_id s));;
  when (negb (a_block_id s =? 0)) (loop_cancel (a_block_id s));;
  upd a (set_ids 0 0).

(** [for (auto child : children) f(child)] *)
Fixpoint each (f : nat -> M world ()) (l : list nat) : M world () :=
  match l with [] => mret () | c :: l' => f c;; each f l' end.

(** *** stop *)

Fixpoint stop (fuel : nat) (a : nat) : M world () :=
  match fuel with
  | O => out_of_fuel
  | S f =>
      s ← act a;
      if negb (is_underway (a_state s)) then mret ()
      else
        upd a (set_state kStoped);;
        upd a (timer_on false);;
        (* onStop *)
        match a_kind s with
        | Parallel _ children _ => each (stop f) children
        | k => when (is_serial k)
                 (match a_curr s with
                  | Some c => stop f c;; upd a (set_curr None)
                  | None => mret ()
                  end;;
                  upd a (set_pending None))
        end;;
        onFinal a
  end.

(** [stopCurrAction] *)
Definition stopCurrAction (fuel : nat) (a : nat) : M world () :=
  s ← act a;
  match a_curr s with Some c => stop fuel c;; upd a (set_curr None) | None => mret () end.

(** *** finish and block *)

Definition result_of (succ : bool) : aresult := if succ then kSuccess else kFail.

Definition finish (fuel : nat) (a : nat) (succ : bool) (why : reason) (tr : trace) : M world () :=
  s ← act a;
  if negb (is_over (a_state s)) then
    upd a (set_state kFinished);;
    upd a (timer_on false);;
    (* onFinished *)
    match a_kind s with Composite _ => stopCurrAction fuel a | _ => mret () end;;
    upd a (set_result (result_of succ));;
    match a_finish_cb s with
    | Some h => id ← runNext (TFinish h succ why (tr ++ [a])); upd a (fun s => set_ids id (a_block_id s) s)
    | None => mret ()
    end;;
    onFinal a
  else mret ().

Definition block (a : nat) (why : reason) (tr : trace) : M world () :=
  s ← act a;
  if negb (is_over (a_state s)) then
    upd a (set_state kPause);;
    match a_block_cb s with
    | Some b => id ← runNext (TBlock b why (tr ++ [a])); upd a (fun s => set_ids (a_finish_id s) id s)
    | None => mret ()
    end
  else mret ().

(** *** start *)

Section Functions.
(** What the function [f] answers after the given calls: its result, and the
    reason it sets, if any. *)
Context (func : nat -> list nat -> bool * option reason).

Definition call_func (f : nat) : M world (bool * reason) :=
  w ← get;
  put (mkWorld (acts w) (tasks w) (next_id w) (funcs w ++ [f]) (seen w));;
  let '(r, why) := func f (funcs w) in
  mret (r, default (mkReason 2 "FunctionAction") why).

(** [ParallelAction::onStart] from the child [index] on; [start] starts a child. *)
Fixpoint startAll (start : nat -> M world bool) (fuel a : nat) (mode : multi_mode)
    (children : list nat) (index : nat) (rest : list nat) : M world () :=
  match rest with
  | [] =>
      s ← act a;
      match a_kind s with
      | Parallel _ _ finished =>
          when (size finished =? length children)%nat (finish fuel a true no_reason [])
      | _ => stuck
      end
  | c :: rest' =>
      ok ← start c;
      if (ok : bool) then startAll start fuel a mode children (S index) rest'
      else
        upd a (fun s => match a_kind s with
                        | Parallel m cs finished => set_kind (Parallel m cs (<[index := false]> finished)) s
                        | _ => s
                        end);;
        match mode with
        | kAnyFail => finish fuel a true no_reason [];; each (stop fuel) children
        | _ => startAll start fuel a mode children (S index) rest'
        end
  end.

(** [startThisAction] with [start] to start the child. *)
Definition start_this (start : nat -> M world bool) (a c : nat) : M world bool :=
  ok ← start c;
  if (ok : bool) then upd a (set_curr (Some c));; mret true else mret false.

(** [startOtheriseFinish] *)
Definition start_or_finish (start : nat -> M world bool) (fuel p : nat) (succ : bool) (why : reason)
    (tr : trace) : M world () :=
  s ← act p;
  match a_kind s with
  | Sequence _ index children =>
      match children !! index with
      | Some c => ok ← start_this start p c;
                  if (ok : bool) then mret () else finish fuel p false (mkReason 6 "StartChildFail") []
      | None => finish fuel p succ why tr
      end
  | _ => stuck
  end.

Definition onStart (start : nat -> M world bool) (fuel a : nat) : M world () :=
  s ← act a;
  match a_kind s with
  | Dummy => mret ()
  | FunctionA None => stuck
  | FunctionA (Some fn) => '(r, why) ← call_func fn; finish fuel a r why []
  | SuccA => finish fuel a true (mkReason 4 "SuccAction") []
  | FailA => finish fuel a false (mkReason 5 "FailAction") []
  | Sequence _ _ _ => start_or_finish start fuel a true no_reason []
  | Parallel mode children _ => startAll start fuel a mode children 0 children
  | IfElse (Some c) _ _ => start_this start a c;; mret ()
  | IfThen _ pairs tmp =>
      upd a (set_kind (IfThen 0 pairs tmp));;
      match pairs with
      | (c, _) :: _ => start_this start a c;; mret ()
      | [] => finish fuel a false (mkReason 10 "IfThenSkip") []
      end
  | LoopA _ (Some c) | LoopIf (Some c) _ _ | Switch (Some c) _ _ | Wrapper _ (Some c)
  | Composite (Some c) => start_this start a c;; mret ()
  | Repeat mode times remain (Some c) =>
      upd a (set_kind (Repeat mode times (u64 (times - 1)) (Some c)));;
      start_this start a c;; mret ()
  | _ => stuck
  end.

Fixpoint start (fuel : nat) (a : nat) : M world bool :=
  match fuel with
  | O => out_of_fuel
  | S f =>
      s ← act a;
      match a_state s with
      | kRunning => mret true
      | kIdle =>
          onStart (start f) f a;;
          s' ← act a;
          match a_state s' with
          | kIdle => upd a (timer_on true);; upd a (set_state kRunning)
          | _ => mret ()
          end;;
          mret true
      | _ => mret false
      end
  end.

(** [startThisAction(c)] of the action [a]. *)
Definition startThisAction (fuel : nat) (a c : nat) : M world bool := start_this (start fuel) a c.
End Functions.

(** *** pause, resume and reset *)

Fixpoint pause (fuel : nat) (a : nat) : M world bool :=
  match fuel with
  | O => out_of_fuel
  | S f =>
      s ← act a;
      match a_state s with
      | kPause => mret true
      | kRunning =>
          (* onPause *)
          match a_kind s with
          | Parallel _ children _ => each (fun c => pause f c;; mret ()) children
          | k => when (is_serial k)
                   (match a_curr s with Some c => pause f c;; mret () | None => mret () end)
          end;;
          s' ← act a;
          match a_state s' with
          | kRunning => upd a (timer_on false);; upd a (set_state kPause)
          | _ => mret ()
          end;;
          mret true
      | _ => mret false
      end
  end.

Fixpoint resume (fuel : nat) (a : nat) : M world bool :=
  match fuel with
  | O => out_of_fuel
  | S f =>
      s ← act a;
      match a_state s with
      | kRunning => mret true
      | kPause =>
          (* onResume *)
          match a_kind s with
          | Parallel _ children _ =>
              each (fun c => sc ← act c;
                             match a_state sc with kPause => resume f c;; mret () | _ => mret () end) children
          | k => when (is_serial k)
                   (match a_curr s, a_pending s with
                    | Some c, _ => resume f c;; mret ()
                    | None, Some d => runNext (TDeferred d);; upd a (set_pending None)
                    | None, None => mret ()
                    end)
          end;;
          s' ← act a;
          match a_state s' with
          | kPause => upd a (timer_on true);; upd a (set_state kRunning)
          | _ => mret ()
          end;;
          mret true
      | _ => mret false
      end
  end.

Definition opt_list {A} (o : option A) : list A := match o with Some a => [a] | None => [] end.

(** The children, in the order [onReset] resets them. *)
Definition kids (k : kind) : list nat :=
  match k with
  | Dummy | FunctionA _ | SuccA | FailA => []
  | Sequence _ _ children | Parallel _ children _ => children
  | IfElse i t e => opt_list i ++ opt_list t ++ opt_list e
  | IfThen _ pairs _ => pairs ≫= (fun p => [p.1; p.2])
  | LoopA _ c | Repeat _ _ _ c | Wrapper _ c | Composite c => opt_list c
  | LoopIf i e _ => opt_list i ++ opt_list e
  | Switch s cases d => opt_list s ++ opt_list d ++ (map_to_list cases).*2
  end.

(** The members that [onReset] clears, and the assertions on the children. *)
Definition reset_kind (k : kind) : option kind :=
  match k with
  | Sequence mode _ children => Some (Sequence mode 0 children)
  | Parallel mode children _ => Some (Parallel mode children ∅)
  | IfThen _ pairs tmp => Some (IfThen 0 pairs tmp)
  | IfElse None _ _ | LoopA _ None | LoopIf None _ _ | LoopIf _ None _ | Repeat _ _ _ None
  | Switch None _ _ | Wrapper _ None | Composite None => None
  | k => Some k
  end.

Fixpoint reset (fuel : nat) (a : nat) : M world () :=
  match fuel with
  | O => out_of_fuel
  | S f =>
      s ← act a;
      match a_state s with
      | kIdle => mret ()
      | _ =>
          (* onReset *)
          k ← the (reset_kind (a_kind s));
          upd a (set_kind k);;
          each (reset f) (kids k);;
          when (is_serial k) (upd a (set_curr None);; upd a (set_pending None));;
          upd a (timer_on false);;
          cancelDispatchedCallback a;;
          upd a (set_state kIdle);;
          upd a (set_result kUnsure)
      end
  end.

(** *** Timeouts *)

Definition setTimeout (a : nat) : M world () :=
  upd a (fun s => set_timer (Some (match a_state s with kRunning => true | _ => false end)) s).

Definition resetTimeout (a : nat) : M world () := upd a (set_timer None).

(** The oneshot timer fires. *)
Definition timeout (fuel : nat) (a : nat) : M world () :=
  s ← act a;
  match a_timer s with
  | Some true => upd a (set_timer (Some false));; finish fuel a false (mkReason 1 "ActionTimeout") []
  | _ => mret ()
  end.

(** ** The callbacks of the children *)

Section Handlers.
Context (func : nat -> list nat -> bool * option reason) (fuel : nat).

Notation start_child := (startThisAction func fuel).

(** [handleChildFinishEvent]: whether the event is dealt with. *)
Definition handleChildFinishEvent (p : nat) (d : deferred) : M world bool :=
  upd p (set_curr None);;
  s ← act p;
  match a_state s with
  | kRunning => mret false
  | kPause => upd p (set_pending (Some d));; mret true
  | _ => mret true
  end.

Definition onLastChildFinished (p : nat) (succ : bool) (why : reason) (tr : trace) : M world () :=
  upd p (set_curr None);;
  s ← act p;
  match a_state s with
  | kRunning => finish fuel p succ why tr
  | kPause => upd p (set_pending (Some (DFinish p succ why tr)))
  | _ => mret ()
  end.

Definition startOtheriseFinish (p : nat) (succ : bool) (why : reason) (tr : trace) : M world () :=
  start_or_finish (start func fuel) fuel p succ why tr.

Definition onSequenceChild (p : nat) (succ : bool) (why : reason) (tr : trace) : M world () :=
  s ← act p;
  match a_kind s with
  | Sequence mode index children =>
      if (match mode with kAnySucc => succ | kAnyFail => negb succ | kAllFinish => false end)
      then finish fuel p succ why tr
      else upd p (set_kind (Sequence mode (S index) children));; startOtheriseFinish p succ why tr
  | _ => stuck
  end.

Definition onCondActionFinished (p : nat) (succ : bool) (why : reason) (tr : trace) : M world () :=
  s ← act p;
  match a_kind s with
  | IfElse _ then_ else_ =>
      match (if succ then then_ else else_) with
      | Some c => start_child p c;; mret ()
      | None => finish fuel p true why tr
      end
  | _ => stuck
  end.

Definition onIfActionFinished (p : nat) (succ : bool) : M world () :=
  s ← act p;
  match a_kind s with
  | IfThen index pairs tmp =>
      if succ then
        match pairs !! index with Some (_, c) => start_child p c;; mret () | None => stuck end
      else
        upd p (set_kind (IfThen (S index) pairs tmp));;
        match pairs !! S index with
        | Some (c, _) => start_child p c;; mret ()
        | None => finish fuel p false (mkReason 10 "IfThenSkip") []
        end
  | _ => stuck
  end.

Definition onLoopChild (p : nat) (succ : bool) (why : reason) (tr : trace) : M world () :=
  s ← act p;
  match a_kind s with
  | LoopA mode (Some c) =>
      if (match mode with kUntilSucc => succ | kUntilFail => negb succ | kForever => false end)
      then finish fuel p succ why tr
      else reset fuel c;; start_child p c;; mret ()
  | _ => stuck
  end.

Definition onIfFinished (p : nat) (succ : bool) (why : reason) (tr : trace) : M world () :=
  s ← act p;
  match a_kind s with
  | LoopIf _ exec res =>
      if succ then match exec with Some c => start_child p c;; mret () | None => stuck end
      else finish fuel p res why tr
  | _ => stuck
  end.

Definition onExecFinished (p : nat) (why : reason) (tr : trace) : M world () :=
  s ← act p;
  match a_kind s with
  | LoopIf (Some i) (Some e) res =>
      reset fuel i;; reset fuel e;;
      ok ← start_child p i;
      if (ok : bool) then mret () else finish fuel p res why tr
  | _ => stuck
  end.

Definition onRepeatChild (p : nat) (succ : bool) (why : reason) (tr : trace) : M world () :=
  s ← act p;
  match a_kind s with
  | Repeat mode times remain (Some c) =>
      if (match mode with kBreakSucc => succ | kBreakFail => negb succ | kNoBreak => false end)
      then finish fuel p succ why tr
      else if 0 <? remain then
        reset fuel c;; start_child p c;;
        upd p (fun s => match a_kind s with
                        | Repeat m t r c' => set_kind (Repeat m t (u64 (r - 1)) c') s
                        | _ => s end)
      else finish fuel p true (mkReason 7 "RepeatNoTimes") []
  | _ => stuck
  end.

Definition onSwitchActionFinished (p : nat) (succ : bool) (why : reason) : M world () :=
  s ← act p;
  match a_kind s with
  | Switch _ cases default_ =>
      if succ then
        match cases !! r_message why, default_ with
        | Some c, _ | None, Some c => start_child p c;; mret ()
        | None, None => finish fuel p false (mkReason 9 "SwitchSkip") []
        end
      else finish fuel p false (mkReason 8 "SwitchFail") []
  | _ => stuck
  end.

Definition onWrapperChild (p : nat) (succ : bool) (why : reason) (tr : trace) : M world () :=
  s ← act p;
  match a_kind s with
  | Wrapper mode _ =>
      finish fuel p (match mode with kNormal => succ | kInvert => negb succ
                     | kAlwaySucc => true | kAlwayFail => false end) why tr
  | _ => stuck
  end.

Definition onParallelChild (p index : nat) (succ : bool) : M world () :=
  s ← act p;
  match a_state s, a_kind s with
  | kRunning, Parallel mode children finished =>
      let finished := <[index := succ]> finished in
      upd p (set_kind (Parallel mode children finished));;
      if (match mode with kAnySucc => succ | kAnyFail => negb succ | kAllFinish => false end)
      then each (stop fuel) children;; finish fuel p true no_reason []
      else when (size finished =? length children)%nat (finish fuel p true no_reason [])
  | kRunning, _ => stuck
  | _, _ => mret ()
  end.

Definition onChildBlocked (p : nat) (why : reason) (tr : trace) : M world () :=
  s ← act p;
  match a_state s, a_kind s with
  | kRunning, Parallel _ children _ => each (fun c => pause fuel c;; mret ()) children;; block p why tr
  | kRunning, _ => stuck
  | _, _ => mret ()
  end.

(** The handlers that begin with [handleChildFinishEvent]. *)
Definition handle_child (h : handler) (succ : bool) (why : reason) (tr : trace) : M world () :=
  let guarded p (m : M world ()) :=
    done ← handleChildFinishEvent p (DHandler h succ why tr);
    if (done : bool) then mret () else m in
  match h with
  | HUser => observe (OFinished succ why tr)
  | HLast p => onLastChildFinished p succ why tr
  | HParallel p index => onParallelChild p index succ
  | HSequence p => guarded p (onSequenceChild p succ why tr)
  | HIfCond p => guarded p (onCondActionFinished p succ why tr)
  | HIfThen p => guarded p (onIfActionFinished p succ)
  | HLoop p => guarded p (onLoopChild p succ why tr)
  | HLoopIf p => guarded p (onIfFinished p succ why tr)
  | HLoopExec p => guarded p (onExecFinished p why tr)
  | HRepeat p => guarded p (onRepeatChild p succ why tr)
  | HSwitch p => guarded p (onSwitchActionFinished p succ why)
  | HWrapper p => guarded p (onWrapperChild p succ why tr)
  end.

Definition run_task (t : task) : M world () :=
  match t with
  | TFinish h succ why tr => handle_child h succ why tr
  | TBlock BUser why tr => observe (OBlocked why tr)
  | TBlock (BBlock p) why tr => block p why tr
  | TBlock (BParallel p) why tr => onChildBlocked p why tr
  | TDeferred (DHandler h succ why tr) => handle_child h succ why tr
  | TDeferred (DFinish p succ why tr) => finish fuel p succ why tr
  end.

(** The loop runs its next task. *)
Definition step : M world () :=
  w ← get;
  match tasks w with
  | [] => mret ()
  | (_, t) :: rest => put (mkWorld (acts w) rest (next_id w) (funcs w) (seen w));; run_task t
  end.

Fixpoint steps (n : nat) : M world () :=
  match n with O => mret () | S n' => step;; steps n' end.
End Handlers.

(** ** Building trees *)

(** [setParent]; with a null pointer the code takes the address of a member of
    the object that is not there. *)
Definition setParent (a : nat) (parent : option nat) : M world bool :=
  s ← act a;
  match parent, a_parent s with
  | Some _, Some _ => mret false
  | Some p, None => upd a (set_parent (Some p));; mret true
  | None, _ => stuck
  end.

(** [delete action]: the destructors delete the children. *)
Fixpoint delete_action (fuel : nat) (a : nat) : M world () :=
  match fuel with
  | O => out_of_fuel
  | S f =>
      s ← act a;
      each (delete_action f) (kids (a_kind s));;
      cancelDispatchedCallback a;;
      modify (fun w => mkWorld (delete a (acts w)) (tasks w) (next_id w) (funcs w) (seen w))
  end.

(** [CHECK_DELETE_RESET_OBJ(child_)] *)
Definition delete_old (fuel : nat) (c : option nat) : M world () :=
  match c with Some c => delete_action fuel c | None => mret () end.

Definition is_case (role : string) : bool := String.prefix "case:" role.

Section Build.
Context (fuel : nat).

(** Make [c] a child of [p], and continue when it has no other parent. *)
Definition adopt (p c : nat) (h : handler) (b : block_handler) (m : M world Z) (fail : Z) : M world Z :=
  ok ← setParent c (Some p);
  if (ok : bool) then upd c (set_cbs h b);; m else mret fail.

Definition addChild (p : nat) (child : option nat) : M world Z :=
  s ← act p;
  match a_kind s, child with
  | Sequence mode index children, Some c =>
      adopt p c (HSequence p) (BBlock p)
        (upd p (set_kind (Sequence mode index (children ++ [c])));; mret (Z.of_nat (length children))) 0
  | Sequence _ _ _, None => mret 0
  | Parallel mode children finished, Some c =>
      adopt p c (HParallel p (length children)) (BParallel p)
        (upd p (set_kind (Parallel mode (children ++ [c]) finished));; mret (Z.of_nat (length children))) (-1)
  | _, _ => mret (-1)
  end.

Definition setChild (p : nat) (child : option nat) : M world Z :=
  s ← act p;
  let put_child c h old k :=
    adopt p c h (BBlock p) (delete_old fuel old;; upd p (set_kind k);; mret 1) 0 in
  match a_kind s, child with
  | LoopA mode old, Some c => put_child c (HLoop p) old (LoopA mode (Some c))
  | Repeat mode t r old, Some c => put_child c (HRepeat p) old (Repeat mode t r (Some c))
  | Wrapper mode old, Some c => put_child c (HWrapper p) old (Wrapper mode (Some c))
  | Composite old, Some c => put_child c (HLast p) old (Composite (Some c))
  | _, _ => mret 0
  end.

Definition setChildAs (p : nat) (child : option nat) (role : string) : M world Z :=
  s ← act p;
  match child with
  | None => mret 0
  | Some c =>
      match a_kind s with
      | IfElse _ _ _ | LoopIf _ _ _ | Switch _ _ _ =>
          ok ← setParent c (Some p);
          if negb ok then mret 0
          else
            let install h old k :=
              upd c (set_cbs h (BBlock p));; delete_old fuel old;; upd p (set_kind k);; mret 1 in
            let unsupported := setParent c None;; mret 0 in
            match a_kind s with
            | IfElse i t e =>
                if String.eqb role "if" then install (HIfCond p) i (IfElse (Some c) t e)
                else if String.eqb role "succ" || String.eqb role "then" then install (HLast p) t (IfElse i (Some c) e)
                else if String.eqb role "fail" || String.eqb role "else" then install (HLast p) e (IfElse i t (Some c))
                else unsupported
            | LoopIf i e r =>
                if String.eqb role "if" then install (HLoopIf p) i (LoopIf (Some c) e r)
                else if String.eqb role "exec" then install (HLoopExec p) e (LoopIf i (Some c) r)
                else unsupported
            | Switch sw cases d =>
                if String.eqb role "switch" then install (HSwitch p) sw (Switch (Some c) cases d)
                else if String.eqb role "default" then install (HLast p) d (Switch sw cases (Some c))
                else if is_case role then
                  match cases !! role with
                  | None => install (HLast p) None (Switch sw (<[role := c]> cases) d)
                  | Some _ => unsupported
                  end
                else unsupported
            | _ => mret 0
            end
      | _ => mret 0
      end
  end.

Definition addChildAs (p : nat) (child : option nat) (role : string) : M world Z :=
  s ← act p;
  match a_kind s, child with
  | IfThen index pairs tmp, Some c =>
      if String.eqb role "if" then
        match tmp with
        | Some _ => mret (-1)
        | None =>
            adopt p c (HIfThen p) (BBlock p)
              (upd p (set_kind (IfThen index pairs (Some c)));; mret (Z.of_nat (length pairs))) (-1)
        end
      else if String.eqb role "then" then
        match tmp with
        | None => mret (-1)
        | Some i =>
            adopt p c (HLast p) (BBlock p)
              (upd p (set_kind (IfThen index (pairs ++ [(i, c)]) None));; mret (Z.of_nat (length pairs))) (-1)
        end
      else mret (-1)
  | _, _ => mret (-1)
  end.
End Build.

Fixpoint all_ready (f : nat -> M world bool) (l : list nat) : M world bool :=
  match l with
  | [] => mret true
  | c :: l' => ok ← f c; if (ok : bool) then all_ready f l' else mret false
  end.

Fixpoint isReady (fuel : nat) (a : nat) : M world bool :=
  match fuel with
  | O => out_of_fuel
  | S f =>
      s ← act a;
      match a_kind s with
      | Dummy | SuccA | FailA => mret true
      | FunctionA fn => mret (match fn with Some _ => true | None => false end)
      | Sequence _ _ children | Parallel _ children _ => all_ready (isReady f) children
      | IfElse (Some i) t e =>
          match t, e with
          | None, None => mret false
          | _, _ => all_ready (isReady f) (i :: opt_list t ++ opt_list e)
          end
      | IfThen _ pairs tmp => mret (match tmp, pairs with None, _ :: _ => true | _, _ => false end)
      | LoopA _ (Some c) | Repeat _ _ _ (Some c) | Wrapper _ (Some c) | Composite (Some c) => isReady f c
      | LoopIf (Some i) (Some e) _ => all_ready (isReady f) [i; e]
      | Switch (Some sw) cases d =>
          match d, map_to_list cases with
          | None, [] => mret false
          | _, l => all_ready (isReady f) (sw :: opt_list d ++ l.*2)
          end
      | _ => mret false
      end
  end.

(** ** An example

    A sequence of a function and a repeated function, as a program runs it. *)

Definition fn_table (f : nat) (h : list nat) : bool * option reason :=
  (negb (f =? 3)%nat || (length h <? 3)%nat, None).

Definition world0 (l : list (nat * kind)) : world :=
  mkWorld (list_to_map (map (fun p => (p.1, new_action p.2)) l)) [] 1 [] [].

Definition action_demo : M world bool :=
  addChild 0 (Some 1%nat);; addChild 0 (Some 2%nat);; setChild 5 2 (Some 3%nat);;
  upd 0 (set_cbs HUser BUser);;
  ok ← start fn_table 5 0; steps fn_table 5 20;; mret ok.

Example action_demo_ok :
  match action_demo (world0 [(0%nat, Sequence kAnyFail 0 []); (1%nat, FunctionA (Some 8%nat));
                      (2%nat, Repeat kBreakFail 7 0 None); (3%nat, FunctionA (Some 3%nat))]) with
  | Ret (ok, w) => ok = true /\ funcs w = [8; 3; 3; 3]%nat /\
      seen w = [OFinal 2; OFinal 0; OFinished false (mkReason 2 "FunctionAction") [3; 2; 0]%nat]
  | _ => False
  end.
Proof. vm_compute. repeat split. Qed.
