(* ===== verification/ActionSem.v ===== *)
(** * ActionSem: action trees as structured programs

    The headers of the actions describe them as programs: a sequence, a
    conditional, a loop.  [eval] is that meaning, as a big-step semantics of
    trees of serial actions over functions; the main result is that starting a
    tree and running the loop computes it: the functions are called in the order
    of the program, and the tree finishes with the result and the reason of the
    program.  Also here: what a parallel action loses when it is paused. *)
From S2P Require Import Prelude Action.

(** ** Trees *)

Inductive shape :=
| SFunc (f : nat) | SSucc | SFail
| SSeq (mode : multi_mode)
| SIf (has_then has_else : bool)          (** [if; then?; else?] *)
| SIfThen                                 (** [if; then; if; then; ...] *)
| SLoop (mode : loop_mode)
| SLoopIf (finish_result : bool)          (** [if; exec] *)
| SRepeat (mode : repeat_mode) (times : Z)
| SSwitch (labels : list string) (has_default : bool)   (** [switch; cases; default?] *)
| SWrap (mode : wrapper_mode)
| SComp.

#[warnings="-register-all"]
Inductive tree := Node (id : nat) (s : shape) (cs : list tree).

Definition root (t : tree) : nat := match t with Node id _ _ => id end.
Definition sub (t : tree) : list tree := match t with Node _ _ cs => cs end.

Fixpoint tree_ids (t : tree) : list nat :=
  match t with Node id _ cs => id :: flat_map tree_ids cs end.

Fixpoint depth (t : tree) : nat :=
  match t with Node _ _ cs => S (list_max (map depth cs)) end.

Fixpoint pairs {A} (l : list A) : list (A * A) :=
  match l with a :: b :: l' => (a, b) :: pairs l' | _ => [] end.

Definition node_kind (s : shape) (l : list nat) : kind :=
  match s with
  | SFunc f => FunctionA (Some f)
  | SSucc => SuccA
  | SFail => FailA
  | SSeq mode => Sequence mode 0 l
  | SIf ht he => IfElse (l !! 0%nat) (if ht then l !! 1%nat else None)
                   (if he then l !! (if ht then 2%nat else 1%nat) else None)
  | SIfThen => IfThen 0 (pairs l) None
  | SLoop mode => LoopA mode (l !! 0%nat)
  | SLoopIf res => LoopIf (l !! 0%nat) (l !! 1%nat) res
  | SRepeat mode times => Repeat mode times 0 (l !! 0%nat)
  | SSwitch labels d => Switch (l !! 0%nat) (list_to_map (zip labels (tail l)))
                          (if d then l !! S (length labels) else None)
  | SWrap mode => Wrapper mode (l !! 0%nat)
  | SComp => Composite (l !! 0%nat)
  end.

(** The number of children. *)
Definition arity (s : shape) (n : nat) : Prop :=
  match s with
  | SFunc _ | SSucc | SFail => n = 0%nat
  | SSeq _ => True
  | SIf ht he => n = (1 + Nat.b2n ht + Nat.b2n he)%nat
  | SIfThen => Nat.even n = true
  | SLoop _ | SRepeat _ _ | SWrap _ | SComp => n = 1%nat
  | SLoopIf _ => n = 2%nat
  | SSwitch labels d => n = (1 + length labels + Nat.b2n d)%nat /\ NoDup labels
  end.

Definition child_handler (s : shape) (p : nat) (i : nat) : handler :=
  match s with
  | SSeq _ => HSequence p
  | SIf _ _ => if (i =? 0)%nat then HIfCond p else HLast p
  | SIfThen => if Nat.even i then HIfThen p else HLast p
  | SLoop _ => HLoop p
  | SLoopIf _ => if (i =? 0)%nat then HLoopIf p else HLoopExec p
  | SRepeat _ _ => HRepeat p
  | SSwitch _ _ => if (i =? 0)%nat then HSwitch p else HLast p
  | SWrap _ => HWrapper p
  | SComp => HLast p
  | _ => HUser
  end.

(** The members that change while an action runs, forgotten. *)
Definition norm (k : kind) : kind :=
  match k with
  | Sequence mode _ children => Sequence mode 0 children
  | IfThen _ ps tmp => IfThen 0 ps tmp
  | Repeat mode times _ c => Repeat mode times 0 c
  | k => k
  end.

Definition from_start (k : kind) : Prop := match k with Sequence _ i _ => i = 0%nat | _ => True end.

(** The tree is in the store, ready to start; [cb] is the finish callback of
    its root. *)
Inductive loaded (w : world) : handler -> tree -> Prop :=
| loaded_node cb id s cs a :
    acts w !! id = Some a -> a_state a = kIdle -> norm (a_kind a) = node_kind s (map root cs) ->
    from_start (a_kind a) -> a_finish_cb a = Some cb -> arity s (length cs) ->
    (forall i c, cs !! i = Some c -> loaded w (child_handler s id i) c) ->
    loaded w cb (Node id s cs).

(** The tree is in the store and each of its actions is idle or finished. *)
Inductive settled (w : world) : handler -> tree -> Prop :=
| settled_idle cb t : loaded w cb t -> settled w cb t
| settled_over cb id s cs a :
    acts w !! id = Some a -> a_state a = kFinished -> norm (a_kind a) = node_kind s (map root cs) ->
    a_finish_cb a = Some cb -> arity s (length cs) ->
    (forall i c, cs !! i = Some c -> settled w (child_handler s id i) c) ->
    settled w cb (Node id s cs).

(** ** The meaning of a tree *)

Definition breaks (m : multi_mode) (r : bool) : bool :=
  match m with kAllFinish => false | kAnyFail => negb r | kAnySucc => r end.
Definition loop_ends (m : loop_mode) (r : bool) : bool :=
  match m with kForever => false | kUntilFail => negb r | kUntilSucc => r end.
Definition repeat_ends (m : repeat_mode) (r : bool) : bool :=
  match m with kNoBreak => false | kBreakFail => negb r | kBreakSucc => r end.
Definition wrapped (m : wrapper_mode) (r : bool) : bool :=
  match m with kNormal => r | kInvert => negb r | kAlwaySucc => true | kAlwayFail => false end.

Definition if_branch (ht he : bool) (bs : list tree) (r : bool) : option tree :=
  if r then if ht then bs !! 0%nat else None
  else if he then bs !! (if ht then 1%nat else 0%nat) else None.

Fixpoint pick_label (labels : list string) (bs : list tree) (l : string) : option tree :=
  match labels, bs with
  | x :: labels', b :: bs' => if String.eqb x l then Some b else pick_label labels' bs' l
  | _, _ => None
  end.

Definition switch_branch (labels : list string) (d : bool) (bs : list tree) (l : string) : option tree :=
  match pick_label labels bs l with
  | Some b => Some b
  | None => if d then bs !! length labels else None
  end.

Section Meaning.
Context (func : nat -> list nat -> bool * option reason).

(** [eval h t h' r why]: after the calls [h], the tree [t] makes the calls up to
    [h'] and gives the result [r] with the reason [why].

    A sequence that is not left early gives the result of its last child
    ([Q_nil]); this is what the unit tests ask for (the cases
    FinishIfAnySucc_AllFail and FinishIfAllFinish_AllFail of
    sequence_action_test.cpp).  The program in the comment of sequence_action.h
    returns true there instead; [header_sequence_differs] is a run on which the
    two disagree. *)
Inductive eval : list nat -> tree -> list nat -> bool -> reason -> Prop :=
| E_func h id f r why : func f h = (r, why) ->
    eval h (Node id (SFunc f) []) (h ++ [f]) r (default (mkReason 2 "FunctionAction") why)
| E_succ h id : eval h (Node id SSucc []) h true (mkReason 4 "SuccAction")
| E_fail h id : eval h (Node id SFail []) h false (mkReason 5 "FailAction")
| E_seq h id m cs h' r why : eval_seq h m cs true no_reason h' r why -> eval h (Node id (SSeq m) cs) h' r why
| E_if h id ht he c bs h1 r1 why1 b h' r why : eval h c h1 r1 why1 -> if_branch ht he bs r1 = Some b ->
    eval h1 b h' r why -> eval h (Node id (SIf ht he) (c :: bs)) h' r why
| E_if_none h id ht he c bs h1 r1 why1 : eval h c h1 r1 why1 -> if_branch ht he bs r1 = None ->
    eval h (Node id (SIf ht he) (c :: bs)) h1 true why1
| E_ifthen h id cs h' r why : eval_chain h cs h' r why -> eval h (Node id SIfThen cs) h' r why
| E_loop h id m c h' r why : eval_loop h m c h' r why -> eval h (Node id (SLoop m) [c]) h' r why
| E_loopif h id res i e h' why : eval_while h i e h' why -> eval h (Node id (SLoopIf res) [i; e]) h' res why
| E_repeat h id m n c h' r why : 1 <= n < 2 ^ 64 -> eval_times h m (n - 1) c h' r why ->
    eval h (Node id (SRepeat m n) [c]) h' r why
| E_switch h id labels d c bs h1 why1 b h' r why : eval h c h1 true why1 ->
    switch_branch labels d bs (r_message why1) = Some b -> eval h1 b h' r why ->
    eval h (Node id (SSwitch labels d) (c :: bs)) h' r why
| E_switch_skip h id labels d c bs h1 why1 : eval h c h1 true why1 ->
    switch_branch labels d bs (r_message why1) = None ->
    eval h (Node id (SSwitch labels d) (c :: bs)) h1 false (mkReason 9 "SwitchSkip")
| E_switch_fail h id labels d c bs h1 why1 : eval h c h1 false why1 ->
    eval h (Node id (SSwitch labels d) (c :: bs)) h1 false (mkReason 8 "SwitchFail")
| E_wrap h id m c h' r why : eval h c h' r why -> eval h (Node id (SWrap m) [c]) h' (wrapped m r) why
| E_comp h id c h' r why : eval h c h' r why -> eval h (Node id SComp [c]) h' r why
(** for each child; [r0] and [why0] are the result so far *)
with eval_seq : list nat -> multi_mode -> list tree -> bool -> reason -> list nat -> bool -> reason -> Prop :=
| Q_nil h m r0 why0 : eval_seq h m [] r0 why0 h r0 why0
| Q_stop h m c cs r0 why0 h1 r1 why1 : eval h c h1 r1 why1 -> breaks m r1 = true ->
    eval_seq h m (c :: cs) r0 why0 h1 r1 why1
| Q_next h m c cs r0 why0 h1 r1 why1 h' r why : eval h c h1 r1 why1 -> breaks m r1 = false ->
    eval_seq h1 m cs r1 why1 h' r why -> eval_seq h m (c :: cs) r0 why0 h' r why
(** if-then, else if-then, ..., else fail *)
with eval_chain : list nat -> list tree -> list nat -> bool -> reason -> Prop :=
| C_nil h : eval_chain h [] h false (mkReason 10 "IfThenSkip")
| C_then h i t cs h1 why1 h' r why : eval h i h1 true why1 -> eval h1 t h' r why ->
    eval_chain h (i :: t :: cs) h' r why
| C_else h i t cs h1 why1 h' r why : eval h i h1 false why1 -> eval_chain h1 cs h' r why ->
    eval_chain h (i :: t :: cs) h' r why
(** loop until *)
with eval_loop : list nat -> loop_mode -> tree -> list nat -> bool -> reason -> Prop :=
| L_end h m c h1 r1 why1 : eval h c h1 r1 why1 -> loop_ends m r1 = true -> eval_loop h m c h1 r1 why1
| L_again h m c h1 r1 why1 h' r why : eval h c h1 r1 why1 -> loop_ends m r1 = false ->
    eval_loop h1 m c h' r why -> eval_loop h m c h' r why
(** while the condition holds *)
with eval_while : list nat -> tree -> tree -> list nat -> reason -> Prop :=
| W_end h i e h1 why1 : eval h i h1 false why1 -> eval_while h i e h1 why1
| W_again h i e h1 why1 h2 r2 why2 h' why : eval h i h1 true why1 -> eval h1 e h2 r2 why2 ->
    eval_while h2 i e h' why -> eval_while h i e h' why
(** [n] more times *)
with eval_times : list nat -> repeat_mode -> Z -> tree -> list nat -> bool -> reason -> Prop :=
| T_break h m n c h1 r1 why1 : eval h c h1 r1 why1 -> repeat_ends m r1 = true -> eval_times h m n c h1 r1 why1
| T_last h m c h1 r1 why1 : eval h c h1 r1 why1 -> repeat_ends m r1 = false ->
    eval_times h m 0 c h1 true (mkReason 7 "RepeatNoTimes")
| T_again h m n c h1 r1 why1 h' r why : eval h c h1 r1 why1 -> repeat_ends m r1 = false -> 0 < n ->
    eval_times h1 m (n - 1) c h' r why -> eval_times h m n c h' r why.
End Meaning.

Scheme eval_mut := Minimality for eval Sort Prop
with seq_mut := Minimality for eval_seq Sort Prop
with chain_mut := Minimality for eval_chain Sort Prop
with loop_mut := Minimality for eval_loop Sort Prop
with while_mut := Minimality for eval_while Sort Prop
with times_mut := Minimality for eval_times Sort Prop.

(** ** Reasoning about computations *)

(** The computation ends in a state and with a value that satisfy [Q]. *)
Definition wp {A} (m : M world A) (w : world) (Q : A -> world -> Prop) : Prop :=
  match m w with Ret (a, w') => Q a w' | _ => False end.

(** Outside of [l] the store is unchanged. *)
Definition frame (l : list nat) (w w' : world) : Prop :=
  forall i, i ∉ l -> acts w' !! i = acts w !! i.

(** On [l], and in the loop, nothing has changed. *)
Definition agree (l : list nat) (w w' : world) : Prop :=
  (forall i, i ∈ l -> acts w' !! i = acts w !! i) /\ tasks w' = tasks w /\ funcs w' = funcs w.

Lemma wp_bind {A B} (m : M world A) (k : A -> M world B) w Q :
  wp m w (fun a w' => wp (k a) w' Q) -> wp (m ≫= k) w Q.
Proof. unfold wp, mbind, M_bind. by destruct (m w) as [[]| |]. Qed.

Lemma wp_ret {A} (a : A) w (Q : A -> world -> Prop) : Q a w -> wp (mret a) w Q.
Proof. done. Qed.

Lemma wp_mono {A} (m : M world A) w (Q Q' : A -> world -> Prop) :
  wp m w Q -> (forall a w', Q a w' -> Q' a w') -> wp m w Q'.
Proof. unfold wp. destruct (m w) as [[]| |]; naive_solver. Qed.

Lemma wp_act a s w (Q : action -> world -> Prop) : acts w !! a = Some s -> Q s w -> wp (act a) w Q.
Proof. intros E HQ. unfold wp, act, mbind, M_bind, get, the. by rewrite E. Qed.

Lemma wp_upd a s f w (Q : () -> world -> Prop) :
  acts w !! a = Some s ->
  (forall w', acts w' !! a = Some (f s) -> frame [a] w w' -> tasks w' = tasks w -> funcs w' = funcs w -> Q () w') ->
  wp (upd a f) w Q.
Proof.
  intros E HQ. apply HQ; try done; cbn.
  - by rewrite lookup_alter_eq, E.
  - intros i Hi. apply lookup_alter_ne. set_solver.
Qed.

Lemma wp_runNext t w (Q : Z -> world -> Prop) :
  (forall w' id, acts w' = acts w -> tasks w' = tasks w ++ [(id, t)] -> funcs w' = funcs w -> Q id w') ->
  wp (runNext t) w Q.
Proof. intros HQ. by apply HQ. Qed.

Lemma wp_observe o w (Q : () -> world -> Prop) :
  (forall w', acts w' = acts w -> tasks w' = tasks w -> funcs w' = funcs w -> Q () w') -> wp (observe o) w Q.
Proof. intros HQ. by apply HQ. Qed.

Lemma wp_onFinal a s w (Q : () -> world -> Prop) :
  acts w !! a = Some s ->
  (forall w', acts w' = acts w -> tasks w' = tasks w -> funcs w' = funcs w -> Q () w') -> wp (onFinal a) w Q.
Proof.
  intros E HQ. apply wp_bind, (wp_act a s); [done|]. unfold when.
  destruct (is_assemble _); [by apply wp_observe|by apply HQ].
Qed.

Lemma frame_refl l w : frame l w w.
Proof. done. Qed.

Lemma frame_trans l1 l2 l w1 w2 w3 : frame l1 w1 w2 -> frame l2 w2 w3 -> l1 ⊆ l -> l2 ⊆ l -> frame l w1 w3.
Proof. intros H1 H2 S1 S2 i Hi. rewrite H2 by set_solver. apply H1. set_solver. Qed.

Lemma frame_acts l w w' : acts w' = acts w -> frame l w w'.
Proof. by intros E i _; rewrite E. Qed.

Lemma frame_mono l l' w w' : frame l w w' -> l ⊆ l' -> frame l' w w'.
Proof. intros H S i Hi. apply H. set_solver. Qed.

(** ** Trees and stores *)

Lemma tree_rect' (P : tree -> Prop) :
  (forall id s cs, (forall i c, cs !! i = Some c -> P c) -> P (Node id s cs)) -> forall t, P t.
Proof.
  intros H. fix IH 1. intros [id s cs].
  assert (Forall P cs) as Hcs.
  { induction cs as [|c cs IHcs]; constructor; [apply IH|apply IHcs]. }
  apply H. intros i c. by apply Forall_lookup_1.
Qed.

Lemma root_in t : root t ∈ tree_ids t.
Proof. destruct t. cbn. left. Qed.

Lemma kid_ids id s cs i c : cs !! i = Some c -> tree_ids c ⊆ tree_ids (Node id s cs).
Proof.
  intros E x Hx. cbn. right. apply list_elem_of_In, in_flat_map. exists c.
  split; apply list_elem_of_In; [by eapply list_elem_of_lookup_2|done].
Qed.

Lemma kid_ids' cs i (c : tree) : cs !! i = Some c -> tree_ids c ⊆ flat_map tree_ids cs.
Proof.
  intros E x Hx. apply list_elem_of_In, in_flat_map. exists c.
  split; apply list_elem_of_In; [by eapply list_elem_of_lookup_2|done].
Qed.

Lemma in_kid_ids cs x : x ∈ flat_map tree_ids cs -> exists i c, cs !! i = Some c /\ x ∈ tree_ids c.
Proof.
  intros H. apply list_elem_of_In, in_flat_map in H as (c & Hc & Hx).
  apply list_elem_of_In in Hc, Hx. apply list_elem_of_lookup in Hc as [i Hi]. eauto.
Qed.

Lemma nodup_kid cs i c : NoDup (flat_map tree_ids cs) -> cs !! i = Some c -> NoDup (tree_ids c).
Proof.
  revert i. induction cs as [|c' cs IH]; intros [|i] H E; [done..| |];
    cbn in H; apply NoDup_app in H as (H1 & _ & H2).
  - by injection E as <-.
  - by eapply IH.
Qed.

Lemma kids_disjoint cs i j c c' x : NoDup (flat_map tree_ids cs) ->
  cs !! i = Some c -> cs !! j = Some c' -> x ∈ tree_ids c -> x ∈ tree_ids c' -> i = j.
Proof.
  revert i j. induction cs as [|d cs IH]; intros [|i] [|j] H E E' Hx Hx'; try done;
    cbn in H, E, E'; apply NoDup_app in H as (H1 & H2 & H3).
  - injection E as <-. destruct (H2 x); [done|]. by eapply kid_ids'.
  - injection E' as <-. destruct (H2 x); [done|]. by eapply kid_ids'.
  - f_equal. by eapply IH.
Qed.

Lemma depth_kid id s cs i c f : cs !! i = Some c -> (depth (Node id s cs) <= S f)%nat -> (depth c <= f)%nat.
Proof.
  cbn. intros E H. apply list_elem_of_lookup_2 in E.
  assert (depth c <= list_max (map depth cs))%nat; [|lia].
  pose proof (proj1 (list_max_le (map depth cs) (list_max (map depth cs))) (le_n _)) as Hm.
  rewrite Forall_forall in Hm. apply Hm, list_elem_of_fmap. eauto.
Qed.

Lemma depth_pos t : (0 < depth t)%nat.
Proof. destruct t. cbn. lia. Qed.

(** Being loaded or settled depends on the actions of the tree only. *)

Lemma loaded_ext w w' cb t :
  loaded w cb t -> (forall i, i ∈ tree_ids t -> acts w' !! i = acts w !! i) -> loaded w' cb t.
Proof.
  revert cb. induction t as [id s cs IH] using tree_rect'. intros cb H E.
  inversion H as [? ? ? ? a Ha Hst Hk Hf Hcb Har Hc]; subst.
  apply (loaded_node w' cb id s cs a); try done.
  - rewrite E; [done|apply (root_in (Node id s cs))].
  - intros i c Hi. apply (IH i); [done|by apply Hc|]. intros j Hj. apply E. by apply (kid_ids id s cs i c).
Qed.

Lemma settled_ext w w' cb t :
  settled w cb t -> (forall i, i ∈ tree_ids t -> acts w' !! i = acts w !! i) -> settled w' cb t.
Proof.
  revert cb. induction t as [id s cs IH] using tree_rect'. intros cb H E.
  inversion H as [? ? Hl|? ? ? ? a Ha Hst Hk Hcb Har Hc]; subst.
  { left. by eapply loaded_ext. }
  apply (settled_over w' cb id s cs a); try done.
  - rewrite E; [done|apply (root_in (Node id s cs))].
  - intros i c Hi. apply (IH i); [done|by apply Hc|]. intros j Hj. apply E. by apply (kid_ids id s cs i c).
Qed.

(** ** Ending an action *)

Lemma wp_finish fuel a s h succ why tr w (Q : () -> world -> Prop) :
  acts w !! a = Some s -> is_over (a_state s) = false -> a_finish_cb s = Some h ->
  (match a_kind s with Composite _ => a_curr s = None | _ => True end) ->
  (forall w' s' id, acts w' !! a = Some s' -> a_state s' = kFinished -> a_result s' = result_of succ ->
    a_kind s' = a_kind s -> a_finish_cb s' = Some h -> frame [a] w w' ->
    tasks w' = tasks w ++ [(id, TFinish h succ why (tr ++ [a]))] -> funcs w' = funcs w -> Q () w') ->
  wp (finish fuel a succ why tr) w Q.
Proof.
  intros E Ho Hh Hc HQ. unfold finish. apply wp_bind, (wp_act a s); [done|]. rewrite Ho. cbn [negb].
  apply wp_bind, (wp_upd a s); [done|]. intros w1 E1 F1 T1 G1.
  apply wp_bind. eapply wp_upd; [done|]. intros w2 E2 F2 T2 G2.
  apply wp_bind.
  apply (wp_mono _ _ (fun _ w' => w' = w2)).
  { destruct (a_kind s) eqn:Ek; try by apply wp_ret.
    apply wp_bind. eapply wp_act; [done|].
    assert (a_curr (timer_on false (set_state kFinished s)) = None) as ->
      by (destruct s as [?????? [] ????]; done).
    by apply wp_ret. }
  intros [] ? ->. apply wp_bind. eapply wp_upd; [done|]. intros w3 E3 F3 T3 G3.
  rewrite Hh. apply wp_bind, wp_bind, wp_runNext. intros w4 id E4 T4 G4.
  eapply wp_upd; [by rewrite E4|]. intros w5 E5 F5 T5 G5.
  eapply wp_onFinal; [done|]. intros w6 E6 T6 G6.
  refine (HQ w6 _ id _ _ _ _ _ _ _ _); [by rewrite E6, E5| | | | | | |].
  1-4: destruct s as [?????? [] ????]; done.
  - intros i Hi. rewrite E6, F5, E4, F3, F2, F1 by done. done.
  - congruence.
  - congruence.
Qed.

Lemma wp_cancel a s w (Q : () -> world -> Prop) :
  acts w !! a = Some s -> tasks w = [] ->
  (forall w', acts w' !! a = Some (set_ids 0 0 s) -> frame [a] w w' -> tasks w' = [] -> funcs w' = funcs w -> Q () w') ->
  wp (cancelDispatchedCallback a) w Q.
Proof.
  intros E T HQ. unfold cancelDispatchedCallback. apply wp_bind, (wp_act a s); [done|].
  assert (forall b id w, tasks w = [] -> wp (when b (loop_cancel id)) w
            (fun _ w' => acts w' = acts w /\ tasks w' = [] /\ funcs w' = funcs w)) as Hc.
  { intros b id w0 T0. destruct b; cbn; [|done]. by rewrite T0. }
  apply wp_bind. eapply wp_mono; [by apply Hc|]. intros [] w1 (E1 & T1 & F1).
  apply wp_bind. eapply wp_mono; [by apply Hc|]. intros [] w2 (E2 & T2 & F2).
  apply (wp_upd a s); [congruence|]. intros w3 E3 F3 T3 G3. apply HQ; [done| |congruence..].
  intros i Hi. rewrite F3 by done. congruence.
Qed.

(** ** Resetting *)

Lemma list_pair_ind {A} (P : list A -> Prop) :
  P [] -> (forall a, P [a]) -> (forall a b l, P l -> P (a :: b :: l)) -> forall l, P l.
Proof. intros H0 H1 H2. fix IH 1. intros [|a [|b l]]; [exact H0|apply H1|apply H2, IH]. Qed.

Lemma pairs_flat {A} (l : list A) : Nat.even (length l) = true ->
  pairs l ≫= (fun p => [p.1; p.2]) = l.
Proof.
  induction l as [| |a b l IH] using list_pair_ind; [done..|].
  intros H. cbn in *. f_equal. f_equal. by apply IH.
Qed.

Lemma cases_elem (labels : list string) (l : list nat) x : NoDup labels -> length l = length labels ->
  x ∈ (map_to_list (list_to_map (zip labels l) : gmap string nat)).*2 <-> x ∈ l.
Proof.
  intros Hn Hl.
  assert ((map_to_list (list_to_map (zip labels l) : gmap string nat)).*2 ≡ₚ l) as ->; [|done].
  rewrite map_to_list_to_map.
  - by rewrite snd_zip by lia.
  - by rewrite fst_zip by lia.
Qed.

Lemma reset_kind_fits s l k : norm k = node_kind s l -> arity s (length l) ->
  exists k', reset_kind k = Some k' /\ norm k' = node_kind s l /\ from_start k' /\
    (forall x, x ∈ kids k' <-> x ∈ l).
Proof.
  intros Hk Ha. destruct s; cbn in Hk, Ha.
  all: destruct k; cbn in Hk; try discriminate Hk; try (injection Hk; intros; subst).
  - destruct l; [|done]. eexists. repeat split; done.
  - destruct l; [|done]. eexists. repeat split; done.
  - destruct l; [|done]. eexists. repeat split; done.
  - eexists. repeat split; done.
  - destruct l as [|x l]; [destruct has_then, has_else; discriminate Ha|].
    eexists. split; [done|]. split; [done|]. split; [done|]. intros y. cbn.
    destruct has_then, has_else; cbn in *;
      [destruct l as [|? [|? [|]]]|destruct l as [|? [|]]|destruct l as [|? [|]]|destruct l as [|]]; try discriminate Ha; done.
  - eexists. split; [done|]. split; [done|]. split; [done|]. intros y. cbn. by rewrite pairs_flat.
  - destruct l as [|x [|]]; try discriminate Ha. eexists. repeat split; done.
  - destruct l as [|x [|y [|]]]; try discriminate Ha. eexists. repeat split; done.
  - destruct l as [|x [|]]; try discriminate Ha. eexists. repeat split; done.
  - destruct Ha as [Ha Hn]. destruct l as [|x l]; [discriminate Ha|].
    eexists. split; [done|]. split; [done|]. split; [done|]. intros y. cbn. cbn in Ha.
    rewrite !elem_of_cons. apply or_iff_compat_l. rewrite elem_of_app.
    destruct has_default; cbn in Ha |- *.
    + destruct (lookup_lt_is_Some_2 l (length labels)) as [z Hz]; [lia|].
      assert (l = take (length labels) l ++ [z]) as El.
      { rewrite <- (take_drop (length labels) l) at 1. f_equal.
        rewrite (drop_S _ z) by done. f_equal. apply drop_ge. lia. }
      assert (zip labels l = zip labels (take (length labels) l)) as ->.
      { rewrite El at 1. rewrite <- (app_nil_r labels) at 1.
        rewrite zip_with_app by (rewrite length_take; lia). cbn. by rewrite app_nil_r. }
      match goal with |- _ ∈ opt_list ?o \/ _ <-> _ => replace o with (Some z) by (symmetry; exact Hz) end.
      rewrite cases_elem by (done || (rewrite length_take; lia)).
      rewrite El at 2. cbn. rewrite elem_of_app. tauto.
    + rewrite cases_elem by (done || lia). cbn. set_solver.
  - destruct l as [|x [|]]; try discriminate Ha. eexists. repeat split; done.
  - destruct l as [|x [|]]; try discriminate Ha. eexists. repeat split; done.
Qed.

(** The children are settled, and those in [R] are ready to start. *)
Definition kids_ok (w : world) (id : nat) (s : shape) (cs : list tree) (R : nat -> Prop) : Prop :=
  forall i c, cs !! i = Some c ->
    settled w (child_handler s id i) c /\ (R i -> loaded w (child_handler s id i) c).

Lemma kids_ok_ext w w' id s cs R :
  kids_ok w id s cs R -> (forall i, i ∈ flat_map tree_ids cs -> acts w' !! i = acts w !! i) -> kids_ok w' id s cs R.
Proof.
  intros H E i c Hi. destruct (H i c Hi) as [Hs Hl].
  assert (forall x, x ∈ tree_ids c -> acts w' !! x = acts w !! x).
  { intros x Hx. apply E. by apply (kid_ids' cs i c). }
  split; [by eapply settled_ext|]. intros Hr. eapply loaded_ext; [by apply Hl|done].
Qed.

Lemma kids_ok_weaken w id s cs (R R' : nat -> Prop) :
  kids_ok w id s cs R -> (forall i, (i < length cs)%nat -> R' i -> R i) -> kids_ok w id s cs R'.
Proof.
  intros H S i c Hi. destruct (H i c Hi) as [Hs Hl]. split; [done|]. intros Hr. apply Hl, S; [|done].
  by eapply lookup_lt_Some.
Qed.

(** One child changes. *)
Lemma kids_ok_step w w' id s cs R i c :
  kids_ok w id s cs R -> NoDup (tree_ids (Node id s cs)) -> cs !! i = Some c ->
  (forall x, x ∈ flat_map tree_ids cs -> x ∉ tree_ids c -> acts w' !! x = acts w !! x) ->
  settled w' (child_handler s id i) c -> kids_ok w' id s cs (fun j => R j /\ j <> i).
Proof.
  intros H Hn Hi F Hc j d Hj. cbn in Hn. apply NoDup_cons in Hn as [Hid Hn].
  destruct (decide (j = i)) as [->|Hne].
  - assert (d = c) as -> by congruence. split; [done|]. by intros [_ ?].
  - assert (forall x, x ∈ tree_ids d -> acts w' !! x = acts w !! x) as E.
    { intros x Hx. apply F; [by apply (kid_ids' cs j d)|]. intros Hx'.
      by apply Hne, (kids_disjoint cs j i d c x). }
    destruct (H j d Hj) as [Hs Hl]. split; [by eapply settled_ext|].
    intros [Hr _]. eapply loaded_ext; [by apply Hl|done].
Qed.

Lemma wp_reset t : forall cb f w (Q : () -> world -> Prop),
  settled w cb t -> NoDup (tree_ids t) -> tasks w = [] -> (depth t <= f)%nat ->
  (forall w', loaded w' cb t -> frame (tree_ids t) w w' -> tasks w' = [] -> funcs w' = funcs w -> Q () w') ->
  wp (reset f (root t)) w Q.
Proof.
  induction t as [id s cs IH] using tree_rect'. intros cb f w Q Hs Hn Ht Hd HQ.
  destruct f as [|f]; [cbn in Hd; lia|]. cbn [root reset].
  inversion Hs as [? ? Hl|? ? ? ? a Ha Hst Hk Hcb Har Hc]; subst.
  { inversion Hl as [? ? ? ? a Ha Hst Hk Hf Hcb Har Hc]; subst.
    apply wp_bind, (wp_act id a); [done|]. rewrite Hst. by apply wp_ret, HQ. }
  apply wp_bind, (wp_act id a); [done|]. rewrite Hst.
  rewrite <- (length_map root) in Har. destruct (reset_kind_fits _ _ _ Hk Har) as (k' & Ek & Hk' & Hf' & Hkids).
  rewrite Ek. apply wp_bind, wp_ret, wp_bind, (wp_upd id a); [done|]. intros w1 E1 F1 T1 G1.
  pose proof Hn as Hn'. cbn in Hn'. apply NoDup_cons in Hn' as [Hid Hnk].
  assert (forall l w0 (Q' : () -> world -> Prop), (forall x, x ∈ l -> x ∈ map root cs) -> tasks w0 = [] ->
    kids_ok w0 id s cs (fun i => forall c, cs !! i = Some c -> root c ∉ l) ->
    (forall w', kids_ok w' id s cs (fun _ => True) -> frame (flat_map tree_ids cs) w0 w' -> tasks w' = [] ->
       funcs w' = funcs w0 -> Q' () w') ->
    wp (each (reset f) l) w0 Q') as Heach.
  { induction l as [|x l IHl]; intros w0 Q' Hin T0 K0 HQ'.
    { apply wp_ret, HQ'; try done. eapply kids_ok_weaken; [done|]. set_solver. }
    destruct (proj1 (list_elem_of_fmap root cs x) (Hin x (list_elem_of_here _ _))) as (c & -> & Hcin).
    apply list_elem_of_lookup in Hcin as [i Hi].
    apply wp_bind. eapply (IH i c Hi); [by apply (K0 i c)|by eapply nodup_kid|done|by eapply depth_kid|].
    intros w2 L2 F2 T2 G2. apply IHl; [set_solver|done| |].
    - assert (kids_ok w2 id s cs (fun j => (forall c0, cs !! j = Some c0 -> root c0 ∉ root c :: l) /\ j <> i)) as K2.
      { eapply kids_ok_step; [done..| |by left]. intros x _. apply F2. }
      intros j d Hj. destruct (decide (j = i)) as [->|Hne].
      + assert (d = c) as -> by congruence. split; [by left|done].
      + destruct (K2 j d Hj) as [Hsd Hld]. split; [done|]. intros Hr. apply Hld. split; [|done].
        intros c0 Hc0. assert (c0 = d) as -> by congruence. intros [Er|Hr']%elem_of_cons; [|by eapply Hr].
        apply Hne, (kids_disjoint cs j i d c (root d)); [done..|apply root_in|rewrite Er; apply root_in].
    - intros w3 K3 F3 T3 G3. apply HQ'; [done| |done|congruence].
      eapply frame_trans; [done..|by eapply kid_ids'|done]. }
  apply wp_bind. apply Heach; [by intros x Hx; apply Hkids|congruence| |].
  { intros i c Hi. split.
    - eapply settled_ext; [by apply Hc|]. intros x Hx. apply F1. intros ->%list_elem_of_singleton.
      by apply Hid, (kid_ids' cs i c).
    - intros Hr. destruct (Hr c Hi). apply Hkids, list_elem_of_fmap. exists c.
      split; [done|]. by eapply list_elem_of_lookup_2. }
  intros w2 K2 F2 T2 G2.
  assert (acts w2 !! id = Some (set_kind k' a)) as E2 by (by rewrite F2).
  assert (forall b w0 s0 (Q' : () -> world -> Prop), acts w0 !! id = Some s0 ->
    (forall w' s', acts w' !! id = Some s' -> a_kind s' = a_kind s0 -> a_finish_cb s' = a_finish_cb s0 ->
       frame [id] w0 w' -> tasks w' = tasks w0 -> funcs w' = funcs w0 -> Q' () w') ->
    wp (when b (upd id (set_curr None);; upd id (set_pending None))) w0 Q') as Hwhen.
  { intros b w0 s0 Q' E0 HQ'. destruct b; [|by apply (HQ' w0 s0)]. cbn.
    apply wp_bind, (wp_upd id s0); [done|]. intros w3 E3 F3 T3 G3.
    eapply wp_upd; [done|]. intros w4 E4 F4 T4 G4. eapply HQ'; [done..| |congruence|congruence].
    eapply frame_trans; [done..|done|done]. }
  apply wp_bind. eapply Hwhen; [done|]. intros w3 s3 E3 K3 C3 F3 T3 G3.
  apply wp_bind. eapply wp_upd; [done|]. intros w4 E4 F4 T4 G4.
  apply wp_bind. eapply wp_cancel; [done|congruence|]. intros w5 E5 F5 T5 G5.
  apply wp_bind. eapply wp_upd; [done|]. intros w6 E6 F6 T6 G6.
  eapply wp_upd; [done|]. intros w7 E7 F7 T7 G7.
  assert (frame [id] w2 w7) as F27.
  { intros i Hi. by rewrite F7, F6, F5, F4, F3. }
  apply HQ; [| |congruence|congruence].
  - eapply loaded_node; [done|..].
    + done.
    + cbn. assert (a_kind (timer_on false s3) = k') as ->; [|done].
      rewrite <- (K3 : _ = k'). destruct s3 as [?????? [] ????]; done.
    + cbn. assert (a_kind (timer_on false s3) = k') as ->; [|done].
      rewrite <- (K3 : _ = k'). destruct s3 as [?????? [] ????]; done.
    + cbn. rewrite <- Hcb. transitivity (a_finish_cb s3); [|done]. destruct s3 as [?????? [] ????]; done.
    + by rewrite length_map in Har.
    + intros i c Hi. eapply loaded_ext; [by apply (K2 i c Hi)|]. intros x Hx. apply F27.
      intros ->%list_elem_of_singleton. by apply Hid, (kid_ids' cs i c).
  - intros i Hi. cbn in Hi. rewrite F27, F2, F1; [done|set_solver..].
Qed.

(** ** Running *)

Section Running.
Context (func : nat -> list nat -> bool * option reason) (F : nat).

(** Running tasks leads to a state that satisfies [Q]. *)
Definition runs_to (w : world) (Q : world -> Prop) : Prop :=
  exists n, wp (steps func F n) w (fun _ => Q).

(** The tree has finished with [r] and [why]. *)
Definition ended (t : tree) (cb : handler) (h' : list nat) (r : bool) (why : reason) (w w' : world) : Prop :=
  settled w' cb t /\
  (exists a, acts w' !! root t = Some a /\ a_state a = kFinished /\ a_result a = result_of r) /\
  frame (tree_ids t) w w' /\ funcs w' = h' /\ exists k tr, tasks w' = [(k, TFinish cb r why tr)].

Definition parent_at (w : world) (id : nat) (st : astate) (k : kind) (cb : handler) (a : action) : Prop :=
  acts w !! id = Some a /\ a_state a = st /\ a_kind a = k /\ a_finish_cb a = Some cb.

(** The action of [id], and that of [id] once [start] has made it run. *)
Definition underway (a a' : action) : Prop :=
  a_state a = kFinished /\ a' = a \/
  a_state a <> kFinished /\ a_state a' = kRunning /\ a_kind a' = a_kind a /\ a_finish_cb a' = a_finish_cb a.

(** [m], run by the root of [t] in the state [st], makes the tree end with [r]
    and [why] in the end. *)
Definition goes {A} (t : tree) (cb : handler) (st : astate) (m : M world A) (v : A) (w : world)
    (h' : list nat) (r : bool) (why : reason) : Prop :=
  wp m w (fun b w1 => b = v /\ frame (tree_ids t) w w1 /\
    exists a1, acts w1 !! root t = Some a1 /\ (a_state a1 = kFinished \/ a_state a1 = st) /\
      forall w' a', acts w' !! root t = Some a' -> underway a1 a' ->
        agree (flat_map tree_ids (sub t)) w1 w' -> runs_to w' (ended t cb h' r why w')).

(** Starting the tree makes it end with [r] and [why]. *)
Definition start_ends (t : tree) (cb : handler) (f : nat) (w : world) (h' : list nat) (r : bool) (why : reason) : Prop :=
  wp (start func f (root t)) w (fun b w1 => b = true /\ frame (tree_ids t) w w1 /\
    forall w', agree (tree_ids t) w1 w' -> runs_to w' (ended t cb h' r why w')).

Lemma runs_to_now w (Q : world -> Prop) : Q w -> runs_to w Q.
Proof. by exists 0%nat. Qed.

Lemma runs_to_step w (Q : world -> Prop) : wp (step func F) w (fun _ w' => runs_to w' Q) -> runs_to w Q.
Proof.
  unfold runs_to, wp. intros H. destruct (step func F w) as [[[] w1]| |] eqn:E; [|done..].
  destruct H as [n Hn]. exists (S n). cbn. by rewrite (bind_Ret _ _ _ _ _ E).
Qed.

Lemma runs_to_then w (Q Q' : world -> Prop) :
  runs_to w Q -> (forall w', Q w' -> runs_to w' Q') -> runs_to w Q'.
Proof.
  intros [n Hn]. revert w Hn. induction n as [|n IH]; intros w Hn H; [by apply H|].
  unfold wp in Hn. cbn in Hn. apply runs_to_step. unfold wp.
  unfold mbind, M_bind in Hn. destruct (step func F w) as [[[] w1]| |]; [|done..]. by apply IH.
Qed.

Lemma runs_to_mono w (Q Q' : world -> Prop) : runs_to w Q -> (forall w', Q w' -> Q' w') -> runs_to w Q'.
Proof. intros H HQ. eapply runs_to_then; [done|]. intros w' Hw. by apply runs_to_now, HQ. Qed.

(** The next task is the finish event of a child of a running action. *)
Definition parent_body (h : handler) (succ : bool) (why : reason) (tr : trace) : M world () :=
  match h with
  | HUser | HParallel _ _ => mret ()
  | HLast p => finish F p succ why tr
  | HSequence p => onSequenceChild func F p succ why tr
  | HIfCond p => onCondActionFinished func F p succ why tr
  | HIfThen p => onIfActionFinished func F p succ
  | HLoop p => onLoopChild func F p succ why tr
  | HLoopIf p => onIfFinished func F p succ why tr
  | HLoopExec p => onExecFinished func F p why tr
  | HRepeat p => onRepeatChild func F p succ why tr
  | HSwitch p => onSwitchActionFinished func F p succ why
  | HWrapper p => onWrapperChild F p succ why tr
  end.

Definition handler_of (h : handler) : option nat :=
  match h with
  | HUser | HParallel _ _ => None
  | HLast p | HSequence p | HIfCond p | HIfThen p | HLoop p | HLoopIf p | HLoopExec p | HRepeat p | HSwitch p
  | HWrapper p => Some p
  end.

Lemma runs_to_event w k h p succ why tr a (Q : world -> Prop) :
  tasks w = [(k, TFinish h succ why tr)] -> handler_of h = Some p -> acts w !! p = Some a -> a_state a = kRunning ->
  (forall w', acts w' !! p = Some (set_curr None a) -> frame [p] w w' -> tasks w' = [] -> funcs w' = funcs w ->
     wp (parent_body h succ why tr) w' (fun _ w'' => runs_to w'' Q)) ->
  runs_to w Q.
Proof.
  intros Ht Hh Ha Hst H. apply runs_to_step. unfold step.
  apply wp_bind. unfold wp, get. rewrite Ht. apply wp_bind. cbn.
  set (w1 := mkWorld (acts w) [] (next_id w) (funcs w) (seen w)).
  assert (forall d (m : M world ()),
    (forall w', acts w' !! p = Some (set_curr None a) -> frame [p] w1 w' -> tasks w' = [] -> funcs w' = funcs w ->
       wp m w' (fun _ w'' => runs_to w'' Q)) ->
    wp (done ← handleChildFinishEvent p d; if (done : bool) then mret () else m) w1 (fun _ w'' => runs_to w'' Q)) as Hg.
  { intros d m Hm. unfold handleChildFinishEvent.
    apply wp_bind, wp_bind, (wp_upd p a); [done|]. intros w2 E2 F2 T2 G2.
    apply wp_bind. eapply wp_act; [done|]. cbn. rewrite Hst. apply wp_ret. by apply Hm. }
  destruct h; try discriminate Hh; injection Hh as ->; try (apply Hg; intros w' ????; by apply H).
  cbn [run_task handle_child]. unfold onLastChildFinished.
  apply wp_bind, (wp_upd p a); [done|]. intros w2 E2 F2 T2 G2.
  apply wp_bind. eapply wp_act; [done|]. cbn. rewrite Hst. by apply H.
Qed.
End Running.

(** ** One action and its children *)

Section Node.
Context (func : nat -> list nat -> bool * option reason) (F : nat).
Context (id : nat) (s : shape) (cs : list tree) (cb : handler).
Context (Hnd : NoDup (tree_ids (Node id s cs))) (Har : arity s (length cs)).

Notation t := (Node id s cs).

(** [k] is the kind of the node, at some point of its run. *)
Notation fits k := (norm k = node_kind s (map root cs)).

Lemma id_not_below x : x ∈ flat_map tree_ids cs -> x <> id.
Proof. intros Hx ->. cbn in Hnd. by apply NoDup_cons in Hnd as [? _]. Qed.

Lemma kids_frame w w' R : kids_ok w id s cs R -> frame [id] w w' -> kids_ok w' id s cs R.
Proof.
  intros K Fr. eapply kids_ok_ext; [done|]. intros x Hx. apply Fr. intros ->%list_elem_of_singleton.
  by apply (id_not_below id).
Qed.

Lemma kid_frame i c w w' : cs !! i = Some c -> frame [id] w w' -> forall x, x ∈ tree_ids c -> acts w' !! x = acts w !! x.
Proof.
  intros Hi Fr x Hx. apply Fr. intros ->%list_elem_of_singleton.
  by apply (id_not_below id); [eapply kid_ids'|].
Qed.

(** The action finishes. *)
Lemma goes_finish f st k a R succ why tr w :
  parent_at w id st k cb a -> is_over st = false -> fits k -> kids_ok w id s cs R -> tasks w = [] ->
  (s = SComp -> a_curr a = None) ->
  goes func F t cb st (finish f id succ why tr) () w (funcs w) succ why.
Proof.
  intros (Ea & <- & <- & Ecb) Ho Hk K T Hc.
  eapply wp_finish; [done..| |].
  { destruct (a_kind a) eqn:Ek; try done. apply Hc. cbn in Hk. destruct s; try discriminate Hk. done. }
  intros w1 a1 id1 E1 S1 R1 K1 C1 F1 T1 G1. split; [done|]. split; [eapply frame_mono; [done|set_solver]|].
  exists a1. split; [done|]. split; [by left|]. intros w' a' E' U [A1 [A2 A3]].
  apply runs_to_now. destruct U as [[_ ->]|[[]]]; [|done].
  split; [|split; [by exists a1|split; [done|split; [congruence|]]]].
  - eapply settled_over; [done|done|congruence|done|done|]. intros i c Hi.
    eapply settled_ext; [by apply (K i c Hi)|]. intros x Hx. rewrite A1 by (by eapply kid_ids').
    by eapply kid_frame.
  - rewrite A2, T1, T. by eexists _, _.
Qed.

(** The action starts its child [i], which ends with [r1] and [why1]. *)
Lemma launch_child i c p_st k a R f w h1 r1 why1 :
  parent_at w id p_st k cb a -> kids_ok w id s cs R -> cs !! i = Some c ->
  start_ends func F c (child_handler s id i) f w h1 r1 why1 ->
  handler_of (child_handler s id i) = Some id ->
  wp (startThisAction func f id (root c)) w (fun b w1 => b = true /\ frame (tree_ids t) w w1 /\
    acts w1 !! id = Some (set_curr (Some (root c)) a) /\
    forall w' k' a' Q, parent_at w' id kRunning k' cb a' -> agree (flat_map tree_ids cs) w1 w' ->
      (forall w3 tr, parent_at w3 id kRunning k' cb (set_curr None a') -> kids_ok w3 id s cs (fun j => R j /\ j <> i) ->
         tasks w3 = [] -> funcs w3 = h1 -> frame (tree_ids t) w' w3 ->
         wp (parent_body func F (child_handler s id i) r1 why1 tr) w3 (fun _ w4 => runs_to func F w4 Q)) ->
      runs_to func F w' Q).
Proof.
  intros (Ea & Est & Ek & Ecb) K Hi Hs Hh. unfold startThisAction, start_this.
  assert (id ∉ tree_ids c) as Hidc by (intros Hx; apply (id_not_below id); [by eapply kid_ids'|done]).
  apply wp_bind. eapply wp_mono; [exact Hs|]. intros b w1 (-> & F1 & Hr).
  assert (acts w1 !! id = Some a) as E1 by (by rewrite F1).
  apply wp_bind, (wp_upd id a); [done|]. intros w2 E2 F2 T2 G2. apply wp_ret.
  split; [done|]. split.
  { eapply frame_trans; [done..|by eapply kid_ids|set_solver]. }
  split; [done|]. intros w' k' a' Q (Ea' & Est' & Ek' & Ecb') [A1 [A2 A3]] HQ.
  eapply runs_to_then; [apply Hr|].
  { split; [|split; congruence]. intros x Hx. rewrite A1 by (by eapply kid_ids'). by eapply kid_frame. }
  intros w3 (S3 & _ & F3 & G3 & k3 & tr & T3).
  eapply runs_to_event; [done|done|by rewrite F3|done|].
  intros w4 E4 F4 T4 G4.
  assert (frame (id :: tree_ids c) w' w4) as F14 by (eapply frame_trans; [done..|set_solver|set_solver]).
  apply HQ; [done| |done|congruence|].
  - eapply kids_ok_step; [done..| |].
    + intros x Hx Hxc. assert (x ∉ [id]) by (by intros ->%list_elem_of_singleton; apply (id_not_below id)).
      rewrite F4, F3, A1, F2, F1; done.
    + eapply settled_ext; [exact S3|]. by eapply kid_frame.
  - eapply frame_mono; [done|]. intros x [->|Hx]%elem_of_cons; [left|]. by eapply kid_ids.
Qed.

(** *** Composing computations of the action *)

Lemma goes_bind {A B} st (m : M world A) (k : A -> M world B) v u w h' r why :
  goes func F t cb st m v w h' r why -> (forall w', k v w' = Ret (u, w')) -> goes func F t cb st (m ≫= k) u w h' r why.
Proof.
  intros H E. apply wp_bind. eapply wp_mono; [exact H|]. intros b w' (-> & Hr). unfold wp. by rewrite E.
Qed.

Lemma goes_act {A} st k a (m : action -> M world A) v w h' r why :
  parent_at w id st k cb a -> goes func F t cb st (m a) v w h' r why -> goes func F t cb st (act id ≫= m) v w h' r why.
Proof. intros (Ea & _) H. apply wp_bind. by eapply wp_act. Qed.

(** A first step that changes the tree only. *)
Lemma goes_after {A B} st (m : M world A) (k : A -> M world B) v w h' r why :
  wp m w (fun a w' => frame (tree_ids t) w w' /\ goes func F t cb st (k a) v w' h' r why) ->
  goes func F t cb st (m ≫= k) v w h' r why.
Proof.
  intros H. apply wp_bind. eapply wp_mono; [exact H|]. intros a w' [F1 H1].
  eapply wp_mono; [exact H1|]. intros b w1 (-> & F2 & Hr). split; [done|].
  split; [by eapply frame_trans|done].
Qed.

Lemma goes_upd {A} st k k' a (m : M world A) v w h' r why :
  parent_at w id st k cb a ->
  (forall w', parent_at w' id st k' cb (set_kind k' a) -> frame [id] w w' -> tasks w' = tasks w -> funcs w' = funcs w ->
     goes func F t cb st m v w' h' r why) ->
  goes func F t cb st (upd id (set_kind k');; m) v w h' r why.
Proof.
  intros (Ea & Est & Ek & Ecb) H. apply goes_after, (wp_upd id a); [done|].
  intros w' E' F' T' G'. split; [eapply frame_mono; [done|set_solver]|]. apply H; [|done..]. by repeat split.
Qed.

Lemma goes_reset {A} i c f st k a (R : nat -> Prop) (m : M world A) v w h' r why :
  parent_at w id st k cb a -> kids_ok w id s cs R -> cs !! i = Some c -> tasks w = [] -> (depth c <= f)%nat ->
  (forall w', parent_at w' id st k cb a -> kids_ok w' id s cs (fun j => R j \/ j = i) -> tasks w' = [] -> funcs w' = funcs w ->
     goes func F t cb st m v w' h' r why) ->
  goes func F t cb st (reset f (root c);; m) v w h' r why.
Proof.
  intros (Ea & Est & Ek & Ecb) K Hi T Hd H.
  pose proof Hnd as Hnd'. cbn in Hnd'. apply NoDup_cons in Hnd' as [_ Hnk].
  apply goes_after. eapply wp_reset; [by apply (K i c Hi)|by eapply nodup_kid|done..|].
  intros w' L F1 T1 G1. split; [eapply frame_mono; [done|by eapply kid_ids]|].
  apply H; [|intros j d Hj|done..].
  - split; [|done]. rewrite F1; [done|]. intros Hx. by apply (id_not_below id); [eapply kid_ids'|].
  - destruct (decide (j = i)) as [->|Hne].
    + assert (d = c) as -> by congruence. split; [by left|done].
    + assert (forall x, x ∈ tree_ids d -> acts w' !! x = acts w !! x) as E.
      { intros x Hx. apply F1. intros Hx'. by apply Hne, (kids_disjoint cs j i d c x). }
      destruct (K j d Hj) as [Ks Kl]. split; [by eapply settled_ext|]. intros [Hr|]; [|done].
      eapply loaded_ext; [by apply Kl|done].
Qed.

(** Run by the running action, it leads to the end of the tree. *)
Lemma goes_run {A} (m : M world A) v w h' r why :
  goes func F t cb kRunning m v w h' r why -> wp m w (fun _ w' => runs_to func F w' (ended t cb h' r why w)).
Proof.
  intros H. eapply wp_mono; [exact H|]. intros b w1 (-> & F1 & a1 & E1 & S1 & Hr).
  eapply runs_to_mono; [apply (Hr w1 a1); [done| |by repeat split]|].
  - destruct S1 as [S1|S1]; [by left|right]. by rewrite S1.
  - intros w2 (H1 & H2 & H3 & H4). split; [done|]. split; [done|]. split; [by eapply frame_trans|done].
Qed.

(** The action starts its child [i] and goes on when the child has finished. *)
Lemma goes_child i c st k a R f w h1 r1 why1 h' r why :
  parent_at w id st k cb a -> st <> kFinished -> kids_ok w id s cs R -> cs !! i = Some c ->
  start_ends func F c (child_handler s id i) f w h1 r1 why1 ->
  handler_of (child_handler s id i) = Some id ->
  (forall w3 tr a3, parent_at w3 id kRunning k cb a3 -> a_curr a3 = None ->
     kids_ok w3 id s cs (fun j => R j /\ j <> i) -> tasks w3 = [] -> funcs w3 = h1 ->
     goes func F t cb kRunning (parent_body func F (child_handler s id i) r1 why1 tr) () w3 h' r why) ->
  goes func F t cb st (startThisAction func f id (root c)) true w h' r why.
Proof.
  intros Hp Hst K Hi Hs Hh H. pose proof Hp as (Ea & Est & Ek & Ecb).
  eapply wp_mono; [by eapply launch_child|]. intros b w1 (-> & F1 & E1 & Hl).
  split; [done|]. split; [done|]. eexists. split; [done|]. split; [by right|].
  intros w' a' E' U A. destruct U as [[U _]|(_ & U1 & U2 & U3)]; [cbn in U; congruence|]. cbn in U2, U3.
  apply (Hl w' k a'); [split; [exact E'|repeat split; congruence]|done|].
  intros w3 tr P3 K3 T3 G3 F3. eapply wp_mono; [eapply goes_run; by eapply H|].
  intros [] w4 Hr. eapply runs_to_mono; [exact Hr|].
  intros w5 (H1 & H2 & H3 & H4). split; [done|]. split; [done|]. split; [by eapply frame_trans|done].
Qed.

(** The action starts. *)
Lemma node_start f w a h' r why :
  loaded w cb t -> acts w !! id = Some a ->
  (parent_at w id kIdle (a_kind a) cb a -> fits (a_kind a) -> from_start (a_kind a) ->
   kids_ok w id s cs (fun _ => True) ->
   goes func F t cb kIdle (onStart func (start func f) f id) () w h' r why) ->
  start_ends func F t cb (S f) w h' r why.
Proof.
  intros L Ea H. inversion L as [? ? ? ? a' Ea' Hst Hk Hf Hcb _ Hc]; subst.
  rewrite Ea in Ea'. injection Ea' as <-. unfold start_ends. cbn [root start].
  apply wp_bind, (wp_act id a); [done|]. rewrite Hst. apply wp_bind.
  eapply wp_mono; [apply H; [done..|]|].
  { intros i c Hi. split; [left|intros _]; by apply Hc. }
  intros [] w1 (_ & F1 & a1 & E1 & S1 & Hr).
  apply wp_bind, (wp_act id a1); [done|].
  destruct S1 as [S1|S1]; rewrite S1.
  - apply wp_bind, wp_ret, wp_ret. split; [done|]. split; [done|]. intros w' [A1 A2].
    apply (Hr w' a1); [by rewrite A1 by apply root_in|by left|].
    split; [|done]. intros x Hx. apply A1. cbn. by right.
  - apply wp_bind, wp_bind, (wp_upd id a1); [done|]. intros w2 E2 F2 T2 G2.
    eapply wp_upd; [done|]. intros w3 E3 F3 T3 G3. apply wp_ret. split; [done|].
    split; [eapply frame_trans; [exact F1|eapply frame_trans; [exact F2|exact F3|done|done]|done|set_solver]|].
    intros w' [A1 [A2 A3]]. eapply Hr; [by rewrite A1 by apply root_in| |].
    + right. split; [congruence|]. destruct a1 as [?????? [] ????]; done.
    + split; [|split; congruence]. intros x Hx. rewrite A1 by (cbn; by right).
      assert (x ∉ [id]) by (intros ->%list_elem_of_singleton; by apply (id_not_below id)).
      by rewrite F3, F2.
Qed.
End Node.

(** ** The program of a tree *)

Section Correct.
Context (func : nat -> list nat -> bool * option reason) (F : nat).

Definition idle_or_running (st : astate) : Prop := st = kIdle \/ st = kRunning.

Definition start_spec (h : list nat) (t : tree) (h' : list nat) (r : bool) (why : reason) : Prop :=
  forall cb f w, loaded w cb t -> NoDup (tree_ids t) -> tasks w = [] -> funcs w = h ->
    (depth t <= f)%nat -> (depth t <= F)%nat -> start_ends func F t cb f w h' r why.

(** [before] the computation of an action that has not started any of its
    children in [R]. *)
Record before (id : nat) (s : shape) (cs : list tree) (cb : handler) (st : astate) (k : kind) (R : nat -> Prop)
    (h : list nat) (f : nat) (w : world) (a : action) : Prop := mkBefore {
  b_nodup : NoDup (tree_ids (Node id s cs));
  b_arity : arity s (length cs);
  b_at : parent_at w id st k cb a;
  b_st : idle_or_running st;
  b_curr : st = kRunning -> s = SComp -> a_curr a = None;
  b_kids : kids_ok w id s cs R;
  b_tasks : tasks w = [];
  b_funcs : funcs w = h;
  b_fuel : forall i c, cs !! i = Some c -> (depth c <= f)%nat;
  b_fuel' : forall i c, cs !! i = Some c -> (depth c <= F)%nat
}.

(** The child [i] is started and then the handler is run. *)
Lemma before_child id s cs cb st k R h f w a i c h1 r1 why1 h' r why :
  before id s cs cb st k R h f w a -> cs !! i = Some c -> R i -> start_spec h c h1 r1 why1 ->
  handler_of (child_handler s id i) = Some id ->
  (forall w3 a3 tr, before id s cs cb kRunning k (fun j => R j /\ j <> i) h1 F w3 a3 ->
     goes func F (Node id s cs) cb kRunning (parent_body func F (child_handler s id i) r1 why1 tr) () w3 h' r why) ->
  goes func F (Node id s cs) cb st (startThisAction func f id (root c)) true w h' r why.
Proof.
  intros [Hn Ha Hp Hst Hc K T G Hf Hf'] Hi Hr Hs Hh Hk.
  eapply goes_child; [done..| |done|done| |done|].
  - by destruct Hst as [-> | ->].
  - apply Hs; [by apply (K i c Hi)| |done|done|by eauto|by eauto].
    cbn in Hn. apply NoDup_cons in Hn as [_ Hn]. by eapply nodup_kid.
  - intros w3 tr a3 P3 C3 K3 T3 G3. eapply Hk. constructor; try done. by right.
Qed.

Lemma before_finish id s cs cb st k R h f w a g succ why tr :
  before id s cs cb st k R h f w a -> norm k = node_kind s (map root cs) -> (s = SComp -> st = kRunning) ->
  goes func F (Node id s cs) cb st (finish g id succ why tr) () w h succ why.
Proof.
  intros [Hn Ha Hp Hst Hc K T <- Hf Hf'] Hk Hs. eapply goes_finish; [done..| |done|done|done|by auto].
  by destruct Hst as [-> | ->].
Qed.

Lemma start_before id s cs cb f w h h' r why :
  loaded w cb (Node id s cs) -> NoDup (tree_ids (Node id s cs)) -> tasks w = [] -> funcs w = h ->
  (depth (Node id s cs) <= f)%nat -> (depth (Node id s cs) <= F)%nat ->
  (forall a g, before id s cs cb kIdle (a_kind a) (fun _ => True) h g w a -> norm (a_kind a) = node_kind s (map root cs) ->
     from_start (a_kind a) ->
     goes func F (Node id s cs) cb kIdle (onStart func (start func g) g id) () w h' r why) ->
  start_ends func F (Node id s cs) cb f w h' r why.
Proof.
  intros L Hn T G Hd Hd' H. inversion L as [? ? ? ? a Ea Hst Hk Hf Hcb Har Hc]; subst.
  destruct f as [|f]; [cbn in Hd; lia|].
  eapply node_start; [done..|]. intros P Hfit Hs K. apply (H a f); [|done..].
  constructor; try done; [by left|..].
  - intros i c Hi. by eapply depth_kid.
  - intros i c Hi. eapply depth_kid; [exact Hi|]. etransitivity; [exact Hd'|lia].
Qed.

(** The steps before a child starts. *)
Lemma before_act {A} id s cs cb st k R h f w a (m : action -> M world A) v h' r why :
  before id s cs cb st k R h f w a ->
  (a_kind a = k -> goes func F (Node id s cs) cb st (m a) v w h' r why) ->
  goes func F (Node id s cs) cb st (act id ≫= m) v w h' r why.
Proof. intros B H. eapply goes_act; [by apply B|]. apply H. by destruct (b_at _ _ _ _ _ _ _ _ _ _ _ B) as (_ & _ & ? & _). Qed.

Lemma before_upd {A} id s cs cb st k k' R h f w a (m : M world A) v h' r why :
  before id s cs cb st k R h f w a ->
  (forall w' a', before id s cs cb st k' R h f w' a' -> goes func F (Node id s cs) cb st m v w' h' r why) ->
  goes func F (Node id s cs) cb st (upd id (set_kind k');; m) v w h' r why.
Proof.
  intros [Hn Ha Hp Hst Hc K T G Hf Hf'] H. eapply goes_upd; [done..|]. intros w' P' F' T' G'.
  apply (H w' (set_kind k' a)). constructor; try done; [by eapply kids_frame|congruence|congruence].
Qed.

Lemma before_reset {A} id s cs cb st k R h f g w a i c (m : M world A) v h' r why :
  before id s cs cb st k R h f w a -> cs !! i = Some c -> (depth c <= g)%nat ->
  (forall w', before id s cs cb st k (fun j => R j \/ j = i) h f w' a -> goes func F (Node id s cs) cb st m v w' h' r why) ->
  goes func F (Node id s cs) cb st (reset g (root c);; m) v w h' r why.
Proof.
  intros [Hn Ha Hp Hst Hc K T G Hf Hf'] Hi Hd H. eapply goes_reset; [done..|]. intros w' P' K' T' G'.
  apply H. by constructor; [..|congruence| |].
Qed.

Lemma before_weaken id s cs cb st k (R R' : nat -> Prop) h f w a :
  before id s cs cb st k R h f w a -> (forall i, (i < length cs)%nat -> R' i -> R i) ->
  before id s cs cb st k R' h f w a.
Proof. intros [Hn Ha Hp Hst Hc K T G Hf Hf'] H. constructor; try done. by eapply kids_ok_weaken. Qed.

(** *** Lists of children and loops *)

Definition seq_spec (h : list nat) (m : multi_mode) (cs : list tree) (r0 : bool) (why0 : reason)
    (h' : list nat) (r : bool) (why : reason) : Prop :=
  forall id pre cb st f w a tr,
    before id (SSeq m) (pre ++ cs) cb st (Sequence m (length pre) (map root (pre ++ cs)))
      (fun j => (length pre <= j)%nat) h f w a ->
    goes func F (Node id (SSeq m) (pre ++ cs)) cb st (start_or_finish (start func f) f id r0 why0 tr) () w h' r why.

(** Start the [if] of the pair [i], if there is one. *)
Definition start_pair (f id : nat) (ps : list (nat * nat)) (i : nat) : M world () :=
  match ps !! i with
  | Some (c, _) => startThisAction func f id c;; mret ()
  | None => finish f id false (mkReason 10 "IfThenSkip") []
  end.

Definition chain_spec (h : list nat) (cs : list tree) (h' : list nat) (r : bool) (why : reason) : Prop :=
  forall id pre cb st f w a n, length pre = (2 * n)%nat ->
    before id SIfThen (pre ++ cs) cb st (IfThen n (pairs (map root (pre ++ cs))) None)
      (fun j => (length pre <= j)%nat) h f w a ->
    goes func F (Node id SIfThen (pre ++ cs)) cb st (start_pair f id (pairs (map root (pre ++ cs))) n) () w h' r why.

Definition loop_spec (h : list nat) (m : loop_mode) (c : tree) (h' : list nat) (r : bool) (why : reason) : Prop :=
  forall id cb st f w a, before id (SLoop m) [c] cb st (LoopA m (Some (root c))) (fun _ => True) h f w a ->
    goes func F (Node id (SLoop m) [c]) cb st (startThisAction func f id (root c)) true w h' r why.

Definition while_spec (h : list nat) (i e : tree) (h' : list nat) (why : reason) : Prop :=
  forall id res cb st f w a,
    before id (SLoopIf res) [i; e] cb st (LoopIf (Some (root i)) (Some (root e)) res) (fun _ => True) h f w a ->
    goes func F (Node id (SLoopIf res) [i; e]) cb st (startThisAction func f id (root i)) true w h' res why.

(** Here the count changes after the start of the child. *)
Definition times_spec (h : list nat) (m : repeat_mode) (n : Z) (c : tree) (h' : list nat) (r : bool) (why : reason) : Prop :=
  forall id N k cb st f w a, 0 <= n < 2 ^ 64 -> before id (SRepeat m N) [c] cb st k (fun _ => True) h f w a ->
    wp (startThisAction func f id (root c)) w (fun b w1 => b = true /\ frame (tree_ids (Node id (SRepeat m N) [c])) w w1 /\
      acts w1 !! id = Some (set_curr (Some (root c)) a) /\
      forall w' a', parent_at w' id kRunning (Repeat m N n (Some (root c))) cb a' -> agree (tree_ids c) w1 w' ->
        runs_to func F w' (ended (Node id (SRepeat m N) [c]) cb h' r why w')).

Lemma middle {A} (pre : list A) c cs : (pre ++ c :: cs) !! length pre = Some c.
Proof. by apply list_lookup_middle. Qed.

Lemma seq_nil h m r0 why0 : seq_spec h m [] r0 why0 h r0 why0.
Proof.
  intros id pre cb st f w a tr B. apply (before_act _ _ _ _ _ _ _ _ _ _ _ _ _ _ _ _ B). intros ->.
  rewrite lookup_ge_None_2 by (rewrite length_map, app_nil_r; lia).
  eapply before_finish; [exact B|done|done].
Qed.

Lemma seq_cons h m c cs r0 why0 h1 r1 why1 h' r why :
  start_spec h c h1 r1 why1 ->
  (forall id pre cb w a tr, 
    before id (SSeq m) (pre ++ c :: cs) cb kRunning (Sequence m (length pre) (map root (pre ++ c :: cs)))
      (fun j => (length (pre ++ [c]) <= j)%nat) h1 F w a ->
    goes func F (Node id (SSeq m) (pre ++ c :: cs)) cb kRunning (onSequenceChild func F id r1 why1 tr) () w h' r why) ->
  seq_spec h m (c :: cs) r0 why0 h' r why.
Proof.
  intros Hs Hk id pre cb st f w a tr B. apply (before_act _ _ _ _ _ _ _ _ _ _ _ _ _ _ _ _ B). intros ->.
  rewrite list_lookup_fmap, middle. cbn. eapply (goes_bind _ _ _ _ _ _ _ _ _ true); [|by intros].
  eapply before_child; [exact B|apply middle|cbn; lia|done|done|].
  intros w3 a3 tr3 B3. apply (Hk id pre cb w3 a3). eapply before_weaken; [exact B3|].
  intros i _ Hi. rewrite length_app in Hi. cbn in Hi |- *. lia.
Qed.

Lemma seq_stop h m c cs r0 why0 h1 r1 why1 :
  start_spec h c h1 r1 why1 -> breaks m r1 = true -> seq_spec h m (c :: cs) r0 why0 h1 r1 why1.
Proof.
  intros Hs Hb. eapply seq_cons; [exact Hs|]. intros id pre cb w a tr B.
  apply (before_act _ _ _ _ _ _ _ _ _ _ _ _ _ _ _ _ B). intros ->.
  assert ((match m with kAnySucc => r1 | kAnyFail => negb r1 | kAllFinish => false end) = true) as ->
    by (by destruct m).
  eapply before_finish; [exact B|done|done].
Qed.

Lemma seq_next h m c cs r0 why0 h1 r1 why1 h' r why :
  start_spec h c h1 r1 why1 -> breaks m r1 = false -> seq_spec h1 m cs r1 why1 h' r why ->
  seq_spec h m (c :: cs) r0 why0 h' r why.
Proof.
  intros Hs Hb IH. eapply seq_cons; [exact Hs|]. intros id pre cb w a tr B.
  apply (before_act _ _ _ _ _ _ _ _ _ _ _ _ _ _ _ _ B). intros ->.
  assert ((match m with kAnySucc => r1 | kAnyFail => negb r1 | kAllFinish => false end) = false) as ->
    by (by destruct m).
  eapply before_upd; [exact B|]. intros w' a' B'. specialize (IH id (pre ++ [c]) cb kRunning F w' a' tr).
  rewrite <- app_assoc in IH. cbn [app] in IH. apply IH. rewrite length_app, Nat.add_1_r in B' |- *. exact B'.
Qed.

Lemma pairs_middle {A} (pre l : list A) n : length pre = (2 * n)%nat ->
  pairs (pre ++ l) = pairs pre ++ pairs l /\ length (pairs pre) = n.
Proof.
  revert n. induction pre as [|x|x y pre IH] using list_pair_ind; intros n H; cbn in *; [split; [done|lia]|lia|].
  destruct (IH (n - 1)%nat) as [-> E]; [lia|]. split; [done|]. rewrite E. lia.
Qed.

Lemma pairs_here pre i t cs n : length pre = (2 * n)%nat ->
  pairs (map root (pre ++ i :: t :: cs)) !! n = Some (root i, root t).
Proof.
  intros H. rewrite map_app. destruct (pairs_middle (map root pre) (map root (i :: t :: cs)) n) as [-> E].
  { by rewrite length_map. }
  cbn. by apply list_lookup_middle.
Qed.

Lemma pairs_none pre n : length pre = (2 * n)%nat -> pairs (map root (pre ++ [])) !! n = None.
Proof.
  intros H. rewrite app_nil_r. destruct (pairs_middle (map root pre) [] n) as [_ E]; [by rewrite length_map|].
  apply lookup_ge_None_2. lia.
Qed.

Lemma even_2 n : Nat.even (2 * n) = true.
Proof. apply Nat.even_spec. by exists n. Qed.

Lemma chain_nil h : chain_spec h [] h false (mkReason 10 "IfThenSkip").
Proof.
  intros id pre cb st f w a n Hn B. unfold start_pair. rewrite pairs_none by done.
  eapply before_finish; [exact B|done|done].
Qed.

Lemma chain_if h i t cs h1 r1 why1 h' r why :
  start_spec h i h1 r1 why1 ->
  (forall id pre cb w a n, length pre = (2 * n)%nat ->
    before id SIfThen (pre ++ i :: t :: cs) cb kRunning (IfThen n (pairs (map root (pre ++ i :: t :: cs))) None)
      (fun j => (S (length pre) <= j)%nat) h1 F w a ->
    goes func F (Node id SIfThen (pre ++ i :: t :: cs)) cb kRunning (onIfActionFinished func F id r1) () w h' r why) ->
  chain_spec h (i :: t :: cs) h' r why.
Proof.
  intros Hs Hk id pre cb st f w a n Hn B. unfold start_pair. rewrite pairs_here by done.
  assert (child_handler SIfThen id (length pre) = HIfThen id) as E by (cbn; by rewrite Hn, even_2).
  apply (goes_bind _ _ _ _ _ _ _ _ _ true); [|by intros].
  eapply before_child; [exact B|apply middle|cbn; lia|done|by rewrite E|].
  intros w3 a3 tr3 B3. rewrite E. eapply (Hk id pre cb w3 a3 n Hn). eapply before_weaken; [exact B3|].
  intros j _ Hj. cbn. lia.
Qed.

Lemma chain_then h i t cs h1 why1 h' r why :
  start_spec h i h1 true why1 -> start_spec h1 t h' r why -> chain_spec h (i :: t :: cs) h' r why.
Proof.
  intros Hi Ht. eapply chain_if; [exact Hi|]. intros id pre cb w a n Hn B.
  apply (before_act _ _ _ _ _ _ _ _ _ _ _ _ _ _ _ _ B). intros ->. rewrite pairs_here by done.
  assert (child_handler SIfThen id (S (length pre)) = HLast id) as E.
  { unfold child_handler. by rewrite Hn, Nat.even_succ, <- Nat.negb_even, even_2. }
  apply (goes_bind _ _ _ _ _ _ _ _ _ true); [|by intros].
  eapply (before_child _ _ _ _ _ _ _ _ _ _ _ (S (length pre)) t); [exact B| |cbn; lia|exact Ht|by rewrite E|].
  { rewrite lookup_app_r by lia. by replace (S (length pre) - length pre)%nat with 1%nat by lia. }
  intros w3 a3 tr3 B3. rewrite E. eapply before_finish; [exact B3|done|done].
Qed.

Lemma chain_else h i t cs h1 why1 h' r why :
  start_spec h i h1 false why1 -> chain_spec h1 cs h' r why -> chain_spec h (i :: t :: cs) h' r why.
Proof.
  intros Hi IH. eapply chain_if; [exact Hi|]. intros id pre cb w a n Hn B.
  apply (before_act _ _ _ _ _ _ _ _ _ _ _ _ _ _ _ _ B). intros ->.
  eapply before_upd; [exact B|]. intros w' a' B'. specialize (IH id (pre ++ [i; t]) cb kRunning F w' a' (S n)).
  rewrite <- app_assoc in IH. cbn [app] in IH. apply IH.
  { rewrite length_app. cbn. lia. }
  eapply before_weaken; [exact B'|]. intros j _ Hj. rewrite length_app in Hj. cbn in Hj |- *. lia.
Qed.

(** *** Loops *)

Lemma loop_end h m c h1 r1 why1 : start_spec h c h1 r1 why1 -> loop_ends m r1 = true -> loop_spec h m c h1 r1 why1.
Proof.
  intros Hs Hb id cb st f w a B. eapply (before_child _ _ _ _ _ _ _ _ _ _ _ 0%nat); [exact B|done..|].
  intros w3 a3 tr B3. apply (before_act _ _ _ _ _ _ _ _ _ _ _ _ _ _ _ _ B3). intros ->.
  assert ((match m with kUntilSucc => r1 | kUntilFail => negb r1 | kForever => false end) = true) as -> by (by destruct m).
  eapply before_finish; [exact B3|done|done].
Qed.

Lemma loop_again h m c h1 r1 why1 h' r why : start_spec h c h1 r1 why1 -> loop_ends m r1 = false ->
  loop_spec h1 m c h' r why -> loop_spec h m c h' r why.
Proof.
  intros Hs Hb IH id cb st f w a B. eapply (before_child _ _ _ _ _ _ _ _ _ _ _ 0%nat); [exact B|done..|].
  intros w3 a3 tr B3. apply (before_act _ _ _ _ _ _ _ _ _ _ _ _ _ _ _ _ B3). intros ->.
  assert ((match m with kUntilSucc => r1 | kUntilFail => negb r1 | kForever => false end) = false) as -> by (by destruct m).
  eapply (before_reset _ _ _ _ _ _ _ _ _ _ _ _ 0%nat); [exact B3|done|by apply (b_fuel' _ _ _ _ _ _ _ _ _ _ _ B3 0%nat)|].
  intros w4 B4. apply (goes_bind _ _ _ _ _ _ _ _ _ true); [|by intros]. eapply IH, before_weaken; [exact B4|].
  intros [|j] Hj _; [by right|cbn in Hj; lia].
Qed.

Lemma while_end h i e h1 why1 : start_spec h i h1 false why1 -> while_spec h i e h1 why1.
Proof.
  intros Hs id res cb st f w a B. eapply (before_child _ _ _ _ _ _ _ _ _ _ _ 0%nat); [exact B|done..|].
  intros w3 a3 tr B3. apply (before_act _ _ _ _ _ _ _ _ _ _ _ _ _ _ _ _ B3). intros ->.
  eapply before_finish; [exact B3|done|done].
Qed.

Lemma while_again h i e h1 why1 h2 r2 why2 h' why : start_spec h i h1 true why1 -> start_spec h1 e h2 r2 why2 ->
  while_spec h2 i e h' why -> while_spec h i e h' why.
Proof.
  intros Hs He IH id res cb st f w a B. eapply (before_child _ _ _ _ _ _ _ _ _ _ _ 0%nat); [exact B|done..|].
  intros w3 a3 tr B3. apply (before_act _ _ _ _ _ _ _ _ _ _ _ _ _ _ _ _ B3). intros ->.
  apply (goes_bind _ _ _ _ _ _ _ _ _ true); [|by intros].
  eapply (before_child _ _ _ _ _ _ _ _ _ _ _ 1%nat); [exact B3|done..|].
  intros w4 a4 tr4 B4. apply (before_act _ _ _ _ _ _ _ _ _ _ _ _ _ _ _ _ B4). intros ->.
  eapply (before_reset _ _ _ _ _ _ _ _ _ _ _ _ 0%nat); [exact B4|done|by apply (b_fuel' _ _ _ _ _ _ _ _ _ _ _ B4 0%nat)|].
  intros w5 B5.
  eapply (before_reset _ _ _ _ _ _ _ _ _ _ _ _ 1%nat); [exact B5|done|by apply (b_fuel' _ _ _ _ _ _ _ _ _ _ _ B5 1%nat)|].
  intros w6 B6. apply (goes_bind _ _ _ _ _ _ _ _ _ true); [|by intros]. eapply IH, before_weaken; [exact B6|].
  intros [|[|j]] Hj _; [by left; right|by right|cbn in Hj; lia].
Qed.

Lemma times_cons h m n c h1 r1 why1 h' r why : start_spec h c h1 r1 why1 ->
  (forall id N cb w a tr, 0 <= n < 2 ^ 64 ->
    before id (SRepeat m N) [c] cb kRunning (Repeat m N n (Some (root c))) (fun j => j <> 0%nat) h1 F w a ->
    goes func F (Node id (SRepeat m N) [c]) cb kRunning (onRepeatChild func F id r1 why1 tr) () w h' r why) ->
  times_spec h m n c h' r why.
Proof.
  intros Hs Hk id N k cb st f w a Hr [Hn Ha Hp Hst Hc K T G Hf Hf'].
  assert (start_ends func F c (child_handler (SRepeat m N) id 0) f w h1 r1 why1) as He.
  { apply Hs; [by apply (K 0%nat c)| |done|done|by apply (Hf 0%nat)|by apply (Hf' 0%nat)].
    cbn in Hn. apply NoDup_cons in Hn as [_ Hn]. by rewrite app_nil_r in Hn. }
  eapply wp_mono; [by eapply (launch_child func F id _ [c] cb Hn Ha 0%nat)|]. intros b w1 (-> & F1 & E1 & Hl).
  split; [done|]. split; [done|]. split; [done|]. intros w' a' P' A.
  apply (Hl w' _ a' _ P'). { by rewrite <- (app_nil_r (tree_ids c)) in A. }
  intros w3 tr P3 K3 T3 G3 F3. eapply wp_mono.
  { eapply goes_run, Hk; [done|]. constructor; try done; [by right|].
    eapply kids_ok_weaken; [exact K3|]. by intros i _ Hi. }
  intros [] w4 H4. eapply runs_to_mono; [exact H4|].
  intros w5 (H5 & H6 & H7 & H8). split; [done|]. split; [done|]. split; [by eapply frame_trans|done].
Qed.

Lemma repeat_ends_if m r1 : (match m with kBreakSucc => r1 | kBreakFail => negb r1 | kNoBreak => false end) = repeat_ends m r1.
Proof. by destruct m. Qed.

Lemma times_break h m n c h1 r1 why1 : start_spec h c h1 r1 why1 -> repeat_ends m r1 = true ->
  times_spec h m n c h1 r1 why1.
Proof.
  intros Hs Hb. eapply times_cons; [exact Hs|]. intros id N cb w a tr Hr B.
  apply (before_act _ _ _ _ _ _ _ _ _ _ _ _ _ _ _ _ B). intros ->. rewrite repeat_ends_if, Hb.
  eapply before_finish; [exact B|done|done].
Qed.

Lemma times_last h m c h1 r1 why1 : start_spec h c h1 r1 why1 -> repeat_ends m r1 = false ->
  times_spec h m 0 c h1 true (mkReason 7 "RepeatNoTimes").
Proof.
  intros Hs Hb. eapply times_cons; [exact Hs|]. intros id N cb w a tr Hr B.
  apply (before_act _ _ _ _ _ _ _ _ _ _ _ _ _ _ _ _ B). intros ->. rewrite repeat_ends_if, Hb.
  eapply before_finish; [exact B|done|done].
Qed.

Lemma times_again h m n c h1 r1 why1 h' r why : start_spec h c h1 r1 why1 -> repeat_ends m r1 = false -> 0 < n ->
  times_spec h1 m (n - 1) c h' r why -> times_spec h m n c h' r why.
Proof.
  intros Hs Hb Hn IH. eapply times_cons; [exact Hs|]. intros id N cb w a tr Hr B.
  apply (before_act _ _ _ _ _ _ _ _ _ _ _ _ _ _ _ _ B). intros ->. rewrite repeat_ends_if, Hb.
  rewrite (proj2 (Z.ltb_lt _ _)) by done.
  eapply (before_reset _ _ _ _ _ _ _ _ _ _ _ _ 0%nat); [exact B|done|by apply (b_fuel' _ _ _ _ _ _ _ _ _ _ _ B 0%nat)|].
  intros w4 B4. pose proof (b_at _ _ _ _ _ _ _ _ _ _ _ B4) as (E4 & S4 & K4 & C4).
  apply wp_bind. eapply wp_mono.
  { eapply (IH id N); [lia|]. eapply before_weaken; [exact B4|]. intros [|j] Hj _; [by right|cbn in Hj; lia]. }
  intros b w5 (-> & F5 & E5 & Hr5).
  eapply wp_upd; [done|]. intros w6 E6 F6 T6 G6. cbn in E6. rewrite K4 in E6.
  split; [done|]. split; [eapply frame_trans; [exact F5|exact F6|done|set_solver]|].
  eexists. split; [exact E6|]. split; [by right|].
  intros w' a' E' U [A1 [A2 A3]]. cbn in U. destruct U as [[U _]|(_ & U1 & U2 & U3)]; [cbn in U; congruence|].
  apply (Hr5 w' a').
  - split; [exact E'|]. split; [done|]. rewrite U2, U3. cbn. rewrite wrap_small by (unfold in_range; lia). done.
  - split; [|split; congruence]. intros x Hx. rewrite A1 by (cbn; by rewrite app_nil_r).
    apply F6. intros ->%list_elem_of_singleton. destruct B as [Hnd _ _ _ _ _ _ _ _ _]. cbn in Hnd.
    apply NoDup_cons in Hnd as [Hid _]. apply Hid. by rewrite app_nil_r.
Qed.

(** *** The kinds of actions *)

(** Start the proof for one kind: what [onStart] does. *)
Ltac start_case Hk :=
  let B := fresh "B" in let a := fresh "a" in let g := fresh "g" in let Hs := fresh "Hs" in
  intros cb f w L Hn T G Hd Hd'; eapply start_before; [done..|]; clear T G;
  intros a g B Hk Hs; unfold onStart; apply (before_act _ _ _ _ _ _ _ _ _ _ _ _ _ _ _ _ B); intros _;
  revert B Hk Hs; destruct (a_kind a); intros B Hk Hs; try discriminate Hk; try (injection Hk as Hk; subst).

(** The child [i] starts with the handler that makes its result the action's. *)
Lemma last_child id s cs cb st k R h f w a i c h' r why :
  before id s cs cb st k R h f w a -> cs !! i = Some c -> R i -> start_spec h c h' r why ->
  child_handler s id i = HLast id -> norm k = node_kind s (map root cs) ->
  goes func F (Node id s cs) cb st (startThisAction func f id (root c);; mret ()) () w h' r why.
Proof.
  intros B Hi Hr Hs Hh Hk. apply (goes_bind _ _ _ _ _ _ _ _ _ true); [|by intros].
  eapply before_child; [done..|by rewrite Hh|]. intros w3 a3 tr B3. rewrite Hh.
  by eapply before_finish.
Qed.

Lemma spec_func h id n r why : func n h = (r, why) ->
  start_spec h (Node id (SFunc n) []) (h ++ [n]) r (default (mkReason 2 "FunctionAction") why).
Proof.
  intros E. start_case Hk. apply goes_after. unfold call_func. apply wp_bind. unfold wp at 1, get.
  apply wp_bind. unfold wp at 1, put. rewrite (b_funcs _ _ _ _ _ _ _ _ _ _ _ B), E. apply wp_ret.
  split; [done|]. eapply (before_finish _ _ _ _ _ (FunctionA (Some n)) (fun _ => True)); [|done|done].
  destruct B as [B1 B2 B3 B4 B5 B6 B7 B8 B9 B10]. by constructor.
Qed.

Lemma spec_succ h id : start_spec h (Node id SSucc []) h true (mkReason 4 "SuccAction").
Proof. start_case Hk. eapply before_finish; [exact B|done|done]. Qed.

Lemma spec_fail h id : start_spec h (Node id SFail []) h false (mkReason 5 "FailAction").
Proof. start_case Hk. eapply before_finish; [exact B|done|done]. Qed.

Lemma spec_seq h id m cs h' r why : seq_spec h m cs true no_reason h' r why ->
  start_spec h (Node id (SSeq m) cs) h' r why.
Proof.
  intros H. start_case Hk. cbn in Hs. subst. eapply (H id []). eapply before_weaken; [exact B|done].
Qed.

Lemma spec_wrap h id m c h' r why : start_spec h c h' r why ->
  start_spec h (Node id (SWrap m) [c]) h' (wrapped m r) why.
Proof.
  intros H. start_case Hk. apply (goes_bind _ _ _ _ _ _ _ _ _ true); [|by intros].
  eapply (before_child _ _ _ _ _ _ _ _ _ _ _ 0%nat); [exact B|done..|].
  intros w3 a3 tr B3. apply (before_act _ _ _ _ _ _ _ _ _ _ _ _ _ _ _ _ B3). intros ->.
  eapply before_finish; [exact B3|done|done].
Qed.

Lemma spec_comp h id c h' r why : start_spec h c h' r why -> start_spec h (Node id SComp [c]) h' r why.
Proof. intros H. start_case Hk. eapply (last_child _ _ _ _ _ _ _ _ _ _ _ 0%nat); done. Qed.

Lemma spec_loop h id m c h' r why : loop_spec h m c h' r why -> start_spec h (Node id (SLoop m) [c]) h' r why.
Proof.
  intros H. start_case Hk. apply (goes_bind _ _ _ _ _ _ _ _ _ true); [|by intros]. by eapply H.
Qed.

Lemma spec_while h id res i e h' why : while_spec h i e h' why ->
  start_spec h (Node id (SLoopIf res) [i; e]) h' res why.
Proof.
  intros H. start_case Hk. apply (goes_bind _ _ _ _ _ _ _ _ _ true); [|by intros]. by eapply H.
Qed.

Lemma spec_repeat h id m N c h' r why : 1 <= N < 2 ^ 64 -> times_spec h m (N - 1) c h' r why ->
  start_spec h (Node id (SRepeat m N) [c]) h' r why.
Proof.
  intros HN H. start_case Hk. rewrite wrap_small by (unfold in_range; lia).
  eapply before_upd; [exact B|]. intros w1 a1 B1. pose proof (b_at _ _ _ _ _ _ _ _ _ _ _ B1) as (E1 & S1 & K1 & C1).
  apply (goes_bind _ _ _ _ _ _ _ _ _ true); [|by intros]. eapply wp_mono; [eapply H; [lia|exact B1]|].
  intros b w2 (-> & F2 & E2 & Hr). split; [done|]. split; [done|]. eexists. split; [exact E2|]. split; [by right|].
  intros w' a' E' U A. destruct U as [[U _]|(_ & U1 & U2 & U3)]; [cbn in U; congruence|]. cbn in U2, U3.
  apply (Hr w' a').
  - split; [exact E'|]. split; [done|]. by rewrite U2, U3.
  - cbn in A. by rewrite app_nil_r in A.
Qed.

Lemma spec_ifthen h id cs h' r why : chain_spec h cs h' r why -> start_spec h (Node id SIfThen cs) h' r why.
Proof.
  intros H. start_case Hk. eapply before_upd; [exact B|]. intros w1 a1 B1.
  assert (goes func F (Node id SIfThen cs) cb kIdle (start_pair g id (pairs (map root cs)) 0) () w1 h' r why) as Hg.
  { eapply (H id []); [done|]. eapply before_weaken; [exact B1|done]. }
  unfold start_pair in Hg. by destruct (pairs (map root cs)) as [|[x y] ps].
Qed.

Lemma if_branch_index ht he c bs r b : if_branch ht he bs r = Some b ->
  exists i, (c :: bs) !! S i = Some b /\
    (if r then (if ht then map root (c :: bs) !! 1%nat else None)
     else (if he then map root (c :: bs) !! (if ht then 2%nat else 1%nat) else None)) = Some (root b).
Proof.
  unfold if_branch. destruct r, ht, he; intros E; try discriminate E.
  1,2: exists 0%nat. 3: exists 1%nat. 4: exists 0%nat.
  all: split; [exact E|]; transitivity (root <$> Some b); [rewrite <- E|done].
  all: apply (list_lookup_fmap root (c :: bs)).
Qed.

Lemma if_branch_none ht he c bs r : length (c :: bs) = (1 + Nat.b2n ht + Nat.b2n he)%nat -> if_branch ht he bs r = None ->
  (if r then (if ht then map root (c :: bs) !! 1%nat else None)
   else (if he then map root (c :: bs) !! (if ht then 2%nat else 1%nat) else None)) = None.
Proof.
  destruct r, ht, he, bs as [|? [|? [|]]]; cbn; intros Hl E; try discriminate E; try discriminate Hl; done.
Qed.

Lemma spec_if h id ht he c bs h1 r1 why1 b h' r why : start_spec h c h1 r1 why1 ->
  if_branch ht he bs r1 = Some b -> start_spec h1 b h' r why ->
  start_spec h (Node id (SIf ht he) (c :: bs)) h' r why.
Proof.
  intros H1 Hb H2. destruct (if_branch_index ht he c bs r1 b Hb) as (i & Hi & Ei).
  start_case Hk. subst. apply (goes_bind _ _ _ _ _ _ _ _ _ true); [|by intros].
  eapply (before_child _ _ _ _ _ _ _ _ _ _ _ 0%nat); [exact B|done..|].
  intros w3 a3 tr B3. apply (before_act _ _ _ _ _ _ _ _ _ _ _ _ _ _ _ _ B3). intros ->.
  match goal with |- context [match ?o with Some c => _ | None => _ end] =>
    replace o with (Some (root b)) by (symmetry; exact Ei) end.
  eapply last_child; [exact B3|exact Hi|done|done|done|done].
Qed.

Lemma spec_if_none h id ht he c bs h1 r1 why1 : start_spec h c h1 r1 why1 -> if_branch ht he bs r1 = None ->
  start_spec h (Node id (SIf ht he) (c :: bs)) h1 true why1.
Proof.
  intros H1 Hb. start_case Hk. subst. apply (goes_bind _ _ _ _ _ _ _ _ _ true); [|by intros].
  eapply (before_child _ _ _ _ _ _ _ _ _ _ _ 0%nat); [exact B|done..|].
  intros w3 a3 tr B3. apply (before_act _ _ _ _ _ _ _ _ _ _ _ _ _ _ _ _ B3). intros ->.
  pose proof (if_branch_none ht he c bs r1 (b_arity _ _ _ _ _ _ _ _ _ _ _ B3) Hb) as Ei.
  match goal with |- context [match ?o with Some c => _ | None => _ end] =>
    replace o with (@None nat) by (symmetry; exact Ei) end.
  eapply before_finish; [exact B3|done|done].
Qed.

Lemma pick_label_cases labels bs l :
  (list_to_map (zip labels (map root bs)) : gmap string nat) !! l = root <$> pick_label labels bs l.
Proof.
  revert bs. induction labels as [|x labels IH]; intros [|b bs]; try apply lookup_empty.
  cbn [map zip zip_with list_to_map foldr pick_label]. destruct (String.eqb_spec x l) as [->|Hne].
  - by rewrite lookup_insert_eq.
  - rewrite lookup_insert_ne by done. apply IH.
Qed.

Lemma pick_label_index labels bs l b : pick_label labels bs l = Some b -> exists i, bs !! i = Some b.
Proof.
  revert bs. induction labels as [|x labels IH]; intros [|b' bs] E; try discriminate E.
  cbn in E. destruct (String.eqb x l).
  - exists 0%nat. exact E.
  - destruct (IH bs E) as [i Hi]. by exists (S i).
Qed.

(** The cases of the code and the branch that the program takes. *)
Lemma switch_branch_code (labels : list string) (d : bool) c bs l : 
  let cases := list_to_map (zip labels (map root bs)) : gmap string nat in
  let default_ := if d then map root bs !! length labels else None in
  match switch_branch labels d bs l with
  | Some b => (exists i, (c :: bs) !! S i = Some b) /\
              (cases !! l = Some (root b) \/ cases !! l = None /\ default_ = Some (root b))
  | None => cases !! l = None /\ (d = true -> bs !! length labels = None) /\ default_ = None
  end.
Proof.
  cbn. rewrite pick_label_cases. unfold switch_branch.
  destruct (pick_label labels bs l) as [b|] eqn:E.
  { destruct (pick_label_index _ _ _ _ E) as [i Hi]. split; [by exists i|by left]. }
  destruct d; [|done].
  assert (map root bs !! length labels = root <$> bs !! length labels) as Em by apply list_lookup_fmap.
  destruct (bs !! length labels) as [b|] eqn:Eb.
  - split; [by eauto|]. right. split; [done|exact Em].
  - done.
Qed.

Lemma spec_switch h id labels d c bs h1 why1 h' r why : start_spec h c h1 true why1 ->
  match switch_branch labels d bs (r_message why1) with
  | Some b => start_spec h1 b h' r why
  | None => h' = h1 /\ r = false /\ why = mkReason 9 "SwitchSkip"
  end ->
  start_spec h (Node id (SSwitch labels d) (c :: bs)) h' r why.
Proof.
  intros H1 Hb. pose proof (switch_branch_code labels d c bs (r_message why1)) as Hc. cbv zeta in Hc.
  start_case Hk. subst. apply (goes_bind _ _ _ _ _ _ _ _ _ true); [|by intros].
  eapply (before_child _ _ _ _ _ _ _ _ _ _ _ 0%nat); [exact B|done..|].
  intros w3 a3 tr B3. apply (before_act _ _ _ _ _ _ _ _ _ _ _ _ _ _ _ _ B3). intros ->.
  destruct (switch_branch labels d bs (r_message why1)) as [b|].
  - destruct Hc as [[i Hi] [-> |[-> ->]]]; (eapply last_child; [exact B3|exact Hi|done|done|done|done]).
  - destruct Hc as (-> & _ & ->), Hb as (-> & -> & ->). eapply before_finish; [exact B3|done|done].
Qed.

Lemma spec_switch_fail h id labels d c bs h1 why1 : start_spec h c h1 false why1 ->
  start_spec h (Node id (SSwitch labels d) (c :: bs)) h1 false (mkReason 8 "SwitchFail").
Proof.
  intros H1. start_case Hk. subst. apply (goes_bind _ _ _ _ _ _ _ _ _ true); [|by intros].
  eapply (before_child _ _ _ _ _ _ _ _ _ _ _ 0%nat); [exact B|done..|].
  intros w3 a3 tr B3. apply (before_act _ _ _ _ _ _ _ _ _ _ _ _ _ _ _ _ B3). intros ->.
  eapply before_finish; [exact B3|done|done].
Qed.

(** A tree computes its program. *)
Lemma eval_spec h t h' r why : eval func h t h' r why -> start_spec h t h' r why.
Proof.
  apply (eval_mut func start_spec seq_spec chain_spec loop_spec while_spec times_spec); intros;
    first [by eapply spec_func | by apply spec_succ | by apply spec_fail | by apply spec_seq
      | by eapply spec_if | by eapply spec_if_none | by apply spec_ifthen | by apply spec_loop
      | by apply spec_while | by apply spec_repeat | by apply spec_wrap | by apply spec_comp
      | by apply seq_nil | by apply seq_stop | by eapply seq_next | by apply chain_nil
      | by eapply chain_then | by eapply chain_else | by apply loop_end | by eapply loop_again
      | by eapply while_end | by eapply while_again | by apply times_break | by eapply times_last
      | by eapply times_again | by eapply spec_switch_fail | idtac ].
  - eapply spec_switch; [done|]. match goal with H : switch_branch _ _ _ _ = _ |- _ => by rewrite H end.
  - eapply spec_switch; [done|]. match goal with H : switch_branch _ _ _ _ = _ |- _ => by rewrite H end.
Qed.
End Correct.

(** ** The theorems *)

(** The last step: the callback of the user. *)
Lemma ended_user func F t h' r why w w1 : ended t HUser h' r why w w1 ->
  exists w', steps func F 1 w1 = Ret ((), w') /\ settled w' HUser t /\ funcs w' = h' /\ tasks w' = [] /\
    (exists a, acts w' !! root t = Some a /\ a_state a = kFinished /\ a_result a = result_of r) /\
    exists l tr, seen w' = l ++ [OFinished r why tr].
Proof.
  intros (S1 & (a & E1 & R1) & F1 & G1 & k & tr & T1). eexists. split.
  { cbn. unfold step, mbind, M_bind, get, put. by rewrite T1. }
  split; [by eapply settled_ext|]. split; [exact G1|]. split; [done|]. split; [by exists a|].
  by eexists _, _.
Qed.

Lemma steps_add func F n m w : steps func F (n + m) w = (steps func F n;; steps func F m) w.
Proof.
  revert w. induction n as [|n IH]; intros w; [done|]. cbn.
  unfold mbind, M_bind. destruct (step func F w) as [[[] w1]| |]; [|done..]. apply IH.
Qed.

(** Start the tree and run [n] tasks. *)
Definition run_tree (func : nat -> list nat -> bool * option reason) (fuel n : nat) (t : tree) : M world bool :=
  ok ← start func fuel (root t); steps func fuel n;; mret ok.

Lemma run_tree_ends func fuel h t h' r why w :
  eval func h t h' r why -> loaded w HUser t -> NoDup (tree_ids t) -> tasks w = [] -> funcs w = h ->
  (depth t <= fuel)%nat ->
  exists n w', run_tree func fuel n t w = Ret (true, w') /\ settled w' HUser t /\ funcs w' = h' /\ tasks w' = [] /\
    (exists a, acts w' !! root t = Some a /\ a_state a = kFinished /\ a_result a = result_of r) /\
    exists l tr, seen w' = l ++ [OFinished r why tr].
Proof.
  intros He L Hn T G Hd. pose proof (eval_spec func fuel _ _ _ _ _ He HUser fuel w L Hn T G Hd Hd) as Hs.
  unfold start_ends, wp in Hs. destruct (start func fuel (root t) w) as [[b w1]| |] eqn:E1; [|done..].
  destruct Hs as (-> & F1 & Hr). destruct (Hr w1) as [n Hrun]; [by repeat split|].
  unfold wp in Hrun. destruct (steps func fuel n w1) as [[[] w2]| |] eqn:E2; [|done..].
  destruct (ended_user func fuel _ _ _ _ _ _ Hrun) as (w3 & E3 & H3).
  exists (n + 1)%nat, w3. split; [|exact H3]. unfold run_tree.
  rewrite (bind_Ret _ _ _ _ _ E1). erewrite bind_Ret; [done|].
  rewrite steps_add. by rewrite (bind_Ret _ _ _ _ _ E2).
Qed.

(** C16: A tree of serial actions computes its program.  When the tree stands in
    the store, ready, with the callback of the user, and the program that it
    stands for ends with [r] and [why] after calling the functions up to [h'],
    then [start] accepts, and after finitely many tasks of the loop exactly
    these functions have been called, the root has finished with that result,
    the callback of the user has been called with it, and nothing is left to
    do.  The program of a sequence is the one the unit tests check, not the one
    of its header: left at the end, it gives the result of its last child. *)
Theorem flow_runs_program func fuel h t h' r why w :
  eval func h t h' r why -> loaded w HUser t -> NoDup (tree_ids t) -> tasks w = [] -> funcs w = h ->
  (depth t <= fuel)%nat ->
  exists n w', run_tree func fuel n t w = Ret (true, w') /\ funcs w' = h' /\ tasks w' = [] /\
    (exists a, acts w' !! root t = Some a /\ a_state a = kFinished /\ a_result a = result_of r) /\
    exists l tr, seen w' = l ++ [OFinished r why tr].
Proof.
  intros He L Hn T G Hd. destruct (run_tree_ends func fuel h t h' r why w He L Hn T G Hd) as (n & w' & H1 & _ & H2).
  by exists n, w'.
Qed.

(** The program in the comment of sequence_action.h, on the results of the
    children. *)
Fixpoint header_sequence (m : multi_mode) (rs : list bool) : bool :=
  match rs with
  | [] => true
  | r :: rs' => if breaks m r then r else header_sequence m rs'
  end.

(** The sequence of the test FinishIfAllFinish_AllFail: both children fail, and
    so does the sequence; the program of the header returns true. *)
Definition failing_tree : tree := Node 0 (SSeq kAllFinish) [Node 1 SFail []; Node 2 SFail []].

Definition failing_world : world :=
  match (addChild 0 (Some 1%nat);; addChild 0 (Some 2%nat);; upd 0 (set_cbs HUser BUser))
          (world0 [(0%nat, Sequence kAllFinish 0 []); (1%nat, FailA); (2%nat, FailA)]) with
  | Ret (_, w) => w
  | _ => world0 []
  end.

Example header_sequence_differs :
  match run_tree fn_table 4 3 failing_tree failing_world with
  | Ret (true, w) => option_map a_result (acts w !! 0%nat) = Some (result_of false) /\ tasks w = []
  | _ => False
  end /\ header_sequence kAllFinish [false; false] = true.
Proof. vm_compute. repeat split. Qed.

(** After a run the tree can be reset and run again: the second run computes
    the program once more, now after the calls of the first. *)
Theorem flow_runs_again func fuel h t h1 r1 why1 h2 r2 why2 w :
  eval func h t h1 r1 why1 -> eval func h1 t h2 r2 why2 ->
  loaded w HUser t -> NoDup (tree_ids t) -> tasks w = [] -> funcs w = h -> (depth t <= fuel)%nat ->
  exists n m w', (run_tree func fuel n t;; reset fuel (root t);; run_tree func fuel m t) w = Ret (true, w') /\
    funcs w' = h2 /\ tasks w' = [] /\
    (exists a, acts w' !! root t = Some a /\ a_state a = kFinished /\ a_result a = result_of r2) /\
    exists l tr, seen w' = l ++ [OFinished r2 why2 tr].
Proof.
  intros He1 He2 L Hn T G Hd.
  destruct (run_tree_ends func fuel h t h1 r1 why1 w He1 L Hn T G Hd) as (n & w1 & E1 & S1 & G1 & T1 & _).
  assert (wp (reset fuel (root t)) w1 (fun _ w2 => loaded w2 HUser t /\ tasks w2 = [] /\ funcs w2 = h1)) as Hr.
  { eapply wp_reset; [done..|]. intros w2 L2 F2 T2 G2. by rewrite G2. }
  unfold wp in Hr. destruct (reset fuel (root t) w1) as [[[] w2]| |] eqn:E2; [|done..].
  destruct Hr as (L2 & T2 & G2).
  destruct (run_tree_ends func fuel h1 t h2 r2 why2 w2 He2 L2 Hn T2 G2 Hd) as (m & w3 & E3 & _ & H3).
  exists n, m, w3. split; [|done].
  by rewrite (bind_Ret _ _ _ _ _ E1), (bind_Ret _ _ _ _ _ E2).
Qed.

(** *** An example *)

Definition sample_tree : tree :=
  Node 0 (SSeq kAnyFail) [Node 1 (SFunc 8) []; Node 2 (SRepeat kBreakFail 7) [Node 3 (SFunc 3) []]].

Definition sample_world : world :=
  match (addChild 0 (Some 1%nat);; addChild 0 (Some 2%nat);; setChild 5 2 (Some 3%nat);; upd 0 (set_cbs HUser BUser))
          (world0 [(0%nat, Sequence kAnyFail 0 []); (1%nat, FunctionA (Some 8%nat));
                   (2%nat, Repeat kBreakFail 7 0 None); (3%nat, FunctionA (Some 3%nat))]) with
  | Ret (_, w) => w
  | _ => world0 []
  end.

Lemma sample_loaded : loaded sample_world HUser sample_tree.
Proof.
  assert (forall cb id k a, acts sample_world !! id = Some a -> a_state a = kIdle -> norm (a_kind a) = node_kind (SFunc k) [] ->
            a_finish_cb a = Some cb -> loaded sample_world cb (Node id (SFunc k) [])) as Hleaf.
  { intros cb id k a Ea Hs Hk Hcb. eapply loaded_node; try done. destruct (a_kind a); done. }
  eapply loaded_node; [reflexivity..|done|]. intros [|[|i]] c Hc; [| |done]; injection Hc as <-.
  - by eapply Hleaf.
  - eapply loaded_node; [reflexivity..|done|]. intros [|i] c Hc; [|done]. injection Hc as <-. by eapply Hleaf.
Qed.

Lemma sample_eval : eval fn_table [] sample_tree [8; 3; 3; 3]%nat false (mkReason 2 "FunctionAction").
Proof.
  apply E_seq. eapply Q_next; [by apply (E_func fn_table [] 1 8)|done|].
  eapply Q_stop; [|done]. apply E_repeat; [lia|].
  eapply T_again; [by apply (E_func fn_table [8%nat] 3 3)|done|lia|].
  eapply T_again; [by apply (E_func fn_table [8; 3]%nat 3 3)|done|lia|].
  eapply T_break; [exact (E_func fn_table [8; 3; 3]%nat 3 3 false None eq_refl)|done].
Qed.

Lemma sample_nodup : NoDup (tree_ids sample_tree).
Proof. vm_compute. apply (bool_decide_unpack _). by vm_compute. Qed.

Lemma flow_runs_program_witness :
  exists n w', run_tree fn_table 4 n sample_tree sample_world = Ret (true, w') /\ funcs w' = [8; 3; 3; 3]%nat /\ tasks w' = [] /\
    (exists a, acts w' !! root sample_tree = Some a /\ a_state a = kFinished /\ a_result a = result_of false) /\
    exists l tr, seen w' = l ++ [OFinished false (mkReason 2 "FunctionAction") tr].
Proof.
  apply (flow_runs_program fn_table 4 [] sample_tree).
  - apply sample_eval.
  - apply sample_loaded.
  - apply sample_nodup.
  - reflexivity.
  - reflexivity.
  - vm_compute. lia.
Defined.

(** The second time the function has had enough at once. *)
Lemma sample_eval_again : eval fn_table [8; 3; 3; 3]%nat sample_tree [8; 3; 3; 3; 8; 3]%nat false (mkReason 2 "FunctionAction").
Proof.
  apply E_seq. eapply Q_next; [by apply (E_func fn_table [8; 3; 3; 3]%nat 1 8)|done|].
  eapply Q_stop; [|done]. apply E_repeat; [lia|].
  eapply T_break; [exact (E_func fn_table [8; 3; 3; 3; 8]%nat 3 3 false None eq_refl)|done].
Qed.

Lemma flow_runs_again_witness :
  exists n m w', (run_tree fn_table 4 n sample_tree;; reset 4 (root sample_tree);; run_tree fn_table 4 m sample_tree) sample_world
      = Ret (true, w') /\
    funcs w' = [8; 3; 3; 3; 8; 3]%nat /\ tasks w' = [] /\
    (exists a, acts w' !! root sample_tree = Some a /\ a_state a = kFinished /\ a_result a = result_of false) /\
    exists l tr, seen w' = l ++ [OFinished false (mkReason 2 "FunctionAction") tr].
Proof.
  apply (flow_runs_again fn_table 4 [] sample_tree [8; 3; 3; 3]%nat false (mkReason 2 "FunctionAction")).
  - apply sample_eval.
  - apply sample_eval_again.
  - apply sample_loaded.
  - apply sample_nodup.
  - reflexivity.
  - reflexivity.
  - vm_compute. lia.
Defined.

(** ** What a parallel action loses *)

(** A parallel action with one child, paused while the finish event of the child
    is on its way, and resumed. *)
Definition pause_in_flight (func : nat -> list nat -> bool * option reason) : M world () :=
  addChild 0 (Some 1%nat);; upd 0 (set_cbs HUser BUser);;
  start func 3 0;; pause 3 0;; step func 3;; resume 3 0;; mret ().

(** A child's finish event that arrives while the parallel action is paused is
    lost: the action is running again after [resume], its only child has
    finished, no task is left, and however long the loop runs the action never
    finishes.  (A serial action keeps such an event for [resume].) *)
Theorem parallel_pause_loses_child answer why n :
  let func := fun f h => (answer f h, why f h) in
  exists w, (pause_in_flight func;; steps func 3 n)
      (world0 [(0%nat, Parallel kAllFinish [] ∅); (1%nat, FunctionA (Some 8%nat))]) = Ret ((), w) /\
    tasks w = [] /\ (a_state <$> acts w !! 0%nat) = Some kRunning /\
    (a_state <$> acts w !! 1%nat) = Some kFinished /\ seen w = [].
Proof.
  intros func.
  assert (exists w, pause_in_flight func
      (world0 [(0%nat, Parallel kAllFinish [] ∅); (1%nat, FunctionA (Some 8%nat))]) = Ret ((), w) /\
    tasks w = [] /\ (a_state <$> acts w !! 0%nat) = Some kRunning /\
    (a_state <$> acts w !! 1%nat) = Some kFinished /\ seen w = []) as (w & E & H).
  { eexists. split; [vm_compute; reflexivity|]. vm_compute. done. }
  exists w. split; [|exact H]. rewrite (bind_Ret _ _ _ _ _ E). destruct H as [T _].
  induction n as [|n IH]; [done|]. cbn. unfold mbind, M_bind, step at 1.
  unfold mbind, M_bind, get. by rewrite T.
Qed.

(** A child given in a role that the action does not know is handed to
    [setParent(nullptr)], which takes the address of a member of no object. *)
Lemma unknown_role_is_stuck fuel p c role w a b i t e :
  acts w !! p = Some a -> a_kind a = IfElse i t e -> acts w !! c = Some b -> a_parent b = None ->
  role <> "if" -> role <> "succ" -> role <> "then" -> role <> "fail" -> role <> "else" ->
  setChildAs fuel p (Some c) role w = Stuck.
Proof.
  intros Ea Ek Ec Ep H1 H2 H3 H4 H5. unfold setChildAs.
  unfold mbind, M_bind, act, mbind, M_bind, get, the at 1. rewrite Ea. cbn. rewrite Ek.
  unfold mbind, M_bind, setParent, act, mbind, M_bind, get. rewrite Ec. cbn. rewrite Ep. cbn.
  rewrite !(proj2 (String.eqb_neq _ _)) by done. cbn.
  unfold mbind, M_bind, upd, modify. cbn. by rewrite lookup_alter_eq, Ec.
Qed.
