(* ===== verification/ActionSafe.v ===== *)
(** * ActionSafe: forests of actions never crash

    The structure of a forest of actions does not change once it is built: the
    actions [D], the parent [par] of each, a rank [rk] that decreases towards the
    leaves, and the class [cls] of each.  [wf] says that a store agrees with such
    a structure.  Every operation of a user and every task of the loop ends on
    such a store, without following a bad pointer, keeps it, and touches only the
    tree it is called on. *)
From S2P Require Import Prelude Action ActionSem.

(** ** Structure *)

Inductive class :=
| CLeaf | CSequence | CParallel | CIfElse | CIfThen (pairs : list (nat * nat)) | CLoop | CLoopIf | CRepeat | CSwitch
| CWrapper | CComposite.

Definition class_of (k : kind) : class :=
  match k with
  | Dummy | FunctionA _ | SuccA | FailA => CLeaf
  | Sequence _ _ _ => CSequence
  | Parallel _ _ _ => CParallel
  | IfElse _ _ _ => CIfElse
  | IfThen _ ps _ => CIfThen ps
  | LoopA _ _ => CLoop
  | LoopIf _ _ _ => CLoopIf
  | Repeat _ _ _ _ => CRepeat
  | Switch _ _ _ => CSwitch
  | Wrapper _ _ => CWrapper
  | Composite _ => CComposite
  end.

(** The members without which [onStart], [onReset] and the handlers fail. *)
Definition complete (k : kind) : bool :=
  match k with
  | FunctionA None | IfElse None _ _ | LoopA _ None | LoopIf None _ _ | LoopIf _ None _ | Repeat _ _ _ None
  | Switch None _ _ | Wrapper _ None | Composite None => false
  | _ => true
  end.

Create HintDb action_db.

Section Safe.
Context (D : gset nat) (par : nat -> option nat) (rk : nat -> nat) (cls : nat -> class).

Definition kid_ok (p c : nat) : Prop := c ∈ D /\ par c = Some p /\ (rk c < rk p)%nat.

Definition handler_ok (h : handler) : Prop :=
  match h with
  | HUser => True
  | HLast p => p ∈ D
  | HSequence p => p ∈ D /\ cls p = CSequence
  | HParallel p _ => p ∈ D /\ cls p = CParallel
  | HIfCond p => p ∈ D /\ cls p = CIfElse
  | HIfThen p => p ∈ D /\ exists x ps, cls p = CIfThen (x :: ps)
  | HLoop p => p ∈ D /\ cls p = CLoop
  | HLoopIf p | HLoopExec p => p ∈ D /\ cls p = CLoopIf
  | HRepeat p => p ∈ D /\ cls p = CRepeat
  | HSwitch p => p ∈ D /\ cls p = CSwitch
  | HWrapper p => p ∈ D /\ cls p = CWrapper
  end.

Definition block_ok (b : block_handler) : Prop :=
  match b with BUser => True | BBlock p => p ∈ D | BParallel p => p ∈ D /\ cls p = CParallel end.

Definition deferred_ok (d : deferred) : Prop :=
  match d with DHandler h _ _ _ => handler_ok h | DFinish p _ _ _ => p ∈ D end.

Definition task_ok (t : task) : Prop :=
  match t with TFinish h _ _ _ => handler_ok h | TBlock b _ _ => block_ok b | TDeferred d => deferred_ok d end.

Definition opt_ok {A} (P : A -> Prop) (o : option A) : Prop := match o with Some a => P a | None => True end.

Record kind_ok (p : nat) (k : kind) : Prop := mkKindOk {
  k_class : class_of k = cls p;
  k_complete : complete k = true;
  k_kids : Forall (kid_ok p) (kids k)
}.

(** The pair that an unfinished [IfThen] is at. *)
Definition index_ok (k : kind) (st : astate) : Prop :=
  match k with IfThen i ps _ => is_over st = true \/ ps = [] \/ (i < length ps)%nat | _ => True end.

Record action_ok (p : nat) (a : action) : Prop := mkActionOk {
  o_kind : kind_ok p (a_kind a);
  o_curr : opt_ok (kid_ok p) (a_curr a);
  o_finish : opt_ok handler_ok (a_finish_cb a);
  o_block : opt_ok block_ok (a_block_cb a);
  o_pending : opt_ok deferred_ok (a_pending a)
}.

Definition store_ok (w : world) : Prop :=
  (forall x, x ∈ D -> exists a, acts w !! x = Some a /\ action_ok x a) /\ Forall (fun t => task_ok t.2) (tasks w).

Definition indices_ok (P : nat -> Prop) (w : world) : Prop :=
  forall x a, x ∈ D -> P x -> acts w !! x = Some a -> index_ok (a_kind a) (a_state a).

Definition wf (w : world) : Prop := store_ok w /\ indices_ok (fun _ => True) w.

(** What an operation on [p] may change. *)
Definition touched (p x : nat) : Prop := x = p \/ par x <> None /\ (rk x < rk p)%nat.

Definition local (p : nat) (w w' : world) : Prop := forall x, ~ touched p x -> acts w' !! x = acts w !! x.

(** The computation [m] on [p] ends, keeps the structure and stays in the tree. *)
Definition good {A} (p : nat) (m : M world A) : Prop :=
  forall w, wf w -> wp m w (fun _ w' => wf w' /\ local p w w').

Lemma local_refl p w : local p w w.
Proof. done. Qed.

Lemma local_trans p w1 w2 w3 : local p w1 w2 -> local p w2 w3 -> local p w1 w3.
Proof. intros H1 H2 x Hx. by rewrite H2, H1. Qed.

Lemma local_kid p c w w' : kid_ok p c -> local c w w' -> local p w w'.
Proof.
  intros (_ & Hp & Hr) H x Hx. apply H. intros [->|[H1 H2]]; apply Hx; right; [|split; [done|lia]].
  by rewrite Hp.
Qed.

Lemma local_frame p w w' : frame [p] w w' -> local p w w'.
Proof. intros H x Hx. apply H. intros ->%list_elem_of_singleton. apply Hx. by left. Qed.

Lemma good_ret {A} p (a : A) : good p (mret a).
Proof. by intros w Hw. Qed.

Lemma good_bind {A B} p (m : M world A) (k : A -> M world B) :
  good p m -> (forall a, good p (k a)) -> good p (m ≫= k).
Proof.
  intros Hm Hk w Hw. apply wp_bind. eapply wp_mono; [by apply Hm|]. intros a w1 [H1 L1].
  eapply wp_mono; [by apply Hk|]. intros b w2 [H2 L2]. split; [done|by eapply local_trans].
Qed.

Lemma good_kid {A} p c (m : M world A) : kid_ok p c -> good c m -> good p m.
Proof. intros Hc H w Hw. eapply wp_mono; [by apply H|]. intros a w' [H1 H2]. split; [done|by eapply local_kid]. Qed.

Lemma good_when p b m : good p m -> good p (when b m).
Proof. by destruct b. Qed.

Lemma good_act {A} p x (k : action -> M world A) :
  x ∈ D -> (forall s, action_ok x s -> good p (k s)) -> good p (act x ≫= k).
Proof.
  intros Hx Hk w Hw. pose proof Hw as [[Hs _] _]. destruct (Hs x Hx) as (a & Ea & Ha).
  apply wp_bind. eapply wp_act; [exact Ea|]. by apply Hk.
Qed.

(** ** Updates *)

Lemma store_upd p s s' w w' :
  store_ok w -> acts w !! p = Some s -> action_ok p s' -> acts w' !! p = Some s' -> frame [p] w w' ->
  tasks w' = tasks w -> store_ok w'.
Proof.
  intros [H1 H2] E Hs E' F T. split; [|by rewrite T]. intros x Hx. destruct (decide (x = p)) as [->|Hne]; [by eauto|].
  rewrite F by set_solver. by apply H1.
Qed.

Lemma indices_upd p s' w w' (P P' : nat -> Prop) :
  indices_ok P w -> index_ok (a_kind s') (a_state s') -> acts w' !! p = Some s' -> frame [p] w w' ->
  (forall x, x <> p -> P' x -> P x) -> indices_ok P' w'.
Proof.
  intros H Hi E' F HP x a Hx Px Ex. destruct (decide (x = p)) as [->|Hne]; [by simplify_eq|].
  eapply H; [done|by apply HP|]. rewrite <- Ex. symmetry. apply F. set_solver.
Qed.

Lemma good_upd p g : p ∈ D ->
  (forall s, action_ok p s -> index_ok (a_kind s) (a_state s) ->
     action_ok p (g s) /\ index_ok (a_kind (g s)) (a_state (g s))) -> good p (upd p g).
Proof.
  intros Hp Hg w [Hs Hi]. destruct (proj1 Hs p Hp) as (a & Ea & Ha).
  destruct (Hg a Ha (Hi p a Hp I Ea)) as [H1 H2]. eapply wp_upd; [done|]. intros w' E' F T G.
  split; [split; [by eapply store_upd|by eapply indices_upd]|by apply local_frame].
Qed.

(** A test of the state before two updates. *)
Lemma good_test p st g1 g2 (k : astate -> M world ()) : p ∈ D ->
  k st = (upd p g1;; upd p g2) -> (forall st', st' = st \/ k st' = mret ()) ->
  (forall s, action_ok p s -> action_ok p (g1 s)) -> (forall s, action_ok p s -> action_ok p (g2 s)) ->
  (forall s, a_kind (g2 (g1 s)) = a_kind s) ->
  (forall s, a_state s = st -> index_ok (a_kind s) st -> index_ok (a_kind s) (a_state (g2 (g1 s)))) ->
  good p (s ← act p; k (a_state s)).
Proof.
  intros Hp K1 K2 H1 H2 H3 H6 w [Hs Hi]. destruct (proj1 Hs p Hp) as (a & Ea & Ha).
  apply wp_bind. eapply wp_act; [done|]. destruct (K2 (a_state a)) as [Est|E]; [|rewrite E; by apply good_ret].
  rewrite Est, K1.
  pose proof (Hi p a Hp I Ea) as Hia.
  apply wp_bind. eapply wp_upd; [done|]. intros w1 E1 F1 T1 G1. eapply wp_upd; [done|]. intros w2 E2 F2 T2 G2.
  assert (store_ok w1) as Hs1 by (eapply store_upd; [exact Hs|exact Ea|by apply H1|exact E1|exact F1|exact T1]).
  split; [split|].
  - eapply (store_upd p (g1 a)); [exact Hs1|exact E1|by apply H2, H1|exact E2|exact F2|exact T2].
  - eapply (indices_upd p (g2 (g1 a)) w w2); [exact Hi| |done| |done].
    + rewrite H3. apply H6; [done|]. by rewrite <- Est.
    + intros x Hx. by rewrite F2, F1.
  - apply local_frame. intros x Hx. by rewrite F2, F1.
Qed.

Lemma wf_loop w w' : wf w -> acts w' = acts w -> Forall (fun t => task_ok t.2) (tasks w') -> wf w'.
Proof. intros [[H1 H2] H3] E T. split; [split; [|done]|]; unfold indices_ok; by rewrite E. Qed.

Lemma good_observe p o : good p (observe o).
Proof. intros w Hw. by split. Qed.

Lemma good_runNext p t : task_ok t -> good p (runNext t).
Proof.
  intros Ht w Hw. split; [|done]. eapply wf_loop; [exact Hw|done|]. apply Forall_app. split; [apply Hw|by repeat constructor].
Qed.

Lemma good_cancel p id : good p (loop_cancel id).
Proof.
  intros w Hw. split; [|done]. eapply wf_loop; [exact Hw|done|]. cbn. apply Forall_forall. intros t Ht.
  apply list_elem_of_filter in Ht as [_ Ht]. destruct Hw as [[_ H] _]. rewrite Forall_forall in H. by apply H.
Qed.

Lemma good_onFinal p : p ∈ D -> good p (onFinal p).
Proof. intros Hp. apply good_act; [done|]. intros s _. apply good_when, good_observe. Qed.

Lemma good_each p f l : Forall (kid_ok p) l -> (forall c, kid_ok p c -> good c (f c)) -> good p (each f l).
Proof.
  intros Hl Hf. induction Hl as [|c l Hc Hl IH]; [apply good_ret|]. apply good_bind; [|done].
  eapply good_kid; [exact Hc|by apply Hf].
Qed.

(** Setters that keep the structure. *)
Lemma ok_state p st s : action_ok p s -> action_ok p (set_state st s).
Proof. intros []. by split. Qed.
Lemma ok_result p r s : action_ok p s -> action_ok p (set_result r s).
Proof. intros []. by split. Qed.
Lemma ok_timer p t s : action_ok p s -> action_ok p (set_timer t s).
Proof. intros []. by split. Qed.
Lemma ok_timer_on p b s : action_ok p s -> action_ok p (timer_on b s).
Proof. unfold timer_on. destruct (a_timer s); [apply ok_timer|done]. Qed.
Lemma ok_ids p f b s : action_ok p s -> action_ok p (set_ids f b s).
Proof. intros []. by split. Qed.
Lemma ok_curr p c s : opt_ok (kid_ok p) c -> action_ok p s -> action_ok p (set_curr c s).
Proof. intros ? []. by split. Qed.
Lemma ok_pending p d s : opt_ok deferred_ok d -> action_ok p s -> action_ok p (set_pending d s).
Proof. intros ? []. by split. Qed.
Lemma ok_kind p k s : kind_ok p k -> action_ok p s -> action_ok p (set_kind k s).
Proof. intros ? []. by split. Qed.

Lemma timer_on_kind b s : a_kind (timer_on b s) = a_kind s.
Proof. by destruct s as [?????? [] ????]. Qed.
Lemma timer_on_state b s : a_state (timer_on b s) = a_state s.
Proof. by destruct s as [?????? [] ????]. Qed.

#[local] Hint Resolve ok_state ok_result ok_timer ok_timer_on ok_ids ok_curr ok_pending ok_kind : action_db.
#[local] Hint Resolve good_ret good_when good_observe good_runNext good_cancel good_onFinal : action_db.
#[local] Hint Extern 1 (opt_ok _ None) => exact I : action_db.

Lemma index_over k st : is_over st = true -> index_ok k st.
Proof. destruct k; cbn; auto. Qed.

(** An update of other members than kind and state, or to an ended state. *)
Lemma good_upd_same p g : p ∈ D -> (forall s, action_ok p s -> action_ok p (g s)) ->
  (forall s, a_kind (g s) = a_kind s) -> (forall s, a_state (g s) = a_state s) -> good p (upd p g).
Proof. intros Hp Hg Hk Hs. apply good_upd; [done|]. intros s H1 H2. rewrite Hk, Hs. auto. Qed.

Lemma good_upd_over p st : p ∈ D -> is_over st = true -> good p (upd p (set_state st)).
Proof.
  intros Hp Hst. apply good_upd; [done|]. intros s H1 H2. split; [by apply ok_state|by apply index_over].
Qed.

Lemma good_cancelDispatched p : p ∈ D -> good p (cancelDispatchedCallback p).
Proof.
  intros Hp. apply good_act; [done|]. intros s _.
  apply good_bind; [auto with action_db|]. intros _. apply good_bind; [auto with action_db|]. intros _.
  apply good_upd_same; auto with action_db.
Qed.

(** ** stop, finish and block *)

Lemma kids_parallel p m cs fin : kind_ok p (Parallel m cs fin) -> Forall (kid_ok p) cs.
Proof. by intros []. Qed.

Lemma good_stop f p : p ∈ D -> (rk p < f)%nat -> good p (stop f p).
Proof.
  revert p. induction f as [|f IH]; intros p Hp Hf; [lia|]. cbn [stop].
  apply good_act; [done|]. intros s Hs. destruct (negb (is_underway (a_state s))); [apply good_ret|].
  apply good_bind; [by apply good_upd_over|intros _]. 
  apply good_bind; [apply good_upd_same; auto using timer_on_kind, timer_on_state with action_db|intros _].
  assert (forall c, kid_ok p c -> good c (stop f c)) as Hk.
  { intros c (Hc & _ & Hr). apply IH; [done|lia]. }
  apply good_bind; [|by auto with action_db].
  destruct Hs as [HK HC _ _ _].
  destruct (a_kind s) eqn:Ek; try (apply good_when);
    try (apply good_bind; [|intros _; apply good_upd_same; auto with action_db];
         destruct (a_curr s) as [c|]; [|apply good_ret];
         apply good_bind; [eapply good_kid; [exact HC|by apply Hk]|intros _; apply good_upd_same; auto with action_db]).
  apply good_each; [by apply kids_parallel in HK|done].
Qed.

Lemma good_stopCurr f p : p ∈ D -> (rk p <= f)%nat -> good p (stopCurrAction f p).
Proof.
  intros Hp Hf. apply good_act; [done|]. intros s [_ HC _ _ _]. destruct (a_curr s) as [c|]; [|apply good_ret].
  apply good_bind; [|intros _; apply good_upd_same; auto with action_db].
  eapply good_kid; [exact HC|]. destruct HC as (Hc & _ & Hr). apply good_stop; [done|lia].
Qed.

(** [finish] does not care about the index of the pair. *)
Lemma finish_but f p succ why tr w : p ∈ D -> (rk p <= f)%nat ->
  store_ok w -> indices_ok (fun x => x <> p) w ->
  wp (finish f p succ why tr) w (fun _ w' => wf w' /\ local p w w').
Proof.
  intros Hp Hf Hs Hi. destruct (proj1 Hs p Hp) as (a & Ea & Ha).
  apply wp_bind. eapply wp_act; [done|]. destruct (is_over (a_state a)) eqn:Eo; cbn [negb].
  { apply wp_ret. split; [|done]. split; [done|]. intros x b Hx _ Eb. destruct (decide (x = p)) as [->|Hne].
    - assert (b = a) as -> by congruence. by apply index_over.
    - by eapply Hi. }
  apply wp_bind. eapply wp_upd; [done|]. intros w1 E1 F1 T1 G1.
  assert (wf w1) as Hw1.
  { split; [eapply store_upd; [exact Hs|exact Ea|by apply ok_state|done..]|].
    eapply (indices_upd p _ w w1); [exact Hi| |exact E1|done|done]. by apply index_over. }
  enough (good p (upd p (timer_on false);;
    match a_kind a with Composite _ => stopCurrAction f p | _ => mret () end;;
    upd p (set_result (result_of succ));;
    match a_finish_cb a with
    | Some h => id ← runNext (TFinish h succ why (tr ++ [p])); upd p (fun s => set_ids id (a_block_id s) s)
    | None => mret ()
    end;; onFinal p)) as Hg.
  { eapply wp_mono; [by apply Hg|]. intros _ w2 [H2 L2]. split; [done|].
    eapply local_trans; [by apply local_frame|done]. }
  apply good_bind; [apply good_upd_same; auto using timer_on_kind, timer_on_state with action_db|intros _].
  apply good_bind; [destruct (a_kind a); try apply good_ret; by apply good_stopCurr|intros _].
  apply good_bind; [apply good_upd_same; auto with action_db|intros _].
  apply good_bind; [|intros _; by apply good_onFinal].
  destruct Ha as [_ _ Hh _ _]. destruct (a_finish_cb a) as [h|]; [|apply good_ret].
  apply good_bind; [by apply good_runNext|intros id; apply good_upd_same; auto with action_db].
Qed.

Lemma good_finish f p succ why tr : p ∈ D -> (rk p <= f)%nat -> good p (finish f p succ why tr).
Proof.
  intros Hp Hf w [Hs Hi]. apply finish_but; [done..|]. intros x a Hx _. by apply Hi.
Qed.

Lemma good_block p why tr : p ∈ D -> good p (block p why tr).
Proof.
  intros Hp w [Hs Hi]. destruct (proj1 Hs p Hp) as (a & Ea & Ha).
  apply wp_bind. eapply wp_act; [done|]. destruct (is_over (a_state a)) eqn:Eo; cbn [negb]; [by apply wp_ret|].
  apply wp_bind. eapply wp_upd; [done|]. intros w1 E1 F1 T1 G1.
  assert (wf w1) as Hw1.
  { split; [eapply store_upd; [exact Hs|exact Ea|by apply ok_state|done..]|].
    eapply (indices_upd p _ w w1); [exact Hi| |exact E1|done|done].
    pose proof (Hi p a Hp I Ea) as Hx. cbn. destruct (a_kind a); try done. cbn in Hx |- *.
    rewrite Eo in Hx. right. by destruct Hx. }
  enough (good p (match a_block_cb a with
    | Some b => id ← runNext (TBlock b why (tr ++ [p])); upd p (fun s => set_ids (a_finish_id s) id s)
    | None => mret () end)) as Hg.
  { eapply wp_mono; [by apply Hg|]. intros _ w2 [H2 L2]. split; [done|].
    eapply local_trans; [by apply local_frame|done]. }
  destruct Ha as [_ _ _ Hh _]. destruct (a_block_cb a) as [h|]; [|apply good_ret].
  apply good_bind; [by apply good_runNext|intros id; apply good_upd_same; auto with action_db].
Qed.

(** ** start *)

Section Start.
Context (func : nat -> list nat -> bool * option reason).

Lemma good_call_func p n : good p (call_func func n).
Proof.
  intros w Hw. unfold wp, call_func, mbind, M_bind, get, put. destruct (func n (funcs w)) as [r why].
  by split.
Qed.

Lemma good_start_this st p c : p ∈ D -> kid_ok p c -> good c (st c) -> good p (start_this st p c).
Proof.
  intros Hp Hc H. apply good_bind; [by eapply good_kid|]. intros [|]; [|apply good_ret].
  apply good_bind; [apply good_upd_same; auto with action_db|intros _; apply good_ret].
Qed.

Lemma kids_lookup p l i c : Forall (kid_ok p) l -> l !! i = Some c -> kid_ok p c.
Proof. intros H Hi. by eapply (Forall_lookup_1 (kid_ok p)). Qed.

Lemma pairs_lookup p ps i (x y : nat) : Forall (kid_ok p) (ps ≫= (fun q => [q.1; q.2])) -> ps !! i = Some (x, y) ->
  kid_ok p x /\ kid_ok p y.
Proof.
  intros H Hi. rewrite Forall_forall in H. apply list_elem_of_lookup_2 in Hi.
  split; apply H, list_elem_of_bind; exists (x, y); (split; [|done]); cbn; [left|right; left].
Qed.

(** Two kinds with the same structure. *)
Lemma kind_ok_same p k k' : kind_ok p k -> class_of k' = class_of k -> complete k' = complete k -> kids k' = kids k ->
  kind_ok p k'.
Proof. intros [H1 H2 H3] E1 E2 E3. split; congruence. Qed.

Lemma good_start_or_finish st f p succ why tr : p ∈ D -> (rk p <= f)%nat -> cls p = CSequence ->
  (forall c, kid_ok p c -> good c (st c)) -> good p (start_or_finish st f p succ why tr).
Proof.
  intros Hp Hf Hc Hst. apply good_act; [done|]. intros s [[H1 H2 H3] _ _ _ _].
  destruct (a_kind s); cbn in H1; try congruence.
  destruct (children !! index) as [c|] eqn:Ec; [|by apply good_finish].
  assert (kid_ok p c) as Hk by (by eapply kids_lookup).
  apply good_bind; [by apply good_start_this; [..|apply Hst]|]. intros [|]; [apply good_ret|by apply good_finish].
Qed.

Lemma good_startAll st f p mode children index rest : p ∈ D -> (rk p <= f)%nat -> cls p = CParallel ->
  Forall (kid_ok p) children -> Forall (kid_ok p) rest -> (forall c, kid_ok p c -> good c (st c)) ->
  good p (startAll st f p mode children index rest).
Proof.
  intros Hp Hf Hc Hch Hr Hst. revert index. induction Hr as [|c rest Hk Hr IH]; intros index; cbn [startAll].
  - apply good_act; [done|]. intros s [[H1 H2 H3] _ _ _ _]. destruct (a_kind s); cbn in H1; try congruence.
    by apply good_when, good_finish.
  - apply good_bind; [eapply good_kid; [exact Hk|by apply Hst]|]. intros [|]; [apply IH|].
    apply good_bind.
    { apply good_upd; [done|]. intros s Hs Hi. destruct (a_kind s) eqn:Ek; try by rewrite ?Ek.
      split; [|done]. apply ok_kind; [|done]. destruct Hs as [Hs _ _ _ _]. rewrite Ek in Hs. by eapply kind_ok_same. }
    intros _. destruct mode; try apply IH. apply good_bind; [by apply good_finish|]. intros _.
    apply good_each; [done|]. intros c' (Hc' & _ & Hlt). apply good_stop; [done|lia].
Qed.

Lemma good_onStart st f p : p ∈ D -> (rk p <= f)%nat -> (forall c, kid_ok p c -> good c (st c)) ->
  good p (onStart func st f p).
Proof.
  intros Hp Hf Hst. apply good_act; [done|]. intros s [HK _ _ _ _]. pose proof HK as [H1 H2 H3].
  assert (forall c, c ∈ kids (a_kind s) -> good p (start_this st p c;; mret ())) as Hthis.
  { intros c Hc. rewrite Forall_forall in H3. apply good_bind; [|intros _; apply good_ret].
    apply good_start_this; [done|by apply H3|by apply Hst, H3]. }
  destruct (a_kind s) eqn:Ek; try discriminate H2.
  - apply good_ret.
  - destruct f0 as [fn|]; [|discriminate H2]. apply good_bind; [apply good_call_func|]. intros [r why]. by apply good_finish.
  - by apply good_finish.
  - by apply good_finish.
  - by apply good_start_or_finish.
  - by apply good_startAll.
  - destruct if_ as [c|]; [|discriminate H2]. apply Hthis. left.
  - apply good_bind.
    + apply good_upd; [done|]. intros s' Hs' _. split; [apply ok_kind; [by eapply kind_ok_same|done]|].
      destruct pairs as [|x ps]; cbn; [by right; left|right; right; lia].
    + intros _. destruct pairs as [|[c d] ps]; [by apply good_finish|apply Hthis; left].
  - destruct child as [c|]; [|discriminate H2]. apply Hthis. left.
  - destruct if_ as [c|]; [|discriminate H2]. apply Hthis. left.
  - destruct child as [c|]; [|discriminate H2]. apply good_bind; [|intros _; apply Hthis; left].
    apply good_upd; [done|]. intros s' Hs' _. split; [|done]. apply ok_kind; [by eapply kind_ok_same|done].
  - destruct switch as [c|]; [|discriminate H2]. apply Hthis. left.
  - destruct child as [c|]; [|discriminate H2]. apply Hthis. left.
  - destruct child as [c|]; [|discriminate H2]. apply Hthis. left.
Qed.

Lemma good_ext {A} p (m m' : M world A) : (forall w, m w = m' w) -> good p m -> good p m'.
Proof. intros E H w Hw. unfold wp. rewrite <- E. by apply H. Qed.

Lemma good_tail {A} p x (k : astate -> M world ()) (m : M world A) :
  good p (s ← act x; k (a_state s)) -> good p m -> good p (s ← act x; k (a_state s);; m).
Proof.
  intros H1 H2. eapply good_ext; [|apply (good_bind p (s ← act x; k (a_state s)) (fun _ : () => m)); [exact H1|by intros _]].
  intros w. apply bind_assoc.
Qed.

Lemma index_running k st st' : is_over st = false -> index_ok k st -> index_ok k st'.
Proof. destruct k; cbn; try done. intros -> [?|?]; [done|auto]. Qed.

Lemma good_start f p : p ∈ D -> (rk p < f)%nat -> good p (start func f p).
Proof.
  revert p. induction f as [|f IH]; intros p Hp Hf; [lia|]. cbn [start].
  apply good_act; [done|]. intros s Hs. destruct (a_state s); try apply good_ret.
  apply good_bind.
  { apply good_onStart; [done|lia|]. intros c (Hc & _ & Hr). apply IH; [done|lia]. }
  intros _. apply (good_tail p p (fun st => match st with kIdle => upd p (timer_on true);; upd p (set_state kRunning) | _ => mret () end));
    [|apply good_ret].
  eapply (good_test p kIdle _ _
    (fun st => match st with kIdle => upd p (timer_on true);; upd p (set_state kRunning) | _ => mret () end)); [done|done|by intros []; auto|auto with action_db..| |].
  - intros s'. apply timer_on_kind.
  - intros s' E. by apply index_running.
Qed.
End Start.

(** ** pause and resume *)

Lemma good_ignore {A} p c (m : M world A) : kid_ok p c -> good c m -> good p (m;; mret ()).
Proof. intros Hc H. apply good_bind; [by eapply good_kid|intros _; apply good_ret]. Qed.

Lemma good_pause f p : p ∈ D -> (rk p < f)%nat -> good p (pause f p).
Proof.
  revert p. induction f as [|f IH]; intros p Hp Hf; [lia|]. cbn [pause].
  assert (forall c, kid_ok p c -> good c (pause f c)) as Hk.
  { intros c (Hc & _ & Hr). apply IH; [done|lia]. }
  apply good_act; [done|]. intros s [HK HC _ _ _]. destruct (a_state s); try apply good_ret.
  apply good_bind.
  { destruct (a_kind s) eqn:Ek;
      try (apply good_when; destruct (a_curr s) as [c|]; [|apply good_ret]; by eapply good_ignore; [exact HC|apply Hk]).
    apply good_each; [by apply kids_parallel in HK|]. intros c Hc.
    apply good_bind; [by apply Hk|intros _; apply good_ret]. }
  intros _. apply (good_tail p p (fun st => match st with kRunning => upd p (timer_on false);; upd p (set_state kPause) | _ => mret () end));
    [|apply good_ret].
  eapply (good_test p kRunning _ _
    (fun st => match st with kRunning => upd p (timer_on false);; upd p (set_state kPause) | _ => mret () end)); [done|done|by intros []; auto|auto with action_db..| |].
  - intros s'. apply timer_on_kind.
  - intros s' E. by apply index_running.
Qed.

Lemma good_resume f p : p ∈ D -> (rk p < f)%nat -> good p (resume f p).
Proof.
  revert p. induction f as [|f IH]; intros p Hp Hf; [lia|]. cbn [resume].
  assert (forall c, kid_ok p c -> good c (resume f c)) as Hk.
  { intros c (Hc & _ & Hr). apply IH; [done|lia]. }
  apply good_act; [done|]. intros s [HK HC _ _ HP]. destruct (a_state s); try apply good_ret.
  apply good_bind.
  { destruct (a_kind s) eqn:Ek;
      try (apply good_when; destruct (a_curr s) as [c|];
        [by eapply good_ignore; [exact HC|apply Hk]|destruct (a_pending s) as [d|]; [|apply good_ret];
         apply good_bind; [by apply good_runNext|intros _; apply good_upd_same; auto with action_db]]).
    apply good_each; [by apply kids_parallel in HK|]. intros c Hc.
    apply good_act; [apply Hc|]. intros sc _. destruct (a_state sc); try apply good_ret.
    apply good_bind; [by apply Hk|intros _; apply good_ret]. }
  intros _. apply (good_tail p p (fun st => match st with kPause => upd p (timer_on true);; upd p (set_state kRunning) | _ => mret () end));
    [|apply good_ret].
  eapply (good_test p kPause _ _
    (fun st => match st with kPause => upd p (timer_on true);; upd p (set_state kRunning) | _ => mret () end)); [done|done|by intros []; auto|auto with action_db..| |].
  - intros s'. apply timer_on_kind.
  - intros s' E. by apply index_running.
Qed.

(** ** reset *)

(** [m] also leaves the kind of [p] at [k]. *)
Definition keeps {A} (p : nat) (k : kind) (m : M world A) : Prop :=
  forall w, wf w -> a_kind <$> acts w !! p = Some k ->
    wp m w (fun _ w' => wf w' /\ local p w w' /\ a_kind <$> acts w' !! p = Some k).

Lemma keeps_good {A B} p k (m : M world A) (m' : M world B) :
  keeps p k m -> keeps p k m' -> keeps p k (m;; m').
Proof.
  intros Hm Hk w Hw E. apply wp_bind. eapply wp_mono; [by apply Hm|]. intros a w1 (H1 & L1 & E1).
  eapply wp_mono; [by apply Hk|]. intros b w2 (H2 & L2 & E2). split; [done|]. split; [by eapply local_trans|done].
Qed.

Lemma keeps_upd p k g : p ∈ D -> (forall s, action_ok p s -> action_ok p (g s)) ->
  (forall s, a_kind (g s) = a_kind s) -> (forall s, a_state (g s) = a_state s \/ (forall st, index_ok k st)) ->
  keeps p k (upd p g).
Proof.
  intros Hp Hg Hk Hs w [Hw Hi] E. destruct (proj1 Hw p Hp) as (a & Ea & Ha). rewrite Ea in E. injection E as E.
  eapply wp_upd; [done|]. intros w' E' F T G. split; [|split; [by apply local_frame|]].
  - split; [by eapply store_upd; [..|apply Hg| | |]|]. eapply indices_upd; [exact Hi| |exact E'|done|done].
    rewrite Hk. destruct (Hs a) as [-> |H]; [by apply (Hi p a)|]. rewrite E. apply H.
  - rewrite E'. cbn. by rewrite Hk, E.
Qed.

Lemma keeps_when p k b m : keeps p k m -> keeps p k (when b m).
Proof. intros H. destruct b; [done|]. by intros w Hw E. Qed.

Lemma keeps_cancelDispatched p k : p ∈ D -> keeps p k (cancelDispatchedCallback p).
Proof.
  intros Hp w Hw E. destruct (proj1 (proj1 Hw) p Hp) as (a & Ea & Ha).
  apply wp_bind. eapply wp_act; [done|].
  assert (forall id, keeps p k (loop_cancel id)) as Hc.
  { intros id w1 Hw1 E1. pose proof (good_cancel p id w1 Hw1) as Hg. cbn in Hg |- *. naive_solver. }
  revert w Hw E Ea. enough (keeps p k (when (negb (a_finish_id a =? 0)) (loop_cancel (a_finish_id a));;
    when (negb (a_block_id a =? 0)) (loop_cancel (a_block_id a));; upd p (set_ids 0 0))) as H by auto.
  apply keeps_good; [by apply keeps_when|]. apply keeps_good; [by apply keeps_when|].
  apply keeps_upd; auto with action_db.
Qed.

(** The children do not touch their parent. *)
Lemma keeps_each p k f l : Forall (kid_ok p) l -> (forall c, kid_ok p c -> good c (f c)) -> keeps p k (each f l).
Proof.
  intros Hl Hf. induction Hl as [|c l Hc Hl IH]; [by intros w Hw E|]. apply keeps_good; [|done].
  intros w Hw E. eapply wp_mono; [by apply Hf|]. intros [] w' [H1 H2].
  split; [done|]. split; [by eapply local_kid|]. rewrite H2; [done|].
  destruct Hc as (_ & _ & Hr). intros [->|[_ Hr']]; lia.
Qed.

Lemma reset_kind_ok p k : kind_ok p k -> exists k', reset_kind k = Some k' /\ kind_ok p k' /\
  (forall st, index_ok k' st).
Proof.
  intros [H1 H2 H3].
  assert (forall st ps tmp, index_ok (IfThen 0 ps tmp) st) as Hi.
  { intros st ps tmp. destruct ps; cbn; [auto|right; right; lia]. }
  destruct k; cbn in *; repeat case_match; try discriminate;
    (eexists; split; [done|]; split; [by split|]); intros st; try exact I; by apply Hi.
Qed.

Lemma good_reset f p : p ∈ D -> (rk p < f)%nat -> good p (reset f p).
Proof.
  revert p. induction f as [|f IH]; intros p Hp Hf; [lia|]. cbn [reset].
  intros w Hw. destruct (proj1 (proj1 Hw) p Hp) as (a & Ea & Ha).
  apply wp_bind. eapply wp_act; [done|]. pose proof Ha as [HK _ _ _ _].
  destruct (reset_kind_ok p _ HK) as (k & Ek & Hk & Hik).
  assert (wp (mret (M := M world) ()) w (fun _ w' => wf w' /\ local p w w')) as Hret by done.
  enough (wp (k0 ← the (reset_kind (a_kind a)); upd p (set_kind k0);; each (reset f) (kids k0);;
    when (is_serial k0) (upd p (set_curr None);; upd p (set_pending None));; upd p (timer_on false);;
    cancelDispatchedCallback p;; upd p (set_state kIdle);; upd p (set_result kUnsure)) w
    (fun _ w' => wf w' /\ local p w w')) as H by (by destruct (a_state a)).
  rewrite Ek. apply wp_bind, wp_ret, wp_bind. eapply wp_upd; [done|]. intros w1 E1 F1 T1 G1.
  assert (wf w1) as Hw1.
  { destruct Hw as [Hs Hi]. split; [by eapply store_upd; [..|apply ok_kind| | |]|].
    eapply indices_upd; [exact Hi| |exact E1|done|done]. apply Hik. }
  enough (keeps p k (each (reset f) (kids k);;
    when (is_serial k) (upd p (set_curr None);; upd p (set_pending None));; upd p (timer_on false);;
    cancelDispatchedCallback p;; upd p (set_state kIdle);; upd p (set_result kUnsure))) as H.
  { eapply wp_mono; [apply H; [done|by rewrite E1]|]. intros _ w2 (H2 & L2 & _). split; [done|].
    eapply local_trans; [by apply local_frame|done]. }
  repeat apply keeps_good.
  - apply keeps_each; [by destruct Hk|]. intros c (Hc & _ & Hr). apply IH; [done|lia].
  - apply keeps_when, keeps_good; apply keeps_upd; auto with action_db.
  - apply keeps_upd; auto using timer_on_kind, timer_on_state with action_db.
  - by apply keeps_cancelDispatched.
  - apply keeps_upd; auto with action_db.
  - apply keeps_upd; auto with action_db.
Qed.

(** ** Timeouts and callbacks *)

Lemma good_setTimeout p : p ∈ D -> good p (setTimeout p).
Proof. intros Hp. apply good_upd_same; auto with action_db. Qed.

Lemma good_resetTimeout p : p ∈ D -> good p (resetTimeout p).
Proof. intros Hp. apply good_upd_same; auto with action_db. Qed.

Lemma good_timeout f p : p ∈ D -> (rk p <= f)%nat -> good p (timeout f p).
Proof.
  intros Hp Hf. apply good_act; [done|]. intros s _. destruct (a_timer s) as [[|]|]; try apply good_ret.
  apply good_bind; [apply good_upd_same; auto with action_db|intros _; by apply good_finish].
Qed.

Section Handlers.
Context (func : nat -> list nat -> bool * option reason) (F : nat).
Context (HF : forall x, x ∈ D -> (rk x < F)%nat).

Lemma fuel_le p : p ∈ D -> (rk p <= F)%nat.
Proof. intros Hp. pose proof (HF p Hp). lia. Qed.

Notation startThis := (startThisAction func F).

Lemma good_startThis p c : kid_ok p c -> p ∈ D -> good p (startThis p c).
Proof.
  intros Hc Hp. apply good_start_this; [done..|]. destruct Hc as (Hc & _ & _). apply good_start; [done|by apply HF].
Qed.

Lemma good_startThis' p c : kid_ok p c -> p ∈ D -> good p (startThis p c;; mret ()).
Proof. intros Hc Hp. apply good_bind; [by apply good_startThis|intros _; apply good_ret]. Qed.

Lemma good_finish' p succ why tr : p ∈ D -> good p (finish F p succ why tr).
Proof. intros Hp. apply good_finish; [done|by apply fuel_le]. Qed.

Lemma good_reset_kid p c : kid_ok p c -> good p (reset F c).
Proof. intros Hc. eapply good_kid; [exact Hc|]. apply good_reset; [apply Hc|apply HF, Hc]. Qed.

(** Computations that only run while [p] is running. *)
Definition running_good (p : nat) (m : M world ()) : Prop :=
  forall w, wf w -> a_state <$> acts w !! p = Some kRunning -> wp m w (fun _ w' => wf w' /\ local p w w').

Lemma good_guarded p d m : p ∈ D -> deferred_ok d -> running_good p m ->
  good p (done ← handleChildFinishEvent p d; if (done : bool) then mret () else m).
Proof.
  intros Hp Hd Hm w [Hw Hi]. destruct (proj1 Hw p Hp) as (a & Ea & Ha).
  apply wp_bind. apply wp_bind. eapply wp_upd; [done|]. intros w1 E1 F1 T1 G1.
  assert (wf w1) as Hw1.
  { split; [eapply store_upd; [exact Hw|exact Ea|by apply (ok_curr p None)|done..]|].
    eapply (indices_upd p _ w w1); [exact Hi| |exact E1|done|done]. by apply (Hi p a). }
  apply wp_bind. eapply wp_act; [exact E1|]. cbn.
  assert (local p w w1) as L1 by (by apply local_frame).
  destruct (a_state a) eqn:Es; try by apply wp_ret, wp_ret.
  - apply wp_ret. eapply wp_mono; [apply Hm; [done|rewrite E1; cbn; by rewrite Es]|].
    intros _ w2 [H2 L2]. split; [done|by eapply local_trans].
  - assert (good p (upd p (set_pending (Some d)))) as Hg by (apply good_upd_same; auto with action_db).
    apply wp_bind. eapply wp_mono; [by apply Hg|]. intros _ w2 [H2 L2]. apply wp_ret, wp_ret.
    split; [done|by eapply local_trans].
Qed.

Lemma good_running p m : good p m -> running_good p m.
Proof. intros H w Hw _. by apply H. Qed.

Lemma good_onLast p succ why tr : p ∈ D -> good p (onLastChildFinished F p succ why tr).
Proof.
  intros Hp. apply good_bind; [apply good_upd_same; auto with action_db|]. intros _.
  apply good_act; [done|]. intros s _. destruct (a_state s); try apply good_ret; [by apply good_finish'|].
  apply good_upd_same; auto with action_db.
Qed.

Lemma good_onSequence p succ why tr : p ∈ D -> cls p = CSequence -> good p (onSequenceChild func F p succ why tr).
Proof.
  intros Hp Hc. apply good_act; [done|]. intros s [HK _ _ _ _]. pose proof HK as [H1 H2 H3].
  destruct (a_kind s); cbn in H1; try congruence. match goal with |- good _ (if ?b then _ else _) => destruct b end; [by apply good_finish'|].
  apply good_bind.
  - apply good_upd; [done|]. intros s' Hs' _. split; [|done]. apply ok_kind; [by eapply kind_ok_same|done].
  - intros _. apply good_start_or_finish; [done|by apply fuel_le|done|].
    intros c (Hcd & _ & _). apply good_start; [done|by apply HF].
Qed.

Lemma good_onCond p succ why tr : p ∈ D -> cls p = CIfElse -> good p (onCondActionFinished func F p succ why tr).
Proof.
  intros Hp Hc. apply good_act; [done|]. intros s [[H1 H2 H3] _ _ _ _].
  destruct (a_kind s); cbn in H1; try congruence.
  destruct succ; [destruct then_ as [c|] eqn:E|destruct else_ as [c|] eqn:E]; try by apply good_finish'.
  all: apply good_startThis'; [|done]; cbn in H3.
  all: rewrite Forall_forall in H3; apply H3; rewrite !elem_of_app; cbn; set_solver.
Qed.

Lemma good_onLoop p succ why tr : p ∈ D -> cls p = CLoop -> good p (onLoopChild func F p succ why tr).
Proof.
  intros Hp Hc. apply good_act; [done|]. intros s [[H1 H2 H3] _ _ _ _].
  destruct (a_kind s) as [| | | | | | | |mode [c|]| | | | |]; cbn in H1, H2; try congruence.
  match goal with |- good _ (if ?b then _ else _) => destruct b end; [by apply good_finish'|]. cbn in H3. inversion H3; subst.
  apply good_bind; [by apply good_reset_kid|intros _; by apply good_startThis'].
Qed.

Lemma good_onIfFinished p succ why tr : p ∈ D -> cls p = CLoopIf -> good p (onIfFinished func F p succ why tr).
Proof.
  intros Hp Hc. apply good_act; [done|]. intros s [[H1 H2 H3] _ _ _ _].
  destruct (a_kind s) as [| | | | | | | | |[i|] [e|] res| | | |]; cbn in H1, H2; try congruence.
  destruct succ; [|by apply good_finish']. cbn in H3. inversion H3 as [|? ? Hi He]; subst. inversion He; subst.
  by apply good_startThis'.
Qed.

Lemma good_onExecFinished p why tr : p ∈ D -> cls p = CLoopIf -> good p (onExecFinished func F p why tr).
Proof.
  intros Hp Hc. apply good_act; [done|]. intros s [[H1 H2 H3] _ _ _ _].
  destruct (a_kind s) as [| | | | | | | | |[i|] [e|] res| | | |]; cbn in H1, H2; try congruence.
  cbn in H3. inversion H3 as [|? ? Hi He]; subst. inversion He; subst.
  apply good_bind; [by apply good_reset_kid|intros _]. apply good_bind; [by apply good_reset_kid|intros _].
  apply good_bind; [by apply good_startThis|]. intros [|]; [apply good_ret|by apply good_finish'].
Qed.

Lemma good_onRepeat p succ why tr : p ∈ D -> cls p = CRepeat -> good p (onRepeatChild func F p succ why tr).
Proof.
  intros Hp Hc. apply good_act; [done|]. intros s [[H1 H2 H3] _ _ _ _].
  destruct (a_kind s) as [| | | | | | | | | |mode t r [c|]| | |]; cbn in H1, H2; try congruence.
  match goal with |- good _ (if ?b then _ else _) => destruct b end; [by apply good_finish'|].
  destruct (0 <? r); [|by apply good_finish']. cbn in H3. inversion H3; subst.
  apply good_bind; [by apply good_reset_kid|intros _]. apply good_bind; [by apply good_startThis|intros _].
  apply good_upd; [done|]. intros s' Hs' Hi'. destruct (a_kind s') eqn:Ek; try by rewrite ?Ek.
  split; [|done]. apply ok_kind; [|done]. destruct Hs' as [Hs' _ _ _ _]. rewrite Ek in Hs'. by eapply kind_ok_same.
Qed.

Lemma good_onSwitch p succ why : p ∈ D -> cls p = CSwitch -> good p (onSwitchActionFinished func F p succ why).
Proof.
  intros Hp Hc. apply good_act; [done|]. intros s [[H1 H2 H3] _ _ _ _].
  destruct (a_kind s) as [| | | | | | | | | | |sw cases d| |]; cbn in H1; try congruence.
  destruct succ; [|by apply good_finish']. cbn in H3.
  destruct (cases !! r_message why) as [c|] eqn:E.
  - apply good_startThis'; [|done]. rewrite !Forall_app in H3. destruct H3 as (_ & _ & H3).
    rewrite Forall_forall in H3. apply H3, list_elem_of_fmap. exists (r_message why, c). split; [done|].
    by apply elem_of_map_to_list.
  - destruct d as [c|]; [|by apply good_finish']. apply good_startThis'; [|done].
    rewrite Forall_forall in H3. apply H3. rewrite !elem_of_app. cbn. set_solver.
Qed.

Lemma good_onWrapper p succ why tr : p ∈ D -> cls p = CWrapper -> good p (onWrapperChild F p succ why tr).
Proof.
  intros Hp Hc. apply good_act; [done|]. intros s [[H1 H2 H3] _ _ _ _].
  destruct (a_kind s); cbn in H1; try congruence. by apply good_finish'.
Qed.

Lemma running_onIf p succ x ps : p ∈ D -> cls p = CIfThen (x :: ps) -> running_good p (onIfActionFinished func F p succ).
Proof.
  intros Hp Hc w Hw Hst. pose proof Hw as [Hs Hi]. destruct (proj1 Hs p Hp) as (a & Ea & Ha).
  rewrite Ea in Hst. injection Hst as Hst.
  apply wp_bind. eapply wp_act; [done|]. pose proof (Hi p a Hp I Ea) as Hx. pose proof Ha as [HK _ _ _ _].
  pose proof HK as [H1 H2 H3]. rewrite Hst in Hx.
  destruct (a_kind a) as [| | | | | | |i qs tmp| | | | | |] eqn:Ek; cbn in H1; try congruence.
  assert (qs = x :: ps) as -> by congruence. cbn in Hx. destruct Hx as [Hx|[Hx|Hx]]; [discriminate Hx..|].
  destruct succ.
  { destruct ((x :: ps) !! i) as [[u v]|] eqn:E; [|apply lookup_ge_None_1 in E; cbn in E; lia].
    destruct (pairs_lookup p _ i u v H3 E) as [_ Hv]. by apply good_startThis'. }
  apply wp_bind. eapply wp_upd; [done|]. intros w1 E1 F1 T1 G1.
  assert (store_ok w1) as Hs1.
  { eapply store_upd; [exact Hs|exact Ea| |exact E1|done|done]. apply ok_kind; [by eapply kind_ok_same|done]. }
  eapply wp_mono with (Q := fun _ w' => wf w' /\ local p w1 w').
  2: { intros u w2 [H4 L4]. split; [done|]. eapply local_trans; [by apply local_frame|done]. }
  destruct ((x :: ps) !! S i) as [[u v]|] eqn:E.
  - destruct (pairs_lookup p _ (S i) u v H3 E) as [Hu _]. apply good_startThis'; [done|done|]. split; [done|].
    eapply (indices_upd p _ w w1); [exact Hi| |exact E1|done|done]. cbn. right. right.
    apply lookup_lt_Some in E. by cbn in E.
  - apply finish_but; [done|by apply fuel_le|done|].
    intros y b Hy Hne Eb. apply (Hi y b Hy I). rewrite <- Eb. symmetry. apply F1. set_solver.
Qed.

Lemma good_onParallel p index succ : p ∈ D -> cls p = CParallel -> good p (onParallelChild F p index succ).
Proof.
  intros Hp Hc. apply good_act; [done|]. intros s [HK _ _ _ _]. pose proof HK as [H1 H2 H3].
  destruct (a_state s); try apply good_ret. destruct (a_kind s) eqn:Ek; cbn in H1; try congruence.
  apply good_bind.
  - apply good_upd; [done|]. intros s' Hs' _. split; [|done]. apply ok_kind; [by eapply kind_ok_same|done].
  - intros _. match goal with |- good _ (if ?b then _ else _) => destruct b end; [|by apply good_when, good_finish'].
    apply good_bind; [|intros _; by apply good_finish'].
    apply good_each; [done|]. intros c (Hcd & _ & _). apply good_stop; [done|by apply HF].
Qed.

Lemma good_onChildBlocked p why tr : p ∈ D -> cls p = CParallel -> good p (onChildBlocked F p why tr).
Proof.
  intros Hp Hc. apply good_act; [done|]. intros s [HK _ _ _ _]. pose proof HK as [H1 H2 H3].
  destruct (a_state s); try apply good_ret. destruct (a_kind s) eqn:Ek; cbn in H1; try congruence.
  apply good_bind; [|intros _; by apply good_block].
  apply good_each; [done|]. intros c (Hcd & _ & _). apply good_bind; [|intros _; apply good_ret].
  apply good_pause; [done|by apply HF].
Qed.

Definition keeps_wf (m : M world ()) : Prop := forall w, wf w -> wp m w (fun _ => wf).

Lemma good_wf p m : good p m -> keeps_wf m.
Proof. intros H w Hw. eapply wp_mono; [by apply H|]. by intros _ w' [? _]. Qed.

Lemma handle_wf h succ why tr : handler_ok h -> keeps_wf (handle_child func F h succ why tr).
Proof.
  intros Hh. pose proof Hh as Hh'. destruct h; cbn in Hh.
  - apply (good_wf 0%nat), good_observe.
  - by apply (good_wf p), good_onLast.
  - destruct Hh as [Hp Hc]. by apply (good_wf p), good_guarded, good_running, good_onSequence.
  - destruct Hh as [Hp Hc]. by apply (good_wf p), good_onParallel.
  - destruct Hh as [Hp Hc]. by apply (good_wf p), good_guarded, good_running, good_onCond.
  - destruct Hh as (Hp & x & ps & Hc). apply (good_wf p), good_guarded; [done|done|]. by eapply running_onIf.
  - destruct Hh as [Hp Hc]. by apply (good_wf p), good_guarded, good_running, good_onLoop.
  - destruct Hh as [Hp Hc]. by apply (good_wf p), good_guarded, good_running, good_onIfFinished.
  - destruct Hh as [Hp Hc]. by apply (good_wf p), good_guarded, good_running, good_onExecFinished.
  - destruct Hh as [Hp Hc]. by apply (good_wf p), good_guarded, good_running, good_onRepeat.
  - destruct Hh as [Hp Hc]. by apply (good_wf p), good_guarded, good_running, good_onSwitch.
  - destruct Hh as [Hp Hc]. by apply (good_wf p), good_guarded, good_running, good_onWrapper.
Qed.

Lemma run_task_wf t : task_ok t -> keeps_wf (run_task func F t).
Proof.
  intros Ht. destruct t as [h succ why tr|b why tr|[h succ why tr|p succ why tr]]; cbn in Ht.
  - by apply handle_wf.
  - destruct b as [|p|p]; cbn in Ht.
    + apply (good_wf 0%nat), good_observe.
    + by apply (good_wf p), good_block.
    + destruct Ht as [Hp Hc]. by apply (good_wf p), good_onChildBlocked.
  - by apply handle_wf.
  - by apply (good_wf p), good_finish'.
Qed.

Lemma step_wf : keeps_wf (step func F).
Proof.
  intros w Hw. unfold step. apply wp_bind. unfold wp at 1, get.
  destruct (tasks w) as [|[id t] rest] eqn:Et; [by apply wp_ret|].
  destruct Hw as [[H1 H2] H3]. rewrite Et in H2. inversion H2 as [|? ? Ht Hr]; subst.
  apply wp_bind. apply run_task_wf; [done|]. by repeat split.
Qed.
End Handlers.
End Safe.

(** ** The theorem *)

(** What a user of a forest can do: calls on an action, the timer of an action,
    a dummy action told to finish or to block, and turns of the loop. *)
Inductive user_op :=
| UStart (a : nat) | UPause (a : nat) | UResume (a : nat) | UStop (a : nat) | UReset (a : nat)
| UFinish (a : nat) (succ : bool) (why : reason) | UBlock (a : nat) (why : reason)
| USetTimeout (a : nat) | UResetTimeout (a : nat) | UTimeout (a : nat) | ULoop (n : nat).

Definition op_action (o : user_op) : option nat :=
  match o with
  | UStart a | UPause a | UResume a | UStop a | UReset a | UFinish a _ _ | UBlock a _ | USetTimeout a
  | UResetTimeout a | UTimeout a => Some a
  | ULoop _ => None
  end.

Section Users.
Context (func : nat -> list nat -> bool * option reason) (fuel : nat).

Definition user (o : user_op) : M world () :=
  match o with
  | UStart a => start func fuel a;; mret ()
  | UPause a => pause fuel a;; mret ()
  | UResume a => resume fuel a;; mret ()
  | UStop a => stop fuel a
  | UReset a => reset fuel a
  | UFinish a succ why => finish fuel a succ why []
  | UBlock a why => block a why []
  | USetTimeout a => setTimeout a
  | UResetTimeout a => resetTimeout a
  | UTimeout a => timeout fuel a
  | ULoop n => steps func fuel n
  end.

Fixpoint users (l : list user_op) : M world () :=
  match l with [] => mret () | o :: l' => user o;; users l' end.

Lemma steps_wf D par rk cls n : (forall x, x ∈ D -> (rk x < fuel)%nat) -> keeps_wf D par rk cls (steps func fuel n).
Proof.
  intros HF. induction n as [|n IH]; intros w Hw; [done|]. cbn. apply wp_bind.
  eapply wp_mono; [by eapply step_wf|]. intros u w1 H1. by apply IH.
Qed.

Lemma user_wf D par rk cls o : (forall x, x ∈ D -> (rk x < fuel)%nat) ->
  match op_action o with Some a => a ∈ D | None => True end -> keeps_wf D par rk cls (user o).
Proof.
  intros HF Ho. assert (forall a, a ∈ D -> (rk a <= fuel)%nat) as HF'.
  { intros a Ha. pose proof (HF a Ha). lia. }
  destruct o; cbn in Ho |- *; try (apply (good_wf D par rk cls a)); try (apply good_bind; [|intros _; apply good_ret]).
  - by apply good_start; [|apply HF].
  - by apply good_pause; [|apply HF].
  - by apply good_resume; [|apply HF].
  - by apply good_stop; [|apply HF].
  - by apply good_reset; [|apply HF].
  - by apply good_finish; [|apply HF'].
  - by apply good_block.
  - by apply good_setTimeout.
  - by apply good_resetTimeout.
  - by apply good_timeout; [|apply HF'].
  - by apply steps_wf.
Qed.

Lemma users_wf D par rk cls l w : (forall x, x ∈ D -> (rk x < fuel)%nat) ->
  Forall (fun o => match op_action o with Some a => a ∈ D | None => True end) l -> wf D par rk cls w ->
  wp (users l) w (fun _ => wf D par rk cls).
Proof.
  intros HF Hl. revert w. induction Hl as [|o l Ho Hl IH]; intros w Hw; [done|]. cbn. apply wp_bind.
  eapply wp_mono; [by apply user_wf|]. intros u w1 H1. by apply IH.
Qed.
End Users.

(** C21: Forests of actions never crash.  Take a well-formed forest, with actions
    of every kind, user functions that answer anything, and fuel above the rank
    of each action.  Whatever sequence of starts, pauses, resumes, stops, resets,
    timeouts, own endings and blockings of any of its actions and turns of the
    loop is carried out, every call returns: no pointer to a missing child or
    action is followed, no assertion fails, no [onIfActionFinished] reads past
    the pairs, and the forest is well-formed again. *)
Theorem flow_never_crashes func fuel D par rk cls l w :
  wf D par rk cls w -> (forall x, x ∈ D -> (rk x < fuel)%nat) ->
  Forall (fun o => match op_action o with Some a => a ∈ D | None => True end) l ->
  exists w', users func fuel l w = Ret ((), w') /\ wf D par rk cls w'.
Proof.
  intros Hw HF Hl. pose proof (users_wf func fuel D par rk cls l w HF Hl Hw) as H.
  unfold wp in H. destruct (users func fuel l w) as [[[] w']| |]; [|done..]. by exists w'.
Qed.

Definition sample_set : gset nat := {[0; 1; 2; 3]}%nat.
Definition sample_par (x : nat) : option nat := match x with 1 | 2 => Some 0 | 3 => Some 2 | _ => None end%nat.
Definition sample_rk (x : nat) : nat := match x with 0 => 2 | 2 => 1 | _ => 0 end%nat.
Definition sample_cls (x : nat) : class := match x with 0 => CSequence | 2 => CRepeat | _ => CLeaf end%nat.

Lemma sample_wf : wf sample_set sample_par sample_rk sample_cls sample_world.
Proof.
  assert (forall x, x ∈ sample_set -> exists a, acts sample_world !! x = Some a /\
            action_ok sample_set sample_par sample_rk sample_cls x a /\ index_ok (a_kind a) (a_state a)) as H.
  { unfold sample_set. intros x Hx. rewrite !elem_of_union, !elem_of_singleton in Hx.
    assert (forall p c, bool_decide (c ∈ sample_set) = true -> sample_par c = Some p -> (sample_rk c < sample_rk p)%nat ->
      kid_ok sample_set sample_par sample_rk p c) as Hk.
    { intros p c Hd. split; [|done]. by apply bool_decide_eq_true in Hd. }
    destruct Hx as [[[-> | ->]| ->]| ->]; (eexists; split; [reflexivity|]; split; [|exact I]).
    all: constructor; [constructor; [reflexivity..|]|exact I| | |exact I].
    all: try (cbn; repeat first [apply Forall_cons; split|apply Forall_nil]; apply Hk; try done; cbn; lia).
    all: cbn; try exact I; repeat match goal with |- _ /\ _ => split end; try reflexivity; apply (bool_decide_unpack _); reflexivity. }
  split; [split|].
  - intros x Hx. destruct (H x Hx) as (a & Ea & Ha & _). by exists a.
  - by apply Forall_nil.
  - intros x a Hx _ Ea. destruct (H x Hx) as (b & Eb & _ & Hb). by simplify_eq.
Qed.

Lemma flow_never_crashes_witness :
  exists w', users fn_table 5 [UStart 0; UPause 2; ULoop 2; UResume 0; UStop 2; UTimeout 3; UReset 0; UBlock 0 no_reason] sample_world
      = Ret ((), w') /\ wf sample_set sample_par sample_rk sample_cls w'.
Proof.
  apply (flow_never_crashes fn_table 5 sample_set sample_par sample_rk sample_cls).
  - apply sample_wf.
  - intros [|[|[|x]]] _; cbn; lia.
  - repeat first [apply Forall_cons; split|apply Forall_nil]; cbn; unfold sample_set; try exact I; set_solver.
Defined.

(** ** A stale event

    [resume] posts the finish event that it kept while paused, and forgets the
    number of the task.  Neither [stop] nor [reset] can cancel it any more: after
    a new [start] it counts as an event of the new run, and the sequence goes on
    to its second child while the first is still running. *)

Definition stale_event : M world () :=
  addChild 0 (Some 1%nat);; addChild 0 (Some 2%nat);; upd 0 (set_cbs HUser BUser);;
  users fn_table 3 [UStart 0; UFinish 1 true no_reason; UPause 0; ULoop 1; UResume 0; UStop 0; UReset 0; UStart 0; ULoop 1].

Lemma stale_event_runs :
  match stale_event (world0 [(0%nat, Sequence kAllFinish 0 []); (1%nat, Dummy); (2%nat, Dummy)]) with
  | Ret (_, w) => (a_state <$> acts w !! 0%nat) = Some kRunning /\
      (a_state <$> acts w !! 1%nat) = Some kRunning /\ (a_state <$> acts w !! 2%nat) = Some kRunning
  | _ => False
  end.
Proof. vm_compute. repeat split. Qed.
