(* ===== verification/Executor.v ===== *)
(** * Executor: scheduling of actions by priority

    [modules/flow/action_executor.h] and [.cpp].  The executor sees its actions
    through their state and a few calls; [ActionOps] is this interface and
    [ActionLaws] what the executor relies on.  The theorems are proved against
    the interface; the actions of Action.v implement it. *)
From S2P Require Import Prelude Action ActionSem ActionSafe.

(** ** The interface *)

Class ActionOps (S : Type) := {
  ao_state : nat -> S -> option astate;
  ao_start : nat -> M S bool;
  ao_pause : nat -> M S bool;
  ao_resume : nat -> M S bool;
  ao_stop : nat -> M S ();
  ao_delete : nat -> M S ()
}.

(** [m] ends in a valid state, with [a] in a state that satisfies [P] and the
    other actions as they were. *)
Definition moves {S} `{ActionOps S} (valid : S -> Prop) (root : nat -> Prop) (a : nat) {A} (m : M S A)
    (P : A -> astate -> Prop) (s : S) : Prop :=
  exists v s', m s = Ret (v, s') /\ valid s' /\ (exists st, ao_state a s' = Some st /\ P v st) /\
    forall b, root b -> b <> a -> ao_state b s' = ao_state b s.

Class ActionLaws (S : Type) `{ActionOps S} (valid : S -> Prop) (root : nat -> Prop) := {
  law_state s a : valid s -> root a -> is_Some (ao_state a s);
  law_start s a : valid s -> root a -> ao_state a s = Some kIdle ->
    moves valid root a (ao_start a) (fun v st => v = true /\ st <> kIdle) s;
  law_pause s a : valid s -> root a -> moves valid root a (ao_pause a) (fun _ st => st <> kRunning) s;
  law_resume s a : valid s -> root a -> ao_state a s = Some kPause ->
    moves valid root a (ao_resume a) (fun _ st => st = kRunning) s;
  law_stop s a : valid s -> root a -> moves valid root a (ao_stop a) (fun _ st => is_underway st = false) s;
  law_delete s a : valid s -> root a -> exists s', ao_delete a s = Ret ((), s') /\ valid s' /\
    forall b, root b -> b <> a -> ao_state b s' = ao_state b s
}.

(** ** The executor *)

Record xitem := mkXItem { x_id : Z; x_action : nat }.

(** The calls of the user's callbacks. *)
Inductive notice := NStarted (id : Z) | NFinished (id : Z) | NAllFinished.

Record executor (S : Type) := mkExecutor {
  deques : list (list xitem);
  id_counter : Z;
  curr_index : Z;          (** [curr_action_deque_index_] *)
  notices : list notice;
  env : S
}.
Arguments mkExecutor {S}.
Arguments deques {S}.
Arguments id_counter {S}.
Arguments curr_index {S}.
Arguments notices {S}.
Arguments env {S}.

Definition new_executor {S} (s : S) : executor S := mkExecutor [[]; []; []] 0 (-1) [] s.

Section Executor.
Context {S : Type} {OPS : ActionOps S}.

Notation X := (M (executor S)).

(** A call on an action. *)
Definition lift {A} (m : M S A) : X A := fun x =>
  match m (env x) with
  | Ret (a, s) => Ret (a, mkExecutor (deques x) (id_counter x) (curr_index x) (notices x) s)
  | Stuck => Stuck
  | OutOfFuel => OutOfFuel
  end.

Definition set_deque (i : nat) (q : list xitem) : X () :=
  modify (fun x => mkExecutor (<[i := q]> (deques x)) (id_counter x) (curr_index x) (notices x) (env x)).
Definition set_curr_index (i : Z) : X () :=
  modify (fun x => mkExecutor (deques x) (id_counter x) i (notices x) (env x)).
Definition notify (n : notice) : X () :=
  modify (fun x => mkExecutor (deques x) (id_counter x) (curr_index x) (notices x ++ [n]) (env x)).

(** [action_deque_array_.at(i)] *)
Definition deque_at (i : Z) : X (list xitem) := x ← get; the (index (deques x) i).

(** [front()]; undefined on an empty deque. *)
Definition front (q : list xitem) : X xitem := the (head q).

Definition state_of (a : nat) : X astate := x ← get; the (ao_state a (env x)).

(** The first deque that is not empty, or -1. *)
Fixpoint ready_from (i : Z) (qs : list (list xitem)) : Z :=
  match qs with
  | [] => -1
  | [] :: qs' => ready_from (i + 1) qs'
  | _ => i
  end.

(** [while (!ready_deque.empty())]; whether an action is running. *)
Fixpoint drain (fuel : nat) (i : Z) : X bool :=
  match fuel with
  | O => out_of_fuel
  | Datatypes.S f =>
      q ← deque_at i;
      match q with
      | [] => mret false
      | item :: q' =>
          let drop :=
            set_deque (Z.to_nat i) q';; lift (ao_delete (x_action item));; set_curr_index (-1);;
            notify (NFinished (x_id item)) in
          st ← state_of (x_action item);
          match st with
          | kIdle =>
              ok ← lift (ao_start (x_action item));
              if (ok : bool) then set_curr_index i;; notify (NStarted (x_id item));; drain f i
              else drop;; drain f i
          | kPause => set_curr_index i;; lift (ao_resume (x_action item));; drain f i
          | kFinished | kStoped => drop;; drain f i
          | kRunning => mret true
          end
      end
  end.

(** [schedule] *)
Fixpoint schedule (fuel : nat) : X () :=
  match fuel with
  | O => out_of_fuel
  | Datatypes.S f =>
      x ← get;
      let ready := ready_from 0 (deques x) in
      if ready =? -1 then notify NAllFinished
      else
        when (negb (curr_index x =? -1) && (ready <? curr_index x))
          (q ← deque_at (curr_index x); item ← front q; lift (ao_pause (x_action item));; mret ());;
        running ← drain f ready;
        if (running : bool) then mret () else schedule f
  end.

Section Operations.
Context (fuel : nat).

Definition append (a : nat) (prio : Z) : X Z :=
  if negb ((0 <=? prio) && (prio <=? 2)) then stuck
  else
    x ← get;
    let id := id_counter x + 1 in
    q ← deque_at prio;
    put (mkExecutor (<[Z.to_nat prio := q ++ [mkXItem id a]]> (deques x)) id (curr_index x) (notices x) (env x));;
    schedule fuel;; mret id.

Definition current : X Z :=
  x ← get;
  if curr_index x =? -1 then mret (-1)
  else q ← deque_at (curr_index x); item ← front q; mret (x_id item).

Definition cancelCurrent : X bool :=
  x ← get;
  if curr_index x =? -1 then mret false
  else
    q ← deque_at (curr_index x); item ← front q;
    lift (ao_stop (x_action item));; lift (ao_delete (x_action item));;
    set_deque (Z.to_nat (curr_index x)) (tail q);; schedule fuel;; mret true.

(** [find_if] and [erase] in one deque. *)
Fixpoint take_out (id : Z) (q : list xitem) : option (xitem * list xitem) :=
  match q with
  | [] => None
  | item :: q' =>
      if x_id item =? id then Some (item, q')
      else option_map (fun r => (r.1, item :: r.2)) (take_out id q')
  end.

Fixpoint find_out (id : Z) (i : nat) (qs : list (list xitem)) : option (nat * xitem * list xitem) :=
  match qs with
  | [] => None
  | q :: qs' =>
      match take_out id q with
      | Some (item, q') => Some (i, item, q')
      | None => find_out id (Datatypes.S i) qs'
      end
  end.

Definition xcancel (id : Z) : X bool :=
  if id <=? 0 then stuck
  else
    x ← get;
    match find_out id 0 (deques x) with
    | Some (i, item, q) =>
        lift (ao_delete (x_action item));; set_deque i q;; schedule fuel;; mret true
    | None => mret false
    end.

(** [cancelAll] *)
Fixpoint stop_fronts (qs : list (list xitem)) : X () :=
  match qs with
  | [] => mret ()
  | [] :: qs' => stop_fronts qs'
  | (item :: _) :: qs' => lift (ao_stop (x_action item));; stop_fronts qs'
  end.

Definition cancelAll : X () := x ← get; stop_fronts (deques x).
End Operations.
End Executor.

(** ** Correctness *)

Lemma ready_cases k qs : 0 <= k ->
  (ready_from k qs = -1 /\ Forall (eq []) qs) \/
  exists i item q, ready_from k qs = k + Z.of_nat i /\ qs !! i = Some (item :: q) /\
    forall j, (j < i)%nat -> qs !! j = Some [].
Proof.
  revert k. induction qs as [|[|item q] qs IH]; intros k Hk.
  - left. split; [done|constructor].
  - cbn. destruct (IH (k + 1)) as [[E H]|(i & item & q & E & H1 & H2)]; [lia|left|right].
    + split; [done|by constructor].
    + exists (S i), item, q. split; [lia|]. split; [done|]. intros [|j] Hj; [done|]. cbn. apply H2. lia.
  - right. exists 0%nat, item, q. split; [cbn; lia|]. split; [done|]. lia.
Qed.

Lemma index_nat {A} (l : list A) i : index l (Z.of_nat i) = l !! i.
Proof. rewrite index_nonneg by lia. by rewrite Nat2Z.id. Qed.

Section Correct.
Context {S : Type} {OPS : ActionOps S} (valid : S -> Prop) (root : nat -> Prop) {LAWS : ActionLaws S valid root}.

Notation X := (executor S).

Definition items (x : X) : list xitem := concat (deques x).

Definition running (x : X) (a : nat) : Prop := ao_state a (env x) = Some kRunning.

(** Nothing but [o] is running. *)
Definition runs_only (x : X) (o : option nat) : Prop :=
  forall it, it ∈ items x -> running x (x_action it) -> Some (x_action it) = o.

Record sound (x : X) : Prop := mkSound {
  s_three : length (deques x) = 3%nat;
  s_valid : valid (env x);
  s_nodup : NoDup (map x_action (items x));
  s_root : Forall (fun it => root (x_action it)) (items x)
}.

Lemma items_split x i q : deques x !! i = Some q ->
  exists before after, items x = before ++ q ++ after /\
    forall q' x', deques x' = <[i := q']> (deques x) -> items x' = before ++ q' ++ after.
Proof.
  intros E. exists (concat (take i (deques x))), (concat (drop (Datatypes.S i) (deques x))).
  pose proof (take_drop_middle _ _ _ E) as Es. split.
  - unfold items. rewrite <- Es at 1. by rewrite concat_app.
  - intros q' x' Hx. unfold items. rewrite Hx.
    rewrite insert_take_drop by (by eapply lookup_lt_Some). by rewrite concat_app.
Qed.

Lemma items_in x i q it : deques x !! i = Some q -> it ∈ q -> it ∈ items x.
Proof. intros E Hi. destruct (items_split x i q E) as (b & a & -> & _). set_solver. Qed.

Lemma sound_root x it : sound x -> it ∈ items x -> root (x_action it).
Proof. intros [] H. rewrite Forall_forall in s_root0. by apply s_root0. Qed.

Lemma same_action x it it' : sound x -> it ∈ items x -> it' ∈ items x -> x_action it = x_action it' -> it = it'.
Proof.
  intros [_ _ Hn _] H1 H2 E. apply list_elem_of_lookup in H1 as [i Hi], H2 as [j Hj].
  assert (i = j) as <-; [|congruence].
  eapply NoDup_lookup; [exact Hn| |]; rewrite list_lookup_fmap; [by rewrite Hi|rewrite Hj; cbn; by rewrite E].
Qed.

(** A call on the action of an item. *)
Lemma lift_moves {A} x it (m : M S A) P : sound x -> it ∈ items x ->
  moves valid root (x_action it) m P (env x) ->
  exists v x', lift m x = Ret (v, x') /\ sound x' /\ deques x' = deques x /\ curr_index x' = curr_index x /\
    (exists st, ao_state (x_action it) (env x') = Some st /\ P v st) /\
    forall it', it' ∈ items x -> x_action it' <> x_action it ->
      ao_state (x_action it') (env x') = ao_state (x_action it') (env x).
Proof.
  intros Hs Hi (v & s' & E & Hv & Hst & Hf). eexists v, _. split; [unfold lift; by rewrite E|].
  split; [destruct Hs; by constructor|]. split; [done|]. split; [done|]. split; [done|].
  intros it' Hi' Hne. apply Hf; [|done]. by eapply sound_root.
Qed.

(** An item is deleted and leaves its deque. *)
Lemma removed x i it l1 l2 : sound x -> deques x !! i = Some (l1 ++ it :: l2) ->
  exists s', ao_delete (x_action it) (env x) = Ret ((), s') /\
    forall n c l, let x' := mkExecutor (<[i := l1 ++ l2]> (deques x)) n c l s' in sound x' /\
      (Datatypes.S (length (items x')) = length (items x))%nat /\
      forall it', it' ∈ items x' -> it' ∈ items x /\ x_action it' <> x_action it /\ (running x' (x_action it') -> running x (x_action it')).
Proof.
  intros Hs E. assert (it ∈ items x) as Hit by (eapply items_in; [exact E|set_solver]).
  destruct (law_delete (env x) (x_action it)) as (s' & Ed & Hv & Hf); [by destruct Hs|by eapply sound_root|].
  exists s'. split; [done|]. intros n c l x'.
  destruct (items_split x i _ E) as (b & a & Ei & Ei'). specialize (Ei' (l1 ++ l2) x' eq_refl).
  assert (items x ≡ₚ it :: items x') as Hperm.
  { rewrite Ei, Ei'. rewrite <- !app_assoc. cbn. rewrite <- !Permutation_middle. done. }
  destruct Hs as [H3 H4 H5 H6]. rewrite Hperm in H5, H6. cbn in H5. apply NoDup_cons in H5 as [H5 H5'].
  apply Forall_cons in H6 as [H6 H6'].
  split; [constructor; [cbn; by rewrite length_insert|done..]|]. split; [by rewrite Hperm|].
  intros it' Hit'. rewrite Forall_forall in H6'.
  assert (x_action it' <> x_action it) as Hne.
  { intros Ea. apply H5. rewrite <- Ea. apply list_elem_of_fmap. by exists it'. }
  split; [rewrite Hperm; by right|]. split; [done|]. unfold running. cbn. rewrite Hf; [done|by apply H6'|done].
Qed.

(** The first item, not running, leaves. *)
Lemma leaves x i it q : sound x -> deques x !! i = Some (it :: q) -> ~ running x (x_action it) ->
  runs_only x (Some (x_action it)) ->
  exists s', ao_delete (x_action it) (env x) = Ret ((), s') /\
    forall n c l, let x' := mkExecutor (<[i := q]> (deques x)) n c l s' in sound x' /\ runs_only x' None.
Proof.
  intros Hs E Hr Ho. destruct (removed x i it [] q Hs E) as (s' & Ed & H). exists s'. split; [done|].
  intros n c l. destruct (H n c l) as (H1 & _ & H2). split; [done|]. intros it' Hi' Hr'.
  destruct (H2 it' Hi') as (H3 & H4 & H5). specialize (Ho it' H3 (H5 Hr')). congruence.
Qed.

Lemma deque_at_spec (x : X) i q : deques x !! i = Some q -> deque_at (Z.of_nat i) x = Ret (q, x).
Proof. intros E. unfold deque_at. erewrite bind_Ret by done. by rewrite index_nat, E. Qed.

(** *** drain *)

Definition cost (st : option astate) : nat :=
  match st with Some kIdle => 3 | Some kPause => 2 | _ => 1 end.

Definition front_cost (x : X) (q : list xitem) : nat :=
  match q with [] => 0 | it :: q' => cost (ao_state (x_action it) (env x)) + 3 * length q' end.

Lemma front_cost_le x q : (front_cost x q <= 3 * length q)%nat.
Proof. destruct q as [|it q]; cbn; [lia|]. destruct (ao_state _ _) as [[]|]; cbn; lia. Qed.

Definition drained (i : nat) (q : list xitem) (x : X) (b : bool) (x' : X) : Prop :=
  sound x' /\ exists q', deques x' = <[i := q']> (deques x) /\ (length q' <= length q)%nat /\
  match b with
  | true => exists it q'', q' = it :: q'' /\ curr_index x' = Z.of_nat i /\ running x' (x_action it) /\
              runs_only x' (Some (x_action it))
  | false => q' = [] /\ runs_only x' None /\ (q <> [] -> curr_index x' = -1)
  end.

Lemma drain_spec fuel i x q : sound x -> deques x !! i = Some q -> runs_only x (x_action <$> head q) ->
  (forall it, head q = Some it -> running x (x_action it) -> curr_index x = Z.of_nat i) ->
  (front_cost x q < fuel)%nat ->
  exists b x', drain fuel (Z.of_nat i) x = Ret (b, x') /\ drained i q x b x'.
Proof.
  revert x q. induction fuel as [|f IH]; intros x q Hs Eq Ho Hc Hf; [lia|].
  cbn [drain]. rewrite (bind_Ret _ _ _ _ _ (deque_at_spec x i q Eq)). destruct q as [|it q].
  { exists false, x. split; [done|]. split; [done|]. exists []. split; [by rewrite list_insert_id|]. done. }
  assert (it ∈ items x) as Hit by (eapply items_in; [exact Eq|left]).
  destruct (law_state (env x) (x_action it)) as [st Est]; [by destruct Hs|by eapply sound_root|].
  assert (state_of (x_action it) x = Ret (st, x)) as Es.
  { unfold state_of. erewrite bind_Ret by done. by rewrite Est. }
  rewrite (bind_Ret _ _ _ _ _ Es). cbn in Ho, Hf. rewrite Est in Hf.
  assert (forall x1 (P : astate -> Prop), sound x1 -> deques x1 = deques x -> curr_index x1 = Z.of_nat i ->
     (exists st1, ao_state (x_action it) (env x1) = Some st1 /\ P st1) -> (forall st1, P st1 -> (cost (Some st1) < cost (Some st))%nat) ->
     (forall it', it' ∈ items x -> x_action it' <> x_action it -> ao_state (x_action it') (env x1) = ao_state (x_action it') (env x)) ->
     exists b x', drain f (Z.of_nat i) x1 = Ret (b, x') /\ drained i (it :: q) x b x') as Hagain.
  { intros x1 P H1 H2 H3 (st1 & E1 & HP) Hcost Hfr.
    destruct (IH x1 (it :: q)) as (b & x' & Edr & H4 & q' & H5 & H6).
    - done.
    - by rewrite H2.
    - intros it' Hi' Hr'. unfold items in Hi'. rewrite H2 in Hi'. cbn.
      destruct (decide (x_action it' = x_action it)) as [->|Hne]; [done|].
      apply Ho; [done|]. unfold running in *. by rewrite <- Hfr.
    - done.
    - cbn. rewrite E1. specialize (Hcost st1 HP). lia.
    - exists b, x'. split; [done|]. split; [done|]. exists q'. by rewrite H5, H2. }
  assert (forall x1, x1 = x -> is_over st = true -> exists b x',
    ((set_deque (Z.to_nat (Z.of_nat i)) q;; lift (ao_delete (x_action it));; set_curr_index (-1);;
      notify (NFinished (x_id it)));; drain f (Z.of_nat i)) x1 = Ret (b, x') /\ drained i (it :: q) x b x') as Hdrop.
  { intros x1 -> Hov. destruct (leaves x i it q Hs Eq) as (s' & Edl & Hl).
    { unfold running. rewrite Est. intros [= ->]. done. }
    { done. }
    rewrite Nat2Z.id, bind_assoc. unfold set_deque, modify. erewrite bind_Ret by done.
    rewrite bind_assoc. unfold lift at 1. erewrite bind_Ret by (cbn; by rewrite Edl).
    rewrite bind_assoc. unfold set_curr_index, notify, modify. erewrite bind_Ret by done. erewrite bind_Ret by done. cbn.
    destruct (Hl (id_counter x) (-1) (notices x ++ [NFinished (x_id it)])) as [Hs1 Ho1]. cbv zeta in Hs1, Ho1.
    edestruct (IH _ q Hs1) as (b & x' & Edr & H4 & q' & H5 & H6 & H7).
    - cbn. apply list_lookup_insert_eq. by eapply lookup_lt_Some.
    - intros it' Hi' Hr'. specialize (Ho1 it' Hi' Hr'). done.
    - intros it' Hh Hr'. assert (it' ∈ q) as Hq by (destruct q; [done|]; injection Hh as ->; left).
      assert (None = Some (x_action it')); [|done]. symmetry. apply Ho1; [|done].
      eapply items_in; [|exact Hq]. cbn. apply list_lookup_insert_eq. by eapply lookup_lt_Some.
    - eapply Nat.le_lt_trans; [apply front_cost_le|]. destruct st; cbn in Hf; lia.
    - exists b, x'. split; [exact Edr|]. split; [done|]. exists q'. cbn in H5. rewrite list_insert_insert_eq in H5.
      split; [done|]. split; [cbn; lia|]. destruct b; [exact H7|]. destruct H7 as (H7 & H8 & H9).
      split; [done|]. split; [done|]. intros _. destruct q; [|by apply H9].
      destruct f as [|f]; [cbn in Hf; destruct st; cbn in Hf; lia|]. 
      cbn in Edr. unfold deque_at in Edr. cbn in Edr.
      unfold mbind, M_bind, get in Edr. cbn in Edr. rewrite index_nat, list_lookup_insert_eq in Edr by (by eapply lookup_lt_Some).
      cbn in Edr. by injection Edr as <-. }
  destruct st.
  - (* idle *)
    destruct (lift_moves x it _ _ Hs Hit (law_start _ _ (s_valid x Hs) (sound_root x it Hs Hit) Est))
      as (v & x1 & El & H1 & H2 & H3 & (st1 & E1 & HP) & Hfr).
    destruct HP as [-> Hne].
    rewrite (bind_Ret _ _ _ _ _ El). unfold set_curr_index, notify, modify. erewrite bind_Ret by done.
    erewrite bind_Ret by done. cbn.
    eapply (Hagain _ (fun st => st <> kIdle)); try done; [by destruct H1|by exists st1|].
    intros [] ?; cbn; lia || done.
  - (* running *)
    exists true, x. split; [done|]. split; [done|]. exists (it :: q). split; [by rewrite list_insert_id|].
    split; [done|]. exists it, q. split; [done|]. split; [by apply (Hc it)|]. done.
  - (* paused *)
    unfold set_curr_index, modify. erewrite bind_Ret by done. cbn.
    match goal with |- context [(_ ≫= _) ?y] => set (x0 := y) end.
    assert (sound x0) as Hs0 by (by destruct Hs).
    destruct (lift_moves x0 it _ _ Hs0 Hit (law_resume _ _ (s_valid x Hs) (sound_root x it Hs Hit) Est))
      as (v & x1 & El & H1 & H2 & H3 & Hst1 & Hfr).
    rewrite (bind_Ret _ _ _ _ _ El).
    eapply (Hagain x1 (fun st => st = kRunning)); [done|done|done|exact Hst1| |exact Hfr]. intros st1 ->. cbn. lia.
  - by apply Hdrop.
  - by apply Hdrop.
Qed.

(** *** schedule *)

Definition all_empty (x : X) : Prop := Forall (eq []) (deques x).

(** The front of the highest deque runs, and nothing else. *)
Definition settled (x : X) : Prop :=
  exists i it q, curr_index x = Z.of_nat i /\ ready_from 0 (deques x) = Z.of_nat i /\ deques x !! i = Some (it :: q) /\
    running x (x_action it) /\ runs_only x (Some (x_action it)).

(** When [schedule] may be called: at most the front of the current deque runs,
    and if that deque is empty nothing of a higher priority is waiting. *)
Definition sched_ok (x : X) : Prop :=
  sound x /\
  (curr_index x = -1 /\ runs_only x None \/
   exists i q, curr_index x = Z.of_nat i /\ deques x !! i = Some q /\ runs_only x (x_action <$> head q) /\
     (q = [] -> ready_from 0 (deques x) = -1 \/ Z.of_nat i < ready_from 0 (deques x))).

Definition filled (x : X) : nat := length (filter (fun q => q <> []) (deques x)).

Lemma runs_none x o : runs_only x None -> runs_only x o.
Proof. intros H it Hi Hr. specialize (H it Hi Hr). done. Qed.

Lemma filled_less x x' i it q : deques x !! i = Some (it :: q) -> deques x' = <[i := []]> (deques x) ->
  (filled x' < filled x)%nat.
Proof.
  intros E E'. unfold filled. rewrite E', insert_take_drop by (by eapply lookup_lt_Some).
  rewrite <- (take_drop_middle _ _ _ E) at 3. rewrite !filter_app, !filter_cons, !length_app.
  rewrite decide_False by (intros H; by apply H). rewrite decide_True by done. cbn. lia.
Qed.

Lemma items_length x x' i q q' : deques x !! i = Some q -> deques x' = <[i := q']> (deques x) ->
  (length q' <= length q)%nat -> (length (items x') <= length (items x))%nat.
Proof.
  intros E E' Hl. destruct (items_split x i q E) as (b & a & -> & H). rewrite (H q' x' E').
  rewrite !length_app. lia.
Qed.

Lemma deque_length x i q : deques x !! i = Some q -> (length q <= length (items x))%nat.
Proof. intros E. destruct (items_split x i q E) as (b & a & -> & _). rewrite !length_app. lia. Qed.

(** The pause at the head of the loop. *)
Lemma schedule_pause x i it q : sched_ok x -> ready_from 0 (deques x) = Z.of_nat i -> deques x !! i = Some (it :: q) ->
  exists x', when (negb (curr_index x =? -1) && (Z.of_nat i <? curr_index x))
      (q ← deque_at (curr_index x); item ← front q; lift (ao_pause (x_action item));; mret ()) x = Ret ((), x') /\
    sound x' /\ deques x' = deques x /\ runs_only x' (Some (x_action it)) /\
    (running x' (x_action it) -> curr_index x' = Z.of_nat i).
Proof.
  intros [Hs Hc] Er E. assert (it ∈ items x) as Hit by (eapply items_in; [exact E|left]).
  destruct Hc as [[Ec Ho]|(k & qk & Ec & Ek & Ho & He)].
  { rewrite Ec. exists x. split; [done|]. split; [done|]. split; [done|]. split; [by apply runs_none|].
    intros Hr. specialize (Ho it Hit Hr). done. }
  rewrite Ec, (proj2 (Z.eqb_neq _ _)) by lia. cbn [negb andb].
  destruct (Z.ltb_spec (Z.of_nat i) (Z.of_nat k)) as [Hlt|Hge]; cbn [when].
  - destruct qk as [|ik qk]; [destruct (He eq_refl); lia|].
    assert (ik ∈ items x) as Hik by (eapply items_in; [exact Ek|left]).
    destruct (lift_moves x ik _ _ Hs Hik (law_pause _ _ (s_valid x Hs) (sound_root x ik Hs Hik)))
      as (v & x1 & El & H1 & H2 & H3 & (st & E1 & Hst) & Hfr).
    exists x1. split.
    { rewrite (bind_Ret _ _ _ _ _ (deque_at_spec x k _ Ek)). cbn [front head].
      erewrite bind_Ret by done. by rewrite (bind_Ret _ _ _ _ _ El). }
    split; [done|]. split; [done|].
    assert (runs_only x1 None) as Ho1.
    { intros it' Hi' Hr'. unfold items in Hi'. rewrite H2 in Hi'. unfold running in Hr'.
      destruct (decide (x_action it' = x_action ik)) as [Ea|Hne].
      - rewrite Ea, E1 in Hr'. congruence.
      - rewrite Hfr in Hr' by done. specialize (Ho it' Hi' Hr'). cbn in Ho. congruence. }
    split; [by apply runs_none|]. intros Hr. 
    assert (Some (x_action it) = None); [|done]. apply Ho1; [|done]. unfold items. by rewrite H2.
  - exists x. split; [done|]. split; [done|]. split; [done|].
    assert (k = i \/ runs_only x None) as [->|Hn].
    { destruct qk as [|ik qk]; [by right|left]. destruct (ready_cases 0 (deques x)) as [[Hr _]|(j & itj & qj & Hr & Hj & Hb)];
        [lia..|]. assert (j = i) as -> by lia. destruct (Nat.lt_trichotomy k i) as [Hki|[->|]]; [|done|lia].
      rewrite (Hb k Hki) in Ek. discriminate Ek. }
    + rewrite E in Ek. injection Ek as <-. split; [done|]. by intros _.
    + split; [by apply runs_none|]. intros Hr. specialize (Hn it Hit Hr). done.
Qed.

Lemma schedule_spec fuel x : sched_ok x -> (filled x + 3 * length (items x) + 1 < fuel)%nat ->
  exists x', schedule fuel x = Ret ((), x') /\ sound x' /\
    (settled x' \/ all_empty x' /\ (curr_index x' = -1 \/ all_empty x /\ curr_index x' = curr_index x)).
Proof.
  revert x. induction fuel as [|f IH]; intros x Hx Hf; [lia|]. cbn [schedule].
  unfold mbind at 1, M_bind at 1, get at 1.
  destruct (ready_cases 0 (deques x)) as [[Er He]|(i & it & q & Er & E & Hb)]; [lia| |].
  { rewrite Er. cbn. eexists. split; [reflexivity|]. destruct Hx as [Hs _]. split; [by destruct Hs|].
    right. split; [done|]. by right. }
  rewrite Z.add_0_l in Er. rewrite Er, (proj2 (Z.eqb_neq _ _)) by lia.
  destruct (schedule_pause x i it q Hx Er E) as (x1 & Ep & H1 & H2 & H3 & H4).
  rewrite (bind_Ret _ _ _ _ _ Ep).
  pose proof (deque_length x i _ E) as Hlen.
  destruct (drain_spec f i x1 (it :: q)) as (b & x2 & Ed & H5 & q' & H6 & H7 & H8).
  - done.
  - by rewrite H2.
  - done.
  - intros it' [= <-]. done.
  - eapply Nat.le_lt_trans; [apply front_cost_le|]. lia.
  - rewrite (bind_Ret _ _ _ _ _ Ed). rewrite H2 in H6. destruct b.
    + destruct H8 as (it' & q'' & -> & H9 & H10 & H11). exists x2. split; [done|]. split; [done|].
      left. exists i, it', q''. split; [done|]. rewrite H6. split; [|split; [apply list_lookup_insert_eq; by eapply lookup_lt_Some|done]].
      destruct (ready_cases 0 (<[i := it' :: q'']> (deques x))) as [[_ He]|(j & itj & qj & Hr & Hj & Hbj)]; [lia| |].
      * rewrite Forall_forall in He. assert (it' :: q'' ∈ <[i := it' :: q'']> (deques x)) as Hin
          by (apply list_elem_of_lookup; exists i; apply list_lookup_insert_eq; by eapply lookup_lt_Some).
        by specialize (He _ Hin).
      * rewrite Hr. assert (j = i) as ->; [|lia]. destruct (Nat.lt_trichotomy j i) as [Hl|[->|Hl]]; [|done|].
        -- rewrite list_lookup_insert_ne, Hb in Hj by lia. discriminate Hj.
        -- specialize (Hbj i Hl). rewrite list_lookup_insert_eq in Hbj by (by eapply lookup_lt_Some). discriminate Hbj.
    + destruct H8 as (-> & H9 & H10). specialize (H10 ltac:(done)).
      destruct (IH x2) as (x3 & Es & H12 & H13).
      { split; [done|]. by left. }
      { pose proof (filled_less x x2 i it q E H6). pose proof (items_length x x2 i _ _ E H6 H7). lia. }
      exists x3. split; [done|]. split; [done|]. destruct H13 as [H13|(H13 & [H14|[_ H14]])]; [by left|right..];
        (split; [done|]); left; congruence.
Qed.

(** *** The operations *)

Inductive xop := XAppend (a : nat) (prio : Z) | XCancelCurrent | XCancel (id : Z) | XCancelAll | XSchedule.

(** [XSchedule] is the finish callback of an action. *)
Definition run_op (fuel : nat) (o : xop) : M X () :=
  match o with
  | XAppend a prio => append fuel a prio;; mret ()
  | XCancelCurrent => cancelCurrent fuel;; mret ()
  | XCancel id => xcancel fuel id;; mret ()
  | XCancelAll => cancelAll
  | XSchedule => schedule fuel
  end.

(** What the assertions of the operations ask for. *)
Definition admissible (x : X) (o : xop) : Prop :=
  match o with
  | XAppend a prio => 0 <= prio <= 2 /\ root a /\ (a ∉ map x_action (items x)) /\ ~ running x a
  | XCancel id => 0 < id
  | _ => True
  end.

(** Between two calls: at most one action runs, the front of the highest deque,
    which is the current one. *)
Definition consistent (x : X) : Prop :=
  sound x /\
  (all_empty x /\ curr_index x = -1 \/
   exists i it q, curr_index x = Z.of_nat i /\ ready_from 0 (deques x) = Z.of_nat i /\ deques x !! i = Some (it :: q) /\
     runs_only x (Some (x_action it))).

(** All deques are empty, but the current one is not forgotten. *)
Definition stale (x : X) : Prop :=
  sound x /\ all_empty x /\ exists i, (i < 3)%nat /\ curr_index x = Z.of_nat i.

Lemma empty_items x : all_empty x -> items x = [].
Proof. unfold all_empty, items. induction 1 as [|q qs <- _ IH]; [done|exact IH]. Qed.

Lemma empty_ready x : all_empty x -> ready_from 0 (deques x) = -1.
Proof.
  intros H. destruct (ready_cases 0 (deques x)) as [[E _]|(i & it & q & _ & E & _)]; [lia|done|].
  pose proof (Forall_lookup_1 _ _ _ _ H E) as Hq. discriminate Hq.
Qed.

Lemma empty_lookup x i : all_empty x -> length (deques x) = 3%nat -> (i < 3)%nat -> deques x !! i = Some [].
Proof.
  intros H Hl Hi. destruct (lookup_lt_is_Some_2 (deques x) i) as [q E]; [lia|].
  rewrite E. f_equal. symmetry. by apply (Forall_lookup_1 _ _ _ _ H E).
Qed.

Lemma consistent_sched x : consistent x \/ stale x -> sched_ok x.
Proof.
  intros [[Hs [[He Ec]|(i & it & q & Ec & Er & E & Ho)]]|(Hs & He & i & Hi & Ec)]; (split; [done|]).
  - left. split; [done|]. intros it Hit. unfold items in *. fold (items x) in Hit. rewrite empty_items in Hit by done. set_solver.
  - right. exists i, (it :: q). done.
  - right. exists i, []. split; [done|]. split; [by apply empty_lookup; [|by destruct Hs|]|].
    split; [|intros _; left; by apply empty_ready].
    intros it Hit. rewrite empty_items in Hit by done. set_solver.
Qed.

(** The state after a call that ends with [schedule]. *)
Definition scheduled (x x' : X) : Prop :=
  (consistent x' \/ stale x') /\ (settled x' \/ all_empty x').

Lemma schedule_then fuel x : sched_ok x -> (filled x + 3 * length (items x) + 1 < fuel)%nat ->
  exists x', schedule fuel x = Ret ((), x') /\ scheduled x x'.
Proof.
  intros Hx Hf. destruct (schedule_spec fuel x Hx Hf) as (x' & E & Hs & Hr). exists x'. split; [done|].
  destruct Hr as [Hset|(He & Hc)].
  - split; [|by left]. left. split; [done|]. right.
    destruct Hset as (i & it & q & H1 & H2 & H3 & _ & H4). by exists i, it, q.
  - split; [|by right]. destruct Hc as [Hc|[Hx' Hc]]; [left; split; [done|]; by left|].
    destruct Hx as [Hsx [[Ec _]|(i & q & Ec & Ei & _)]].
    + left. split; [done|]. left. split; [done|]. congruence.
    + right. split; [done|]. split; [done|]. exists i. split; [|congruence].
      apply lookup_lt_Some in Ei. by rewrite <- (s_three x Hsx).
Qed.

Lemma filled_le x : length (deques x) = 3%nat -> (filled x <= 3)%nat.
Proof. intros <-. apply length_filter. Qed.

Lemma append_spec fuel a prio x : consistent x \/ stale x -> admissible x (XAppend a prio) ->
  (stale x -> curr_index x <= prio) -> (3 * length (items x) + 8 < fuel)%nat ->
  exists id x', append fuel a prio x = Ret (id, x') /\ scheduled x x'.
Proof.
  intros Hx (Hp & Hroot & Hnew & Hrun) Hst Hf. pose proof (proj1 (consistent_sched x Hx)) as Hs.
  unfold append. rewrite !(proj2 (Z.leb_le _ _)) by lia. cbn [andb negb].
  destruct (Z_of_nat_complete prio) as [k ->]; [lia|]. assert (k < 3)%nat as Hk by lia.
  destruct (lookup_lt_is_Some_2 (deques x) k) as [q Eq]; [by rewrite (s_three x Hs)|].
  erewrite bind_Ret by done. rewrite (bind_Ret _ _ _ _ _ (deque_at_spec x k q Eq)). erewrite bind_Ret by done.
  rewrite Nat2Z.id. set (it := mkXItem (id_counter x + 1) a).
  set (x1 := mkExecutor (<[k := q ++ [it]]> (deques x)) (id_counter x + 1) (curr_index x) (notices x) (env x)).
  destruct (items_split x k q Eq) as (b & c & Ei & Ei'). specialize (Ei' (q ++ [it]) x1 eq_refl).
  assert (items x1 ≡ₚ it :: items x) as Hperm.
  { rewrite Ei, Ei', <- app_assoc. cbn. by rewrite app_assoc, <- Permutation_middle, <- app_assoc. }
  assert (sound x1) as Hs1.
  { destruct Hs as [H1 H2 H3 H4]. constructor; [cbn; by rewrite length_insert|done| |].
    - rewrite Hperm. by constructor.
    - rewrite Hperm. by constructor. }
  assert (forall o, runs_only x o -> runs_only x1 o) as Ho1.
  { intros o Ho it' Hit' Hr'. rewrite Hperm, elem_of_cons in Hit'. destruct Hit' as [->|Hit']; [done|]. by apply Ho. }
  assert (length (items x1) = Datatypes.S (length (items x))) as Hl1 by (by rewrite Hperm).
  pose proof (filled_le x1 (s_three x1 Hs1)) as Hfl.
  destruct (schedule_then fuel x1) as (x' & Es & Hx'); [|lia|].
  2: { exists (id_counter x + 1), x'. split; [by rewrite (bind_Ret _ _ _ _ _ Es)|exact Hx']. }
  split; [done|]. destruct Hx as [[_ [[He Ec]|(i & iti & qi & Ec & Er & E & Ho)]]|Hstale].
  - left. split; [done|]. apply Ho1. intros it' Hit'. rewrite empty_items in Hit' by done. set_solver.
  - right. destruct (decide (i = k)) as [->|Hne].
    + rewrite E in Eq. injection Eq as <-. exists k, (iti :: qi ++ [it]). split; [done|].
      split; [cbn; apply list_lookup_insert_eq; by eapply lookup_lt_Some|]. split; [by apply Ho1|done].
    + exists i, (iti :: qi). split; [done|]. split; [cbn; by rewrite list_lookup_insert_ne|]. split; [by apply Ho1|done].
  - right. specialize (Hst Hstale). destruct Hstale as (_ & He & i & Hi & Ec).
    assert (forall o, runs_only x1 o) as Hall.
    { intros o. apply Ho1. intros it' Hit'. rewrite empty_items in Hit' by done. set_solver. }
    destruct (decide (i = k)) as [->|Hne].
    + exists k, (q ++ [it]). split; [done|]. split; [cbn; apply list_lookup_insert_eq; by eapply lookup_lt_Some|].
      split; [apply Hall|]. by destruct q.
    + exists i, []. split; [done|]. split; [cbn; rewrite list_lookup_insert_ne by done; apply empty_lookup; [done|by destruct Hs|done]|].
      split; [apply Hall|]. intros _. right. cbn.
      destruct (ready_cases 0 (<[k := q ++ [it]]> (deques x))) as [[_ He']|(j & itj & qj & Hr & Hj & _)]; [lia| |].
      * assert (<[k:=q ++ [it]]> (deques x) !! k = Some (q ++ [it])) as Ek by (apply list_lookup_insert_eq; by eapply lookup_lt_Some).
        pose proof (Forall_lookup_1 _ _ _ _ He' Ek). by destruct q.
      * rewrite Hr. destruct (decide (j = k)) as [->|Hjk]; [lia|].
        rewrite list_lookup_insert_ne in Hj by done. pose proof (Forall_lookup_1 _ _ _ _ He Hj). done.
Qed.

(** A deque after the removal of an item that is not the current front. *)
Lemma ready_above (ds : list (list xitem)) i : ready_from 0 ds = Z.of_nat i ->
  ready_from 0 (<[i := []]> ds) = -1 \/ Z.of_nat i < ready_from 0 (<[i := []]> ds).
Proof.
  intros Er. destruct (ready_cases 0 ds) as [[E _]|(k & it & q & E & Ek & Hb)]; [lia..|].
  assert (k = i) as -> by lia.
  destruct (ready_cases 0 (<[i := []]> ds)) as [[E' _]|(j & itj & qj & E' & Ej & _)]; [lia|by left|right].
  rewrite E'. destruct (Nat.lt_trichotomy i j) as [|[->|Hlt]]; [lia| |].
  - rewrite list_lookup_insert_eq in Ej by (by eapply lookup_lt_Some). discriminate Ej.
  - rewrite list_lookup_insert_ne, Hb in Ej by lia. discriminate Ej.
Qed.

Lemma fuel_enough x f : sound x -> (3 * length (items x) + 8 < f)%nat -> (filled x + 3 * length (items x) + 1 < f)%nat.
Proof. intros Hs Hf. pose proof (filled_le x (s_three x Hs)). lia. Qed.

Lemma cancelCurrent_spec fuel x : consistent x -> (3 * length (items x) + 8 < fuel)%nat ->
  exists b x', cancelCurrent fuel x = Ret (b, x') /\ scheduled x x'.
Proof.
  intros [Hs Hc] Hf. unfold cancelCurrent. erewrite bind_Ret by done.
  destruct Hc as [[He Ec]|(i & it & q & Ec & Er & E & Ho)].
  { rewrite Ec. exists false, x. split; [done|]. split; [|by right]. left. split; [done|]. by left. }
  rewrite Ec, (proj2 (Z.eqb_neq _ _)) by lia. rewrite (bind_Ret _ _ _ _ _ (deque_at_spec x i _ E)).
  erewrite bind_Ret by done. cbn [head].
  assert (it ∈ items x) as Hit by (eapply items_in; [exact E|left]).
  destruct (lift_moves x it _ _ Hs Hit (law_stop _ _ (s_valid x Hs) (sound_root x it Hs Hit)))
    as (v & x1 & El & H1 & H2 & H3 & (st & E1 & Hst) & Hfr).
  rewrite (bind_Ret _ _ _ _ _ El).
  assert (items x1 = items x) as Ei by (unfold items; by rewrite H2).
  destruct (leaves x1 i it q) as (s' & Ed & Hl); [done|by rewrite H2| | |].
  { unfold running. rewrite E1. by destruct st. }
  { intros it' Hi' Hr'. destruct (decide (x_action it' = x_action it)) as [->|Hne]; [done|].
    rewrite Ei in Hi'. apply Ho; [done|]. unfold running in *. by rewrite <- Hfr. }
  unfold lift at 1. erewrite bind_Ret by (by rewrite Ed). rewrite Nat2Z.id. unfold set_deque, modify.
  erewrite bind_Ret by done. cbn.
  destruct (Hl (id_counter x1) (curr_index x1) (notices x1)) as [Hs2 Ho2]. cbv zeta in Hs2, Ho2.
  match type of Hs2 with sound ?y => set (x2 := y) in * end.
  assert (length (items x2) <= length (items x1))%nat as Hl2.
  { eapply (items_length x1 x2 i (it :: q) q); [by rewrite H2|done|cbn; lia]. }
  destruct (schedule_then fuel x2) as (x' & Es & Hx').
  - split; [done|]. right. exists i, q. split; [cbn; congruence|].
    split; [cbn; rewrite H2; apply list_lookup_insert_eq; by eapply lookup_lt_Some|]. split; [by apply runs_none|].
    intros ->. cbn. rewrite H2. by apply ready_above.
  - apply fuel_enough; [done|]. rewrite Ei in Hl2. lia.
  - exists true, x'. split; [by rewrite (bind_Ret _ _ _ _ _ Es)|exact Hx'].
Qed.

Lemma take_out_spec id q it q' : take_out id q = Some (it, q') ->
  exists l1 l2, q = l1 ++ it :: l2 /\ q' = l1 ++ l2.
Proof.
  revert q'. induction q as [|it0 q IH]; intros q' E; [done|]. cbn in E. destruct (x_id it0 =? id).
  - injection E as <- <-. by exists [], q.
  - destruct (take_out id q) as [[it1 q1]|]; [|done]. injection E as <- <-.
    destruct (IH q1 eq_refl) as (l1 & l2 & -> & ->). by exists (it0 :: l1), l2.
Qed.

Lemma find_out_spec id k qs i it q' : find_out id k qs = Some (i, it, q') ->
  exists j l1 l2, i = (k + j)%nat /\ qs !! j = Some (l1 ++ it :: l2) /\ q' = l1 ++ l2.
Proof.
  revert k. induction qs as [|q qs IH]; intros k E; [done|]. cbn in E.
  destruct (take_out id q) as [[it1 q1]|] eqn:Et.
  - injection E as <- <- <-. destruct (take_out_spec _ _ _ _ Et) as (l1 & l2 & -> & ->).
    exists 0%nat, l1, l2. split; [lia|done].
  - destruct (IH _ E) as (j & l1 & l2 & -> & Hj & ->). exists (Datatypes.S j), l1, l2. split; [lia|done].
Qed.

Lemma take_out_none id q : take_out id q = None -> Forall (fun it => x_id it <> id) q.
Proof.
  induction q as [|it q IH]; cbn; [constructor|]. destruct (Z.eqb_spec (x_id it) id) as [|Hne]; [done|].
  destruct (take_out id q) as [[? ?]|]; [done|]. intros _. constructor; [done|]. by apply IH.
Qed.

Lemma find_out_none id k qs : find_out id k qs = None -> Forall (fun it => x_id it <> id) (concat qs).
Proof.
  revert k. induction qs as [|q qs IH]; intros k; cbn; [constructor|].
  destruct (take_out id q) as [[? ?]|] eqn:Et; [done|]. intros E. apply Forall_app. split; [by apply take_out_none|by eapply IH].
Qed.

(** There is an action with this number. *)
Definition holds (x : X) (id : Z) : Prop := Exists (fun it => x_id it = id) (items x).

Lemma xcancel_spec fuel id x : consistent x \/ stale x -> 0 < id -> (3 * length (items x) + 8 < fuel)%nat ->
  exists b x', xcancel fuel id x = Ret (b, x') /\ (consistent x' \/ stale x') /\
    (holds x id -> settled x' \/ all_empty x').
Proof.
  intros Hx Hid Hf. unfold xcancel. rewrite (proj2 (Z.leb_gt _ _)) by lia. erewrite bind_Ret by done.
  destruct (find_out id 0 (deques x)) as [[[i it] q']|] eqn:Ef.
  2: { exists false, x. split; [done|]. split; [done|]. intros Hh. exfalso. unfold holds in Hh.
    apply Exists_exists in Hh as (it & Hin & Eid). pose proof (find_out_none _ _ _ Ef) as Hn.
    rewrite Forall_forall in Hn. by apply (Hn it). }
  destruct (find_out_spec _ _ _ _ _ _ Ef) as (j & l1 & l2 & -> & Ej & ->). cbn [Nat.add] in *.
  pose proof (proj1 (consistent_sched x Hx)) as Hs.
  destruct (removed x j it l1 l2 Hs Ej) as (s' & Ed & H).
  unfold lift at 1. erewrite bind_Ret by (by rewrite Ed). unfold set_deque, modify. erewrite bind_Ret by done. cbn.
  destruct (H (id_counter x) (curr_index x) (notices x)) as (H1 & H2 & H3). cbv zeta in H1, H2, H3.
  match type of H1 with sound ?y => set (x2 := y) in * end.
  destruct (schedule_then fuel x2) as (x' & Es & Hx').
  2: { apply fuel_enough; [done|]. lia. }
  2: { exists true, x'. split; [by rewrite (bind_Ret _ _ _ _ _ Es)|]. destruct Hx' as [Ha Hb]. by split. }
  split; [done|]. destruct Hx as [[_ [[He _]|(i & itc & q & Ec & Er & E & Ho)]]|(_ & He & _)].
  1,3: pose proof (Forall_lookup_1 _ _ _ _ He Ej) as Hq; by destruct l1.
  right. destruct (decide (i = j)) as [->|Hne].
  - rewrite E in Ej. injection Ej as Ej. exists j, (l1 ++ l2). split; [done|].
    split; [cbn; apply list_lookup_insert_eq; by eapply lookup_lt_Some|]. split.
    + intros it' Hi' Hr'. destruct (H3 it' Hi') as (H4 & H5 & H6). specialize (Ho it' H4 (H6 Hr')).
      destruct l1 as [|it1 l1]; injection Ej as -> ->; [congruence|done].
    + intros Hnil. cbn. rewrite Hnil. by apply ready_above.
  - exists i, (itc :: q). split; [done|]. split; [cbn; by rewrite list_lookup_insert_ne|]. split; [|done].
    intros it' Hi' Hr'. destruct (H3 it' Hi') as (H4 & H5 & H6). by apply Ho; [|apply H6].
Qed.

(** The actions move on by themselves, but none starts to run. *)
Definition moves_on (x x' : X) : Prop :=
  deques x' = deques x /\ curr_index x' = curr_index x /\ valid (env x') /\
  forall it, it ∈ items x -> running x' (x_action it) -> running x (x_action it).

Lemma moves_on_keeps x x' : moves_on x x' -> consistent x \/ stale x -> consistent x' \/ stale x'.
Proof.
  intros (H1 & H2 & H3 & H4) Hx.
  assert (items x' = items x) as Ei by (unfold items; by rewrite H1).
  assert (sound x -> sound x') as Hs by (intros []; constructor; rewrite ?Ei, ?H1; done).
  destruct Hx as [[Hsx [[He Ec]|(i & it & q & Ec & Er & E & Ho)]]|(Hsx & He & i & Hi & Ec)].
  - left. split; [by apply Hs|]. left. unfold all_empty. rewrite H1, H2. done.
  - left. split; [by apply Hs|]. right. exists i, it, q. rewrite H1, H2. split; [done|]. split; [done|]. split; [done|].
    intros it' Hi' Hr'. rewrite Ei in Hi'. by apply Ho; [|apply H4].
  - right. split; [by apply Hs|]. unfold all_empty. rewrite H1, H2. split; [done|]. by exists i.
Qed.

Lemma cancelAll_spec x : sound x -> exists x', cancelAll x = Ret ((), x') /\ moves_on x x'.
Proof.
  intros Hs. unfold cancelAll. erewrite bind_Ret by done.
  enough (forall qs x1, sound x1 -> (forall q, q ∈ qs -> q ∈ deques x1) ->
    exists x', stop_fronts qs x1 = Ret ((), x') /\ moves_on x1 x') as H by (by apply H).
  induction qs as [|[|it q] qs IH]; intros x1 Hs1 Hsub; cbn [stop_fronts].
  - exists x1. split; [done|]. split; [done|]. split; [done|]. split; [by destruct Hs1|done].
  - apply IH; [done|]. set_solver.
  - assert (it :: q ∈ deques x1) as Hin by (apply Hsub; left).
    apply list_elem_of_lookup in Hin as [i Hi].
    assert (it ∈ items x1) as Hit by (eapply items_in; [exact Hi|left]).
    destruct (lift_moves x1 it _ _ Hs1 Hit (law_stop _ _ (s_valid x1 Hs1) (sound_root x1 it Hs1 Hit)))
      as (v & x2 & El & H1 & H2 & H3 & (st & E1 & Hst) & Hfr).
    rewrite (bind_Ret _ _ _ _ _ El). destruct (IH x2 H1) as (x3 & E3 & H4 & H5 & H6 & H7).
    { intros q' Hq'. rewrite H2. set_solver. }
    exists x3. split; [done|]. split; [congruence|]. split; [congruence|]. split; [done|].
    intros it' Hi' Hr'. assert (running x2 (x_action it')) as Hr2 by (apply H7; [unfold items; by rewrite H2|done]).
    unfold running in Hr2 |- *. destruct (decide (x_action it' = x_action it)) as [Ea|Hne].
    + rewrite Ea, E1 in Hr2. injection Hr2 as ->. done.
    + by rewrite <- Hfr.
Qed.

(** *** The theorems *)

(** A call of the user or of a finished action, or a move of the actions. *)
Inductive xstep : X -> X -> Prop :=
| xs_call x x' fuel o : admissible x o -> (3 * length (items x) + 8 < fuel)%nat ->
    run_op fuel o x = Ret ((), x') -> xstep x x'
| xs_move x x' : moves_on x x' -> xstep x x'.

(** The calls that follow the forgotten index. *)
Definition harmful (x : X) (o : xop) : Prop :=
  match o with
  | XAppend _ prio => prio < curr_index x
  | XCancelCurrent => True
  | _ => False
  end.

Lemma stale_stuck fuel x o : stale x -> admissible x o -> harmful x o -> (0 < fuel)%nat -> run_op fuel o x = Stuck.
Proof.
  intros (Hs & He & i & Hi & Ec) Ha Hh Hf. pose proof (empty_lookup x i He (s_three x Hs) Hi) as Ei.
  destruct o; cbn in Hh; try done.
  - destruct Ha as (Hp & _). cbn [run_op]. unfold append. rewrite !(proj2 (Z.leb_le _ _)) by lia. cbn [andb negb].
    destruct (Z_of_nat_complete prio) as [k ->]; [lia|]. assert (k < 3)%nat as Hk by lia.
    rewrite bind_assoc. erewrite bind_Ret by done. rewrite bind_assoc.
    rewrite (bind_Ret _ _ _ _ _ (deque_at_spec x k _ (empty_lookup x k He (s_three x Hs) Hk))).
    rewrite bind_assoc. erewrite bind_Ret by done. rewrite Nat2Z.id. cbn [app].
    match goal with |- (_ ≫= _) ?y = _ => set (x1 := y) end.
    destruct fuel as [|f]; [lia|]. rewrite bind_assoc.
    enough (schedule (Datatypes.S f) x1 = Stuck) as E by (unfold mbind, M_bind; by rewrite E).
    cbn [schedule]. erewrite bind_Ret by done.
    assert (ready_from 0 (deques x1) = Z.of_nat k) as ->.
    { cbn. destruct (ready_cases 0 (<[k := [mkXItem (id_counter x + 1) a]]> (deques x))) as [[_ He']|(j & itj & qj & Hr & Hj & _)]; [lia| |].
      - assert (<[k := [mkXItem (id_counter x + 1) a]]> (deques x) !! k = Some [mkXItem (id_counter x + 1) a]) as Ek
          by (apply list_lookup_insert_eq; rewrite (s_three x Hs); lia).
        pose proof (Forall_lookup_1 _ _ _ _ He' Ek). done.
      - rewrite Hr. destruct (decide (j = k)) as [->|Hjk]; [lia|].
        rewrite list_lookup_insert_ne in Hj by done. pose proof (Forall_lookup_1 _ _ _ _ He Hj). done. }
    cbn [curr_index x1]. rewrite Ec, (proj2 (Z.eqb_neq _ _)), (proj2 (Z.eqb_neq _ _)), (proj2 (Z.ltb_lt _ _)) by lia.
    cbn [negb andb when]. unfold mbind at 1, M_bind at 1.
    assert (deques x1 !! i = Some []) as Ei1 by (cbn; by rewrite list_lookup_insert_ne by lia).
    by rewrite (bind_Ret _ _ _ _ _ (deque_at_spec x1 i _ Ei1)).
  - cbn [run_op]. unfold cancelCurrent. rewrite bind_assoc. erewrite bind_Ret by done.
    rewrite Ec, (proj2 (Z.eqb_neq _ _)) by lia. rewrite bind_assoc.
    by rewrite (bind_Ret _ _ _ _ _ (deque_at_spec x i _ Ei)).
Qed.

(** The calls that end with [schedule]. *)
Definition keeps_running (x : X) (o : xop) : Prop :=
  match o with
  | XAppend _ _ | XSchedule | XCancelCurrent => True
  | XCancel id => holds x id
  | XCancelAll => False
  end.

Lemma run_op_spec fuel o x : consistent x \/ stale x -> admissible x o -> ~ (stale x /\ harmful x o) ->
  (3 * length (items x) + 8 < fuel)%nat ->
  exists x', run_op fuel o x = Ret ((), x') /\ (consistent x' \/ stale x') /\
    (keeps_running x o -> settled x' \/ all_empty x').
Proof.
  intros Hx Ha Hh Hf. pose proof (proj1 (consistent_sched x Hx)) as Hs. destruct o as [a prio| |id| |]; cbn [run_op].
  - destruct (append_spec fuel a prio x Hx Ha) as (v & x' & E & Hx' & Hr); [|done|].
    { intros Hst. apply Z.nlt_ge. intros Hlt. by apply Hh. }
    exists x'. split; [by rewrite (bind_Ret _ _ _ _ _ E)|]. by split.
  - destruct Hx as [Hx|Hst]; [|by destruct Hh].
    destruct (cancelCurrent_spec fuel x Hx Hf) as (v & x' & E & Hx' & Hr).
    exists x'. split; [by rewrite (bind_Ret _ _ _ _ _ E)|]. by split.
  - destruct (xcancel_spec fuel id x Hx Ha Hf) as (v & x' & E & Hx' & Hr).
    exists x'. split; [by rewrite (bind_Ret _ _ _ _ _ E)|done].
  - destruct (cancelAll_spec x Hs) as (x' & E & Hm). exists x'. split; [done|]. split; [|by intros []].
    by eapply moves_on_keeps.
  - destruct (schedule_then fuel x) as (x' & E & Hx'); [by apply consistent_sched|by apply fuel_enough|].
    exists x'. split; [done|]. destruct Hx' as [? ?]. by split.
Qed.

Lemma xstep_keeps x x' : xstep x x' -> consistent x \/ stale x -> consistent x' \/ stale x'.
Proof.
  intros Hst Hx. destruct Hst as [x x' fuel o Ha Hf E|x x' Hm]; [|by eapply moves_on_keeps].
  assert (~ (stale x /\ harmful x o)) as Hh.
  { intros [H1 H2]. rewrite (stale_stuck fuel x o H1 Ha H2) in E by lia. discriminate E. }
  destruct (run_op_spec fuel o x Hx Ha Hh Hf) as (x1 & E1 & H1 & _). congruence.
Qed.

Lemma new_consistent s : valid s -> consistent (new_executor s).
Proof. intros Hv. split; [constructor; try done; constructor|]. left. split; [repeat constructor|done]. Qed.
End Correct.

Arguments consistent {S OPS} valid root x.
Arguments stale {S} valid root x.
Arguments xstep {S OPS} valid root x x'.
Arguments admissible {S OPS} root x o.

(** C18: The executor runs one action at a time, by priority.  For any actions that
    keep the interface, any sequence of calls that returned and any moves of the
    actions: at most one action is running, the front of the highest deque that
    is not empty, and that deque is the current one.  Every further call returns
    but in one situation, where it takes the front of an empty deque: the last
    action was cancelled, so that all deques are empty and one of them is still
    the current one ([stale]), and the call is [cancelCurrent] or an [append] of
    a higher priority ([harmful]).  After an [append], a [cancelCurrent], the
    [cancel] of an action that is there and the end of an action, the front of
    the highest deque is running, if there is any action at all; [cancelAll]
    only stops the fronts. *)
Theorem executor_runs_by_priority {S} {OPS : ActionOps S} valid root {LAWS : ActionLaws S valid root} s x :
  valid s -> rtc (xstep valid root) (new_executor s) x ->
  (forall it, it ∈ items x -> running x (x_action it) ->
     exists q, index (deques x) (curr_index x) = Some (it :: q) /\ curr_index x = ready_from 0 (deques x)) /\
  (forall fuel o, admissible root x o -> (3 * length (items x) + 8 < fuel)%nat ->
     (stale valid root x /\ harmful x o -> run_op fuel o x = Stuck) /\
     (~ (stale valid root x /\ harmful x o) ->
      exists x', run_op fuel o x = Ret ((), x') /\ (keeps_running x o -> settled x' \/ all_empty x'))).
Proof.
  intros Hv Hr.
  assert (consistent valid root x \/ stale valid root x) as Hx.
  { assert (consistent valid root (new_executor s) \/ stale valid root (new_executor s)) as H0 by (left; by apply new_consistent).
    induction Hr as [|x y z Hst _ IH]; [done|]. apply IH. by eapply xstep_keeps. }
  split.
  - intros it Hit Hrun. destruct Hx as [[Hs [[He Ec]|(i & it' & q & Ec & Er & E & Ho)]]|(Hs & He & _)].
    + rewrite empty_items in Hit by done. set_solver.
    + exists q. rewrite Ec, Er, index_nat, E. split; [|done]. f_equal. f_equal.
      eapply same_action; [exact Hs|eapply (items_in valid root); [exact E|left]|exact Hit|]. specialize (Ho it Hit Hrun). congruence.
    + rewrite empty_items in Hit by done. set_solver.
  - intros fuel o Ha Hf. split.
    + intros [Hst Hh]. apply (stale_stuck valid root); [done..|lia].
    + intros Hh. destruct (run_op_spec valid root fuel o x Hx Ha Hh Hf) as (x' & E & _ & H). by exists x'.
Qed.

(** The forgotten index.  When the only action of the executor is cancelled by
    its number while it is the current one, the call succeeds and the executor is
    empty, but the number of the deque is kept.  Then [cancelCurrent], [current]
    and the [append] of an action of a higher priority take the front of that
    empty deque, which is undefined. *)
Theorem cancel_leaves_stale_index {S} {OPS : ActionOps S} valid root {LAWS : ActionLaws S valid root} fuel x it :
  consistent valid root x -> items x = [it] -> 0 < x_id it -> (0 < fuel)%nat ->
  exists x', xcancel fuel (x_id it) x = Ret (true, x') /\ all_empty x' /\ curr_index x' = curr_index x /\
    current x' = Stuck /\
    forall o, admissible root x' o -> harmful x' o -> run_op fuel o x' = Stuck.
Proof.
  intros [Hs Hc] Hi Hid Hf. destruct Hc as [[He _]|(i & it' & q & Ec & Er & E & Ho)].
  { rewrite empty_items in Hi by done. discriminate Hi. }
  assert (exists l1 l2, deques x = l1 ++ [it] :: l2 /\ length l1 = i /\ Forall (eq []) l1 /\ Forall (eq []) l2 /\ it' = it /\ q = [])
    as (l1 & l2 & Ed & Hl & H1 & H2 & -> & ->).
  { destruct (ready_cases 0 (deques x)) as [[Er' _]|(k & itk & qk & Er' & Ek & Hb)]; [lia..|].
    assert (k = i) as -> by lia. exists (take i (deques x)), (drop (Datatypes.S i) (deques x)).
    pose proof (take_drop_middle _ _ _ E) as Es.
    assert (Forall (eq []) (take i (deques x))) as Ht.
    { apply Forall_lookup. intros j y Hy. apply lookup_take_Some in Hy as [Hy Hj]. rewrite Hb in Hy by done. congruence. }
    unfold items in Hi. rewrite <- Es, concat_app in Hi.
    assert (forall l, Forall (eq []) l -> concat l = @nil xitem) as Hcn.
    { induction 1 as [|y l <- _ IH]; [done|exact IH]. }
    rewrite (Hcn _ Ht) in Hi. cbn in Hi. injection Hi as -> Hq. apply app_eq_nil in Hq as [-> Hq].
    rewrite Es. split; [done|]. split; [apply length_take_le; apply lookup_lt_Some in E; lia|]. split; [done|].
    split; [|done]. clear - Hq. induction (drop (Datatypes.S i) (deques x)) as [|y l IH]; constructor; cbn in Hq;
      apply app_eq_nil in Hq as [? ?]; [done|by apply IH]. }
  assert (forall k, find_out (x_id it) k (l1 ++ [it] :: l2) = Some ((k + length l1)%nat, it, [])) as Efind.
  { clear - H1. induction H1 as [|y l <- _ IH]; intros k; cbn.
    - rewrite Z.eqb_refl. by rewrite Nat.add_0_r.
    - rewrite IH. f_equal. f_equal. f_equal. lia. }
  destruct (removed valid root x i it [] [] Hs E) as (s' & Edel & H). cbn [app] in H.
  assert (forall c l, all_empty (mkExecutor (<[i := []]> (deques x)) c (curr_index x) l s')) as Hemp.
  { intros c l. unfold all_empty. cbn. rewrite Ed, <- Hl, insert_app_r_alt, Nat.sub_diag by lia. cbn.
    apply Forall_app. split; [done|]. by constructor. }
  set (x' := mkExecutor (<[i := []]> (deques x)) (id_counter x) (curr_index x) (notices x ++ [NAllFinished]) s').
  assert (stale valid root x') as Hst.
  { split; [apply H|]. split; [apply Hemp|]. exists i. split; [|done].
    apply lookup_lt_Some in E. by rewrite <- (s_three _ _ x Hs). }
  exists x'. split; [|split; [apply Hst|split; [done|split]]].
  - unfold xcancel. rewrite (proj2 (Z.leb_gt _ _)) by lia. erewrite bind_Ret by done.
    rewrite Ed, Efind, Hl. cbn [Nat.add]. unfold lift at 1. erewrite bind_Ret by (by rewrite Edel).
    unfold set_deque, modify. erewrite bind_Ret by done. destruct fuel as [|f]; [lia|].
    cbn [schedule]. rewrite bind_assoc. erewrite bind_Ret by done. cbn [deques].
    pose proof (empty_ready x' (Hemp (id_counter x) (notices x ++ [NAllFinished]))) as Erx. cbn [deques x'] in Erx.
    rewrite Erx. done.
  - destruct Hst as (Hs' & He & _). unfold current. erewrite bind_Ret by done.
    cbn [curr_index x']. rewrite Ec, (proj2 (Z.eqb_neq _ _)) by lia.
    assert (deques x' !! i = Some []) as Ei by (cbn; apply list_lookup_insert_eq; by eapply lookup_lt_Some).
    by rewrite (bind_Ret _ _ _ _ _ (deque_at_spec x' i _ Ei)).
  - intros o Ha Hh. eapply stale_stuck; [exact Hst|done|done|done].
Qed.

(** ** Actions implement the interface *)

Section Implementation.
Context (func : nat -> list nat -> bool * option reason) (fuel : nat).
Context (D : gset nat) (par : nat -> option nat) (rk : nat -> nat) (cls : nat -> class).
Context (HF : forall x, x ∈ D -> (rk x < fuel)%nat).

(** Of [delete], the cancelled callbacks; the memory stays. *)
#[export] Instance action_ops : ActionOps world := {
  ao_state a w := a_state <$> acts w !! a;
  ao_start := start func fuel;
  ao_pause := pause fuel;
  ao_resume := resume fuel;
  ao_stop := stop fuel;
  ao_delete := cancelDispatchedCallback
}.

Notation wf := (wf D par rk cls).
Notation kid_ok := (kid_ok D par rk).

Definition is_root (a : nat) : Prop := a ∈ D /\ par a = None.

Lemma wp_and {A} (m : M world A) w (Q Q' : A -> world -> Prop) : wp m w Q -> wp m w Q' -> wp m w (fun a w' => Q a w' /\ Q' a w').
Proof. unfold wp. by destruct (m w) as [[]| |]. Qed.

(** The state of [p] satisfies [P]. *)
Definition at_state (p : nat) (P : astate -> Prop) (w : world) : Prop :=
  exists a, acts w !! p = Some a /\ P (a_state a).

Lemma moves_intro {A} a (m : M world A) P w : is_root a -> wf w -> good D par rk cls a m ->
  wp m w (fun v w' => at_state a (P v) w') -> moves wf is_root a m P w.
Proof.
  intros [Ha Hp] Hw Hg Hm. pose proof (wp_and _ _ _ _ (Hg w Hw) Hm) as H. unfold wp in H.
  destruct (m w) as [[v w']| |] eqn:E; [|done..]. destruct H as ([Hw' Hl] & x & Ex & Hx).
  exists v, w'. split; [done|]. split; [done|]. split; [exists (a_state x); cbn; by rewrite Ex|].
  intros b [Hb Hpb] Hne. cbn. rewrite Hl; [done|]. intros [->|[? _]]; done.
Qed.

Lemma wf_at w p : wf w -> p ∈ D -> exists a, acts w !! p = Some a /\ action_ok D par rk cls p a.
Proof. intros [[H _] _] Hp. by apply H. Qed.

(** The test of the state at the end of [start], [pause] and [resume]. *)
Lemma wp_test p st b st' (k : astate -> M world ()) (v : bool) (P : astate -> Prop) w a :
  acts w !! p = Some a -> k st = (upd p (timer_on b);; upd p (set_state st')) -> (forall y, y = st \/ y <> st /\ k y = mret ()) ->
  (a_state a <> st -> P (a_state a)) -> P st' ->
  wp (s ← act p; k (a_state s);; mret v) w (fun r w' => at_state p (fun y => r = v /\ P y) w').
Proof.
  intros Ea K1 K2 H1 H2. apply wp_bind. eapply wp_act; [done|].
  destruct (K2 (a_state a)) as [Est|[Hne Ek]].
  - rewrite Est, K1. apply wp_bind, wp_bind. eapply wp_upd; [done|]. intros w1 E1 _ _ _.
    eapply wp_upd; [done|]. intros w2 E2 _ _ _. apply wp_ret. by eexists.
  - rewrite Ek. apply wp_bind, wp_ret, wp_ret. exists a. auto.
Qed.

(** What happens below [p] leaves it alone. *)
Lemma each_leaves p f l w : p ∈ D -> wf w -> Forall (kid_ok p) l -> (forall c, kid_ok p c -> good D par rk cls c (f c)) ->
  wp (each f l) w (fun _ w' => wf w' /\ acts w' !! p = acts w !! p).
Proof.
  intros Hp Hw Hl Hf. revert w Hw. induction Hl as [|c l Hc Hl IH]; intros w Hw; [by apply wp_ret|].
  cbn [each]. apply wp_bind. eapply wp_mono; [by apply Hf|]. intros [] w1 [H1 L1].
  eapply wp_mono; [by apply IH|]. intros [] w2 [H2 E2]. split; [done|]. rewrite E2. apply L1.
  destruct Hc as (_ & _ & Hr). intros [->|[_ Hr']]; lia.
Qed.

Lemma kid_leaves {A} p c (m : M world A) w : wf w -> kid_ok p c -> good D par rk cls c m ->
  wp m w (fun _ w' => wf w' /\ acts w' !! p = acts w !! p).
Proof.
  intros Hw (_ & _ & Hr) Hm. eapply wp_mono; [by apply Hm|]. intros u w1 [H1 L1]. split; [done|]. apply L1.
  intros [->|[_ Hr']]; lia.
Qed.

Lemma rk_S p : p ∈ D -> exists f, fuel = S f /\ (rk p <= f)%nat.
Proof. intros Hp. pose proof (HF p Hp). exists (fuel - 1)%nat. lia. Qed.

Lemma start_moves w p : is_root p -> wf w -> a_state <$> acts w !! p = Some kIdle ->
  moves wf is_root p (start func fuel p) (fun v st => v = true /\ st <> kIdle) w.
Proof.
  intros Hr Hw Est. pose proof Hr as [Hp _]. apply moves_intro; [done..|by apply good_start, HF|].
  destruct (rk_S p Hp) as (f & Ef & Hf). rewrite Ef. cbn [start].
  destruct (wf_at w p Hw Hp) as (a & Ea & Ha). rewrite Ea in Est. injection Est as Est.
  apply wp_bind. eapply wp_act; [done|]. rewrite Est. apply wp_bind.
  eapply wp_mono; [eapply (good_onStart D par rk cls func (start func f) f p Hp Hf); [|exact Hw]|].
  { intros c (Hc & _ & Hlt). apply good_start; [done|lia]. }
  intros [] w1 [H1 _]. destruct (wf_at w1 p H1 Hp) as (a1 & E1 & _).
  eapply (wp_test p kIdle true kRunning
    (fun st => match st with kIdle => upd p (timer_on true);; upd p (set_state kRunning) | _ => mret () end) true
    (fun y => y <> kIdle)); [exact E1|done| |done|done].
  intros []; [by left|by right..].
Qed.

Lemma pause_moves w p : is_root p -> wf w -> moves wf is_root p (pause fuel p) (fun _ st => st <> kRunning) w.
Proof.
  intros Hr Hw. pose proof Hr as [Hp _]. apply moves_intro; [done..|by apply good_pause, HF|].
  destruct (rk_S p Hp) as (f & Ef & Hf). rewrite Ef. cbn [pause].
  destruct (wf_at w p Hw Hp) as (a & Ea & [HK HC _ _ _]).
  apply wp_bind. eapply wp_act; [done|]. destruct (a_state a) eqn:Est; try (apply wp_ret; exists a; rewrite Est; done).
  assert (forall c, kid_ok p c -> good D par rk cls c (pause f c)) as Hk.
  { intros c (Hc & _ & Hlt). apply good_pause; [done|lia]. }
  apply wp_bind, (wp_mono _ _ (fun _ w' => wf w')).
  { assert (good D par rk cls p (match a_kind a with
        | Parallel _ children _ => each (fun c => pause f c;; mret ()) children
        | k => when (is_serial k) (match a_curr a with Some c => pause f c;; mret () | None => mret () end) end)) as Hg.
    { destruct (a_kind a) eqn:Ek;
        try (apply good_when; destruct (a_curr a) as [c|]; [|apply good_ret]; by eapply good_ignore; [exact HC|apply Hk]).
      apply good_each; [by apply kids_parallel in HK|]. intros c Hc. apply good_bind; [by apply Hk|intros _; apply good_ret]. }
    eapply wp_mono; [by apply Hg|]. by intros u w1 [H1 _]. }
  intros [] w1 H1. destruct (wf_at w1 p H1 Hp) as (a1 & E1 & _).
  eapply wp_mono; [eapply (wp_test p kRunning false kPause
    (fun st => match st with kRunning => upd p (timer_on false);; upd p (set_state kPause) | _ => mret () end) true
    (fun y => y <> kRunning)); [exact E1|done| |done|done]|].
  { intros []; [by right|by left|by right..]. }
  intros v w2 (b & Eb & _ & Hb). by exists b.
Qed.

Lemma resume_moves w p : is_root p -> wf w -> a_state <$> acts w !! p = Some kPause ->
  moves wf is_root p (resume fuel p) (fun _ st => st = kRunning) w.
Proof.
  intros Hr Hw Est. pose proof Hr as [Hp _]. apply moves_intro; [done..|by apply good_resume, HF|].
  destruct (rk_S p Hp) as (f & Ef & Hf). rewrite Ef. cbn [resume].
  destruct (wf_at w p Hw Hp) as (a & Ea & [HK HC _ _ HP]). rewrite Ea in Est. injection Est as Est.
  apply wp_bind. eapply wp_act; [done|]. rewrite Est.
  assert (forall c, kid_ok p c -> good D par rk cls c (resume f c)) as Hk.
  { intros c (Hc & _ & Hlt). apply good_resume; [done|lia]. }
  apply wp_bind, (wp_mono _ _ (fun _ w' => at_state p (eq kPause) w')).
  { assert (forall w', acts w' !! p = acts w !! p -> at_state p (eq kPause) w') as Hat.
    { intros w' E. exists a. rewrite E. by split. }
    destruct (a_kind a) eqn:Ek;
      try (unfold when; cbn [is_serial is_assemble]; first [by apply wp_ret, Hat |
        destruct (a_curr a) as [c|];
          [apply wp_bind; eapply wp_mono; [eapply kid_leaves; [exact Hw|exact HC|by apply Hk]|];
             intros v w1 [_ E1]; by apply wp_ret, Hat
          |destruct (a_pending a) as [d|]; [|by apply wp_ret, Hat];
             apply wp_bind, wp_runNext; intros w1 id E1 _ _; eapply wp_upd; [by rewrite E1|];
             intros w2 E2 _ _ _; by exists (set_pending None a)]]).
    eapply wp_mono; [eapply each_leaves; [exact Hp|exact Hw|by apply kids_parallel in HK|]|].
    - intros c Hc. apply good_act; [apply Hc|]. intros sc _. destruct (a_state sc); try apply good_ret.
      apply good_bind; [by apply Hk|intros _; apply good_ret].
    - intros u w1 [_ E1]. by apply Hat. }
  intros [] w1 (a1 & E1 & S1).
  eapply wp_mono; [eapply (wp_test p kPause true kRunning
    (fun st => match st with kPause => upd p (timer_on true);; upd p (set_state kRunning) | _ => mret () end) true
    (fun y => y = kRunning)); [exact E1|done| |done|done]|].
  { intros []; [by right|by right|by left|by right..]. }
  intros v w2 (b & Eb & _ & Hb). by exists b.
Qed.

Lemma stop_moves w p : is_root p -> wf w -> moves wf is_root p (stop fuel p) (fun _ st => is_underway st = false) w.
Proof.
  intros Hr Hw. pose proof Hr as [Hp _]. apply moves_intro; [done..|by apply good_stop, HF|].
  destruct (rk_S p Hp) as (f & Ef & Hf). rewrite Ef. cbn [stop].
  destruct (wf_at w p Hw Hp) as (a & Ea & Ha). pose proof Ha as [HK HC _ _ _].
  apply wp_bind. eapply wp_act; [done|]. destruct (is_underway (a_state a)) eqn:Eu; cbn [negb].
  2: { apply wp_ret. by exists a. }
  pose proof Hw as [Hst Hix].
  apply wp_bind. eapply wp_upd; [done|]. intros w1 E1 F1 T1 G1.
  apply wp_bind. eapply wp_upd; [done|]. intros w2 E2 F2 T2 G2.
  assert (wf w2) as Hw2.
  { split; [eapply (store_upd D par rk cls p a); [exact Hst|exact Ea| |exact E2| |congruence]|].
    - by apply ok_timer_on, ok_state.
    - intros i Hi. by rewrite F2, F1.
    - eapply (indices_upd D par rk cls p _ w w2); [exact Hix| |exact E2| |done].
      + rewrite timer_on_state. by apply index_over.
      + intros i Hi. by rewrite F2, F1. }
  set (a2 := timer_on false (set_state kStoped a)) in *.
  assert (a_state a2 = kStoped) as S2 by (unfold a2; by rewrite timer_on_state).
  assert (forall c, kid_ok p c -> good D par rk cls c (stop f c)) as Hk.
  { intros c (Hc & _ & Hlt). apply good_stop; [done|lia]. }
  apply wp_bind, (wp_mono _ _ (fun _ w' => at_state p (eq kStoped) w')).
  { assert (forall w', acts w' !! p = acts w2 !! p -> at_state p (eq kStoped) w') as Hat.
    { intros w' E. exists a2. rewrite E. by split. }
    assert (forall w' b, acts w' !! p = Some b -> a_state b = kStoped ->
      wp (upd p (set_pending None)) w' (fun _ w'' => at_state p (eq kStoped) w'')) as Hpend.
    { intros w' b Eb Sb. eapply wp_upd; [done|]. intros w'' E'' _ _ _. exists (set_pending None b). by split. }
    destruct (a_kind a) eqn:Ek;
      try (unfold when; cbn [is_serial is_assemble]; first [by apply wp_ret, Hat |
        apply wp_bind; destruct (a_curr a) as [c|];
          [apply wp_bind; eapply wp_mono; [eapply kid_leaves; [exact Hw2|exact HC|by apply Hk]|];
             intros v w3 [_ E3]; eapply wp_upd; [by rewrite E3|]; intros w4 E4 _ _ _; by eapply Hpend
          |apply wp_ret; by eapply Hpend]]).
    eapply wp_mono; [eapply each_leaves; [exact Hp|exact Hw2|by apply kids_parallel in HK|done]|].
    intros u w3 [_ E3]. by apply Hat. }
  intros [] w3 (a3 & E3 & S3). eapply wp_onFinal; [done|]. intros w4 E4 _ _. exists a3. rewrite E4.
  split; [done|]. by rewrite <- S3.
Qed.

#[export] Instance action_laws : ActionLaws world wf is_root.
Proof.
  split.
  - intros w p Hw [Hp _]. destruct (wf_at w p Hw Hp) as (a & Ea & _). cbn. rewrite Ea. by eexists.
  - intros w p Hw Hr Hs. by apply start_moves.
  - intros w p Hw Hr. by apply pause_moves.
  - intros w p Hw Hr Hs. by apply resume_moves.
  - intros w p Hw Hr. by apply stop_moves.
  - intros w p Hw [Hp Hpp]. pose proof (good_cancelDispatched D par rk cls p Hp w Hw) as H. unfold wp in H. cbn [ao_delete action_ops].
    destruct (cancelDispatchedCallback p w) as [[[] w']| |]; [|done..]. destruct H as [H1 H2].
    exists w'. split; [done|]. split; [done|]. intros b [Hb Hbp] Hne. cbn. rewrite H2; [done|].
    intros [->|[? _]]; done.
Qed.
End Implementation.

(** *** Witnesses *)

Lemma sample_fuel x : x ∈ sample_set -> (sample_rk x < 5)%nat.
Proof. intros _. destruct x as [|[|[|x]]]; cbn; lia. Qed.

Notation sample_ops := (action_ops fn_table 5).
Notation sample_valid := (wf sample_set sample_par sample_rk sample_cls).
Notation sample_root := (is_root sample_set sample_par).

Definition sample_laws : @ActionLaws world sample_ops sample_valid sample_root :=
  action_laws fn_table 5 sample_set sample_par sample_rk sample_cls sample_fuel.

(** One action, with the normal priority. *)
Definition sample_executor : executor world :=
  match run_op (OPS := sample_ops) 20 (XAppend 0 1) (new_executor sample_world) with
  | Ret (_, x) => x
  | _ => new_executor sample_world
  end.

Lemma sample_admissible : admissible (OPS := sample_ops) sample_root (new_executor sample_world) (XAppend 0 1).
Proof.
  split; [done|]. split; [split; [apply (bool_decide_unpack _); reflexivity|done]|]. split; [set_solver|].
  unfold running. vm_compute. discriminate.
Qed.

Lemma sample_step : xstep (OPS := sample_ops) sample_valid sample_root (new_executor sample_world) sample_executor.
Proof. apply (xs_call sample_valid sample_root _ _ 20 (XAppend 0 1)); [apply sample_admissible|cbn; lia|vm_compute; reflexivity]. Qed.

Lemma executor_runs_by_priority_witness :
  rtc (xstep (OPS := sample_ops) sample_valid sample_root) (new_executor sample_world) sample_executor /\
  exists q, index (deques sample_executor) (curr_index sample_executor) = Some (mkXItem 1 0 :: q) /\
    curr_index sample_executor = ready_from 0 (deques sample_executor).
Proof.
  split; [apply rtc_once, sample_step|].
  apply (executor_runs_by_priority (LAWS := sample_laws) sample_valid sample_root sample_world sample_executor).
  - apply sample_wf.
  - apply rtc_once, sample_step.
  - vm_compute. left.
  - vm_compute. reflexivity.
Defined.

Lemma sample_consistent : consistent (OPS := sample_ops) sample_valid sample_root sample_executor.
Proof.
  pose proof sample_laws as LAWS.
  destruct (xstep_keeps (LAWS := LAWS) sample_valid sample_root _ _ sample_step) as [H|(_ & H & _)]; [|done|].
  - left. apply new_consistent, sample_wf.
  - unfold all_empty in H. exfalso. assert (deques sample_executor !! 1%nat = Some [mkXItem 1 0]) as E by (vm_compute; reflexivity).
    pose proof (Forall_lookup_1 _ _ _ _ H E) as Hc. discriminate Hc.
Qed.

Lemma cancel_leaves_stale_index_witness :
  exists x', xcancel (OPS := sample_ops) 20 1 sample_executor = Ret (true, x') /\ all_empty x' /\
    curr_index x' = curr_index sample_executor /\ current x' = Stuck /\
    forall o, admissible (OPS := sample_ops) sample_root x' o -> harmful x' o -> run_op (OPS := sample_ops) 20 o x' = Stuck.
Proof.
  apply (cancel_leaves_stale_index (LAWS := sample_laws) sample_valid sample_root 20 sample_executor (mkXItem 1 0)).
  - apply sample_consistent.
  - vm_compute. reflexivity.
  - reflexivity.
  - lia.
Defined.
