(* ===== verification/Keys.v ===== *)
(** * The key scanner of the terminal

    Models [modules/terminal/impl/key_event_scanner.cpp], a state machine that
    finds the keys of a user in the bytes that a terminal sends for them. *)
From S2P Require Import Prelude.

Inductive Status := kUnsure | kEnsure | kFail.

Inductive Result :=
  | kNone
  | kPrintable
  | kTab | kBackspace | kESC | kEnter
  | kAltPlus | kCtrlAltPlus
  | kMoveUp | kMoveDown | kMoveLeft | kMoveRight
  | kHome | kInsert | kDelete | kEnd | kPageUp | kPageDown
  | kF1 | kF2 | kF3 | kF4 | kF5 | kF6 | kF7 | kF8 | kF9 | kF10 | kF11 | kF12.

#[export] Instance Result_eq_dec : EqDecision Result.
Proof. solve_decision. Defined.

(** [KeyEventScanner::Step]; [s_none] is [kNone]. *)
Inductive Step :=
  | s_none
  | k0d | kc2
  | k1b | k1b5b
  | k1b5b31 | k1b5b3135 | k1b5b3137 | k1b5b3138 | k1b5b3139
  | k1b5b32 | k1b5b3230 | k1b5b3231 | k1b5b3233 | k1b5b3234
  | k1b5b33
  | k1b5b34
  | k1b5b35
  | k1b5b36
  | k1b4f.

Record KeyEventScanner := mkScanner {
  result_ : Result;
  extra_ : Z;
  step_ : Step }.

Definition new_scanner : KeyEventScanner := mkScanner kNone 0 s_none.

Definition start (s : KeyEventScanner) : KeyEventScanner := mkScanner kNone 0 s_none.

(** [isprint] and [islower] of the C locale, on what they are defined for: [EOF] and
    the values of an [unsigned char]. *)
Definition isprint (c : Z) : bool := (0x20 <=? c) && (c <=? 0x7e).
Definition islower (c : Z) : option bool :=
  if (-1 <=? c) && (c <? 256) then Some ((0x61 <=? c) && (c <=? 0x7a)) else None.

(** The three ways in which [next] ends. *)
Definition ensure (r : Result) (s : KeyEventScanner) : option (Status * KeyEventScanner) :=
  Some (kEnsure, mkScanner r (extra_ s) (step_ s)).
Definition ensure_plus (r : Result) (extra : Z) (s : KeyEventScanner) : option (Status * KeyEventScanner) :=
  Some (kEnsure, mkScanner r extra (step_ s)).
Definition unsure (step : Step) (s : KeyEventScanner) : option (Status * KeyEventScanner) :=
  Some (kUnsure, mkScanner (result_ s) (extra_ s) step).
Definition fail (s : KeyEventScanner) : option (Status * KeyEventScanner) :=
  Some (kFail, mkScanner (result_ s) (extra_ s) s_none).

(** [if (byte == 0x7e)] at the end of a sequence. *)
Definition tilde (byte : Z) (r : Result) (s : KeyEventScanner) : option (Status * KeyEventScanner) :=
  if byte =? 0x7e then ensure r s else fail s.

Definition next (byte : Z) (s : KeyEventScanner) : option (Status * KeyEventScanner) :=
  match step_ s with
  | s_none =>
      if byte =? 0x09 then ensure kTab s
      else if (byte =? 0x7f) || (byte =? 0x08) then ensure kBackspace s
      else if byte =? 0x0d then unsure k0d s
      else if byte =? 0x0a then ensure kEnter s
      else if byte =? 0x1b then unsure k1b s
      else if byte =? 0xc2 then unsure kc2 s
      else if isprint byte then ensure_plus kPrintable byte s
      else fail s
  | k0d => if (byte =? 0x00) || (byte =? 0x0a) then ensure kEnter s else fail s
  | kc2 =>
      lower ← islower (byte - 0x20);
      if (lower : bool) then ensure_plus kCtrlAltPlus (u8 (byte - 0x20)) s else fail s
  | k1b =>
      if byte =? 0x5b then unsure k1b5b s
      else if byte =? 0x4f then unsure k1b4f s
      else if isprint byte then ensure_plus kAltPlus byte s
      else fail s
  | k1b5b =>
      if byte =? 0x41 then ensure kMoveUp s
      else if byte =? 0x42 then ensure kMoveDown s
      else if byte =? 0x43 then ensure kMoveRight s
      else if byte =? 0x44 then ensure kMoveLeft s
      else if byte =? 0x31 then unsure k1b5b31 s
      else if byte =? 0x32 then unsure k1b5b32 s
      else if byte =? 0x33 then unsure k1b5b33 s
      else if byte =? 0x34 then unsure k1b5b34 s
      else if byte =? 0x35 then unsure k1b5b35 s
      else if byte =? 0x36 then unsure k1b5b36 s
      else fail s
  | k1b4f =>
      if byte =? 0x50 then ensure kF1 s
      else if byte =? 0x51 then ensure kF2 s
      else if byte =? 0x52 then ensure kF3 s
      else if byte =? 0x53 then ensure kF4 s
      else fail s
  | k1b5b31 =>
      if byte =? 0x7e then ensure kHome s
      else if byte =? 0x35 then unsure k1b5b3135 s
      else if byte =? 0x37 then unsure k1b5b3137 s
      else if byte =? 0x38 then unsure k1b5b3138 s
      else if byte =? 0x39 then unsure k1b5b3139 s
      else fail s
  | k1b5b32 =>
      if byte =? 0x7e then ensure kInsert s
      else if byte =? 0x30 then unsure k1b5b3230 s
      else if byte =? 0x31 then unsure k1b5b3231 s
      else if byte =? 0x33 then unsure k1b5b3233 s
      else if byte =? 0x34 then unsure k1b5b3234 s
      else fail s
  | k1b5b33 => tilde byte kDelete s
  | k1b5b34 => tilde byte kEnd s
  | k1b5b35 => tilde byte kPageUp s
  | k1b5b36 => tilde byte kPageDown s
  | k1b5b3135 => tilde byte kF5 s
  | k1b5b3137 => tilde byte kF6 s
  | k1b5b3138 => tilde byte kF7 s
  | k1b5b3139 => tilde byte kF8 s
  | k1b5b3230 => tilde byte kF9 s
  | k1b5b3231 => tilde byte kF10 s
  | k1b5b3233 => tilde byte kF11 s
  | k1b5b3234 => tilde byte kF12 s
  end.

Definition stop (s : KeyEventScanner) : Status * KeyEventScanner :=
  match step_ s with
  | k1b => (kEnsure, mkScanner kESC (extra_ s) (step_ s))
  | k0d => (kEnsure, mkScanner kEnter (extra_ s) (step_ s))
  | _ => (kFail, mkScanner (result_ s) (extra_ s) s_none)
  end.

(** ** Scanning a text

    The user of the scanner is [Terminal::Impl::onRecvString]; [scan_keys] is its
    loop, with the keys collected that it handles. *)
Fixpoint scan_keys (str : list Z) (status : Status) (s : KeyEventScanner)
  : option (list (Result * Z) * Status * KeyEventScanner) :=
  match str with
  | [] => Some ([], status, s)
  | c :: str' =>
      '(status, s) ← next c s;
      match status with
      | kEnsure =>
          '(keys, status, s') ← scan_keys str' status (start s);
          Some ((result_ s, extra_ s) :: keys, status, s')
      | _ => scan_keys str' status s
      end
  end.

Definition scan_string (str : list Z) : option (list (Result * Z)) :=
  '(keys, status, s) ← scan_keys str kUnsure (start new_scanner);
  match status with
  | kUnsure =>
      let '(status, s) := stop s in
      Some (keys ++ match status with kEnsure => [(result_ s, extra_ s)] | _ => [] end)
  | _ => Some keys
  end.

(** ** The keys and their sequences

    The table of the header file, where the sequences of F10, F11 and F12 are those
    of the code. *)
Inductive sends : Result * Z -> list Z -> Prop :=
  | sends_printable c : isprint c = true -> sends (kPrintable, c) [c]
  | sends_tab : sends (kTab, 0) [0x09]
  | sends_backspace b : b = 0x7f \/ b = 0x08 -> sends (kBackspace, 0) [b]
  | sends_enter bs : bs = [0x0d; 0x00] \/ bs = [0x0d; 0x0a] \/ bs = [0x0a] -> sends (kEnter, 0) bs
  | sends_alt c : isprint c = true -> c <> 0x5b -> c <> 0x4f -> sends (kAltPlus, c) [0x1b; c]
  | sends_ctrl_alt c : 0x61 <= c <= 0x7a -> sends (kCtrlAltPlus, c) [0xc2; c + 0x20]
  | sends_up : sends (kMoveUp, 0) [0x1b; 0x5b; 0x41]
  | sends_down : sends (kMoveDown, 0) [0x1b; 0x5b; 0x42]
  | sends_right : sends (kMoveRight, 0) [0x1b; 0x5b; 0x43]
  | sends_left : sends (kMoveLeft, 0) [0x1b; 0x5b; 0x44]
  | sends_home : sends (kHome, 0) [0x1b; 0x5b; 0x31; 0x7e]
  | sends_insert : sends (kInsert, 0) [0x1b; 0x5b; 0x32; 0x7e]
  | sends_delete : sends (kDelete, 0) [0x1b; 0x5b; 0x33; 0x7e]
  | sends_end : sends (kEnd, 0) [0x1b; 0x5b; 0x34; 0x7e]
  | sends_page_up : sends (kPageUp, 0) [0x1b; 0x5b; 0x35; 0x7e]
  | sends_page_down : sends (kPageDown, 0) [0x1b; 0x5b; 0x36; 0x7e]
  | sends_f1 : sends (kF1, 0) [0x1b; 0x4f; 0x50]
  | sends_f2 : sends (kF2, 0) [0x1b; 0x4f; 0x51]
  | sends_f3 : sends (kF3, 0) [0x1b; 0x4f; 0x52]
  | sends_f4 : sends (kF4, 0) [0x1b; 0x4f; 0x53]
  | sends_f5 : sends (kF5, 0) [0x1b; 0x5b; 0x31; 0x35; 0x7e]
  | sends_f6 : sends (kF6, 0) [0x1b; 0x5b; 0x31; 0x37; 0x7e]
  | sends_f7 : sends (kF7, 0) [0x1b; 0x5b; 0x31; 0x38; 0x7e]
  | sends_f8 : sends (kF8, 0) [0x1b; 0x5b; 0x31; 0x39; 0x7e]
  | sends_f9 : sends (kF9, 0) [0x1b; 0x5b; 0x32; 0x30; 0x7e]
  | sends_f10 : sends (kF10, 0) [0x1b; 0x5b; 0x32; 0x31; 0x7e]
  | sends_f11 : sends (kF11, 0) [0x1b; 0x5b; 0x32; 0x33; 0x7e]
  | sends_f12 : sends (kF12, 0) [0x1b; 0x5b; 0x32; 0x34; 0x7e].

(** The scanner is unsure until the last byte of [bs], which ensures the key [k]. *)
Fixpoint takes (s : KeyEventScanner) (bs : list Z) (k : Result * Z) : Prop :=
  match bs with
  | [] => False
  | b :: bs' =>
      match next b s with
      | Some (kEnsure, s') => bs' = [] /\ k = (result_ s', extra_ s')
      | Some (kUnsure, s') => takes s' bs' k
      | _ => False
      end
  end.

(** One more byte, and what [next] compares it with. *)
Ltac walk H :=
  cbn -[Z.eqb isprint islower wrap] in H; unfold tilde in H;
  match type of H with
  | False => destruct H
  | takes _ ?bs _ => is_var bs; destruct bs as [|? bs]; walk H
  | context [if (?b =? ?c) || _ then _ else _] => destruct (Z.eqb_spec b c) as [->|?]; walk H
  | context [if ?b =? ?c then _ else _] => destruct (Z.eqb_spec b c) as [->|?]; walk H
  | context [if isprint ?b then _ else _] => destruct (isprint b) eqn:?; walk H
  | _ /\ _ => destruct H as [-> ->]; cbn [result_ extra_]
  | _ => idtac
  end.

Lemma takes_ctrl_alt bs k : takes (mkScanner kNone 0 kc2) bs k -> are_bytes bs -> sends k (0xc2 :: bs).
Proof.
  intros H Hb. destruct bs as [|b bs]; [destruct H|]. cbn -[islower wrap] in H. unfold islower in H.
  apply Forall_cons in Hb as [Hb _]. unfold is_byte in Hb.
  destruct ((-1 <=? b - 32) && (b - 32 <? 256)); [|destruct H]. cbn -[wrap] in H.
  destruct (Z.leb_spec 97 (b - 32)), (Z.leb_spec (b - 32) 122); cbn -[wrap] in H; try destruct H. subst.
  rewrite (wrap_small 8) by (unfold in_range; lia). replace b with (b - 32 + 0x20) at 2 by lia.
  apply sends_ctrl_alt. lia.
Qed.

Lemma takes_sends bs k : takes new_scanner bs k -> are_bytes bs -> sends k bs.
Proof.
  intros H Hb. unfold new_scanner in H. walk H; try (by constructor; auto).
  apply takes_ctrl_alt; [exact H|by apply Forall_cons in Hb as [_ Hb]].
Qed.

Ltac none_of := repeat (rewrite (proj2 (Z.eqb_neq _ _)) by lia; cbn [orb]).

Lemma isprint_range c : isprint c = true -> 0x20 <= c <= 0x7e.
Proof. unfold isprint. rewrite andb_true_iff, !Z.leb_le. done. Qed.

Lemma sends_takes bs k : sends k bs -> takes new_scanner bs k.
Proof.
  intros []; try (by split); cbn -[isprint islower wrap].
  - pose proof (isprint_range c H). none_of. by rewrite H.
  - by destruct H as [-> | ->].
  - by destruct H as [-> |[-> | ->]].
  - pose proof (isprint_range c H). none_of. rewrite H. by split.
  - replace (c + 32 - 32) with c by lia. unfold islower.
    rewrite (proj2 (Z.leb_le (-1) c)), (proj2 (Z.ltb_lt c 256)) by lia.
    cbn -[wrap]. rewrite (proj2 (Z.leb_le 97 c)), (proj2 (Z.leb_le c 122)) by lia. cbn -[wrap].
    rewrite (wrap_small 8) by (unfold in_range; lia). by split.
Qed.

(** The scanner is unsure about every byte of [bs]. *)
Fixpoint waits (s : KeyEventScanner) (bs : list Z) : Prop :=
  match bs with
  | [] => True
  | b :: bs' => match next b s with Some (kUnsure, s') => waits s' bs' | _ => False end
  end.

Lemma takes_waits bs bs' k s : takes s (bs ++ bs') k -> bs' <> [] -> waits s bs.
Proof.
  revert s. induction bs as [|b bs IH]; intros s H Hne; [done|]. cbn in H |- *.
  destruct (next b s) as [[[] s']|]; [by apply IH| |done..]. destruct H as [E _]. by apply app_eq_nil in E as [_ ->].
Qed.

(** How a sequence can go on from each step. *)
Definition completion (st : Step) : list Z * (Result * Z) :=
  match st with
  | s_none => ([0x09], (kTab, 0))
  | k0d => ([0x0a], (kEnter, 0))
  | kc2 => ([0x83], (kCtrlAltPlus, 99))
  | k1b => ([0x5b; 0x41], (kMoveUp, 0))
  | k1b5b => ([0x41], (kMoveUp, 0))
  | k1b4f => ([0x50], (kF1, 0))
  | k1b5b31 => ([0x7e], (kHome, 0))
  | k1b5b32 => ([0x7e], (kInsert, 0))
  | k1b5b33 => ([0x7e], (kDelete, 0))
  | k1b5b34 => ([0x7e], (kEnd, 0))
  | k1b5b35 => ([0x7e], (kPageUp, 0))
  | k1b5b36 => ([0x7e], (kPageDown, 0))
  | k1b5b3135 => ([0x7e], (kF5, 0))
  | k1b5b3137 => ([0x7e], (kF6, 0))
  | k1b5b3138 => ([0x7e], (kF7, 0))
  | k1b5b3139 => ([0x7e], (kF8, 0))
  | k1b5b3230 => ([0x7e], (kF9, 0))
  | k1b5b3231 => ([0x7e], (kF10, 0))
  | k1b5b3233 => ([0x7e], (kF11, 0))
  | k1b5b3234 => ([0x7e], (kF12, 0))
  end.

Lemma completion_takes st : takes (mkScanner kNone 0 st) (completion st).1 (completion st).2.
Proof. by destruct st. Qed.

Lemma next_unsure b s s' : next b s = Some (kUnsure, s') -> s' = mkScanner (result_ s) (extra_ s) (step_ s').
Proof.
  destruct s as [r x st]. unfold next, tilde, ensure, ensure_plus, unsure, fail. cbn [step_ result_ extra_].
  destruct st; repeat (match goal with |- context [if ?c then _ else _] => destruct c end); intros E; try (by inversion E).
  destruct (islower (b - 32)) as [[]|]; by inversion E.
Qed.

Lemma waits_takes bs st : waits (mkScanner kNone 0 st) bs ->
  exists st', forall bs' k, takes (mkScanner kNone 0 st') bs' k -> takes (mkScanner kNone 0 st) (bs ++ bs') k.
Proof.
  revert st. induction bs as [|b bs IH]; intros st H; [by exists st|]. cbn [waits] in H.
  destruct (next b (mkScanner kNone 0 st)) as [[[] s']|] eqn:E; try done. pose proof (next_unsure _ _ _ E) as Es. cbn in Es.
  rewrite Es in H. destruct (IH _ H) as [st' H']. exists st'. intros bs' k Hk. cbn [app takes]. rewrite E, Es. by apply H'.
Qed.


Lemma scan_takes str k bs s status : takes s bs k ->
  scan_keys (bs ++ str) status s =
  match scan_keys str kEnsure new_scanner with
  | Some (keys, status', s') => Some (k :: keys, status', s')
  | None => None
  end.
Proof.
  revert s status. induction bs as [|b bs IH]; intros s status H; [done|]. cbn in H |- *.
  destruct (next b s) as [[st s']|]; [|done]. destruct st; [by apply IH| |done].
  destruct H as [-> ->]. cbn. change (start s') with new_scanner.
  by destruct (scan_keys str kEnsure new_scanner) as [[[? ?] ?]|].
Qed.

Lemma scan_sends keys bss rest status : Forall2 sends keys bss ->
  scan_keys (concat bss ++ rest) status new_scanner =
  match scan_keys rest (match keys with [] => status | _ => kEnsure end) new_scanner with
  | Some (keys', status', s') => Some (keys ++ keys', status', s')
  | None => None
  end.
Proof.
  intros H. revert status. induction H as [|k bs keys bss Hk _ IH]; intros status.
  - cbn. by destruct (scan_keys rest status new_scanner) as [[[? ?] ?]|].
  - cbn [concat]. rewrite <- app_assoc, (scan_takes _ k bs) by (by apply sends_takes). rewrite IH.
    assert (match keys with [] => kEnsure | _ => kEnsure end = kEnsure) as -> by (by destruct keys).
    by destruct (scan_keys rest kEnsure new_scanner) as [[[? ?] ?]|].
Qed.

(** What the last byte of a string means when a sequence could follow it. *)
Definition last_key (tail : list Z) (keys : list (Result * Z)) : Prop :=
  (tail, keys) ∈ [([], []); ([0x1b], [(kESC, 0)]); ([0x0d], [(kEnter, 0)])].

(** What a user types is what the scanner finds: for any keys, each sent by any of
    the sequences of the table, the keys are found in their order, none is lost and
    none is added; at the end of the string a lone escape or carriage return is the
    key itself. *)
Theorem keys_recognised (keys last : list (Result * Z)) (bss : list (list Z)) (tail : list Z) :
  Forall2 sends keys bss -> last_key tail last -> scan_string (concat bss ++ tail) = Some (keys ++ last).
Proof.
  intros H Hl. unfold scan_string. change (start new_scanner) with new_scanner. rewrite (scan_sends keys bss) by done.
  unfold last_key in Hl. rewrite !elem_of_cons in Hl.
  destruct Hl as [[= -> ->]|[[= -> ->]|[[= -> ->]|[]%not_elem_of_nil]]]; cbn; rewrite ?app_nil_r; try done.
  by destruct keys; cbn; rewrite ?app_nil_r.
Qed.


Lemma keys_recognised_witness :
  scan_string (concat [str "l"; [0x1b; 0x5b; 0x41]; [0xc2; 0x83]; [0x0d; 0x0a]] ++ [0x0d]) =
  Some ([(kPrintable, 108); (kMoveUp, 0); (kCtrlAltPlus, 99); (kEnter, 0)] ++ [(kEnter, 0)]).
Proof.
  apply keys_recognised.
  - constructor; [by apply sends_printable|]. constructor; [constructor|].
    constructor; [by apply (sends_ctrl_alt 99)|]. constructor; [|constructor]. apply sends_enter. auto.
  - unfold last_key. rewrite !elem_of_cons. auto.
Defined.

(** ** Where the scanner loses keys *)

(** A carriage return that something else follows in the same string is lost, and
    so is what follows. *)
Example return_loses_next : scan_string (str "a" ++ [0x0d] ++ str "bc") = Some [(kPrintable, 97); (kPrintable, 99)].
Proof. reflexivity. Qed.

(** A sequence that comes in two strings is read as other keys: an escape, and
    characters that the user did not type. *)
Example sequence_in_two_strings :
  scan_string [0x1b] = Some [(kESC, 0)] /\ scan_string [0x5b; 0x41] = Some [(kPrintable, 91); (kPrintable, 65)].
Proof. split; reflexivity. Qed.

(** [0x0d 0x0a] in two strings is two keys. *)
Example return_in_two_strings : scan_string [0x0d] = Some [(kEnter, 0)] /\ scan_string [0x0a] = Some [(kEnter, 0)].
Proof. split; reflexivity. Qed.

(** The sequences of the header file for F10, F11 and F12. *)
Example documented_function_keys : Forall (fun bs => scan_string bs = Some [(kPrintable, 0x7e)])
  [[0x1b; 0x5b; 0x31; 0x31; 0x7e]; [0x1b; 0x5b; 0x31; 0x33; 0x7e]; [0x1b; 0x5b; 0x31; 0x34; 0x7e]].
Proof. repeat constructor. Qed.

(** [islower] of a negative number that is not [EOF]. *)
Example ctrl_alt_undefined : scan_string [0xc2; 0x0d] = None.
Proof. reflexivity. Qed.
