(* ===== verification/Cmdline.v ===== *)
(** * Command lines

    Models [modules/util/split_cmdline.cpp], which cuts a command line into
    arguments, and relates it to a machine that reads the line once. *)
From S2P Require Import Prelude Strings.

Definition quots : chars := [quote; double_quote].

(** The inner loop: past the quoted parts of an argument.  [None] is an access out
    of range, [Some None] the [return false]. *)
Fixpoint quot_loop (cmd : chars) (fuel : nat) (end_pos quot_start_pos : Z) : option (option Z) :=
  match fuel with
  | O => None
  | S f =>
      if negb (quot_start_pos =? npos) && ((quot_start_pos <? end_pos) || (end_pos =? npos)) then
        quot_char ← char_at cmd quot_start_pos;
        let quot_end_pos := find_first_of cmd [quot_char] (quot_start_pos + 1) in
        if quot_end_pos =? npos then Some None
        else quot_loop cmd f (find_first_of cmd space_tab (quot_end_pos + 1)) (find_first_of cmd quots (quot_end_pos + 1))
      else Some (Some end_pos)
  end.

(** The outer loop, with the arguments found until now. *)
Fixpoint cmd_loop (cmd : chars) (fuel : nat) (end_pos : Z) (args : list chars) : option (bool * list chars) :=
  match fuel with
  | O => None
  | S f =>
      let start_pos := find_first_not_of cmd space_tab end_pos in
      if start_pos =? npos then Some (true, args)
      else
        start_char ← char_at cmd start_pos;
        if (start_char =? quote) || (start_char =? double_quote) then
          let end_pos := find_first_of cmd [start_char] (start_pos + 1) in
          if end_pos =? npos then Some (false, args)
          else
            arg ← substr cmd (start_pos + 1) (u64 (end_pos - start_pos - 1));
            cmd_loop cmd f (end_pos + 1) (args ++ [arg])
        else
          r ← quot_loop cmd f (find_first_of cmd space_tab start_pos) (find_first_of cmd quots start_pos);
          match r with
          | None => Some (false, args)
          | Some end_pos =>
              arg ← substr cmd start_pos (u64 (end_pos - start_pos));
              let args := args ++ [arg] in
              if end_pos =? npos then Some (true, args) else cmd_loop cmd f end_pos args
          end
  end.

(** The result and [args]. *)
Definition SplitCmdline (cmd : chars) : option (bool * list chars) := cmd_loop cmd (length cmd + 2) 0 [].

Example split_example :
  SplitCmdline (str "set  --key='hello world'and'I am' 'a  b'c") =
  Some (true, [str "set"; str "--key='hello world'and'I am'"; str "a  b"; str "c"]).
Proof. reflexivity. Qed.

(** ** One pass

    Between two arguments; in an argument that is quoted as a whole, whose quotes
    are dropped; in a plain argument; in a quoted part of it, whose quotes stay. *)
Inductive mode := Gap | Quoted (q : Z) | Plain | Part (q : Z).

Definition is_space (c : Z) : bool := is_in c space_tab.
Definition is_quot (c : Z) : bool := is_in c quots.

#[global] Arguments is_space : simpl never.
#[global] Arguments is_quot : simpl never.

Definition emit (arg : chars) (r : bool * list chars) : bool * list chars := (r.1, arg :: r.2).

(** [arg] is what was read of the argument.  A quoted part without an end is an
    error, with the arguments before it. *)
Fixpoint words (m : mode) (arg : chars) (s : chars) : bool * list chars :=
  match s with
  | [] => match m with Gap => (true, []) | Plain => (true, [arg]) | Quoted _ | Part _ => (false, []) end
  | c :: s' =>
      match m with
      | Gap => if is_space c then words Gap [] s' else if is_quot c then words (Quoted c) [] s' else words Plain [c] s'
      | Quoted q => if c =? q then emit arg (words Gap [] s') else words m (arg ++ [c]) s'
      | Plain =>
          if is_space c then emit arg (words Gap [] s')
          else words (if is_quot c then Part c else Plain) (arg ++ [c]) s'
      | Part q => words (if c =? q then Plain else m) (arg ++ [c]) s'
      end
  end.

(** The rest of a plain argument, and what follows it. *)
Fixpoint plain_split (q : option Z) (s : chars) : option (chars * chars) :=
  match s with
  | [] => match q with None => Some ([], []) | Some _ => None end
  | c :: s' =>
      match q with
      | None =>
          if is_space c then Some ([], s)
          else '(w, rest) ← plain_split (if is_quot c then Some c else None) s'; Some (c :: w, rest)
      | Some q' => '(w, rest) ← plain_split (if c =? q' then None else q) s'; Some (c :: w, rest)
      end
  end.

Lemma plain_split_app q s w rest : plain_split q s = Some (w, rest) -> s = w ++ rest.
Proof.
  revert q w. induction s as [|c s IH]; intros q w E; cbn in E.
  - destruct q; [done|]. by injection E as <- <-.
  - destruct q as [q|].
    + destruct (plain_split _ s) as [[w' rest']|] eqn:E'; [|done]. injection E as <- <-. cbn. f_equal. by apply IH in E'.
    + destruct (is_space c); [by injection E as <- <-|].
      destruct (plain_split _ s) as [[w' rest']|] eqn:E'; [|done]. injection E as <- <-. cbn. f_equal. by apply IH in E'.
Qed.

Lemma words_plain s : forall q arg,
  words (match q with None => Plain | Some q' => Part q' end) arg s =
  match plain_split q s with
  | None => (false, [])
  | Some (w, rest) => emit (arg ++ w) (words Gap [] rest)
  end.
Proof.
  induction s as [|c s IH]; intros q arg.
  - destruct q; [done|]. cbn. by rewrite app_nil_r.
  - destruct q as [q|]; cbn [words plain_split].
    + replace (if c =? q then Plain else Part q) with (match (if c =? q then None else Some q) with None => Plain | Some q' => Part q' end)
        by (by destruct (c =? q)).
      rewrite IH. destruct (plain_split _ s) as [[w rest]|]; [|done]. cbn. by rewrite <- app_assoc.
    + destruct (is_space c) eqn:Es; [cbn [words]; by rewrite Es, app_nil_r|].
      replace (if is_quot c then Part c else Plain) with (match (if is_quot c then Some c else None) with None => Plain | Some q' => Part q' end)
        by (by destruct (is_quot c)).
      rewrite IH. destruct (plain_split _ s) as [[w rest]|]; [|done]. cbn. by rewrite <- app_assoc.
Qed.

(** What follows a plain argument is a space or nothing. *)
Lemma plain_split_rest q s w rest : plain_split q s = Some (w, rest) ->
  rest = [] \/ exists c rest', rest = c :: rest' /\ is_space c = true.
Proof.
  revert q w. induction s as [|c s IH]; intros q w E; cbn in E.
  - destruct q; [done|]. injection E as <- <-. by left.
  - destruct q as [q|].
    + destruct (plain_split _ s) as [[w' rest']|] eqn:E'; [|done]. injection E as <- <-. by apply IH in E'.
    + destruct (is_space c) eqn:Es; [injection E as <- <-; right; by eexists _, _|].
      destruct (plain_split _ s) as [[w' rest']|] eqn:E'; [|done]. injection E as <- <-. by apply IH in E'.
Qed.

(** ** Searching *)

(** Passing over characters that do not stop the search. *)
Lemma find_skip p good pre mid post : stops p good -> Forall (fun x => ~ good x) mid ->
  scan_from p (pre ++ mid ++ post) (size pre) = scan_from p ((pre ++ mid) ++ post) (size (pre ++ mid)).
Proof.
  intros Hp Hm. rewrite scan_from_app, scan_from_app, size_app.
  assert (scan p (mid ++ post) = option_map (fun i => length mid + i)%nat (scan p post)) as ->.
  { induction Hm as [|x mid Hx Hm IH]; cbn; [by destruct (scan p post)|].
    rewrite (stops_false p good), IH by done. by destruct (scan p post). }
  destruct (scan p post) as [i|]; cbn; [|done]. unfold size. lia.
Qed.

(** A search that is in order: npos, or not before where it starts. *)
Lemma found_from p pre post : size (pre ++ post) < npos ->
  scan_from p (pre ++ post) (size pre) = npos \/ size pre <= scan_from p (pre ++ post) (size pre) < npos.
Proof.
  intros Hn. rewrite scan_from_app. destruct (scan p post) as [i|] eqn:E; [right|by left].
  destruct (scan_Some _ _ _ E) as (Hi & _). rewrite size_app in Hn. cbn. unfold size in *. lia.
Qed.

(** [s] up to its first character that satisfies [p]. *)
Lemma split_first (p : Z -> bool) (s : chars) : exists mid, Forall (fun c => p c = false) mid /\
  (s = mid \/ exists c post, s = mid ++ c :: post /\ p c = true).
Proof.
  induction s as [|c s (mid & Hm & IH)]; [by exists []; split; [|left]|].
  destruct (p c) eqn:E; [exists []; split; [done|]; right; by exists c, s|].
  exists (c :: mid). split; [by constructor|]. destruct IH as [->|(c' & post & -> & H)]; [by left|right].
  by exists c', post.
Qed.

Lemma not_in_stops set mid : Forall (fun c => is_in c set = false) mid -> Forall (fun x => ~ x ∈ set) mid.
Proof. intros H. eapply Forall_impl; [exact H|]. intros c. apply is_in_false. Qed.

(** ** The code reads the line like the machine *)

Lemma space_not_quot c : is_space c = true -> is_quot c = false.
Proof.
  unfold is_space. rewrite is_in_true. change space_tab with [32; 9]. rewrite !elem_of_cons.
  by intros [-> |[-> |[]%not_elem_of_nil]].
Qed.

Definition prepend (w : chars) (r : option (chars * chars)) : option (chars * chars) :=
  match r with Some (w', rest) => Some (w ++ w', rest) | None => None end.

Lemma plain_split_plain mid rest : Forall (fun c => is_space c || is_quot c = false) mid ->
  plain_split None (mid ++ rest) = prepend mid (plain_split None rest).
Proof.
  intros Hm. induction Hm as [|c mid [H1 H2]%orb_false_iff _ IH]; cbn.
  - by destruct (plain_split None rest) as [[]|].
  - rewrite H1, H2, IH. by destruct (plain_split None rest) as [[]|].
Qed.

Lemma plain_split_part q body rest : Forall (fun c => c =? q = false) body ->
  plain_split (Some q) (body ++ rest) = prepend body (plain_split (Some q) rest).
Proof.
  intros Hm. induction Hm as [|c mid H1 _ IH]; cbn.
  - by destruct (plain_split (Some q) rest) as [[]|].
  - rewrite H1, IH. by destruct (plain_split (Some q) rest) as [[]|].
Qed.

(** Where the argument ends. *)
Definition end_of (pre : chars) (r : option (chars * chars)) : option Z :=
  match r with
  | None => None
  | Some (_, []) => Some npos
  | Some (w, _) => Some (size (pre ++ w))
  end.

Lemma end_of_prepend pre w r : end_of pre (prepend w r) = end_of (pre ++ w) r.
Proof. destruct r as [[w' [|c rest]]|]; [done| |done]. cbn. by rewrite app_assoc. Qed.

Lemma quot_loop_ok (pre s : chars) (fuel : nat) : size (pre ++ s) < npos -> (length s < fuel)%nat ->
  quot_loop (pre ++ s) fuel (find_first_of (pre ++ s) space_tab (size pre)) (find_first_of (pre ++ s) quots (size pre)) =
  Some (end_of pre (plain_split None s)).
Proof.
  revert pre s. induction fuel as [|fuel IH]; intros pre s Hn Hf; [lia|].
  destruct (split_first (fun c => is_space c || is_quot c) s) as (mid & Hm & Hs).
  assert (Forall (fun x => ~ x ∈ space_tab) mid /\ Forall (fun x => ~ x ∈ quots) mid) as [Hm1 Hm2].
  { split; apply not_in_stops; (eapply Forall_impl; [exact Hm|]); intros c [H1 H2]%orb_false_iff; assumption. }
  cbn [quot_loop]. unfold find_first_of in *. destruct Hs as [->|(c & post & -> & Hc)].
  - rewrite !(find_stops_none _ _ pre mid (head_in_stops _)) by done. 
    pose proof (plain_split_plain mid [] Hm) as E. rewrite !app_nil_r in E. by rewrite E.
  - rewrite plain_split_plain, end_of_prepend by done. destruct (is_space c) eqn:Es.
    + rewrite (find_stops _ _ pre mid c post (head_in_stops space_tab)) by (done || by apply is_in_true).
      assert (Forall (fun x => ~ x ∈ quots) (mid ++ [c])) as Hm3.
      { apply Forall_app. split; [done|]. constructor; [|done]. apply is_in_false, space_not_quot, Es. }
      replace (mid ++ c :: post) with ((mid ++ [c]) ++ post) in * by (by rewrite <- app_assoc).
      rewrite (find_skip _ _ pre (mid ++ [c]) post (head_in_stops quots)) by done.
      assert (negb (scan_from (head_in quots) ((pre ++ mid ++ [c]) ++ post) (size (pre ++ mid ++ [c])) =? npos) &&
        ((scan_from (head_in quots) ((pre ++ mid ++ [c]) ++ post) (size (pre ++ mid ++ [c])) <? size (pre ++ mid)) ||
         (size (pre ++ mid) =? npos)) = false) as ->.
      { destruct (found_from (head_in quots) (pre ++ mid ++ [c]) post) as [->|Hq];
          [by rewrite <- !app_assoc in *|by rewrite Z.eqb_refl|].
        rewrite !size_app in *. change (size [c]) with 1 in *. apply andb_false_intro2. 
        pose proof (size_nonneg post). lia. }
      cbn. rewrite Es. cbn. by rewrite !app_nil_r.
    + cbn in Hc. assert (Forall (fun x => ~ x ∈ space_tab) (mid ++ [c])) as Hm3.
      { apply Forall_app. split; [done|]. constructor; [|done]. by apply is_in_false. }
      rewrite (find_stops _ _ pre mid c post (head_in_stops quots)) by (done || by apply is_in_true).
      assert (pre ++ mid ++ c :: post = (pre ++ mid ++ [c]) ++ post) as E2 by (by rewrite <- !app_assoc).
      assert (size (pre ++ mid) + 1 = size (pre ++ mid ++ [c])) as E1 by (rewrite !size_app; change (size [c]) with 1; lia).
      assert (scan_from (head_in space_tab) (pre ++ mid ++ c :: post) (size pre) =
              scan_from (head_in space_tab) ((pre ++ mid ++ [c]) ++ post) (size (pre ++ mid ++ [c]))) as Espace.
      { replace (mid ++ c :: post) with ((mid ++ [c]) ++ post) by (by rewrite <- app_assoc).
        by rewrite (find_skip _ _ pre (mid ++ [c]) post (head_in_stops space_tab)). }
      rewrite Espace, E2 in *. pose proof (size_nonneg post) as Hpost.
      assert (size (pre ++ mid ++ [c]) <= npos - size post - 1) as Hlt by (rewrite size_app in Hn; lia).
      assert (negb (size (pre ++ mid) =? npos) &&
        ((size (pre ++ mid) <? scan_from (head_in space_tab) ((pre ++ mid ++ [c]) ++ post) (size (pre ++ mid ++ [c]))) ||
         (scan_from (head_in space_tab) ((pre ++ mid ++ [c]) ++ post) (size (pre ++ mid ++ [c])) =? npos)) = true) as ->.
      { rewrite (proj2 (Z.eqb_neq (size (pre ++ mid)) _)) by lia.
        destruct (found_from (head_in space_tab) (pre ++ mid ++ [c]) post Hn) as [->|Hq]; [by rewrite Z.eqb_refl, orb_true_r|].
        by rewrite (proj2 (Z.ltb_lt _ _)) by lia. }
      assert (char_at ((pre ++ mid ++ [c]) ++ post) (size (pre ++ mid)) = Some c) as ->.
      { replace ((pre ++ mid ++ [c]) ++ post) with ((pre ++ mid) ++ c :: post) by (by rewrite <- !app_assoc). apply char_at_app. }
      opt. cbn beta. rewrite E1. cbn [plain_split]. rewrite Es, Hc.
      destruct (split_first (fun x => x =? c) post) as (body & Hb & Hp).
      assert (Forall (fun x => ~ x ∈ [c]) body) as Hb2.
      { eapply Forall_impl; [exact Hb|]. intros x Hx%Z.eqb_neq. by rewrite list_elem_of_singleton. }
      destruct Hp as [->|(c' & rest & -> & Hc'%Z.eqb_eq)].
      * rewrite (find_stops_none _ _ _ body (head_in_stops [c])) by done. cbn zeta. rewrite Z.eqb_refl.
        pose proof (plain_split_part c body [] Hb) as E. rewrite app_nil_r in E. by rewrite E.
      * subst c'. rewrite (find_stops _ _ _ body c rest (head_in_stops [c])) by (done || by apply list_elem_of_singleton).
        rewrite plain_split_part by done. cbn [plain_split]. rewrite Z.eqb_refl. cbn zeta.
        set (pre' := (pre ++ mid) ++ [c] ++ body ++ [c]).
        assert ((pre ++ mid ++ [c]) ++ body ++ c :: rest = pre' ++ rest) as E3 by (unfold pre'; by rewrite <- !app_assoc).
        assert (size ((pre ++ mid ++ [c]) ++ body) + 1 = size pre') as E4
          by (unfold pre'; rewrite !size_app; change (size [c]) with 1; lia).
        rewrite (proj2 (Z.eqb_neq _ _)) by (rewrite E3, size_app in Hn; pose proof (size_nonneg rest); lia).
        rewrite E3 in *. rewrite E4, IH; [|done|rewrite !length_app in Hf; cbn in Hf; rewrite length_app in Hf; cbn in Hf; lia].
        f_equal. unfold pre'. rewrite <- end_of_prepend. f_equal.
        destruct (plain_split None rest) as [[w r]|]; [|done]. cbn. by rewrite <- app_assoc.
Qed.

Lemma words_spaces mid rest : Forall (fun c => negb (is_space c) = false) mid -> words Gap [] (mid ++ rest) = words Gap [] rest.
Proof. induction 1 as [|c mid H%negb_false_iff _ IH]; [done|]. cbn. by rewrite H. Qed.

Lemma words_quoted q body rest arg : Forall (fun c => c =? q = false) body ->
  words (Quoted q) arg (body ++ rest) = words (Quoted q) (arg ++ body) rest.
Proof.
  intros H. revert arg. induction H as [|c body H _ IH]; intros arg; cbn; [by rewrite app_nil_r|].
  rewrite H, IH. by rewrite <- app_assoc.
Qed.

(** The argument that [substr] cuts out of the line. *)
Lemma cut_rest (pre w : chars) : size (pre ++ w) < npos -> substr (pre ++ w) (size pre) (u64 (npos - size pre)) = Some w.
Proof. intros H. apply substr_rest. by apply span_rest. Qed.

Lemma cut_mid (pre w post : chars) : size (pre ++ w) < npos ->
  substr ((pre ++ w) ++ post) (size pre) (u64 (size (pre ++ w) - size pre)) = Some w.
Proof. intros H. rewrite <- app_assoc. apply substr_app. by apply span_len. Qed.

Lemma cmd_loop_ok (pre s : chars) (fuel : nat) (args : list chars) :
  size (pre ++ s) < npos -> (length s + 1 < fuel)%nat ->
  cmd_loop (pre ++ s) fuel (size pre) args = Some ((words Gap [] s).1, args ++ (words Gap [] s).2).
Proof.
  revert pre s args. induction fuel as [|fuel IH]; intros pre s args Hn Hf; [lia|].
  destruct (split_first (fun c => negb (is_space c)) s) as (mid & Hm & Hs).
  assert (Forall (fun x => ~ (x ∉ space_tab)) mid) as Hm1.
  { eapply Forall_impl; [exact Hm|]. intros c Hc%negb_false_iff%is_in_true H. by apply H. }
  cbn [cmd_loop]. unfold find_first_not_of. destruct Hs as [->|(c & post & -> & Hc%negb_true_iff)].
  - rewrite (find_stops_none _ _ pre mid (head_not_in_stops _)) by done. cbn zeta. rewrite Z.eqb_refl.
    pose proof (words_spaces mid [] Hm) as E. rewrite app_nil_r in E. rewrite E. cbn. by rewrite app_nil_r.
  - rewrite (find_stops _ _ pre mid c post (head_not_in_stops _)) by (done || by apply is_in_false).
    rewrite words_spaces by done. cbn zeta. pose proof (size_nonneg post) as Hpost.
    replace (pre ++ mid ++ c :: post) with ((pre ++ mid) ++ c :: post) in * by (by rewrite <- app_assoc).
    set (p := pre ++ mid) in *. rewrite length_app in Hf. cbn [length] in Hf.
    assert (size p + 1 = size (p ++ [c])) as E1 by (rewrite size_app; done).
    assert (p ++ c :: post = (p ++ [c]) ++ post) as E2 by (by rewrite <- app_assoc).
    assert (size p + 1 + size post < npos) as Hlt by (rewrite E2, size_app, <- E1 in Hn; done).
    rewrite (proj2 (Z.eqb_neq _ _)), char_at_app by lia. opt. cbn beta.
    assert ((c =? quote) || (c =? double_quote) = is_quot c) as -> by (unfold is_quot; cbn; by rewrite orb_false_r).
    cbn [words]. rewrite Hc. destruct (is_quot c) eqn:Eq.
    + rewrite E1, E2 in *. destruct (split_first (fun x => x =? c) post) as (body & Hb & Hp).
      assert (Forall (fun x => ~ x ∈ [c]) body) as Hb2.
      { eapply Forall_impl; [exact Hb|]. intros x Hx%Z.eqb_neq. by rewrite list_elem_of_singleton. }
      unfold find_first_of. destruct Hp as [->|(c' & rest & -> & Hc'%Z.eqb_eq)].
      * rewrite (find_stops_none _ _ _ body (head_in_stops [c])) by done. rewrite Z.eqb_refl.
        pose proof (words_quoted c body [] [] Hb) as E. rewrite app_nil_r in E. rewrite E. cbn. by rewrite app_nil_r.
      * subst c'. rewrite (find_stops _ _ _ body c rest (head_in_stops [c])) by (done || by apply list_elem_of_singleton).
        rewrite words_quoted by done. cbn [words app]. rewrite Z.eqb_refl.
        assert ((p ++ [c]) ++ body ++ c :: rest = ((p ++ [c]) ++ body ++ [c]) ++ rest) as E3 by (by rewrite <- !app_assoc).
        assert (size ((p ++ [c]) ++ body) + 1 = size ((p ++ [c]) ++ body ++ [c])) as E4
          by (rewrite !size_app; change (size [c]) with 1; lia).
        assert (size ((p ++ [c]) ++ body ++ [c]) < npos) as Hlt2
          by (rewrite E3, size_app in Hn; pose proof (size_nonneg rest); lia).
        rewrite (proj2 (Z.eqb_neq _ _)) by lia.
        replace (size ((p ++ [c]) ++ body) - size p - 1) with (size ((p ++ [c]) ++ body) - size (p ++ [c])) by lia.
        rewrite app_assoc, cut_mid by lia. rewrite <- app_assoc. opt. cbn beta. rewrite E3, E4 in *.
        rewrite IH; [cbn; by rewrite <- app_assoc|done|]. rewrite length_app in Hf. cbn in Hf. lia.
    + unfold find_first_of. fold (find_first_of (p ++ c :: post) space_tab (size p)) (find_first_of (p ++ c :: post) quots (size p)).
      rewrite quot_loop_ok by (done || cbn; lia). opt. cbn beta.
      assert (words Plain [c] post = words Plain [] (c :: post)) as -> by (cbn [words app]; by rewrite Hc, Eq).
      rewrite (words_plain (c :: post) None []).
      destruct (plain_split None (c :: post)) as [[w rest]|] eqn:Ew; cbn [end_of].
      2: { cbn. by rewrite app_nil_r. }
      pose proof (plain_split_app _ _ _ _ Ew) as Ecp. assert (w <> []) as Hw.
      { intros ->. cbn in Ew. rewrite Hc in Ew. by destruct (plain_split _ post) as [[]|]. }
      rewrite Ecp in *. destruct rest as [|c' rest].
      * rewrite app_nil_r in *. rewrite cut_rest by done. opt. cbn beta zeta. by rewrite Z.eqb_refl.
      * rewrite app_assoc in *. assert (size (p ++ w) < npos) as Hlt2.
        { rewrite size_app in Hn. pose proof (size_nonneg (c' :: rest)). lia. }
        rewrite cut_mid by done. opt. cbn beta zeta. rewrite (proj2 (Z.eqb_neq _ _)) by lia.
        rewrite IH; [cbn; by rewrite <- app_assoc|done|].
        apply (f_equal length) in Ecp. rewrite length_app in Ecp. destruct w; [done|]. cbn in *. lia.
Qed.

Lemma SplitCmdline_words (cmd : chars) : size cmd < npos -> SplitCmdline cmd = Some (words Gap [] cmd).
Proof.
  intros Hn. unfold SplitCmdline. pose proof (cmd_loop_ok [] cmd (length cmd + 2) [] Hn ltac:(lia)) as E.
  cbn [app] in E. change (size []) with 0 in E. rewrite E. by destruct (words Gap [] cmd).
Qed.

(** C40: [SplitCmdline] cuts a line like the machine that reads it once, character by
    character: spaces and tabs separate the arguments, an argument that begins with
    a quote goes to the next such quote and loses both, quotes inside an argument
    protect what is between them and stay; it fails exactly when a quote is not
    closed, with the arguments before it, and no access is out of range. *)
Theorem split_reads_once (cmd : chars) : size cmd < npos -> SplitCmdline cmd = Some (words Gap [] cmd).
Proof. exact (SplitCmdline_words cmd). Qed.

Lemma split_reads_once_witness : SplitCmdline (str "a 'b  c' d=\e f'") = Some (false, [str "a"; str "b  c"; str "d=\e"]).
Proof. rewrite split_reads_once by (vm_compute; reflexivity). reflexivity. Defined.
