(* ===== verification/Nodes.v ===== *)
(** * The nodes of the terminal

    Models [modules/terminal/impl/terminal_nodes.cpp], [dir_node.cpp] and
    [func_node.cpp]: directories and functions in a cabinet ([Cabinet.v], behind
    [TokenStore]), mounted in directories under names.  A node can be mounted many
    times, also below itself, and be deleted while it is mounted.  Also the walks of
    [terminal_commands.cpp] over the nodes, [ls] and [tree]. *)
From S2P Require Import Prelude Strings Cabinet.

(** ** Directories *)

(** [std::map<std::string, NodeToken>], in the order of its keys. *)
Notation Children := (list (chars * Token)).

Fixpoint map_find (k : chars) (m : Children) : option Token :=
  match m with [] => None | (k', t) :: m' => if decide (k = k') then Some t else map_find k m' end.

Fixpoint map_insert (k : chars) (t : Token) (m : Children) : Children :=
  match m with
  | [] => [(k, t)]
  | (k', t') :: m' => if lex_lt k k' then (k, t) :: m else (k', t') :: map_insert k t m'
  end.

Definition map_erase (k : chars) (m : Children) : Children := filter (fun kv => kv.1 <> k) m.

Definition null_token : Token := mkToken 0 0.

Definition addChild (child_name : chars) (nt : Token) (children_ : Children) : Children * bool :=
  match map_find child_name children_ with
  | Some _ => (children_, false)
  | None => (map_insert child_name nt children_, true)
  end.

Definition removeChild (child_name : chars) (children_ : Children) : Children * bool :=
  match map_find child_name children_ with
  | None => (children_, false)
  | Some _ => (map_erase child_name children_, true)
  end.

Definition findChild (child_name : chars) (children_ : Children) : Token :=
  match map_find child_name children_ with None => null_token | Some t => t end.

(** ** Nodes *)

(** A [DirNode] or a [FuncNode], with its help; functions of the user are numbers. *)
Inductive node :=
  | Dir (help_ : chars) (children_ : Children)
  | Func (help_ : chars) (func_ : option nat).

Definition help (n : node) : chars := match n with Dir h _ => h | Func h _ => h end.

Section nodes.

Context {C : Type -> Type} `{HC : TokenStore C}.

Record tree := mkTree {
  nodes_ : C node;
  root_token_ : Token }.

(** [nodes_.at(token)]; a node that is not there is the inner [None]. *)
Definition node_at (T : tree) (t : Token) : option (option node) := ts_at (nodes_ T) t.

(** The constructor of the terminal makes the root. *)
Definition new_tree : option tree :=
  '(n, t) ← ts_alloc (ts_empty : C node) (Some (Dir (str "this is root node") []));
  Some (mkTree n t).

Definition alloc_node (n : node) (T : tree) : option (tree * Token) :=
  '(ns, t) ← ts_alloc (nodes_ T) (Some n); Some (mkTree ns (root_token_ T), t).

Definition createFuncNode (func : option nat) (help : chars) (T : tree) : option (tree * Token) := alloc_node (Func help func) T.
Definition createDirNode (help : chars) (T : tree) : option (tree * Token) := alloc_node (Dir help []) T.

Definition deleteNode (node_token : Token) (T : tree) : option (tree * bool) :=
  '(ns, n) ← ts_free (nodes_ T) node_token;
  Some (mkTree ns (root_token_ T), match n with Some _ => true | None => false end).

(** The children of a directory are changed in place. *)
Definition set_children (t : Token) (help : chars) (children : Children) (T : tree) : option tree :=
  '(ns, _) ← ts_update (nodes_ T) t (Some (Dir help children)); Some (mkTree ns (root_token_ T)).

Definition mountNode (parent child : Token) (name : chars) (T : tree) : option (tree * bool) :=
  p_node ← node_at T parent;
  c_node ← node_at T child;
  match p_node, c_node with
  | Some (Dir help children_), Some _ =>
      match name with
      | [] => Some (T, false)
      | c :: _ =>
          if c =? 33 then Some (T, false)
          else
            let (children_, ok) := addChild name child children_ in
            T ← set_children parent help children_ T; Some (T, ok)
      end
  | _, _ => Some (T, false)
  end.

Definition umountNode (parent : Token) (name : chars) (T : tree) : option (tree * bool) :=
  p_node ← node_at T parent;
  match p_node with
  | Some (Dir help children_) =>
      let '(children_, ok) := removeChild name children_ in
      T ← set_children parent help children_ T; Some (T, ok)
  | _ => Some (T, false)
  end.

(** *** Paths *)

Notation Path := (list (chars * Token)).

Definition top_token (T : tree) (node_path : Path) : Token :=
  match last node_path with None => root_token_ T | Some item => item.2 end.

Fixpoint find_loop (T : tree) (names : list chars) (node_path : Path) : option (bool * Path) :=
  match names with
  | [] => Some (true, node_path)
  | node_name :: names' =>
      if bool_decide (node_name = str ".") || bool_decide (node_name = []) then find_loop T names' node_path
      else if bool_decide (node_name = str "..") then
        match node_path with
        | [] => Some (false, node_path)
        | _ => find_loop T names' (removelast node_path)
        end
      else
        top_node ← node_at T (top_token T node_path);
        match top_node with
        | None | Some (Func _ _) => Some (false, node_path)
        | Some (Dir _ children_) =>
            let next_node_token := findChild node_name children_ in
            if isNull next_node_token then Some (false, node_path)
            else find_loop T names' (node_path ++ [(node_name, next_node_token)])
        end
  end.

(** [findNode(path_str, node_path)] and what it leaves in [node_path]. *)
Definition findNodePath (T : tree) (path_str : chars) (node_path : Path) : option (bool * Path) :=
  path_str_vec ← Split path_str (str "/");
  match path_str_vec with
  | [] => None
  | [] :: names => find_loop T names []
  | names => find_loop T names node_path
  end.

Definition findNode (T : tree) (path_str : chars) : option Token :=
  '(found, node_path) ← findNodePath T path_str [];
  Some (if (found : bool) then top_token T node_path else null_token).

(** *** Listing *)

Definition crlf : chars := [13; 10].

Fixpoint ls_loop (T : tree) (items : Children) : option chars :=
  match items with
  | [] => Some []
  | (name, t) :: items' =>
      n ← node_at T t;
      rest ← ls_loop T items';
      Some (str "- " ++ name ++ match n with None => str "(X)" | Some (Dir _ _) => str "/" | Some (Func _ _) => [] end
              ++ crlf ++ rest)
  end.

Definition indent_last (is_last_node : bool) : chars := if is_last_node then str "`-- " else str "|-- ".
Definition indent_more (is_last_node : bool) : chars := if is_last_node then str "    " else str "|   ".

(** [indent_str.erase(indent_str.size() - 4)] *)
Definition shorten (indent_str : chars) : option chars :=
  if size indent_str <? 4 then None else Some (take (length indent_str - 4) indent_str).

(** The nodes at the front of the lower levels. *)
Fixpoint fronts (levels : list Children) : option (list Token) :=
  match levels with
  | [] => Some []
  | [] :: _ => None
  | ((_, t) :: _) :: levels' => l ← fronts levels'; Some (t :: l)
  end.

(** A node has been done: it is removed, and so are the levels that end with it. *)
Fixpoint tree_clean (stack : list Children) (indent_str : chars) : option (list Children * chars) :=
  match stack with
  | [] => Some ([], indent_str)
  | [] :: _ => None
  | (_ :: []) :: lower =>
      indent_str ← match indent_str with [] => Some [] | _ => shorten indent_str end;
      tree_clean lower indent_str
  | (_ :: rest) :: lower => Some (rest :: lower, indent_str)
  end.

(** An access that is not there ends the walk with [Some None]; [None] is out of fuel. *)
Notation "x '←!' o ; k" := (match o with Some x => k | None => Some None end)
  (at level 20, o at level 100, k at level 200, only parsing).

(** The walk of [executeTreeCmd], one node at a time; the back of [node_token_stack]
    comes first.  When the last node of a level was done and the level removed, the code
    reads the vector [last_level] once more, which was destroyed with it.  By the
    standard anything may happen then; [dead_is_empty] says that the read finds it empty. *)
Fixpoint tree_loop (dead_is_empty : bool) (T : tree) (fuel : nat) (stack : list Children) (indent_str ss : chars) : option (option chars) :=
  match fuel with
  | O => None
  | S fuel' =>
      match stack with
      | [] => Some (Some ss)
      | [] :: _ => Some None
      | (((name, token) :: rest) as last_level) :: lower =>
          let is_last_node := match rest with [] => true | _ => false end in
          let ss := ss ++ indent_str ++ indent_last is_last_node ++ name in
          let next ss :=
            cleaned ←! tree_clean stack indent_str;
            if negb dead_is_empty && is_last_node then Some None
            else tree_loop dead_is_empty T fuel' cleaned.1 cleaned.2 ss in
          curr_node ←! node_at T token;
          match curr_node with
          | None => next (ss ++ str "(X)" ++ crlf)
          | Some (Func _ _) => next (ss ++ crlf)
          | Some (Dir _ children_) =>
              above ←! fronts lower;
              let is_repeat := bool_decide (token = root_token_ T) || bool_decide (token ∈ above) in
              let ss := ss ++ (if is_repeat then str "(R)" else []) ++ crlf in
              match is_repeat, children_ with
              | false, _ :: _ => tree_loop dead_is_empty T fuel' (children_ :: stack) (indent_str ++ indent_more is_last_node) ss
              | _, _ => next ss
              end
          end
      end
  end.

(** The text of [tree] for a directory. *)
Definition tree_text (dead_is_empty : bool) (fuel : nat) (T : tree) (children : Children) : option (option chars) :=
  tree_loop dead_is_empty T fuel (match children with [] => [] | _ => [children] end) [] [].

(** ** Well-formed trees *)

Implicit Types (T : tree) (t : Token) (path : Path).

Definition look T t : option node := mjoin (ts_view (nodes_ T) !! t).

Definition is_dir T t : Prop := match look T t with Some (Dir _ _) => True | _ => False end.

Definition children_of (n : node) : Children := match n with Dir _ c => c | Func _ _ => [] end.

Definition items_ok (l : Children) : Prop := Forall (fun kv => tok_wf kv.2) l.

Record tree_wf T : Prop := {
  tw_nodes : ts_wf (nodes_ T);
  tw_root : tok_wf (root_token_ T);
  tw_children t n : look T t = Some n -> items_ok (children_of n) }.

Lemma node_at_look T t : tree_wf T -> tok_wf t -> node_at T t = Some (look T t).
Proof. intros HT Ht. apply ts_at_ok; [apply HT|done]. Qed.

Lemma items_ok_find k l : items_ok l -> match map_find k l with Some t => tok_wf t | None => True end.
Proof. induction 1 as [|[k' t] l Ht _ IH]; cbn; [done|]. by case_decide. Qed.

Lemma items_ok_insert k t l : items_ok l -> tok_wf t -> items_ok (map_insert k t l).
Proof.
  intros Hl Ht. induction Hl as [|[k' t'] l Ht' Hl IH]; cbn; [by constructor|].
  destruct (lex_lt k k'); repeat (constructor; [done|]); done.
Qed.

Lemma items_ok_erase k l : items_ok l -> items_ok (map_erase k l).
Proof.
  intros Hl. unfold map_erase. induction Hl as [|[k' t'] l Ht' Hl IH]; [by constructor|]. rewrite filter_cons.
  case_decide; [by constructor|done].
Qed.

(** A directory whose children are replaced. *)
Lemma set_children_ok T t help children : tree_wf T -> tok_wf t -> is_Some (look T t) -> items_ok children ->
  exists T', set_children t help children T = Some T' /\ tree_wf T' /\ root_token_ T' = root_token_ T /\
    ts_cells (nodes_ T') = ts_cells (nodes_ T) /\ forall t', look T' t' = if decide (t' = t) then Some (Dir help children) else look T t'.
Proof.
  intros HT Ht [n Hn] Hc. destruct (ts_update_ok (nodes_ T) t (Some (Dir help children)) (tw_nodes _ HT) Ht) as (s & E & Hs & Hv).
  pose proof (proj2 (ts_update_last _ _ _ _ _ (tw_nodes _ HT) Ht E)) as Hcells.
  exists (mkTree s (root_token_ T)). unfold set_children. rewrite E. split; [done|].
  assert (forall t', mjoin (ts_view s !! t') = if decide (t' = t) then Some (Dir help children) else look T t') as Hl.
  { intros t'. rewrite Hv. unfold look in Hn. destruct (ts_view (nodes_ T) !! t) eqn:Et; [|discriminate Hn].
    case_decide as Hd; [subst; by rewrite lookup_insert_eq|by rewrite lookup_insert_ne]. }
  split; [|by split_and!]. split; [done|apply HT|]. intros t' n' Hn'. unfold look in Hn'. cbn in Hn'. rewrite Hl in Hn'.
  case_decide; [by injection Hn' as <-|]. by apply (tw_children _ HT t').
Qed.

Lemma alloc_node_ok T n : tree_wf T -> ts_cells (nodes_ T) < SIZE_MAX -> items_ok (children_of n) ->
  exists T' t, alloc_node n T = Some (T', t) /\ tree_wf T' /\ root_token_ T' = root_token_ T /\ tok_wf t /\
    isNull t = false /\ look T t = None /\ ts_cells (nodes_ T') <= ts_cells (nodes_ T) + 1 /\
    forall t', look T' t' = if decide (t' = t) then Some n else look T t'.
Proof.
  intros HT Hc Hi. destruct (ts_alloc_ok (nodes_ T) (Some n) (tw_nodes _ HT) Hc) as (s & t & E & Hs & Ht & Hnull & Hnone & Hv & Hcells).
  exists (mkTree s (root_token_ T)), t. unfold alloc_node. rewrite E. split; [done|].
  assert (forall t', mjoin (ts_view s !! t') = if decide (t' = t) then Some n else look T t') as Hl.
  { intros t'. rewrite Hv. case_decide as Hd; [subst; by rewrite lookup_insert_eq|by rewrite lookup_insert_ne]. }
  split_and!; [|done|done|done|unfold look; by rewrite Hnone|done|done].
  split; [done|apply HT|]. intros t' n' Hn'. unfold look in Hn'. cbn in Hn'. rewrite Hl in Hn'.
  case_decide; [by injection Hn' as <-|]. by apply (tw_children _ HT t').
Qed.

Lemma deleteNode_ok T t : tree_wf T -> tok_wf t -> exists T', 
  deleteNode t T = Some (T', if look T t is Some _ then true else false) /\ tree_wf T' /\ root_token_ T' = root_token_ T /\
  ts_cells (nodes_ T') = ts_cells (nodes_ T) /\ forall t', look T' t' = if decide (t' = t) then None else look T t'.
Proof.
  intros HT Ht. destruct (ts_free_ok (nodes_ T) t (tw_nodes _ HT) Ht) as (s & E & Hs & Hv & Hcells).
  exists (mkTree s (root_token_ T)). unfold deleteNode. rewrite E.
  assert (forall t', mjoin (ts_view s !! t') = if decide (t' = t) then None else look T t') as Hl.
  { intros t'. rewrite Hv. case_decide as Hd; [subst; by rewrite lookup_delete_eq|by rewrite lookup_delete_ne]. }
  split_and!; [done| |done|done|done]. split; [done|apply HT|]. intros t' n' Hn'. unfold look in Hn'. cbn in Hn'. rewrite Hl in Hn'.
  case_decide; [done|]. by apply (tw_children _ HT t').
Qed.

Lemma mountNode_ok T parent child name : tree_wf T -> tok_wf parent -> tok_wf child -> exists T' ok,
  mountNode parent child name T = Some (T', ok) /\ tree_wf T' /\ root_token_ T' = root_token_ T /\
  ts_cells (nodes_ T') = ts_cells (nodes_ T) /\
  if (ok : bool) then exists help children, look T parent = Some (Dir help children) /\ is_Some (look T child) /\
    name <> [] /\ map_find name children = None /\
    forall t, look T' t = if decide (t = parent) then Some (Dir help (map_insert name child children)) else look T t
  else forall t, look T' t = look T t.
Proof.
  intros HT Hp Hc. unfold mountNode. rewrite !node_at_look by done. opt. cbn beta.
  destruct (look T parent) as [[help children|]|] eqn:Ep; try (exists T, false; by split_and!).
  destruct (look T child) as [n|] eqn:Ec; try (exists T, false; by split_and!).
  destruct name as [|c name]; [exists T, false; by split_and!|].
  destruct (c =? 33); [exists T, false; by split_and!|]. unfold addChild.
  assert (items_ok children) as Hi by (apply (tw_children _ HT parent _ Ep)).
  destruct (map_find (c :: name) children) eqn:Ef.
  - destruct (set_children_ok T parent help children) as (T' & E & HT' & Hr & Hce & Hl); [done|done|by rewrite Ep|done|].
    exists T', false. rewrite E. split_and!; [done..|]. intros t'. rewrite Hl. case_decide; [by subst|done].
  - destruct (set_children_ok T parent help (map_insert (c :: name) child children)) as (T' & E & HT' & Hr & Hce & Hl);
      [done|done|by rewrite Ep|by apply items_ok_insert|].
    exists T', true. rewrite E. split_and!; [done..|]. exists help, children. split_and!; [done|by eexists|done|done|done].
Qed.

Lemma umountNode_ok T parent name : tree_wf T -> tok_wf parent -> exists T' ok,
  umountNode parent name T = Some (T', ok) /\ tree_wf T' /\ root_token_ T' = root_token_ T /\
  ts_cells (nodes_ T') = ts_cells (nodes_ T) /\ forall t, is_dir T t -> is_dir T' t.
Proof.
  intros HT Hp. unfold umountNode. rewrite node_at_look by done. opt. cbn beta.
  destruct (look T parent) as [[help children|]|] eqn:Ep; try (exists T, false; by split_and!).
  assert (items_ok children) as Hi by (apply (tw_children _ HT parent _ Ep)). unfold removeChild.
  assert (forall T' c, (forall t', look T' t' = if decide (t' = parent) then Some (Dir help c) else look T t') ->
    forall t, is_dir T t -> is_dir T' t) as Hlive.
  { intros T' c Hl t Ht. unfold is_dir. rewrite Hl. by case_decide. }
  destruct (map_find name children); cbn.
  - destruct (set_children_ok T parent help (map_erase name children)) as (T' & E & HT' & Hr & Hce & Hl);
      [done|done|by rewrite Ep|by apply items_ok_erase|]. exists T', true. rewrite E. split_and!; [done..|by eapply Hlive].
  - destruct (set_children_ok T parent help children) as (T' & E & HT' & Hr & Hce & Hl); [done|done|by rewrite Ep|done|].
    exists T', false. rewrite E. split_and!; [done..|by eapply Hlive].
Qed.

(** *** Building trees *)

(** The calls of the user. *)
Inductive tree_op :=
  | CreateFunc (func : option nat) (help : chars)
  | CreateDir (help : chars)
  | Delete (node_token : Token)
  | Mount (parent child : Token) (name : chars)
  | Umount (parent : Token) (name : chars).

Definition tree_exec (o : tree_op) T : option tree :=
  match o with
  | CreateFunc func help => '(T, _) ← createFuncNode func help T; Some T
  | CreateDir help => '(T, _) ← createDirNode help T; Some T
  | Delete t => '(T, _) ← deleteNode t T; Some T
  | Mount p c name => '(T, _) ← mountNode p c name T; Some T
  | Umount p name => '(T, _) ← umountNode p name T; Some T
  end.

Definition op_ok (o : tree_op) : Prop :=
  match o with
  | Delete t | Umount t _ => tok_wf t
  | Mount p c _ => tok_wf p /\ tok_wf c
  | _ => True
  end.

Lemma new_tree_wf : exists T, new_tree = Some T /\ tree_wf T /\ ts_cells (nodes_ T) <= 1.
Proof.
  destruct (ts_empty_ok (V:=node)) as (H1 & H2 & H3).
  destruct (ts_alloc_ok (ts_empty : C node) (Some (Dir (str "this is root node") [])) H1) as (s & t & E & Hs & Ht & _ & _ & Hv & Hc);
    [rewrite H3; unfold SIZE_MAX; lia|].
  exists (mkTree s t). unfold new_tree. rewrite E. split; [done|]. split; [|cbn; lia].
  split; [done|done|]. intros t' n. unfold look. cbn. rewrite Hv, H2. destruct (decide (t' = t)) as [->|].
  - rewrite lookup_insert_eq. intros [= <-]. constructor.
  - by rewrite lookup_insert_ne, lookup_empty.
Qed.

Lemma tree_exec_ok o T : tree_wf T -> op_ok o -> ts_cells (nodes_ T) < SIZE_MAX ->
  exists T', tree_exec o T = Some T' /\ tree_wf T' /\ root_token_ T' = root_token_ T /\
    ts_cells (nodes_ T') <= ts_cells (nodes_ T) + 1.
Proof.
  intros HT Ho Hc. destruct o as [func h|h|t|p c name|p name]; cbn in Ho |- *.
  - destruct (alloc_node_ok T (Func h func) HT Hc) as (T' & t & E & HT' & Hr & _ & _ & _ & Hce & _); [constructor|].
    exists T'. unfold createFuncNode. by rewrite E.
  - destruct (alloc_node_ok T (Dir h []) HT Hc) as (T' & t & E & HT' & Hr & _ & _ & _ & Hce & _); [constructor|].
    exists T'. unfold createDirNode. by rewrite E.
  - destruct (deleteNode_ok T t HT Ho) as (T' & E & HT' & Hr & Hce & _). exists T'. rewrite E. split_and!; [done..|lia].
  - destruct Ho as [Hp Hch]. destruct (mountNode_ok T p c name HT Hp Hch) as (T' & ok & E & HT' & Hr & Hce & _).
    exists T'. rewrite E. split_and!; [done..|lia].
  - destruct (umountNode_ok T p name HT Ho) as (T' & ok & E & HT' & Hr & Hce & _).
    exists T'. rewrite E. split_and!; [done..|lia].
Qed.

(** What makes no nodes cannot fail, and leaves all directories but one it deletes. *)
Lemma tree_exec_live o T : tree_wf T -> op_ok o -> match o with CreateFunc _ _ | CreateDir _ => False | _ => True end ->
  exists T', tree_exec o T = Some T' /\ tree_wf T' /\ root_token_ T' = root_token_ T /\
    forall t, o <> Delete t -> is_dir T t -> is_dir T' t.
Proof.
  intros HT Ho Hc. destruct o as [func h|h|t|p c name|p name]; try done; cbn in Ho |- *.
  - destruct (deleteNode_ok T t HT Ho) as (T' & E & HT' & Hr & _ & Hl). exists T'. rewrite E. split_and!; [done..|].
    intros t' Hne Ht'. unfold is_dir. rewrite Hl. by rewrite decide_False by (intros ->; by apply Hne).
  - destruct Ho as [Hp Hch]. destruct (mountNode_ok T p c name HT Hp Hch) as (T' & ok & E & HT' & Hr & _ & Hl).
    exists T'. rewrite E. split_and!; [done..|]. intros t _ Ht. unfold is_dir. destruct ok; [|by rewrite Hl].
    destruct Hl as (help & children & _ & _ & _ & _ & Hl). rewrite Hl. by case_decide.
  - destruct (umountNode_ok T p name HT Ho) as (T' & ok & E & HT' & Hr & _ & Hl).
    exists T'. rewrite E. split_and!; [done..|]. intros t _. apply Hl.
Qed.

Fixpoint tree_run (l : list tree_op) T : option tree :=
  match l with [] => Some T | o :: l' => T ← tree_exec o T; tree_run l' T end.

Lemma tree_run_wf l T : tree_wf T -> Forall op_ok l -> ts_cells (nodes_ T) + Z.of_nat (length l) <= SIZE_MAX ->
  exists T', tree_run l T = Some T' /\ tree_wf T'.
Proof.
  intros HT Hl. revert T HT. induction Hl as [|o l Ho _ IH]; intros T HT Hc; [by exists T|]. cbn in Hc |- *.
  destruct (tree_exec_ok o T HT Ho) as (T1 & E & HT1 & _ & Hc1); [lia|]. rewrite E. apply IH; [done|lia].
Qed.

(** ** What [tree] draws

    The drawing of the nodes of a directory: each on a line, with what is below it
    indented on the lines after it.  [anc] are the directories above; [depth] bounds
    how many there can be. *)
Section render.

Context (T : tree).

Fixpoint render (depth : nat) (anc : list Token) : chars -> Children -> option chars :=
  fix go (indent : chars) (items : Children) : option chars :=
    match items with
    | [] => Some []
    | (name, token) :: rest =>
        let is_last := match rest with [] => true | _ => false end in
        body ← match look T token with
               | None => Some (str "(X)" ++ crlf)
               | Some (Func _ _) => Some crlf
               | Some (Dir _ children) =>
                   if bool_decide (token = root_token_ T) || bool_decide (token ∈ anc) then Some (str "(R)" ++ crlf)
                   else match depth with
                        | O => None
                        | S depth' => below ← render depth' (token :: anc) (indent ++ indent_more is_last) children; Some (crlf ++ below)
                        end
               end;
        after ← go indent rest;
        Some (indent ++ indent_last is_last ++ name ++ body ++ after)
    end.

Lemma render_cons depth anc indent name token rest : render depth anc indent ((name, token) :: rest) =
  (let is_last := match rest with [] => true | _ => false end in
   body ← match look T token with
          | None => Some (str "(X)" ++ crlf)
          | Some (Func _ _) => Some crlf
          | Some (Dir _ children) =>
              if bool_decide (token = root_token_ T) || bool_decide (token ∈ anc) then Some (str "(R)" ++ crlf)
              else match depth with
                   | O => None
                   | S depth' => below ← render depth' (token :: anc) (indent ++ indent_more is_last) children; Some (crlf ++ below)
                   end
          end;
   after ← render depth anc indent rest;
   Some (indent ++ indent_last is_last ++ name ++ body ++ after)).
Proof. by destruct depth. Qed.

(** The nodes that are not above. *)
Definition not_above (anc : list Token) : nat :=
  base.size ((dom (ts_view (nodes_ T)) : gset Token) ∖ list_to_set anc).

Lemma not_above_cons anc token n : look T token = Some n -> token ∉ anc -> (not_above (token :: anc) < not_above anc)%nat.
Proof.
  intros Hl Ha. unfold not_above. apply subset_size. unfold look in Hl.
  assert (token ∈ (dom (ts_view (nodes_ T)) : gset Token)) as Hd.
  { apply elem_of_dom. destruct (ts_view (nodes_ T) !! token); [by eexists|discriminate Hl]. }
  set_solver.
Qed.

(** No drawing is endless: a directory is not drawn below itself. *)
Lemma render_total depth anc indent items : (not_above anc <= depth)%nat -> is_Some (render depth anc indent items).
Proof.
  revert anc indent items. induction depth as [|depth IH]; intros anc indent items Hd.
  all: induction items as [|[name token] rest [after IHr]]; [by eexists (_ : chars)|].
  all: rewrite render_cons, IHr; cbn zeta.
  all: destruct (look T token) as [[h children|]|] eqn:El; [|by eexists (_ : chars)..].
  all: destruct (bool_decide_reflect (token = root_token_ T)); [by eexists (_ : chars)|].
  all: destruct (bool_decide_reflect (token ∈ anc)) as [|Ha]; [by eexists (_ : chars)|].
  all: pose proof (not_above_cons anc token _ El Ha).
  - lia.
  - cbn [orb]. destruct (IH (token :: anc) (indent ++ indent_more match rest with [] => true | _ => false end) children) as [below ->]; [lia|].
    by eexists (_ : chars).
Qed.

End render.

(** *** The walk draws it *)

Lemma shorten_more indent b : indent ++ indent_more b <> [] /\ shorten (indent ++ indent_more b) = Some indent.
Proof.
  assert (length (indent_more b) = 4%nat) as Hl by (by destruct b). split.
  - intros E. apply (f_equal length) in E. rewrite length_app in E. cbn in E. lia.
  - unfold shorten. unfold Strings.size. rewrite length_app, Hl. rewrite (proj2 (Z.ltb_ge _ _)) by lia.
    replace (length indent + 4 - 4)%nat with (length indent) by lia. by rewrite take_app_length.
Qed.

Definition resume (T : tree) (fuel : nat) (stack : list Children) (indent ss : chars) : option (option chars) :=
  cleaned ←! tree_clean stack indent; tree_loop true T fuel cleaned.1 cleaned.2 ss.

(** What is left to draw of a level, [after], is drawn before the level ends. *)
Definition draws (T : tree) (items : Children) (lower : list Children) (indent text : chars) : Prop :=
  exists k, forall fuel ss x, tree_loop true T (k + fuel) (items :: lower) indent ss = resume T fuel ([x] :: lower) indent (ss ++ text).

Lemma draws_rest T i rest lower indent piece after k0 :
  (forall fuel ss, tree_loop true T (k0 + fuel) ((i :: rest) :: lower) indent ss = resume T fuel ((i :: rest) :: lower) indent (ss ++ piece)) ->
  (rest = [] /\ after = [] \/ rest <> [] /\ draws T rest lower indent after) ->
  draws T (i :: rest) lower indent (piece ++ after).
Proof.
  intros H [[-> ->]|[Hne [k1 H1]]].
  - exists k0. intros fuel ss x. rewrite H, app_nil_r. done.
  - exists (k0 + k1)%nat. intros fuel ss x. rewrite <- Nat.add_assoc, H, app_assoc, <- (H1 fuel).
    unfold resume. by destruct rest.
Qed.

Definition walk_ok (T : tree) (depth : nat) : Prop := forall items anc indent lower text,
  items <> [] -> items_ok items -> fronts lower = Some anc -> render T depth anc indent items = Some text ->
  draws T items lower indent text.

Lemma walk_level T depth : tree_wf T -> (forall d, depth = S d -> walk_ok T d) -> walk_ok T depth.
Proof.
  intros HT Hbelow items. induction items as [|[name token] rest IHr]; intros anc indent lower text Hne Hok Hf Hr; [done|].
  rewrite render_cons in Hr. cbn zeta in Hr. apply Forall_cons in Hok as [Ht Hok]. cbn in Ht.
  set (is_last := match rest with [] => true | _ => false end) in *.
  match type of Hr with (body ← ?m; _) = _ => destruct m as [body|] eqn:Eb; [|done] end. cbn [mbind option_bind] in Hr.
  destruct (render T depth anc indent rest) as [after|] eqn:Ea; [|done]. injection Hr as <-.
  replace (indent ++ indent_last is_last ++ name ++ body ++ after) with ((indent ++ indent_last is_last ++ name ++ body) ++ after)
    by (by rewrite <- !app_assoc).
  assert (rest = [] /\ after = [] \/ rest <> [] /\ draws T rest lower indent after) as Hrest.
  { destruct rest as [|i rest']; [left; destruct depth; cbn in Ea; by injection Ea as <-|right].
    split; [done|]. by apply (IHr anc). }
  pose proof (node_at_look T token HT Ht) as El.
  destruct (look T token) as [[h children|h f]|] eqn:En.
  - destruct (bool_decide (token = root_token_ T) || bool_decide (token ∈ anc)) eqn:Erep.
    + injection Eb as <-. apply (draws_rest T _ _ _ _ _ _ 1); [|done]. intros fuel ss. cbn.
      rewrite El, Hf. cbn. rewrite Erep. unfold resume, is_last. by rewrite <- !app_assoc.
    + destruct depth as [|depth]; [done|].
      destruct (render T depth (token :: anc) (indent ++ indent_more is_last) children) as [below|] eqn:Ebelow; [|done].
      injection Eb as <-. destruct children as [|ch children].
      * assert (below = []) as -> by (destruct depth; cbn in Ebelow; by injection Ebelow as <-).
        apply (draws_rest T _ _ _ _ _ _ 1); [|done]. intros fuel ss. cbn.
        rewrite El, Hf. cbn. rewrite Erep. unfold resume, is_last. by rewrite <- !app_assoc.
      * destruct (Hbelow depth eq_refl (ch :: children) (token :: anc) (indent ++ indent_more is_last) (((name, token) :: rest) :: lower) below)
          as [k Hk]; [done|by apply (tw_children _ HT token _ En)|cbn; by rewrite Hf|done|].
        apply (draws_rest T _ _ _ _ _ _ (S k)); [|done]. intros fuel ss. cbn -[shorten tree_clean].
        rewrite El, Hf. cbn -[shorten tree_loop tree_clean]. rewrite Erep. cbn -[shorten tree_loop tree_clean].
        fold is_last. rewrite (Hk _ _ (name, token)). unfold resume.
        destruct (shorten_more indent is_last) as [Hnil Hs].
        assert (tree_clean ([(name, token)] :: ((name, token) :: rest) :: lower) (indent ++ indent_more is_last) =
          tree_clean (((name, token) :: rest) :: lower) indent) as ->.
        { cbn -[shorten]. rewrite Hs. by destruct (indent ++ indent_more is_last). }
        by rewrite <- !app_assoc.
  - injection Eb as <-. apply (draws_rest T _ _ _ _ _ _ 1); [|done]. intros fuel ss. cbn. rewrite El.
    unfold resume, is_last. by rewrite <- !app_assoc.
  - injection Eb as <-. apply (draws_rest T _ _ _ _ _ _ 1); [|done]. intros fuel ss. cbn. rewrite El.
    unfold resume, is_last. by rewrite <- !app_assoc.
Qed.

Lemma walk_draws T depth : tree_wf T -> walk_ok T depth.
Proof.
  intros HT. induction depth as [|depth IH]; apply walk_level; [done| |done|]; intros d E; [done|]. by injection E as <-.
Qed.

Lemma tree_text_ok T children : tree_wf T -> items_ok children -> exists text,
  render T (not_above T []) [] [] children = Some text /\ eventually (fun fuel => tree_text true fuel T children = Some (Some text)).
Proof.
  intros HT Hi. destruct (render_total T (not_above T []) [] [] children) as [text Er]; [done|].
  exists text. split; [done|]. destruct children as [|c children].
  - exists 1%nat. intros [|fuel] Hle; [lia|]. destruct (not_above T []); cbn in Er |- *; by injection Er as <-.
  - destruct (walk_draws T (not_above T []) HT (c :: children) [] [] [] text) as [k Hk]; [done..|].
    exists (k + 1)%nat. intros fuel Hle. unfold tree_text. replace fuel with (k + S (fuel - k - 1))%nat by lia.
    by rewrite (Hk _ _ c).
Qed.

(** Sooner or later the last node of a level is done. *)
Lemma walk_dead T depth : tree_wf T -> forall items anc lower, items <> [] -> items_ok items -> fronts lower = Some anc ->
  (not_above T anc <= depth)%nat ->
  exists k, forall fuel indent ss, tree_loop false T (k + fuel) (items :: lower) indent ss = Some None.
Proof.
  intros HT. induction depth as [|depth IH]; induction items as [|[name token] rest IHr]; intros anc lower Hne Hok Hf Hd; try done.
  all: apply Forall_cons in Hok as [Ht Hok]; cbn in Ht; pose proof (node_at_look T token HT Ht) as El.
  all: assert (exists k, forall fuel indent ss, (cleaned ←! tree_clean (((name, token) :: rest) :: lower) indent;
    if negb false && match rest with [] => true | _ => false end then Some None
    else tree_loop false T (k + fuel) cleaned.1 cleaned.2 ss) = Some None) as [k Hk]
    by (destruct rest as [|i rest]; [exists 0%nat; intros; by destruct (tree_clean _ _)|];
        destruct (IHr anc lower) as [k Hk]; [done..|]; exists k; intros; apply Hk).
  all: destruct (look T token) as [[h children|h f]|] eqn:En;
    [|exists (S k); intros fuel indent ss; cbn -[tree_clean] in Hk |- *; rewrite El; apply Hk..].
  all: destruct (bool_decide (token = root_token_ T) || bool_decide (token ∈ anc)) eqn:Erep;
    [exists (S k); intros fuel indent ss; cbn -[tree_clean] in Hk |- *; rewrite El, Hf; cbn -[tree_clean]; rewrite Erep; apply Hk|].
  all: destruct children as [|ch children];
    [exists (S k); intros fuel indent ss; cbn -[tree_clean] in Hk |- *; rewrite El, Hf; cbn -[tree_clean]; rewrite Erep; apply Hk|].
  all: apply orb_false_iff in Erep as Erep2; destruct Erep2 as [_ Ha%bool_decide_eq_false].
  all: pose proof (not_above_cons T anc token _ En Ha).
  - lia.
  - destruct (IH (ch :: children) (token :: anc) (((name, token) :: rest) :: lower)) as [k' Hk'];
      [done|by apply (tw_children _ HT token _ En)|cbn; by rewrite Hf|lia|].
    exists (S k'). intros fuel indent ss. cbn -[tree_clean]. rewrite El, Hf. cbn -[tree_clean tree_loop]. rewrite Erep. apply Hk'.
Qed.

Lemma tree_text_dead T children : tree_wf T -> items_ok children -> children <> [] ->
  eventually (fun fuel => tree_text false fuel T children = Some None).
Proof.
  intros HT Hi Hne. destruct (walk_dead T (not_above T []) HT children [] []) as [k Hk]; [done..|].
  exists k. intros fuel Hle. unfold tree_text. destruct children as [|c children]; [done|].
  replace fuel with (k + (fuel - k))%nat by lia. apply Hk.
Qed.

(** ** Paths *)

(** What [executePwdCmd] prints after the first slash. *)
Fixpoint pwd_loop (path : Path) : chars :=
  match path with
  | [] => []
  | [item] => item.1
  | item :: path' => item.1 ++ str "/" ++ pwd_loop path'
  end.
Definition pwd_text (path : Path) : chars := str "/" ++ pwd_loop path.

(** The child [t] of [parent] under a name. *)
Definition child_of T (parent : Token) (name : chars) t : Prop :=
  exists help children, look T parent = Some (Dir help children) /\ map_find name children = Some t /\ isNull t = false.

(** A path along the nodes as they are. *)
Definition chain T path : Prop := forall pre name t post,
  path = pre ++ (name, t) :: post -> child_of T (top_token T pre) name t.

Definition name_ok (name : chars) : Prop := (47 ∉ name) /\ name <> [] /\ name <> str "." /\ name <> str "..".

Lemma chain_prefix T path path' : chain T (path ++ path') -> chain T path.
Proof. intros H pre name t post ->. apply (H pre name t (post ++ path')). by rewrite <- app_assoc. Qed.

Lemma chain_snoc T path name t : chain T path -> child_of T (top_token T path) name t -> chain T (path ++ [(name, t)]).
Proof.
  intros H Hc pre name' t' post E. destruct post as [|x post _] using rev_ind.
  - apply app_inj_tail in E as [-> [= -> ->]]. done.
  - rewrite app_comm_cons, app_assoc in E. apply app_inj_tail in E as [-> <-]. by apply (H _ _ _ post).
Qed.

Lemma top_token_wf T path : tree_wf T -> chain T path -> tok_wf (top_token T path).
Proof.
  intros HT H. destruct path as [|[name t] path _] using rev_ind; [apply HT|]. unfold top_token. rewrite last_snoc. cbn.
  destruct (H path name t [] eq_refl) as (help & children & Hl & Hf & _).
  pose proof (items_ok_find name children (tw_children _ HT _ _ Hl)) as Hw. by rewrite Hf in Hw.
Qed.

Lemma find_loop_ok T names path : tree_wf T -> chain T path -> exists found path',
  find_loop T names path = Some (found, path') /\ chain T path'.
Proof.
  intros HT. revert path. induction names as [|name names IH]; intros path H; [by exists true, path|]. cbn.
  destruct (bool_decide _ || _); [by apply IH|]. destruct (bool_decide _).
  - destruct path as [|x path _] using rev_ind; [by exists false, []|].
    assert (removelast (path ++ [x]) = path) as -> by apply removelast_last.
    destruct (IH path) as (found & path' & E & H'); [by apply chain_prefix in H|].
    exists found, path'. split; [|done]. rewrite <- E. by destruct path.
  - rewrite node_at_look by (done || by apply top_token_wf). opt. cbn beta.
    destruct (look T (top_token T path)) as [[help children|]|] eqn:El; try (by exists false, path).
    unfold findChild. destruct (map_find name children) as [t|] eqn:Ef; [|by exists false, path].
    destruct (isNull t) eqn:En; [by exists false, path|]. apply IH, chain_snoc; [done|]. by exists help, children.
Qed.

(** Without assuming that the nodes of the path are still mounted. *)
Lemma top_token_ok T path : tree_wf T -> items_ok path -> tok_wf (top_token T path).
Proof.
  intros HT H. destruct path as [|[name t] path _] using rev_ind; [apply HT|]. unfold top_token. rewrite last_snoc. cbn.
  apply Forall_app in H as [_ H]. by rewrite Forall_singleton in H.
Qed.

Lemma find_loop_total T names path : tree_wf T -> items_ok path -> exists found path',
  find_loop T names path = Some (found, path') /\ items_ok path'.
Proof.
  intros HT. revert path. induction names as [|name names IH]; intros path H; [by exists true, path|]. cbn.
  destruct (bool_decide _ || _); [by apply IH|]. destruct (bool_decide _).
  - destruct path as [|x path _] using rev_ind; [by exists false, []|].
    assert (removelast (path ++ [x]) = path) as -> by apply removelast_last. apply Forall_app in H as [H _].
    destruct (IH path H) as (found & path' & E & H'). exists found, path'. split; [|done]. rewrite <- E. by destruct path.
  - rewrite node_at_look by (done || by apply top_token_ok). opt. cbn beta.
    destruct (look T (top_token T path)) as [[help children|]|] eqn:El; try (by exists false, path).
    unfold findChild. pose proof (items_ok_find name children (tw_children _ HT _ _ El)) as Hw.
    destruct (map_find name children) as [t|]; [|by exists false, path].
    destruct (isNull t); [by exists false, path|]. apply IH. apply Forall_app. split; [done|]. by constructor.
Qed.

Lemma ls_loop_total T items : tree_wf T -> items_ok items -> is_Some (ls_loop T items).
Proof.
  intros HT. induction 1 as [|[name t] items Ht _ [rest IH]]; [by eexists|]. cbn in Ht |- *.
  rewrite node_at_look by done. opt. cbn beta. rewrite IH. by eexists.
Qed.

Lemma find_loop_names T names path path' : names = map fst path' -> Forall name_ok names -> tree_wf T ->
  chain T (path ++ path') -> find_loop T names path = Some (true, path ++ path').
Proof.
  intros -> Hn HT. revert path. induction path' as [|[name t] path' IH]; intros path H; cbn; [by rewrite app_nil_r|].
  cbn in Hn. apply Forall_cons in Hn as [(Hs & Hne & Hd & Hdd) Hn].
  rewrite !bool_decide_false by done. cbn [orb].
  destruct (H path name t path' eq_refl) as (help & children & Hl & Hf & Hnull).
  assert (chain T path) as Hp by (by apply chain_prefix in H).
  rewrite node_at_look by (done || by apply top_token_wf). opt. cbn beta. rewrite Hl. unfold findChild. rewrite Hf, Hnull.
  replace (path ++ (name, t) :: path') with ((path ++ [(name, t)]) ++ path') in * by (by rewrite <- app_assoc).
  by apply IH.
Qed.

Lemma pwd_join path : pwd_loop path = Join (map fst path) (str "/").
Proof.
  induction path as [|[name t] path IH]; [done|]. destruct path as [|x path]; [cbn; by rewrite app_nil_r|].
  change (pwd_loop ((name, t) :: x :: path)) with (name ++ str "/" ++ pwd_loop (x :: path)). rewrite IH. done.
Qed.

(** *** The tree grows when a node is mounted *)

Definition grows T T' : Prop := root_token_ T' = root_token_ T /\ forall t help children,
  look T t = Some (Dir help children) -> exists children', look T' t = Some (Dir help children') /\
    forall k x, map_find k children = Some x -> map_find k children' = Some x.

Lemma chain_grows T T' path : grows T T' -> chain T path -> chain T' path.
Proof.
  intros [Hr Hg] H pre name t post E. destruct (H pre name t post E) as (help & children & Hl & Hf & Hn).
  destruct (Hg _ _ _ Hl) as (children' & Hl' & Hf'). exists help, children'.
  replace (top_token T' pre) with (top_token T pre) by (unfold top_token; by rewrite Hr). eauto.
Qed.

Lemma find_loop_grows T T' names path path' : tree_wf T -> tree_wf T' -> grows T T' -> chain T path ->
  find_loop T names path = Some (true, path') -> find_loop T' names path = Some (true, path').
Proof.
  intros HT HT' Hg. revert path. induction names as [|name names IH]; intros path H E; [done|]. cbn in E |- *.
  destruct (bool_decide _ || _); [by apply IH|]. destruct (bool_decide _).
  - destruct path as [|x path _] using rev_ind; [done|].
    assert (removelast (path ++ [x]) = path) as Erm by apply removelast_last. rewrite Erm in *.
    assert (find_loop T names path = Some (true, path')) as E' by (by destruct path).
    apply IH in E'; [|by apply chain_prefix in H]. rewrite <- E'. by destruct path.
  - rewrite node_at_look in E by (done || by apply top_token_wf).
    rewrite node_at_look by first [done|apply top_token_wf; [done|by apply (chain_grows T)]].
    replace (top_token T' path) with (top_token T path) by (unfold top_token; by rewrite (proj1 Hg)).
    rewrite some_bind in E |- *. cbn beta in E |- *.
    destruct (look T (top_token T path)) as [[help children|]|] eqn:El; [|done..].
    destruct (proj2 Hg _ _ _ El) as (children' & -> & Hf). unfold findChild in E |- *.
    destruct (map_find name children) as [t|] eqn:Ef; [|done]. rewrite (Hf _ _ Ef).
    destruct (isNull t) eqn:En; [done|]. apply IH; [|done]. apply chain_snoc; [done|]. by exists help, children.
Qed.

Lemma map_find_insert k t l k' : map_find k l = None ->
  map_find k' (map_insert k t l) = if decide (k' = k) then Some t else map_find k' l.
Proof.
  induction l as [|[k0 t0] l IH]; cbn; [done|].
  intros Hk. destruct (lex_lt k k0); cbn; [done|]. destruct (decide (k = k0)) as [|Hne]; [done|]. rewrite IH by done.
  destruct (decide (k' = k0)) as [->|]; [by rewrite decide_False|done].
Qed.

Lemma mount_grows T T' parent child name : tree_wf T -> tok_wf parent -> tok_wf child ->
  mountNode parent child name T = Some (T', true) -> tree_wf T' /\ grows T T' /\
  exists help children, look T' parent = Some (Dir help children) /\ map_find name children = Some child.
Proof.
  intros HT Hp Hc E. destruct (mountNode_ok T parent child name HT Hp Hc) as (T1 & ok & E1 & HT1 & Hr & _ & H1).
  rewrite E in E1. injection E1 as <- <-. destruct H1 as (help & children & Hl & _ & _ & Hf & Hl').
  split; [done|]. split.
  - split; [done|]. intros t help' children' Ht. rewrite Hl'. case_decide as Hd; [|by exists children'].
    subst t. rewrite Hl in Ht. injection Ht as <- <-. exists (map_insert name child children). split; [done|].
    intros k x Hk. rewrite map_find_insert by done. case_decide; [subst; congruence|done].
  - exists help, (map_insert name child children). rewrite Hl', decide_True by done. split; [done|].
    by rewrite map_find_insert, decide_True.
Qed.

(** Every text is pieces between slashes. *)
Lemma join_pieces (c : Z) (s : chars) : exists v, v <> [] /\ Forall (fun x => c ∉ x) v /\ s = Join v [c].
Proof.
  induction s as [|a s (v & Hv & Hc & ->)].
  - exists [[]]. split_and!; [done| |done]. constructor; [by intros ?%not_elem_of_nil|done].
  - destruct v as [|x v]; [done|]. destruct (decide (a = c)) as [->|Hne].
    + exists ([] :: x :: v). split_and!; [done| |done]. constructor; [by intros ?%not_elem_of_nil|done].
    + exists ((a :: x) :: v). split_and!; [done| |done]. apply Forall_cons in Hc as [Hx Hc]. constructor; [|done].
      intros [E|?]%elem_of_cons; [by apply Hne|done].
Qed.

Lemma join_snoc v c name : v <> [] -> Join (v ++ [name]) [c] = Join v [c] ++ [c] ++ name.
Proof.
  induction v as [|x [|y v] IH]; intros H; [done|cbn; by rewrite !app_nil_r|].
  change (Join ((x :: y :: v) ++ [name]) [c]) with (x ++ [c] ++ Join ((y :: v) ++ [name]) [c]).
  rewrite IH by done. change (Join (x :: y :: v) [c]) with (x ++ [c] ++ Join (y :: v) [c]). by rewrite <- !app_assoc.
Qed.

Lemma split_slash (s : chars) : size s < npos -> exists v, Split s (str "/") = Some v /\ v <> [] /\
  Forall (fun x => 47 ∉ x) v /\ s = Join v [47].
Proof.
  intros Hn. destruct (join_pieces 47 s) as (v & Hv & Hc & ->). exists v. split; [|done]. by apply split_join_parts.
Qed.

(** [findNode] in terms of the names of the path. *)
Definition find_names T (names : list chars) path : option (bool * Path) :=
  match names with [] => None | [] :: names => find_loop T names [] | names => find_loop T names path end.

Lemma find_names_path T s path : findNodePath T s path = v ← Split s (str "/"); find_names T v path.
Proof. unfold findNodePath. destruct (Split s (str "/")) as [[|[|c name] names]|]; done. Qed.

Lemma findNodePath_ok T s path : tree_wf T -> size s < npos -> chain T path -> exists found path',
  findNodePath T s path = Some (found, path') /\ chain T path'.
Proof.
  intros HT Hn H. destruct (split_slash s Hn) as (v & E & Hv & _ & _). rewrite find_names_path, E. opt. cbn beta.
  assert (chain T []) as H0 by (intros [] ? ? ?; discriminate).
  destruct v as [|[|c name] names]; [done|by apply find_loop_ok|by apply find_loop_ok].
Qed.

Lemma findNodePath_total T s path : tree_wf T -> size s < npos -> items_ok path -> exists found path',
  findNodePath T s path = Some (found, path') /\ items_ok path'.
Proof.
  intros HT Hn H. destruct (split_slash s Hn) as (v & E & Hv & _ & _). rewrite find_names_path, E. opt. cbn beta.
  destruct v as [|[|c name] names]; [done| |by apply find_loop_total]. apply find_loop_total; [done|constructor].
Qed.

(** C22: What the command [tree] does, whatever nodes are mounted where, in cycles too, and
    whichever of them were deleted.  Of a directory that is not empty it always reads a
    vector that has been destroyed, at the end of the first level that it finishes, which
    has no result by the standard.  Where that read finds the vector empty, as an
    implementation does that leaves the pointers of a destroyed vector as they are, it
    ends and prints the recursive drawing of the directory: every node below it on its
    line, in the order of the names and with the indentation of its level, deleted nodes
    marked, and a directory that is the root or already above marked and not drawn again. *)
Theorem tree_draws T (children : Children) : tree_wf T -> items_ok children ->
  (exists text, render T (not_above T []) [] [] children = Some text /\
    eventually (fun fuel => tree_text true fuel T children = Some (Some text))) /\
  (children <> [] -> eventually (fun fuel => tree_text false fuel T children = Some None)).
Proof. intros HT Hi. split; [by apply tree_text_ok|]. by apply tree_text_dead. Qed.

(** What [pwd] prints names the place: wherever one is, going to the path that was
    printed leads back to the same nodes, as long as they stay mounted under names
    that a path can have. *)
Theorem pwd_finds_back T path from : tree_wf T -> chain T path -> Forall name_ok (map fst path) ->
  size (pwd_text path) < npos -> findNodePath T (pwd_text path) from = Some (true, path).
Proof.
  intros HT Hc Hn Hs. rewrite find_names_path. unfold pwd_text in *. rewrite pwd_join in *.
  destruct path as [|item path]; [done|]. set (names := map fst (item :: path)) in *.
  assert (str "/" ++ Join names (str "/") = Join ([] :: names) [47]) as E by done.
  rewrite E in *. change (str "/") with [47]. rewrite split_join_parts; [|done| |done].
  - opt. cbn beta. unfold find_names. by rewrite (find_loop_names T names [] (item :: path)).
  - constructor; [by intros ?%not_elem_of_nil|]. eapply Forall_impl; [exact Hn|]. by intros k (? & _).
Qed.

(** A node that was mounted is found: when a path leads to a directory and a node
    is mounted there under a name that a path can have, the path and the name
    lead to that node, and the tree stays well formed. *)
Theorem mounted_is_found T T' (p name : chars) path parent child :
  tree_wf T -> tok_wf child -> isNull child = false -> name_ok name -> size (p ++ str "/" ++ name) < npos ->
  findNodePath T p [] = Some (true, path) -> parent = top_token T path ->
  mountNode parent child name T = Some (T', true) ->
  tree_wf T' /\ findNodePath T' (p ++ str "/" ++ name) [] = Some (true, path ++ [(name, child)]).
Proof.
  intros HT Hc Hnull (Hslash & Hne & Hd & Hdd) Hs Hp -> Hm. rewrite !size_app in Hs. pose proof (size_nonneg name).
  assert (chain T []) as H0 by (intros [] ? ? ?; discriminate).
  destruct (split_slash p) as (v & Ev & Hv & Hvs & Hj); [pose proof (size_nonneg (str "/")); lia|].
  destruct (findNodePath_ok T p [] HT ltac:(pose proof (size_nonneg (str "/")); lia) H0) as (found & path' & E & Hch).
  rewrite Hp in E. injection E as <- <-.
  destruct (mount_grows T T' _ child name HT (top_token_wf T path HT Hch) Hc Hm) as (HT' & Hg & help & children & Hl & Hf).
  split; [done|]. rewrite find_names_path, Ev in Hp. rewrite some_bind in Hp. cbn beta in Hp.
  rewrite find_names_path. change (str "/") with [47] in *.
  assert (p ++ [47] ++ name = Join (v ++ [name]) [47]) as Ej by (by rewrite join_snoc, <- Hj).
  rewrite Ej, split_join_parts; [|by destruct v|apply Forall_app; by split; [|constructor]|rewrite <- Ej, !size_app; lia].
  opt. cbn beta.
  assert (find_names T' v [] = Some (true, path)) as Hp'.
  { destruct v as [|[|c n] v]; [done|..]; cbn [find_names] in *; by apply (find_loop_grows T). }
  assert (forall names path0, find_loop T' names path0 = Some (true, path) ->
    find_loop T' (names ++ [name]) path0 = find_loop T' [name] path) as Hloop.
  { induction names as [|n names IH]; intros path0; [by intros [= ->]|]. cbn [find_loop app]. 
    destruct (bool_decide _ || _); [apply IH|]. destruct (bool_decide _); [destruct path0; [done|apply IH]|].
    destruct (node_at T' (top_token T' path0)) as [[[h l|h f]|]|]; [|done..]. opt. cbn beta iota.
    destruct (isNull (findChild n l)); [done|apply IH]. }
  assert (find_loop T' [name] path = Some (true, path ++ [(name, child)])) as Hlast.
  { apply (find_loop_names T' [name] path [(name, child)]); [done|by repeat constructor|done|].
    apply chain_snoc; [by apply (chain_grows T)|]. exists help, children. split_and!; [|done|done].
    replace (top_token T' path) with (top_token T path) by (unfold top_token; by rewrite (proj1 Hg)). done. }
  rewrite <- Hlast. destruct v as [|[|c n] v]; [done|..]; cbn [find_names app] in *; [by apply Hloop|].
  exact (Hloop ((c :: n) :: v) [] Hp').
Qed.

End nodes.

Arguments tree : clear implicits.

(** *** A tree *)

(** Under the root a directory [a] with a function [f] and a directory [d], which has
    [a] again, the root, and a function that was deleted. *)
Definition tok (n : Z) : Token := mkToken n (n - 1).
Definition demo_ops : list tree_op :=
  [CreateDir (str "dir a"); CreateFunc None (str "help of f"); CreateDir []; CreateFunc (Some 7%nat) [];
   Mount (tok 1) (tok 2) (str "a"); Mount (tok 2) (tok 4) (str "d"); Mount (tok 2) (tok 3) (str "f");
   Mount (tok 4) (tok 2) (str "a"); Mount (tok 4) (tok 1) (str "top"); Mount (tok 4) (tok 5) (str "g");
   Mount (tok 1) (tok 3) (str "f"); Mount (tok 1) (tok 3) (str "f"); Mount (tok 3) (tok 3) (str "f"); Mount (tok 1) (tok 3) (str "!f");
   Delete (tok 5)].
Definition demo : option (tree cabinet) := T ← new_tree; tree_run demo_ops T.

Definition lines (l : list string) : chars := concat (map (fun s => str s ++ crlf) l).
Definition demo_text : chars := lines
  ["|-- a"; "|   |-- d"; "|   |   |-- a(R)"; "|   |   |-- g(X)"; "|   |   `-- top(R)"; "|   `-- f"; "`-- f"]%string.

Lemma demo_tree_ok : match demo with Some T => tree_wf T | None => False end.
Proof.
  unfold demo. destruct (new_tree_wf (C:=cabinet)) as (T & -> & HT & Hc). cbn [mbind option_bind].
  destruct (tree_run_wf demo_ops T HT) as (T' & -> & HT').
  - repeat constructor; vm_compute; discriminate.
  - change (Z.of_nat (length demo_ops)) with 15. unfold SIZE_MAX. lia.
  - exact HT'.
Qed.

Lemma tree_draws_witness : match demo with
  | Some T => match look T (root_token_ T) with
              | Some (Dir _ children) => eventually (fun fuel => tree_text true fuel T children = Some (Some demo_text)) /\
                  eventually (fun fuel => tree_text false fuel T children = Some None)
              | _ => False
              end
  | None => False
  end.
Proof.
  pose proof demo_tree_ok as HT. destruct demo as [T|] eqn:E; [|exact HT].
  destruct (look T (root_token_ T)) as [[h children|]|] eqn:El; vm_compute in E; injection E as <-; vm_compute in El;
    [|discriminate El..]. injection El as <- <-.
  match goal with |- eventually (fun fuel => tree_text true fuel ?T ?c = _) /\ _ => destruct (tree_draws T c) as [(text & Er & Ht) Hd] end.
  - exact HT.
  - repeat constructor; vm_compute; discriminate.
  - split; [vm_compute in Er; injection Er as <-; exact Ht|by apply Hd].
Defined.

(** The place of [d], and back to it from a place elsewhere. *)
Lemma pwd_finds_back_witness : match demo with
  | Some T => findNodePath T (str "/a/d") [(str "f", tok 3)] = Some (true, [(str "a", tok 2); (str "d", tok 4)])
  | None => False
  end.
Proof.
  pose proof demo_tree_ok as HT. destruct demo as [T|] eqn:E; [|exact HT]. vm_compute in E. injection E as <-.
  apply (pwd_finds_back _ [(str "a", tok 2); (str "d", tok 4)] [(str "f", tok 3)]).
  - exact HT.
  - apply (chain_snoc _ [(str "a", tok 2)]); [apply (chain_snoc _ [])|].
    + intros [] ? ? ?; discriminate.
    + eexists _, _. split_and!; [vm_compute; reflexivity..].
    + eexists _, _. split_and!; [vm_compute; reflexivity..].
  - repeat constructor; try discriminate; apply (bool_decide_unpack _); vm_compute; exact I.
  - vm_compute. reflexivity.
Defined.

(** The function [f], mounted once more. *)
Lemma mounted_is_found_witness : match demo with
  | Some T => match mountNode (tok 4) (tok 3) (str "h") T with
              | Some (T', ok) => ok = true /\ findNodePath T' (str "a/./f/../d//../d/h") [] =
                  Some (true, [(str "a", tok 2); (str "d", tok 4); (str "h", tok 3)])
              | None => False
              end
  | None => False
  end.
Proof.
  pose proof demo_tree_ok as HT. destruct demo as [T|] eqn:E; [|exact HT]. vm_compute in E. injection E as <-.
  match goal with |- context [mountNode ?p ?c ?n ?T] => destruct (mountNode p c n T) as [[T' ok]|] eqn:Em end;
    [|vm_compute in Em; discriminate Em].
  assert (ok = true) as -> by (vm_compute in Em; by injection Em as _ <-). split; [reflexivity|].
  refine (proj2 (mounted_is_found _ T' (str "a/./f/../d//../d") (str "h") [(str "a", tok 2); (str "d", tok 4)] (tok 4) (tok 3) HT _ _ _ _ _ _ Em)).
  - by split.
  - reflexivity.
  - split_and!; [apply (bool_decide_unpack _); vm_compute; exact I|discriminate..].
  - vm_compute. reflexivity.
  - vm_compute. reflexivity.
  - reflexivity.
Defined.

(** A name with a slash can be mounted, but no path leads to it. *)
Example slash_in_name : match demo with
  | Some T => match mountNode (tok 1) (tok 3) (str "x/y") T with
              | Some (T', ok) => ok = true /\ findNode T' (str "x/y") = Some null_token
              | None => False
              end
  | None => False
  end.
Proof. vm_compute. split; reflexivity. Qed.
