(* ===== verification/Terminal.v ===== *)
(** * The terminal: the line editor and the commands

    Models [modules/terminal/impl/terminal.cpp], [terminal_key_events.cpp] and
    [terminal_commands.cpp]: a session edits a line with the keys that the scanner
    finds ([Keys.v]), keeps a history, and executes lines over the nodes
    ([Nodes.v]).  What a session sends goes to the terminal of a user; a screen that
    shows it is modelled below.  A session context is known by its token. *)
From S2P Require Import Prelude Strings Cabinet Keys Cmdline Nodes.

Notation Path := (list (chars * Token)).

Definition kEnableEcho : Z := 0x01.
Definition kQuietMode : Z := 0x02.
Definition HISTORY_MAX_SIZE : Z := 20.

(** [SessionContext] *)
Record session := mkSession {
  options : Z;
  curr_input : chars;
  cursor : Z;
  path : Path;
  history : list chars;
  history_index : Z;
  key_event_scanner_ : KeyEventScanner;
  window : Z * Z }.

Definition new_session : session := mkSession 0 [] 0 [] [] 0 new_scanner (0, 0).

Definition set_options (o : Z) (s : session) : session :=
  mkSession o (curr_input s) (cursor s) (path s) (history s) (history_index s) (key_event_scanner_ s) (window s).
Definition set_input (i : chars) (c : Z) (s : session) : session :=
  mkSession (options s) i c (path s) (history s) (history_index s) (key_event_scanner_ s) (window s).
Definition set_path (p : Path) (s : session) : session :=
  mkSession (options s) (curr_input s) (cursor s) p (history s) (history_index s) (key_event_scanner_ s) (window s).
Definition set_history (h : list chars) (s : session) : session :=
  mkSession (options s) (curr_input s) (cursor s) (path s) h (history_index s) (key_event_scanner_ s) (window s).
Definition set_index (i : Z) (s : session) : session :=
  mkSession (options s) (curr_input s) (cursor s) (path s) (history s) i (key_event_scanner_ s) (window s).
Definition set_scanner (k : KeyEventScanner) (s : session) : session :=
  mkSession (options s) (curr_input s) (cursor s) (path s) (history s) (history_index s) k (window s).
Definition set_window (w h : Z) (s : session) : session :=
  mkSession (options s) (curr_input s) (cursor s) (path s) (history s) (history_index s) (key_event_scanner_ s) (w, h).

(** What a session does to its surroundings: text to its connection, calls of the
    functions of the user, and the end of the session. *)
Inductive output :=
  | Sent (text : chars)
  | Ran (func : nat) (args : list chars)
  | Ended.

(** What a function of the user does. *)
Inductive call := CSend (text : chars) | CNodes (o : tree_op) | CEnd.

Definition MOVE_LEFT_KEY : chars := [27] ++ str "[D".
Definition MOVE_RIGHT_KEY : chars := [27] ++ str "[C".
Definition BS : Z := 8.
Definition erase_key : chars := [BS; 32; BS].

#[global] Arguments MOVE_LEFT_KEY : simpl never.
#[global] Arguments MOVE_RIGHT_KEY : simpl never.
#[global] Arguments erase_key : simpl never.

(** What [executeTreeCmd] finds in the vector that it reads after it was destroyed. *)
Class Platform := { dead_is_empty : bool }.

Section terminal.

Context {C : Type -> Type} `{HC : TokenStore C} `{PL : Platform}.

(** A session at work: its context, the nodes, whether it has posted its own end to
    the loop, and what it has done. *)
Record work := mkWork {
  ctx : session;
  nodes : tree C;
  posted : nat;
  done_ : list output }.

Definition MW := M work.

Definition change (f : session -> session) : MW () := modify (fun w => mkWork (f (ctx w)) (nodes w) (posted w) (done_ w)).
Definition note (o : output) : MW () := modify (fun w => mkWork (ctx w) (nodes w) (posted w) (done_ w ++ [o])).
Definition send (text : chars) : MW () := note (Sent text).
Definition session_of : MW session := fun w => Ret (ctx w, w).
Definition nodes_of : MW (tree C) := fun w => Ret (nodes w, w).

(** The body of a loop, as often as the loop runs. *)
Fixpoint times (n : nat) (m : MW ()) : MW () := match n with O => mret () | S n' => m;; times n' m end.

Definition echo (s : session) : bool := negb (Z.land (options s) kEnableEcho =? 0).
Definition quiet (s : session) : bool := negb (Z.land (options s) kQuietMode =? 0).

(** ** Keys *)

(** [string(n, '\b')] *)
Definition backs (n : Z) : chars := replicate (Z.to_nat n) BS.

(** [erase(pos, 1)] and [insert(pos, 1, ch)], which throw beyond the end. *)
Definition erase1 (s : chars) (pos : Z) : option chars :=
  if size s <? pos then None else Some (take (Z.to_nat pos) s ++ drop (S (Z.to_nat pos)) s).
Definition insert1 (s : chars) (pos ch : Z) : option chars :=
  if size s <? pos then None else Some (take (Z.to_nat pos) s ++ ch :: drop (Z.to_nat pos) s).

Definition onChar (ch : Z) : MW () :=
  s ← session_of;
  input ← the (if cursor s =? size (curr_input s) then Some (curr_input s ++ [ch]) else insert1 (curr_input s) (cursor s) ch);
  change (set_input input (u64 (cursor s + 1)));;
  s ← session_of;
  when (echo s) (
    send [ch];;
    rest ← the (substr (curr_input s) (cursor s) npos);
    let refresh_str := rest ++ backs (size (curr_input s) - cursor s) in
    when (negb (bool_decide (refresh_str = []))) (send refresh_str)).

Definition onBackspaceKey : MW () :=
  s ← session_of;
  if cursor s =? 0 then mret ()
  else
    input ← the (if cursor s =? size (curr_input s) then Some (removelast (curr_input s)) else erase1 (curr_input s) (cursor s - 1));
    change (set_input input (cursor s - 1));;
    s ← session_of;
    when (echo s) (
      rest ← the (substr (curr_input s) (cursor s) npos);
      send ([BS] ++ rest ++ [32] ++ backs (size (curr_input s) - cursor s + 1))).

Definition onDeleteKey : MW () :=
  s ← session_of;
  if size (curr_input s) <=? cursor s then mret ()
  else
    input ← the (erase1 (curr_input s) (cursor s));
    change (set_input input (cursor s));;
    s ← session_of;
    when (echo s) (
      rest ← the (substr (curr_input s) (cursor s) npos);
      send (rest ++ [32] ++ backs (size (curr_input s) - cursor s + 1))).

Definition onTabKey : MW () := mret ().

Definition set_cursor (c : Z) : MW () := change (fun s => set_input (curr_input s) c s).

(** The loop that ends at the end of the line. *)
Definition to_end : MW () :=
  s ← session_of;
  times (Z.to_nat (size (curr_input s) - cursor s))
    (send MOVE_RIGHT_KEY;; s ← session_of; set_cursor (u64 (cursor s + 1))).

Definition CleanupInput : MW () :=
  to_end;;
  s ← session_of;
  times (Z.to_nat (cursor s)) (s ← session_of; set_cursor (u64 (cursor s - 1));; send erase_key);;
  s ← session_of;
  set_cursor (u64 (cursor s - 1)).

(** [history[history.size() - history_index]] *)
Definition history_at (s : session) : option chars := index (history s) (Z.of_nat (length (history s)) - history_index s).

Definition onMoveUpKey : MW () :=
  s ← session_of;
  if history_index s =? Z.of_nat (length (history s)) then mret ()
  else
    CleanupInput;;
    change (set_index (history_index s + 1));;
    s ← session_of;
    input ← the (history_at s);
    change (set_input input (size input));;
    send input.

Definition onMoveDownKey : MW () :=
  s ← session_of;
  if history_index s =? 0 then mret ()
  else
    CleanupInput;;
    change (set_index (history_index s - 1));;
    s ← session_of;
    (if 0 <? history_index s then
       input ← the (history_at s);
       change (set_input input (size input))
     else change (set_input [] 0));;
    s ← session_of;
    send (curr_input s).

Definition onMoveLeftKey : MW () :=
  s ← session_of;
  if cursor s =? 0 then mret () else set_cursor (cursor s - 1);; send MOVE_LEFT_KEY.

Definition onMoveRightKey : MW () :=
  s ← session_of;
  if size (curr_input s) <=? cursor s then mret () else set_cursor (cursor s + 1);; send MOVE_RIGHT_KEY.

Definition onHomeKey : MW () :=
  s ← session_of;
  times (Z.to_nat (cursor s)) (send MOVE_LEFT_KEY;; s ← session_of; set_cursor (cursor s - 1)).

Definition onEndKey : MW () := to_end.

(** ** Commands *)

Definition printPrompt : MW () := s ← session_of; when (negb (quiet s)) (send (str "# ")).

Definition help_str : chars := lines
  ["This terminal is designed by Hevake Lee <hevake@126.com>, integrated in cpp-tbox.";
   "Repository: https://github.com/cpp-main/cpp-tbox";
   "It provides a way to interact with the program in the form of shell.";
   "";
   "There are some buildin commands:";
   "";
   "- tree      List all nodes as tree";
   "- ls        List nodes under specified path";
   "- cd        Chang directory";
   "- pwd       print current path";
   "- exit|quit Exit this";
   "- help      Print help of specified node";
   "- history   List history command";
   "- !n        Run the n command of history";
   "- !-n       Run the last n command of history";
   "- !!        Run last command";
   ""]%string.

Definition extra_str : chars := lines ["Besides, UP,DOWN,LEFT,RIGHT,HOME,END,DELETE keys are available."; "Try them."; ""]%string.

Definition printHelp : MW () :=
  send help_str;; s ← session_of; when (echo s) (send extra_str).

Definition cannot_access (path_str : chars) : chars := str "Error: cannot access '" ++ path_str ++ str "'." ++ crlf.
Definition been_deleted (path_str : chars) : chars := str "Error: '" ++ path_str ++ str "' node has been deleted." ++ crlf.

Section commands.

(** [user]: what a function does, which may depend on the nodes. *)
Context (fuel : nat) (user : nat -> tree C -> list chars -> list call).

(** [findNode] on a copy of the path of the session; the node at its end. *)
Definition find_node (path_str : chars) : MW (option (Path * option node)) :=
  s ← session_of;
  T ← nodes_of;
  '(is_found, node_path) ← the (findNodePath T path_str (path s));
  if (is_found : bool) then top_node ← the (node_at T (top_token T node_path)); mret (Some (node_path, top_node))
  else mret None.

Definition executeCdCmd (args : list chars) : MW () :=
  let path_str := default (str "/") (args !! 1%nat) in
  r ← find_node path_str;
  match r with
  | Some (_, None) => send (been_deleted path_str)
  | Some (node_path, Some (Dir _ _)) => change (set_path node_path);; send []
  | Some (_, Some (Func _ _)) => send (str "Error: '" ++ path_str ++ str "' not directory." ++ crlf)
  | None => send (cannot_access path_str)
  end.

Definition executeHelpCmd (args : list chars) : MW () :=
  match args !! 1%nat with
  | None => printHelp
  | Some path_str =>
      r ← find_node path_str;
      match r with
      | Some (_, Some n) => send (help n ++ crlf)
      | Some (_, None) => send (been_deleted path_str)
      | None => send (cannot_access path_str)
      end
  end.

Definition executeLsCmd (args : list chars) : MW () :=
  let path_str := default (str ".") (args !! 1%nat) in
  r ← find_node path_str;
  match r with
  | Some (_, None) => send (been_deleted path_str)
  | Some (_, Some (Dir _ children)) =>
      T ← nodes_of;
      items ← the (ls_loop T children);
      send (items ++ crlf)
  | Some (_, Some (Func _ _)) => send (path_str ++ str " is function" ++ str "." ++ crlf)
  | None => send (cannot_access path_str)
  end.

(** [setw(2)] of a number. *)
Definition width2 (n : Z) : chars := (if n <? 10 then [32] else []) ++ to_string n.

Fixpoint history_loop (i : Z) (h : list chars) : chars :=
  match h with [] => [] | cmd :: h' => width2 i ++ str "  " ++ cmd ++ crlf ++ history_loop (i + 1) h' end.

Definition executeHistoryCmd : MW () := s ← session_of; send (history_loop 0 (history s)).

Definition executeExitCmd : MW () :=
  s ← session_of;
  when (negb (quiet s)) (send (str "Bye!" ++ crlf));;
  modify (fun w => mkWork (ctx w) (nodes w) (S (posted w)) (done_ w)).

Definition executeTreeCmd (args : list chars) : MW () :=
  let path_str := default (str ".") (args !! 1%nat) in
  r ← find_node path_str;
  match r with
  | Some (node_path, None) =>
      item ← the (last node_path);
      send (item.1 ++ str " node has been deleted." ++ crlf)
  | Some (_, Some (Dir _ children)) =>
      T ← nodes_of;
      match tree_text dead_is_empty fuel T children with
      | Some (Some ss) => send ss
      | Some None => stuck
      | None => out_of_fuel
      end
  | Some (node_path, Some (Func _ _)) =>
      item ← the (last node_path);
      send (item.1 ++ str " is a function." ++ crlf)
  | None => send (cannot_access path_str)
  end.

Definition executePwdCmd : MW () := s ← session_of; send (pwd_text (path s) ++ crlf).

(** A function of the user; it must not delete the node that holds it. *)
Definition do_call (self : Token) (c : call) : MW () :=
  match c with
  | CSend text => send text
  | CEnd => note Ended
  | CNodes o =>
      if match o with Delete t => bool_decide (t = self) | _ => false end then stuck
      else
        T ← nodes_of;
        T ← the (tree_exec o T);
        modify (fun w => mkWork (ctx w) T (posted w) (done_ w))
  end.

Fixpoint do_calls (self : Token) (l : list call) : MW () :=
  match l with [] => mret () | c :: l' => do_call self c;; do_calls self l' end.

Definition func_execute (self : Token) (func_ : option nat) (args : list chars) : MW () :=
  match func_ with
  | None => mret ()
  | Some f => T ← nodes_of; note (Ran f args);; do_calls self (user f T args)
  end.

Definition executeUserCmd (cmd : chars) (args : list chars) : MW () :=
  r ← find_node cmd;
  match r with
  | Some (_, None) => send (been_deleted cmd)
  | Some (node_path, Some (Func _ func_)) =>
      T ← nodes_of;
      func_execute (top_token T node_path) func_ args;;
      send []
  | Some (node_path, Some (Dir _ _)) => change (set_path node_path);; send []
  | None => send (str "Error: '" ++ cmd ++ str "' not found." ++ crlf)
  end.

(** The digits that [std::stoi] converts; without any it throws [invalid_argument]. *)
Definition stoi_digits (s : chars) : chars :=
  let s := skip_while isspace s in
  take_while isdigit (match s with 45 :: s' | 43 :: s' => s' | _ => s end).

(** [execute_again] is [execute].  [std::out_of_range] of [std::stoi] is not caught,
    and the smallest [int] has no negation. *)
Definition executeRunHistoryCmd (execute_again : MW bool) (cmd : chars) : MW bool :=
  sub_cmd ← the (substr cmd 1 npos);
  s ← session_of;
  let num := Z.of_nat (length (history s)) in
  if bool_decide (sub_cmd = str "!") then
    input ← the (last (history s));
    change (set_input input (cursor s));;
    execute_again
  else
    match stoi_digits sub_cmd with
    | [] => send (str "Error: parse index fail." ++ crlf);; mret false
    | _ =>
        i ← the (stoi sub_cmd);
        found ← (if 0 <=? i then
                   if i <? num then input ← the (index (history s) i); mret (Some input) else mret None
                 else if i =? - 2 ^ 31 then stuck
                 else if - i <=? num then input ← the (index (history s) (num + i)); mret (Some input) else mret None);
        match (found : option chars) with
        | Some input =>
            change (set_input input (cursor s));;
            send (input ++ crlf);;
            execute_again
        | None => send (str "Error: index out of range." ++ crlf);; mret false
        end
    end.

Definition executeCmd (execute_again : MW bool) (cmdline : chars) : MW bool :=
  match cmdline with
  | [] => mret false
  | _ =>
      '(ok, args) ← the (SplitCmdline cmdline);
      match (ok : bool), args with
      | true, cmd :: _ =>
          if bool_decide (cmd = str "ls") then executeLsCmd args;; mret true
          else if bool_decide (cmd = str "pwd") then executePwdCmd;; mret true
          else if bool_decide (cmd = str "cd") then executeCdCmd args;; mret true
          else if bool_decide (cmd = str "help") then executeHelpCmd args;; mret true
          else if bool_decide (cmd = str "history") then executeHistoryCmd;; mret false
          else if bool_decide (cmd = str "exit" \/ cmd = str "quit") then executeExitCmd;; mret true
          else if bool_decide (cmd = str "tree") then executeTreeCmd args;; mret true
          else if bool_decide (head cmd = Some 33) then executeRunHistoryCmd execute_again cmd
          else executeUserCmd cmd args;; mret true
      | _, _ => send (str "Error: parse cmdline fail!" ++ crlf);; mret true
      end
  end.

Fixpoint execute_all (execute_again : MW bool) (cmdlines : list chars) : MW bool :=
  match cmdlines with
  | [] => mret true
  | cmdline :: cmdlines' =>
      ok ← executeCmd execute_again cmdline;
      if (ok : bool) then execute_all execute_again cmdlines' else mret false
  end.

(** [nested] bounds the lines of the history that execute each other. *)
Fixpoint execute (nested : nat) : MW bool :=
  match nested with
  | O => out_of_fuel
  | S nested' =>
      s ← session_of;
      cmdlines ← the (Split (curr_input s) (str ";"));
      execute_all (execute nested') cmdlines
  end.

Definition remember (l : chars) (h : list chars) : list chars :=
  let h := h ++ [l] in if HISTORY_MAX_SIZE <? Z.of_nat (length h) then tail h else h.

Definition onEnterKey : MW () :=
  s ← session_of;
  when (echo s) (send crlf);;
  ok ← execute fuel;
  when ok (
    change (fun s => set_history (remember (curr_input s) (history s)) s));;
  printPrompt;;
  change (set_input [] 0);;
  change (set_index 0).

(** ** Strings from the user *)

Definition on_key (result : Result) (c : Z) : MW () :=
  match result with
  | kPrintable => onChar c
  | kEnter => onEnterKey
  | kBackspace => onBackspaceKey
  | kTab => onTabKey
  | kMoveUp => onMoveUpKey
  | kMoveDown => onMoveDownKey
  | kMoveLeft => onMoveLeftKey
  | kMoveRight => onMoveRightKey
  | kHome => onHomeKey
  | kEnd => onEndKey
  | kDelete => onDeleteKey
  | _ => mret ()
  end.

Fixpoint recv_loop (str : list Z) (status : Status) : MW Status :=
  match str with
  | [] => mret status
  | c :: str' =>
      s ← session_of;
      '(status, scanner) ← the (next c (key_event_scanner_ s));
      change (set_scanner scanner);;
      match status with
      | kEnsure =>
          on_key (result_ scanner) c;;
          change (fun s => set_scanner (start (key_event_scanner_ s)) s);;
          recv_loop str' status
      | _ => recv_loop str' status
      end
  end.

(** The body of [onRecvString], for the session that it found. *)
Definition recv_string (str : list Z) : MW () :=
  change (fun s => set_scanner (start (key_event_scanner_ s)) s);;
  status ← recv_loop str kUnsure;
  match status with
  | kUnsure =>
      s ← session_of;
      let '(status, scanner) := stop (key_event_scanner_ s) in
      change (set_scanner scanner);;
      match status, result_ scanner with
      | kEnsure, kEnter => onEnterKey
      | _, _ => mret ()
      end
  | _ => mret ()
  end.

End commands.

(** ** The terminal *)

(** Sessions by their tokens, the nodes, the sessions whose end was posted to the loop,
    and all that was sent and run, with the session. *)
Record terminal := mkTerminal {
  sessions_ : C session;
  tnodes : tree C;
  ending : list Token;
  outs : list (Token * output);
  welcome_text_ : chars }.

Definition MT := M terminal.

Definition welcome_text : chars := lines
  ["";
   "      .============.      ";
   "     //  M A K E  / \     ";
   "    //  C++ DEV  /   \    ";
   "   //  E A S Y  /  \/ \   ";
   "  ++ ----------.  \/\  .  ";
   "   \\     \     \ /\  /   ";
   "    \\     \     \   /    ";
   "     \\     \     \ /     ";
   "      -============'      ";
   "";
   "Welcome to cpp-tbox terminal."]%string.

(** The constructor of the terminal. *)
Definition new_terminal : option terminal := T ← new_tree; Some (mkTerminal ts_empty T [] [] welcome_text).

Definition setWelcomeText (text : chars) : MT () :=
  modify (fun t => mkTerminal (sessions_ t) (tnodes t) (ending t) (outs t) text).

Definition newSession : MT Token :=
  t ← get;
  '(ss, st) ← the (ts_alloc (sessions_ t) (Some new_session));
  put (mkTerminal ss (tnodes t) (ending t) (outs t) (welcome_text_ t));;
  mret st.

Definition deleteSession (st : Token) : MT bool :=
  t ← get;
  '(ss, s) ← the (ts_free (sessions_ t) st);
  put (mkTerminal ss (tnodes t) (ending t) (outs t) (welcome_text_ t));;
  mret (if s is Some _ then true else false).

(** [auto s = sessions_.at(st);] and the rest of a function that works on it. *)
Definition with_session (st : Token) (m : MW ()) : MT bool :=
  t ← get;
  s ← the (ts_at (sessions_ t) st);
  match s with
  | None => mret false
  | Some s =>
      match m (mkWork s (tnodes t) 0 []) with
      | Ret (_, w) =>
          '(ss, _) ← the (ts_update (sessions_ t) st (Some (ctx w)));
          put (mkTerminal ss (nodes w) (ending t ++ replicate (posted w) st) (outs t ++ map (pair st) (done_ w)) (welcome_text_ t));;
          mret true
      | Stuck => stuck
      | OutOfFuel => out_of_fuel
      end
  end.

Definition getOptions (st : Token) : MT Z :=
  t ← get; s ← the (ts_at (sessions_ t) st); mret (match s with Some s => options s | None => 0 end).

Definition setOptions (st : Token) (o : Z) : MT () := with_session st (change (set_options o));; mret ().

Definition onBegin (st : Token) : MT bool :=
  t ← get;
  with_session st (
    s ← session_of;
    when (negb (quiet s)) (send (welcome_text_ t);; send (str "Type 'help' for more information." ++ crlf ++ crlf));;
    printPrompt).

Definition onExit (st : Token) : MT bool := with_session st (send (str "Bye!")).

Definition onRecvString (fuel : nat) (user : nat -> tree C -> list chars -> list call) (st : Token) (str : list Z) : MT bool :=
  with_session st (recv_string fuel user str).

Definition onRecvWindowSize (st : Token) (w h : Z) : MT bool := with_session st (change (set_window w h)).

(** What [executeExitCmd] posts to the loop uses the session context again. *)
Definition run_ending : MT () :=
  t ← get;
  match ending t with
  | [] => mret ()
  | st :: l =>
      put (mkTerminal (sessions_ t) (tnodes t) l (outs t) (welcome_text_ t));;
      s ← the (ts_at (sessions_ t) st);
      the s;;
      modify (fun t => mkTerminal (sessions_ t) (tnodes t) (ending t) (outs t ++ [(st, Ended)]) (welcome_text_ t));;
      deleteSession st;; mret ()
  end.

(** ** The screen of the user

    A line of cells, the column of the cursor, and how much of an escape sequence was
    read.  Backspace and the left and right keys move the cursor, any other
    character is written into the cell at the cursor. *)
Record screen := mkScreen { mode : nat; cell : Z -> Z; col : Z }.

Definition shift_col (d : Z) (scr : screen) : screen := mkScreen 0 (cell scr) (col scr + d).

Definition show1 (scr : screen) (c : Z) : screen :=
  match mode scr with
  | O => if c =? 27 then mkScreen 1 (cell scr) (col scr)
         else if c =? BS then shift_col (-1) scr
         else mkScreen 0 (fun i => if i =? col scr then c else cell scr i) (col scr + 1)
  | 1%nat => mkScreen (if c =? 91 then 2 else 0) (cell scr) (col scr)
  | _ => if c =? 68 then shift_col (-1) scr else if c =? 67 then shift_col 1 scr else mkScreen 0 (cell scr) (col scr)
  end.

Definition show (scr : screen) (text : chars) : screen := fold_left show1 text scr.

Definition shown (scr : screen) (o : output) : screen := match o with Sent text => show scr text | _ => scr end.
Definition show_all (scr : screen) (l : list output) : screen := fold_left shown l scr.

(** ** The line editor

    A line with a cursor in it, and which entry of the history it came from. *)
Record line := mkLine { before : chars; after : chars; entry : nat }.

Definition recall (h : list chars) (n : nat) : line :=
  match n with
  | O => mkLine [] [] O
  | S _ => mkLine (default [] (h !! (length h - n)%nat)) [] n
  end.

Definition edit (h : list chars) (k : Result * Z) (l : line) : line :=
  match k.1 with
  | kPrintable => mkLine (before l ++ [k.2]) (after l) (entry l)
  | kBackspace => mkLine (removelast (before l)) (after l) (entry l)
  | kDelete => mkLine (before l) (tail (after l)) (entry l)
  | kMoveLeft => mkLine (removelast (before l)) (option_list (last (before l)) ++ after l) (entry l)
  | kMoveRight => mkLine (before l ++ option_list (head (after l))) (tail (after l)) (entry l)
  | kHome => mkLine [] (before l ++ after l) (entry l)
  | kEnd => mkLine (before l ++ after l) [] (entry l)
  | kMoveUp => if (entry l <? length h)%nat then recall h (S (entry l)) else l
  | kMoveDown => match entry l with O => l | S n => recall h n end
  | _ => l
  end.

Definition edits (h : list chars) (ks : list (Result * Z)) (l : line) : line := fold_left (fun l k => edit h k l) ks l.

(** *** Text in cells *)

(** The text from the first cell on; blanks follow it. *)
Definition text_at (l : chars) (i : Z) : Z := default 32 (index l i).

Definition reads (l : chars) (scr : screen) : Prop := mode scr = O /\ forall i, cell scr i = text_at l i.

Lemma text_app a b i : text_at (a ++ b) i = if i <? size a then text_at a i else text_at b (i - size a).
Proof.
  unfold text_at, index, size. destruct (Z.ltb_spec i 0) as [H0|H0].
  - rewrite (proj2 (Z.ltb_lt _ _)) by lia. done.
  - destruct (Z.ltb_spec i (Z.of_nat (length a))).
    + by rewrite lookup_app_l by lia.
    + rewrite lookup_app_r by lia. rewrite (proj2 (Z.ltb_ge _ _)) by lia. do 3 f_equal. lia.
Qed.

Lemma text_one c i : text_at [c] i = if i =? 0 then c else 32.
Proof.
  unfold text_at, index. destruct (Z.ltb_spec i 0), (Z.eqb_spec i 0); subst; try done; try lia.
  rewrite lookup_ge_None_2; [done|cbn; lia].
Qed.

Lemma text_nil i : text_at [] i = 32.
Proof. unfold text_at, index. by destruct (i <? 0). Qed.

Lemma text_beyond l i : i < 0 \/ size l <= i -> text_at l i = 32.
Proof.
  unfold text_at, index, size. intros H. destruct (Z.ltb_spec i 0); [done|]. by rewrite lookup_ge_None_2 by lia.
Qed.

Lemma reads_space l scr : reads (l ++ [32]) scr -> reads l scr.
Proof.
  intros [Hm H]. split; [done|]. intros i. rewrite H, text_app, text_one. destruct (Z.ltb_spec i (size l)); [done|].
  rewrite text_beyond by lia. by destruct (_ =? 0).
Qed.

Definition plain (c : Z) : Prop := isprint c = true.

Lemma show_app scr a b : show scr (a ++ b) = show (show scr a) b.
Proof. apply fold_left_app. Qed.

(** Writing over what is there. *)
Lemma show_text a t : forall b scr, Forall plain t -> reads (a ++ b) scr -> col scr = size a -> size b <= size t ->
  reads (a ++ t) (show scr t) /\ col (show scr t) = size a + size t.
Proof.
  intros b scr Ht. revert a b scr. induction Ht as [|c t Hc Ht IH]; intros a b scr [Hm Hr] Hcol Hb.
  - destruct b; [|unfold size in Hb; cbn in Hb; lia]. cbn. change (size []) with 0. by rewrite Hcol, Z.add_0_r.
  - unfold show. cbn [fold_left]. fold (show (show1 scr c) t).
    replace (a ++ c :: t) with ((a ++ [c]) ++ t) by (by rewrite <- app_assoc).
    replace (size a + size (c :: t)) with (size (a ++ [c]) + size t) by (rewrite size_app; unfold size; cbn; lia).
    assert (0x20 <= c <= 0x7e) as Hr' by (by apply isprint_range).
    assert (show1 scr c = mkScreen 0 (fun i => if i =? col scr then c else cell scr i) (col scr + 1)) as ->.
    { unfold show1, BS. rewrite Hm, !(proj2 (Z.eqb_neq _ _)) by lia. done. }
    apply (IH _ (tail b)).
    + split; [done|]. intros i. cbn [cell]. rewrite Hr, Hcol, !text_app, size_app, text_one. change (size [c]) with 1.
      destruct (Z.eqb_spec i (size a)) as [->|Hne].
      * rewrite (proj2 (Z.ltb_lt _ _)), (proj2 (Z.ltb_ge _ _)), Z.sub_diag by lia. done.
      * destruct (Z.ltb_spec i (size a)); [by rewrite (proj2 (Z.ltb_lt _ _)) by lia|].
        rewrite (proj2 (Z.ltb_ge i (size a + 1))) by lia.
        destruct b as [|x b]; cbn [tail]; [by rewrite !text_nil|].
        replace (x :: b) with ([x] ++ b) by done. rewrite text_app. change (size [x]) with 1.
        rewrite (proj2 (Z.ltb_ge _ _)) by lia. f_equal. lia.
    + cbn [col]. rewrite size_app. change (size [c]) with 1. lia.
    + destruct b; cbn [tail] in *; unfold size in *; cbn in *; lia.
Qed.

Lemma show_backs a n scr : reads a scr -> reads a (show scr (backs n)) /\ col (show scr (backs n)) = col scr - Z.max 0 n.
Proof.
  unfold backs. intros H. replace (Z.max 0 n) with (Z.of_nat (Z.to_nat n)) by lia.
  generalize (Z.to_nat n). intros m. revert scr H. induction m as [|m IH]; intros scr H; [cbn; split; [done|lia]|].
  cbn [replicate]. unfold show. cbn [fold_left]. fold (show (show1 scr BS) (replicate m BS)).
  assert (show1 scr BS = shift_col (-1) scr) as -> by (unfold show1; by rewrite (proj1 H)).
  destruct (IH (shift_col (-1) scr)) as [H1 H2]; [by destruct H|]. split; [done|]. rewrite H2. cbn. lia.
Qed.

Lemma show_move a d (key : chars) n scr : (d = -1 /\ key = MOVE_LEFT_KEY \/ d = 1 /\ key = MOVE_RIGHT_KEY) -> reads a scr ->
  reads a (show_all scr (replicate n (Sent key))) /\ col (show_all scr (replicate n (Sent key))) = col scr + d * Z.of_nat n.
Proof.
  intros Hd. revert scr. induction n as [|n IH]; intros scr H; [cbn; split; [done|lia]|].
  cbn [replicate]. unfold show_all. cbn [fold_left shown]. fold (show_all (show scr key) (replicate n (Sent key))).
  assert (show scr key = shift_col d scr) as ->.
  { destruct H as [Hm _]. destruct Hd as [[-> ->]|[-> ->]]; unfold show, show1, MOVE_LEFT_KEY, MOVE_RIGHT_KEY; cbn; by rewrite Hm. }
  destruct (IH (shift_col d scr)) as [H1 H2]; [by destruct H|]. split; [done|]. rewrite H2. cbn. lia.
Qed.

(** Erasing from the end. *)
Lemma show_erase a b scr : reads (a ++ b) scr -> col scr = size (a ++ b) ->
  reads a (show_all scr (replicate (length b) (Sent erase_key))) /\
  col (show_all scr (replicate (length b) (Sent erase_key))) = size a.
Proof.
  revert scr. induction b as [|c b IH] using rev_ind; intros scr H Hcol.
  - cbn. rewrite app_nil_r in *. done.
  - rewrite length_app. cbn [length]. rewrite Nat.add_1_r. cbn [replicate]. unfold show_all. cbn [fold_left shown].
    fold (show_all (show scr erase_key) (replicate (length b) (Sent erase_key))).
    rewrite app_assoc in H, Hcol. rewrite size_app in Hcol. change (size [c]) with 1 in Hcol.
    unfold erase_key. change [BS; 32; BS] with ([BS] ++ [32] ++ [BS]). rewrite !show_app.
    change [BS] with (backs 1). destruct (show_backs _ 1 _ H) as [H1 Hc1].
    destruct (show_text (a ++ b) [32] [c] (show scr (backs 1))) as [H2 Hc2]; [by repeat constructor|done|lia|done|].
    apply reads_space in H2. destruct (show_backs _ 1 _ H2) as [H3 Hc3]. apply IH; [done|]. change (size [32]) with 1 in Hc2. lia.
Qed.

(** *** The code edits the line *)

(** A session whose line is [l]. *)
Definition edited (l : line) (s : session) : session :=
  set_index (Z.of_nat (entry l)) (set_input (before l ++ after l) (size (before l)) s).

Definition fits (l : line) : Prop := size (before l ++ after l) + 1 < npos.

(** The screen shows the line after a prompt, and the cursor where it is. *)
Definition shows (prompt : chars) (l : line) (scr : screen) : Prop :=
  reads (prompt ++ before l ++ after l) scr /\ col scr = size (prompt ++ before l).

Ltac go := unfold set_cursor, change, send, note, session_of, nodes_of, modify, the, when, mbind, M_bind; cbn.

Lemma size_fits x : 0 <= x < npos -> u64 x = x.
Proof. unfold SIZE_MAX. intros H. apply wrap_small. unfold in_range. lia. Qed.

Definition worked (w : work) (l : line) (s : session) (o : list output) : work :=
  mkWork (edited l s) (nodes w) (posted w) (done_ w ++ o).

(** [m] turns the line [l] into [l'] and sends [o]. *)
Definition turns (m : MW ()) (l l' : line) (s : session) (o : list output) : Prop :=
  forall T p d, m (mkWork (edited l s) T p d) = Ret ((), mkWork (edited l' s) T p (d ++ o)).

Lemma turns_bind m m' l l1 l2 s o1 o2 : turns m l l1 s o1 -> turns m' l1 l2 s o2 -> turns (m;; m') l l2 s (o1 ++ o2).
Proof. intros H1 H2 T p d. unfold mbind, M_bind. by rewrite H1, H2, <- app_assoc. Qed.

(** A loop whose body changes the session from [P k] to [P (S k)] and sends [o]. *)
Lemma times_steps (m : MW ()) (P : nat -> session) T p o n :
  (forall k d, (k < n)%nat -> m (mkWork (P k) T p d) = Ret ((), mkWork (P (S k)) T p (d ++ [o]))) ->
  forall d, times n m (mkWork (P O) T p d) = Ret ((), mkWork (P n) T p (d ++ replicate n o)).
Proof.
  revert P. induction n as [|n IH]; intros P H d; [cbn; by rewrite app_nil_r|].
  cbn [times replicate]. unfold mbind, M_bind. rewrite H by lia.
  rewrite (IH (fun k => P (S k))) by (intros k d' Hk; apply H; lia). by rewrite <- app_assoc.
Qed.

Lemma size_take (l : chars) k : (k <= length l)%nat -> size (take k l) = Z.of_nat k.
Proof. intros H. unfold size. rewrite length_take. lia. Qed.

Lemma turns_end l s : fits l ->
  turns to_end l (mkLine (before l ++ after l) [] (entry l)) s (replicate (length (after l)) (Sent MOVE_RIGHT_KEY)).
Proof.
  intros Hf T p d. unfold to_end, mbind, M_bind, session_of. cbn -[times].
  replace (Z.to_nat (size (before l ++ after l) - size (before l))) with (length (after l))
    by (rewrite size_app; unfold size; lia).
  destruct l as [b a n]. unfold fits in Hf. cbn [before after entry] in *.
  set (P := fun k => edited (mkLine (b ++ take k a) (drop k a) n) s).
  assert (edited (mkLine b a n) s = P O) as -> by (unfold P; by rewrite take_0, drop_0, app_nil_r).
  rewrite (times_steps _ P _ _ (Sent MOVE_RIGHT_KEY)).
  - unfold P. by rewrite firstn_all, drop_all.
  - intros k d' Hk. go. unfold P, edited, set_input. cbn. rewrite size_app in Hf.
    assert (size a = Z.of_nat (length a)) as Ha by done. pose proof (size_nonneg b).
    rewrite <- !app_assoc, !take_drop, !size_app, !size_take by lia. rewrite size_fits by lia.
    by replace (size b + Z.of_nat k + 1) with (size b + Z.of_nat (S k)) by lia.
Qed.

Lemma turns_home l s : turns onHomeKey l (mkLine [] (before l ++ after l) (entry l)) s
  (replicate (length (before l)) (Sent MOVE_LEFT_KEY)).
Proof.
  intros T p d. unfold onHomeKey, mbind, M_bind, session_of. cbn -[times].
  replace (Z.to_nat (size (before l))) with (length (before l)) by (unfold size; lia).
  destruct l as [b a n]. cbn [before after entry].
  set (P := fun k => edited (mkLine (take (length b - k) b) (drop (length b - k) b ++ a) n) s).
  assert (edited (mkLine b a n) s = P O) as -> by (unfold P; by rewrite Nat.sub_0_r, firstn_all, drop_all).
  rewrite (times_steps _ P _ _ (Sent MOVE_LEFT_KEY)).
  - unfold P. by rewrite Nat.sub_diag.
  - intros k d' Hk. go. unfold P, edited, set_input. cbn.
    rewrite !app_assoc, !take_drop, !size_take by lia.
    by replace (Z.of_nat (length b - k) - 1) with (Z.of_nat (length b - S k)) by lia.
Qed.

(** [CleanupInput] leaves a cursor that is not in the line; the callers set it. *)
Lemma cleanup_turns l s T p d : fits l -> exists s',
  CleanupInput (mkWork (edited l s) T p d) =
    Ret ((), mkWork s' T p (d ++ replicate (length (after l)) (Sent MOVE_RIGHT_KEY) ++ replicate (length (before l ++ after l)) (Sent erase_key))) /\
  forall i c, set_input i c s' = set_input i c (edited l s).
Proof.
  intros Hf. unfold CleanupInput. unfold mbind at 1, M_bind at 1. rewrite turns_end by done.
  unfold mbind, M_bind, session_of. cbn -[times].
  replace (Z.to_nat (size (before l ++ after l))) with (length (before l ++ after l)) by (unfold size; lia).
  set (n := length (before l ++ after l)). unfold fits in Hf. assert (size (before l ++ after l) = Z.of_nat n) as Hn by done.
  set (P := fun k => set_input (before l ++ after l) (Z.of_nat (n - k)) (edited l s)).
  assert (edited (mkLine (before l ++ after l) [] (entry l)) s = P O) as ->.
  { unfold P, edited, set_input. cbn. rewrite app_nil_r, Nat.sub_0_r. by rewrite Hn. }
  rewrite (times_steps _ P _ _ (Sent erase_key)).
  - eexists. split; [unfold set_cursor, change, modify; cbn; by rewrite <- app_assoc|]. done.
  - intros k d' Hk. go. unfold P, edited, set_input. cbn. rewrite size_fits by lia.
    by replace (Z.of_nat (n - k) - 1) with (Z.of_nat (n - S k)) by lia.
Qed.

(** *** One key *)

(** The key turns one line into the other, and the screen follows. *)
Definition follows (m : MW ()) (l l' : line) (s : session) : Prop := exists o,
  turns m l l' s o /\ forall prompt scr, shows prompt l scr -> shows prompt l' (show_all scr o).

Definition plain_line (l : line) : Prop := Forall plain (before l) /\ Forall plain (after l).

Lemma follows_none m l s : (forall T p d, m (mkWork (edited l s) T p d) = Ret ((), mkWork (edited l s) T p d)) -> follows m l l s.
Proof. intros H. exists []. split; [|done]. intros T p d. by rewrite app_nil_r. Qed.

Lemma show_all_app scr a b : show_all scr (a ++ b) = show_all (show_all scr a) b.
Proof. apply fold_left_app. Qed.

Lemma substr_after (b a : chars) : size (b ++ a) < npos -> substr (b ++ a) (size b) npos = Some a.
Proof. intros H. apply substr_rest. rewrite size_app in H. pose proof (size_nonneg b). lia. Qed.

Lemma take_size (b : chars) : Z.to_nat (size b) = length b.
Proof. unfold size. lia. Qed.

(** The text after the cursor is written again, perhaps with a blank after it. *)
Lemma show_rest prompt b x a blank scr : Forall plain a -> reads ((prompt ++ b) ++ x) scr -> col scr = size (prompt ++ b) ->
  size x <= size a + Z.of_nat blank -> (blank <= 1)%nat ->
  let scr' := show scr (a ++ replicate blank 32 ++ backs (size a + Z.of_nat blank)) in
  reads (prompt ++ b ++ a) scr' /\ col scr' = size (prompt ++ b).
Proof.
  intros Ha Hr Hcol Hx Hb. cbn zeta. rewrite (app_assoc a), show_app.
  assert (size (replicate blank 32) = Z.of_nat blank) as Hbl by (unfold size; by rewrite length_replicate).
  destruct (show_text (prompt ++ b) (a ++ replicate blank 32) x scr) as [H1 H2]; [|done|done| |].
  - apply Forall_app. split; [done|]. apply Forall_forall. intros c Hc%elem_of_replicate. by destruct Hc as [-> _].
  - rewrite size_app. lia.
  - destruct (show_backs _ (size a + Z.of_nat blank) _ H1) as [H3 H4]. pose proof (size_nonneg a).
    rewrite (size_app a) in H2. split; [|lia].
    rewrite <- app_assoc in H3. destruct blank as [|[|?]]; [cbn in H3 |- *; by rewrite app_nil_r in H3 |- *| |lia].
    apply reads_space. by rewrite <- !app_assoc.
Qed.

Lemma follows_char c l s : fits l -> echo s = true -> plain c -> Forall plain (after l) ->
  follows (onChar c) l (mkLine (before l ++ [c]) (after l) (entry l)) s.
Proof.
  intros Hf He Hc Ha. destruct l as [b a n]. unfold fits in Hf. cbn [before after entry] in *.
  assert (size (b ++ [c]) = size b + 1) as Hb1 by (by rewrite size_app). rewrite size_app in Hf.
  pose proof (size_nonneg b). pose proof (size_nonneg a).
  exists ([Sent [c]] ++ (if decide (a = []) then [] else [Sent (a ++ backs (size a))])). split.
  - intros T p d. unfold onChar. go.
    assert ((if size b =? size (b ++ a) then Some ((b ++ a) ++ [c]) else insert1 (b ++ a) (size b) c) = Some ((b ++ [c]) ++ a)) as ->.
    { rewrite size_app. destruct (Z.eqb_spec (size b) (size b + size a)) as [E|E].
      - assert (a = []) as -> by (destruct a; [done|unfold size in E; cbn in E; lia]). by rewrite !app_nil_r.
      - unfold insert1. rewrite size_app, (proj2 (Z.ltb_ge _ _)) by lia.
        by rewrite take_size, take_app_length, drop_app_length, <- app_assoc. }
    cbn. unfold echo in He |- *. cbn in He |- *. rewrite He. cbn. rewrite size_fits, <- Hb1, substr_after by (rewrite ?size_app; change (size [c]) with 1; lia).
    cbn. rewrite size_app. replace (size (b ++ [c]) + size a - size (b ++ [c])) with (size a) by lia.
    destruct (decide (a = [])) as [->|Hne].
    + done.
    + rewrite bool_decide_false by (intros E; apply Hne; by destruct a). cbn. by rewrite <- (app_assoc d).
  - intros prompt scr [Hr Hcol]. cbn [before after] in *. rewrite app_assoc in Hr.
    assert (show_all scr ([Sent [c]] ++ (if decide (a = []) then [] else [Sent (a ++ backs (size a))])) =
      show scr ((c :: a) ++ backs (size a))) as ->.
    { change (c :: a) with ([c] ++ a). rewrite <- app_assoc, show_app. case_decide as Hd; [by rewrite Hd|]. done. }
    rewrite show_app. destruct (show_text (prompt ++ b) (c :: a) a scr) as [H1 H2]; [by constructor|done|done|unfold size; cbn; lia|].
    destruct (show_backs _ (size a) _ H1) as [H3 H4]. unfold shows. cbn [before after]. rewrite <- !app_assoc in *. cbn [app] in *.
    split; [done|]. rewrite H4, H2, !size_app. unfold size. cbn. lia.
Qed.

Lemma last_split (b : chars) : b <> [] -> exists b' x, b = b' ++ [x].
Proof. intros H. destruct b as [|x b' _] using rev_ind; [done|]. by exists b', x. Qed.

Lemma follows_backspace l s : fits l -> echo s = true -> Forall plain (after l) ->
  follows onBackspaceKey l (mkLine (removelast (before l)) (after l) (entry l)) s.
Proof.
  intros Hf He Ha. destruct l as [b a n]. unfold fits in Hf. cbn [before after entry] in *.
  destruct (decide (b = [])) as [->|Hb]; [by apply follows_none|]. destruct (last_split b Hb) as (b' & x & ->).
  assert (removelast (b' ++ [x]) = b') as -> by apply removelast_last.
  assert (size (b' ++ [x]) = size b' + 1) as Hb1 by (by rewrite size_app). rewrite size_app in Hf.
  pose proof (size_nonneg b'). pose proof (size_nonneg a).
  exists [Sent ([BS] ++ a ++ [32] ++ backs (size a + 1))]. split.
  - intros T p d. unfold onBackspaceKey. go. rewrite Hb1, (proj2 (Z.eqb_neq _ _)) by lia.
    assert ((if size b' + 1 =? size ((b' ++ [x]) ++ a) then Some (removelast ((b' ++ [x]) ++ a)) else
      erase1 ((b' ++ [x]) ++ a) (size b' + 1 - 1)) = Some (b' ++ a)) as ->.
    { rewrite size_app, Hb1. destruct (Z.eqb_spec (size b' + 1) (size b' + 1 + size a)) as [E|E].
      - assert (a = []) as -> by (destruct a; [done|unfold size in E; cbn in E; lia]). rewrite !app_nil_r. f_equal. apply removelast_last.
      - unfold erase1. rewrite size_app, (proj2 (Z.ltb_ge _ _)) by lia. rewrite Z.add_simpl_r, take_size, <- app_assoc.
        rewrite take_app_length. f_equal. f_equal. rewrite app_assoc. apply drop_app_length'. rewrite length_app. cbn. lia. }
    cbn. unfold echo in He |- *. cbn in He |- *. rewrite He. cbn. rewrite Z.add_simpl_r, substr_after by (rewrite size_app; lia).
    cbn. rewrite size_app. replace (size b' + size a - size b' + 1) with (size a + 1) by lia. done.
  - intros prompt scr [Hr Hcol]. cbn [before after] in *. rewrite <- app_assoc in Hr. cbn [app] in Hr. rewrite app_assoc in Hr.
    unfold show_all. cbn [fold_left shown]. rewrite show_app. change [BS] with (backs 1).
    destruct (show_backs _ 1 _ Hr) as [H1 H2]. rewrite app_assoc, size_app in Hcol. change (size [x]) with 1 in Hcol.
    apply (show_rest prompt b' (x :: a) a 1); [done|done|lia|unfold size; cbn; lia|lia].
Qed.

Lemma follows_delete l s : fits l -> echo s = true -> Forall plain (after l) ->
  follows onDeleteKey l (mkLine (before l) (tail (after l)) (entry l)) s.
Proof.
  intros Hf He Ha. destruct l as [b a n]. unfold fits in Hf. cbn [before after entry] in *.
  pose proof (size_nonneg b). rewrite size_app in Hf. destruct a as [|x a]; cbn [tail].
  - exists []. split; [|done]. intros T p d. unfold onDeleteKey. go. rewrite size_app, (proj2 (Z.leb_le _ _)) by (change (size []) with 0; lia).
    by rewrite !app_nil_r.
  - apply Forall_cons in Ha as [_ Ha]. assert (size (x :: a) = size a + 1) as Hx by (unfold size; cbn; lia).
    pose proof (size_nonneg a). exists [Sent (a ++ [32] ++ backs (size a + 1))]. split.
    + intros T p d. unfold onDeleteKey. go. rewrite size_app, (proj2 (Z.leb_gt _ _)) by lia.
      assert (erase1 (b ++ x :: a) (size b) = Some (b ++ a)) as ->.
      { unfold erase1. rewrite size_app, (proj2 (Z.ltb_ge _ _)) by lia. rewrite take_size, take_app_length.
        f_equal. f_equal. change (x :: a) with ([x] ++ a). rewrite app_assoc. apply drop_app_length'. rewrite length_app. cbn. lia. }
      cbn. unfold echo in He |- *. cbn in He |- *. rewrite He. cbn. rewrite substr_after by (rewrite size_app; lia).
      cbn. rewrite size_app. replace (size b + size a - size b + 1) with (size a + 1) by lia. done.
    + intros prompt scr [Hr Hcol]. cbn [before after] in *. rewrite app_assoc in Hr.
      unfold show_all. cbn [fold_left shown].
      apply (show_rest prompt b (x :: a) a 1); [done|done|done|unfold size; cbn; lia|lia].
Qed.

Lemma follows_left l s : fits l ->
  follows onMoveLeftKey l (mkLine (removelast (before l)) (option_list (last (before l)) ++ after l) (entry l)) s.
Proof.
  intros Hf. destruct l as [b a n]. cbn [before after entry] in *.
  destruct (decide (b = [])) as [->|Hb]; [by apply follows_none|]. destruct (last_split b Hb) as (b' & x & ->).
  assert (removelast (b' ++ [x]) = b') as -> by apply removelast_last. rewrite last_snoc. cbn [option_list app].
  assert (size (b' ++ [x]) = size b' + 1) as Hb1 by (by rewrite size_app). pose proof (size_nonneg b').
  exists (replicate 1 (Sent MOVE_LEFT_KEY)). split.
  - intros T p d. unfold onMoveLeftKey. go. rewrite Hb1, (proj2 (Z.eqb_neq _ _)) by lia. cbn.
    rewrite Z.add_simpl_r. unfold edited, set_input. cbn. by rewrite <- app_assoc.
  - intros prompt scr [Hr Hcol]. cbn [before after] in *. rewrite <- app_assoc in Hr.
    destruct (show_move _ (-1) MOVE_LEFT_KEY 1 scr (or_introl (conj eq_refl eq_refl)) Hr) as [H1 H2].
    split; [done|]. rewrite H2, Hcol. cbn [before]. rewrite !size_app. change (size [x]) with 1. lia.
Qed.

Lemma follows_right l s : fits l ->
  follows onMoveRightKey l (mkLine (before l ++ option_list (head (after l))) (tail (after l)) (entry l)) s.
Proof.
  intros Hf. destruct l as [b a n]. unfold fits in Hf. cbn [before after entry] in *. pose proof (size_nonneg b).
  destruct a as [|x a]; cbn [head option_list tail].
  - rewrite app_nil_r. apply follows_none. intros T p d. unfold onMoveRightKey. go.
    by rewrite size_app, (proj2 (Z.leb_le _ _)) by (change (size []) with 0; lia).
  - change (option_list (Some x)) with [x]. assert (size (x :: a) = size a + 1) as Hx by (unfold size; cbn; lia).
    pose proof (size_nonneg a). exists (replicate 1 (Sent MOVE_RIGHT_KEY)). split.
    + intros T p d. unfold onMoveRightKey. go. rewrite size_app, (proj2 (Z.leb_gt _ _)) by lia. cbn.
      unfold edited, set_input. cbn. by rewrite size_app, <- app_assoc.
    + intros prompt scr [Hr Hcol]. cbn [before after] in *.
      destruct (show_move _ 1 MOVE_RIGHT_KEY 1 scr (or_intror (conj eq_refl eq_refl)) Hr) as [H1 H2].
      unfold shows. cbn [before after]. rewrite <- app_assoc. split; [done|].
      rewrite H2, Hcol, !size_app. change (size [x]) with 1. lia.
Qed.

Lemma follows_home l s : follows onHomeKey l (mkLine [] (before l ++ after l) (entry l)) s.
Proof.
  eexists. split; [apply turns_home|]. intros prompt scr [Hr Hcol].
  destruct (show_move _ (-1) MOVE_LEFT_KEY (length (before l)) scr (or_introl (conj eq_refl eq_refl)) Hr) as [H1 H2].
  split; [done|]. rewrite H2, Hcol, !size_app. unfold size. cbn. lia.
Qed.

(** The cursor at the end of the line. *)
Lemma show_end prompt l scr : shows prompt l scr ->
  let scr' := show_all scr (replicate (length (after l)) (Sent MOVE_RIGHT_KEY)) in
  reads (prompt ++ before l ++ after l) scr' /\ col scr' = size (prompt ++ before l ++ after l).
Proof.
  intros [Hr Hcol]. cbn zeta.
  destruct (show_move _ 1 MOVE_RIGHT_KEY (length (after l)) scr (or_intror (conj eq_refl eq_refl)) Hr) as [H1 H2].
  split; [done|]. rewrite H2, Hcol, !size_app. unfold size. lia.
Qed.

Lemma follows_end l s : fits l -> follows onEndKey l (mkLine (before l ++ after l) [] (entry l)) s.
Proof.
  intros Hf. eexists. split; [by apply turns_end|]. intros prompt scr Hr. unfold shows. cbn [before after].
  rewrite app_nil_r. by apply show_end.
Qed.

(** The line is replaced by another text. *)
Lemma show_replaced prompt l input scr : Forall plain input -> shows prompt l scr ->
  let scr' := show_all scr (replicate (length (after l)) (Sent MOVE_RIGHT_KEY) ++
                replicate (length (before l ++ after l)) (Sent erase_key) ++ [Sent input]) in
  reads (prompt ++ input) scr' /\ col scr' = size (prompt ++ input).
Proof.
  intros Hi Hs. cbn zeta. rewrite !show_all_app. destruct (show_end prompt l scr Hs) as [H1 H2].
  destruct (show_erase prompt (before l ++ after l) _ H1 H2) as [H3 H4].
  unfold show_all at 1 3. cbn [fold_left shown]. rewrite size_app.
  apply (show_text prompt input []); [done|by rewrite app_nil_r|done|apply size_nonneg].
Qed.

Lemma recall_plain h n : Forall (Forall plain) h -> Forall plain (before (recall h n)).
Proof.
  intros H. destruct n as [|n]; [constructor|]. cbn. destruct (h !! (length h - S n)%nat) eqn:E; [|constructor].
  rewrite Forall_forall in H. apply H. by apply list_elem_of_lookup_2 in E.
Qed.

Lemma follows_up l s : fits l -> Forall (Forall plain) (history s) -> (entry l <= length (history s))%nat ->
  follows onMoveUpKey l (if (entry l <? length (history s))%nat then recall (history s) (S (entry l)) else l) s.
Proof.
  intros Hf Hp Hn. destruct (Nat.ltb_spec (entry l) (length (history s))) as [Hlt|Hge].
  - pose proof (recall_plain (history s) (S (entry l)) Hp) as Hpl. cbn in Hpl.
    destruct (lookup_lt_is_Some_2 (history s) (length (history s) - S (entry l))) as [input Ei]; [lia|].
    exists (replicate (length (after l)) (Sent MOVE_RIGHT_KEY) ++ replicate (length (before l ++ after l)) (Sent erase_key) ++ [Sent input]).
    split.
    + intros T p d. destruct (cleanup_turns l s T p d Hf) as (s' & E & Hs'). unfold onMoveUpKey. unfold mbind at 1, M_bind at 1.
      unfold session_of at 1. cbn [ctx]. change (history_index (edited l s)) with (Z.of_nat (entry l)).
      change (history (edited l s)) with (history s). rewrite (proj2 (Z.eqb_neq _ _)) by lia.
      unfold mbind at 1, M_bind at 1. rewrite E. go.
      assert (history s' = history s) as Eh by (exact (f_equal history (Hs' [] 0))).
      assert (history_at (set_index (Z.of_nat (entry l) + 1) s') = Some input) as ->.
      { unfold history_at. cbn. rewrite Eh. unfold index. rewrite (proj2 (Z.ltb_ge _ _)) by lia.
        rewrite <- Ei. f_equal. lia. }
      cbn. rewrite Ei. cbn. do 3 f_equal; [|by rewrite <- !app_assoc].
      pose proof (Hs' input (size input)) as Hc. unfold set_input, set_index, edited in *. cbn in *.
      injection Hc as H1 H2 H3 H4 H5 H6. rewrite app_nil_r. rewrite Nat2Z.inj_succ. unfold Z.succ. by rewrite H1, H2, H3, H5, H6.
    + intros prompt scr Hs. unfold shows, recall. cbn [before after]. rewrite Ei in *. cbn [default from_option id] in *.
      rewrite app_nil_r. by apply show_replaced.
  - apply follows_none. intros T p d. unfold onMoveUpKey. go. rewrite (proj2 (Z.eqb_eq _ _)) by lia. done.
Qed.

Lemma follows_down l s : fits l -> Forall (Forall plain) (history s) -> (entry l <= length (history s))%nat ->
  follows onMoveDownKey l (match entry l with O => l | S n => recall (history s) n end) s.
Proof.
  intros Hf Hp Hn. destruct (entry l) as [|n] eqn:En.
  { apply follows_none. intros T p d. unfold onMoveDownKey. go. by rewrite En. }
  exists (replicate (length (after l)) (Sent MOVE_RIGHT_KEY) ++ replicate (length (before l ++ after l)) (Sent erase_key) ++
          [Sent (before (recall (history s) n))]). split.
  - intros T p d. destruct (cleanup_turns l s T p d Hf) as (s' & E & Hs'). unfold onMoveDownKey. unfold mbind at 1, M_bind at 1.
    unfold session_of at 1. cbn [ctx]. change (history_index (edited l s)) with (Z.of_nat (entry l)). rewrite En.
    rewrite (proj2 (Z.eqb_neq _ _)) by lia.
    unfold mbind at 1, M_bind at 1. rewrite E. go. replace (Z.of_nat (S n) - 1) with (Z.of_nat n) by lia.
    assert (history s' = history s) as Eh by (exact (f_equal history (Hs' [] 0))).
    pose proof (fun i c => Hs' i c) as Hc. unfold set_input, set_index, edited in Hc. cbn in Hc.
    destruct n as [|n]; cbn [recall before].
    + change (Z.of_nat 0) with 0. cbn. do 3 f_equal; [|by rewrite <- !app_assoc]. specialize (Hc [] 0). unfold set_input, set_index, edited. cbn.
      injection Hc as H1 H2 H3 H4 H5 H6. by rewrite H1, H2, H3, H5, H6.
    + destruct (lookup_lt_is_Some_2 (history s) (length (history s) - S n)) as [input Ei]; [lia|].
      change (history_index (set_index (Z.of_nat (S n)) s')) with (Z.of_nat (S n)). rewrite (proj2 (Z.ltb_lt _ _)) by lia.
      assert (history_at (set_index (Z.of_nat (S n)) s') = Some input) as ->.
      { unfold history_at. cbn. rewrite Eh. unfold index. rewrite (proj2 (Z.ltb_ge _ _)) by lia.
        rewrite <- Ei. f_equal. lia. }
      cbn. rewrite Ei. cbn. do 3 f_equal; [|by rewrite <- !app_assoc]. specialize (Hc input (size input)).
      unfold set_input, set_index, edited. cbn. rewrite app_nil_r. injection Hc as H1 H2 H3 H4 H5 H6. by rewrite H1, H2, H3, H5, H6.
  - intros prompt scr Hs. pose proof (recall_plain (history s) n Hp) as Hpl.
    assert (after (recall (history s) n) = []) as Ha by (by destruct n). unfold shows. rewrite Ha, app_nil_r.
    by apply show_replaced.
Qed.

(** *** All keys but enter *)

Section editing.

Context (fuel : nat) (user : nat -> tree C -> list chars -> list call).

Lemma key_follows k l s : k.1 <> kEnter -> (k.1 = kPrintable -> plain k.2) -> fits l -> echo s = true ->
  plain_line l -> Forall (Forall plain) (history s) -> (entry l <= length (history s))%nat ->
  follows (on_key fuel user k.1 k.2) l (edit (history s) k l) s.
Proof.
  intros Hne Hp Hf He [Hb Ha] Hh Hn. unfold edit. destruct k as [r c]. cbn [fst snd] in *.
  destruct r; cbn [on_key]; try (by apply follows_none); try done.
  - apply follows_char; auto.
  - by apply follows_backspace.
  - by apply follows_up.
  - by apply follows_down.
  - by apply follows_left.
  - by apply follows_right.
  - by apply follows_home.
  - by apply follows_delete.
  - by apply follows_end.
Qed.

Lemma removelast_plain (b : chars) : Forall plain b -> Forall plain (removelast b).
Proof.
  intros H. destruct (decide (b = [])) as [->|Hne]; [done|]. destruct (last_split b Hne) as (b' & x & ->).
  apply Forall_app in H as [H _]. assert (removelast (b' ++ [x]) = b') as -> by apply removelast_last. done.
Qed.

Lemma last_plain (b : chars) : Forall plain b -> Forall plain (option_list (last b)).
Proof.
  intros H. destruct (decide (b = [])) as [->|Hne]; [constructor|]. destruct (last_split b Hne) as (b' & x & ->).
  apply Forall_app in H as [_ H]. by rewrite last_snoc.
Qed.

Lemma edit_plain h k l : (k.1 = kPrintable -> plain k.2) -> plain_line l -> Forall (Forall plain) h -> plain_line (edit h k l).
Proof.
  intros Hp [Hb Ha] Hh. destruct k as [r c]. cbn [fst snd] in Hp. unfold edit, plain_line. cbn [fst snd].
  assert (forall n, plain_line (recall h n)) as Hr.
  { intros n. split; [by apply recall_plain|]. destruct n; constructor. }
  destruct r; cbn [before after]; try done.
  - split; [|done]. apply Forall_app. split; [done|]. constructor; [auto|done].
  - split; [by apply removelast_plain|done].
  - destruct (_ <? _)%nat; [apply Hr|done].
  - destruct (entry l); [done|apply Hr].
  - split; [by apply removelast_plain|]. apply Forall_app. split; [by apply last_plain|done].
  - destruct (after l) as [|x a]; [by rewrite app_nil_r|]. apply Forall_cons in Ha as [Hx Ha].
    split; [|done]. apply Forall_app. split; [done|]. by constructor.
  - split; [constructor|]. by apply Forall_app.
  - destruct (after l) as [|x a]; [done|]. apply Forall_cons in Ha as [Hx Ha]. done.
  - split; [by apply Forall_app|constructor].
Qed.

Lemma edit_entry h k l : (entry l <= length h)%nat -> (entry (edit h k l) <= length h)%nat.
Proof.
  intros Hn. destruct k as [r c]. unfold edit. cbn [fst snd]. destruct r; cbn [entry]; try done.
  - destruct (Nat.ltb_spec (entry l) (length h)); [cbn; lia|done].
  - destruct (entry l) as [|[|n]] eqn:E; cbn; lia.
Qed.

(** How long a line can get. *)
Definition line_size (l : line) : Z := size (before l ++ after l).

Lemma edit_size h k l B : line_size l <= B -> Forall (fun e => size e <= B) h -> line_size (edit h k l) <= B + 1.
Proof.
  intros Hl Hh. unfold line_size in *. pose proof (size_nonneg (before l ++ after l)).
  assert (forall n, line_size (recall h n) <= B) as Hr.
  { intros [|n]; unfold line_size; cbn; [change (size []) with 0; lia|]. rewrite app_nil_r.
    destruct (h !! _) as [e|] eqn:E; cbn; [|change (size []) with 0; lia].
    rewrite Forall_forall in Hh. apply Hh. by apply list_elem_of_lookup_2 in E. }
  destruct k as [r c], l as [b a n]. unfold edit. cbn [fst snd before after entry] in *. rewrite size_app in *.
  assert (size [] = 0) as H0 by done. assert (forall x : Z, size [x] = 1) as H1 by done.
  destruct r; cbn [before after]; rewrite ?size_app, ?H1, ?H0; try lia.
  - destruct (decide (b = [])) as [->|Hne]; [cbn [removelast]; lia|]. destruct (last_split b Hne) as (b' & x & ->).
    assert (removelast (b' ++ [x]) = b') as -> by apply removelast_last. rewrite size_app, H1 in Hl. lia.
  - specialize (Hr (S n)). unfold line_size in Hr. rewrite size_app in Hr. destruct (_ <? _)%nat; cbn [before after] in *; lia.
  - destruct n as [|n]; cbn [before after]; [lia|]. specialize (Hr n). unfold line_size in Hr. rewrite size_app in Hr. lia.
  - destruct (decide (b = [])) as [->|Hne]; [cbn [removelast last]; change (option_list (None : option Z)) with (@nil Z); lia|].
    destruct (last_split b Hne) as (b' & x & ->). rewrite last_snoc.
    assert (removelast (b' ++ [x]) = b') as -> by apply removelast_last. rewrite size_app, H1 in Hl.
    change (size (option_list (Some x))) with 1. lia.
  - destruct a as [|x a]; cbn [head tail]; [change (size (option_list None)) with 0; lia|].
    change (size (option_list (Some x))) with 1. change (x :: a) with ([x] ++ a) in Hl. rewrite size_app, H1 in Hl. lia.
  - destruct a as [|x a]; cbn [tail]; [lia|]. change (x :: a) with ([x] ++ a) in Hl. rewrite size_app, H1 in Hl. lia.
Qed.

(** *** The scanner in the loop *)

Lemma next_printable b sc sc' : next b sc = Some (kEnsure, sc') -> result_ sc' = kPrintable -> extra_ sc' = b.
Proof.
  unfold next, tilde, ensure, ensure_plus, unsure, Keys.fail. intros H Hr. destruct (step_ sc);
    repeat match type of H with
    | (if ?c then _ else _) = _ => destruct c
    | (_ ← ?o; _) = _ => destruct o; cbn in H
    end; try done; injection H as <-; done.
Qed.

Definition lasts (bs : list Z) : Z := default 0 (last bs).

Lemma recv_step c str status s T p d st sc : next c (key_event_scanner_ s) = Some (st, sc) ->
  recv_loop fuel user (c :: str) status (mkWork s T p d) =
  match st with
  | kEnsure =>
      (on_key fuel user (result_ sc) c;;
       change (fun s => set_scanner (start (key_event_scanner_ s)) s);;
       recv_loop fuel user str kEnsure) (mkWork (set_scanner sc s) T p d)
  | _ => recv_loop fuel user str st (mkWork (set_scanner sc s) T p d)
  end.
Proof.
  intros E. cbn [recv_loop]. unfold mbind at 1, M_bind at 1, session_of at 1. cbn [ctx]. rewrite E. cbn [the]. by destruct st.
Qed.

(** The bytes of one key. *)
Lemma recv_takes str bs : forall l s k status T p d, takes (key_event_scanner_ s) bs k -> exists sc,
  recv_loop fuel user (bs ++ str) status (mkWork (edited l s) T p d) =
  (on_key fuel user k.1 (lasts bs);;
   change (fun s => set_scanner (start (key_event_scanner_ s)) s);;
   recv_loop fuel user str kEnsure) (mkWork (edited l (set_scanner sc s)) T p d) /\
  (k.1 = kPrintable -> lasts bs = k.2).
Proof.
  induction bs as [|b bs IH]; intros l s k status T p d H; [done|]. cbn [takes] in H.
  destruct (next b (key_event_scanner_ s)) as [[st sc]|] eqn:En; [|done].
  pose proof (recv_step b (bs ++ str) status (edited l s) T p d st sc En) as E. cbn [app]. rewrite E.
  change (set_scanner sc (edited l s)) with (edited l (set_scanner sc s)). destruct st; [|destruct H as [-> ->]|done].
  - destruct (IH l (set_scanner sc s) k kUnsure T p d H) as (sc' & E' & Hp). exists sc'.
    assert (lasts (b :: bs) = lasts bs) as -> by (destruct bs; [destruct H|done]). by split.
  - exists sc. split; [done|]. cbn. intros Hpr. symmetry. by apply (next_printable b (key_event_scanner_ s)).
Qed.

(** The keys of a string, one after the other. *)
Lemma recv_keys keys bss B : Forall2 sends keys bss -> forall l s status rest T p d,
  Forall (fun k => k.1 <> kEnter) keys -> echo s = true -> plain_line l -> Forall (Forall plain) (history s) ->
  (entry l <= length (history s))%nat -> line_size l <= B -> Forall (fun e => size e <= B) (history s) ->
  B + Z.of_nat (length keys) + 1 < npos -> key_event_scanner_ s = new_scanner ->
  exists o, recv_loop fuel user (concat bss ++ rest) status (mkWork (edited l s) T p d) =
    recv_loop fuel user rest (match keys with [] => status | _ => kEnsure end)
      (mkWork (edited (edits (history s) keys l) s) T p (d ++ o)) /\
    forall prompt scr, shows prompt l scr -> shows prompt (edits (history s) keys l) (show_all scr o).
Proof.
  intros H. revert B. induction H as [|k bs keys bss Hk Hks IH]; intros B l s status rest T p d Hne He Hpl Hh Hn Hl Hhs HB Hsc.
  - exists []. cbn. by rewrite app_nil_r.
  - apply Forall_cons in Hne as [Hk1 Hne]. cbn [length] in HB.
    pose proof (sends_takes bs k Hk) as Ht. rewrite <- Hsc in Ht. cbn [concat]. rewrite <- app_assoc.
    destruct (recv_takes (concat bss ++ rest) bs l s k status T p d Ht) as (sc & E & Hlast). rewrite E. clear E.
    assert (k.1 = kPrintable -> plain k.2) as Hp by (intros Hpr; by inversion Hk; subst).
    assert (on_key fuel user k.1 (lasts bs) = on_key fuel user k.1 k.2) as ->.
    { destruct k as [r c]. cbn [fst snd] in *. destruct r; try done. by rewrite Hlast. }
    assert (fits l) as Hf by (unfold fits, line_size in *; lia).
    destruct (key_follows k l (set_scanner sc s)) as (o & Et & Hshow); [done..|].
    destruct (IH (B + 1) (edit (history s) k l) s kEnsure rest T p (d ++ o)) as (o' & E' & Hshow'); try done.
    + by apply edit_plain.
    + by apply edit_entry.
    + by apply edit_size.
    + eapply Forall_impl; [exact Hhs|]. intros e Hsz. cbn in *. lia.
    + lia.
    + exists (o ++ o'). split.
      * unfold mbind at 1, M_bind at 1. rewrite Et. unfold mbind, M_bind, change, modify. cbn [ctx nodes posted done_].
        change (history (set_scanner sc s)) with (history s).
        assert (set_scanner (start (key_event_scanner_ (edited (edit (history s) k l) (set_scanner sc s)))) (edited (edit (history s) k l) (set_scanner sc s)) =
          edited (edit (history s) k l) s) as ->.
        { change (start _) with new_scanner. rewrite <- Hsc. by destruct s. }
        rewrite E'. rewrite <- app_assoc. by destruct keys.
      * intros prompt scr Hs. rewrite show_all_app. cbn [edits fold_left]. apply Hshow'. by apply Hshow.
Qed.

Lemma last_key_recv tail ks l s status T p d : last_key tail ks -> Forall (fun k => k.1 <> kEnter) ks ->
  key_event_scanner_ s = new_scanner -> exists sc,
  (status ← recv_loop fuel user tail status;
   match status with
   | kUnsure =>
       s ← session_of;
       let '(status, scanner) := stop (key_event_scanner_ s) in
       change (set_scanner scanner);;
       match status, result_ scanner with kEnsure, kEnter => onEnterKey fuel user | _, _ => mret () end
   | _ => mret ()
   end) (mkWork (edited l s) T p d) = Ret ((), mkWork (edited l (set_scanner sc s)) T p d).
Proof.
  intros Ht Hne Hsc. unfold last_key in Ht. rewrite !elem_of_cons in Ht.
  destruct Ht as [[= -> ->]|[[= -> ->]|[[= -> ->]|[]%not_elem_of_nil]]].
  - unfold mbind at 1, M_bind at 1. cbn. destruct status.
    + unfold mbind, M_bind, session_of. cbn. rewrite Hsc. cbn. by eexists.
    + exists new_scanner. rewrite <- Hsc. by destruct s.
    + exists new_scanner. rewrite <- Hsc. by destruct s.
  - unfold mbind at 1, M_bind at 1. rewrite (recv_step 27 [] status (edited l s) T p d kUnsure (mkScanner kNone 0 k1b)).
    + cbn. unfold mbind, M_bind, session_of. cbn. by eexists.
    + change (key_event_scanner_ (edited l s)) with (key_event_scanner_ s). by rewrite Hsc.
  - apply Forall_cons in Hne as [Hne _]. done.
Qed.

Lemma recv_string_edits keys ks bss tail B l s T p d : Forall2 sends keys bss -> last_key tail ks ->
  Forall (fun k => k.1 <> kEnter) (keys ++ ks) -> echo s = true -> plain_line l -> Forall (Forall plain) (history s) ->
  (entry l <= length (history s))%nat -> line_size l <= B -> Forall (fun e => size e <= B) (history s) ->
  B + Z.of_nat (length keys) + 1 < npos ->
  exists o sc, recv_string fuel user (concat bss ++ tail) (mkWork (edited l s) T p d) =
    Ret ((), mkWork (edited (edits (history s) keys l) (set_scanner sc s)) T p (d ++ o)) /\
    forall prompt scr, shows prompt l scr -> shows prompt (edits (history s) keys l) (show_all scr o).
Proof.
  intros Hk Ht Hne He Hpl Hh Hn Hl Hhs HB. apply Forall_app in Hne as [Hne1 Hne2].
  destruct (recv_keys keys bss B Hk l (set_scanner new_scanner s) kUnsure tail T p d Hne1 He Hpl Hh Hn Hl Hhs HB eq_refl)
    as (o & E & Hshow).
  destruct (last_key_recv tail ks (edits (history s) keys l) (set_scanner new_scanner s)
    (match keys with [] => kUnsure | _ => kEnsure end) T p (d ++ o) Ht Hne2 eq_refl) as (sc & E2).
  exists o, sc. split; [|done]. unfold recv_string. unfold mbind at 1, M_bind at 1, change at 1, modify at 1. cbn [ctx nodes posted done_].
  change (set_scanner (start (key_event_scanner_ (edited l s))) (edited l s)) with (edited l (set_scanner new_scanner s)).
  unfold mbind at 1, M_bind at 1 in E2. unfold mbind at 1, M_bind at 1. rewrite E. exact E2.
Qed.

End editing.

(** ** Lines that are executed *)

(** Commands that end: with enough fuel there is a result, always the same. *)
Definition ends {A} (m : nat -> MW A) (w : work) (Q : A -> work -> Prop) : Prop :=
  exists a w', Q a w' /\ eventually (fun fuel => m fuel w = Ret (a, w')).

Lemma ends_bind {A B} (m : nat -> MW A) (k : nat -> A -> MW B) w Q R :
  ends m w Q -> (forall a w', Q a w' -> ends (fun fuel => k fuel a) w' R) -> ends (fun fuel => m fuel ≫= k fuel) w R.
Proof.
  intros (a & w1 & Hq & H1) Hk. destruct (Hk a w1 Hq) as (b & w2 & Hr & H2). exists b, w2. split; [done|].
  generalize (eventually_and _ _ H1 H2). apply eventually_mono. intros fuel [E1 E2]. unfold mbind, M_bind. by rewrite E1.
Qed.

Lemma ends_ret {A} (m : nat -> MW A) w (Q : A -> work -> Prop) a w' :
  (forall fuel, m fuel w = Ret (a, w')) -> Q a w' -> ends m w Q.
Proof. intros H Hq. exists a, w'. split; [done|]. by apply eventually_all. Qed.

Lemma ends_mono {A} (m : nat -> MW A) w (Q R : A -> work -> Prop) : (forall a w', Q a w' -> R a w') -> ends m w Q -> ends m w R.
Proof. intros H (a & w' & Hq & He). exists a, w'. auto. Qed.

(** A command that runs what a line of the history says. *)
Definition bang (cmdline : chars) : option chars :=
  match SplitCmdline cmdline with
  | Some (true, cmd :: _) => if decide (head cmd = Some 33) then Some (tail cmd) else None
  | _ => None
  end.

Definition pieces (l : chars) : list chars := default [] (Split l (str ";")).

(** A line without such commands. *)
Definition calm (l : chars) : Prop := Forall (fun cmdline => bang cmdline = None) (pieces l).

(** Neither the last line of an empty history is asked for, nor a number that is no
    [int] or the smallest. *)
Definition safe_bang (h : list chars) (cmdline : chars) : Prop :=
  match bang cmdline with
  | None => True
  | Some sub_cmd =>
      if decide (sub_cmd = str "!") then h <> []
      else stoi_digits sub_cmd = [] \/ exists i, stoi sub_cmd = Some i /\ - 2 ^ 31 < i
  end.
Definition safe_line (h : list chars) (l : chars) : Prop := Forall (safe_bang h) (pieces l).

Record inv (w : work) : Prop := {
  w_tree : tree_wf (nodes w);
  w_root : is_dir (nodes w) (root_token_ (nodes w));
  w_path : items_ok (path (ctx w));
  w_history : Forall (fun l => calm l /\ size l < npos) (history (ctx w));
  w_length : Z.of_nat (length (history (ctx w))) <= HISTORY_MAX_SIZE }.

(** What a function may do: it makes no nodes, and deletes neither the root nor a node
    that holds it. *)
Definition call_ok (f : nat) (T : tree C) (c : call) : Prop :=
  match c with
  | CNodes (CreateFunc _ _) | CNodes (CreateDir _) => False
  | CNodes (Delete t) => tok_wf t /\ t <> root_token_ T /\ forall h, look T t <> Some (Func h (Some f))
  | CNodes o => op_ok o
  | _ => True
  end.

Definition user_ok (user : nat -> tree C -> list chars -> list call) : Prop :=
  forall f T args, Forall (call_ok f T) (user f T args).

(** The invariant, and what a command leaves as it is. *)
Definition keeps (w w' : work) : Prop :=
  inv w' /\ history (ctx w') = history (ctx w) /\ curr_input (ctx w') = curr_input (ctx w).

Lemma keeps_refl w : inv w -> keeps w w.
Proof. intros H. by split; [|split]. Qed.

Lemma keeps_trans w1 w2 w3 : keeps w1 w2 -> keeps w2 w3 -> keeps w1 w3.
Proof. intros (_ & H2 & H3) (H4 & H5 & H6). split; [done|]. split; congruence. Qed.

Lemma keeps_sent w o : inv w -> keeps w (mkWork (ctx w) (nodes w) (posted w) (done_ w ++ [o])).
Proof. intros []. split; [by split|done]. Qed.

(** Lines and arguments are no longer than what they come from. *)
Lemma pieces_ok l : size l < npos -> Split l (str ";") = Some (pieces l) /\ Forall (fun x => size x <= size l) (pieces l).
Proof.
  intros Hn. unfold pieces. destruct (join_pieces 59 l) as (v & Hv & Hc & ->).
  change (str ";") with [59]. rewrite split_join_parts by done. split; [done|]. cbn [default from_option id].
  clear. induction v as [|x [|y v] IH]; [constructor| |].
  - constructor; [|constructor]. cbn. by rewrite app_nil_r.
  - change (Join (x :: y :: v) [59]) with (x ++ [59] ++ Join (y :: v) [59]). rewrite !size_app. change (size [59]) with 1.
    pose proof (size_nonneg x). pose proof (size_nonneg (Join (y :: v) [59])). constructor; [lia|].
    eapply Forall_impl; [exact IH|]. intros z Hz. cbn beta in *. lia.
Qed.

Lemma words_size m arg s : Forall (fun a => size a <= size arg + size s) (words m arg s).2.
Proof.
  revert m arg. induction s as [|c s IH]; intros m arg; cbn [words].
  - destruct m; try constructor; [|constructor]. unfold size. cbn. lia.
  - assert (size (c :: s) = 1 + size s) as -> by (unfold size; cbn; lia). pose proof (size_nonneg arg).
    assert (forall B l, Forall (fun a => size a <= size B + size s) l -> size B <= size arg + 1 ->
      Forall (fun a => size a <= size arg + (1 + size s)) l) as Hw.
    { intros B l Hl HB. eapply Forall_impl; [exact Hl|]. intros a Ha. cbn beta in *. lia. }
    assert (size [] = 0) as H0 by done. assert (size [c] = 1) as H1 by done. assert (size (arg ++ [c]) = size arg + 1) as H2 by (by rewrite size_app).
    destruct m as [|q| |q]; [destruct (is_space c), (is_quot c)|destruct (c =? q)|destruct (is_space c)|];
      try (eapply Hw; [apply IH|lia]); cbn [emit snd]; (constructor; [pose proof (size_nonneg s); lia|]; eapply Hw; [apply IH|lia]).
Qed.

Section execution.

Context (user : nat -> tree C -> list chars -> list call).
Hypothesis Huser : user_ok user.
Hypothesis Hdead : dead_is_empty = true.

Lemma send_ends w text : inv w -> ends (fun _ => send text) w (fun _ w' => keeps w w').
Proof. intros Hi. eapply ends_ret; [done|]. by apply keeps_sent. Qed.

Lemma when_ends (f : session -> bool) w text : inv w ->
  ends (fun _ => s ← session_of; when (f s) (send text)) w (fun _ w' => keeps w w').
Proof.
  intros Hi. destruct (f (ctx w)) eqn:E.
  - apply (ends_ret _ _ _ () (mkWork (ctx w) (nodes w) (posted w) (done_ w ++ [Sent text]))); [|by apply keeps_sent].
    intros _. unfold mbind, M_bind, session_of, when. by rewrite E.
  - apply (ends_ret _ _ _ () w); [|by apply keeps_refl]. intros _. unfold mbind, M_bind, session_of, when. by rewrite E.
Qed.

Lemma find_ends w path_str : inv w -> size path_str < npos -> ends (fun _ => find_node path_str) w (fun r w' => w' = w /\
  match r with
  | Some (node_path, n) => items_ok node_path /\ n = look (nodes w) (top_token (nodes w) node_path)
  | None => True
  end).
Proof.
  intros Hi Hs. destruct (findNodePath_total (nodes w) path_str (path (ctx w)) (w_tree _ Hi) Hs (w_path _ Hi)) as (found & p & E & Hp).
  exists (if found then Some (p, look (nodes w) (top_token (nodes w) p)) else None), w. split; [split; [done|by destruct found]|].
  apply eventually_all. intros _. unfold find_node, session_of, nodes_of, mbind, M_bind. cbn -[findNodePath node_at].
  rewrite E. cbn -[node_at].
  destruct found; [|done]. rewrite node_at_look by first [apply Hi|by apply top_token_ok; [apply Hi|]]. done.
Qed.

(** [find_node] and then something that depends on what was found. *)
Lemma with_found w path_str (k : nat -> option (Path * option node) -> MW ()) : inv w -> size path_str < npos ->
  ends (fun fuel => k fuel None) w (fun _ w' => keeps w w') ->
  (forall p, items_ok p -> ends (fun fuel => k fuel (Some (p, look (nodes w) (top_token (nodes w) p)))) w (fun _ w' => keeps w w')) ->
  ends (fun fuel => find_node path_str ≫= k fuel) w (fun _ w' => keeps w w').
Proof.
  intros Hi Hs Hnone Hsome. eapply ends_bind; [by apply find_ends|]. intros [[p n]|] w' [-> H]; [|done].
  destruct H as [Hp ->]. by apply Hsome.
Qed.

Lemma set_path_ends w p : inv w -> items_ok p -> ends (fun _ => change (set_path p);; send []) w (fun _ w' => keeps w w').
Proof.
  intros [] Hp. eapply ends_ret; [done|]. split; [by split|done].
Qed.

Lemma cd_ends w args : inv w -> Forall (fun a => size a < npos) args -> ends (fun _ => executeCdCmd args) w (fun _ w' => keeps w w').
Proof.
  intros Hi Ha. unfold executeCdCmd. assert (size (default (str "/") (args !! 1%nat)) < npos) as Hs.
  { destruct (args !! 1%nat) as [a|] eqn:E; [|by vm_compute]. rewrite Forall_forall in Ha. apply Ha. by apply list_elem_of_lookup_2 in E. }
  apply with_found; [done|done|by apply send_ends|]. intros p Hp.
  destruct (look _ _) as [[h c|h f]|]; [by apply set_path_ends|by apply send_ends..].
Qed.

(** An argument that is there, or what stands for it. *)
Lemma arg_size d i args : Forall (fun a => size a < npos) args -> size d < npos -> size (default d (args !! i)) < npos.
Proof.
  intros Ha Hd. destruct (args !! i) as [a|] eqn:E; [|done]. rewrite Forall_forall in Ha. apply Ha.
  by apply list_elem_of_lookup_2 in E.
Qed.

Lemma help_ends w args : inv w -> Forall (fun a => size a < npos) args -> ends (fun _ => executeHelpCmd args) w (fun _ w' => keeps w w').
Proof.
  intros Hi Ha. unfold executeHelpCmd. destruct (args !! 1%nat) as [a|] eqn:E.
  - pose proof (arg_size [] 1%nat args Ha) as Hs. rewrite E in Hs. specialize (Hs ltac:(by vm_compute)).
    apply with_found; [done|done|by apply send_ends|]. intros p Hp. destruct (look _ _); by apply send_ends.
  - unfold printHelp. eapply ends_bind; [by apply send_ends|]. intros [] w1 H1.
    eapply (ends_mono _ _ (fun _ w' => keeps w1 w')); [intros [] w' H; by apply (keeps_trans _ w1)|]. apply when_ends; apply H1.
Qed.

Lemma ls_ends w args : inv w -> Forall (fun a => size a < npos) args -> ends (fun _ => executeLsCmd args) w (fun _ w' => keeps w w').
Proof.
  intros Hi Ha. unfold executeLsCmd. apply with_found; [done|by apply arg_size|by apply send_ends|].
  intros p Hp. destruct (look _ _) as [[h c|h f]|] eqn:El; [|by apply send_ends..].
  destruct (ls_loop_total (nodes w) c (w_tree _ Hi)) as [items Ei]; [by apply (tw_children _ (w_tree _ Hi) _ _ El)|].
  eapply ends_ret; [|by apply (keeps_sent w (Sent (items ++ crlf)))].
  intros _. unfold mbind, M_bind, nodes_of. cbn -[send]. by rewrite Ei.
Qed.

Lemma tree_ends w args : inv w -> Forall (fun a => size a < npos) args ->
  ends (fun fuel => executeTreeCmd fuel args) w (fun _ w' => keeps w w').
Proof.
  intros Hi Ha. unfold executeTreeCmd. apply with_found; [done|by apply arg_size|by apply send_ends|].
  intros p Hp. destruct (look _ _) as [[h c|h f]|] eqn:El.
  - destruct (tree_text_ok (nodes w) c (w_tree _ Hi)) as (text & _ & He); [by apply (tw_children _ (w_tree _ Hi) _ _ El)|].
    eexists (), _. split; [by apply (keeps_sent w (Sent text))|]. eapply eventually_mono; [|exact He]. intros fuel E.
    unfold mbind, M_bind, nodes_of. cbn -[tree_text]. by rewrite Hdead, E.
  - destruct (last p) as [item|] eqn:Ep.
    + eapply ends_ret; [|by apply (keeps_sent w (Sent (item.1 ++ str " is a function." ++ crlf)))]. done.
    + exfalso. unfold top_token in El. rewrite Ep in El. pose proof (w_root _ Hi) as Hn. unfold is_dir in Hn. by rewrite El in Hn.
  - destruct (last p) as [item|] eqn:Ep.
    + eapply ends_ret; [|by apply (keeps_sent w (Sent (item.1 ++ str " node has been deleted." ++ crlf)))]. done.
    + exfalso. unfold top_token in El. rewrite Ep in El. pose proof (w_root _ Hi) as Hn. unfold is_dir in Hn. by rewrite El in Hn.
Qed.

Lemma pwd_ends w : inv w -> ends (fun _ => executePwdCmd) w (fun _ w' => keeps w w').
Proof. intros Hi. eapply ends_ret; [done|]. by apply keeps_sent. Qed.

Lemma history_ends w : inv w -> ends (fun _ => executeHistoryCmd) w (fun _ w' => keeps w w').
Proof. intros Hi. eapply ends_ret; [done|]. by apply keeps_sent. Qed.

Lemma exit_ends w : inv w -> ends (fun _ => executeExitCmd) w (fun _ w' => keeps w w').
Proof.
  intros Hi. set (bye := if quiet (ctx w) then [] else [Sent (str "Bye!" ++ crlf)]).
  apply (ends_ret _ _ _ () (mkWork (ctx w) (nodes w) (S (posted w)) (done_ w ++ bye))).
  - intros _. unfold executeExitCmd, mbind, M_bind, session_of, when, bye. cbn -[quiet].
    destruct (quiet (ctx w)); cbn; [by rewrite app_nil_r|done].
  - destruct Hi. by split; [split|].
Qed.

(** What a function of the user does. *)
Lemma calls_end self h f T l : look T self = Some (Func h (Some f)) -> Forall (call_ok f T) l -> forall w,
  inv w -> root_token_ (nodes w) = root_token_ T -> ends (fun _ => do_calls self l) w (fun _ w' => keeps w w').
Proof.
  intros Hself Hl. induction Hl as [|c l Hc _ IH]; intros w Hi Hr.
  - apply (ends_ret _ _ _ () w); [done|by apply keeps_refl].
  - apply (ends_bind _ _ _ (fun _ w' => keeps w w' /\ root_token_ (nodes w') = root_token_ T)).
    2: { intros [] w1 [H1 Hr1]. eapply ends_mono; [|by apply IH; [apply H1|]]. intros [] w'. by apply keeps_trans. }
    destruct c as [text|o|]; cbn [do_call].
    + eapply ends_ret; [done|]. split; [by apply keeps_sent|done].
    + assert (op_ok o /\ (match o with CreateFunc _ _ | CreateDir _ => False | _ => True end) /\
        o <> Delete (root_token_ T) /\ (match o with Delete t => bool_decide (t = self) | _ => false end) = false) as (Ho & Hm & Hd & ->).
      { destruct o as [fn hp|hp|t|p c n|p n]; cbn in Hc; try done. destruct Hc as (Ht & Hne & Hf). split_and!; [done|done|congruence|].
        apply bool_decide_false. intros ->. by apply (Hf h). }
      destruct (tree_exec_live o (nodes w) (w_tree _ Hi) Ho Hm) as (T' & E & HT' & Hr' & Hdir).
      apply (ends_ret _ _ _ () (mkWork (ctx w) T' (posted w) (done_ w))).
      * intros _. unfold mbind, M_bind, nodes_of, modify. cbn. by rewrite E.
      * cbn. split; [|congruence]. destruct Hi as [H1 H2 H3 H4 H5]. split; [|done]. split; cbn; try done.
        rewrite Hr'. apply Hdir; [congruence|done].
    + eapply ends_ret; [done|]. split; [by apply keeps_sent|done].
Qed.

Lemma func_ends self h func_ args w : inv w -> look (nodes w) self = Some (Func h func_) ->
  ends (fun _ => func_execute user self func_ args) w (fun _ w' => keeps w w').
Proof.
  intros Hi Hself. destruct func_ as [f|]; cbn [func_execute].
  - set (w1 := mkWork (ctx w) (nodes w) (posted w) (done_ w ++ [Ran f args])). assert (keeps w w1) as H1 by (by apply keeps_sent).
    destruct (calls_end self h f (nodes w) _ Hself (Huser f (nodes w) args) w1) as ([] & w' & H' & E); [apply H1|done|].
    exists (), w'. split; [by apply (keeps_trans _ w1)|]. eapply eventually_mono; [|exact E]. done.
  - apply (ends_ret _ _ _ () w); [done|by apply keeps_refl].
Qed.

(** Two commands in a row. *)
Lemma keeps_then (m m' : nat -> MW ()) w : ends m w (fun _ w' => keeps w w') ->
  (forall w', inv w' -> ends m' w' (fun _ w'' => keeps w' w'')) -> ends (fun fuel => m fuel;; m' fuel) w (fun _ w' => keeps w w').
Proof.
  intros H H'. eapply ends_bind; [exact H|]. intros [] w1 H1. eapply ends_mono; [|by apply H', H1].
  intros [] w2. by apply keeps_trans.
Qed.

Lemma user_ends w cmd args : inv w -> size cmd < npos -> ends (fun _ => executeUserCmd user cmd args) w (fun _ w' => keeps w w').
Proof.
  intros Hi Hs. unfold executeUserCmd. apply with_found; [done|done|by apply send_ends|]. intros p Hp.
  destruct (look _ _) as [[h c|h func_]|] eqn:El; [by apply set_path_ends| |by apply send_ends].
  destruct (func_ends (top_token (nodes w) p) h func_ args w Hi El) as ([] & w1 & H1 & E1).
  destruct (send_ends w1 [] (proj1 H1)) as ([] & w2 & H2 & E2). exists (), w2. split; [by apply (keeps_trans _ w1)|].
  generalize (eventually_and _ _ E1 E2). apply eventually_mono. intros fuel [H3 H4].
  unfold mbind, M_bind, nodes_of. by rewrite H3.
Qed.

Lemma ends_eventually {A} (m m' : nat -> MW A) w (Q : A -> work -> Prop) :
  eventually (fun fuel => m fuel w = m' fuel w) -> ends m' w Q -> ends m w Q.
Proof.
  intros Hm (a & w' & Hq & E). exists a, w'. split; [done|]. generalize (eventually_and _ _ Hm E). apply eventually_mono.
  by intros fuel [-> H].
Qed.

Lemma then_ret (m : nat -> MW ()) (b : bool) w (Q : work -> Prop) : ends m w (fun _ w' => Q w') ->
  ends (fun fuel => m fuel;; mret b) w (fun b' w' => b' = b /\ Q w').
Proof. intros H. eapply ends_bind; [exact H|]. intros [] w' Hw. by eapply ends_ret. Qed.

(** A command line that is empty or not understood does little; any other is a command. *)
Definition is_cmd (cmdline cmd : chars) (args : list chars) : Prop :=
  cmdline <> [] /\ SplitCmdline cmdline = Some (true, cmd :: args) /\ Forall (fun a => size a < npos) (cmd :: args).

Lemma read_cmdline again cmdline w : inv w -> size cmdline < npos ->
  (exists cmd args, is_cmd cmdline cmd args) \/
  bang cmdline = None /\ ends (fun fuel => executeCmd fuel user (again fuel) cmdline) w (fun _ w' => keeps w w').
Proof.
  intros Hi Hs. destruct cmdline as [|c cmdline].
  { right. split; [done|]. apply (ends_ret _ _ _ false w); [done|by apply keeps_refl]. }
  pose proof (SplitCmdline_words _ Hs) as E. pose proof (words_size Gap [] (c :: cmdline)) as Hw.
  destruct (words Gap [] (c :: cmdline)) as [ok args]. cbn [snd] in Hw. change (size []) with 0 in Hw.
  destruct (decide (ok = true /\ args <> [])) as [[-> Hne]|Hno].
  - left. destruct args as [|cmd args]; [done|]. exists cmd, args. split_and!; [done|exact E|].
    eapply Forall_impl; [exact Hw|]. intros a Ha. cbn beta in *. lia.
  - right. unfold bang. rewrite E. split; [by destruct ok, args; try (by destruct Hno)|].
    apply (ends_ret _ _ _ true (mkWork (ctx w) (nodes w) (posted w) (done_ w ++ [Sent (str "Error: parse cmdline fail!" ++ crlf)])));
      [|by apply keeps_sent].
    intros fuel. unfold executeCmd. unfold mbind at 1, M_bind at 1. rewrite E. cbn [the].
    by destruct ok, args; try (by destruct Hno).
Qed.

(** A command that is not one of the history. *)
Lemma cmd_ends again cmdline w : inv w -> size cmdline < npos -> bang cmdline = None ->
  ends (fun fuel => executeCmd fuel user (again fuel) cmdline) w (fun _ w' => keeps w w').
Proof.
  intros Hi Hs Hb. destruct (read_cmdline again cmdline w Hi Hs) as [(cmd & args & Hne & E & Ha)|[_ H]]; [|done].
  assert (head cmd <> Some 33) as Hh.
  { unfold bang in Hb. rewrite E in Hb. by destruct (decide (head cmd = Some 33)). }
  pose proof (proj1 (proj1 (Forall_cons _ _ _) Ha)) as Hcmd.
  assert (forall (m : nat -> MW ()) (b : bool), ends m w (fun _ w' => keeps w w') -> ends (A:=bool) (fun fuel => m fuel;; mret b) w (fun _ w' => keeps w w')) as Hthen.
  { intros m b H. eapply ends_mono; [|by apply then_ret]. by intros b' w' [_ H']. }
  destruct cmdline as [|c cmdline]; [done|]. unfold executeCmd. rewrite E.
  eapply (ends_bind _ _ _ (fun r w' => r = (true, cmd :: args) /\ w' = w)); [by eapply ends_ret|].
  intros ? ? [-> ->]. cbn beta iota.
  destruct (bool_decide (cmd = str "ls")); [by apply Hthen, ls_ends|].
  destruct (bool_decide (cmd = str "pwd")); [by apply Hthen, pwd_ends|].
  destruct (bool_decide (cmd = str "cd")); [by apply Hthen, cd_ends|].
  destruct (bool_decide (cmd = str "help")); [by apply Hthen, help_ends|].
  destruct (bool_decide (cmd = str "history")); [by apply Hthen, history_ends|].
  destruct (bool_decide (_ \/ _)); [by apply Hthen, exit_ends|].
  destruct (bool_decide (cmd = str "tree")); [by apply Hthen, tree_ends|].
  rewrite bool_decide_false by done. by apply Hthen, user_ends.
Qed.

(** Lines one after the other: [P] holds of what came before. *)
Lemma all_ends again (P : list chars -> bool -> work -> Prop) (ok : chars -> Prop) :
  (forall done cmdline w, P done true w -> ok cmdline ->
    ends (fun fuel => executeCmd fuel user (again fuel) cmdline) w (P (done ++ [cmdline]))) ->
  forall lines done w, P done true w -> Forall ok lines ->
    ends (fun fuel => execute_all fuel user (again fuel) lines) w (fun b w' => P (done ++ lines) b w' \/ b = false /\ exists d, P d b w').
Proof.
  intros Hcmd lines. induction lines as [|cmdline lines IH]; intros done w Hp Hok; cbn [execute_all].
  - eapply ends_ret; [by intros|]. left. by rewrite app_nil_r.
  - apply Forall_cons in Hok as [Ho Hok]. eapply ends_bind; [by apply Hcmd|]. intros [] w1 H1.
    + eapply ends_mono; [|by apply IH]. intros b w' H. by rewrite <- app_assoc in H.
    + eapply ends_ret; [by intros|]. right. split; [done|]. by eexists.
Qed.

Definition line_ok (l : chars) : Prop := calm l /\ size l < npos.

(** A line without history commands. *)
Lemma calm_ends (again : nat -> MW bool) w : inv w -> line_ok (curr_input (ctx w)) ->
  ends (fun fuel => s ← session_of; cmdlines ← the (Split (curr_input s) (str ";")); execute_all fuel user (again fuel) cmdlines) w
    (fun _ w' => keeps w w').
Proof.
  intros Hi [Hc Hs]. eapply (ends_bind _ _ _ (fun s w' => s = ctx w /\ w' = w)); [by eapply ends_ret|]. intros ? ? [-> ->].
  destruct (pieces_ok _ Hs) as [-> Hp].
  eapply (ends_bind _ _ _ (fun l w' => l = pieces (curr_input (ctx w)) /\ w' = w)); [by eapply ends_ret|]. intros ? ? [-> ->].
  eapply ends_mono; [|apply (all_ends again (fun _ _ w' => keeps w w') (fun x => size x < npos /\ bang x = None)) with (done := [])].
  - intros b w' [H|(_ & _ & H)]; exact H.
  - intros d cmdline w1 H1 [Hx Hb]. eapply ends_mono; [|by apply cmd_ends; [apply H1|..]]. intros b w2. by apply keeps_trans.
  - by apply keeps_refl.
  - apply Forall_and. split; [|exact Hc]. eapply Forall_impl; [exact Hp|]. intros x Hx. cbn beta in *. lia.
Qed.

(** What any line leaves; when it succeeds, the line is the one that was given, which
    then has no history commands, or one of the history. *)
Definition ran (w : work) (cmdlines : list chars) (b : bool) (w' : work) : Prop :=
  inv w' /\ history (ctx w') = history (ctx w) /\
  (b = true -> Forall (fun x => bang x = None) cmdlines /\ curr_input (ctx w') = curr_input (ctx w) \/
    curr_input (ctx w') ∈ history (ctx w)).

Section again.

Context (again : nat -> MW bool).
Hypothesis Hagain : forall w, inv w -> line_ok (curr_input (ctx w)) -> ends again w (fun _ w' => keeps w w').

(** A line of the history is executed, perhaps after it was sent. *)
Lemma again_ends w input c (o : list output) (cmdlines : list chars) : inv w -> input ∈ history (ctx w) ->
  ends again (mkWork (set_input input c (ctx w)) (nodes w) (posted w) (done_ w ++ o)) (fun b w' => ran w cmdlines b w').
Proof.
  intros Hi Hin. pose proof Hi as [H1 H2 H3 H4 H5]. rewrite Forall_forall in H4. destruct (H4 _ Hin) as [Hc Hs].
  eapply ends_mono; [|apply Hagain].
  - intros b w' (Hi' & Hh & Hcur). split; [done|]. split; [exact Hh|]. intros _. right. rewrite Hcur. exact Hin.
  - split; cbn; try done. by rewrite Forall_forall.
  - by split.
Qed.

Lemma run_history_ends w cmd (cmdlines : list chars) : inv w -> head cmd = Some 33 -> size cmd < npos ->
  (if decide (tail cmd = str "!") then history (ctx w) <> []
   else stoi_digits (tail cmd) = [] \/ exists i, stoi (tail cmd) = Some i /\ - 2 ^ 31 < i) ->
  ends (fun fuel => executeRunHistoryCmd (again fuel) cmd) w (fun b w' => ran w cmdlines b w').
Proof.
  intros Hi Hh Hs Hsafe. destruct cmd as [|c sub]; [done|]. injection Hh as ->. cbn [tail] in Hsafe.
  assert (substr (33 :: sub) 1 npos = Some sub) as Esub.
  { apply (substr_rest [33] sub). change (33 :: sub) with ([33] ++ sub) in Hs. rewrite size_app in Hs. change (size [33]) with 1 in Hs. lia. }
  assert (forall text b, ran w cmdlines false (mkWork (ctx w) (nodes w) (posted w) (done_ w ++ [Sent text])) /\ b = false ->
    ends (fun _ : nat => send text;; mret false) w (fun b w' => ran w cmdlines b w')) as Hfail.
  { intros text b [H _]. by eapply ends_ret. }
  assert (forall text, ends (fun _ : nat => send text;; mret false) w (fun b w' => ran w cmdlines b w')) as Herr.
  { intros text. apply (Hfail text false). split; [|done]. split; [by apply keeps_sent|]. by split. }
  unfold executeRunHistoryCmd. rewrite Esub.
  eapply (ends_bind _ _ _ (fun l w' => l = sub /\ w' = w)); [by eapply ends_ret|]. intros ? ? [-> ->].
  eapply (ends_bind _ _ _ (fun s w' => s = ctx w /\ w' = w)); [by eapply ends_ret|]. intros ? ? [-> ->]. cbn zeta.
  case_decide as Hd.
  - rewrite bool_decide_true by done.
    destruct (last (history (ctx w))) as [input|] eqn:El; [|by rewrite last_None in El].
    pose proof (again_ends w input (cursor (ctx w)) [] cmdlines Hi ltac:(by apply last_Some_elem_of)) as H.
    rewrite app_nil_r in H. exact H.
  - rewrite bool_decide_false by done. destruct (stoi_digits sub) as [|d ds] eqn:Ed; [apply Herr|].
    destruct Hsafe as [|(i & Ei & Hmin)]; [done|]. rewrite Ei.
    eapply (ends_bind _ _ _ (fun l w' => l = i /\ w' = w)); [by eapply ends_ret|]. intros ? ? [-> ->].
    eapply (ends_bind _ _ _ (fun found w' => w' = w /\ forall input, found = Some input -> input ∈ history (ctx w))).
    + rewrite (proj2 (Z.eqb_neq i _)) by lia.
      set (n := Z.of_nat (length (history (ctx w)))) in *.
      assert (forall j, 0 <= j < n -> exists input, index (history (ctx w)) j = Some input /\ input ∈ history (ctx w)) as Hidx.
      { intros j Hj. unfold index. rewrite (proj2 (Z.ltb_ge _ _)) by lia.
        destruct (lookup_lt_is_Some_2 (history (ctx w)) (Z.to_nat j)) as [input E]; [lia|]. exists input. split; [done|].
        by apply list_elem_of_lookup_2 in E. }
      destruct (Z.leb_spec 0 i), (Z.ltb_spec i n), (Z.leb_spec (- i) n);
        try (by eapply ends_ret; [by intros|]; split; [|by intros]).
      all: first [destruct (Hidx i) as (input & -> & Hin); [lia|]|destruct (Hidx (n + i)) as (input & -> & Hin); [lia|]].
      all: eapply ends_ret; [by intros|]; split; [done|]; by intros ? [= <-].
    + intros [input|] ? [-> Hin]; [|apply Herr]. specialize (Hin _ eq_refl).
      exact (again_ends w input (cursor (ctx w)) [Sent (input ++ crlf)] cmdlines Hi Hin).
Qed.

Lemma any_cmd_ends cmdline w : inv w -> size cmdline < npos -> safe_bang (history (ctx w)) cmdline ->
  ends (fun fuel => executeCmd fuel user (again fuel) cmdline) w (fun b w' => ran w [cmdline] b w').
Proof.
  intros Hi Hs Hsafe. destruct (bang cmdline) as [sub|] eqn:Eb.
  2: { eapply ends_mono; [|by apply cmd_ends]. intros b w' (H1 & H2 & H3). split_and!; [done|done|].
       intros _. left. split; [by repeat constructor|done]. }
  destruct (read_cmdline again cmdline w Hi Hs) as [(cmd & args & Hne & E & Ha)|[Hno _]]; [|congruence].
  unfold safe_bang in Hsafe. rewrite Eb in Hsafe. unfold bang in Eb. rewrite E in Eb.
  destruct (decide (head cmd = Some 33)) as [Hh|]; [|done]. injection Eb as <-.
  pose proof (proj1 (proj1 (Forall_cons _ _ _) Ha)) as Hcmd.
  destruct cmdline as [|c cmdline]; [done|]. unfold executeCmd. rewrite E.
  eapply (ends_bind _ _ _ (fun r w' => r = (true, cmd :: args) /\ w' = w)); [by eapply ends_ret|].
  intros ? ? [-> ->]. cbn beta iota.
  assert (forall x, cmd = str x -> head (str x) = Some 33) as Hx by (by intros x <-).
  rewrite !bool_decide_false by (intros Hc; first [by apply Hx in Hc|destruct Hc as [Hc|Hc]; by apply Hx in Hc]).
  rewrite bool_decide_true by done. by apply run_history_ends.
Qed.

(** A line, whatever is in it. *)
Lemma line_ends w : inv w -> size (curr_input (ctx w)) < npos -> safe_line (history (ctx w)) (curr_input (ctx w)) ->
  ends (fun fuel => s ← session_of; cmdlines ← the (Split (curr_input s) (str ";")); execute_all fuel user (again fuel) cmdlines) w
    (fun b w' => ran w (pieces (curr_input (ctx w))) b w').
Proof.
  intros Hi Hs Hsafe. eapply (ends_bind _ _ _ (fun s w' => s = ctx w /\ w' = w)); [by eapply ends_ret|]. intros ? ? [-> ->].
  destruct (pieces_ok _ Hs) as [-> Hp].
  eapply (ends_bind _ _ _ (fun l w' => l = pieces (curr_input (ctx w)) /\ w' = w)); [by eapply ends_ret|]. intros ? ? [-> ->].
  eapply ends_mono; [|apply (all_ends again (ran w) (fun x => size x < npos /\ safe_bang (history (ctx w)) x)) with (done := [])].
  - intros b w' [H|(-> & d & H1 & H2 & _)]; [exact H|by split_and!].
  - intros d cmdline w1 (H1 & H2 & H3) [Hx Hb]. eapply ends_mono; [|apply any_cmd_ends; [done..|by rewrite H2]].
    intros b w2 (H4 & H5 & H6). split_and!; [done|congruence|]. intros Hb2. rewrite H2 in H6. destruct (H6 Hb2) as [[Hn Hc]|Hin]; [|by right].
    rewrite Hc. destruct (H3 eq_refl) as [[Hd Hc']|Hin]; [left|by right]. split; [by apply Forall_app|done].
  - split_and!; [done..|]. intros _. left. by split.
  - apply Forall_and. split; [|exact Hsafe]. eapply Forall_impl; [exact Hp|]. intros x Hx. cbn beta in *. lia.
Qed.

End again.

(** A line of the history is executed from a line, and executes no other. *)
Lemma execute_ends w : inv w -> size (curr_input (ctx w)) < npos -> safe_line (history (ctx w)) (curr_input (ctx w)) ->
  ends (fun fuel => execute fuel user fuel) w (fun b w' => ran w (pieces (curr_input (ctx w))) b w').
Proof.
  intros Hi Hs Hsafe. eapply ends_eventually; [|apply (line_ends (fun fuel => execute fuel user (pred fuel))); try done].
  - exists 1%nat. intros [|fuel] Hf; [lia|done].
  - intros w1 Hi1 Hl1. eapply ends_eventually; [|by apply (calm_ends (fun fuel => execute fuel user (pred (pred fuel))))].
    exists 2%nat. intros [|[|fuel]] Hf; [lia..|done].
Qed.

Lemma remember_inv w (T : tree C) p d s : inv w -> line_ok (curr_input s) -> history s = history (ctx w) -> path s = path (ctx w) ->
  T = nodes w -> inv (mkWork (set_history (remember (curr_input s) (history s)) s) T p d).
Proof.
  intros [H1 H2 H3 H4 H5] Hl Hh Hp ->. assert (Forall line_ok (history s ++ [curr_input s])) as Hall.
  { rewrite Hh. apply Forall_app. split; [exact H4|by constructor]. }
  unfold remember. set (h := history s ++ [curr_input s]) in *.
  assert (Z.of_nat (length h) <= HISTORY_MAX_SIZE + 1) as Hlen.
  { unfold h. rewrite length_app, Hh. cbn [length]. lia. }
  destruct (Z.ltb_spec HISTORY_MAX_SIZE (Z.of_nat (length h))); split; cbn; rewrite ?Hp; try done.
  - destruct h; [done|]. by apply Forall_cons in Hall as [_ Hall].
  - destruct h; cbn in *; lia.
Qed.

End execution.



(** ** A session of the terminal *)

Definition session_at (t : terminal) (st : Token) : option session := mjoin (ts_view (sessions_ t) !! st).

Lemma with_session_ok (t : terminal) st s (m : MW ()) w : ts_wf (sessions_ t) -> tok_wf st -> session_at t st = Some s ->
  m (mkWork s (tnodes t) 0 []) = Ret ((), w) -> exists t', with_session st m t = Ret (true, t') /\
  ts_wf (sessions_ t') /\ (forall st', session_at t' st' = if decide (st' = st) then Some (ctx w) else session_at t st') /\
  tnodes t' = nodes w /\ ending t' = ending t ++ replicate (posted w) st /\ outs t' = outs t ++ map (pair st) (done_ w).
Proof.
  intros Hw Ht Hs Hm. destruct (ts_update_ok (sessions_ t) st (Some (ctx w)) Hw Ht) as (ss & E & Hw' & Hv).
  exists (mkTerminal ss (nodes w) (ending t ++ replicate (posted w) st) (outs t ++ map (pair st) (done_ w)) (welcome_text_ t)).
  split; [|split; [exact Hw'|split_and!; [|done..]]].
  - unfold with_session, mbind, M_bind, get. rewrite ts_at_ok by done. unfold session_at in Hs. rewrite Hs. cbn [the].
    unfold mret, M_ret. rewrite Hm, E. reflexivity.
  - intros st'. unfold session_at. cbn [sessions_]. rewrite Hv. unfold session_at in Hs.
    destruct (ts_view (sessions_ t) !! st) eqn:Ev; [|done].
    case_decide as Hd; [subst; by rewrite lookup_insert_eq|by rewrite lookup_insert_ne].
Qed.

(** C1: The screen shows the line: when a session with echo gets the bytes of any keys but
    enter, in one string, its line is the one that a plain editor with a cursor and a
    history makes of these keys, whatever the line, the cursor and the history
    were; and a screen that showed the line behind a prompt, with its cursor, shows
    the new line with its cursor once it has shown what was sent, nothing left of
    what was there before.  Nothing else in the terminal changes. *)
Theorem screen_shows_input fuel user (t : terminal) st s l keys ks bss tail B :
  ts_wf (sessions_ t) -> tok_wf st -> session_at t st = Some (edited l s) ->
  Forall2 sends keys bss -> last_key tail ks -> Forall (fun k => k.1 <> kEnter) (keys ++ ks) ->
  echo s = true -> plain_line l -> Forall (Forall plain) (history s) -> (entry l <= length (history s))%nat ->
  line_size l <= B -> Forall (fun e => size e <= B) (history s) -> B + Z.of_nat (length keys) + 1 < npos ->
  exists t' o sc, onRecvString fuel user st (concat bss ++ tail) t = Ret (true, t') /\
    ts_wf (sessions_ t') /\ (forall st', session_at t' st' =
      if decide (st' = st) then Some (edited (edits (history s) keys l) (set_scanner sc s)) else session_at t st') /\
    tnodes t' = tnodes t /\ ending t' = ending t /\ outs t' = outs t ++ map (pair st) o /\
    forall prompt scr, shows prompt l scr -> shows prompt (edits (history s) keys l) (show_all scr o).
Proof.
  intros Hw Ht Hs Hk Hl Hne He Hpl Hh Hn Hls Hhs HB.
  destruct (recv_string_edits fuel user keys ks bss tail B l s (tnodes t) 0 [] Hk Hl Hne He Hpl Hh Hn Hls Hhs HB)
    as (o & sc & E & Hshow).
  destruct (with_session_ok t st _ _ _ Hw Ht Hs E) as (t' & E' & Hw' & Hs' & Hn' & He' & Ho').
  exists t', o, sc. cbn in He'. rewrite app_nil_r in He'. by split_and!.
Qed.

End terminal.

Arguments terminal : clear implicits.
Arguments work : clear implicits.

(** *** A terminal at work *)

(** A platform on which a destroyed vector still has its pointers. *)
#[local] Instance pointers_stay : Platform := {| dead_is_empty := true |}.

(** A terminal over the nodes of [Nodes.v], with one session. *)
Definition no_user (f : nat) (T : tree cabinet) (args : list chars) : list call := [].

Definition run_session (l : list (Token -> M (terminal cabinet) ())) : option (outcome (Token * terminal cabinet)) :=
  T ← demo;
  Some ((st ← newSession; foldr (fun m k => m st;; k) (mret ()) l;; mret st)
    (mkTerminal (ts_empty : cabinet session) T [] [] [])).

Definition typed (s : list Z) (st : Token) : M (terminal cabinet) () := onRecvString 30 no_user st s;; mret ().
Definition with_options (o : Z) (st : Token) : M (terminal cabinet) () := setOptions st o.

(** What is to be seen of a session. *)
Definition seen (r : option (outcome (Token * terminal cabinet))) : option (chars * Z * list chars * list output) :=
  match r with
  | Some (Ret (st, t)) =>
      match session_at t st with
      | Some s => Some (curr_input s, cursor s, history s, map snd (outs t))
      | None => None
      end
  | _ => None
  end.

Definition LEFT : list Z := [27; 91; 68].
Definition UP : list Z := [27; 91; 65].
Definition CR : list Z := [13; 10].

(** Typing, the left key and backspace; then enter, and the line again from the history. *)
Example editing : seen (run_session [with_options 3; typed (str "lx" ++ LEFT ++ str "s" ++ [27; 91; 51; 126])]) =
  Some (str "ls", 2, [], map (fun x => Sent x)
    [str "l"; str "x"; MOVE_LEFT_KEY; str "s"; str "x" ++ [BS]; [32; BS]]).
Proof. vm_compute. reflexivity. Qed.

Example executing : seen (run_session [with_options 2; typed (str "cd /a;ls" ++ CR); typed (str "!0" ++ CR ++ UP)]) =
  Some (str "cd /a;ls", 8, [str "cd /a;ls"; str "cd /a;ls"], map (fun x => Sent x)
    [[]; lines ["- d/"; "- f"; ""]%string; lines ["cd /a;ls"]%string; []; lines ["- d/"; "- f"; ""]%string; str "cd /a;ls"]).
Proof. vm_compute. reflexivity. Qed.

(** The last line of an empty history is asked for with [history.back()]. *)
Example last_of_nothing : match run_session [typed (str "!!" ++ CR)] with Some Stuck => True | _ => False end.
Proof. vm_compute. exact I. Qed.

(** [std::out_of_range] of [std::stoi] is not caught. *)
Example index_too_large : match run_session [typed (str "!99999999999" ++ CR)] with Some Stuck => True | _ => False end.
Proof. vm_compute. exact I. Qed.

(** A session that ends twice: what was posted the second time uses the context that
    was deleted the first time. *)
Example exit_twice : match run_session [typed (str "exit;exit" ++ CR); fun _ => run_ending] with
  | Some (Ret (st, t)) => session_at t st = None /\ run_ending t = Stuck
  | _ => False
  end.
Proof. vm_compute. split; reflexivity. Qed.

(** Enter in two strings is two enters: the second executes an empty line. *)
Example enter_in_two : seen (run_session [typed (str "pwd" ++ [13]); typed [10]]) =
  Some ([], 0, [str "pwd"], map (fun x => Sent x) [lines ["/"]%string; str "# "; str "# "]).
Proof. vm_compute. reflexivity. Qed.

(** By the standard, [tree] of a directory with nodes has no result: it reads a vector that
    was destroyed. *)
Example tree_reads_dead_vector : match demo with
  | Some T => executeTreeCmd (PL := {| dead_is_empty := false |}) 30 [str "tree"; str "/"] (mkWork new_session T 0 []) = Stuck
  | None => False
  end.
Proof. vm_compute. reflexivity. Qed.

(** The user of the library deleted the root: [tree] takes the back of an empty path. *)
Example tree_without_root : match run_session
    [fun _ => modify (fun t => mkTerminal (sessions_ t) (default (tnodes t) (tree_exec (Delete (tok 1)) (tnodes t)))
        (ending t) (outs t) (welcome_text_ t)); typed (str "tree" ++ CR)] with Some Stuck => True | _ => False end.
Proof. vm_compute. exact I. Qed.

Definition demo_line (input : chars) : session := edited (mkLine input [] 0) (set_history [str "ls /a"; str "pwd"] (set_options 3 new_session)).

(** An x before the end of a line, and an escape key. *)
Lemma screen_shows_input_witness :
  match ts_alloc (ts_empty : cabinet session) (Some (demo_line (str "ls"))), demo with
  | Some (ss, st), Some T => exists t' o, onRecvString 0 no_user st (LEFT ++ str "x" ++ [27]) (mkTerminal ss T [] [] []) = Ret (true, t') /\
      option_map (fun s => (curr_input s, cursor s)) (session_at t' st) = Some (str "lxs", 2) /\ outs t' = map (pair st) o /\
      forall prompt scr, shows prompt (mkLine (str "ls") [] 0) scr -> shows prompt (mkLine (str "lx") (str "s") 0) (show_all scr o)
  | _, _ => False
  end.
Proof.
  destruct (ts_alloc_ok (ts_empty : cabinet session) (Some (demo_line (str "ls")))) as (ss & st & -> & Hw & Ht & _ & _ & Hv & _);
    [apply ts_empty_ok|vm_compute; reflexivity|]. pose proof demo_tree_ok as HT. destruct demo as [T|]; [|exact HT].
  set (t := mkTerminal ss T [] [] []).
  destruct (screen_shows_input 0 no_user t st (set_history [str "ls /a"; str "pwd"] (set_options 3 new_session)) (mkLine (str "ls") [] 0)
    [(kMoveLeft, 0); (kPrintable, 120)] [(kESC, 0)] [LEFT; [120]] [27] 10) as (t' & o & sc & E & _ & Hs & _ & _ & Ho & Hshow).
  - exact Hw.
  - exact Ht.
  - unfold session_at, t. cbn [sessions_]. rewrite Hv, lookup_insert_eq. reflexivity.
  - repeat constructor.
  - unfold last_key. right; left.
  - repeat constructor; discriminate.
  - reflexivity.
  - split; repeat constructor.
  - repeat constructor.
  - cbn. lia.
  - vm_compute. discriminate.
  - repeat constructor; vm_compute; discriminate.
  - vm_compute. reflexivity.
  - exists t', o. split; [exact E|]. rewrite Hs, decide_True by reflexivity. split; [reflexivity|]. split; [exact Ho|exact Hshow].
Defined.

