(* ===== verification/Coroutine.v ===== *)
(** * Coroutines

    Models [modules/coroutine]: the scheduler ([scheduler.cpp]) and the primitives over
    it, [mutex.hpp], [semaphore.hpp], [channel.hpp], [condition.hpp] and
    [broadcast.hpp].  The code of a routine is whatever it does: an execution is a
    sequence of events, each a call of the routine that runs, its return, a call of
    the main routine, or a turn of the loop.  A routine that was switched away within
    a call keeps the point in that call where it goes on ([swapcontext]). *)
From stdpp Require Import functions gmap.
From S2P Require Import Prelude Cabinet.

Inductive State := kSuspend | kReady | kRunning | kDead.

#[global] Instance State_eq_dec : EqDecision State.
Proof. solve_decision. Defined.

(** Where a routine goes on when it is switched to: it was not started, it is in its
    own code, or after [sch_.wait()] in a call. *)
Inductive point :=
  | Fresh
  | Own
  | AtWait
  | AtYield
  | AtJoin
  | AtLock (m : nat)
  | AtAcquire (s : nat)
  | AtRecv (c : nat)
  | AtCond (c : nat)
  | AtBroadcast (b : nat).

Record Routine := mkRoutine {
  token : Token;
  state : State;
  is_started : bool;
  is_canceled : bool;
  join_token : Token;
  at_ : point }.

Definition set_state (x : State) (r : Routine) : Routine := mkRoutine (token r) x (is_started r) (is_canceled r) (join_token r) (at_ r).
Definition set_started (r : Routine) : Routine := mkRoutine (token r) (state r) true (is_canceled r) (join_token r) (at_ r).
Definition set_canceled (r : Routine) : Routine := mkRoutine (token r) (state r) (is_started r) true (join_token r) (at_ r).
Definition set_join (t : Token) (r : Routine) : Routine := mkRoutine (token r) (state r) (is_started r) (is_canceled r) t (at_ r).
Definition set_at (p : point) (r : Routine) : Routine := mkRoutine (token r) (state r) (is_started r) (is_canceled r) (join_token r) p.

Record Mutex := mkMutex { hold_token_ : Token; wait_tokens_ : list Token }.
Record Semaphore := mkSemaphore { count_ : Z; sem_tokens : list Token }.
Record Channel := mkChannel { queue_ : list Z; chan_tokens : list Token }.
Inductive Logic := kAll | kAny.
Record Condition := mkCondition { logic_ : Logic; conds_ : gset Z; wait_token_ : Token }.

(** What has happened, for the theorems. *)
Inductive fact :=
  | Locked (m : nat) (t : Token)
  | Unlocked (m : nat) (t : Token)
  | Sent (c : nat) (v : Z)
  | Received (c : nat) (t : Token) (v : Z)
  | Acquired (s : nat)
  | Released (s : nat).

#[global] Instance fact_eq_dec : EqDecision fact.
Proof. solve_decision. Defined.

(** What the main routine does: anything, or the loop of [schedule()] after the routine
    that runs, or the loop of [cleanup()]. *)
Inductive main_point := InMain | InSchedule (tmp : list Token) | InCleanup (rest : list Token).

(** What a call answers. *)
Inductive reply := Bool (b : bool) | Tok (t : Token).

Inductive call :=
  | Create (run_now : bool)
  | Resume (t : Token)
  | Cancel (t : Token)
  | Wait
  | Yield
  | Join (t : Token)
  | Lock (m : nat)
  | Unlock (m : nat)
  | Acquire (s : nat)
  | Release (s : nat)
  | Send (c : nat) (v : Z)
  | Recv (c : nat)
  | CondAdd (c : nat) (v : Z)
  | CondWait (c : nat)
  | CondPost (c : nat) (v : Z)
  | BroadcastWait (b : nat)
  | BroadcastPost (b : nat).

Inductive event :=
  | Main (o : call)     (* the main routine calls *)
  | Turn                (* the loop runs what was posted first *)
  | Cleanup             (* the main routine calls [cleanup()] *)
  | Call (o : call)     (* the routine that runs calls *)
  | Return.             (* its entry returns *)

Section coroutine.

Context {C : Type -> Type} `{HC : TokenStore C}.

(** [Scheduler::Data], the objects over it, and what has happened.  [posted] counts
    the tasks [schedule()] in the loop. *)
Record world := mkWorld {
  routine_cabinet : C Routine;
  curr_routine : option Token;
  ready_routines : list Token;
  posted : nat;
  main_at : main_point;
  mutexes : nat -> Mutex;
  semaphores : nat -> Semaphore;
  channels : nat -> Channel;
  conditions : nat -> Condition;
  broadcasts : nat -> list Token;
  hist : list fact }.

Definition MW := M world.

Definition set_cabinet (x : C Routine) (w : world) : world := mkWorld x (curr_routine w) (ready_routines w) (posted w) (main_at w) (mutexes w) (semaphores w) (channels w) (conditions w) (broadcasts w) (hist w).
Definition set_curr (x : option Token) (w : world) : world := mkWorld (routine_cabinet w) x (ready_routines w) (posted w) (main_at w) (mutexes w) (semaphores w) (channels w) (conditions w) (broadcasts w) (hist w).
Definition set_ready (x : list Token) (n : nat) (w : world) : world := mkWorld (routine_cabinet w) (curr_routine w) x n (main_at w) (mutexes w) (semaphores w) (channels w) (conditions w) (broadcasts w) (hist w).
Definition set_main (x : main_point) (w : world) : world := mkWorld (routine_cabinet w) (curr_routine w) (ready_routines w) (posted w) x (mutexes w) (semaphores w) (channels w) (conditions w) (broadcasts w) (hist w).
Definition set_mutex (m : nat) (x : Mutex) (w : world) : world := mkWorld (routine_cabinet w) (curr_routine w) (ready_routines w) (posted w) (main_at w) (<[m := x]> (mutexes w)) (semaphores w) (channels w) (conditions w) (broadcasts w) (hist w).
Definition set_semaphore (s : nat) (x : Semaphore) (w : world) : world := mkWorld (routine_cabinet w) (curr_routine w) (ready_routines w) (posted w) (main_at w) (mutexes w) (<[s := x]> (semaphores w)) (channels w) (conditions w) (broadcasts w) (hist w).
Definition set_channel (c : nat) (x : Channel) (w : world) : world := mkWorld (routine_cabinet w) (curr_routine w) (ready_routines w) (posted w) (main_at w) (mutexes w) (semaphores w) (<[c := x]> (channels w)) (conditions w) (broadcasts w) (hist w).
Definition set_condition (c : nat) (x : Condition) (w : world) : world := mkWorld (routine_cabinet w) (curr_routine w) (ready_routines w) (posted w) (main_at w) (mutexes w) (semaphores w) (channels w) (<[c := x]> (conditions w)) (broadcasts w) (hist w).
Definition set_broadcast (b : nat) (x : list Token) (w : world) : world := mkWorld (routine_cabinet w) (curr_routine w) (ready_routines w) (posted w) (main_at w) (mutexes w) (semaphores w) (channels w) (conditions w) (<[b := x]> (broadcasts w)) (hist w).
Definition add_hist (f : fact) (w : world) : world := mkWorld (routine_cabinet w) (curr_routine w) (ready_routines w) (posted w) (main_at w) (mutexes w) (semaphores w) (channels w) (conditions w) (broadcasts w) (hist w ++ [f]).

Definition note (f : fact) : MW () := modify (add_hist f).

(** ** The scheduler *)

(** [routine_cabinet.at(token)] *)
Definition routine_at (t : Token) : MW (option Routine) := w ← get; the (ts_at (routine_cabinet w) t).

(** A [Routine*], and what is written through it. *)
Definition the_routine (t : Token) : MW Routine := r ← routine_at t; the r.
Definition put_routine (t : Token) (r : Routine) : MW () :=
  w ← get;
  '(s, _) ← the (ts_update (routine_cabinet w) t (Some r));
  put (set_cabinet s w).
Definition change (t : Token) (f : Routine -> Routine) : MW () := r ← the_routine t; put_routine t (f r).

Definition free_routine (t : Token) : MW () :=
  w ← get;
  '(s, _) ← the (ts_free (routine_cabinet w) t);
  put (set_cabinet s w).

(** [d_->curr_routine], after [TBOX_ASSERT(!isInMainRoutine())]. *)
Definition current : MW Token := w ← get; the (curr_routine w).

Definition makeRoutineReady (t : Token) : MW bool :=
  r ← the_routine t;
  match state r with
  | kReady | kDead => mret false
  | _ =>
      change t (set_state kReady);;
      modify (fun w => set_ready (ready_routines w ++ [token r]) (S (posted w)) w);;
      mret true
  end.

Definition create (run_now : bool) : MW Token :=
  w ← get;
  '(s, t) ← the (ts_alloc (routine_cabinet w) (Some (mkRoutine token_null kSuspend false false token_null Fresh)));
  put (set_cabinet s w);;
  change t (fun r => mkRoutine t (state r) (is_started r) (is_canceled r) (join_token r) (at_ r));;
  (if run_now then makeRoutineReady t;; mret () else mret ());;
  mret t.

Definition resume (t : Token) : MW bool :=
  r ← routine_at t;
  match r with Some _ => makeRoutineReady t | None => mret false end.

Definition cancel (t : Token) : MW bool :=
  r ← routine_at t;
  match r with
  | Some _ => change t set_canceled;; makeRoutineReady t
  | None => mret false
  end.

Definition isCanceled : MW bool := t ← current; r ← the_routine t; mret (is_canceled r).

(** Switches to the main routine, or comes back at once ([true]) when the routine was
    cancelled; [p] is where it goes on. *)
Definition wait (p : point) : MW bool :=
  t ← current;
  r ← the_routine t;
  if is_canceled r then mret true else change t (fun r => set_at p (set_state kSuspend r));; mret false.

Definition yield : MW (option reply) :=
  t ← current;
  r ← the_routine t;
  if is_canceled r then mret (Some (Bool true))
  else makeRoutineReady t;; change t (set_at AtYield);; mret None.

Definition join (other_routine : Token) : MW (option reply) :=
  t ← current;
  r ← the_routine t;
  if is_canceled r then mret (Some (Bool false))
  else
    routine ← routine_at other_routine;
    match routine with
    | None => mret (Some (Bool false))
    | Some routine =>
        match state routine with
        | kDead => mret (Some (Bool true))
        | _ =>
            if negb (isNull (join_token routine)) then mret (Some (Bool false))
            else
              change other_routine (set_join (token r));;
              change t (fun r => set_at AtJoin (set_state kSuspend r));;
              mret None
        end
    end.

(** ** The primitives

    A call gives the answer, or [None] when it switches to the main routine.  Each
    [x_woken] is what follows [sch_.wait()]; it ends a call that comes back at once. *)

Definition lock_take (m : nat) : MW (option reply) :=
  t ← current;
  modify (fun w => set_mutex m (mkMutex t (wait_tokens_ (mutexes w m))) w);;
  note (Locked m t);;
  mret (Some (Bool true)).

Definition lock_wait (m : nat) : MW (option reply) :=
  back ← wait (AtLock m);
  mret (if (back : bool) then Some (Bool false) else None).

Definition lock_woken (m : nat) : MW (option reply) :=
  canceled ← isCanceled;
  if (canceled : bool) then mret (Some (Bool false))
  else w ← get; if isNull (hold_token_ (mutexes w m)) then lock_take m else lock_wait m.

Definition lock (m : nat) : MW (option reply) :=
  w ← get;
  if isNull (hold_token_ (mutexes w m)) then lock_take m
  else
    t ← current;
    if token_equal (hold_token_ (mutexes w m)) t then note (Locked m t);; mret (Some (Bool true))
    else
      modify (fun w => set_mutex m (mkMutex (hold_token_ (mutexes w m)) (wait_tokens_ (mutexes w m) ++ [t])) w);;
      lock_wait m.

Definition unlock (m : nat) : MW (option reply) :=
  t ← current;
  w ← get;
  if negb (token_equal t (hold_token_ (mutexes w m))) then mret (Some (Bool true))
  else
    modify (fun w => set_mutex m (mkMutex token_null (wait_tokens_ (mutexes w m))) w);;
    note (Unlocked m t);;
    match wait_tokens_ (mutexes w m) with
    | [] => mret (Some (Bool true))
    | t :: rest =>
        modify (fun w => set_mutex m (mkMutex (hold_token_ (mutexes w m)) rest) w);;
        resume t;; mret (Some (Bool true))
    end.

(** [int] arithmetic must not overflow. *)
Definition int_of (x : Z) : MW Z := if bool_decide (- 2 ^ 31 <= x < 2 ^ 31) then mret x else stuck.

Definition acquire_take (s : nat) : MW (option reply) :=
  w ← get;
  n ← int_of (count_ (semaphores w s) - 1);
  modify (fun w => set_semaphore s (mkSemaphore n (sem_tokens (semaphores w s))) w);;
  note (Acquired s);;
  mret (Some (Bool true)).

Definition acquire_wait (s : nat) : MW (option reply) :=
  back ← wait (AtAcquire s);
  mret (if (back : bool) then Some (Bool false) else None).

Definition acquire_woken (s : nat) : MW (option reply) :=
  canceled ← isCanceled;
  if (canceled : bool) then mret (Some (Bool false))
  else w ← get; if count_ (semaphores w s) =? 0 then acquire_wait s else acquire_take s.

Definition acquire (s : nat) : MW (option reply) :=
  w ← get;
  if count_ (semaphores w s) =? 0 then
    t ← current;
    modify (fun w => set_semaphore s (mkSemaphore (count_ (semaphores w s)) (sem_tokens (semaphores w s) ++ [t])) w);;
    acquire_wait s
  else acquire_take s.

Definition release (s : nat) : MW (option reply) :=
  w ← get;
  (match sem_tokens (semaphores w s) with
   | t :: rest =>
       if count_ (semaphores w s) =? 0 then
         modify (fun w => set_semaphore s (mkSemaphore (count_ (semaphores w s)) rest) w);;
         resume t;; mret ()
       else mret ()
   | [] => mret ()
   end);;
  n ← int_of (count_ (semaphores w s) + 1);
  modify (fun w => set_semaphore s (mkSemaphore n (sem_tokens (semaphores w s))) w);;
  note (Released s);;
  mret (Some (Bool true)).

(** The value goes to the caller. *)
Definition recv_take (c : nat) : MW (option reply) :=
  w ← get;
  match queue_ (channels w c) with
  | [] => stuck
  | v :: rest =>
      modify (fun w => set_channel c (mkChannel rest (chan_tokens (channels w c))) w);;
      note (Received c (default token_null (curr_routine w)) v);;
      mret (Some (Bool true))
  end.

Definition recv_wait (c : nat) : MW (option reply) :=
  back ← wait (AtRecv c);
  mret (if (back : bool) then Some (Bool false) else None).

Definition recv_woken (c : nat) : MW (option reply) :=
  canceled ← isCanceled;
  if (canceled : bool) then mret (Some (Bool false))
  else w ← get; match queue_ (channels w c) with [] => recv_wait c | _ => recv_take c end.

Definition recv (c : nat) : MW (option reply) :=
  w ← get;
  match queue_ (channels w c) with
  | [] =>
      t ← current;
      modify (fun w => set_channel c (mkChannel (queue_ (channels w c)) (chan_tokens (channels w c) ++ [t])) w);;
      recv_wait c
  | _ => recv_take c
  end.

Definition send (c : nat) (v : Z) : MW (option reply) :=
  w ← get;
  (match queue_ (channels w c), chan_tokens (channels w c) with
   | [], t :: rest =>
       modify (fun w => set_channel c (mkChannel (queue_ (channels w c)) rest) w);;
       resume t;; mret ()
   | _, _ => mret ()
   end);;
  modify (fun w => set_channel c (mkChannel (queue_ (channels w c) ++ [v]) (chan_tokens (channels w c))) w);;
  note (Sent c v);;
  mret (Some (Bool true)).

Definition cond_add (c : nat) (v : Z) : MW (option reply) :=
  modify (fun w => let x := conditions w c in set_condition c (mkCondition (logic_ x) ({[v]} ∪ conds_ x) (wait_token_ x)) w);;
  mret (Some (Bool true)).

Definition cond_woken (c : nat) : MW (option reply) :=
  modify (fun w => let x := conditions w c in set_condition c (mkCondition (logic_ x) ∅ (wait_token_ x)) w);;
  canceled ← isCanceled;
  mret (Some (Bool (negb canceled))).

Definition cond_wait (c : nat) : MW (option reply) :=
  w ← get;
  if negb (isNull (wait_token_ (conditions w c))) || bool_decide (conds_ (conditions w c) = ∅) then mret (Some (Bool false))
  else
    t ← current;
    modify (fun w => let x := conditions w c in set_condition c (mkCondition (logic_ x) (conds_ x) t) w);;
    back ← wait (AtCond c);
    if (back : bool) then cond_woken c else mret None.

Definition cond_post (c : nat) (v : Z) : MW (option reply) :=
  w ← get;
  let x := conditions w c in
  if negb (bool_decide (v ∈ conds_ x)) then mret (Some (Bool true))
  else
    let conds := match logic_ x with kAll => conds_ x ∖ {[v]} | kAny => ∅ end in
    modify (set_condition c (mkCondition (logic_ x) conds (wait_token_ x)));;
    match logic_ x, bool_decide (conds = ∅) with
    | kAll, false => mret (Some (Bool true))
    | _, _ =>
        (if negb (isNull (wait_token_ x)) then resume (wait_token_ x);; mret () else mret ());;
        modify (fun w => set_condition c (mkCondition (logic_ x) (conds_ (conditions w c)) token_null) w);;
        mret (Some (Bool true))
    end.

Definition broadcast_woken : MW (option reply) :=
  canceled ← isCanceled;
  mret (Some (Bool (negb canceled))).

Definition broadcast_wait (b : nat) : MW (option reply) :=
  t ← current;
  modify (fun w => set_broadcast b (broadcasts w b ++ [t]) w);;
  back ← wait (AtBroadcast b);
  if (back : bool) then broadcast_woken else mret None.

Fixpoint resume_all (l : list Token) : MW () :=
  match l with [] => mret () | t :: l' => resume t;; resume_all l' end.

Definition broadcast_post (b : nat) : MW (option reply) :=
  w ← get;
  resume_all (broadcasts w b);;
  modify (set_broadcast b []);;
  mret (Some (Bool true)).

Definition exec (o : call) : MW (option reply) :=
  match o with
  | Create run_now => t ← create run_now; mret (Some (Tok t))
  | Resume t => b ← resume t; mret (Some (Bool b))
  | Cancel t => b ← cancel t; mret (Some (Bool b))
  | Wait => back ← wait AtWait; mret (if (back : bool) then Some (Bool true) else None)
  | Yield => yield
  | Join t => join t
  | Lock m => lock m
  | Unlock m => unlock m
  | Acquire s => acquire s
  | Release s => release s
  | Send c v => send c v
  | Recv c => recv c
  | CondAdd c v => cond_add c v
  | CondWait c => cond_wait c
  | CondPost c v => cond_post c v
  | BroadcastWait b => broadcast_wait b
  | BroadcastPost b => broadcast_post b
  end.

(** What a routine does first when it is switched to. *)
Definition go_on (p : point) : MW (option reply) :=
  match p with
  | Fresh => t ← current; change t set_started;; mret (Some (Bool true))
  | Own => stuck
  | AtWait | AtYield => mret (Some (Bool true))
  | AtJoin => canceled ← isCanceled; mret (Some (Bool (negb canceled)))
  | AtLock m => lock_woken m
  | AtAcquire s => acquire_woken s
  | AtRecv c => recv_woken c
  | AtCond c => cond_woken c
  | AtBroadcast b => broadcast_woken
  end.

(** ** Switching *)

(** The first half of [switchToRoutine], until the routine is in its own code ([true])
    or has switched back. *)
Definition switch_to (t : Token) : MW bool :=
  w ← get;
  match curr_routine w with
  | Some _ => stuck
  | None =>
      modify (set_curr (Some t));;
      change t (set_state kRunning);;
      r ← the_routine t;
      answer ← go_on (at_ r);
      match answer with
      | Some _ => change t (set_at Own);; mret true
      | None => mret false
      end
  end.

(** The second half, when the routine has switched back. *)
Definition came_back (t : Token) : MW () :=
  r ← the_routine t;
  (match state r with
   | kDead =>
       free_routine t;;
       (if negb (isNull (join_token r)) then resume (join_token r);; mret () else mret ())
   | _ => mret ()
   end);;
  modify (set_curr None).

(** The loop of [schedule()], until a routine is in its own code. *)
Fixpoint schedule_loop (tmp : list Token) : MW () :=
  match tmp with
  | [] => modify (set_main InMain)
  | t :: tmp' =>
      routine ← routine_at t;
      match routine with
      | None => schedule_loop tmp'
      | Some _ =>
          running ← switch_to t;
          if (running : bool) then modify (set_main (InSchedule tmp')) else came_back t;; schedule_loop tmp'
      end
  end.

Definition schedule : MW () :=
  w ← get;
  match curr_routine w with
  | Some _ => stuck
  | None => put (set_ready [] (posted w) w);; schedule_loop (ready_routines w)
  end.

(** The objects of the cabinet as pointers. *)
Definition all_routines : MW (list Token) :=
  w ← get;
  l ← the (ts_objects (routine_cabinet w));
  the (mapM (option_map token) l).

(** One [foreach] of the second loop of [cleanup()]; [true] when a routine is in its own
    code. *)
Fixpoint cleanup_pass (l : list Token) : MW bool :=
  match l with
  | [] => mret false
  | t :: l' =>
      running ← switch_to t;
      if (running : bool) then modify (set_main (InCleanup l'));; mret true else came_back t;; cleanup_pass l'
  end.

(** The second loop; [passes] bounds the passes in which no routine gets to its own
    code. *)
Fixpoint cleanup_loop (passes : nat) (l : list Token) : MW () :=
  running ← cleanup_pass l;
  if (running : bool) then mret ()
  else
    w ← get;
    if ts_size (routine_cabinet w) =? 0 then
      modify (fun w => set_main InMain (set_cabinet (ts_clear (routine_cabinet w)) w))
    else match passes with
         | O => out_of_fuel
         | S passes' => l ← all_routines; cleanup_loop passes' l
         end.

Fixpoint cleanup_mark (l : list Token) : MW () :=
  match l with
  | [] => mret ()
  | t :: l' =>
      r ← the_routine t;
      (if negb (is_started r) then free_routine t else change t set_canceled);;
      cleanup_mark l'
  end.

Definition cleanup : MW () :=
  w ← get;
  match curr_routine w with
  | Some _ => stuck
  | None => l ← all_routines; cleanup_mark l;; cleanup_loop 1 []
  end.

(** The main routine goes on when the routine that ran has switched back. *)
Definition main_goes_on : MW () :=
  w ← get;
  match main_at w with
  | InMain => stuck
  | InSchedule tmp => schedule_loop tmp
  | InCleanup rest => cleanup_loop 1 rest
  end.

(** An event that cannot happen changes nothing: the loop has nothing to run, or no
    routine or another one is running.  A [foreach] of the cabinet is under way in
    [cleanup()], so a routine must not be created then. *)
Definition step (e : event) : MW () :=
  w ← get;
  match e, curr_routine w with
  | Main o, None => exec o;; mret ()
  | Turn, None =>
      match posted w with
      | O => mret ()
      | S n => put (set_ready (ready_routines w) n w);; schedule
      end
  | Cleanup, None => cleanup
  | Call o, Some t =>
      match o, main_at w with
      | Create _, InCleanup _ => stuck
      | _, _ =>
          answer ← exec o;
          match answer with Some _ => mret () | None => came_back t;; main_goes_on end
      end
  | Return, Some t => change t (set_state kDead);; came_back t;; main_goes_on
  | _, _ => mret ()
  end.

Fixpoint run (l : list event) : MW () :=
  match l with [] => mret () | e :: l' => step e;; run l' end.

Definition new_world (init_num : nat -> Z) (logic : nat -> Logic) : world :=
  mkWorld ts_empty None [] 0 InMain (fun _ => mkMutex token_null []) (fun s => mkSemaphore (init_num s) [])
    (fun _ => mkChannel [] []) (fun c => mkCondition (logic c) ∅ token_null) (fun _ => []) [].

(** ** What calls do *)

(** *** The cabinet of the routines *)

Definition look (w : world) (t : Token) : option Routine := mjoin (ts_view (routine_cabinet w) !! t).

Definition cab_ok (w : world) : Prop :=
  ts_wf (routine_cabinet w) /\ (forall t p, ts_view (routine_cabinet w) !! t = Some p -> is_Some p) /\
  (forall t r, look w t = Some r -> tok_wf t).

(** [w'] is [w] but for the cabinet. *)
Definition recabs (w w' : world) : Prop :=
  w' = set_cabinet (routine_cabinet w') w /\ cab_ok w' /\ ts_cells (routine_cabinet w') = ts_cells (routine_cabinet w).

Lemma at_gives {A} t w (k : option Routine -> MW A) R : cab_ok w -> tok_wf t -> gives (k (look w t)) w R -> gives (routine_at t ≫= k) w R.
Proof.
  intros (Hw & _) Ht (a & w' & E & H). exists a, w'. split; [|done]. rewrite <- E. unfold routine_at, mbind, M_bind, get.
  by rewrite ts_at_ok.
Qed.

Lemma the_gives {A} t w r (k : Routine -> MW A) R : cab_ok w -> look w t = Some r -> gives (k r) w R -> gives (the_routine t ≫= k) w R.
Proof.
  intros Hc Hr (a & w' & E & H). exists a, w'. split; [|done]. rewrite <- E.
  unfold the_routine, routine_at, mbind, M_bind, get. rewrite ts_at_ok by (apply Hc || by eapply Hc). unfold look in Hr. by rewrite Hr.
Qed.

Lemma change_gives {A} t f w r (k : () -> MW A) R : cab_ok w -> look w t = Some r ->
  (forall w', recabs w w' -> (forall t', look w' t' = if decide (t' = t) then Some (f r) else look w t') -> gives (k ()) w' R) ->
  gives (change t f ≫= k) w R.
Proof.
  intros Hc Hr Hk. pose proof Hc as (Hw & Hs & Ht). pose proof (Ht _ _ Hr) as Htw.
  destruct (ts_update_ok (routine_cabinet w) t (Some (f r)) Hw Htw) as (s & E & Hw' & Hv).
  pose proof (proj2 (ts_update_last _ _ _ _ _ Hw Htw E)) as Hcells.
  unfold look in Hr. destruct (ts_view (routine_cabinet w) !! t) as [p|] eqn:Ev; [|done]. cbn in Hr. subst p.
  assert (forall t', look (set_cabinet s w) t' = if decide (t' = t) then Some (f r) else look w t') as Hl.
  { intros t'. unfold look. cbn. rewrite Hv. case_decide as Hd; [subst; by rewrite lookup_insert_eq|by rewrite lookup_insert_ne]. }
  destruct (Hk (set_cabinet s w)) as (a & w' & E' & H'); [|exact Hl|].
  - split; [done|]. split; [|exact Hcells]. split; [exact Hw'|]. split.
    + intros t' p. cbn. rewrite Hv. destruct (decide (t' = t)) as [->|]; [rewrite lookup_insert_eq; by intros [= <-]|].
      rewrite lookup_insert_ne by done. apply Hs.
    + intros t' r'. rewrite Hl. case_decide; [by subst|apply Ht].
  - exists a, w'. split; [|done]. rewrite <- E'. unfold change, the_routine, routine_at, put_routine, mbind, M_bind, get, put.
    rewrite ts_at_ok by done. rewrite Ev. cbn. by rewrite E.
Qed.

Lemma free_gives {A} t w r (k : () -> MW A) R : cab_ok w -> look w t = Some r ->
  (forall w', recabs w w' -> (forall t', look w' t' = if decide (t' = t) then None else look w t') -> gives (k ()) w' R) ->
  gives (free_routine t ≫= k) w R.
Proof.
  intros Hc Hr Hk. pose proof Hc as (Hw & Hs & Ht). pose proof (Ht _ _ Hr) as Htw.
  destruct (ts_free_ok (routine_cabinet w) t Hw Htw) as (s & E & Hw' & Hv & Hcells).
  assert (forall t', look (set_cabinet s w) t' = if decide (t' = t) then None else look w t') as Hl.
  { intros t'. unfold look. cbn. rewrite Hv. case_decide as Hd; [subst; by rewrite lookup_delete_eq|by rewrite lookup_delete_ne]. }
  destruct (Hk (set_cabinet s w)) as (a & w' & E' & H'); [|exact Hl|].
  - split; [done|]. split; [|exact Hcells]. split; [exact Hw'|]. split.
    + intros t' p. cbn. rewrite Hv. intros [_ Hp]%lookup_delete_Some. by apply (Hs t').
    + intros t' r'. rewrite Hl. case_decide; [done|apply Ht].
  - exists a, w'. split; [|done]. rewrite <- E'. unfold free_routine, mbind, M_bind, get, put. by rewrite E.
Qed.

(** *** The invariant *)

(** [tmp] is what [schedule()] still has to switch to, [n] bounds the cells. *)
Definition K (tmp : list Token) (n : Z) (w : world) : Prop :=
  cab_ok w /\ ts_cells (routine_cabinet w) <= n /\ Forall tok_wf (ready_routines w ++ tmp) /\
  (ready_routines w <> [] -> posted w <> O) /\
  forall t r, look w t = Some r -> token r = t /\ isNull t = false /\ tok_wf (join_token r) /\
    (state r = kReady -> t ∈ ready_routines w ++ tmp) /\
    (curr_routine w <> Some t -> state r <> kRunning /\ state r <> kDead /\ at_ r <> Own).

(** Who holds a mutex after what has happened; [None] when two did at a time, or one
    that did not hold it gave it back. *)
Definition owner_step (m : nat) (o : option (option Token)) (f : fact) : option (option Token) :=
  match o, f with
  | Some None, Locked m' t => Some (if decide (m' = m) then Some t else None)
  | Some (Some t'), Locked m' t => if decide (m' = m) then (if decide (t = t') then Some (Some t) else None) else o
  | Some (Some t'), Unlocked m' t => if decide (m' = m) then (if decide (t = t') then Some None else None) else o
  | Some None, Unlocked m' t => if decide (m' = m) then None else o
  | _, _ => o
  end.
Definition owner (m : nat) (l : list fact) : option (option Token) := fold_left (owner_step m) l (Some None).

Definition sent (c : nat) (l : list fact) : list Z := omap (fun f => match f with Sent c' v => if decide (c' = c) then Some v else None | _ => None end) l.
Definition received (c : nat) (l : list fact) : list Z :=
  omap (fun f => match f with Received c' _ v => if decide (c' = c) then Some v else None | _ => None end) l.
Definition acquired (s : nat) (l : list fact) : Z :=
  Z.of_nat (length (filter (fun f => f = Acquired s) l)).
Definition released (s : nat) (l : list fact) : Z :=
  Z.of_nat (length (filter (fun f => f = Released s) l)).

Arguments owner : simpl never.
Arguments sent : simpl never.
Arguments received : simpl never.
Arguments acquired : simpl never.
Arguments released : simpl never.

(** The objects: tokens that were given out, and what they hold is what has happened. *)
Record O (init : nat -> Z) (B : Z) (w : world) : Prop := {
  o_mutex m : tok_wf (hold_token_ (mutexes w m)) /\ Forall tok_wf (wait_tokens_ (mutexes w m)) /\
    owner m (hist w) = Some (if isNull (hold_token_ (mutexes w m)) then None else Some (hold_token_ (mutexes w m)));
  o_semaphore s : Forall tok_wf (sem_tokens (semaphores w s)) /\ 0 <= count_ (semaphores w s) <= B /\
    count_ (semaphores w s) = init s + released s (hist w) - acquired s (hist w);
  o_channel c : Forall tok_wf (chan_tokens (channels w c)) /\ sent c (hist w) = received c (hist w) ++ queue_ (channels w c);
  o_condition c : tok_wf (wait_token_ (conditions w c));
  o_broadcast b : Forall tok_wf (broadcasts w b) }.

Definition objects (w : world) := (mutexes w, semaphores w, channels w, conditions w, broadcasts w, hist w).

Lemma O_objects init B w w' : objects w' = objects w -> O init B w -> O init B w'.
Proof. unfold objects. intros [= H1 H2 H3 H4 H5 H6] []. split; by rewrite ?H1, ?H2, ?H3, ?H4, ?H5, ?H6. Qed.

(** What a call does to other routines. *)
Definition evolves (r r' : Routine) : Prop :=
  at_ r' = at_ r /\ (state r' = state r \/ state r' = kReady /\ state r <> kDead) /\ (is_canceled r = true -> is_canceled r' = true).

Lemma rt_evolves_refl r : evolves r r.
Proof. split_and!; [done|by left|done]. Qed.

Lemma rt_evolves_trans r1 r2 r3 : evolves r1 r2 -> evolves r2 r3 -> evolves r1 r3.
Proof.
  intros (H1 & H2 & H3) (H4 & H5 & H6). split_and!; [congruence| |auto].
  destruct H2 as [H2|[H2 H2']], H5 as [H5|[H5 H5']]; [left|right|right|right]; rewrite ?H5, ?H2 in *; done.
Qed.

(** Nothing but the objects and the routines changes, and these only evolve. *)
Definition frame (w w' : world) : Prop :=
  curr_routine w' = curr_routine w /\ main_at w' = main_at w /\
  forall t, match look w t, look w' t with Some r, Some r' => evolves r r' | None, None => True | _, _ => False end.

Lemma sch_frame_refl w : frame w w.
Proof. split_and!; [done..|]. intros t. destruct (look w t); [apply rt_evolves_refl|done]. Qed.

Lemma sch_frame_trans w1 w2 w3 : frame w1 w2 -> frame w2 w3 -> frame w1 w3.
Proof.
  intros (H1 & H2 & H3) (H4 & H5 & H6). split_and!; [congruence..|]. intros t. specialize (H3 t). specialize (H6 t).
  destruct (look w1 t), (look w2 t), (look w3 t); try done. by eapply rt_evolves_trans.
Qed.

Lemma frame_look w w' t r : frame w w' -> look w t = Some r -> exists r', look w' t = Some r' /\ evolves r r'.
Proof. intros (_ & _ & H) Hr. specialize (H t). rewrite Hr in H. destruct (look w' t) as [r'|]; [by exists r'|done]. Qed.

(** The objects alone change. *)
Lemma K_same tmp n w w' : routine_cabinet w' = routine_cabinet w -> curr_routine w' = curr_routine w ->
  ready_routines w' = ready_routines w -> posted w' = posted w -> K tmp n w -> K tmp n w'.
Proof. unfold K, cab_ok, look. by intros -> -> -> ->. Qed.

Lemma frame_same w w' : routine_cabinet w' = routine_cabinet w -> curr_routine w' = curr_routine w -> main_at w' = main_at w -> frame w w'.
Proof.
  intros H1 H2 H3. split_and!; [done..|]. intros t. unfold look. rewrite H1. destruct (mjoin _); [apply rt_evolves_refl|done].
Qed.

Lemma recabs_fields w w' : recabs w w' -> curr_routine w' = curr_routine w /\ ready_routines w' = ready_routines w /\
  posted w' = posted w /\ main_at w' = main_at w /\ objects w' = objects w.
Proof. intros (E & _). rewrite E. done. Qed.

(** One routine changes. *)
Lemma K_change tmp n w w' t r r' : K tmp n w -> look w t = Some r -> recabs w w' ->
  (forall t', look w' t' = if decide (t' = t) then Some r' else look w t') ->
  token r' = t -> tok_wf (join_token r') -> (state r' = kReady -> t ∈ ready_routines w ++ tmp) ->
  (curr_routine w <> Some t -> state r' <> kRunning /\ state r' <> kDead /\ at_ r' <> Own) -> K tmp n w'.
Proof.
  intros (Hc & Hn & Ht & Hp & Hk) Hr Hre Hl H1 H2 H3 H4. unfold K. destruct (recabs_fields _ _ Hre) as (-> & -> & -> & _).
  destruct Hre as (_ & Hc' & Hcells). split; [done|]. split; [lia|]. split_and!; [done..|]. intros t0 r0. rewrite Hl. case_decide as Hd; [|apply Hk].
  intros [= <-]. subst t0. pose proof (Hk _ _ Hr) as (_ & Hnull & _). by split_and!.
Qed.

Lemma frame_change w w' t r r' : look w t = Some r -> recabs w w' ->
  (forall t', look w' t' = if decide (t' = t) then Some r' else look w t') -> evolves r r' -> frame w w'.
Proof.
  intros Hr (E & _) Hl He. split_and!; [by rewrite E..|]. intros t'. rewrite Hl. case_decide as Hd.
  - subst. by rewrite Hr.
  - destruct (look w t'); [apply rt_evolves_refl|done].
Qed.

(** *** The calls *)

Lemma ready_gives tmp n w t r : K tmp n w -> look w t = Some r ->
  let is_ready w' := state r <> kDead -> exists r', look w' t = Some r' /\ state r' = kReady in
  gives (makeRoutineReady t) w (fun _ w' => K tmp n w' /\ frame w w' /\ objects w' = objects w /\ is_ready w').
Proof.
  intros HK Hr is_ready. pose proof HK as (Hc & Hn & Ht & Hp & Hk). unfold makeRoutineReady. apply (the_gives _ _ r); [done..|].
  pose proof (Hk _ _ Hr) as (Htok & Hnull & Hjoin & Hready & Hcur).
  assert (state r = kReady \/ state r = kDead -> gives (mret false : MW bool) w (fun _ w' => K tmp n w' /\ frame w w' /\ objects w' = objects w /\ is_ready w')) as Hno.
  { intros Hs. apply gives_ret. split; [done|]. split; [apply sch_frame_refl|]. split; [done|].
    intros Hd. exists r. split; [done|]. by destruct Hs. }
  assert (state r <> kReady -> state r <> kDead -> gives (change t (set_state kReady);;
      modify (fun w => set_ready (ready_routines w ++ [token r]) (S (posted w)) w);; mret true) w
      (fun _ w' => K tmp n w' /\ frame w w' /\ objects w' = objects w /\ is_ready w')) as Hyes.
  { intros Hs1 Hs2. apply (change_gives _ _ _ r); [done..|]. intros w' (E & Hc' & Hcells) Hl. apply gives_modify, gives_ret.
    set (w1 := set_ready _ _ w').
    assert (forall t', look w1 t' = if decide (t' = t) then Some (set_state kReady r) else look w t') as Hl1 by exact Hl.
    assert (tok_wf t) as Hwt by (by eapply Hc).
    split; [split; [exact Hc'|]; split_and!|split; [|split]].
    - cbn. lia.
    - unfold w1. cbn. rewrite E. cbn. rewrite Htok, <- app_assoc. apply Forall_app in Ht as [Ht1 Ht2].
      apply Forall_app. split; [done|]. by constructor.
    - by unfold w1.
    - intros t0 r0. rewrite Hl1. unfold w1. cbn [ready_routines curr_routine set_ready]. rewrite E. cbn [ready_routines curr_routine set_cabinet].
      rewrite Htok. case_decide as Hd.
      + intros [= <-]. subst t0. cbn. split_and!; [done..| |].
        * intros _. rewrite !elem_of_app. left. right. by apply list_elem_of_singleton.
        * intros Hne. destruct (Hcur Hne) as (_ & _ & Hat). split_and!; [done|done|exact Hat].
      + intros Hr0. destruct (Hk _ _ Hr0) as (H1 & H2 & H3 & H4 & H5). split_and!; [done..| |done].
        intros Hs. specialize (H4 Hs). rewrite !elem_of_app in *. tauto.
    - apply (sch_frame_trans _ w'); [|by apply frame_same]. apply (frame_change _ _ t r (set_state kReady r)); [done|done|exact Hl|].
      split_and!; [done|by right|done].
    - unfold w1. by rewrite E.
    - intros _. exists (set_state kReady r). by rewrite Hl1, decide_True. }
  destruct (state r) eqn:Es; [by apply Hyes|apply Hno; by left|by apply Hyes|apply Hno; by right].
Qed.

(** *** The facts, one after the other *)

Lemma owner_snoc m l f : owner m (l ++ [f]) = owner_step m (owner m l) f.
Proof. unfold owner. by rewrite fold_left_app. Qed.

Lemma sent_snoc c l f : sent c (l ++ [f]) = sent c l ++ match f with Sent c' v => if decide (c' = c) then [v] else [] | _ => [] end.
Proof. unfold sent. rewrite omap_app. cbn. by destruct f; try case_decide. Qed.

Lemma received_snoc c l f :
  received c (l ++ [f]) = received c l ++ match f with Received c' _ v => if decide (c' = c) then [v] else [] | _ => [] end.
Proof. unfold received. rewrite omap_app. cbn. by destruct f; try case_decide. Qed.

Lemma acquired_snoc s l f : acquired s (l ++ [f]) = acquired s l + (if decide (f = Acquired s) then 1 else 0).
Proof. unfold acquired. rewrite filter_app, length_app. cbn. case_decide; cbn; lia. Qed.

Lemma released_snoc s l f : released s (l ++ [f]) = released s l + (if decide (f = Released s) then 1 else 0).
Proof. unfold released. rewrite filter_app, length_app. cbn. case_decide; cbn; lia. Qed.

Ltac facts :=
  rewrite ?owner_snoc, ?sent_snoc, ?received_snoc, ?acquired_snoc, ?released_snoc; cbn -[isNull];
  rewrite ?app_nil_r.

(** A fact that concerns neither channels nor semaphores, and so on: the objects other
    than the one that changes. *)
Lemma fn_same {X} (f : nat -> X) i x : (<[i := x]> f) i = x.
Proof. apply fn_lookup_insert. Qed.
Lemma fn_other {X} (f : nat -> X) i j x : i <> j -> (<[i := x]> f) j = f j.
Proof. apply fn_lookup_insert_ne. Qed.

(** ** Calls keep the invariant *)

Section calls.

Context (tmp : list Token) (n : Z) (init : nat -> Z) (B : Z).

Definition good (w : world) : Prop := K tmp n w /\ O init B w.

(** The call answered, or the routine that runs, which was not cancelled, is at a point
    in it and waits. *)
Definition called (ans : option reply) (w w' : world) : Prop :=
  match ans with
  | Some _ => frame w w'
  | None => exists t r r', curr_routine w = Some t /\ look w t = Some r /\ is_canceled r = false /\
      curr_routine w' = Some t /\ main_at w' = main_at w /\ look w' t = Some r' /\
      at_ r' <> Own /\ state r' <> kRunning /\ state r' <> kDead
  end.

Lemma called_after ans w1 w2 w3 : frame w1 w2 -> called ans w2 w3 -> called ans w1 w3.
Proof.
  intros Hf. destruct ans; [by apply sch_frame_trans|]. intros (t & r & r' & H1 & H2 & H3 & H4 & H5 & H6).
  destruct Hf as (Hc & Hm & Hl). specialize (Hl t). rewrite H2 in Hl. destruct (look w1 t) as [r1|] eqn:E1; [|done].
  destruct Hl as (_ & _ & Hcan). exists t, r1, r'. split_and!; [congruence|done| |done|congruence|apply H6..].
  destruct (is_canceled r1); [|done]. by rewrite Hcan in H3.
Qed.

(** [m] is a call. *)
Definition is_call (m : MW (option reply)) (w : world) : Prop := gives m w (fun ans w' => good w' /\ called ans w w').

Definition runs (w : world) (t : Token) (r : Routine) : Prop := curr_routine w = Some t /\ look w t = Some r /\ state r <> kDead.

Lemma good_live w t r : good w -> look w t = Some r -> tok_wf t /\ isNull t = false /\ token r = t.
Proof. intros [(Hc & _ & _ & _ & Hk) _] Hr. destruct (Hk _ _ Hr) as (H1 & H2 & _). split; [by eapply Hc|done]. Qed.

Lemma answers w b : good w -> is_call (mret (Some b)) w.
Proof. intros H. apply gives_ret. split; [done|apply sch_frame_refl]. Qed.

Lemma call_after w1 w2 m : frame w1 w2 -> is_call m w2 -> gives m w2 (fun ans w' => good w' /\ called ans w1 w').
Proof. intros Hf H. eapply gives_mono; [exact H|]. intros ans w' [H1 H2]. split; [done|by eapply called_after]. Qed.

Lemma current_gives {A} t w (k : Token -> MW A) R : curr_routine w = Some t -> gives (k t) w R -> gives (current ≫= k) w R.
Proof. intros Hc (a & w' & E & H). exists a, w'. split; [|done]. rewrite <- E. unfold current, mbind, M_bind, get. by rewrite Hc. Qed.

Lemma canceled_gives {A} t r w (k : bool -> MW A) R : good w -> runs w t r ->
  gives (k (is_canceled r)) w R -> gives (isCanceled ≫= k) w R.
Proof.
  intros [[Hc _] _] (Hcur & Hr & _) H. eapply (gives_bind _ _ _ (fun b w' => b = is_canceled r /\ w' = w)); [|by intros ? ? [-> ->]].
  unfold isCanceled. apply (current_gives t); [done|]. apply (the_gives _ _ r); [done..|]. by apply gives_ret.
Qed.

Lemma resume_gives {A} t w (k : bool -> MW A) R : good w -> tok_wf t ->
  (forall b w', good w' -> frame w w' -> objects w' = objects w -> gives (k b) w' R) -> gives (resume t ≫= k) w R.
Proof.
  intros [HK HO] Ht Hk. eapply (gives_bind _ _ _ (fun _ w' => good w' /\ frame w w' /\ objects w' = objects w)).
  - unfold resume. apply at_gives; [apply HK|done|]. destruct (look w t) as [r|] eqn:Er.
    + eapply gives_mono; [by eapply ready_gives|]. intros _ w' (H1 & H2 & H3 & _). split; [split; [done|by apply (O_objects _ _ w)]|by split].
    + apply gives_ret. split; [by split|]. split; [apply sch_frame_refl|done].
  - intros b w' (H1 & H2 & H3). by apply Hk.
Qed.

Lemma wait_gives {A} p t r w (k : bool -> MW A) R : good w -> runs w t r -> p <> Own ->
  (is_canceled r = true -> gives (k true) w R) ->
  (is_canceled r = false -> forall w', good w' -> called None w w' -> objects w' = objects w -> gives (k false) w' R) ->
  gives (wait p ≫= k) w R.
Proof.
  intros [HK HO] (Hcur & Hr & _) Hp Hback Hgone. pose proof HK as (Hc & _).
  eapply (gives_bind _ _ _ (fun back w' => if (back : bool) then is_canceled r = true /\ w' = w
    else is_canceled r = false /\ good w' /\ called None w w' /\ objects w' = objects w)).
  - unfold wait. apply (current_gives t); [done|]. apply (the_gives _ _ r); [done..|].
    destruct (is_canceled r) eqn:Ec; [by apply gives_ret|]. apply (change_gives _ _ _ r); [done..|]. intros w' Hre Hl.
    destruct (recabs_fields _ _ Hre) as (H1 & H2 & H3 & H4 & H5). apply gives_ret. split; [done|].
    pose proof HK as (_ & _ & _ & _ & Hk). destruct (Hk _ _ Hr) as (Htok & Hnull & Hjoin & _).
    split; [|split].
    + split; [|by apply (O_objects _ _ w)]. apply (K_change _ _ _ _ t r _ HK Hr Hre Hl); [done|done|done|]. by cbn.
    + exists t, r, (set_at p (set_state kSuspend r)). split_and!; [done..|congruence|done| |done|done|done].
      by rewrite Hl, decide_True.
    + done.
  - intros [] w' H; [destruct H as [Hcan ->]; by apply Hback|]. destruct H as (Hcan & H1 & H2 & H3). by apply Hgone.
Qed.

(** The body of the loops around [sch_.wait()]. *)
Lemma wait_call p t r w b : good w -> runs w t r -> p <> Own ->
  is_call (back ← wait p; mret (if (back : bool) then Some b else None)) w.
Proof.
  intros Hg Hr Hp. eapply wait_gives; [done..| |].
  - intros _. by apply answers.
  - intros _ w' H1 H2 _. by apply gives_ret.
Qed.

(** The objects change, and perhaps a fact is added. *)
Definition touches (w w' : world) : Prop :=
  routine_cabinet w' = routine_cabinet w /\ curr_routine w' = curr_routine w /\ ready_routines w' = ready_routines w /\
  posted w' = posted w /\ main_at w' = main_at w.

Lemma touches_good w w' : good w -> touches w w' -> O init B w' -> good w' /\ frame w w'.
Proof.
  intros [HK _] (H1 & H2 & H3 & H4 & H5) HO. split; [split; [by apply (K_same _ _ w)|done]|by apply frame_same].
Qed.

(** Everything but one object of one kind is as it was. *)
Ltac same_objects HO :=
  destruct HO as [HOm HOs HOc HOco HOb]; split;
    [intros m0; specialize (HOm m0)|intros s0; specialize (HOs s0)|intros c0; specialize (HOc c0)|intros c0; specialize (HOco c0)|
     intros b0; specialize (HOb b0)]; cbn -[isNull]; facts; try done;
    try (rewrite !decide_False by done; by rewrite ?Z.add_0_r, ?Z.sub_0_r); try by destruct (owner _ _) as [[]|].

Lemma O_lock_take w m t : O init B w -> isNull (hold_token_ (mutexes w m)) = true -> tok_wf t -> isNull t = false ->
  O init B (add_hist (Locked m t) (set_mutex m (mkMutex t (wait_tokens_ (mutexes w m))) w)).
Proof.
  intros HO Hn Ht Hnull. same_objects HO.
  destruct (decide (m = m0)) as [->|Hne].
  - rewrite fn_same. cbn -[isNull]. destruct HOm as (_ & H2 & H3). rewrite H3, Hn, Hnull. cbn. by rewrite decide_True.
  - rewrite fn_other by done. destruct HOm as (H1 & H2 & H3). rewrite H3. split_and!; [done..|].
    destruct (isNull (hold_token_ (mutexes w m0))); cbn; by rewrite decide_False.
Qed.

Lemma O_lock_own w m : O init B w -> isNull (hold_token_ (mutexes w m)) = false ->
  O init B (add_hist (Locked m (hold_token_ (mutexes w m))) w).
Proof.
  intros HO Hn. same_objects HO.
  destruct HOm as (H1 & H2 & H3). split_and!; [done..|]. rewrite H3.
  destruct (decide (m = m0)) as [->|Hne].
  - rewrite Hn. cbn. by rewrite !decide_True.
  - destruct (isNull (hold_token_ (mutexes w m0))); cbn; by rewrite decide_False.
Qed.

Lemma O_unlock w m : O init B w -> isNull (hold_token_ (mutexes w m)) = false ->
  O init B (add_hist (Unlocked m (hold_token_ (mutexes w m))) (set_mutex m (mkMutex token_null (wait_tokens_ (mutexes w m))) w)).
Proof.
  intros HO Hn. same_objects HO.
  destruct (decide (m = m0)) as [->|Hne].
  - rewrite fn_same. cbn. destruct HOm as (_ & H2 & H3). rewrite H3, Hn. cbn. by rewrite !decide_True.
  - rewrite fn_other by done. destruct HOm as (H1 & H2 & H3). rewrite H3. split_and!; [done..|].
    destruct (isNull (hold_token_ (mutexes w m0))); cbn; by rewrite decide_False.
Qed.

Lemma O_mutex_waits w m ws : O init B w -> Forall tok_wf ws -> O init B (set_mutex m (mkMutex (hold_token_ (mutexes w m)) ws) w).
Proof.
  intros HO Hw. same_objects HO. destruct (decide (m = m0)) as [->|Hne]; [rewrite fn_same; by destruct HOm as (H1 & _ & H3)|by rewrite fn_other].
Qed.

Lemma O_semaphore w s n' ts f : O init B w -> Forall tok_wf ts -> 0 <= n' <= B ->
  match f with
  | None => n' = count_ (semaphores w s)
  | Some f => f = Acquired s /\ n' = count_ (semaphores w s) - 1 \/ f = Released s /\ n' = count_ (semaphores w s) + 1
  end ->
  O init B (match f with Some f => add_hist f | None => id end (set_semaphore s (mkSemaphore n' ts) w)).
Proof.
  intros HO Hts Hn Hf. destruct f as [f|].
  - assert ((forall m, owner m (hist w ++ [f]) = owner m (hist w)) /\ (forall c, sent c (hist w ++ [f]) = sent c (hist w)) /\
      (forall c, received c (hist w ++ [f]) = received c (hist w))) as (Ef1 & Ef2 & Ef3).
    { split_and!; intros x; facts; destruct Hf as [[-> _]|[-> _]]; rewrite ?app_nil_r; try done; by destruct (owner x (hist w)) as [[]|]. }
    destruct HO as [HOm HOs HOc HOco HOb]; split; intros x; cbn -[isNull]; rewrite ?Ef1, ?Ef2, ?Ef3; try done; try apply HOm; try apply HOc.
    facts. specialize (HOs x). destruct (decide (s = x)) as [->|Hne].
    + rewrite fn_same. cbn. destruct HOs as (_ & _ & H3). split_and!; [done|lia..|].
      destruct Hf as [[-> ->]|[-> ->]]; [rewrite (decide_False (P:=Acquired x = Released x)), (decide_True (P:=Acquired x = Acquired x)) by done|
        rewrite (decide_True (P:=Released x = Released x)), (decide_False (P:=Released x = Acquired x)) by done]; lia.
    + rewrite fn_other by done. destruct HOs as (H1 & H2 & H3). split_and!; [done|lia..|].
      rewrite !decide_False by (destruct Hf as [[-> _]|[-> _]]; congruence). lia.
  - subst n'. cbn [id]. same_objects HO. destruct (decide (s = s0)) as [->|Hne]; [rewrite fn_same; by destruct HOs as (_ & H2 & H3)|by rewrite fn_other].
Qed.

Lemma O_channel_waits w c ts : O init B w -> Forall tok_wf ts -> O init B (set_channel c (mkChannel (queue_ (channels w c)) ts) w).
Proof.
  intros HO Hw. same_objects HO. destruct (decide (c = c0)) as [->|Hne]; [rewrite fn_same; by destruct HOc as (_ & H3)|by rewrite fn_other].
Qed.

Lemma O_send w c v : O init B w -> O init B (add_hist (Sent c v) (set_channel c (mkChannel (queue_ (channels w c) ++ [v]) (chan_tokens (channels w c))) w)).
Proof.
  intros HO. same_objects HO.
  destruct (decide (c = c0)) as [->|Hne].
  - rewrite fn_same. cbn. destruct HOc as [H1 ->]. split; [done|]. by rewrite app_assoc.
  - rewrite fn_other by done. by rewrite app_nil_r.
Qed.

Lemma O_recv w c t v rest : O init B w -> queue_ (channels w c) = v :: rest ->
  O init B (add_hist (Received c t v) (set_channel c (mkChannel rest (chan_tokens (channels w c))) w)).
Proof.
  intros HO Hq. same_objects HO.
  destruct (decide (c = c0)) as [->|Hne].
  - rewrite fn_same. cbn. destruct HOc as [H1 ->]. split; [done|]. by rewrite Hq, <- app_assoc.
  - rewrite fn_other by done. by rewrite app_nil_r.
Qed.

Lemma O_condition w c x : O init B w -> tok_wf (wait_token_ x) -> O init B (set_condition c x w).
Proof.
  intros HO Hw. same_objects HO. destruct (decide (c = c0)) as [->|Hne]; [by rewrite fn_same|by rewrite fn_other].
Qed.

Lemma O_broadcast w b ts : O init B w -> Forall tok_wf ts -> O init B (set_broadcast b ts w).
Proof.
  intros HO Hw. same_objects HO. destruct (decide (b = b0)) as [->|Hne]; [by rewrite fn_same|by rewrite fn_other].
Qed.

(** *** The primitives *)

Lemma tok_wf_null : tok_wf token_null.
Proof. by vm_compute. Qed.

Lemma runs_frame w w' t r : frame w w' -> runs w t r -> exists r', runs w' t r' /\ evolves r r'.
Proof.
  intros Hf (H1 & H2 & Hd). destruct (frame_look _ _ _ _ Hf H2) as (r' & H3 & H4). exists r'. split; [|done].
  split; [by rewrite (proj1 Hf)|]. split; [done|]. destruct H4 as (_ & [-> |[-> _]] & _); done.
Qed.

(** A step that touches only the objects, and the rest of the call. *)
Lemma touch_call f w (k : () -> MW (option reply)) : good w -> touches w (f w) -> O init B (f w) ->
  (good (f w) -> frame w (f w) -> is_call (k ()) (f w)) -> is_call (modify f ≫= k) w.
Proof.
  intros Hg Ht HO Hk. destruct (touches_good _ _ Hg Ht HO) as [H1 H2]. apply gives_modify. apply call_after; auto.
Qed.

Lemma note_call f w (k : () -> MW (option reply)) : good w -> O init B (add_hist f w) ->
  (good (add_hist f w) -> frame w (add_hist f w) -> is_call (k ()) (add_hist f w)) -> is_call (note f ≫= k) w.
Proof. intros Hg HO Hk. by apply touch_call. Qed.

(** Two steps that belong together. *)
Lemma touch_note g f w (k : () -> MW (option reply)) : good w -> touches w (g w) -> O init B (add_hist f (g w)) ->
  (good (add_hist f (g w)) -> frame w (add_hist f (g w)) -> is_call (k ()) (add_hist f (g w))) ->
  is_call (modify g;; note f ≫= k) w.
Proof.
  intros Hg Ht HO Hk. destruct (touches_good w (add_hist f (g w)) Hg Ht HO) as [H1 H2].
  apply gives_modify. unfold note. apply gives_modify. apply call_after; auto.
Qed.

Lemma resume_call t w (k : bool -> MW (option reply)) : good w -> tok_wf t ->
  (forall b w', good w' -> frame w w' -> objects w' = objects w -> is_call (k b) w') -> is_call (resume t ≫= k) w.
Proof. intros Hg Ht Hk. apply resume_gives; [done..|]. intros b w' H1 H2 H3. apply call_after; auto. Qed.

Lemma yield_call w t r : good w -> runs w t r -> is_call yield w.
Proof.
  intros Hg Hr. pose proof Hg as [[Hc HK] HO]. pose proof Hr as (Hcur & Hl & Hd). unfold yield. apply (current_gives t); [done|].
  apply (the_gives _ _ r); [done..|]. destruct (is_canceled r) eqn:Ec; [by apply answers|].
  eapply gives_bind; [by eapply ready_gives; [apply Hg|]|]. intros b w1 (HK1 & Hf1 & Ho1 & Hready). cbn beta in Hready.
  destruct (Hready Hd) as (r1 & Hl1 & Hs1). assert (curr_routine w1 = Some t) as Hcur1 by (by rewrite (proj1 Hf1)).
  apply (change_gives _ _ _ r1); [apply HK1|done|]. intros w2 Hre Hl2.
  destruct (recabs_fields _ _ Hre) as (H1 & H2 & H3 & H4 & H5). apply gives_ret.
  pose proof HK1 as (_ & _ & _ & _ & Hk1). destruct (Hk1 _ _ Hl1) as (Htok & Hnull & Hjoin & Hrd & _).
  split; [split|].
  - apply (K_change _ _ _ _ t r1 _ HK1 Hl1 Hre Hl2); [done|done|done|]. by rewrite Hcur1.
  - apply (O_objects _ _ w); [congruence|done].
  - exists t, r, (set_at AtYield r1). split_and!; [done|done|done|congruence|by rewrite H4, (proj1 (proj2 Hf1))|by rewrite Hl2, decide_True|done|..];
      cbn; by rewrite Hs1.
Qed.

(** A routine is changed, in a way that it evolves. *)
Lemma change_call t f w r (k : () -> MW (option reply)) : good w -> look w t = Some r -> evolves r (f r) ->
  token (f r) = token r -> tok_wf (join_token (f r)) -> state (f r) = state r ->
  (forall w', good w' -> frame w w' -> (forall t', look w' t' = if decide (t' = t) then Some (f r) else look w t') ->
    is_call (k ()) w') -> is_call (change t f ≫= k) w.
Proof.
  intros [HK HO] Hl He Ht Hj Hs Hk. apply (change_gives _ _ _ r); [apply HK|done|]. intros w' Hre Hl'.
  destruct (recabs_fields _ _ Hre) as (_ & _ & _ & _ & H5). pose proof HK as (_ & _ & _ & _ & Hk0).
  destruct (Hk0 _ _ Hl) as (Htok & Hnull & Hjoin & Hready & Hcur).
  assert (frame w w') as Hf by (by apply (frame_change w w' t r (f r))).
  apply call_after; [done|]. apply Hk; [split|done|done].
  - apply (K_change _ _ _ _ t r _ HK Hl Hre Hl'); [congruence|done|by rewrite Hs|].
    destruct He as (-> & _). by rewrite Hs.
  - by apply (O_objects _ _ w).
Qed.

(** The routine that runs suspends itself. *)
Lemma suspend_call t r p w : good w -> runs w t r -> is_canceled r = false -> p <> Own ->
  is_call (change t (fun r => set_at p (set_state kSuspend r));; mret None) w.
Proof.
  intros [HK HO] (Hcur & Hl & _) Hc Hp. apply (change_gives _ _ _ r); [apply HK|done|]. intros w' Hre Hl'.
  destruct (recabs_fields _ _ Hre) as (H1 & H2 & H3 & H4 & H5). pose proof HK as (_ & _ & _ & _ & Hk0).
  destruct (Hk0 _ _ Hl) as (Htok & Hnull & Hjoin & _). apply gives_ret. split; [split|].
  - by apply (K_change _ _ _ _ t r _ HK Hl Hre Hl').
  - by apply (O_objects _ _ w).
  - exists t, r, (set_at p (set_state kSuspend r)). split_and!; [done|done|done|congruence|done|by rewrite Hl', decide_True|done..].
Qed.

Lemma join_call other w t r : good w -> runs w t r -> tok_wf other -> is_call (join other) w.
Proof.
  intros Hg Hr Ho. pose proof Hg as [[Hc HK] HO]. pose proof Hr as (Hcur & Hl & Hd). unfold join. apply (current_gives t); [done|].
  apply (the_gives _ _ r); [done..|]. destruct (is_canceled r) eqn:Ec; [by apply answers|].
  apply at_gives; [done|done|]. destruct (look w other) as [ro|] eqn:Eo; [|by apply answers].
  destruct (good_live _ _ _ Hg Hl) as (Ht & Hnull & Htok).
  assert (is_call (if negb (isNull (join_token ro)) then mret (Some (Bool false))
    else change other (set_join (token r));; change t (fun r => set_at AtJoin (set_state kSuspend r));; mret None) w) as Hgo.
  { destruct (negb (isNull (join_token ro))); [by apply answers|].
    apply (change_call _ _ _ ro); [done|done|by split_and!; [|left|]|done|cbn; by rewrite Htok|done|].
    intros w' Hg' Hf' Hl'. destruct (runs_frame _ _ _ _ Hf' Hr) as (r' & Hr' & _).
    apply (suspend_call t r'); [done|done| |done]. destruct Hr' as (_ & Hlr & _). rewrite Hl' in Hlr.
    case_decide as Hd'; [|congruence]. injection Hlr as <-. cbn. congruence. }
  destruct (state ro); try exact Hgo. by apply answers.
Qed.

Lemma token_equal_eq a b : token_equal a b = true -> a = b.
Proof. unfold token_equal. destruct a, b. cbn. intros [->%Z.eqb_eq ->%Z.eqb_eq]%andb_true_iff. done. Qed.

Lemma lock_take_call m t r w : good w -> runs w t r -> isNull (hold_token_ (mutexes w m)) = true -> is_call (lock_take m) w.
Proof.
  intros Hg Hr Hn. destruct (good_live _ _ _ Hg (proj1 (proj2 Hr))) as (Ht & Hnull & _). unfold lock_take.
  apply (current_gives t); [apply Hr|]. apply touch_note; [done|done|by apply O_lock_take; [apply Hg|..]|]. intros Hg' _. by apply answers.
Qed.

Lemma lock_wait_call m t r w : good w -> runs w t r -> is_call (lock_wait m) w.
Proof. intros Hg Hr. by apply (wait_call (AtLock m) t r). Qed.

Lemma lock_call m t r w : good w -> runs w t r -> is_call (lock m) w.
Proof.
  intros Hg Hr. destruct (good_live _ _ _ Hg (proj1 (proj2 Hr))) as (Ht & Hnull & _). unfold lock. apply gives_get.
  destruct (isNull (hold_token_ (mutexes w m))) eqn:En; [by apply (lock_take_call m t r)|].
  apply (current_gives t); [apply Hr|]. destruct (token_equal (hold_token_ (mutexes w m)) t) eqn:Et.
  - apply token_equal_eq in Et. rewrite <- Et. apply note_call; [done|by apply O_lock_own; [apply Hg|]|]. intros Hg' _. by apply answers.
  - apply touch_call; [done|done| |].
    + apply O_mutex_waits; [apply Hg|]. apply Forall_app. split; [apply Hg|by constructor].
    + intros Hg' Hf'. destruct (runs_frame _ _ _ _ Hf' Hr) as (r' & Hr' & _). by apply (lock_wait_call m t r').
Qed.

Lemma lock_woken_call m t r w : good w -> runs w t r -> is_call (lock_woken m) w.
Proof.
  intros Hg Hr. unfold lock_woken. apply (canceled_gives t r); [done|done|]. destruct (is_canceled r); [by apply answers|].
  apply gives_get. destruct (isNull _) eqn:En; [by apply (lock_take_call m t r)|by apply (lock_wait_call m t r)].
Qed.

Lemma unlock_call m t r w : good w -> runs w t r -> is_call (unlock m) w.
Proof.
  intros Hg Hr. destruct (good_live _ _ _ Hg (proj1 (proj2 Hr))) as (Ht & Hnull & _). unfold unlock.
  apply (current_gives t); [apply Hr|]. apply gives_get.
  destruct (token_equal t (hold_token_ (mutexes w m))) eqn:Et; [cbn [negb]|by apply answers].
  apply token_equal_eq in Et. assert (isNull (hold_token_ (mutexes w m)) = false) as Hh by (by rewrite <- Et).
  apply touch_note; [done|done|rewrite Et at 1; by apply O_unlock; [apply Hg|]|]. intros Hg1 _.
  set (w1 := add_hist _ _) in *. pose proof (proj1 (proj2 (o_mutex _ _ _ (proj2 Hg) m))) as Hw.
  destruct (wait_tokens_ (mutexes w m)) as [|t1 rest] eqn:Ew; [by apply answers|]. apply Forall_cons in Hw as [Ht1 Hw].
  apply touch_call; [done|done|by apply O_mutex_waits; [apply Hg1|]|]. intros Hg2 _.
  apply resume_call; [done|done|]. intros b w3 Hg3 _ _. by apply answers.
Qed.

Lemma int_gives {A} x w (k : Z -> MW A) R : - 2 ^ 31 <= x < 2 ^ 31 -> gives (k x) w R -> gives (int_of x ≫= k) w R.
Proof. intros Hx H. unfold int_of. by rewrite bool_decide_true. Qed.

Hypothesis HB : B < 2 ^ 31 - 1.

Lemma acquire_take_call s w : good w -> count_ (semaphores w s) <> 0 -> is_call (acquire_take s) w.
Proof.
  intros Hg Hn. pose proof (o_semaphore _ _ _ (proj2 Hg) s) as (H1 & H2 & H3). unfold acquire_take. apply gives_get.
  apply int_gives; [lia|]. apply touch_note; [done|done| |].
  - apply (O_semaphore w s _ _ (Some (Acquired s))); [apply Hg|done|lia|by left].
  - intros Hg' _. by apply answers.
Qed.

Lemma acquire_wait_call s t r w : good w -> runs w t r -> is_call (acquire_wait s) w.
Proof. intros Hg Hr. by apply (wait_call (AtAcquire s) t r). Qed.

Lemma acquire_call s t r w : good w -> runs w t r -> is_call (acquire s) w.
Proof.
  intros Hg Hr. destruct (good_live _ _ _ Hg (proj1 (proj2 Hr))) as (Ht & Hnull & _). unfold acquire. apply gives_get.
  pose proof (o_semaphore _ _ _ (proj2 Hg) s) as (H1 & H2 & H3).
  destruct (Z.eqb_spec (count_ (semaphores w s)) 0) as [E0|]; [|by apply acquire_take_call].
  apply (current_gives t); [apply Hr|]. apply touch_call; [done|done| |].
  - apply (O_semaphore w s _ _ None); [apply Hg| |done|done]. apply Forall_app. split; [done|by constructor].
  - intros Hg' Hf'. destruct (runs_frame _ _ _ _ Hf' Hr) as (r' & Hr' & _). by apply (acquire_wait_call s t r').
Qed.

Lemma acquire_woken_call s t r w : good w -> runs w t r -> is_call (acquire_woken s) w.
Proof.
  intros Hg Hr. unfold acquire_woken. apply (canceled_gives t r); [done|done|]. destruct (is_canceled r); [by apply answers|].
  apply gives_get. destruct (Z.eqb_spec (count_ (semaphores w s)) 0); [by apply (acquire_wait_call s t r)|by apply acquire_take_call].
Qed.

Lemma recv_take_call c w v rest : good w -> queue_ (channels w c) = v :: rest -> is_call (recv_take c) w.
Proof.
  intros Hg Hq. unfold recv_take. apply gives_get. rewrite Hq. apply touch_note; [done|done|by apply O_recv; [apply Hg|]|].
  intros Hg' _. by apply answers.
Qed.

Lemma recv_wait_call c t r w : good w -> runs w t r -> is_call (recv_wait c) w.
Proof. intros Hg Hr. by apply (wait_call (AtRecv c) t r). Qed.

Lemma recv_call c t r w : good w -> runs w t r -> is_call (recv c) w.
Proof.
  intros Hg Hr. destruct (good_live _ _ _ Hg (proj1 (proj2 Hr))) as (Ht & Hnull & _). unfold recv. apply gives_get.
  destruct (queue_ (channels w c)) as [|v rest] eqn:Eq; [|by eapply recv_take_call].
  apply (current_gives t); [apply Hr|]. apply touch_call; [done|done| |].
  - apply O_channel_waits; [apply Hg|]. apply Forall_app. split; [apply (o_channel _ _ _ (proj2 Hg) c)|by constructor].
  - intros Hg' Hf'. destruct (runs_frame _ _ _ _ Hf' Hr) as (r' & Hr' & _). by apply (recv_wait_call c t r').
Qed.

Lemma recv_woken_call c t r w : good w -> runs w t r -> is_call (recv_woken c) w.
Proof.
  intros Hg Hr. unfold recv_woken. apply (canceled_gives t r); [done|done|]. destruct (is_canceled r); [by apply answers|].
  apply gives_get. destruct (queue_ (channels w c)) eqn:Eq; [by apply (recv_wait_call c t r)|by eapply recv_take_call].
Qed.

Lemma send_call c v w : good w -> is_call (send c v) w.
Proof.
  intros Hg. unfold send. apply gives_get. pose proof (o_channel _ _ _ (proj2 Hg) c) as [Htok _].
  assert (forall w', good w' -> is_call (modify (fun w => set_channel c (mkChannel (queue_ (channels w c) ++ [v]) (chan_tokens (channels w c))) w);;
    note (Sent c v);; mret (Some (Bool true))) w') as Hrest.
  { intros w' Hg'. apply touch_note; [done|done|by apply O_send, Hg'|]. intros Hg2 _. by apply answers. }
  destruct (queue_ (channels w c)) eqn:Eq, (chan_tokens (channels w c)) as [|t rest] eqn:Et; try by apply Hrest.
  apply Forall_cons in Htok as [Ht Htok]. apply gives_assoc, touch_call; [done|done|by apply O_channel_waits; [apply Hg|]|].
  intros Hg1 _. apply gives_assoc, resume_call; [done|done|]. intros b w2 Hg2 _ _. apply gives_unit, Hrest, Hg2.
Qed.

Lemma release_call s w : good w -> count_ (semaphores w s) < B -> is_call (release s) w.
Proof.
  intros Hg Hlt. unfold release. apply gives_get. pose proof (o_semaphore _ _ _ (proj2 Hg) s) as (Htok & Hn & _).
  assert (forall w', good w' -> count_ (semaphores w' s) = count_ (semaphores w s) -> is_call (
    n ← int_of (count_ (semaphores w s) + 1);
    modify (fun w => set_semaphore s (mkSemaphore n (sem_tokens (semaphores w s))) w);; note (Released s);; mret (Some (Bool true))) w') as Hrest.
  { intros w' Hg' E. pose proof (o_semaphore _ _ _ (proj2 Hg') s) as (Htok' & Hn' & _). apply int_gives; [lia|].
    apply touch_note; [done|done| |].
    - apply (O_semaphore w' s _ _ (Some (Released s))); [apply Hg'|done|lia|right; split; [done|lia]].
    - intros Hg2 _. by apply answers. }
  destruct (sem_tokens (semaphores w s)) as [|t rest] eqn:Et; [by apply Hrest|]. apply Forall_cons in Htok as [Ht Htok].
  destruct (count_ (semaphores w s) =? 0) eqn:E0; [|by apply Hrest].
  apply gives_assoc, touch_call; [done|done|by apply (O_semaphore w s _ _ None); [apply Hg|..]|].
  intros Hg1 _. apply gives_assoc, resume_call; [done|done|]. intros b w2 Hg2 _ Ho. apply gives_unit, Hrest; [done|].
  assert (semaphores w2 = semaphores (set_semaphore s (mkSemaphore (count_ (semaphores w s)) rest) w)) as ->.
  { unfold objects in Ho. by injection Ho. }
  cbn. by rewrite fn_same.
Qed.

Lemma cond_add_call c v w : good w -> is_call (cond_add c v) w.
Proof.
  intros Hg. apply touch_call; [done|done|apply O_condition; [apply Hg|apply (o_condition _ _ _ (proj2 Hg))]|].
  intros Hg' _. by apply answers.
Qed.

Lemma cond_woken_call c t r w : good w -> runs w t r -> is_call (cond_woken c) w.
Proof.
  intros Hg Hr. apply touch_call; [done|done|apply O_condition; [apply Hg|apply (o_condition _ _ _ (proj2 Hg))]|].
  intros Hg' Hf'. destruct (runs_frame _ _ _ _ Hf' Hr) as (r' & Hr' & _). apply (canceled_gives t r'); [done|done|]. by apply answers.
Qed.

Lemma cond_wait_call c t r w : good w -> runs w t r -> is_call (cond_wait c) w.
Proof.
  intros Hg Hr. destruct (good_live _ _ _ Hg (proj1 (proj2 Hr))) as (Ht & Hnull & _). unfold cond_wait. apply gives_get.
  destruct (_ || _); [by apply answers|]. apply (current_gives t); [apply Hr|].
  apply touch_call; [done|done|by apply O_condition; [apply Hg|]|]. intros Hg' Hf'.
  destruct (runs_frame _ _ _ _ Hf' Hr) as (r' & Hr' & _). eapply wait_gives; [done|done|done| |].
  - intros _. by apply (cond_woken_call c t r').
  - intros _ w' H1 H2 _. by apply gives_ret.
Qed.

Lemma cond_post_call c v w : good w -> is_call (cond_post c v) w.
Proof.
  intros Hg. pose proof (o_condition _ _ _ (proj2 Hg) c) as Htok. set (x := conditions w c) in *.
  assert (forall l w', good w' -> is_call ((if negb (isNull (wait_token_ x)) then resume (wait_token_ x);; mret () else mret ());;
    modify (fun w => set_condition c (mkCondition l (conds_ (conditions w c)) token_null) w);; mret (Some (Bool true))) w') as Hrest.
  { intros l w1 Hg1. assert (forall w', good w' -> is_call (modify (fun w => set_condition c (mkCondition l (conds_ (conditions w c)) token_null) w);;
      mret (Some (Bool true))) w') as Hlast.
    { intros w' Hg'. apply touch_call; [done|done|by apply O_condition; [apply Hg'|apply tok_wf_null]|]. intros Hg2 _. by apply answers. }
    destruct (negb _); [|by apply gives_unit, Hlast]. apply gives_assoc, resume_call; [done|done|].
    intros b w2 Hg2 _ _. by apply gives_unit, Hlast. }
  unfold cond_post. apply gives_get. cbn zeta. fold x.
  destruct (negb (bool_decide (v ∈ conds_ x))); [by apply answers|].
  destruct (logic_ x); (apply touch_call; [done|done|by apply O_condition; [apply Hg|]|]); intros Hg1 _; [|by apply Hrest].
  destruct (bool_decide _); [by apply Hrest|by apply answers].
Qed.

Lemma broadcast_woken_call t r w : good w -> runs w t r -> is_call broadcast_woken w.
Proof. intros Hg Hr. apply (canceled_gives t r); [done|done|]. by apply answers. Qed.

Lemma broadcast_wait_call b t r w : good w -> runs w t r -> is_call (broadcast_wait b) w.
Proof.
  intros Hg Hr. destruct (good_live _ _ _ Hg (proj1 (proj2 Hr))) as (Ht & Hnull & _). unfold broadcast_wait.
  apply (current_gives t); [apply Hr|]. apply touch_call; [done|done| |].
  - apply O_broadcast; [apply Hg|]. apply Forall_app. split; [apply (o_broadcast _ _ _ (proj2 Hg))|by constructor].
  - intros Hg' Hf'. destruct (runs_frame _ _ _ _ Hf' Hr) as (r' & Hr' & _). eapply wait_gives; [done|done|done| |].
    + intros _. by apply (broadcast_woken_call t r').
    + intros _ w' H1 H2 _. by apply gives_ret.
Qed.

Lemma resume_all_call l w (k : () -> MW (option reply)) : good w -> Forall tok_wf l ->
  (forall w', good w' -> is_call (k ()) w') -> is_call (resume_all l ≫= k) w.
Proof.
  intros Hg Hl Hk. revert w Hg. induction Hl as [|t l Ht _ IH]; intros w Hg; cbn [resume_all]; [by apply gives_unit, Hk|].
  apply gives_assoc, resume_call; [done|done|]. intros b w' Hg' _ _. by apply IH.
Qed.

Lemma broadcast_post_call b w : good w -> is_call (broadcast_post b) w.
Proof.
  intros Hg. unfold broadcast_post. apply gives_get. apply resume_all_call; [done|apply (o_broadcast _ _ _ (proj2 Hg))|].
  intros w' Hg'. apply touch_call; [done|done|by apply O_broadcast; [apply Hg'|]|]. intros Hg2 _. by apply answers.
Qed.

(** *** All calls *)

(** Calls that any context can make, and tokens that were given out. *)
Definition tokens_ok (o : call) : Prop := match o with Resume t | Cancel t | Join t => tok_wf t | _ => True end.
Definition main_call (o : call) : Prop :=
  match o with
  | Wait | Yield | Join _ | Lock _ | Unlock _ | Acquire _ | Recv _ | CondWait _ | BroadcastWait _ => False
  | _ => True
  end.

Lemma cancel_call t w : good w -> tok_wf t -> is_call (b ← cancel t; mret (Some (Bool b))) w.
Proof.
  intros Hg Ht. unfold cancel. apply gives_assoc, at_gives; [apply Hg|done|].
  destruct (look w t) as [r|] eqn:Er; [|by apply answers]. apply gives_assoc.
  pose proof Hg as [HK HO]. pose proof HK as (_ & _ & _ & _ & Hk). destruct (Hk _ _ Er) as (Htok & Hnull & Hjoin & _).
  apply (change_call _ _ _ r); [done|done|by split_and!; [|left|]|done|done|done|]. intros w1 Hg1 _ Hl1.
  eapply (gives_bind _ _ _ (fun _ w' => good w' /\ frame w1 w')).
  - eapply gives_mono; [eapply ready_gives; [apply Hg1|by rewrite Hl1, decide_True]|].
    intros b w' (H1 & H2 & H3 & _). split; [split; [done|by apply (O_objects _ _ w1); [|apply Hg1]]|done].
  - intros b w' [Hg' Hf']. apply call_after; [done|by apply answers].
Qed.

Lemma exec_call o w : good w -> tokens_ok o -> match o with Create _ => False | _ => True end ->
  match o with Release s => count_ (semaphores w s) < B | _ => True end ->
  main_call o \/ (exists t r, runs w t r) -> is_call (exec o) w.
Proof.
  intros Hg Hto Hc Hb Hr.
  assert (forall P : Prop, main_call o = False -> (forall t r, runs w t r -> P) -> P) as Hrun.
  { intros P Hm H. destruct Hr as [Hm'|(t & r & Hr)]; [by rewrite Hm in Hm'|by eapply H]. }
  destruct o; try done; cbn [exec].
  - apply resume_call; [done|done|]. intros b w' Hg' _ _. by apply answers.
  - by apply cancel_call.
  - apply Hrun; [done|]. intros t r Hr'. by apply (wait_call AtWait t r).
  - apply Hrun; [done|]. intros t r Hr'. by apply (yield_call w t r).
  - apply Hrun; [done|]. intros t' r Hr'. by apply (join_call t w t' r).
  - apply Hrun; [done|]. intros t r Hr'. by apply (lock_call m t r).
  - apply Hrun; [done|]. intros t r Hr'. by apply (unlock_call m t r).
  - apply Hrun; [done|]. intros t r Hr'. by apply (acquire_call s t r).
  - by apply release_call.
  - by apply send_call.
  - apply Hrun; [done|]. intros t r Hr'. by apply (recv_call c t r).
  - by apply cond_add_call.
  - apply Hrun; [done|]. intros t r Hr'. by apply (cond_wait_call c t r).
  - by apply cond_post_call.
  - apply Hrun; [done|]. intros t r Hr'. by apply (broadcast_wait_call b t r).
  - by apply broadcast_post_call.
Qed.

(** What a routine does first. *)
Lemma go_on_call t r w : good w -> runs w t r -> at_ r <> Own -> is_call (go_on (at_ r)) w.
Proof.
  intros Hg Hr Hown. destruct (at_ r) as [| | | | |m|s|c|c|b]; cbn [go_on]; try done; try by apply answers.
  - apply (current_gives t); [apply Hr|]. destruct Hr as (Hcur & Hl & Hd). pose proof Hg as [(_ & _ & _ & _ & Hk) _].
    destruct (Hk _ _ Hl) as (_ & _ & Hjoin & _). apply (change_call _ _ _ r); [done|done|by split_and!; [|left|]|done|done|done|].
    intros w' Hg' _ _. by apply answers.
  - apply (canceled_gives t r); [done|done|]. by apply answers.
  - by apply (lock_woken_call m t r).
  - by apply (acquire_woken_call s t r).
  - by apply (recv_woken_call c t r).
  - by apply (cond_woken_call c t r).
  - by apply (broadcast_woken_call t r).
Qed.

End calls.

(** ** Switching keeps the invariant *)

Lemma K_mono tmp n n' w : n <= n' -> K tmp n w -> K tmp n' w.
Proof. intros Hn (H1 & H2 & H3). split; [done|]. split; [lia|done]. Qed.

Lemma O_mono init B B' w : B <= B' -> O init B w -> O init B' w.
Proof. intros HB []. split; try done. intros s. destruct (o_semaphore0 s) as (H1 & H2 & H3). split_and!; [done|lia..]. Qed.

(** A token is done that is not of a ready routine. *)
Lemma K_drop t tmp n w : K (t :: tmp) n w -> (forall r, look w t = Some r -> state r <> kReady) -> K tmp n w.
Proof.
  intros (H1 & H2 & H3 & H4 & H5) Ht. split; [done|]. split; [done|]. split.
  { apply Forall_app in H3 as [H3 H6]. apply Forall_cons in H6 as [_ H6]. by apply Forall_app. }
  split; [done|]. intros t0 r0 Hr. destruct (H5 _ _ Hr) as (H6 & H7 & H8 & H9 & H10). split_and!; [done..| |done].
  intros Hs. specialize (H9 Hs). rewrite elem_of_app, elem_of_cons in H9. rewrite elem_of_app.
  destruct H9 as [?|[->|?]]; [by left|by destruct (Ht _ Hr)|by right].
Qed.

Lemma K_free tmp n w w' t : K tmp n w -> recabs w w' -> (forall t', look w' t' = if decide (t' = t) then None else look w t') -> K tmp n w'.
Proof.
  intros (Hc & Hn & Ht & Hp & Hk) Hre Hl. unfold K. destruct (recabs_fields _ _ Hre) as (-> & -> & -> & _).
  destruct Hre as (_ & Hc' & Hcells). split; [done|]. split; [lia|]. split_and!; [done..|]. intros t0 r0. rewrite Hl.
  case_decide as Hd; [done|apply Hk].
Qed.

(** No routine comes, goes, or is not cancelled any more. *)
Definition steady (w w' : world) : Prop := forall t, match look w t, look w' t with
  | Some r, Some r' => is_canceled r = true -> is_canceled r' = true
  | None, None => True
  | _, _ => False
  end.

Lemma frame_steady w w' : frame w w' -> steady w w'.
Proof. intros (_ & _ & H) t. specialize (H t). destruct (look w t), (look w' t); try done. by destruct H as (_ & _ & H). Qed.

Lemma steady_trans w1 w2 w3 : steady w1 w2 -> steady w2 w3 -> steady w1 w3.
Proof. intros H1 H2 t. specialize (H1 t). specialize (H2 t). destruct (look w1 t), (look w2 t), (look w3 t); auto; done. Qed.

Lemma steady_change w w' t r f : look w t = Some r -> (forall t', look w' t' = if decide (t' = t) then Some (f r) else look w t') ->
  (is_canceled r = true -> is_canceled (f r) = true) -> steady w w'.
Proof. intros Hr Hl Hc t'. rewrite Hl. case_decide as Hd; [subst; by rewrite Hr|by destruct (look w t')]. Qed.

(** The routine is in its own code. *)
Definition own (w : world) (t : Token) : Prop :=
  exists r, look w t = Some r /\ at_ r = Own /\ (state r = kRunning \/ state r = kReady).

(** It has switched back, or its entry has returned. *)
Definition gone (w : world) (t : Token) : Prop :=
  exists r, look w t = Some r /\ (state r = kDead \/ at_ r <> Own /\ state r <> kRunning).

Section switching.

Context (n : Z) (init : nat -> Z) (B : Z).
Hypothesis HB : B < 2 ^ 31 - 1.

Lemma switch_gives {A} t r tmp0 tmp w (k : bool -> MW A) R : good tmp0 n init B w -> tmp0 = tmp \/ tmp0 = t :: tmp ->
  curr_routine w = None -> look w t = Some r ->
  (forall w', good tmp n init B w' -> curr_routine w' = Some t -> main_at w' = main_at w -> own w' t -> steady w w' -> gives (k true) w' R) ->
  (forall w', good tmp n init B w' -> curr_routine w' = Some t -> main_at w' = main_at w -> gone w' t -> is_canceled r = false ->
    gives (k false) w' R) ->
  gives (switch_to t ≫= k) w R.
Proof.
  intros [HK HO] Htmp Hcur Hl Hown Hgone. pose proof HK as (_ & _ & _ & _ & Hk). destruct (Hk _ _ Hl) as (Htok & Hnull & Hjoin & _ & Hst).
  destruct Hst as (Hnr & Hnd & Hno); [congruence|].
  eapply (gives_bind _ _ _ (fun b w' => good tmp n init B w' /\ curr_routine w' = Some t /\ main_at w' = main_at w /\
    if (b : bool) then own w' t /\ steady w w' else gone w' t /\ is_canceled r = false)).
  2: { intros [] w' (H1 & H2 & H3 & H4 & H5); [by apply Hown|by apply Hgone]. }
  unfold switch_to. apply gives_get. rewrite Hcur. apply gives_modify. set (w1 := set_curr (Some t) w).
  assert (K tmp0 n w1) as HK1.
  { destruct HK as (H1 & H2 & H3 & H4 & H5). split_and!; try done; try apply H1. intros t0 r0 Hr0. destruct (H5 _ _ Hr0) as (H6 & H7 & H8 & H9 & H10).
    split_and!; [done..|]. intros _. apply H10. congruence. }
  assert (O init B w1) as HO1 by (by apply (O_objects _ _ w)).
  apply (change_gives _ _ _ r); [apply HK1|done|]. intros w2 Hre Hl2. destruct (recabs_fields _ _ Hre) as (H1 & H2 & H3 & H4 & H5).
  assert (K tmp0 n w2) as HK2'.
  { apply (K_change _ _ _ _ t r _ HK1 Hl Hre Hl2); [done|done|done|]. cbn. by intros []. }
  assert (look w2 t = Some (set_state kRunning r)) as Hl2t by (by rewrite Hl2, decide_True).
  assert (K tmp n w2) as HK2.
  { destruct Htmp as [->| ->]; [done|]. apply (K_drop t); [done|]. intros r0. rewrite Hl2t. by intros [= <-]. }
  assert (good tmp n init B w2) as Hg2 by (split; [done|by apply (O_objects _ _ w1)]).
  apply (the_gives _ _ (set_state kRunning r)); [apply HK2|done|].
  assert (runs w2 t (set_state kRunning r)) as Hr2 by (by split_and!; [rewrite H1| |]).
  eapply gives_bind; [by apply (go_on_call tmp n init B HB t _ w2 Hg2 Hr2)|]. intros ans w3 [Hg3 Hc3].
  assert (steady w w2) as Hst2.
  { apply (steady_trans _ w1); [intros t'; change (look w1 t') with (look w t'); by destruct (look w t')|].
    by apply (steady_change _ _ t r (set_state kRunning)). }
  destruct ans as [b|].
  - destruct (runs_frame _ _ _ _ Hc3 Hr2) as (r3 & (Hcur3 & Hl3 & Hd3) & He3). pose proof Hg3 as [HK3 HO3].
    apply (change_gives _ _ _ r3); [apply HK3|done|]. intros w4 Hre4 Hl4. destruct (recabs_fields _ _ Hre4) as (G1 & G2 & G3 & G4 & G5).
    pose proof HK3 as (_ & _ & _ & _ & Hk3). destruct (Hk3 _ _ Hl3) as (Htok3 & _ & Hjoin3 & Hready3 & _).
    apply gives_ret. split; [split|split_and!].
    + apply (K_change _ _ _ _ t r3 _ HK3 Hl3 Hre4 Hl4); [done|done|done|]. by rewrite Hcur3.
    + by apply (O_objects _ _ w3).
    + by rewrite G1.
    + rewrite G4, (proj1 (proj2 Hc3)), H4. done.
    + exists (set_at Own r3). split_and!; [by rewrite Hl4, decide_True|done|]. cbn. destruct He3 as (_ & [->|[-> _]] & _); [by left|by right].
    + apply (steady_trans _ w2); [done|]. apply (steady_trans _ w3); [by apply frame_steady|]. by apply (steady_change _ _ t r3 (set_at Own)).
  - destruct Hc3 as (t' & r2 & r3 & G1 & G2 & G3 & G4 & G5 & G6 & G7 & G8 & G9). rewrite H1 in G1. injection G1 as <-.
    rewrite Hl2t in G2. injection G2 as <-. apply gives_ret. split; [done|]. split; [done|]. split; [by rewrite G5, H4|]. split; [|done].
    exists r3. split; [done|]. by right.
Qed.

Lemma came_back_gives {A} t tmp w (k : () -> MW A) R : good tmp n init B w -> curr_routine w = Some t -> gone w t ->
  (forall w', good tmp n init B w' -> curr_routine w' = None -> main_at w' = main_at w ->
    (forall t', t' <> t -> match look w t', look w' t' with
      | Some r, Some r' => is_canceled r = true -> is_canceled r' = true | None, None => True | _, _ => False end) ->
    (forall r, look w t = Some r -> forall r', look w' t = Some r' -> is_canceled r = true -> is_canceled r' = true) ->
    gives (k ()) w' R) ->
  gives (came_back t ≫= k) w R.
Proof.
  intros [HK HO] Hcur (r & Hl & Hg) Hk. unfold came_back.
  assert (forall w', K tmp n w' -> O init B w' -> curr_routine w' = Some t ->
    (forall r', look w' t = Some r' -> state r' <> kRunning /\ state r' <> kDead /\ at_ r' <> Own) ->
    good tmp n init B (set_curr None w')) as Hnone.
  { intros w' (H1 & H2 & H3 & H4 & H5) HO' Hc' Ht'. split; [|by apply (O_objects _ _ w')]. split_and!; try done; try apply H1.
    intros t0 r0 Hr0. destruct (H5 _ _ Hr0) as (H6 & H7 & H8 & H9 & H10). split_and!; [done..|]. intros _.
    destruct (decide (t0 = t)) as [->|Hne]; [by apply Ht'|]. apply H10. congruence. }
  apply gives_assoc, (the_gives _ _ r); [apply HK|done|].
  destruct (decide (state r = kDead)) as [Hd|Hd].
  - rewrite Hd. apply gives_assoc, gives_assoc, (free_gives _ _ r); [apply HK|done|]. intros w1 Hre Hl1.
    destruct (recabs_fields _ _ Hre) as (H1 & H2 & H3 & H4 & H5).
    assert (good tmp n init B w1) as Hg1 by (split; [by eapply K_free|by apply (O_objects _ _ w)]).
    assert (forall w', good tmp n init B w' -> frame w1 w' -> gives (k ()) (set_curr None w') R) as Hfin.
    { intros w' [HK' HO'] (F1 & F2 & F3). apply Hk.
      - apply Hnone; [done|done|congruence|]. intros r' Hr'. specialize (F3 t). by rewrite Hl1, decide_True, Hr' in F3.
      - done.
      - cbn. congruence.
      - intros t' Hne. specialize (F3 t'). rewrite Hl1, decide_False in F3 by done. change (look (set_curr None w') t') with (look w' t').
        destruct (look w t'), (look w' t'); try done. by destruct F3 as (_ & _ & F3).
      - intros r1 _ r' Hr'. specialize (F3 t). change (look (set_curr None w') t) with (look w' t) in Hr'. by rewrite Hl1, decide_True, Hr' in F3. }
    pose proof HK as (_ & _ & _ & _ & Hk0). destruct (Hk0 _ _ Hl) as (_ & _ & Hjoin & _).
    destruct (negb (isNull (join_token r))).
    + apply gives_assoc, (resume_gives tmp n init B); [done|done|]. intros b w2 Hg2 Hf2 _. apply gives_unit, gives_modify. by apply Hfin.
    + apply gives_unit, gives_modify. apply Hfin; [done|apply sch_frame_refl].
  - destruct Hg as [Hg|Hg]; [done|].
    assert (gives (modify (set_curr None) ≫= k) w R) as H.
    { apply gives_modify. apply Hk; [|done|done| |].
      - apply Hnone; [done|done|done|]. intros r'. rewrite Hl. intros [= <-]. by destruct Hg.
      - intros t' _. change (look (set_curr None w) t') with (look w t'). by destruct (look w t').
      - intros r1 Hr1 r'. change (look (set_curr None w) t) with (look w t). rewrite Hr1. by intros [= <-]. }
    by destruct (state r); try (by apply gives_unit).
Qed.

Definition all_canceled (w : world) : Prop := forall t r, look w t = Some r -> is_canceled r = true.

(** Between two events: the main routine is anywhere but in a loop, or in one of the two
    loops with a routine in its own code. *)
Definition between (cleaned : bool) (w : world) : Prop :=
  match main_at w, curr_routine w with
  | InMain, None => good [] n init B w
  | InSchedule tmp, Some t => good tmp n init B w /\ own w t
  | InCleanup rest, Some t => cleaned = true /\ good [] n init B w /\ own w t /\ all_canceled w /\ NoDup rest /\ (t ∉ rest) /\
      Forall (fun t' => is_Some (look w t')) rest
  | _, _ => False
  end.

Lemma good_main tmp x w : good tmp n init B w -> good tmp n init B (set_main x w).
Proof. intros [HK HO]. split; [by apply (K_same _ _ w)|by apply (O_objects _ _ w)]. Qed.

Lemma schedule_loop_ok cleaned tmp w : good tmp n init B w -> curr_routine w = None ->
  gives (schedule_loop tmp) w (fun _ w' => between cleaned w').
Proof.
  revert w. induction tmp as [|t tmp IH]; intros w Hg Hc; cbn [schedule_loop].
  - exists (), (set_main InMain w). split; [done|]. unfold between. cbn. rewrite Hc. by apply good_main.
  - pose proof Hg as [HK HO]. pose proof HK as (_ & _ & Htok & _). apply Forall_app in Htok as [_ Htok]. apply Forall_cons in Htok as [Ht _].
    apply at_gives; [apply HK|done|]. destruct (look w t) as [r|] eqn:El.
    + apply (switch_gives t r (t :: tmp) tmp); [done|by right|done|done| |].
      * intros w' Hg' Hc' _ Hown _. exists (), (set_main (InSchedule tmp) w'). split; [done|]. unfold between. cbn. rewrite Hc'.
        split; [by apply good_main|done].
      * intros w' Hg' Hc' _ Hgone _. apply (came_back_gives t tmp); [done|done|done|]. intros w2 Hg2 Hc2 _ _ _. by apply IH.
    + apply IH; [|done]. split; [|done]. apply (K_drop t); [done|]. intros r. by rewrite El.
Qed.

Lemma all_routines_gives {A} w (k : list Token -> MW A) R : good [] n init B w ->
  (forall l, NoDup l -> (forall t, t ∈ l <-> is_Some (look w t)) -> Z.of_nat (length l) = ts_size (routine_cabinet w) -> gives (k l) w R) ->
  gives (all_routines ≫= k) w R.
Proof.
  intros [((Hw & Hs & Ht) & Hcells & _ & _ & Hk) HO] Hl. destruct (ts_objects_ok (routine_cabinet w) Hw) as (l0 & E & Hp).
  set (m := ts_view (routine_cabinet w)) in *.
  assert (forall t p, (t, p) ∈ map_to_list m -> option_map token p = Some t) as Hmap.
  { intros t p Hin%elem_of_map_to_list. destruct (Hs _ _ Hin) as [r ->]. cbn. f_equal.
    apply (Hk t r). unfold look. fold m. by rewrite Hin. }
  set (l := omap (option_map token) l0).
  assert (l ≡ₚ (map_to_list m).*1) as Hpl.
  { unfold l. rewrite Hp. revert Hmap. generalize (map_to_list m). clear. intros kv Hmap.
    induction kv as [|[t p] kv IH]; [done|]. cbn. rewrite (Hmap t p) by (by left). constructor. apply IH. intros t' p' Hin. apply Hmap. by right. }
  assert (mapM (option_map token) l0 = Some l) as EM.
  { assert (Forall (fun p => is_Some (option_map token p)) l0) as Hall.
    { apply Forall_forall. intros p Hin. rewrite Hp in Hin. apply list_elem_of_fmap in Hin as ([t p'] & -> & Hin). cbn.
      rewrite (Hmap _ _ Hin). by eexists. }
    unfold l. clear -Hall. induction Hall as [|p l0 [t Et] _ IH]; [done|]. cbn. rewrite Et. cbn. by rewrite IH. }
  destruct (Hl l) as (a & w' & Ea & Hr).
  - rewrite Hpl. apply NoDup_fst_map_to_list.
  - intros t. rewrite Hpl. rewrite list_elem_of_fmap. unfold look. fold m. split.
    + intros ([t' p] & -> & Hin%elem_of_map_to_list). cbn. rewrite Hin. destruct (Hs _ _ Hin) as [r ->]. by exists r.
    + intros [r Hr]. destruct (m !! t) as [p|] eqn:Em; [|done]. exists (t, p). split; [done|]. by apply elem_of_map_to_list.
  - rewrite Hpl, length_fmap, (ts_size_ok _ Hw). fold m. by rewrite length_map_to_list.
  - exists a, w'. split; [|done]. unfold all_routines, mbind, M_bind, get. rewrite E. cbn [the mret M_ret]. unfold mret, M_ret. by rewrite EM.
Qed.

Lemma cleanup_pass_gives {A} l w (k : bool -> MW A) R : good [] n init B w -> curr_routine w = None -> all_canceled w -> NoDup l ->
  Forall (fun t => is_Some (look w t)) l -> (forall w', between true w' -> gives (k true) w' R) -> (l = [] -> gives (k false) w R) ->
  gives (cleanup_pass l ≫= k) w R.
Proof.
  intros Hg Hc Hcan Hnd Hlive Hrun Hdone. destruct l as [|t l]; cbn [cleanup_pass]; [by apply Hdone|].
  apply NoDup_cons in Hnd as [Hni Hnd]. apply Forall_cons in Hlive as [[r Hr] Hlive].
  apply gives_assoc, (switch_gives t r [] []); [done|by left|done|done| |].
  - intros w' Hg' Hc' _ Hown Hst. apply gives_assoc, gives_modify, gives_unit. apply Hrun. unfold between. cbn. rewrite Hc'.
    assert (forall t', is_Some (look w t') -> is_Some (look w' t')) as Hsome.
    { intros t' [r' Hr']. specialize (Hst t'). rewrite Hr' in Hst. by destruct (look w' t'). }
    split; [done|]. split; [by apply good_main|]. split; [done|]. split; [|split; [done|split; [done|]]].
    + intros t' r' Hr'. change (look w' t' = Some r') in Hr'. specialize (Hst t'). rewrite Hr' in Hst.
      destruct (look w t') as [r0|] eqn:E0; [|done]. apply Hst. by eapply Hcan.
    + eapply Forall_impl; [exact Hlive|]. intros t'. apply Hsome.
  - intros w' _ _ _ _ Hcf. by rewrite (Hcan _ _ Hr) in Hcf.
Qed.

Lemma cleanup_loop_ok l w : good [] n init B w -> curr_routine w = None -> all_canceled w -> NoDup l ->
  Forall (fun t => is_Some (look w t)) l -> 0 <= n -> gives (cleanup_loop 1 l) w (fun _ w' => between true w').
Proof.
  intros Hg Hc Hcan Hnd Hlive Hn. cbn [cleanup_loop]. apply cleanup_pass_gives; [done..| |].
  { intros w' H. by apply gives_ret. }
  intros ->. apply gives_get. destruct (Z.eqb_spec (ts_size (routine_cabinet w)) 0) as [E0|E0].
  - set (w' := set_main InMain (set_cabinet (ts_clear (routine_cabinet w)) w)). exists (), w'. split; [done|].
    unfold between, w'. cbn. rewrite Hc. destruct (ts_clear_ok (routine_cabinet w)) as (H1 & H2 & H3).
    destruct Hg as [(H4 & H5 & H6 & H7 & H8) HO]. split; [|by apply (O_objects _ _ w)].
    assert (forall t, look w' t = None) as Hnone by (intros t; unfold look, w'; cbn; by rewrite H2, lookup_empty).
    split; [split; [exact H1|split]|].
    + intros t p. cbn. by rewrite H2, lookup_empty.
    + intros t r Hr. by rewrite Hnone in Hr.
    + split; [cbn; lia|]. split; [done|]. split; [done|]. intros t r Hr. by rewrite Hnone in Hr.
  - apply all_routines_gives; [done|]. intros l Hnd' Hl Hlen. apply cleanup_pass_gives; [done..| | |].
    + apply Forall_forall. intros t. apply Hl.
    + intros w' H. by apply gives_ret.
    + intros ->. cbn in Hlen. lia.
Qed.

Lemma cleanup_mark_gives {A} l w (k : () -> MW A) R : good [] n init B w -> curr_routine w = None -> NoDup l ->
  Forall (fun t => is_Some (look w t)) l ->
  (forall w', good [] n init B w' -> curr_routine w' = None -> 
    (forall t r', look w' t = Some r' -> is_canceled r' = true \/ (t ∉ l) /\ look w t = Some r') -> gives (k ()) w' R) ->
  gives (cleanup_mark l ≫= k) w R.
Proof.
  intros Hg Hc Hnd. revert w Hg Hc. induction Hnd as [|t l Hni Hnd IH]; intros w Hg Hc Hlive Hk; cbn [cleanup_mark].
  - apply gives_unit. apply Hk; [done|done|]. intros t r' Hr'. right. split; [by intros ?%not_elem_of_nil|done].
  - apply Forall_cons in Hlive as [[r Hr] Hlive]. pose proof Hg as [HK HO]. apply gives_assoc, (the_gives _ _ r); [apply HK|done|].
    assert (forall w1 o, recabs w w1 -> good [] n init B w1 -> (forall t', look w1 t' = if decide (t' = t) then o else look w t') ->
      (forall r', o = Some r' -> is_canceled r' = true) -> gives (cleanup_mark l ≫= k) w1 R) as Hrest.
    { intros w1 o Hre Hg1 Hl1 Ho. apply IH; [done|by rewrite (proj1 (recabs_fields _ _ Hre))| |].
      - rewrite Forall_forall in Hlive |- *. intros t' Hin. rewrite Hl1. case_decide; [by subst|by apply Hlive].
      - intros w' Hg' Hc' Hl'. apply Hk; [done|done|]. intros t' r' Hr'. destruct (Hl' _ _ Hr') as [?|[Hin Hr1]]; [by left|].
        rewrite Hl1 in Hr1. case_decide as Hd; [left; by apply Ho|right]. split; [|done]. rewrite not_elem_of_cons. by split. }
    pose proof HK as (_ & _ & _ & _ & Hk0). destruct (Hk0 _ _ Hr) as (Htok & Hnull & Hjoin & Hready & Hcur).
    apply gives_assoc. destruct (negb (is_started r)).
    + apply (free_gives _ _ r); [apply HK|done|]. intros w1 Hre Hl1. apply (Hrest w1 None); [done| |done|done].
      split; [by eapply K_free|]. apply (O_objects _ _ w); [apply (recabs_fields _ _ Hre)|done].
    + apply (change_gives _ _ _ r); [apply HK|done|]. intros w1 Hre Hl1. apply (Hrest w1 (Some (set_canceled r))); [done| |done|by intros r' [= <-]].
      split; [|apply (O_objects _ _ w); [apply (recabs_fields _ _ Hre)|done]]. by apply (K_change _ _ _ _ t r _ HK Hr Hre Hl1).
Qed.

Lemma sch_cleanup_ok w : good [] n init B w -> curr_routine w = None -> 0 <= n -> gives cleanup w (fun _ w' => between true w').
Proof.
  intros Hg Hc Hn. unfold cleanup. apply gives_get. rewrite Hc. apply all_routines_gives; [done|]. intros l Hnd Hl _.
  apply cleanup_mark_gives; [done|done|done|apply Forall_forall; intros t; apply Hl|]. intros w' Hg' Hc' Hcan.
  apply cleanup_loop_ok; [done|done| |constructor|constructor|done].
  intros t r Hr. destruct (Hcan _ _ Hr) as [?|[Hni Hr']]; [done|]. destruct Hni. apply Hl. by exists r.
Qed.

End switching.

(** ** Executions *)

Lemma create_gives {A} run_now tmp n init B w (k : Token -> MW A) R : good tmp n init B w -> n < SIZE_MAX ->
  (forall t w', good tmp (n + 1) init B w' -> curr_routine w' = curr_routine w -> main_at w' = main_at w ->
    (forall t0 r0, look w t0 = Some r0 -> exists r', look w' t0 = Some r' /\ evolves r0 r') -> gives (k t) w' R) ->
  gives (create run_now ≫= k) w R.
Proof.
  intros [HK HO] Hn Hk. pose proof HK as ((Hw & Hs & Ht) & Hcells & Htok & Hposted & Hk0).
  set (r0 := mkRoutine token_null kSuspend false false token_null Fresh).
  destruct (ts_alloc_ok (routine_cabinet w) (Some r0) Hw) as (s & t & E & Hw1 & Htw & Hnull & Hnone & Hv & Hc1); [lia|].
  set (w1 := set_cabinet s w).
  assert (forall t', look w1 t' = if decide (t' = t) then Some r0 else look w t') as Hl1.
  { intros t'. unfold look, w1. cbn. rewrite Hv. case_decide as Hd; [subst; by rewrite lookup_insert_eq|by rewrite lookup_insert_ne]. }
  assert (cab_ok w1) as Hcab1.
  { split; [done|]. split.
    - intros t' p. cbn. rewrite Hv. destruct (decide (t' = t)) as [->|]; [rewrite lookup_insert_eq; by intros [= <-]|].
      rewrite lookup_insert_ne by done. apply Hs.
    - intros t' r'. rewrite Hl1. case_decide; [by subst|apply Ht]. }
  assert (gives (change t (fun r => mkRoutine t (state r) (is_started r) (is_canceled r) (join_token r) (at_ r));;
    (if run_now then makeRoutineReady t;; mret () else mret ());; mret t) w1
    (fun t' w' => good tmp (n + 1) init B w' /\ curr_routine w' = curr_routine w /\ main_at w' = main_at w /\
      forall t0 r0, look w t0 = Some r0 -> exists r', look w' t0 = Some r' /\ evolves r0 r')) as Hgo.
  { apply (change_gives _ _ _ r0); [done|by rewrite Hl1, decide_True|]. intros w2 Hre Hl2.
    destruct (recabs_fields _ _ Hre) as (H1 & H2 & H3 & H4 & H5).
    assert (forall t', look w2 t' = if decide (t' = t) then Some (mkRoutine t kSuspend false false token_null Fresh) else look w t') as Hl.
    { intros t'. rewrite Hl2. case_decide; [done|]. by rewrite Hl1, decide_False. }
    assert (forall t0 r1, look w t0 = Some r1 -> look w2 t0 = Some r1) as Hold.
    { intros t0 r1 Hr1. rewrite Hl, decide_False; [done|]. intros ->. unfold look in Hr1. by rewrite Hnone in Hr1. }
    assert (K tmp (n + 1) w2) as HK2.
    { destruct Hre as (_ & Hcab2 & Hcells2). split; [done|]. split; [rewrite Hcells2; cbn; lia|]. rewrite H1, H2, H3. cbn.
      split; [done|]. split; [done|]. intros t0 r1. rewrite Hl. case_decide as Hd; [|apply Hk0]. intros [= <-]. subst t0. cbn.
      by split_and!; [|apply Hnull|apply tok_wf_null| |]. }
    assert (O init B w2) as HO2 by (apply (O_objects _ _ w1); [done|by apply (O_objects _ _ w)]).
    destruct run_now.
    - apply gives_assoc. eapply gives_bind; [eapply ready_gives; [done|by rewrite Hl, decide_True]|].
      intros b w3 (HK3 & Hf3 & Ho3 & _). apply gives_unit, gives_ret. split; [split; [done|by apply (O_objects _ _ w2)]|].
      destruct Hf3 as (F1 & F2 & F3). split; [rewrite F1, H1; done|]. split; [rewrite F2, H4; done|].
      intros t0 r1 Hr1. specialize (F3 t0). rewrite (Hold _ _ Hr1) in F3. destruct (look w3 t0) as [r'|]; [by exists r'|done].
    - apply gives_unit, gives_ret. split; [done|]. split; [rewrite H1; done|]. split; [rewrite H4; done|].
      intros t0 r1 Hr1. exists r1. split; [by apply Hold|apply rt_evolves_refl]. }
  destruct Hgo as (t' & w' & E' & H1 & H2 & H3 & H4). destruct (Hk t' w' H1 H2 H3 H4) as (a & w2 & E2 & HR).
  exists a, w2. split; [|done]. etrans; [|exact E2]. apply bind_Ret. unfold create, mbind, M_bind, get. fold r0. rewrite E. exact E'.
Qed.

Definition is_cleanup (e : event) : bool := match e with Cleanup => true | _ => false end.

(** What may happen: tokens were given out, the main routine does not wait, and no
    routine is created once [cleanup()] was called. *)
Definition event_ok (cleaned : bool) (e : event) : Prop :=
  match e with
  | Main o => main_call o /\ tokens_ok o
  | Call (Create _) => cleaned = false
  | Call o => tokens_ok o
  | _ => True
  end.

Fixpoint events_ok (cleaned : bool) (l : list event) : Prop :=
  match l with [] => True | e :: l' => event_ok cleaned e /\ events_ok (cleaned || is_cleanup e) l' end.

Lemma good_mono tmp n n' init B B' w : n <= n' -> B <= B' -> good tmp n init B w -> good tmp n' init B' w.
Proof. intros Hn HB [HK HO]. split; [by apply (K_mono _ n)|by apply (O_mono _ B)]. Qed.

Lemma between_mono n n' init B B' c c' w : n <= n' -> B <= B' -> (c = true -> c' = true) -> between n init B c w -> between n' init B' c' w.
Proof.
  intros Hn HB Hc. unfold between. destruct (main_at w), (curr_routine w); try done.
  - by apply good_mono.
  - intros [H1 H2]. split; [by apply (good_mono _ n n' init B B')|done].
  - intros (H1 & H2 & H3). split; [auto|]. split; [by apply (good_mono _ n n' init B B')|done].
Qed.

Lemma own_evolves w w' t : own w t -> (forall r, look w t = Some r -> exists r', look w' t = Some r' /\ evolves r r') -> own w' t.
Proof.
  intros (r & Hr & Ha & Hs) H. destruct (H r Hr) as (r' & Hr' & He1 & He2 & _). exists r'. split; [done|]. split; [congruence|].
  destruct He2 as [->|[-> _]]; [done|by right].
Qed.

Lemma all_canceled_steady w w' : steady w w' -> all_canceled w -> all_canceled w'.
Proof.
  intros Hst Hc t r' Hr'. specialize (Hst t). rewrite Hr' in Hst. destruct (look w t) as [r|] eqn:E; [|done]. by apply Hst, (Hc t).
Qed.

(** The call of a routine answers, or it goes on in the main routine. *)
Lemma main_goes_on_ok n init B c t w : B < 2 ^ 31 - 1 -> 0 <= n ->
  curr_routine w = Some t -> gone w t ->
  match main_at w with
  | InMain => False
  | InSchedule tmp => good tmp n init B w
  | InCleanup rest => c = true /\ good [] n init B w /\ all_canceled w /\ NoDup rest /\ (t ∉ rest) /\ Forall (fun t' => is_Some (look w t')) rest
  end -> gives (came_back t;; main_goes_on) w (fun _ w' => between n init B c w').
Proof.
  intros HB Hn Hc Hgone Hm. destruct (main_at w) as [|tmp|rest] eqn:Em; [done| |].
  - eapply came_back_gives; [exact Hm|done|done|]. intros w' Hg' Hc' Hm' _ _. unfold main_goes_on. apply gives_get. rewrite Hm', Em.
    by apply schedule_loop_ok.
  - destruct Hm as (-> & Hg & Hcan & Hnd & Hni & Hlive). eapply came_back_gives; [exact Hg|done|done|].
    intros w' Hg' Hc' Hm' Hother Hself. unfold main_goes_on. apply gives_get. rewrite Hm', Em.
    apply cleanup_loop_ok; [done|done|done| |done| |done].
    + intros t' r' Hr'. destruct (decide (t' = t)) as [->|Hne].
      * destruct Hgone as (r & Hr & _). by apply (Hself r Hr r' Hr'), (Hcan t).
      * specialize (Hother t' Hne). rewrite Hr' in Hother. destruct (look w t') as [r|] eqn:E; [|done]. by apply Hother, (Hcan t').
    + rewrite Forall_forall in Hlive |- *. intros t' Hin. assert (t' <> t) as Hne by (by intros ->). specialize (Hother t' Hne).
      destruct (Hlive _ Hin) as [r Hr]. rewrite Hr in Hother. by destruct (look w' t').
Qed.

Section steps.

Context (n : Z) (init : nat -> Z) (B : Z) (cleaned : bool).
Hypothesis HB : B + 1 < 2 ^ 31 - 1.
Hypothesis Hn0 : 0 <= n.
Hypothesis Hn : n < SIZE_MAX.

Notation before := (between n init B cleaned).
Notation behind := (between (n + 1) init (B + 1) cleaned).

Lemma grow tmp w : good tmp n init B w -> good tmp (n + 1) init (B + 1) w.
Proof. apply good_mono; lia. Qed.

Lemma main_step o w : before w -> curr_routine w = None -> main_call o -> tokens_ok o ->
  gives (step (Main o)) w (fun _ w' => behind w').
Proof.
  intros Hb Hc Hm Ht. unfold between in Hb. rewrite Hc in Hb. destruct (main_at w) eqn:Em; [|done..].
  unfold step. apply gives_get. rewrite Hc. destruct (match o with Create b => Some b | _ => None end) as [b|] eqn:Eo.
  - destruct o; try done. cbn [exec]. apply gives_assoc. eapply create_gives; [done|done|].
    intros t w' Hg' Hc' Hm' _. apply gives_unit, gives_ret. unfold between. rewrite Hm', Hc', Em, Hc. apply (good_mono _ (n + 1) (n + 1) init B); [lia|lia|done].
  - eapply gives_bind; [apply (exec_call [] (n + 1) init (B + 1)); [lia|by apply grow|done|by destruct o| |by left]|].
    + destruct o; try done. pose proof (o_semaphore _ _ _ (proj2 Hb) s). lia.
    + intros ans w' [Hg' Hc']. apply gives_ret. destruct ans as [a|].
      * destruct Hc' as (F1 & F2 & _). unfold between. by rewrite F1, F2, Em, Hc.
      * destruct Hc' as (t & r & r' & Hcur & _). congruence.
Qed.

Lemma call_step o t w : before w -> curr_routine w = Some t -> event_ok cleaned (Call o) -> gives (step (Call o)) w (fun _ w' => behind w').
Proof.
  intros Hb Hc He. unfold step. apply gives_get. rewrite Hc.
  assert (exists r, runs w t r) as [r Hr].
  { unfold between in Hb. rewrite Hc in Hb. assert (own w t) as (r & Hr & _ & Hs) by (destruct (main_at w); [done|apply Hb..]).
    exists r. split_and!; [done|done|]. by destruct Hs as [-> | ->]. }
  destruct (match o with Create b => Some b | _ => None end) as [b|] eqn:Eo.
  - destruct o; try done. cbn in He. unfold between in Hb. rewrite Hc in Hb. destruct (main_at w) as [|tmp|rest] eqn:Em; [done| |by destruct Hb; congruence].
    destruct Hb as [Hg Hown]. cbn [exec]. apply gives_assoc. eapply create_gives; [done|done|].
    intros t' w' Hg' Hc' Hm' Hl'. apply gives_unit, gives_ret. unfold between. rewrite Hm', Hc', Em, Hc.
    split; [apply (good_mono _ (n + 1) (n + 1) init B); [lia|lia|done]|]. apply (own_evolves w); [done|]. intros r0. apply Hl'.
  - assert (tokens_ok o /\ match o with Create _ => False | _ => True end) as [Hto Hnc] by (by destruct o).
    assert (exists tmp, good tmp n init B w /\ match main_at w with InMain => False | InSchedule tmp' => tmp' = tmp | InCleanup _ => tmp = [] end)
      as (tmp & Hg & Htmp).
    { unfold between in Hb. rewrite Hc in Hb. destruct (main_at w) as [|tmp|rest]; [done|exists tmp; by destruct Hb|exists []; by destruct Hb as (_ & ? & _)]. }
    assert (gives (answer ← exec o; match answer with Some _ => mret () | None => came_back t;; main_goes_on end) w (fun _ w' => behind w')) as Hgo.
    2: { destruct o, (main_at w); done. }
    eapply gives_bind; [apply (exec_call tmp (n + 1) init (B + 1)); [lia|by apply grow|done|done| |right; by exists t, r]|].
    + destruct o; try done. pose proof (o_semaphore _ _ _ (proj2 Hg) s). lia.
    + intros ans w' [Hg' Hc']. destruct ans as [a|].
      * apply gives_ret. unfold between in Hb |- *. rewrite Hc in Hb. pose proof Hc' as (F1 & F2 & F3). rewrite F1, F2, Hc.
        assert (own w t -> own w' t) as Hown.
        { intros H. apply (own_evolves w); [done|]. intros r0 Hr0. by apply (frame_look w w'). }
        destruct (main_at w) as [|tmp'|rest]; [done|subst tmp'; split; [done|by apply Hown, Hb]|]. subst tmp.
        destruct Hb as (Hcl & _ & Ho & Hcan & Hnd & Hni & Hlive). split; [done|]. split; [exact Hg'|]. split; [by apply Hown|].
        split; [|split; [done|split; [done|]]].
        -- by apply (all_canceled_steady w); [apply frame_steady|].
        -- eapply Forall_impl; [exact Hlive|]. intros t0 [r0 Hr0]. destruct (frame_look _ _ _ _ Hc' Hr0) as (r1 & Hr1 & _). by exists r1.
      * destruct Hc' as (t' & r0 & r' & G1 & G2 & G3 & G4 & G5 & G6 & G7 & G8 & G9). rewrite Hc in G1. injection G1 as <-.
        apply main_goes_on_ok; [lia|lia|done|exists r'; split; [done|by right]|]. rewrite G5. unfold between in Hb. rewrite Hc in Hb.
        destruct (main_at w) as [|tmp'|rest]; [done|by subst|]. destruct Hb as (_ & _ & _ & Hcan & _). by rewrite (Hcan _ _ G2) in G3.
Qed.

Lemma return_step t w : before w -> curr_routine w = Some t -> gives (step Return) w (fun _ w' => behind w').
Proof.
  intros Hb Hc. unfold step. apply gives_get. rewrite Hc.
  assert (forall tmp, good tmp n init B w -> own w t ->
    (forall w', good tmp (n + 1) init (B + 1) w' -> curr_routine w' = Some t -> main_at w' = main_at w -> gone w' t -> steady w w' ->
      gives (came_back t;; main_goes_on) w' (fun _ w' => behind w')) ->
    gives (change t (set_state kDead);; came_back t;; main_goes_on) w (fun _ w' => behind w')) as Hgo.
  { intros tmp Hg (r & Hr & _) Hk. apply grow in Hg. destruct Hg as [HK HO].
    apply (change_gives _ _ _ r); [apply HK|done|]. intros w' Hre Hl. destruct (recabs_fields _ _ Hre) as (H1 & H2 & H3 & H4 & H5).
    pose proof HK as (_ & _ & _ & _ & Hk0). destruct (Hk0 _ _ Hr) as (Htok & Hnull & Hjoin & _). apply Hk.
    - split; [|by apply (O_objects _ _ w)]. apply (K_change _ _ _ _ t r _ HK Hr Hre Hl); [done|done|done|]. by rewrite Hc.
    - congruence.
    - done.
    - exists (set_state kDead r). split; [by rewrite Hl, decide_True|by left].
    - by apply (steady_change _ _ t r (set_state kDead)). }
  unfold between in Hb. rewrite Hc in Hb. destruct (main_at w) as [|tmp|rest] eqn:Em; [done| |].
  - destruct Hb as [Hg Hown]. apply (Hgo tmp); [done|done|]. intros w' Hg' Hc' Hm' Hgone _.
    apply main_goes_on_ok; [lia|lia|done|done|]. by rewrite Hm'.
  - destruct Hb as (Hcl & Hg & Hown & Hcan & Hnd & Hni & Hlive). apply (Hgo []); [done|done|]. intros w' Hg' Hc' Hm' Hgone Hst.
    apply main_goes_on_ok; [lia|lia|done|done|]. rewrite Hm'. split; [done|]. split; [exact Hg'|].
    split; [by apply (all_canceled_steady w)|]. split; [done|]. split; [done|].
    eapply Forall_impl; [exact Hlive|]. intros t0 [r0 Hr0]. specialize (Hst t0). rewrite Hr0 in Hst. by destruct (look w' t0).
Qed.

Lemma turn_step w : before w -> curr_routine w = None -> gives (step Turn) w (fun _ w' => behind w').
Proof.
  intros Hb Hc. pose proof Hb as Hg. unfold between in Hg. rewrite Hc in Hg. destruct (main_at w) eqn:Em; [|done..].
  unfold step. apply gives_get. rewrite Hc. destruct (posted w) as [|p] eqn:Ep.
  - apply gives_ret. eapply between_mono; [..|exact Hb]; [lia|lia|done].
  - apply grow in Hg. unfold schedule.
    assert (gives (schedule_loop (ready_routines w)) (set_ready [] p (set_ready (ready_routines w) p w)) (fun _ w' => behind w')) as H.
    { apply schedule_loop_ok; [lia| |done]. destruct Hg as [(H1 & H2 & H3 & H4 & H5) HO]. split; [|by apply (O_objects _ _ w)].
      split; [exact H1|]. split; [exact H2|]. rewrite app_nil_r in H3. split; [exact H3|]. split; [done|].
      intros t r Hr. destruct (H5 t r Hr) as (H6 & H7 & H8 & H9 & H10). split_and!; [done..| |done].
      rewrite app_nil_r in H9. exact H9. }
    destruct H as (a & w' & E & H'). exists a, w'. split; [|done]. rewrite <- E. unfold mbind, M_bind, get, put. cbn. by rewrite Hc.
Qed.

Lemma step_ok e w : before w -> event_ok cleaned e -> gives (step e) w (fun _ w' => between (n + 1) init (B + 1) (cleaned || is_cleanup e) w').
Proof.
  intros Hb He. assert (gives (mret ()) w (fun _ w' => between (n + 1) init (B + 1) (cleaned || is_cleanup e) w')) as Hnot.
  { apply gives_ret. eapply between_mono; [..|exact Hb]; [lia|lia|by intros ->]. }
  assert (forall m : MW (), gives m w (fun _ w' => behind w') -> gives m w (fun _ w' => between (n + 1) init (B + 1) (cleaned || is_cleanup e) w')) as Hcl.
  { intros m H. eapply gives_mono; [exact H|]. intros [] w' H'. eapply between_mono; [..|exact H']; [lia|lia|by intros ->]. }
  destruct (curr_routine w) as [t|] eqn:Ec.
  - destruct e; try (unfold step; apply gives_get; rewrite Ec; exact Hnot).
    + apply Hcl. by apply (call_step o t).
    + apply Hcl. by apply (return_step t).
  - destruct e; try (unfold step; apply gives_get; rewrite Ec; exact Hnot).
    + destruct He as [H1 H2]. apply Hcl. by apply main_step.
    + by apply Hcl, turn_step.
    + unfold step. apply gives_get. rewrite Ec. unfold between in Hb. rewrite Ec in Hb. destruct (main_at w); [|done..].
      rewrite orb_true_r. apply sch_cleanup_ok; [lia|by apply grow|done|lia].
Qed.

End steps.

Lemma sch_run_ok l : forall n init B cleaned w, B + Z.of_nat (length l) < 2 ^ 31 - 1 -> 0 <= n -> n + Z.of_nat (length l) <= SIZE_MAX ->
  between n init B cleaned w -> events_ok cleaned l ->
  exists c, gives (run l) w (fun _ w' => between (n + Z.of_nat (length l)) init (B + Z.of_nat (length l)) c w').
Proof.
  induction l as [|e l IH]; intros n init B cleaned w HB Hn0 Hn Hb Hl; cbn [run length] in *.
  - exists cleaned. apply gives_ret. by rewrite !Z.add_0_r.
  - destruct Hl as [He Hl]. destruct (step_ok n init B cleaned ltac:(lia) Hn0 ltac:(lia) e w Hb He) as ([] & w1 & E1 & H1).
    destruct (IH (n + 1) init (B + 1) _ w1 ltac:(lia) ltac:(lia) ltac:(lia) H1 Hl) as (c & a & w' & E & H). exists c, a, w'.
    split; [by rewrite (bind_Ret _ _ _ _ _ E1)|]. by replace (n + Z.of_nat (S (length l))) with (n + 1 + Z.of_nat (length l)) by lia;
      replace (B + Z.of_nat (S (length l))) with (B + 1 + Z.of_nat (length l)) by lia.
Qed.

(** ** What holds in every execution *)

(** What [schedule()] still has to switch to. *)
Definition still_to_run (w : world) : list Token := match main_at w with InSchedule tmp => tmp | _ => [] end.

(** The counts of the semaphores stay within [int]. *)
Definition counts_fit (init : nat -> Z) (l : list event) : Prop := forall s, 0 <= init s < 2 ^ 31 - 1 - Z.of_nat (length l).

Lemma run_between init logic l : counts_fit init l -> events_ok false l ->
  exists n B c, gives (run l) (new_world init logic) (fun _ w => between n init B c w).
Proof.
  intros Hi Hl. set (B := 2 ^ 31 - 2 - Z.of_nat (length l)). pose proof (Hi 0%nat) as H0.
  destruct (@ts_empty_ok C HC Routine) as (E1 & E2 & E3).
  assert (forall t, look (new_world init logic) t = None) as Hnone by (intros t; unfold look; cbn; by rewrite E2, lookup_empty).
  assert (between 0 init B false (new_world init logic)) as Hb.
  { unfold between. cbn. split.
    - split; [split; [exact E1|split]|].
      + intros t p. cbn. by rewrite E2, lookup_empty.
      + intros t r. by rewrite Hnone.
      + split; [cbn; rewrite E3; lia|]. split; [constructor|]. split; [done|]. intros t r. by rewrite Hnone.
    - split; cbn; intros i.
      + by split; [apply tok_wf_null|].
      + split; [constructor|]. specialize (Hi i). unfold B, released, acquired. cbn. lia.
      + by split; [constructor|].
      + apply tok_wf_null.
      + constructor. }
  assert (2 ^ 31 <= SIZE_MAX) as Hmax by (unfold SIZE_MAX; lia).
  destruct (sch_run_ok l 0 init B false _ ltac:(lia) ltac:(lia) ltac:(lia) Hb Hl) as (c & H). by eexists _, _, _.
Qed.



End coroutine.

Arguments world : clear implicits.

(** ** Runs *)

Definition tk (i : Z) : Token := mkToken (i + 1) i.
Definition inits (s : nat) : Z := if Nat.eqb s 0 then 0 else 1.
Definition after (l : list event) : option (world cabinet) :=
  match run l (new_world inits (fun _ => kAll)) with Ret (_, w) => Some w | _ => None end.

(** Two routines; the second one waits for the mutex of the first. *)
Definition two_routines : list event :=
  [Main (Create true); Main (Create true); Turn; Call (Lock 0); Call Yield; Call (Lock 0); Turn; Call (Send 0 7); Call (Send 0 8);
   Call (Unlock 0); Return; Turn; Call (Recv 0); Call (Acquire 1); Call (Unlock 0); Call (Join (tk 1))].

Lemma two_routines_ok : counts_fit inits two_routines /\ events_ok false two_routines.
Proof.
  split; [intros s; unfold inits; case_match; cbn; lia|].
  repeat first [exact I | split; [first [exact I | reflexivity | split; [exact I|exact I] | by split]|]].
Qed.



(** ** Where the contract ends *)

Definition create_run (n : nat) : list event := repeat (Main (Create true)) n.

(** What is left of a run: what has happened, the routines that are still there, with
    their states, and how many tasks the loop has to run. *)
Definition left_over (l : list event) : option (list fact * list (Token * State) * nat) :=
  w ← after l; rs ← ts_objects (routine_cabinet w); Some (hist w, map (fun r => (token r, state r)) (omap id rs), posted w).

(** Two receivers wait.  The first value wakes one; the second does not wake the other,
    as the channel is not empty.  The value stays there and the other sleeps on. *)
Example second_value_wakes_nobody :
  left_over (create_run 3 ++ [Turn; Call (Recv 0); Call (Recv 0); Call (Send 0 7); Call (Send 0 8); Return; Turn; Return; Turn; Turn; Turn]) =
    Some ([Sent 0 7; Sent 0 8; Received 0 (tk 0) 7], [(tk 1, kSuspend)], 0%nat).
Proof. vm_compute. reflexivity. Qed.

(** The same with two that acquire and a semaphore that is released twice. *)
Example second_release_wakes_nobody :
  left_over (create_run 3 ++ [Turn; Call (Acquire 0); Call (Acquire 0); Call (Release 0); Call (Release 0); Return; Turn; Return; Turn; Turn; Turn]) =
    Some ([Released 0; Released 0; Acquired 0], [(tk 1, kSuspend)], 0%nat).
Proof. vm_compute. reflexivity. Qed.

(** A routine that gives a mutex back and takes it again at once: the one that was woken
    waits again, but it is not among those that wait, and nobody wakes it. *)
Example woken_waiter_is_forgotten :
  left_over (create_run 2 ++ [Turn; Call (Lock 0); Call Yield; Call (Lock 0); Turn; Call (Unlock 0); Call (Lock 0); Call Yield;
    Turn; Call (Unlock 0); Return; Turn; Turn]) =
    Some ([Locked 0 (tk 0); Unlocked 0 (tk 0); Locked 0 (tk 0); Unlocked 0 (tk 0)], [(tk 1, kSuspend)], 0%nat).
Proof. vm_compute. reflexivity. Qed.

(** The lock is not counted: an inner [Mutex::Locker] gives back what the outer one
    holds, and a second routine gets in. *)
Example inner_locker_unlocks :
  left_over (create_run 2 ++ [Turn; Call (Lock 0); Call (Lock 0); Call (Unlock 0); Call Yield; Call (Lock 0)]) =
    Some ([Locked 0 (tk 0); Locked 0 (tk 0); Unlocked 0 (tk 0); Locked 0 (tk 1)], [(tk 0, kReady); (tk 1, kRunning)], 2%nat).
Proof. vm_compute. reflexivity. Qed.

(** [join()] comes back when anyone resumes the routine, though the other one lives; its
    answer is that of [isCanceled()]. *)
Example join_comes_back_early :
  left_over (create_run 1 ++ [Main (Create false); Turn; Call (Join (tk 1)); Main (Resume (tk 0)); Turn; Return]) =
    Some ([], [(tk 1, kSuspend)], 0%nat).
Proof. vm_compute. reflexivity. Qed.

(** A routine of a semaphore that starts below zero does not wait. *)
Example negative_count_does_not_wait :
  option_map (fun p => count_ (semaphores (snd p) 0))
    (match run [Main (Create true); Turn; Call (Acquire 0)] (new_world (C := cabinet) (fun _ => -1) (fun _ => kAll)) with Ret p => Some p | _ => None end) =
    Some (-2).
Proof. vm_compute. reflexivity. Qed.

(** A cancelled routine whose loop only yields comes back from [yield()] at once: it is
    still in its own code after as many calls as one likes, and [cleanup()] waits for it. *)
Example cleanup_waits_for_it :
  left_over (create_run 1 ++ [Turn; Call Yield; Cleanup] ++ repeat (Call Yield) 100) = Some ([], [(tk 0, kRunning)], 1%nat).
Proof. vm_compute. reflexivity. Qed.

(** [schedule()] was posted to the loop and [cleanup()] does not take it back. *)
Example posted_task_is_left :
  left_over (create_run 1 ++ [Cleanup]) = Some ([], [], 1%nat).
Proof. vm_compute. reflexivity. Qed.
