(* ===== verification/AsyncPipe.v ===== *)
(** * The asynchronous pipe

    Models [util/async_pipe.cpp]: any number of threads append bytes to buffers, and
    one back-end thread hands full buffers, and the current one now and then, to a
    callback.  An execution is a sequence of events: a call of the owner of the pipe or
    of a thread that appends, a step of the thread that appends ([curr_buffer_mutex_]
    lets in one at a time) or of the back end, the end of the interval, or a spurious
    wake-up.  What a thread does under one mutex is one step; between the predicate of
    a wait and its sleep the thread still has the mutex. *)
From S2P Require Import Prelude.

Record Config := mkConfig { buff_size : Z; buff_min_num : Z; buff_max_num : Z; interval : Z }.

(** ** The buffers *)

Record Buffer := mkBuffer { capacity_ : Z; data_ : list Z }.

(** [size_], the part of the array that is written. *)
Definition size_ (b : Buffer) : Z := Z.of_nat (length (data_ b)).

Definition new_buffer (cap : Z) : Buffer := mkBuffer cap [].
Definition full (b : Buffer) : bool := capacity_ b =? size_ b.
Definition reset (b : Buffer) : Buffer := mkBuffer (capacity_ b) [].

(** The copy must stay within both arrays. *)
Definition buffer_append (data : list Z) (b : Buffer) : option (Buffer * Z) :=
  let data_size := Z.of_nat (length data) in
  let wsize := if capacity_ b <? u64 (size_ b + data_size) then u64 (capacity_ b - size_ b) else data_size in
  if (wsize <=? data_size) && (size_ b + wsize <=? capacity_ b)
  then Some (mkBuffer (capacity_ b) (data_ b ++ take (Z.to_nat wsize) data), wsize) else None.

(** ** The threads *)

(** The thread that has [curr_buffer_mutex_]: between two calls, in the loop of
    [appendLockless] with what is left, or in [free_buffers_cv_.wait], where it
    sleeps or was woken. *)
Inductive front_at := Between | Loop (rest : list Z) | Waiting (woken : bool) (rest : list Z).

(** The back end: it looks for full buffers, is about to sleep in
    [full_buffers_cv_.wait_for], sleeps there or was woken, flushes the current buffer,
    fetches a full one, calls the callback with it, counts it and gives it back. *)
Inductive back_at :=
  | NoThread
  | Top
  | Park
  | Sleep (woken : bool)
  | Flush (timeup quit : bool)
  | Fetch (quit : bool)
  | Callback (b : Buffer) (quit : bool)
  | Account (b : Buffer) (quit : bool)
  | GiveBack (b : Buffer) (quit : bool)
  | Ended.

(** [buff_num_] has no initial value.  [handled] is what the back end took from the
    buffers, each with whether a callback was there to get it; [appended] all bytes that
    were to be appended. *)
Record pipe := mkPipe {
  cfg_ : Config;
  cb_ : bool;
  curr_buffer_ : option Buffer;
  free_buffers_ : list Buffer;
  full_buffers_ : list Buffer;
  buff_num_ : option Z;
  inited_ : bool;
  stop_signal_ : bool;
  back : back_at;
  holder : option (nat * front_at);
  handled : list (bool * list Z);
  appended : list Z }.

Definition new_pipe : pipe := mkPipe (mkConfig 1024 2 10 1000) false None [] [] None false false NoThread None [] [].

Definition set_curr (x : option Buffer) (s : pipe) : pipe := mkPipe (cfg_ s) (cb_ s) x (free_buffers_ s) (full_buffers_ s) (buff_num_ s) (inited_ s) (stop_signal_ s) (back s) (holder s) (handled s) (appended s).
Definition set_free (x : list Buffer) (s : pipe) : pipe := mkPipe (cfg_ s) (cb_ s) (curr_buffer_ s) x (full_buffers_ s) (buff_num_ s) (inited_ s) (stop_signal_ s) (back s) (holder s) (handled s) (appended s).
Definition set_full (x : list Buffer) (s : pipe) : pipe := mkPipe (cfg_ s) (cb_ s) (curr_buffer_ s) (free_buffers_ s) x (buff_num_ s) (inited_ s) (stop_signal_ s) (back s) (holder s) (handled s) (appended s).
Definition set_num (x : Z) (s : pipe) : pipe := mkPipe (cfg_ s) (cb_ s) (curr_buffer_ s) (free_buffers_ s) (full_buffers_ s) (Some x) (inited_ s) (stop_signal_ s) (back s) (holder s) (handled s) (appended s).
Definition set_stop (x : bool) (s : pipe) : pipe := mkPipe (cfg_ s) (cb_ s) (curr_buffer_ s) (free_buffers_ s) (full_buffers_ s) (buff_num_ s) (inited_ s) x (back s) (holder s) (handled s) (appended s).
Definition set_back (x : back_at) (s : pipe) : pipe := mkPipe (cfg_ s) (cb_ s) (curr_buffer_ s) (free_buffers_ s) (full_buffers_ s) (buff_num_ s) (inited_ s) (stop_signal_ s) x (holder s) (handled s) (appended s).
Definition set_holder (x : option (nat * front_at)) (s : pipe) : pipe := mkPipe (cfg_ s) (cb_ s) (curr_buffer_ s) (free_buffers_ s) (full_buffers_ s) (buff_num_ s) (inited_ s) (stop_signal_ s) (back s) x (handled s) (appended s).
Definition set_cb (x : bool) (s : pipe) : pipe := mkPipe (cfg_ s) x (curr_buffer_ s) (free_buffers_ s) (full_buffers_ s) (buff_num_ s) (inited_ s) (stop_signal_ s) (back s) (holder s) (handled s) (appended s).
Definition add_handled (x : bool * list Z) (s : pipe) : pipe := mkPipe (cfg_ s) (cb_ s) (curr_buffer_ s) (free_buffers_ s) (full_buffers_ s) (buff_num_ s) (inited_ s) (stop_signal_ s) (back s) (holder s) (handled s ++ [x]) (appended s).
Definition add_appended (x : list Z) (s : pipe) : pipe := mkPipe (cfg_ s) (cb_ s) (curr_buffer_ s) (free_buffers_ s) (full_buffers_ s) (buff_num_ s) (inited_ s) (stop_signal_ s) (back s) (holder s) (handled s) (appended s ++ x).

(** [full_buffers_cv_.notify_all()] and [free_buffers_cv_.notify_all()]: they reach
    who sleeps. *)
Definition notify_full (s : pipe) : pipe := match back s with Sleep _ => set_back (Sleep true) s | _ => s end.
Definition notify_free (s : pipe) : pipe := match holder s with Some (i, Waiting _ rest) => set_holder (Some (i, Waiting true rest)) s | _ => s end.

(** ** The owner

    [None] is undefined behaviour or the end of the process. *)

Definition config_ok (cfg : Config) : bool :=
  negb (buff_size cfg =? 0) && negb (buff_min_num cfg =? 0) && negb (buff_max_num cfg <? buff_min_num cfg) && negb (interval cfg =? 0).

(** A joinable thread that is destroyed ends the process; that is what the swapped out
    thread is when there was one. *)
Definition initialize (cfg : Config) (s : pipe) : option pipe :=
  if negb (config_ok cfg) then Some s
  else match back s with
    | NoThread =>
        Some (mkPipe cfg (cb_ s) (curr_buffer_ s) (free_buffers_ s ++ replicate (Z.to_nat (buff_min_num cfg)) (new_buffer (buff_size cfg))) (full_buffers_ s)
          (Some (buff_min_num cfg)) true (stop_signal_ s) Top (holder s) (handled s) (appended s))
    | _ => None
    end.

(** Up to [join], and from there when the thread has ended. *)
Definition cleanup_begin (s : pipe) : pipe := if negb (inited_ s) then s else notify_full (set_stop true s).

Definition cleanup_end (s : pipe) : option pipe :=
  match stop_signal_ s, back s with
  | true, Ended =>
      if bool_decide (full_buffers_ s = [])
      then Some (mkPipe (cfg_ s) false None [] [] (buff_num_ s) false false NoThread (holder s) (handled s) (appended s)) else None
  | _, _ => Some s
  end.

(** ** The threads that append *)

(** Another thread has to wait; the same one would for ever. *)
Definition appendLock (i : nat) (s : pipe) : pipe := match holder s with None => set_holder (Some (i, Between)) s | _ => s end.

Definition appendUnlock (i : nat) (s : pipe) : option pipe :=
  match holder s with Some (j, Between) => if decide (i = j) then Some (set_holder None s) else None | _ => None end.

(** Only a thread that has the mutex may come here. *)
Definition appendLockless (i : nat) (data : list Z) (s : pipe) : option pipe :=
  match holder s with
  | Some (j, Between) => if decide (i = j) then Some (set_holder (Some (i, Loop data)) (add_appended data s)) else None
  | _ => None
  end.

(** [free_buffers_.back()] becomes the current buffer. *)
Definition take_free (i : nat) (rest : list Z) (s : pipe) : option pipe :=
  b ← last (free_buffers_ s);
  Some (set_holder (Some (i, Loop rest)) (set_curr (Some b) (set_free (removelast (free_buffers_ s)) s))).

(** The loop up to the call of [curr_buffer_->append], under [free_buffers_mutex_]. *)
Definition get_buffer (i : nat) (rest : list Z) (s : pipe) : option pipe :=
  match free_buffers_ s with
  | [] =>
      num ← buff_num_ s;
      if num <? buff_max_num (cfg_ s) then take_free i rest (set_num (num + 1) (set_free [new_buffer (buff_size (cfg_ s))] s))
      else Some (set_holder (Some (i, Waiting false rest)) s)
  | _ => take_free i rest s
  end.

(** The rest of the loop.  The back end has [full_buffers_mutex_] when it is about to
    sleep. *)
Definition write_buffer (i : nat) (rest : list Z) (b : Buffer) (s : pipe) : option pipe :=
  '(b', size) ← buffer_append rest b;
  let rest' := drop (Z.to_nat size) rest in
  if full b' then
    match back s with
    | Park => Some s
    | _ => Some (set_holder (Some (i, Loop rest')) (set_curr None (notify_full (set_full (full_buffers_ s ++ [b']) s))))
    end
  else Some (set_holder (Some (i, Loop rest')) (set_curr (Some b') s)).

Definition front_step (s : pipe) : option pipe :=
  match holder s with
  | Some (i, Loop []) => Some (set_holder (Some (i, Between)) s)
  | Some (i, Loop rest) => match curr_buffer_ s with None => get_buffer i rest s | Some b => write_buffer i rest b s end
  | Some (i, Waiting true rest) =>
      match free_buffers_ s with [] => Some (set_holder (Some (i, Waiting false rest)) s) | _ => take_free i rest s end
  | _ => Some s
  end.

(** ** The back end *)

(** The predicate of [wait_for], and where the thread goes on when it holds. *)
Definition predicate (s : pipe) : option back_at :=
  if stop_signal_ s then Some (Flush false true)
  else match full_buffers_ s with [] => None | _ => Some (Flush false false) end.

Definition flush (s : pipe) : pipe :=
  match holder s, curr_buffer_ s with
  | None, Some b => set_curr None (set_full (full_buffers_ s ++ [b]) s)
  | _, _ => s
  end.

Definition back_step (s : pipe) : option pipe :=
  match back s with
  | NoThread | Ended | Sleep false => Some s
  | Top =>
      match full_buffers_ s with
      | [] => Some (set_back (default Park (predicate s)) s)
      | _ => Some (set_back (Flush false false) s)
      end
  | Park => Some (set_back (Sleep false) s)
  | Sleep true => Some (set_back (default Park (predicate s)) s)
  | Flush timeup quit => Some (set_back (Fetch quit) (if timeup || quit then flush s else s))
  | Fetch quit =>
      match full_buffers_ s with
      | [] => Some (set_back (if (quit : bool) then Ended else Top) s)
      | b :: rest => Some (set_back (Callback b quit) (set_full rest s))
      end
  | Callback b quit => Some (set_back (Account (reset b) quit) (add_handled (cb_ s, data_ b) s))
  | Account b quit =>
      num ← buff_num_ s;
      if buff_min_num (cfg_ s) <? num then Some (set_back (Fetch quit) (set_num (num - 1) s)) else Some (set_back (GiveBack b quit) s)
  | GiveBack b quit => Some (set_back (Fetch quit) (notify_free (set_free (free_buffers_ s ++ [b]) s)))
  end.

(** The interval is over: the predicate decides once more. *)
Definition timeout (s : pipe) : pipe :=
  match back s with Sleep _ => set_back (default (Flush true false) (predicate s)) s | _ => s end.

Inductive event :=
  | Initialize (cfg : Config)
  | SetCallback (f : bool)
  | CleanupBegin
  | CleanupEnd
  | Lock (i : nat)
  | AppendLockless (i : nat) (data : list Z)
  | Unlock (i : nat)
  | Front
  | Back
  | Timeout
  | SpuriousFront
  | SpuriousBack.

Definition step (e : event) (s : pipe) : option pipe :=
  match e with
  | Initialize cfg => initialize cfg s
  | SetCallback f => Some (set_cb f s)
  | CleanupBegin => Some (cleanup_begin s)
  | CleanupEnd => cleanup_end s
  | Lock i => Some (appendLock i s)
  | AppendLockless i data => appendLockless i data s
  | Unlock i => appendUnlock i s
  | Front => front_step s
  | Back => back_step s
  | Timeout => Some (timeout s)
  | SpuriousFront => Some (notify_free s)
  | SpuriousBack => Some (notify_full s)
  end.

Fixpoint run (l : list event) (s : pipe) : option pipe :=
  match l with [] => Some s | e :: l' => s' ← step e s; run l' s' end.

(** ** The contract

    The pipe is used from [initialize] until [cleanup()] begins, and no thread is
    appending then; sizes fit. *)

Definition data_fits (data : list Z) : Prop := Z.of_nat (length data) < 2 ^ 63.

#[global] Instance data_fits_dec data : Decision (data_fits data).
Proof. unfold data_fits. apply _. Defined.

Definition legal (e : event) (s : pipe) : Prop :=
  match e with
  | Initialize cfg => inited_ s = false /\ 0 <= buff_size cfg < 2 ^ 63 /\ 0 <= buff_min_num cfg
  | CleanupBegin => stop_signal_ s = false /\ holder s = None
  | Lock _ => stop_signal_ s = false
  | AppendLockless i data => inited_ s = true /\ holder s = Some (i, Between) /\ data_fits data
  | Unlock i => holder s = Some (i, Between)
  | _ => True
  end.

#[global] Instance front_at_eq_dec : EqDecision front_at.
Proof. solve_decision. Defined.

#[global] Instance Buffer_eq_dec : EqDecision Buffer.
Proof. solve_decision. Defined.

#[global] Instance back_at_eq_dec : EqDecision back_at.
Proof. solve_decision. Defined.

#[global] Instance legal_dec e s : Decision (legal e s).
Proof. destruct e; unfold legal; apply _. Defined.

Fixpoint legal_run (l : list event) (s : pipe) : bool :=
  match l with
  | [] => true
  | e :: l' => bool_decide (legal e s) && match step e s with Some s' => legal_run l' s' | None => true end
  end.

(** ** The invariant *)

Definition in_hand (s : pipe) : list Buffer :=
  match back s with Callback b _ | Account b _ | GiveBack b _ => [b] | _ => [] end.

Definition buffers (s : pipe) : list Buffer := free_buffers_ s ++ full_buffers_ s ++ option_list (curr_buffer_ s) ++ in_hand s.

Definition bytes (l : list Buffer) : list Z := concat (map data_ l).

(** What a thread still has to append. *)
Definition rest_of (s : pipe) : list Z := match holder s with Some (_, (Loop rest | Waiting _ rest)) => rest | _ => [] end.

(** What was appended and not handled, in the order in which it will be. *)
Definition pending (s : pipe) : list Z := bytes (in_hand s) ++ bytes (full_buffers_ s) ++ bytes (option_list (curr_buffer_ s)) ++ rest_of s.

(** What the back end has taken out of the pipe: it calls the callback with it when there
    is one, and otherwise drops it; [delivered] is what the callback got. *)
Definition taken_out (s : pipe) : list Z := concat (map snd (handled s)).
Definition delivered (s : pipe) : list Z := concat (map snd (filter (fun h => h.1 = true) (handled s))).

Definition front_ok (s : pipe) : Prop :=
  match holder s with
  | Some (_, Loop rest) => inited_ s = true /\ data_fits rest
  | Some (_, Waiting woken rest) => inited_ s = true /\ data_fits rest /\ rest <> [] /\ curr_buffer_ s = None /\ (woken = false -> free_buffers_ s = [])
  | _ => True
  end.

Definition back_ok (s : pipe) : Prop :=
  match back s with
  | Park | Sleep false => full_buffers_ s = []
  | Flush _ true => stop_signal_ s = true
  | Fetch true => stop_signal_ s = true /\ curr_buffer_ s = None
  | Callback _ quit => quit = true -> stop_signal_ s = true /\ curr_buffer_ s = None
  | Account b quit | GiveBack b quit => data_ b = [] /\ (quit = true -> stop_signal_ s = true /\ curr_buffer_ s = None)
  | Ended => stop_signal_ s = true /\ curr_buffer_ s = None /\ full_buffers_ s = []
  | _ => True
  end.

(** The buffers are counted, their number is within the limits. *)
Definition count_ok (s : pipe) : Prop :=
  0 < buff_size (cfg_ s) < 2 ^ 63 /\ 1 <= buff_min_num (cfg_ s) /\
  buff_num_ s = Some (Z.of_nat (length (buffers s))) /\
  buff_min_num (cfg_ s) <= Z.of_nat (length (buffers s)) <= buff_max_num (cfg_ s).

Record inv (s : pipe) : Prop := {
  i_bytes : taken_out s ++ pending s = appended s;
  i_front : front_ok s;
  i_back : back_ok s;
  i_stop : stop_signal_ s = true -> holder s = None /\ inited_ s = true;
  i_caps : Forall (fun b => capacity_ b = buff_size (cfg_ s) /\ size_ b <= capacity_ b) (buffers s);
  i_free : Forall (fun b => data_ b = []) (free_buffers_ s);
  i_curr : forall b, curr_buffer_ s = Some b -> full b = false;
  i_on : if inited_ s then back s <> NoThread /\ count_ok s else back s = NoThread /\ buffers s = [] }.

Lemma pipe_inv_new : inv new_pipe.
Proof. by split. Qed.

Lemma inv_set_back x s : inv s -> back s <> NoThread -> x <> NoThread -> in_hand (set_back x s) = in_hand s -> back_ok (set_back x s) -> inv (set_back x s).
Proof.
  intros [] Hs Hx Hh Hb. split; unfold pending, buffers in *; rewrite ?Hh; try done.
  cbn [inited_ set_back]. destruct (inited_ s); [|by destruct i_on0]. split; [done|]. unfold count_ok, buffers in *. rewrite Hh. apply i_on0.
Qed.

Lemma inv_set_holder h s : inv s -> rest_of (set_holder h s) = rest_of s -> front_ok (set_holder h s) -> (stop_signal_ s = true -> h = None) -> inv (set_holder h s).
Proof. intros [] Hr Hf Hs. split; try done. - unfold pending in *. by rewrite Hr. - intros H. split; [by apply Hs|by apply i_stop0]. Qed.

Lemma inv_set_cb f s : inv s -> inv (set_cb f s).
Proof. by intros []; split. Qed.

Lemma inv_notify_full s : inv s -> inv (notify_full s).
Proof.
  intros Hi. unfold notify_full. destruct (back s) eqn:E; try done. apply inv_set_back; [done|by rewrite E|done| |done].
  unfold in_hand. by rewrite E.
Qed.

Lemma inv_notify_free s : inv s -> inv (notify_free s).
Proof.
  intros Hi. unfold notify_free. destruct (holder s) as [[i [| |w rest]]|] eqn:E; try done. apply inv_set_holder; [done| | |].
  - unfold rest_of. by rewrite E.
  - pose proof (i_front _ Hi) as H. unfold front_ok in *. rewrite E in H. cbn. by destruct H as (? & ? & ? & ? & _).
  - intros Hs. destruct (i_stop _ Hi Hs). congruence.
Qed.

Lemma inv_timeout s : inv s -> inv (timeout s).
Proof.
  intros Hi. unfold timeout. destruct (back s) eqn:E; try done. apply inv_set_back; [done|by rewrite E| | |];
    unfold predicate; destruct (stop_signal_ s) eqn:Es; cbn; try done; try (destruct (full_buffers_ s); done);
    unfold in_hand; rewrite E; cbn; try done; by destruct (full_buffers_ s).
Qed.

Lemma inv_initialize cfg s : inv s -> legal (Initialize cfg) s -> exists s', initialize cfg s = Some s' /\ inv s'.
Proof.
  intros Hi (Hoff & Hb & Hm). unfold initialize. destruct (config_ok cfg) eqn:Ec; cbn; [|by eexists].
  unfold config_ok in Ec. rewrite !andb_true_iff, !negb_true_iff, !Z.eqb_neq, Z.ltb_ge in Ec.
  pose proof (i_on _ Hi) as Hon. rewrite Hoff in Hon. destruct Hon as [Hth Hbuf]. rewrite Hth. eexists. split; [done|].
  unfold buffers in Hbuf. apply app_eq_nil in Hbuf as [H1 Hbuf]. apply app_eq_nil in Hbuf as [H2 Hbuf]. apply app_eq_nil in Hbuf as [H3 H4].
  assert (curr_buffer_ s = None) as H5 by (by destruct (curr_buffer_ s)).
  assert (stop_signal_ s = false) as Hs by (destruct (stop_signal_ s) eqn:E; [|done]; destruct (i_stop _ Hi E); congruence).
  pose proof (i_bytes _ Hi) as Hby. unfold pending in Hby. rewrite H2, H4, H5 in Hby.
  pose proof (i_front _ Hi) as Hf. unfold front_ok in Hf.
  assert (match holder s with Some (_, Between) | None => True | _ => False end) as Hh.
  { destruct (holder s) as [[j [| |]]|]; try done; destruct Hf; congruence. }
  split; unfold front_ok, pending, buffers, count_ok, buffers; cbn; rewrite ?H1, ?H2, ?H5, ?app_nil_l; try done.
  - destruct (holder s) as [[j [| |]]|]; done.
  - by rewrite Hs.
  - rewrite app_nil_r. apply Forall_replicate. unfold new_buffer, size_. cbn. lia.
  - apply Forall_replicate. done.
  - rewrite app_nil_r, length_replicate. split; [done|]. split; [lia|]. split; [lia|].
    rewrite Z2Nat.id by lia. split; [done|lia].
Qed.

Lemma inv_cleanup_begin s : inv s -> legal CleanupBegin s -> inv (cleanup_begin s).
Proof.
  intros Hi [Hs Hh]. unfold cleanup_begin. destruct (inited_ s) eqn:E; [|done]. cbn. apply inv_notify_full. destruct Hi.
  split; try done. unfold back_ok in *. cbn. rewrite Hs in i_back0. destruct (back s) as [| | |[]|? []|[]|? []|? []|? []|]; try done; naive_solver.
Qed.

Lemma inv_cleanup_end s : inv s -> exists s', cleanup_end s = Some s' /\ inv s'.
Proof.
  intros Hi. unfold cleanup_end. destruct (stop_signal_ s) eqn:Es; [|by exists s].
  destruct (back s) eqn:Eb; try by exists s. pose proof (i_back _ Hi) as H. unfold back_ok in H. rewrite Eb in H. destruct H as (_ & H1 & H2).
  rewrite bool_decide_true by done. eexists. split; [done|]. destruct (i_stop _ Hi Es) as [Hh Hin].
  pose proof (i_bytes _ Hi) as Hby. unfold pending, in_hand, rest_of in Hby. rewrite Eb, H1, H2, Hh in Hby.
  split; try done; [|by unfold front_ok; cbn; rewrite Hh]. unfold pending, rest_of. cbn. by rewrite Hh.
Qed.

Lemma inv_lock i s : inv s -> legal (Lock i) s -> inv (appendLock i s).
Proof.
  intros Hi Hs. unfold appendLock. destruct (holder s) eqn:E; [done|]. apply inv_set_holder; [done|by unfold rest_of; rewrite E|done|].
  cbn in Hs. by rewrite Hs.
Qed.

Lemma inv_unlock i s : inv s -> legal (Unlock i) s -> exists s', appendUnlock i s = Some s' /\ inv s'.
Proof.
  intros Hi Hs. cbn in Hs. unfold appendUnlock. rewrite Hs, decide_True by done. eexists. split; [done|].
  apply inv_set_holder; [done|by unfold rest_of; rewrite Hs|done|done].
Qed.

Lemma inv_append i data s : inv s -> legal (AppendLockless i data) s -> exists s', appendLockless i data s = Some s' /\ inv s'.
Proof.
  intros Hi (Hin & Hs & Hd). unfold appendLockless. rewrite Hs, decide_True by done. eexists. split; [done|]. destruct Hi.
  split; try done.
  - unfold taken_out, pending, rest_of in *. cbn. rewrite Hs, app_nil_r in i_bytes0. rewrite <- i_bytes0. by rewrite <- !app_assoc.
  - intros H. cbn in H. destruct (i_stop0 H). congruence.
Qed.

(** *** The thread that appends *)

Lemma holder_running i f s : inv s -> holder s = Some (i, f) -> stop_signal_ s = false.
Proof. intros Hi H. destruct (stop_signal_ s) eqn:E; [|done]. destruct (i_stop _ Hi E). congruence. Qed.

(** Away from [cleanup()] the back end needs nothing but the full buffers. *)
Lemma back_ok_running s s' : back_ok s -> stop_signal_ s = false -> stop_signal_ s' = false -> back s' = back s ->
  (full_buffers_ s = [] -> full_buffers_ s' = [] \/ back s <> Park /\ back s <> Sleep false) -> back_ok s'.
Proof.
  unfold back_ok. intros Hb Hs Hs' -> Hf. rewrite Hs in Hb. rewrite Hs'.
  destruct (back s) as [| | |[]|? []|[]|? q|? q|? q|]; try done; naive_solver.
Qed.

Lemma take_free_eq i rest s : free_buffers_ s <> [] -> exists l b, free_buffers_ s = l ++ [b] /\
  take_free i rest s = Some (set_holder (Some (i, Loop rest)) (set_curr (Some b) (set_free l s))).
Proof.
  intros H. destruct (exists_last H) as (l & b & E). exists l, b. split; [done|]. unfold take_free.
  by rewrite E, last_snoc, removelast_last.
Qed.

Lemma take_free_ok i f rest l b s : inv s -> holder s = Some (i, f) -> rest_of s = rest -> data_fits rest -> inited_ s = true ->
  curr_buffer_ s = None -> free_buffers_ s = l ++ [b] -> inv (set_holder (Some (i, Loop rest)) (set_curr (Some b) (set_free l s))).
Proof.
  intros Hi Hh Hr Hd Hin Hc Hf. pose proof (holder_running _ _ _ Hi Hh) as Hs. destruct Hi.
  rewrite Hf in i_free0. apply Forall_app in i_free0 as [Hl Hb]. rewrite Forall_singleton in Hb.
  set (s' := set_holder _ _). assert (buffers s' ≡ₚ buffers s) as Hp.
  { unfold buffers, s', in_hand. cbn. rewrite Hc, Hf. cbn. solve_Permutation. }
  rewrite Hin in i_on0. destruct i_on0 as (H0 & H1 & H2 & H3 & H4).
  assert (capacity_ b = buff_size (cfg_ s)) as Hcap.
  { rewrite Forall_forall in i_caps0. apply i_caps0. unfold buffers. rewrite Hf, !elem_of_app, list_elem_of_singleton. auto. }
  split.
  - etrans; [|exact i_bytes0]. unfold pending. rewrite Hr. unfold s', in_hand, rest_of, bytes, taken_out. cbn. by rewrite Hc, Hb.
  - done.
  - apply (back_ok_running s); [done..|auto].
  - cbn. congruence.
  - by rewrite Hp.
  - done.
  - intros b' [= <-]. unfold full, size_. rewrite Hb, Hcap. cbn. apply Z.eqb_neq. lia.
  - cbn. rewrite Hin. split; [done|]. unfold count_ok. rewrite (Permutation_length Hp). done.
Qed.

Lemma buffer_append_eq data b : size_ b <= capacity_ b < 2 ^ 63 -> data_fits data ->
  exists n, buffer_append data b = Some (mkBuffer (capacity_ b) (data_ b ++ take n data), Z.of_nat n) /\
    Z.of_nat n = (capacity_ b - size_ b) `min` Z.of_nat (length data).
Proof.
  intros Hb Hd. unfold data_fits in Hd. unfold buffer_append. assert (0 <= size_ b) by (unfold size_; lia).
  rewrite !wrap_small by (unfold in_range; lia). destruct (Z.ltb_spec (capacity_ b) (size_ b + Z.of_nat (length data))).
  - exists (Z.to_nat (capacity_ b - size_ b)). rewrite Z2Nat.id by lia.
    rewrite (proj2 (Z.leb_le _ _)), (proj2 (Z.leb_le _ _)) by lia. cbn. split; [done|lia].
  - exists (length data). rewrite Nat2Z.id, (proj2 (Z.leb_le _ _)), (proj2 (Z.leb_le _ _)) by lia. cbn. split; [done|lia].
Qed.

Lemma in_hand_notify s : in_hand (notify_full s) = in_hand s.
Proof. unfold notify_full, in_hand. by destruct (back s) eqn:E; cbn; rewrite ?E. Qed.

Definition front_wrote (i : nat) (rest : list Z) (b : Buffer) (s s' : pipe) : Prop :=
  s' = set_holder (Some (i, Loop rest)) (set_curr (Some b) s) \/
  back s <> Park /\ s' = set_holder (Some (i, Loop rest)) (set_curr None (notify_full (set_full (full_buffers_ s ++ [b]) s))).

Lemma bytes_app l l' : bytes (l ++ l') = bytes l ++ bytes l'.
Proof. unfold bytes. by rewrite map_app, concat_app. Qed.

Lemma write_ok i rest rest' b b' f c s : inv s -> holder s = Some (i, Loop rest) -> curr_buffer_ s = Some b ->
  capacity_ b' = capacity_ b -> size_ b' <= capacity_ b -> bytes [b'] ++ rest' = bytes [b] ++ rest -> data_fits rest' ->
  f ++ option_list c = full_buffers_ s ++ [b'] -> (forall b, c = Some b -> full b = false) ->
  f = full_buffers_ s \/ back s <> Park /\ back s <> Sleep false ->
  inv (set_holder (Some (i, Loop rest')) (set_curr c (set_full f s))).
Proof.
  intros Hi Hh Hc Hcap Hsz Hdat Hd Hfc Hnf Hf. pose proof (holder_running _ _ _ Hi Hh) as Hs.
  pose proof (i_front _ Hi) as Hfr. unfold front_ok in Hfr. rewrite Hh in Hfr. destruct Hfr as [Hin _].
  destruct Hi. rewrite Hin in i_on0. destruct i_on0 as (H0 & H1 & H2 & H3 & H4). set (s' := set_holder _ _).
  assert (buffers s = free_buffers_ s ++ full_buffers_ s ++ [b] ++ in_hand s) as Eb by (unfold buffers; by rewrite Hc).
  assert (buffers s' = free_buffers_ s ++ full_buffers_ s ++ [b'] ++ in_hand s) as Eb'.
  { unfold buffers, s', in_hand. cbn [free_buffers_ full_buffers_ curr_buffer_ back set_holder set_curr set_full].
    by rewrite (app_assoc f), Hfc, <- app_assoc. }
  split.
  - etrans; [|exact i_bytes0]. change (taken_out s') with (taken_out s). f_equal. unfold pending.
    change (in_hand s') with (in_hand s). change (full_buffers_ s') with f. change (curr_buffer_ s') with c. change (rest_of s') with rest'.
    unfold rest_of. rewrite Hh, Hc. f_equal. rewrite app_assoc, <- bytes_app, Hfc, bytes_app, <- app_assoc. f_equal. exact Hdat.
  - by split.
  - apply (back_ok_running s); [done..|]. intros Hemp. destruct Hf as [->|[? ?]]; [by left|by right].
  - cbn. congruence.
  - change (cfg_ s') with (cfg_ s). rewrite Eb', Eb in *. rewrite !Forall_app in *. rewrite Forall_singleton in *. rewrite Hcap.
    destruct i_caps0 as (? & ? & (? & ?) & ?). by split_and!.
  - done.
  - exact Hnf.
  - change (inited_ s') with (inited_ s). rewrite Hin. split; [done|]. unfold count_ok.
    replace (length (buffers s')) with (length (buffers s)) by (by rewrite Eb, Eb', !length_app). done.
Qed.

(** [append] puts at least one byte into the buffer, which is then not full or passed on. *)
Lemma write_buffer_ok i x rest b s : inv s -> holder s = Some (i, Loop (x :: rest)) -> curr_buffer_ s = Some b ->
  back s = Park /\ write_buffer i (x :: rest) b s = Some s \/
  exists n b' s', (0 < n)%nat /\ write_buffer i (x :: rest) b s = Some s' /\ front_wrote i (drop n (x :: rest)) b' s s' /\ inv s'.
Proof.
  intros Hi Hh Hc. pose proof (i_front _ Hi) as Hf. unfold front_ok in Hf. rewrite Hh in Hf.
  destruct Hf as [Hin Hd]. pose proof (i_on _ Hi) as Hon. rewrite Hin in Hon. destruct Hon as (_ & H1 & _).
  assert (b ∈ buffers s) as Hb by (unfold buffers; rewrite Hc, !elem_of_app; cbn; rewrite list_elem_of_singleton; auto).
  pose proof (proj1 (Forall_forall _ _) (i_caps _ Hi) b Hb) as [Hcap Hsz]. cbn in Hsz.
  pose proof (i_curr _ Hi b Hc) as Hnf. unfold full in Hnf. apply Z.eqb_neq in Hnf.
  destruct (buffer_append_eq (x :: rest) b) as (n & E & Hn); [lia|done|]. unfold write_buffer. rewrite E. cbn [mbind option_bind].
  rewrite Nat2Z.id. set (b' := mkBuffer _ _) in *. cbn [length] in Hn. assert (0 < n)%nat by lia.
  assert (size_ b' = size_ b + Z.of_nat n) as Hsz' by (unfold b', size_; cbn [data_]; rewrite length_app, length_take; cbn [length]; lia).
  assert (data_fits (drop n (x :: rest))) as Hd' by (unfold data_fits in *; rewrite length_drop; lia).
  assert (bytes [b'] ++ drop n (x :: rest) = bytes [b] ++ x :: rest) as Hdat.
  { unfold bytes, b'. cbn [map concat data_]. by rewrite !app_nil_r, <- app_assoc, take_drop. }
  destruct (full b') eqn:Efull.
  - destruct (decide (back s = Park)) as [Ep|Ep]; [left; by rewrite Ep|]. right. exists n, b'. eexists. split; [done|].
    split; [by destruct (back s)|]. split; [by right|].
    assert (back (notify_full s) <> Park /\ back (notify_full s) <> Sleep false) as Hnp by (unfold notify_full; by destruct (back s) eqn:Ebk; cbn; rewrite ?Ebk).
    assert (inv (set_holder (Some (i, Loop (drop n (x :: rest)))) (set_curr None (set_full (full_buffers_ s ++ [b']) (notify_full s))))) as Hgoal.
    { apply (write_ok i (x :: rest) _ b b'); [by apply inv_notify_full|by unfold notify_full; destruct (back s)|by unfold notify_full; destruct (back s)|done|lia|done|done| |done|by right].
      cbn. rewrite app_nil_r. by unfold notify_full; destruct (back s). }
    unfold notify_full in *. cbn [back set_full set_curr set_holder] in *. by destruct (back s).
  - right. exists n, b'. eexists. split; [done|]. split; [done|]. split; [by left|].
    apply (write_ok i (x :: rest) _ b b' (full_buffers_ s)); [done|done|done|done|lia|done|done|done| |by left]. by intros ? [= <-].
Qed.

(** What a step of the thread that appends does. *)
Inductive front_does (s : pipe) : pipe -> Prop :=
  | FrontIdle : front_does s s
  | FrontLeaves i : holder s = Some (i, Loop []) -> front_does s (set_holder (Some (i, Between)) s)
  | FrontTakes i f rest l b : holder s = Some (i, f) -> f = Loop rest \/ f = Waiting true rest -> rest <> [] ->
      free_buffers_ s = l ++ [b] -> curr_buffer_ s = None ->
      front_does s (set_holder (Some (i, Loop rest)) (set_curr (Some b) (set_free l s)))
  | FrontAllocates i rest num : holder s = Some (i, Loop rest) -> rest <> [] -> free_buffers_ s = [] -> curr_buffer_ s = None ->
      buff_num_ s = Some num -> num < buff_max_num (cfg_ s) ->
      front_does s (set_holder (Some (i, Loop rest)) (set_curr (Some (new_buffer (buff_size (cfg_ s)))) (set_num (num + 1) (set_free [] s))))
  | FrontWaits i f rest : holder s = Some (i, f) -> f = Loop rest \/ f = Waiting true rest -> rest <> [] -> free_buffers_ s = [] -> curr_buffer_ s = None ->
      front_does s (set_holder (Some (i, Waiting false rest)) s)
  | FrontWrites i x rest n b b' s' : holder s = Some (i, Loop (x :: rest)) -> curr_buffer_ s = Some b -> (0 < n)%nat ->
      front_wrote i (drop n (x :: rest)) b' s s' -> front_does s s'.

Lemma front_step_ok s : inv s -> exists s', front_step s = Some s' /\ inv s' /\ front_does s s'.
Proof.
  intros Hi. unfold front_step. destruct (holder s) as [[i [|[|x rest]|[] rest]]|] eqn:Hh; try (exists s; split_and!; [done..|constructor]).
  - eexists. split; [done|]. split; [|by constructor]. apply inv_set_holder; [done|by unfold rest_of; rewrite Hh|done|].
    rewrite (holder_running _ _ _ Hi Hh). done.
  - pose proof (i_front _ Hi) as Hf. unfold front_ok in Hf. rewrite Hh in Hf. destruct Hf as [Hin Hd].
    assert (rest_of s = x :: rest) as Hr by (unfold rest_of; by rewrite Hh).
    destruct (curr_buffer_ s) as [b|] eqn:Hc.
    { destruct (write_buffer_ok i x rest b s Hi Hh Hc) as [[Hp E]|(n & b' & s' & Hn & E & Hw & Hi')]; [exists s; split_and!; [done..|constructor]|].
      exists s'. split_and!; [done..|]. by eapply FrontWrites. }
    unfold get_buffer. destruct (free_buffers_ s) as [|b0 fl] eqn:Hfree.
    + pose proof (i_on _ Hi) as Hon. rewrite Hin in Hon. destruct Hon as (H0 & H1 & H2 & H3 & H4). rewrite H3. cbn [mbind option_bind].
      set (num := Z.of_nat (length (buffers s))) in *. destruct (Z.ltb_spec num (buff_max_num (cfg_ s))).
      * eexists. split; [done|]. split; [|by apply FrontAllocates].
        set (s1 := set_num (num + 1) (set_free [new_buffer (buff_size (cfg_ s))] s)).
        assert (buffers s1 = new_buffer (buff_size (cfg_ s)) :: buffers s) as Eb by (unfold buffers; by rewrite Hfree).
        assert (inv s1) as Hi1.
        { destruct Hi. split; try done.
          - unfold front_ok. cbn. by rewrite Hh.
          - change (cfg_ s1) with (cfg_ s). rewrite Eb. constructor; [|done]. unfold new_buffer, size_. cbn. lia.
          - by apply Forall_singleton.
          - change (inited_ s1) with (inited_ s). rewrite Hin. split; [done|]. unfold count_ok. rewrite Eb. cbn [cfg_ s1 set_num set_free buff_num_ length].
            split; [done|]. split; [done|]. split; [f_equal; unfold num; lia|]. fold num. lia. }
        apply (take_free_ok i (Loop (x :: rest)) (x :: rest) [] _ s1); try done.
      * eexists. split; [done|]. split; [|eapply FrontWaits; eauto]. apply inv_set_holder; [done|by rewrite Hr| |].
        -- unfold front_ok. cbn. done.
        -- by rewrite (holder_running _ _ _ Hi Hh).
    + destruct (take_free_eq i (x :: rest) s) as (l & b & El & E); [by rewrite Hfree|]. eexists. split; [exact E|].
      split; [by eapply take_free_ok|]. eapply FrontTakes; eauto.
  - pose proof (i_front _ Hi) as Hf. unfold front_ok in Hf. rewrite Hh in Hf. destruct Hf as (Hin & Hd & Hne & Hc & _).
    assert (rest_of s = rest) as Hr by (unfold rest_of; by rewrite Hh). destruct (free_buffers_ s) as [|b0 fl] eqn:Hfree.
    + eexists. split; [done|]. split; [|eapply FrontWaits; eauto]. apply inv_set_holder; [done|by rewrite Hr|done|].
      by rewrite (holder_running _ _ _ Hi Hh).
    + destruct (take_free_eq i rest s) as (l & b & El & E); [by rewrite Hfree|]. eexists. split; [exact E|].
      split; [by eapply take_free_ok|]. eapply FrontTakes; eauto.
Qed.

(** *** The back end *)

Lemma predicate_eq s : predicate s = if stop_signal_ s then Some (Flush false true) else match full_buffers_ s with [] => None | _ => Some (Flush false false) end.
Proof. done. Qed.

Lemma inv_looks s : inv s -> back s = Top /\ full_buffers_ s = [] \/ back s = Sleep true -> inv (set_back (default Park (predicate s)) s).
Proof.
  intros Hi Hb. apply inv_set_back; [done|destruct Hb as [[-> _]| ->]; done| | |].
  - rewrite predicate_eq. destruct (stop_signal_ s); [done|]. by destruct (full_buffers_ s).
  - unfold in_hand. cbn [back set_back]. rewrite predicate_eq. destruct (stop_signal_ s), (full_buffers_ s), Hb as [[-> _]| ->]; done.
  - unfold back_ok. cbn [back set_back]. rewrite predicate_eq. destruct (stop_signal_ s) eqn:E; [done|]. by destruct (full_buffers_ s) eqn:Ef.
Qed.

Lemma inv_flush s t q : inv s -> back s = Flush t q -> inv (set_back (Fetch q) (if t || q then flush s else s)).
Proof.
  intros Hi Hb. assert (forall s', inv s' -> back s' = Flush t q -> (q = true -> stop_signal_ s' = true /\ curr_buffer_ s' = None) -> inv (set_back (Fetch q) s')) as Hgo.
  { intros s' Hi' Hb' Hq. apply inv_set_back; [done|by rewrite Hb'|done|by unfold in_hand; rewrite Hb'|]. unfold back_ok. cbn. by destruct q; [apply Hq|]. }
  pose proof (i_back _ Hi) as Hbo. unfold back_ok in Hbo. rewrite Hb in Hbo.
  assert (q = true -> stop_signal_ s = true /\ holder s = None) as Hq.
  { intros ->. split; [done|]. by apply (i_stop _ Hi). }
  destruct (t || q) eqn:Etq; [|apply orb_false_iff in Etq as [-> ->]; by apply Hgo].
  unfold flush. destruct (holder s) as [[i f]|] eqn:Hh; [apply Hgo; [done|done|]; by intros [_ ?]%Hq|].
  destruct (curr_buffer_ s) as [b|] eqn:Hc; [|apply Hgo; [done|done|]; intros H; split; [by apply Hq|done]].
  apply Hgo; [|done|]. 2: { intros H. split; [by apply Hq|done]. }
  destruct Hi. assert (buffers (set_curr None (set_full (full_buffers_ s ++ [b]) s)) = buffers s) as Eb.
  { unfold buffers, in_hand. cbn. rewrite Hc. cbn. by rewrite <- (app_assoc (full_buffers_ s)). }
  split; try done.
  - etrans; [|exact i_bytes0]. change (taken_out (set_curr None (set_full (full_buffers_ s ++ [b]) s))) with (taken_out s). f_equal.
    unfold pending, in_hand, rest_of. cbn [back holder full_buffers_ curr_buffer_ set_curr set_full option_list].
    rewrite Hc, bytes_app, <- app_assoc. done.
  - unfold front_ok. cbn. by rewrite Hh.
  - unfold back_ok. cbn. by rewrite Hb.
  - by rewrite Eb.
  - cbn [inited_ set_curr set_full]. destruct (inited_ s); [|by rewrite Eb]. split; [apply i_on0|]. unfold count_ok. rewrite Eb. apply i_on0.
Qed.

Lemma inv_fetch s b rest q : inv s -> back s = Fetch q -> full_buffers_ s = b :: rest -> inv (set_back (Callback b q) (set_full rest s)).
Proof.
  intros Hi Hb Hf. pose proof (i_back _ Hi) as Hbo. unfold back_ok in Hbo. rewrite Hb in Hbo. destruct Hi.
  set (s' := set_back _ _). assert (buffers s' ≡ₚ buffers s) as Hp.
  { unfold buffers, s', in_hand. cbn. rewrite Hb, Hf. cbn. solve_Permutation. }
  split; try done.
  - etrans; [|exact i_bytes0]. change (taken_out s') with (taken_out s). f_equal. unfold pending, s', in_hand. cbn. rewrite Hb, Hf. cbn. by rewrite app_nil_r, <- app_assoc.
  - unfold back_ok. cbn. by intros ->.
  - by rewrite Hp.
  - cbn [inited_ s' set_back set_full]. destruct (inited_ s); [|destruct i_on0 as [? _]; congruence]. split; [done|]. unfold count_ok.
    rewrite (Permutation_length Hp). apply i_on0.
Qed.

Lemma inv_callback s b q : inv s -> back s = Callback b q -> inv (set_back (Account (reset b) q) (add_handled (cb_ s, data_ b) s)).
Proof.
  intros Hi Hb. pose proof (i_back _ Hi) as Hbo. unfold back_ok in Hbo. rewrite Hb in Hbo. destruct Hi.
  set (s' := set_back _ _). assert (buffers s = free_buffers_ s ++ full_buffers_ s ++ option_list (curr_buffer_ s) ++ [b]) as E by (unfold buffers, in_hand; by rewrite Hb).
  assert (buffers s' = free_buffers_ s ++ full_buffers_ s ++ option_list (curr_buffer_ s) ++ [reset b]) as E' by done.
  split; try done.
  - etrans; [|exact i_bytes0]. unfold taken_out, pending, s', in_hand, bytes. cbn [handled add_handled set_back back full_buffers_ curr_buffer_ reset map concat data_].
    rewrite Hb, map_app, concat_app. cbn. rewrite !app_nil_r, <- app_assoc. done.
  - rewrite E', E in *. rewrite !Forall_app, !Forall_singleton in *. destruct i_caps0 as (? & ? & ? & ? & ?). split_and!; try done.
    change (0 <= capacity_ b). unfold size_ in *. lia.
  - cbn [inited_ s' set_back add_handled]. destruct (inited_ s); [|destruct i_on0 as [? _]; congruence]. split; [done|]. unfold count_ok.
    replace (length (buffers s')) with (length (buffers s)) by (by rewrite E, E', !length_app). apply i_on0.
Qed.

Lemma inv_delete s b q num : inv s -> back s = Account b q -> buff_num_ s = Some num -> buff_min_num (cfg_ s) < num ->
  inv (set_back (Fetch q) (set_num (num - 1) s)).
Proof.
  intros Hi Hb Hn Hlt. pose proof (i_back _ Hi) as Hbo. unfold back_ok in Hbo. rewrite Hb in Hbo. destruct Hbo as [Hemp Hq]. destruct Hi.
  set (s' := set_back _ _). assert (buffers s = buffers s' ++ [b]) as E.
  { unfold buffers, s', in_hand. cbn. rewrite Hb, app_nil_r. by rewrite <- !app_assoc. }
  split; try done.
  - etrans; [|exact i_bytes0]. change (taken_out s') with (taken_out s). f_equal. unfold pending, s', in_hand. cbn. rewrite Hb. cbn. by rewrite Hemp.
  - unfold back_ok. cbn. destruct q; [by apply Hq|done].
  - rewrite E in i_caps0. by apply Forall_app in i_caps0 as [? _].
  - cbn [inited_ s' set_back set_num]. destruct (inited_ s); [|destruct i_on0 as [? _]; congruence]. split; [done|].
    destruct i_on0 as (_ & H1 & H2 & H3 & H4). rewrite Hn in H3. injection H3 as H3. rewrite E, length_app in H3, H4. cbn [length] in *.
    unfold count_ok. fold s'. cbn [cfg_ buff_num_ s' set_back set_num] in *. split_and!; try done; try lia. f_equal. lia.
Qed.

Lemma inv_give_back s b q : inv s -> back s = GiveBack b q -> inv (set_back (Fetch q) (notify_free (set_free (free_buffers_ s ++ [b]) s))).
Proof.
  intros Hi Hb. pose proof (i_back _ Hi) as Hbo. unfold back_ok in Hbo. rewrite Hb in Hbo. destruct Hbo as [Hemp Hq].
  pose proof (inv_notify_free _ Hi) as Hi'. set (s1 := notify_free s) in *.
  assert (notify_free (set_free (free_buffers_ s ++ [b]) s) = set_free (free_buffers_ s1 ++ [b]) s1) as -> by (unfold s1, notify_free; cbn; by destruct (holder s) as [[? []]|]).
  assert (back s1 = GiveBack b q) as Hb1 by (unfold s1, notify_free; by destruct (holder s) as [[? []]|]).
  assert (q = true -> stop_signal_ s1 = true /\ curr_buffer_ s1 = None) as Hq1 by (unfold s1, notify_free; by destruct (holder s) as [[? []]|]).
  assert (forall i rest, holder s1 <> Some (i, Waiting false rest)) as Hnw by (intros i rest; unfold s1, notify_free; destruct (holder s) as [[? []]|] eqn:Eh; cbn; congruence).
  clearbody s1. clear Hi Hb Hq s. destruct Hi'.
  set (s' := set_back _ _). assert (buffers s' ≡ₚ buffers s1) as Hp.
  { unfold buffers, s', in_hand. cbn. rewrite Hb1. cbn. solve_Permutation. }
  split; try done.
  - etrans; [|exact i_bytes0]. change (taken_out s') with (taken_out s1). f_equal. unfold pending, s', in_hand. cbn. rewrite Hb1. cbn. by rewrite Hemp.
  - unfold front_ok in *. cbn. destruct (holder s1) as [[i [| |w rest]]|] eqn:Eh; try done. destruct i_front0 as (? & ? & ? & ? & _). split_and!; try done.
    intros ->. by destruct (Hnw i rest).
  - unfold back_ok. cbn. destruct q; [by apply Hq1|done].
  - by rewrite Hp.
  - apply Forall_app. split; [done|]. by apply Forall_singleton.
  - cbn [inited_ s' set_back set_free]. destruct (inited_ s1); [|destruct i_on0 as [? _]; congruence]. split; [done|]. unfold count_ok.
    rewrite (Permutation_length Hp). apply i_on0.
Qed.

Lemma back_step_ok s : inv s -> exists s', back_step s = Some s' /\ inv s'.
Proof.
  intros Hi. pose proof (i_back _ Hi) as Hbo. unfold back_ok in Hbo. unfold back_step. destruct (back s) as [| | |[]|t q|q|b q|b q|b q|] eqn:Hb; try by exists s.
  - destruct (full_buffers_ s) eqn:Hf; (eexists; split; [done|]); [apply inv_looks; auto|]. apply inv_set_back; try done; [by rewrite Hb|by unfold in_hand; rewrite Hb].
  - eexists; split; [done|]. apply inv_set_back; try done; [by rewrite Hb|by unfold in_hand; rewrite Hb].
  - eexists; split; [done|]. apply inv_looks; auto.
  - eexists; split; [done|]. by apply inv_flush.
  - destruct (full_buffers_ s) eqn:Hf; (eexists; split; [done|]); [|by apply inv_fetch].
    apply inv_set_back; [done|by rewrite Hb|by destruct q|by unfold in_hand; cbn; rewrite Hb; destruct q|]. unfold back_ok. cbn. destruct q; [|done].
    by destruct Hbo.
  - eexists; split; [done|]. by apply inv_callback.
  - pose proof (i_on _ Hi) as Hon. destruct (inited_ s); [|destruct Hon; congruence]. destruct Hon as (_ & _ & _ & Hn & _). rewrite Hn. cbn [mbind option_bind].
    destruct (Z.ltb_spec (buff_min_num (cfg_ s)) (Z.of_nat (length (buffers s)))); (eexists; split; [done|]); [by eapply inv_delete|].
    apply inv_set_back; try done; [by rewrite Hb|by unfold in_hand; rewrite Hb].
  - eexists; split; [done|]. by apply inv_give_back.
Qed.

(** ** All executions *)

Lemma pipe_step_ok e s : inv s -> legal e s -> exists s', step e s = Some s' /\ inv s'.
Proof.
  intros Hi Hl. destruct e; cbn [step].
  - by apply inv_initialize.
  - eexists. split; [done|]. by apply inv_set_cb.
  - eexists. split; [done|]. by apply inv_cleanup_begin.
  - by apply inv_cleanup_end.
  - eexists. split; [done|]. by apply inv_lock.
  - by apply inv_append.
  - by apply inv_unlock.
  - destruct (front_step_ok s Hi) as (s' & E & H & _). by exists s'.
  - by apply back_step_ok.
  - eexists. split; [done|]. by apply inv_timeout.
  - eexists. split; [done|]. by apply inv_notify_free.
  - eexists. split; [done|]. by apply inv_notify_full.
Qed.

Lemma pipe_run_inv l : forall s, inv s -> legal_run l s = true -> exists s', run l s = Some s' /\ inv s'.
Proof.
  induction l as [|e l IH]; intros s Hi Hl; [by exists s|]. cbn in Hl. apply andb_true_iff in Hl as [He Hl].
  apply bool_decide_eq_true in He. destruct (pipe_step_ok e s Hi He) as (s1 & E & Hi1). rewrite E in Hl. cbn. rewrite E. cbn. by apply IH.
Qed.

(** All that was to be appended. *)
Definition data_of (e : event) : list Z := match e with AppendLockless _ data => data | _ => [] end.
Definition appends (l : list event) : list Z := concat (map data_of l).

Lemma appended_front s s' : front_step s = Some s' -> inv s -> appended s' = appended s.
Proof.
  intros E Hi. destruct (front_step_ok s Hi) as (s2 & E2 & _ & Hd). rewrite E in E2. injection E2 as ->. destruct Hd as [| | | | |? ? ? ? ? ? ? ? ? ? Hw]; try done.
  destruct Hw as [->|[_ ->]]; [done|]. cbn. unfold notify_full. cbn. by destruct (back s).
Qed.

Lemma appended_back s s' : back_step s = Some s' -> appended s' = appended s.
Proof.
  unfold back_step. destruct (back s) as [| | |[]|t q|q|b q|b q|b q|]; intros E; try (injection E as <-); try done.
  - destruct (full_buffers_ s); by injection E as <-.
  - cbn. destruct (t || q); [|done]. unfold flush. by destruct (holder s), (curr_buffer_ s).
  - destruct (full_buffers_ s); by injection E as <-.
  - destruct (buff_num_ s); [|done]. cbn in E. destruct (_ <? _); by injection E as <-.
  - unfold notify_free. cbn. by destruct (holder s) as [[? []]|].
Qed.

Lemma appended_step e s s' : inv s -> step e s = Some s' -> appended s' = appended s ++ data_of e.
Proof.
  intros Hi. destruct e; cbn [step data_of]; intros E; rewrite ?app_nil_r; try (injection E as <-).
  - unfold initialize in E. destruct (negb (config_ok cfg)); [by injection E as <-|]. destruct (back s); try done. by injection E as <-.
  - done.
  - unfold cleanup_begin, notify_full. destruct (negb (inited_ s)); [done|]. cbn. by destruct (back s).
  - unfold cleanup_end in E. destruct (stop_signal_ s); [|by injection E as <-]. destruct (back s); try (by injection E as <-).
    case_bool_decide; [by injection E as <-|done].
  - unfold appendLock. by destruct (holder s).
  - unfold appendLockless in E. destruct (holder s) as [[j []]|]; try done. case_decide; [by injection E as <-|done].
  - unfold appendUnlock in E. destruct (holder s) as [[j []]|]; try done. case_decide; [by injection E as <-|done].
  - by apply appended_front.
  - by apply appended_back.
  - unfold timeout. by destruct (back s).
  - unfold notify_free. by destruct (holder s) as [[? []]|].
  - unfold notify_full. by destruct (back s).
Qed.

(** There is a callback whenever the back end comes to call it. *)
Definition callback_kept (l : list event) : Prop :=
  forall l1 l2 s b quit, l = l1 ++ Back :: l2 -> run l1 new_pipe = Some s -> back s = Callback b quit -> cb_ s = true.

Lemma handled_front s s' : front_step s = Some s' -> handled s' = handled s.
Proof.
  intros E. unfold front_step, get_buffer, take_free, write_buffer, notify_full, mbind, option_bind in E.
  repeat case_match; simplify_eq/=; done.
Qed.

Lemma handled_step e s s' : step e s = Some s' ->
  handled s' = handled s \/ e = Back /\ exists b quit, back s = Callback b quit /\ handled s' = handled s ++ [(cb_ s, data_ b)].
Proof.
  destruct e; cbn [step]; intros E; try (injection E as <-).
  - left. unfold initialize in E. destruct (negb (config_ok cfg)); [by injection E as <-|]. destruct (back s); try done. by injection E as <-.
  - by left.
  - left. unfold cleanup_begin, notify_full. destruct (negb (inited_ s)); [done|]. cbn. by destruct (back s).
  - left. unfold cleanup_end in E. destruct (stop_signal_ s); [|by injection E as <-]. destruct (back s); try (by injection E as <-).
    case_bool_decide; [by injection E as <-|done].
  - left. unfold appendLock. by destruct (holder s).
  - left. unfold appendLockless in E. destruct (holder s) as [[j []]|]; try done. case_decide; [by injection E as <-|done].
  - left. unfold appendUnlock in E. destruct (holder s) as [[j []]|]; try done. case_decide; [by injection E as <-|done].
  - left. by apply handled_front.
  - unfold back_step in E. destruct (back s) as [| | |[]|t q|q|b q|b q|b q|] eqn:Eb; try (injection E as <-; by left).
    + left. destruct (full_buffers_ s); by injection E as <-.
    + left. injection E as <-. cbn. destruct (t || q); [|done]. unfold flush. by destruct (holder s), (curr_buffer_ s).
    + left. destruct (full_buffers_ s); by injection E as <-.
    + right. injection E as <-. split; [done|]. by exists b, q.
    + left. destruct (buff_num_ s); [|done]. cbn in E. destruct (_ <? _); by injection E as <-.
    + left. injection E as <-. unfold notify_free. cbn. by destruct (holder s) as [[? []]|].
  - left. unfold timeout. by destruct (back s).
  - left. unfold notify_free. by destruct (holder s) as [[? []]|].
  - left. unfold notify_full. by destruct (back s).
Qed.

Lemma run_app l1 l2 s : run (l1 ++ l2) s = s' ← run l1 s; run l2 s'.
Proof. revert s. induction l1 as [|e l1 IH]; intros s; [done|]. cbn. destruct (step e s); [apply IH|done]. Qed.

Lemma kept_delivered l s : run l new_pipe = Some s -> callback_kept l -> delivered s = taken_out s.
Proof.
  revert s. induction l as [|e l IH] using rev_ind; intros s E Hk; [by injection E as <-|].
  rewrite run_app in E. destruct (run l new_pipe) as [s1|] eqn:E1; [|done]. cbn in E. destruct (step e s1) as [s2|] eqn:E2; [|done].
  injection E as ->. assert (delivered s1 = taken_out s1) as H1.
  { apply IH; [done|]. intros l1 l2 s0 b q -> Hr Hb. eapply (Hk l1 (l2 ++ [e])); [by rewrite <- app_assoc|exact Hr|exact Hb]. }
  unfold delivered, taken_out in *. destruct (handled_step _ _ _ E2) as [->|(-> & b & q & Hb & ->)]; [done|].
  rewrite (Hk l [] s1 b q eq_refl E1 Hb), filter_app, !map_app, !concat_app, H1. done.
Qed.

Lemma run_appends l : forall s s', inv s -> legal_run l s = true -> run l s = Some s' -> appended s' = appended s ++ appends l.
Proof.
  induction l as [|e l IH]; intros s s' Hi Hl E; cbn in *; [injection E as <-; by rewrite app_nil_r|]. apply andb_true_iff in Hl as [He Hl].
  apply bool_decide_eq_true in He. destruct (pipe_step_ok e s Hi He) as (s1 & E1 & Hi1). rewrite E1 in E, Hl. cbn in E.
  rewrite (IH _ _ Hi1 Hl E), (appended_step _ _ _ Hi E1). by rewrite <- app_assoc.
Qed.

(** A pipe that is not in use has nothing left. *)
Lemma off_pending s : inv s -> inited_ s = false -> buffers s = [] /\ pending s = [].
Proof.
  intros Hi Ein. pose proof (i_on _ Hi) as Hon. rewrite Ein in Hon. destruct Hon as [_ Hbuf]. split; [done|].
  unfold buffers in Hbuf. apply app_eq_nil in Hbuf as [H1 Hbuf]. apply app_eq_nil in Hbuf as [H2 Hbuf]. apply app_eq_nil in Hbuf as [H3 H4].
  unfold pending. rewrite H2, H3, H4. cbn. unfold rest_of. pose proof (i_front _ Hi) as Hf. unfold front_ok in Hf.
  destruct (holder s) as [[i []]|]; try done; destruct Hf; congruence.
Qed.

(** C14: the pipe loses nothing and reorders nothing, whatever the threads that append, the
    back end, the clock and spurious wake-ups do, and never leaves defined behaviour.
    What the back end has taken out, followed by what is in its hand, in the full
    buffers, in the current buffer and in the call that is under way, is all that was
    appended, in order; and when there is a callback whenever it comes to call it, all
    that it has taken out was given to the callback, in this order.  No more buffers exist than [buff_max_num] says, and none is
    larger than [buff_size].  After [cleanup()] everything was taken out. *)
Theorem bytes_accounted (l : list event) : legal_run l new_pipe = true ->
  exists s, run l new_pipe = Some s /\ taken_out s ++ pending s = appends l /\
    (callback_kept l -> delivered s = taken_out s) /\
    if inited_ s then Z.of_nat (length (buffers s)) <= buff_max_num (cfg_ s) /\ Forall (fun b => size_ b <= buff_size (cfg_ s)) (buffers s)
    else taken_out s = appends l /\ buffers s = [].
Proof.
  intros Hl. destruct (pipe_run_inv l _ pipe_inv_new Hl) as (s & E & Hi). exists s. split; [done|].
  pose proof (run_appends _ _ _ pipe_inv_new Hl E) as Ha. cbn in Ha. pose proof (i_bytes _ Hi) as Hb. rewrite Ha in Hb. split; [done|].
  split; [by apply kept_delivered|].
  pose proof (i_on _ Hi) as Hon. destruct (inited_ s) eqn:Ein.
  - split; [apply Hon|]. eapply Forall_impl; [apply (i_caps _ Hi)|]. intros b [<- ?]. done.
  - destruct (off_pending _ Hi Ein) as [? Hp]. split; [|done]. by rewrite Hp, app_nil_r in Hb.
Qed.

(** ** Progress

    Rounds of events that are no-ops or lower a measure, with one of two needed events
    that lowers it until nothing is left to do. *)

Section rounds.

Context (P : pipe -> Prop) (W : pipe -> nat) (finished : pipe -> Prop) (e1 e2 : event) (allowed : event -> Prop).
Hypothesis Hstep : forall s e, P s -> allowed e -> exists s', step e s = Some s' /\ P s' /\ (s' = s \/ (W s' < W s)%nat).
Hypothesis Hneed : forall s, P s -> finished s \/ exists e, (e = e1 \/ e = e2) /\ forall s', step e s = Some s' -> (W s' < W s)%nat.
Hypothesis Hstay : forall s e s', finished s -> allowed e -> step e s = Some s' -> finished s'.

Definition round (r : list event) : Prop := e1 ∈ r /\ e2 ∈ r /\ Forall allowed r.

Lemma rounds_allowed rs : Forall round rs -> Forall allowed (concat rs).
Proof. induction 1 as [|r rs (_ & _ & H) _ IH]; [done|]. cbn. by apply Forall_app. Qed.

Lemma round_steps r : forall s, P s -> Forall allowed r -> exists s', run r s = Some s' /\ P s' /\ (W s' <= W s)%nat /\ (finished s -> finished s').
Proof.
  induction r as [|e r IH]; intros s Hs Hr; [exists s; split_and!; auto|]. apply Forall_cons in Hr as [He Hr].
  destruct (Hstep s e Hs He) as (s1 & E1 & Hs1 & Hw). destruct (IH s1 Hs1 Hr) as (s' & E & Hs' & Hle & Hf). exists s'. cbn. rewrite E1. cbn.
  split; [done|]. split; [done|]. split; [destruct Hw as [->|]; lia|]. intros H. apply Hf. by apply (Hstay s e).
Qed.

Lemma round_lowers r : forall s e, P s -> Forall allowed r -> e ∈ r -> (forall s', step e s = Some s' -> (W s' < W s)%nat) ->
  exists s', run r s = Some s' /\ P s' /\ (W s' < W s)%nat.
Proof.
  induction r as [|e0 r IH]; intros s e Hs Hr Hin He; [by apply not_elem_of_nil in Hin|]. apply Forall_cons in Hr as [He0 Hr].
  destruct (Hstep s e0 Hs He0) as (s1 & E1 & Hs1 & Hw). assert (W s1 < W s \/ s1 = s /\ e ∈ r)%nat as [Hlt|[-> Hin']].
  { apply elem_of_cons in Hin as [->|Hin]; [left; by apply He|]. destruct Hw as [->|]; auto. }
  - destruct (round_steps r s1 Hs1 Hr) as (s' & E & Hs' & Hle & _). exists s'. cbn. rewrite E1. cbn. split_and!; [done|done|lia].
  - destruct (IH s e Hs Hr Hin' He) as (s' & E & H). exists s'. cbn. rewrite E1. by split.
Qed.

Lemma rounds_finish rs : forall s, P s -> Forall round rs -> (W s < length rs)%nat -> exists s', run (concat rs) s = Some s' /\ P s' /\ finished s'.
Proof.
  induction rs as [|r rs IH]; intros s Hs Hrs Hlen; [cbn in Hlen; lia|]. apply Forall_cons in Hrs as [(H1 & H2 & Hr) Hrs]. cbn [concat].
  rewrite run_app. destruct (Hneed s Hs) as [Hf|(e & He & Hlow)].
  - destruct (round_steps r s Hs Hr) as (s1 & E1 & Hs1 & _ & Hf1). rewrite E1. cbn.
    pose proof (rounds_allowed rs Hrs) as Hall.
    destruct (round_steps (concat rs) s1 Hs1 Hall) as (s' & E & Hs' & _ & Hf'). exists s'. auto.
  - destruct (round_lowers r s e Hs Hr) as (s1 & E1 & Hs1 & Hlt); [by destruct He as [->| ->]|done|]. rewrite E1. cbn.
    apply IH; [done|done|cbn in Hlen; lia].
Qed.

End rounds.

(** While the pipe runs: the steps the back end needs until it sleeps, and those of the
    thread that appends, with what they make the back end do. *)
Definition back_work (s : pipe) : nat :=
  let full := (4 * length (full_buffers_ s))%nat in
  match back s with
  | NoThread | Ended | Sleep false => 0
  | Park => 1
  | Top | Sleep true => match full_buffers_ s with [] => 2 | _ => 5 + full end
  | Flush t q => 4 + full + match holder s, curr_buffer_ s with None, Some _ => if t || q then 4 else 0 | _, _ => 0 end
  | Fetch _ => 3 + full
  | GiveBack _ _ => 4 + full
  | Account _ _ => 5 + full
  | Callback _ _ => 6 + full
  end.

Definition front_work (s : pipe) : nat :=
  match holder s with
  | None | Some (_, Between) => 0
  | Some (_, Loop rest) => 40 * length rest + match curr_buffer_ s with None => 4 | Some _ => 1 end
  | Some (_, Waiting woken rest) => 40 * length rest + if (woken : bool) then 3 else 2
  end.

Definition work (s : pipe) : nat := 3 * back_work s + front_work s.

Definition running (s : pipe) : Prop := inv s /\ inited_ s = true /\ stop_signal_ s = false.

(** Nothing is left that must be done. *)
Definition at_rest (s : pipe) : Prop := front_work s = 0%nat /\ back s = Sleep false.

Lemma front_keeps s s' : front_does s s' -> stop_signal_ s' = stop_signal_ s /\ inited_ s' = inited_ s.
Proof.
  intros []; try done. match goal with H : front_wrote _ _ _ _ _ |- _ => destruct H as [->|[_ ->]] end; [done|].
  unfold notify_full. cbn. by destruct (back s).
Qed.

Lemma front_lowers s s' : running s -> front_does s s' -> s' = s \/ (work s' < work s)%nat.
Proof.
  intros (Hi & Hin & Hs) Hd. destruct Hd as [|i Hh|i f rest l b Hh Hf Hne Hfr Hc|i rest num Hh Hne Hfr Hc Hn Hlt|i f rest Hh Hf Hne Hfr Hc|i x rest n b b' s' Hh Hc Hn Hw].
  - by left.
  - right. unfold work, back_work, front_work. cbn. rewrite Hh. destruct (back s), (curr_buffer_ s); cbn; lia.
  - right. unfold work, back_work, front_work. cbn. rewrite Hh, Hc. destruct Hf as [->| ->]; destruct (back s); cbn; lia.
  - right. unfold work, back_work, front_work. cbn. rewrite Hh, Hc. destruct (back s); cbn; lia.
  - right. unfold work, back_work, front_work. cbn. rewrite Hh, Hc. destruct Hf as [->| ->]; destruct (back s); cbn; lia.
  - right. assert (length (drop n (x :: rest)) < length (x :: rest))%nat as Hlen by (rewrite length_drop; cbn; lia). cbn [length] in Hlen.
    destruct Hw as [->|[Hp ->]]; unfold work, back_work, front_work, notify_full; cbn [holder curr_buffer_ back full_buffers_ set_holder set_curr set_full set_back].
    + rewrite Hh, Hc. cbn [length]. destruct (back s); lia.
    + rewrite Hh, Hc. pose proof (i_back _ Hi) as Hb. unfold back_ok in Hb.
      destruct (back s) as [| | |[]|t q|q|b0 q|b0 q|b0 q|] eqn:Eb; try done; cbn [holder curr_buffer_ back full_buffers_ set_holder set_curr set_full set_back];
        rewrite ?Eb, ?length_app; cbn [length]; try (destruct (full_buffers_ s) eqn:Ef; cbn [length app]; rewrite ?length_app; cbn [length]); try congruence; lia.
Qed.

Lemma back_lowers s s' : running s -> back_step s = Some s' -> (s' = s /\ back s = Sleep false \/ (work s' < work s)%nat) /\ stop_signal_ s' = false /\ inited_ s' = true.
Proof.
  intros (Hi & Hin & Hs). pose proof (i_back _ Hi) as Hbo. unfold back_ok in Hbo. rewrite Hs in Hbo. pose proof (i_on _ Hi) as Hon. rewrite Hin in Hon.
  unfold back_step. destruct (back s) as [| | |[]|t [|]|[|]|b q|b q|b q|] eqn:Hb; try (destruct Hbo; done); try (destruct Hon; done).
  - destruct (full_buffers_ s) eqn:Hf; intros [= <-]; (split; [right|done]); unfold work, back_work, front_work; rewrite ?predicate_eq, ?Hs, ?Hf; cbn; rewrite ?Hb, ?Hf, ?Hs;
      destruct (holder s), (curr_buffer_ s); cbn; lia.
  - intros [= <-]. split; [right|done]. unfold work, back_work, front_work. cbn. rewrite Hb. lia.
  - intros [= <-]. split; [right|done]. unfold work, back_work, front_work. rewrite predicate_eq, Hs. destruct (full_buffers_ s) eqn:Hf; cbn; rewrite ?Hb, ?Hf;
      destruct (holder s), (curr_buffer_ s); cbn; lia.
  - intros [= <-]. split; [by left|done].
  - intros [= <-]. rewrite orb_false_r. unfold flush. unfold work, back_work, front_work. rewrite Hb. destruct t, (holder s) eqn:Hh, (curr_buffer_ s) eqn:Hc; cbn; (split; [right|done]);
      rewrite ?Hh, ?Hc, ?length_app; cbn; lia.
  - destruct (full_buffers_ s) eqn:Hf; intros [= <-]; (split; [right|done]); unfold work, back_work, front_work; cbn; rewrite ?Hb, ?Hf; cbn; lia.
  - intros [= <-]. split; [right|done]. unfold work, back_work, front_work. cbn. rewrite Hb. cbn. lia.
  - destruct (buff_num_ s) as [num|]; [|done]. cbn. destruct (_ <? _); intros [= <-]; (split; [right|done]); unfold work, back_work, front_work; cbn; rewrite Hb; cbn; lia.
  - intros [= <-]. unfold notify_free, work, back_work, front_work. cbn. rewrite Hb. destruct (holder s) as [[i [|rest|[] rest]]|] eqn:Hh; cbn; rewrite ?Hh; (split; [right|done]); lia.
Qed.

Definition or_front (e : event) : Prop := e = Back \/ e = Front.
Definition or_timeout (e : event) : Prop := e = Back \/ e = Timeout \/ e = Front.

Lemma running_step s e : running s -> or_front e -> exists s', step e s = Some s' /\ running s' /\ (s' = s \/ (work s' < work s)%nat).
Proof.
  intros Hr [->| ->]; pose proof Hr as (Hi & Hin & Hs); cbn [step].
  - destruct (back_step_ok s Hi) as (s' & E & Hi'). destruct (back_lowers s s' Hr E) as ([[H _]|H] & H1 & H2); exists s'; (split; [done|split; [done|auto]]).
  - destruct (front_step_ok s Hi) as (s' & E & Hi' & Hd). destruct (front_keeps _ _ Hd) as [H1 H2]. exists s'. split; [done|].
    split; [split; [done|split; congruence]|]. by apply front_lowers.
Qed.

(** When nothing can go on, nothing has to: a thread that waits for a buffer finds the
    back end with all of them. *)
Lemma running_needs s : running s -> at_rest s \/ exists e, (e = Back \/ e = Front) /\ forall s', step e s = Some s' -> (work s' < work s)%nat.
Proof.
  intros Hr. pose proof Hr as (Hi & Hin & Hs). destruct (decide (back s = Sleep false)) as [Hb|Hb].
  - pose proof (i_back _ Hi) as Hbo. unfold back_ok in Hbo. rewrite Hb in Hbo.
    assert (forall i f, holder s = Some (i, f) -> f <> Between -> (forall rest, f <> Waiting false rest) -> exists s', front_step s = Some s' /\ (work s' < work s)%nat) as Hgo.
    { intros i f Hh Hf1 Hf2. destruct (front_step_ok s Hi) as (s' & E & _ & Hd). exists s'. split; [done|].
      destruct (front_lowers _ _ Hr Hd) as [->|]; [|done]. exfalso. revert E. unfold front_step. rewrite Hh. pose proof (i_front _ Hi) as Hfo. unfold front_ok in Hfo. rewrite Hh in Hfo.
      destruct f as [|[|x rest]|[] rest]; [done| | | |by destruct (Hf2 rest)].
      - intros E. by apply (f_equal (fmap holder)) in E; cbn in E; rewrite Hh in E.
      - destruct (curr_buffer_ s) as [b|] eqn:Hc.
        + destruct (write_buffer_ok i x rest b s Hi Hh Hc) as [[Hp _]|(n & b' & s' & Hn & -> & Hw & _)]; [congruence|]. intros [= ->].
          assert (holder s = Some (i, Loop (drop n (x :: rest)))) as H.
          { destruct Hw as [E'|[_ E']]; apply (f_equal holder) in E'; cbn in E'; done. }
          rewrite Hh in H. injection H as H. apply (f_equal length) in H. rewrite length_drop in H. cbn in H. lia.
        + unfold get_buffer. destruct (free_buffers_ s) as [|b0 fl] eqn:Hfr.
          * destruct (buff_num_ s) as [num|]; [|done]. cbn. destruct (_ <? _); intros E; [apply (f_equal (fmap curr_buffer_)) in E; cbn in E; congruence|].
            apply (f_equal (fmap holder)) in E. cbn in E. congruence.
          * destruct (take_free_eq i (x :: rest) s) as (l & b & _ & ->); [by rewrite Hfr|]. intros E. apply (f_equal (fmap curr_buffer_)) in E. cbn in E. congruence.
      - destruct Hfo as (_ & _ & _ & Hc & _). destruct (free_buffers_ s) as [|b0 fl] eqn:Hfr.
        + intros E. apply (f_equal (fmap holder)) in E. cbn in E. congruence.
        + destruct (take_free_eq i rest s) as (l & b & _ & ->); [by rewrite Hfr|]. intros E. apply (f_equal (fmap curr_buffer_)) in E. cbn in E. congruence. }
    destruct (holder s) as [[i f]|] eqn:Hh; [|left; split; [unfold front_work; by rewrite Hh|done]].
    destruct f as [|rest|[] rest]; [left; split; [unfold front_work; by rewrite Hh|done]| | |].
    1, 2: right; exists Front; split; [by right|]; destruct (Hgo i _ eq_refl) as (s1 & E1 & Hlt); [done|done|]; intros s'; cbn; rewrite E1; by intros [= <-].
    exfalso. pose proof (i_front _ Hi) as Hfo. unfold front_ok in Hfo. rewrite Hh in Hfo. destruct Hfo as (_ & _ & _ & Hc & Hfr).
    pose proof (i_on _ Hi) as Hon. rewrite Hin in Hon. destruct Hon as (_ & _ & H2 & _ & H4).
    unfold buffers, in_hand in H4. rewrite Hfr, Hbo, Hc, Hb in H4 by done. cbn in H4. lia.
  - right. exists Back. split; [by left|]. intros s' E. by destruct (back_lowers s s' Hr E) as ([[_ H]|H] & _).
Qed.

Lemma at_rest_stays s e s' : running s -> at_rest s -> or_front e -> step e s = Some s' -> s' = s.
Proof.
  intros Hr [Hf Hb] [->| ->]; cbn [step].
  - unfold back_step. rewrite Hb. by intros [= <-].
  - unfold front_work in Hf. unfold front_step. destruct (holder s) as [[i [|rest|[] rest]]|]; try (by intros [= <-]); destruct (curr_buffer_ s); lia.
Qed.

(** When [cleanup()] waits: the steps until the back end has ended. *)
Definition ending_work (s : pipe) : nat :=
  let full := (4 * length (full_buffers_ s))%nat in
  let all := (full + 4 * length (option_list (curr_buffer_ s)))%nat in
  match back s with
  | NoThread | Ended => 0
  | Fetch true => 1 + full
  | GiveBack _ true => 2 + full
  | Account _ true => 3 + full
  | Callback _ true => 4 + full
  | Flush _ true => 2 + all
  | Sleep _ => 3 + all
  | Park => 4 + all
  | Fetch false => 5 + all
  | Flush _ false => 6 + all
  | GiveBack _ false => 6 + all
  | Account _ false => 7 + all
  | Callback _ false => 8 + all
  | Top => match full_buffers_ s with [] => 3 + all | _ => 7 + all end
  end.

Definition ending (s : pipe) : Prop := inv s /\ stop_signal_ s = true.
Definition ended (s : pipe) : Prop := back s = Ended.

Lemma back_ends s s' : ending s -> back_step s = Some s' -> (s' = s /\ (back s = Sleep false \/ back s = Ended) \/ (ending_work s' < ending_work s)%nat) /\ stop_signal_ s' = true.
Proof.
  intros (Hi & Hs). pose proof (i_back _ Hi) as Hbo. unfold back_ok in Hbo. destruct (i_stop _ Hi Hs) as [Hh Hin].
  pose proof (i_on _ Hi) as Hon. rewrite Hin in Hon.
  unfold back_step. destruct (back s) as [| | |[]|t q|q|b q|b q|b q|] eqn:Hb; try (destruct Hon; done).
  - destruct (full_buffers_ s) eqn:Hf; intros [= <-]; (split; [right|done]); unfold ending_work; rewrite ?predicate_eq, ?Hs, ?Hf; cbn; rewrite ?Hb, ?Hf, ?Hs; cbn; lia.
  - intros [= <-]. split; [right|done]. unfold ending_work. cbn. rewrite Hb. lia.
  - intros [= <-]. split; [right|done]. unfold ending_work. rewrite predicate_eq, Hs. cbn. rewrite Hb. lia.
  - intros [= <-]. split; [left; auto|done].
  - intros [= <-]. unfold flush, ending_work. rewrite Hb. destruct t, q, (curr_buffer_ s) eqn:Hc; cbn; rewrite ?Hh, ?Hc; cbn; rewrite ?Hh, ?Hc; (split; [right|done]);
      rewrite ?length_app; cbn; lia.
  - destruct (full_buffers_ s) eqn:Hf; intros [= <-]; (split; [right|by destruct q]); unfold ending_work; destruct q; cbn; rewrite ?Hb, ?Hf; cbn; lia.
  - intros [= <-]. split; [right|done]. unfold ending_work. cbn. rewrite Hb. destruct q; cbn; lia.
  - destruct (buff_num_ s) as [num|]; [|done]. cbn. destruct (_ <? _); intros [= <-]; (split; [right|done]); unfold ending_work; cbn; rewrite Hb; destruct q; cbn; lia.
  - intros [= <-]. unfold notify_free, ending_work. cbn. rewrite Hh, Hb. (split; [right|done]). destruct q; cbn; lia.
  - intros [= <-]. split; [left; auto|done].
Qed.

Lemma timeout_ends s : ending s -> (timeout s = s /\ back s <> Sleep false \/ (ending_work (timeout s) < ending_work s)%nat) /\ stop_signal_ (timeout s) = true.
Proof.
  intros (Hi & Hs). unfold timeout. destruct (back s) eqn:Hb; try (split; [left; split; [done|congruence]|done]).
  split; [right|done]. unfold ending_work. rewrite predicate_eq, Hs. cbn. rewrite Hb. lia.
Qed.

Lemma ending_step s e : ending s -> or_timeout e -> exists s', step e s = Some s' /\ ending s' /\ (s' = s \/ (ending_work s' < ending_work s)%nat).
Proof.
  intros He [->|[->| ->]]; pose proof He as (Hi & Hs); cbn [step].
  - destruct (back_step_ok s Hi) as (s' & E & Hi'). destruct (back_ends s s' He E) as ([[H _]|H] & H1); exists s'; (split; [done|split; [done|auto]]).
  - destruct (timeout_ends s He) as [[[H _]|H] H1]; exists (timeout s); (split; [done|split; [split; [by apply inv_timeout|done]|auto]]).
  - exists s. unfold front_step. destruct (i_stop _ Hi Hs) as [-> _]. auto.
Qed.

Lemma ending_needs s : ending s -> ended s \/ exists e, (e = Back \/ e = Timeout) /\ forall s', step e s = Some s' -> (ending_work s' < ending_work s)%nat.
Proof.
  intros He. destruct (decide (back s = Ended)) as [|Hn]; [by left|]. right. destruct (decide (back s = Sleep false)) as [Hb|Hb].
  - exists Timeout. split; [by right|]. intros s' [= <-]. by destruct (timeout_ends s He) as [[[_ H]|H] _].
  - exists Back. split; [by left|]. intros s' E. by destruct (back_ends s s' He E) as ([[_ [H|H]]|H] & _).
Qed.

Lemma ended_stays s e s' : ending s -> ended s -> or_timeout e -> step e s = Some s' -> ended s'.
Proof.
  intros (Hi & Hs) Hb [->|[->| ->]]; cbn [step]; unfold ended in *.
  - unfold back_step. rewrite Hb. by intros [= <-].
  - intros [= <-]. unfold timeout. by rewrite Hb.
  - unfold front_step. destruct (i_stop _ Hi Hs) as [-> _]. by intros [= <-].
Qed.

Lemma turns_append_nothing l : forall s s', inv s -> Forall or_timeout l -> run l s = Some s' -> appended s' = appended s.
Proof.
  induction l as [|e l IH]; intros s s' Hi Hl E; cbn in E; [by injection E as <-|]. apply Forall_cons in Hl as [He Hl].
  assert (legal e s) as Hle by (by destruct He as [->|[->| ->]]). destruct (pipe_step_ok e s Hi Hle) as (s1 & E1 & Hi1). rewrite E1 in E. cbn in E.
  rewrite (IH _ _ Hi1 Hl E), (appended_step _ _ _ Hi E1). destruct He as [->|[->| ->]]; cbn; by rewrite app_nil_r.
Qed.

(** C15: appending and cleaning up come to an end.  From any state of a pipe that runs,
    if the back end and the thread that appends take turns in any order, each again
    and again, then after as many rounds as the work that is left the call is over, even
    if it had to wait for a buffer, and the full buffers have been taken out.  Once
    [cleanup()] has begun, if the back end goes on and the interval ends now and then,
    the back end ends, [cleanup()] returns, and all that was appended has been
    taken out, and given to the callback when there always was one. *)
Theorem appends_and_cleanup_end (l : list event) (s : pipe) : legal_run l new_pipe = true -> run l new_pipe = Some s ->
  (inited_ s = true -> stop_signal_ s = false -> forall rs, Forall (round Back Front or_front) rs -> (work s < length rs)%nat ->
     exists s', run (concat rs) s = Some s' /\ rest_of s' = [] /\ front_work s' = 0%nat /\ in_hand s' = [] /\ full_buffers_ s' = []) /\
  (stop_signal_ s = true -> forall rs, Forall (round Back Timeout or_timeout) rs -> (ending_work s < length rs)%nat ->
     exists s', run (concat rs ++ [CleanupEnd]) s = Some s' /\ inited_ s' = false /\ taken_out s' = appends l /\
       (callback_kept (l ++ concat rs) -> delivered s' = appends l)).
Proof.
  intros Hl E. destruct (pipe_run_inv l _ pipe_inv_new Hl) as (s0 & E0 & Hi). rewrite E in E0. injection E0 as <-. split.
  - intros Hin Hs rs Hrs Hlen. destruct (rounds_finish running work (fun s => at_rest s /\ running s) Back Front or_front) with (rs := rs) (s := s) as (s' & E' & (Hi' & _) & [Hf Hb] & _); try done.
    + apply running_step.
    + intros s1 H1. destruct (running_needs s1 H1); auto.
    + intros s1 e s2 [H1 H2] He E2. by rewrite (at_rest_stays s1 e s2).
    + pose proof (i_back _ Hi') as Hbo. unfold back_ok in Hbo. rewrite Hb in Hbo. exists s'. split; [done|].
      split; [|split; [done|split; [unfold in_hand; by rewrite Hb|done]]]. unfold front_work in Hf. unfold rest_of.
      destruct (holder s') as [[i [|rest|[] rest]]|]; try done; destruct (curr_buffer_ s'); lia.
  - intros Hs rs Hrs Hlen. destruct (rounds_finish ending ending_work (fun s => ended s /\ ending s) Back Timeout or_timeout) with (rs := rs) (s := s) as (s' & E' & (Hi' & Hs') & Hb & _); try done.
    + apply ending_step.
    + intros s1 H1. destruct (ending_needs s1 H1); auto.
    + intros s1 e s2 [H1 H2] He E2. split; [by apply (ended_stays s1 e)|]. destruct (ending_step s1 e H2 He) as (s3 & E3 & H3 & _). congruence.
    + destruct (inv_cleanup_end s' Hi') as (s2 & E2 & Hi2). exists s2. rewrite run_app, E'. cbn. unfold cleanup_end in E2 |- *. rewrite Hs', Hb in E2 |- *.
      case_bool_decide; [|done]. rewrite <- E2. split; [done|]. injection E2 as E2. destruct (off_pending s2 Hi2) as [_ Hp]; [by rewrite <- E2|].
      split; [by rewrite <- E2|]. pose proof (i_bytes _ Hi2) as Hby. rewrite Hp, app_nil_r in Hby.
      assert (taken_out s2 = appends l) as Ht.
      { rewrite Hby. replace (appended s2) with (appended s') by (by rewrite <- E2).
        rewrite (turns_append_nothing (concat rs) s s' Hi (rounds_allowed _ _ _ _ Hrs) E'). by rewrite (run_appends _ _ _ pipe_inv_new Hl E). }
      split; [done|]. intros Hk. assert (run (l ++ concat rs) new_pipe = Some s') as Er by (by rewrite run_app, E).
      rewrite <- Ht, <- E2. exact (kept_delivered _ _ Er Hk).
Qed.

(** ** Runs *)

Definition small : Config := mkConfig 2 1 2 10.

(** Five bytes go through two buffers of two; the thread has to wait for the back end. *)
Definition five_bytes : list event :=
  [Initialize small; SetCallback true; Lock 3; AppendLockless 3 [1; 2; 3; 4; 5]] ++ replicate 5 Front.

Definition parts : list event := five_bytes ++ replicate 9 Back ++ [Front; Front; Front; Unlock 3; Lock 4; AppendLockless 4 [6]; Front; Timeout; Back].

Lemma parts_kept : callback_kept parts.
Proof.
  intros l1 l2 s b q E Er Hb. assert (l1 = take (length l1) parts) as El by (by rewrite E, take_app_length).
  assert (length l1 < 30)%nat as Hlen.
  { apply (f_equal length) in E. rewrite length_app in E. cbn in E. lia. }
  rewrite El in Er. clear El E. revert Hb Er. generalize dependent (length l1). intros n Hn Hb Er.
  do 30 (destruct n as [|n]; [vm_compute in Er; injection Er as <-; (done || discriminate Hb)|]). lia.
Qed.

Lemma bytes_accounted_witness : exists s, run parts new_pipe = Some s /\
  handled s = [(true, [1; 2]); (true, [3; 4])] /\ pending s = [5; 6] /\ taken_out s ++ pending s = [1; 2; 3; 4; 5; 6] /\
  delivered s = taken_out s.
Proof.
  destruct (bytes_accounted parts) as (s & E & H & Hd & _); [vm_compute; reflexivity|]. exists s. split; [exact E|]. specialize (Hd parts_kept).
  vm_compute in E. injection E as <-. split; [reflexivity|]. split; [reflexivity|]. split; [exact H|exact Hd].
Defined.

(** A thread that waits for a buffer, and [cleanup()] that has begun. *)
Lemma appends_and_cleanup_end_witness :
  (exists s, run five_bytes new_pipe = Some s /\ holder s = Some (3%nat, Waiting false [5]) /\
     exists s', run (concat (replicate 200 [Front; Back])) s = Some s' /\ rest_of s' = [] /\ full_buffers_ s' = []) /\
  (exists s, run [Initialize small; SetCallback true; Lock 3; AppendLockless 3 [7]; Front; Front; Front; Unlock 3; Back; CleanupBegin; Back] new_pipe = Some s /\
     exists s', run (concat (replicate 50 [Back; Timeout]) ++ [CleanupEnd]) s = Some s' /\ inited_ s' = false /\ taken_out s' = [7]).
Proof.
  split.
  - destruct (run five_bytes new_pipe) as [s|] eqn:E; [|vm_compute in E; discriminate E].
    destruct (appends_and_cleanup_end five_bytes s) as [H _]; [vm_compute; reflexivity|exact E|]. exists s. split; [reflexivity|].
    vm_compute in E. injection E as <-. split; [reflexivity|].
    destruct (H eq_refl eq_refl (replicate 200 [Front; Back])) as (s' & E' & H1 & _ & _ & H2).
    + apply Forall_replicate. split; [by right; left|]. split; [by left|]. constructor; [by right|]. constructor; [by left|constructor].
    + vm_compute. lia.
    + exists s'. split; [exact E'|]. split; [exact H1|exact H2].
  - set (l := [Initialize small; _; _; _; _; _; _; _; _; _; _]). destruct (run l new_pipe) as [s|] eqn:E; [|vm_compute in E; discriminate E].
    destruct (appends_and_cleanup_end l s) as [_ H]; [vm_compute; reflexivity|exact E|]. exists s. split; [reflexivity|].
    vm_compute in E. injection E as <-.
    destruct (H eq_refl (replicate 50 [Back; Timeout])) as (s' & E' & H1 & H2 & _).
    + apply Forall_replicate. split; [by left|]. split; [by right; left|]. constructor; [by left|]. constructor; [by right; left|constructor].
    + vm_compute. lia.
    + exists s'. split; [exact E'|]. split; [exact H1|exact H2].
Defined.

(** ** Where the contract ends *)

(** The stop signal is set without the mutex of the condition variable: the back end
    that has just found the predicate false goes to sleep, and only the end of the
    interval wakes it. *)
Example stop_is_missed :
  match run ([Initialize small; Back; CleanupBegin] ++ replicate 100 Back ++ [CleanupEnd]) new_pipe with
  | Some s => back s = Sleep false /\ stop_signal_ s = true /\ inited_ s = true
  | None => False
  end.
Proof. vm_compute. auto. Qed.

(** [buff_num_] has no initial value. *)
Example append_before_initialize : run [Lock 0; AppendLockless 0 [1]; Front] new_pipe = None.
Proof. vm_compute. reflexivity. Qed.

(** The thread that runs is swapped out and destroyed. *)
Example initialize_twice : run [Initialize small; Initialize small] new_pipe = None.
Proof. vm_compute. reflexivity. Qed.

(** A thread that has the mutex while the back end ends: [try_lock] fails, and what is
    in the current buffer is deleted. *)
Example append_during_cleanup :
  match run ([Initialize small; SetCallback true; Lock 0; AppendLockless 0 [1]; Front; Front; CleanupBegin] ++ replicate 5 Back ++ [CleanupEnd]) new_pipe with
  | Some s => inited_ s = false /\ taken_out s = [] /\ appended s = [1]
  | None => False
  end.
Proof. vm_compute. auto. Qed.

(** A thread that appends after [cleanup()] waits for ever when there can be no more
    buffers, and keeps the mutex. *)
Example append_after_cleanup :
  match run ([Initialize (mkConfig 2 1 1 10); CleanupBegin; Back; Back; Back; CleanupEnd; Lock 0; AppendLockless 0 [1]] ++ replicate 100 Front) new_pipe with
  | Some s => holder s = Some (0%nat, Waiting false [1])
  | None => False
  end.
Proof. vm_compute. reflexivity. Qed.

(** [cleanup()] also forgets the callback: initialized again, the pipe drops the data. *)
Example data_without_callback :
  option_map handled (run ([Initialize small; SetCallback true; CleanupBegin; Back; Back; Back; CleanupEnd;
    Initialize small; Lock 0; AppendLockless 0 [1; 2]; Front; Front] ++ replicate 9 Back) new_pipe) = Some [(false, [1; 2])].
Proof. vm_compute. reflexivity. Qed.
