(* ===== verification/BufferedFd.v ===== *)
(** * Buffered descriptors

    Models [network/buffered_fd.cpp]: sending and receiving on a descriptor that does
    not block, with the buffers of [Buffer.v] in between.  What [write] and [readv]
    answer is a script of results; the events of the loop come in any order, but only
    while they are enabled.  What the callbacks do is a program of calls that may
    depend on all that happened before. *)
From S2P Require Import Prelude Buffer.

Inductive State := kEmpty | kInited | kRunning.

#[global] Instance State_eq_dec : EqDecision State.
Proof. solve_decision. Defined.

(** The object that gets the received data: this one or another. *)
Inductive receiver := Own | Other.

Inductive callback := SendComplete | ReadZero | ReadError (errno : Z) | WriteError (errno : Z) | Receive.

Definition EAGAIN : Z := 11.

(** What the descriptor answers: at most what was asked for. *)
Inductive wresult := Wrote (n : Z) | WriteFails (errno : Z).
Inductive rresult := Got (data : list Z) | ReadFails (errno : Z).

(** What can be called at any time, also in a callback; the receive buffer is there for
    everybody, to take bytes from. *)
Inductive call :=
  | CSend (data : list Z)
  | CEnable
  | CDisable
  | CTake (n : Z)
  | CTakeAll
  | CShrinkRecv
  | CShrinkSend
  | CBind (r : receiver)
  | CUnbind.

(** How bytes leave the receive buffer: the user takes them, they are sent by the
    receiver, or they are discarded as there is no callback. *)
Inductive taker := ByUser | SentBy (r : receiver) | Discarded.

(** What has happened. *)
Inductive fact :=
  | Accepted (data : list Z)
  | Dropped (data : list Z)
  | Out (data : list Z)
  | In (data : list Z)
  | Taken (how : taker) (data : list Z)
  | Called (k : callback).

(** An event of the loop is [None] when it was not created, and enabled or not. *)
Record bfd := mkFd {
  state_ : State;
  sp_read_event_ : option bool;
  sp_write_event_ : option bool;
  send_buff_ : buffer;
  recv_buff_ : buffer;
  wp_receiver_ : option receiver;
  receive_threshold_ : Z;
  cb_level_ : Z;
  writes : list wresult;
  reads : list rresult;
  hist : list fact }.

Definition new_bfd (ws : list wresult) (rs : list rresult) : bfd :=
  mkFd kEmpty None None (buffer_new 0) (buffer_new 0) None 0 0 ws rs [].

Definition MF := M bfd.

Definition set_state (x : State) (s : bfd) : bfd := mkFd x (sp_read_event_ s) (sp_write_event_ s) (send_buff_ s) (recv_buff_ s) (wp_receiver_ s) (receive_threshold_ s) (cb_level_ s) (writes s) (reads s) (hist s).
Definition set_read_event (x : option bool) (s : bfd) : bfd := mkFd (state_ s) x (sp_write_event_ s) (send_buff_ s) (recv_buff_ s) (wp_receiver_ s) (receive_threshold_ s) (cb_level_ s) (writes s) (reads s) (hist s).
Definition set_write_event (x : option bool) (s : bfd) : bfd := mkFd (state_ s) (sp_read_event_ s) x (send_buff_ s) (recv_buff_ s) (wp_receiver_ s) (receive_threshold_ s) (cb_level_ s) (writes s) (reads s) (hist s).
Definition set_send (x : buffer) (s : bfd) : bfd := mkFd (state_ s) (sp_read_event_ s) (sp_write_event_ s) x (recv_buff_ s) (wp_receiver_ s) (receive_threshold_ s) (cb_level_ s) (writes s) (reads s) (hist s).
Definition set_recv (x : buffer) (s : bfd) : bfd := mkFd (state_ s) (sp_read_event_ s) (sp_write_event_ s) (send_buff_ s) x (wp_receiver_ s) (receive_threshold_ s) (cb_level_ s) (writes s) (reads s) (hist s).
Definition set_receiver (x : option receiver) (s : bfd) : bfd := mkFd (state_ s) (sp_read_event_ s) (sp_write_event_ s) (send_buff_ s) (recv_buff_ s) x (receive_threshold_ s) (cb_level_ s) (writes s) (reads s) (hist s).
Definition set_threshold (x : Z) (s : bfd) : bfd := mkFd (state_ s) (sp_read_event_ s) (sp_write_event_ s) (send_buff_ s) (recv_buff_ s) (wp_receiver_ s) x (cb_level_ s) (writes s) (reads s) (hist s).
Definition add_level (x : Z) (s : bfd) : bfd := mkFd (state_ s) (sp_read_event_ s) (sp_write_event_ s) (send_buff_ s) (recv_buff_ s) (wp_receiver_ s) (receive_threshold_ s) (cb_level_ s + x) (writes s) (reads s) (hist s).
Definition set_writes (x : list wresult) (s : bfd) : bfd := mkFd (state_ s) (sp_read_event_ s) (sp_write_event_ s) (send_buff_ s) (recv_buff_ s) (wp_receiver_ s) (receive_threshold_ s) (cb_level_ s) x (reads s) (hist s).
Definition set_reads (x : list rresult) (s : bfd) : bfd := mkFd (state_ s) (sp_read_event_ s) (sp_write_event_ s) (send_buff_ s) (recv_buff_ s) (wp_receiver_ s) (receive_threshold_ s) (cb_level_ s) (writes s) x (hist s).
Definition add_hist (f : fact) (s : bfd) : bfd := mkFd (state_ s) (sp_read_event_ s) (sp_write_event_ s) (send_buff_ s) (recv_buff_ s) (wp_receiver_ s) (receive_threshold_ s) (cb_level_ s) (writes s) (reads s) (hist s ++ [f]).

Definition note (f : fact) : MF () := modify (add_hist f).

(** ** The descriptor *)

(** [fd_.write]: the number of bytes it took, or the error. *)
Definition fd_write (data : list Z) : MF (Z + Z) :=
  s ← get;
  match writes s with
  | [] => mret (inr EAGAIN)
  | Wrote n :: ws =>
      let n := Z.max 0 (Z.min n (Z.of_nat (length data))) in
      modify (set_writes ws);; note (Out (take (Z.to_nat n) data));; mret (inl n)
  | WriteFails e :: ws => modify (set_writes ws);; mret (inr e)
  end.

(** [fd_.readv] into [cap] bytes: what does not fit comes with the next one. *)
Definition fd_readv (cap : Z) : MF (list Z + Z) :=
  s ← get;
  match reads s with
  | [] => mret (inr EAGAIN)
  | Got data :: rs =>
      let rest := drop (Z.to_nat cap) data in
      modify (set_reads (if bool_decide (rest = []) then rs else Got rest :: rs));;
      note (In (take (Z.to_nat cap) data));;
      mret (inl (take (Z.to_nat cap) data))
  | ReadFails e :: rs => modify (set_reads rs);; mret (inr e)
  end.

(** The readable area of a buffer, whose cells have all been written. *)
Definition readable (b : buffer) : option (list Z) :=
  d ← mem_read (buffer_ptr b) (read_index b) (readableSize b); mapM id d.

(** ** The code *)

Definition initialize (fd_null rd wr : bool) : MF bool :=
  s ← get;
  if fd_null then mret false
  else if negb (rd || wr) then mret false
  else if negb (bool_decide (state_ s = kEmpty)) then mret false
  else
    modify (set_read_event (if rd then Some false else None));;
    modify (set_write_event (if wr then Some false else None));;
    modify (set_state kInited);;
    mret true.

Definition enable : MF bool :=
  s ← get;
  match state_ s with
  | kRunning => mret true
  | kEmpty => mret false
  | kInited =>
      when (bool_decide (is_Some (sp_read_event_ s))) (modify (set_read_event (Some true)));;
      modify (set_state kRunning);;
      mret true
  end.

Definition disable : MF bool :=
  s ← get;
  match state_ s with
  | kInited => mret true
  | kEmpty => mret false
  | kRunning =>
      when (bool_decide (is_Some (sp_read_event_ s))) (modify (set_read_event (Some false)));;
      when (bool_decide (is_Some (sp_write_event_ s))) (modify (set_write_event (Some false)));;
      modify (set_state kInited);;
      mret true
  end.

Definition append_send (data : list Z) : MF () :=
  s ← get; '(b, _) ← the (buffer_append (send_buff_ s) data); modify (set_send b).

Definition send (data : list Z) : MF bool :=
  s ← get;
  match sp_write_event_ s with
  | None => mret false
  | Some _ =>
      (if negb (bool_decide (state_ s = kRunning)) || (0 <? readableSize (send_buff_ s)) then
         append_send data;; note (Accepted data)
       else
         wsize ← fd_write data;
         match wsize with
         | inl wsize =>
             when (wsize <? Z.of_nat (length data)) (append_send (drop (Z.to_nat wsize) data));;
             note (Accepted data);;
             modify (set_write_event (Some true))
         | inr errno =>
             if errno =? EAGAIN then append_send data;; note (Accepted data);; modify (set_write_event (Some true))
             else note (Dropped data)
         end);;
      mret true
  end.

(** [recv_buff_.hasRead], [hasReadAll], after the bytes were looked at. *)
Definition take_recv (n : Z) : MF () :=
  s ← get;
  data ← the (readable (recv_buff_ s));
  modify (set_recv (hasRead (recv_buff_ s) n));;
  note (Taken ByUser (take (Z.to_nat n) data)).

Definition take_all (how : taker) : MF () :=
  s ← get;
  data ← the (readable (recv_buff_ s));
  modify (set_recv (hasReadAll (recv_buff_ s)));;
  note (Taken how data).

Definition exec (c : call) : MF () :=
  match c with
  | CSend data => send data;; mret ()
  | CEnable => enable;; mret ()
  | CDisable => disable;; mret ()
  | CTake n => take_recv n
  | CTakeAll => take_all ByUser
  | CShrinkRecv => s ← get; b ← the (buffer_shrink (recv_buff_ s)); modify (set_recv b)
  | CShrinkSend => s ← get; b ← the (buffer_shrink (send_buff_ s)); modify (set_send b)
  | CBind r => modify (set_receiver (Some r))
  | CUnbind => modify (set_receiver None)
  end.

Fixpoint exec_all (l : list call) : MF () :=
  match l with [] => mret () | c :: l' => exec c;; exec_all l' end.

(** The bytes of one [readv] are in the writable area and in [extbuf]. *)
Definition store (data : list Z) : MF () :=
  s ← get;
  let writable_size := writableSize (recv_buff_ s) in
  b ← the (writable_put (recv_buff_ s) (take (Z.to_nat writable_size) data));
  if writable_size <? Z.of_nat (length data) then
    '(b, _) ← the (buffer_append (hasWritten b writable_size) (drop (Z.to_nat writable_size) data));
    modify (set_recv b)
  else modify (set_recv (hasWritten b (Z.of_nat (length data)))).

Definition EXTBUF : Z := 1024.

Definition readv : MF (list Z + Z) :=
  s ← get; fd_readv (writableSize (recv_buff_ s) + EXTBUF).

(** The loop, for at most [fuel] times. *)
Fixpoint read_loop (fuel : nat) (data : list Z) : MF () :=
  match fuel with
  | O => out_of_fuel
  | S fuel' =>
      store data;;
      rsize ← readv;
      match rsize with
      | inl (x :: data') => read_loop fuel' (x :: data')
      | _ => mret ()
      end
  end.

(** What is still to be read needs no more turns than it has bytes and results. *)
Definition script_size (rs : list rresult) : nat :=
  list_sum (map (fun r => match r with Got data => S (length data) | ReadFails _ => 1%nat end) rs).

Section callbacks.

(** The functions that were set: [None] is none. *)
Context (user : callback -> list fact -> option (list call)).

Definition run_callback (k : callback) (unset : MF ()) : MF () :=
  s ← get;
  match user k (hist s) with
  | Some prog =>
      modify (add_level 1);; note (Called k);; exec_all prog;; modify (add_level (-1))
  | None => unset
  end.

Definition deliver : MF () :=
  s ← get;
  match wp_receiver_ s with
  | Some r =>
      data ← the (readable (recv_buff_ s));
      (match r with Own => send data;; mret () | Other => mret () end);;
      take_all (SentBy r)
  | None => when (receive_threshold_ s <=? readableSize (recv_buff_ s)) (run_callback Receive (take_all Discarded))
  end.

Definition onReadCallback : MF () :=
  rsize ← readv;
  match rsize with
  | inl [] => run_callback ReadZero (mret ())
  | inl data => s ← get; read_loop (S (script_size (reads s))) data;; deliver
  | inr errno => when (negb (errno =? EAGAIN)) (run_callback (ReadError errno) (mret ()))
  end.

Definition onWriteCallback : MF () :=
  s ← get;
  if readableSize (send_buff_ s) =? 0 then
    _ ← the (sp_write_event_ s);
    modify (set_write_event (Some false));;
    run_callback SendComplete (mret ())
  else
    data ← the (readable (send_buff_ s));
    wsize ← fd_write data;
    match wsize with
    | inl wsize => modify (fun s => set_send (hasRead (send_buff_ s) wsize) s)
    | inr errno => run_callback (WriteError errno) (mret ())
    end.

Inductive event :=
  | Initialize (fd_null rd wr : bool)
  | SetReceiveCallback (threshold : Z)
  | Do (c : call)
  | Readable
  | Writable.

Definition step (e : event) : MF () :=
  match e with
  | Initialize fd_null rd wr => initialize fd_null rd wr;; mret ()
  | SetReceiveCallback threshold => modify (set_threshold threshold)
  | Do c => exec c
  | Readable => s ← get; match sp_read_event_ s with Some true => onReadCallback | _ => mret () end
  | Writable => s ← get; match sp_write_event_ s with Some true => onWriteCallback | _ => mret () end
  end.

Fixpoint run (l : list event) : MF () :=
  match l with [] => mret () | e :: l' => step e;; run l' end.

End callbacks.

(** ** The contract and the invariant *)

Definition of_fact (g : fact -> option (list Z)) (h : list fact) : list Z := concat (omap g h).

(** The bytes of the calls of [send] that were accepted, those the descriptor took,
    those it gave, and those that left the receive buffer, in whichever way. *)
Definition accepted : list fact -> list Z := of_fact (fun f => match f with Accepted d => Some d | _ => None end).
Definition outs : list fact -> list Z := of_fact (fun f => match f with Out d => Some d | _ => None end).
Definition ins : list fact -> list Z := of_fact (fun f => match f with In d => Some d | _ => None end).
Definition takens : list fact -> list Z := of_fact (fun f => match f with Taken _ d => Some d | _ => None end).

#[global] Arguments script_size : simpl never.
#[global] Arguments accepted : simpl never.
#[global] Arguments outs : simpl never.
#[global] Arguments ins : simpl never.
#[global] Arguments takens : simpl never.

Lemma of_fact_app g h f : of_fact g (h ++ [f]) = of_fact g h ++ default [] (g f).
Proof. unfold of_fact. rewrite omap_app, concat_app. cbn. destruct (g f); cbn; by rewrite ?app_nil_r. Qed.

(** The folds over a history that ends with a fact. *)
Ltac facts := unfold accepted, outs, ins, takens in *; rewrite !of_fact_app; cbn [default id]; rewrite ?app_nil_r.

(** How many bytes a call asks for. *)
Definition call_size (c : call) : Z :=
  match c with CSend data => Z.of_nat (length data) | CTake n => n | _ => 0 end.

Fixpoint calls_size (l : list call) : Z := match l with [] => 0 | c :: l' => call_size c + calls_size l' end.

(** [strict]: nobody disables the descriptor. *)
Definition call_ok (strict : bool) (c : call) : Prop := 0 <= call_size c /\ (strict = true -> c <> CDisable).

(** [V] bounds all that was or will be in the buffers. *)
Inductive inv (strict : bool) (V : Z) (qs qr : list Z) (s : bfd) : Prop := mkInv (Ws Wr : Z)
  (i_send : holds (send_buff_ s) qs Ws)
  (i_recv : holds (recv_buff_ s) qr Wr)
  (i_wr : Wr + Z.of_nat (script_size (reads s)) <= V)
  (i_ws : Ws + Z.of_nat (length qr) + Z.of_nat (script_size (reads s)) <= V)
  (i_out : accepted (hist s) = outs (hist s) ++ qs)
  (i_in : ins (hist s) = takens (hist s) ++ qr)
  (i_live : strict = true -> state_ s = kRunning /\ is_Some (sp_write_event_ s) /\ (qs <> [] -> sp_write_event_ s = Some true)).

Lemma holds_nonneg b q W : holds b q W -> 0 <= W.
Proof. intros []. lia. Qed.

Lemma readable_ok b q W : holds b q W -> readable b = Some q.
Proof.
  intros H. unfold readable. rewrite (held_readable _ _ _ H), (held_all _ _ _ H). cbn.
  clear H. induction q as [|x q IH]; [done|]. cbn. by rewrite IH.
Qed.

Lemma append_ok b q W d : holds b q W -> small (W + Z.of_nat (length d)) ->
  exists b', buffer_append b d = Some (b', Z.of_nat (length d)) /\ holds b' (q ++ d) (W + Z.of_nat (length d)).
Proof.
  intros H HW. unfold buffer_append.
  destruct (held_ensure b q W H (Z.of_nat (length d)) ltac:(lia) HW) as (b1 & -> & H1 & Hf). cbn [mbind option_bind].
  destruct (held_put b1 q W H1 d (Z.of_nat (length d)) Hf ltac:(lia) HW) as (b2 & -> & H2). cbn [mbind option_bind].
  eexists. split; [done|]. by rewrite take_ge in H2 by lia.
Qed.

Lemma shrink_ok b q W : holds b q W -> exists b', buffer_shrink b = Some b' /\ holds b' q W.
Proof.
  intros H. unfold buffer_shrink, buffer_copy, buffer_swap. destruct (held_copy b q W H) as (b1 & -> & H1). by exists b1.
Qed.

Lemma read_all_ok b q W : holds b q W -> holds (hasReadAll b) [] W.
Proof. intros H. pose proof (holds_nonneg _ _ _ H). destruct H. by apply holds_empty. Qed.

Section steps.

Context (strict : bool).

(** The invariant again, with other queues, and the level as it was. *)
Definition after (V : Z) (s s' : bfd) : Prop := (exists qs qr, inv strict V qs qr s') /\ cb_level_ s' = cb_level_ s.

Lemma bfd_inv_mono V V' qs qr s : V <= V' -> inv strict V qs qr s -> inv strict V' qs qr s.
Proof. intros Hle []. by eapply mkInv; try done; lia. Qed.

Lemma append_send_gives {A} data (k : () -> MF A) s qs W R : holds (send_buff_ s) qs W -> small (W + Z.of_nat (length data)) ->
  (forall b, holds b (qs ++ data) (W + Z.of_nat (length data)) -> gives (k ()) (set_send b s) R) -> gives (append_send data ≫= k) s R.
Proof.
  intros H HW Hk. destruct (append_ok _ _ _ _ H HW) as (b & E & Hb). unfold append_send. apply gives_assoc, gives_get.
  apply gives_assoc, (gives_the _ (b, Z.of_nat (length data))); [done|]. apply gives_modify. by apply Hk.
Qed.

(** The descriptor takes a part, or fails. *)
Lemma fd_write_gives {A} data (k : Z + Z -> MF A) s R :
  (forall n ws, 0 <= n <= Z.of_nat (length data) -> gives (k (inl n)) (add_hist (Out (take (Z.to_nat n) data)) (set_writes ws s)) R) ->
  (forall e ws, gives (k (inr e)) (set_writes ws s) R) -> gives (fd_write data ≫= k) s R.
Proof.
  intros Hw He. unfold fd_write. apply gives_assoc, gives_get. destruct (writes s) as [|[n|e] ws] eqn:E.
  - apply gives_unit. specialize (He EAGAIN []). replace (set_writes [] s) with s in He; [done|]. destruct s. cbn in *. by subst.
  - apply gives_assoc, gives_modify, gives_assoc, gives_modify, gives_unit. apply Hw. lia.
  - apply gives_assoc, gives_modify, gives_unit. apply He.
Qed.

Lemma send_ok data V qs qr s : inv strict V qs qr s -> V + Z.of_nat (length data) < 2 ^ 62 ->
  gives (send data) s (fun _ s' => (exists qs', inv strict (V + Z.of_nat (length data)) qs' qr s') /\ cb_level_ s' = cb_level_ s /\ recv_buff_ s' = recv_buff_ s /\ reads s' = reads s).
Proof.
  intros Hi HV. pose proof Hi as [Ws Wr Hs Hr Hwr Hws Hout Hin Hlive]. unfold send. apply gives_get.
  destruct (sp_write_event_ s) as [b|] eqn:Ew.
  2: { apply gives_ret. split; [|done]. exists qs. eapply bfd_inv_mono; [|done]. lia. }
  pose proof (holds_nonneg _ _ _ Hs). assert (small (Ws + Z.of_nat (length data))) as Hsm by (unfold small; lia).
  destruct (negb (bool_decide (state_ s = kRunning)) || (0 <? readableSize (send_buff_ s))) eqn:Ec.
  - apply gives_assoc. apply (append_send_gives data _ s qs Ws); [done|done|]. intros b' Hb'. apply gives_modify, gives_ret. split; [|done].
    exists (qs ++ data). eapply mkInv; cbn; try done; try lia.
    + facts. by rewrite Hout, app_assoc.
    + by facts.
    + intros Hst. destruct (Hlive Hst) as (H1 & H2 & H3). rewrite Ew. split; [done|]. split; [done|]. intros _. apply H3. intros ->.
      rewrite (held_readable _ _ _ Hs), bool_decide_true in Ec by done. done.
  - assert (qs = []) as ->.
    { apply orb_false_iff in Ec as [_ Ec]. rewrite (held_readable _ _ _ Hs), Z.ltb_ge in Ec. destruct qs; [done|cbn in Ec; lia]. }
    apply gives_assoc. apply fd_write_gives.
    + intros n ws Hn. assert (forall s', holds (send_buff_ s') (drop (Z.to_nat n) data) (Ws + Z.of_nat (length data)) -> hist s' = hist s ++ [Out (take (Z.to_nat n) data)] ->
        recv_buff_ s' = recv_buff_ s -> reads s' = reads s -> state_ s' = state_ s -> cb_level_ s' = cb_level_ s ->
        gives (note (Accepted data);; modify (set_write_event (Some true));; mret true) s'
          (fun _ s' => (exists qs', inv strict (V + Z.of_nat (length data)) qs' qr s') /\ cb_level_ s' = cb_level_ s /\ recv_buff_ s' = recv_buff_ s /\ reads s' = reads s)) as Hgo.
      { intros s' H1 H2 H3 H4 H5 H6. apply gives_modify, gives_modify, gives_ret. cbn. split; [|done]. exists (drop (Z.to_nat n) data).
        eapply (mkInv _ _ _ _ _ (Ws + Z.of_nat (length data)) Wr); cbn; rewrite ?H3, ?H4; try done; try lia.
        - rewrite H2. facts. rewrite Hout, app_nil_r, <- app_assoc. by rewrite take_drop.
        - rewrite H2. by facts.
        - intros Hst. rewrite H5. destruct (Hlive Hst) as (? & _). done. }
      unfold when. destruct (Z.ltb_spec n (Z.of_nat (length data))).
      * apply gives_assoc. assert (Z.of_nat (length (drop (Z.to_nat n) data)) <= Z.of_nat (length data)) by (rewrite length_drop; lia).
        apply (append_send_gives _ _ _ [] Ws); [done|unfold small in *; lia|]. intros b' Hb'. apply gives_assoc, Hgo; try done. cbn.
        eapply holds_mono; [done|lia].
      * apply gives_assoc, gives_unit, gives_assoc. apply Hgo; try done. cbn. rewrite drop_ge by lia. eapply holds_mono; [done|lia].
    + intros e ws. destruct (e =? EAGAIN).
      * apply gives_assoc. apply (append_send_gives data _ _ [] Ws); [done|done|]. intros b' Hb'. apply gives_assoc, gives_modify, gives_modify, gives_ret.
        split; [|done]. exists data. eapply (mkInv _ _ _ _ _ (Ws + Z.of_nat (length data)) Wr); cbn; try done; try lia.
        -- facts. by rewrite Hout, ?app_nil_r.
        -- by facts.
        -- intros Hst. destruct (Hlive Hst) as (? & _). done.
      * apply gives_modify, gives_ret. split; [|done]. exists []. eapply (mkInv _ _ _ _ _ Ws Wr); cbn; try done; try lia.
        -- facts. by rewrite Hout, ?app_nil_r.
        -- by facts.
        -- intros Hst. destruct (Hlive Hst) as (? & ? & ?). by rewrite Ew.
Qed.


(** *** Taking from the receive buffer *)

Lemma taken_ok V qs qr qr' how taken b s Ws Wr' : holds (send_buff_ s) qs Ws -> holds b qr' Wr' -> Wr' + Z.of_nat (script_size (reads s)) <= V ->
  Ws + Z.of_nat (length qr) + Z.of_nat (script_size (reads s)) <= V -> accepted (hist s) = outs (hist s) ++ qs -> ins (hist s) = takens (hist s) ++ qr ->
  (strict = true -> state_ s = kRunning /\ is_Some (sp_write_event_ s) /\ (qs <> [] -> sp_write_event_ s = Some true)) ->
  qr = taken ++ qr' -> inv strict V qs qr' (add_hist (Taken how taken) (set_recv b s)).
Proof.
  intros Hs Hr Hwr Hws Hout Hin Hlive ->. rewrite length_app in Hws. eapply (mkInv _ _ _ _ _ Ws Wr'); cbn; try done; try lia.
  - by facts.
  - facts. by rewrite Hin, app_assoc.
Qed.

Lemma take_recv_ok n V qs qr s : inv strict V qs qr s -> 0 <= n -> V + n < 2 ^ 62 -> gives (take_recv n) s (fun _ s' => after V s s').
Proof.
  intros [Ws Wr Hs Hr Hwr Hws Hout Hin Hlive] Hn HV. pose proof (holds_nonneg _ _ _ Hr). unfold take_recv.
  apply gives_get, (gives_the _ qr); [by eapply readable_ok|]. apply gives_modify. eexists (), _. split; [done|]. split; [|done].
  exists qs, (drop (Z.to_nat n) qr). eapply (taken_ok V qs qr _ _ _ _ s Ws Wr); try done; [|by rewrite take_drop].
  apply (held_read _ qr Wr Hr n Hn). unfold small. lia.
Qed.

Lemma take_all_ok how V qs qr s : inv strict V qs qr s -> gives (take_all how) s (fun _ s' => after V s s').
Proof.
  intros [Ws Wr Hs Hr Hwr Hws Hout Hin Hlive]. unfold take_all. apply gives_get, (gives_the _ qr); [by eapply readable_ok|].
  apply gives_modify. eexists (), _. split; [done|]. split; [|done]. exists qs, []. eapply (taken_ok V qs qr _ _ _ _ s Ws Wr); try done; [|by rewrite app_nil_r].
  by eapply read_all_ok.
Qed.

(** *** Calls *)

(** A change that leaves the buffers, the script and the history alone. *)
Lemma bfd_inv_same V qs qr s s' : inv strict V qs qr s -> send_buff_ s' = send_buff_ s -> recv_buff_ s' = recv_buff_ s -> reads s' = reads s -> hist s' = hist s ->
  (strict = true -> state_ s = kRunning -> state_ s' = kRunning /\ sp_write_event_ s' = sp_write_event_ s) -> inv strict V qs qr s'.
Proof.
  intros [Ws Wr Hs Hr Hwr Hws Hout Hin Hlive] H1 H2 H3 H4 H5. eapply (mkInv _ _ _ _ _ Ws Wr); rewrite ?H1, ?H2, ?H3, ?H4; try done.
  intros Hst. destruct (Hlive Hst) as (? & ? & ?). by destruct (H5 Hst) as [-> ->].
Qed.

Ltac unchanged qs qr := split; [exists qs, qr; eapply bfd_inv_same; try done; intros; congruence|done].

Lemma enable_ok V qs qr s : inv strict V qs qr s -> gives enable s (fun _ s' => after V s s').
Proof.
  intros Hi. unfold enable. apply gives_get. destruct (state_ s) eqn:E; [apply gives_ret; by unchanged qs qr| |apply gives_ret; by unchanged qs qr].
  unfold when. case_bool_decide; [apply gives_modify|apply gives_unit]; apply gives_modify, gives_ret; unchanged qs qr.
Qed.

Lemma disable_ok V qs qr s : inv strict V qs qr s -> strict = false -> gives disable s (fun _ s' => after V s s').
Proof.
  intros Hi Hst. unfold disable. apply gives_get. destruct (state_ s) eqn:E; [apply gives_ret; by unchanged qs qr..|].
  unfold when. destruct (bool_decide (is_Some (sp_read_event_ s))), (bool_decide (is_Some (sp_write_event_ s)));
    repeat (apply gives_modify || apply gives_unit); apply gives_ret; unchanged qs qr.
Qed.

Lemma bfd_exec_ok c V qs qr s : inv strict V qs qr s -> call_ok strict c -> V + call_size c < 2 ^ 62 -> gives (exec c) s (fun _ s' => after (V + call_size c) s s').
Proof.
  intros Hi [Hc Hd] HV. assert (inv strict (V + call_size c) qs qr s) as Hi' by (eapply bfd_inv_mono; [|done]; lia).
  destruct c as [data| | |n| | | |r|]; cbn [exec call_size] in *.
  - eapply gives_bind; [by apply (send_ok data V qs qr)|]. intros a s' ((qs' & H) & H2 & _). apply gives_ret. split; [by exists qs', qr|done].
  - eapply gives_bind; [by eapply enable_ok|]. intros a s' H. by apply gives_ret.
  - eapply gives_bind; [eapply disable_ok; [done|]|intros a s' H; by apply gives_ret]. destruct strict; [by destruct Hd|done].
  - eapply gives_mono; [by apply (take_recv_ok n V qs qr)|]. intros _ s' [(qs' & qr' & H) H2]. split; [|done]. exists qs', qr'. eapply bfd_inv_mono; [|done]. lia.
  - by eapply take_all_ok.
  - pose proof Hi' as [Ws Wr Hs Hr Hwr Hws Hout Hin Hlive]. destruct (shrink_ok _ _ _ Hr) as (b & E & Hb). apply gives_get, (gives_the _ b); [done|].
    eexists (), _. split; [done|]. split; [|done]. exists qs, qr. by eapply (mkInv _ _ _ _ _ Ws Wr).
  - pose proof Hi' as [Ws Wr Hs Hr Hwr Hws Hout Hin Hlive]. destruct (shrink_ok _ _ _ Hs) as (b & E & Hb). apply gives_get, (gives_the _ b); [done|].
    eexists (), _. split; [done|]. split; [|done]. exists qs, qr. by eapply (mkInv _ _ _ _ _ Ws Wr).
  - eexists (), _. split; [done|]. unchanged qs qr.
  - eexists (), _. split; [done|]. unchanged qs qr.
Qed.

Lemma calls_nonneg l : Forall (call_ok strict) l -> 0 <= calls_size l.
Proof. induction 1 as [|c l [Hc _] _ IH]; cbn; lia. Qed.

Lemma exec_all_ok l : forall V qs qr s, inv strict V qs qr s -> Forall (call_ok strict) l -> V + calls_size l < 2 ^ 62 ->
  gives (exec_all l) s (fun _ s' => after (V + calls_size l) s s').
Proof.
  induction l as [|c l IH]; intros V qs qr s Hi Hl HV; cbn [exec_all calls_size] in *.
  - apply gives_ret. rewrite Z.add_0_r. split; [by exists qs, qr|done].
  - apply Forall_cons in Hl as [Hc Hl]. pose proof (calls_nonneg l Hl). eapply gives_bind; [eapply bfd_exec_ok; [done|done|lia]|].
    intros _ s1 [(qs1 & qr1 & H1) HL]. eapply gives_mono; [eapply IH; [done|done|lia]|]. intros _ s' [H2 HL2]. rewrite Z.add_assoc. split; [done|congruence].
Qed.

(** *** Reading *)

Lemma store_gives {A} data (k : () -> MF A) s qr Wr R : holds (recv_buff_ s) qr Wr -> Wr + Z.of_nat (length data) < 2 ^ 62 ->
  (forall b, holds b (qr ++ data) (Wr + Z.of_nat (length data)) -> gives (k ()) (set_recv b s) R) -> gives (store data ≫= k) s R.
Proof.
  intros Hr HW Hk. pose proof (holds_nonneg _ _ _ Hr). unfold store. apply gives_assoc, gives_get. pose proof (held_writable _ _ _ Hr) as Hw. rewrite Hw.
  pose proof Hr as []. set (w := buffer_size (recv_buff_ s) - write_index (recv_buff_ s)) in *.
  set (d1 := take (Z.to_nat w) data). assert (Z.of_nat (length d1) = Z.min w (Z.of_nat (length data))) as Hd1 by (unfold d1; rewrite length_take; lia).
  destruct (held_put (recv_buff_ s) qr Wr Hr d1 (Z.of_nat (length d1))) as (b & E & Hb); [lia|lia|unfold small; lia|].
  rewrite take_ge in Hb by lia. apply gives_assoc, (gives_the _ b); [done|]. destruct (Z.ltb_spec w (Z.of_nat (length data))).
  - replace (Z.of_nat (length d1)) with w in Hb by lia.
    assert (Z.of_nat (length (drop (Z.to_nat w) data)) = Z.of_nat (length data) - w) as Hd2 by (rewrite length_drop; lia).
    destruct (append_ok _ _ _ (drop (Z.to_nat w) data) Hb) as (b' & E' & Hb'); [unfold small; lia|].
    apply gives_assoc, (gives_the _ (b', Z.of_nat (length (drop (Z.to_nat w) data)))); [done|]. apply gives_modify, Hk.
    rewrite <- app_assoc in Hb'. unfold d1 in Hb'. rewrite take_drop in Hb'. eapply holds_mono; [exact Hb'|lia].
  - unfold d1 in Hb. rewrite take_ge in Hb by lia. apply gives_modify, Hk. done.
Qed.

(** What was just read is not in the buffer yet. *)
Definition inv_read (V : Z) (qs qr data : list Z) (s : bfd) : Prop :=
  exists Ws Wr, holds (send_buff_ s) qs Ws /\ holds (recv_buff_ s) qr Wr /\
    Wr + Z.of_nat (length data) + Z.of_nat (script_size (reads s)) <= V /\
    Ws + Z.of_nat (length qr) + Z.of_nat (length data) + Z.of_nat (script_size (reads s)) <= V /\
    accepted (hist s) = outs (hist s) ++ qs /\ ins (hist s) = takens (hist s) ++ qr ++ data /\
    (strict = true -> state_ s = kRunning /\ is_Some (sp_write_event_ s) /\ (qs <> [] -> sp_write_event_ s = Some true)).

Lemma script_size_cons r rs : script_size (r :: rs) = ((match r with Got data => S (length data) | ReadFails _ => 1 end) + script_size rs)%nat.
Proof. done. Qed.

Lemma readv_gives {A} V qs qr s (k : list Z + Z -> MF A) R : inv strict V qs qr s ->
  (forall data s', inv_read V qs qr data s' -> cb_level_ s' = cb_level_ s -> (data <> [] -> script_size (reads s') < script_size (reads s))%nat -> gives (k (inl data)) s' R) ->
  (forall e s', inv strict V qs qr s' -> cb_level_ s' = cb_level_ s -> gives (k (inr e)) s' R) -> gives (readv ≫= k) s R.
Proof.
  intros Hi Hd He. pose proof Hi as [Ws Wr Hs Hr Hwr Hws Hout Hin Hlive]. pose proof (held_writable _ _ _ Hr) as Hw. pose proof (h_fit _ _ _ Hr) as Hf.
  assert (0 < writableSize (recv_buff_ s) + EXTBUF) as Hcap by (unfold EXTBUF; lia).
  unfold readv. apply gives_assoc, gives_get. set (cap := writableSize (recv_buff_ s) + EXTBUF) in *. clearbody cap.
  unfold fd_readv. apply gives_assoc, gives_get. destruct (reads s) as [|[data|e] rs] eqn:E.
  - apply gives_unit. by apply He.
  - apply gives_assoc, gives_modify, gives_assoc, gives_modify, gives_unit. rewrite script_size_cons in Hwr, Hws. set (d := take (Z.to_nat cap) data).
    assert (length data = length d + length (drop (Z.to_nat cap) data))%nat as Hlen by (unfold d; rewrite <- length_app, take_drop; done).
    set (rs' := if bool_decide (drop (Z.to_nat cap) data = []) then rs else Got (drop (Z.to_nat cap) data) :: rs).
    assert (length d + script_size rs' <= S (length data) + script_size rs /\ (d <> [] -> script_size rs' < S (length data) + script_size rs))%nat as [Hsz Hlt].
    { unfold rs'. case_bool_decide as Hrest; [rewrite Hlen, Hrest; cbn; lia|]. rewrite script_size_cons. split; [lia|]. intros H. destruct d; [done|cbn in Hlen; lia]. }
    apply Hd; [|done|cbn; rewrite script_size_cons; done]. exists Ws, Wr. cbn. fold d. split; [done|]. split; [done|]. split; [lia|]. split; [lia|].
    split; [by facts|]. split; [|done]. facts. by rewrite Hin, <- app_assoc.
  - apply gives_assoc, gives_modify, gives_unit. rewrite script_size_cons in Hwr, Hws. apply He; [|done]. eapply (mkInv _ _ _ _ _ Ws Wr); cbn; try done; lia.
Qed.

Lemma read_loop_ok V fuel : forall qs qr data s, inv_read V qs qr data s -> V < 2 ^ 62 -> (script_size (reads s) < fuel)%nat ->
  gives (read_loop fuel data) s (fun _ s' => after V s s').
Proof.
  induction fuel as [|fuel IH]; intros qs qr data s (Ws & Wr & Hs & Hr & Hwr & Hws & Hout & Hin & Hlive) HV Hfuel; [lia|]. cbn [read_loop].
  apply (store_gives _ _ _ qr Wr); [done|lia|]. intros b Hb.
  assert (inv strict V qs (qr ++ data) (set_recv b s)) as Hi.
  { eapply (mkInv _ _ _ _ _ Ws (Wr + Z.of_nat (length data))); cbn; try done; rewrite ?length_app; lia. }
  apply (readv_gives V qs (qr ++ data)); [done| |].
  - intros [|x data'] s' Hr' HL Hlt.
    + apply gives_ret. destruct Hr' as (Ws' & Wr' & H1 & H2 & H3 & H4 & H5 & H6 & H7). split; [|done]. exists qs, (qr ++ data). rewrite app_nil_r in H6.
      eapply (mkInv _ _ _ _ _ Ws' Wr'); try done; cbn in *; lia.
    + specialize (Hlt ltac:(done)). cbn in Hlt. eapply gives_mono; [apply (IH qs (qr ++ data) (x :: data')); [done|done|lia]|].
      intros _ s2 [H1 H2]. split; [done|]. rewrite H2. done.
  - intros e s' Hi' HL. apply gives_ret. split; [by exists qs, (qr ++ data)|done].
Qed.

Section user.

Context (user : callback -> list fact -> option (list call)) (Bu : Z).

(** A callback asks for at most [Bu] bytes. *)
Hypothesis Huser : forall k h prog, user k h = Some prog -> Forall (call_ok strict) prog /\ calls_size prog <= Bu.
Hypothesis HBu : 0 <= Bu.

Lemma run_callback_ok k unset V qs qr s : inv strict V qs qr s -> V + Bu < 2 ^ 62 -> gives unset s (fun _ s' => after (V + Bu) s s') ->
  gives (run_callback user k unset) s (fun _ s' => after (V + Bu) s s').
Proof.
  intros Hi HV Hun. unfold run_callback. apply gives_get. destruct (user k (hist s)) as [prog|] eqn:E; [|done].
  destruct (Huser _ _ _ E) as [Hok Hsz]. pose proof (calls_nonneg _ Hok). apply gives_modify, gives_modify.
  eapply gives_bind.
  - eapply (exec_all_ok prog V qs qr); [|done|lia]. destruct Hi as [Ws Wr Hs Hr Hwr Hws Hout Hin Hlive].
    eapply (mkInv _ _ _ _ _ Ws Wr); cbn; try done; by facts.
  - intros _ s' [(qs' & qr' & H1) H2]. eexists (), _. split; [done|]. split; [|cbn in *; lia]. exists qs', qr'.
    eapply bfd_inv_mono; [|eapply bfd_inv_same; [exact H1|done..]]. lia.
Qed.

Lemma gives_done V qs qr s : inv strict V qs qr s -> gives (mret ()) s (fun _ s' => after (V + Bu) s s').
Proof. intros H. apply gives_ret. split; [|done]. exists qs, qr. eapply bfd_inv_mono; [|done]. lia. Qed.

Lemma deliver_ok V qs qr s : inv strict V qs qr s -> V + Bu < 2 ^ 61 -> gives (deliver user) s (fun _ s' => after (V + Bu) s s').
Proof.
  intros Hi HV. unfold deliver. apply gives_get. destruct (wp_receiver_ s) as [r|].
  - pose proof Hi as [Ws Wr Hs Hr Hwr Hws Hout Hin Hlive]. apply (gives_the _ qr); [by eapply readable_ok|].
    assert (forall Ws' qs' s', holds (send_buff_ s') qs' Ws' -> Ws' + Z.of_nat (script_size (reads s)) <= V -> recv_buff_ s' = recv_buff_ s -> reads s' = reads s ->
      accepted (hist s') = outs (hist s') ++ qs' -> ins (hist s') = takens (hist s') ++ qr ->
      (strict = true -> state_ s' = kRunning /\ is_Some (sp_write_event_ s') /\ (qs' <> [] -> sp_write_event_ s' = Some true)) ->
      cb_level_ s' = cb_level_ s -> gives (take_all (SentBy r)) s' (fun _ s2 => after (V + Bu) s s2)) as Htake.
    { intros Ws' qs' s' H1 H2 H3 H4 H5 H6 H7 HL. assert (holds (recv_buff_ s') qr Wr) as Hr' by (by rewrite H3). unfold take_all. apply gives_get, (gives_the _ qr); [by eapply readable_ok|].
      apply gives_modify. eexists (), _. split; [done|]. split; [|done]. exists qs', []. eapply (mkInv _ _ _ _ _ Ws' Wr); cbn; rewrite ?H4; try done; try lia.
      - by eapply read_all_ok.
      - by facts.
      - facts. by rewrite H6. }
    destruct r.
    + apply gives_assoc. eapply gives_bind; [apply (send_ok qr V qs qr); [done|]|].
      { pose proof (holds_nonneg _ _ _ Hs). lia. }
      intros a s' ((qs' & [Ws' Wr' H1 H2 H3 H4 H5 H6 H7]) & HL & Erecv & Ereads). apply gives_unit. rewrite Ereads in H4. apply (Htake Ws' qs'); try done. lia.
    + apply gives_unit. apply (Htake Ws qs); try done. lia.
  - unfold when. destruct (_ <=? _); [|by eapply gives_done]. eapply run_callback_ok; [done|lia|].
    eapply gives_mono; [by eapply take_all_ok|]. intros _ s' [(qs' & qr' & H) HL]. split; [|done]. exists qs', qr'. eapply bfd_inv_mono; [|done]. lia.
Qed.

Lemma onReadCallback_ok V qs qr s : inv strict V qs qr s -> V + Bu < 2 ^ 61 -> gives (onReadCallback user) s (fun _ s' => after (V + Bu) s s').
Proof.
  intros Hi HV. unfold onReadCallback. apply (readv_gives V qs qr); [done| |].
  - intros [|x data] s1 Hr HL _.
    + assert (inv strict V qs qr s1) as H1.
      { destruct Hr as (Ws & Wr & H1 & H2 & H3 & H4 & H5 & H6 & H7). rewrite app_nil_r in H6. eapply (mkInv _ _ _ _ _ Ws Wr); try done; cbn in *; lia. }
      eapply gives_mono; [eapply run_callback_ok; [done|lia|by eapply gives_done]|]. intros _ s' [H2 H3]. split; [done|congruence].
    + apply gives_get. eapply gives_bind; [apply (read_loop_ok V _ qs qr); [done|lia|lia]|]. intros _ s2 [(qs2 & qr2 & H2) HL2].
      eapply gives_mono; [by eapply deliver_ok|]. intros _ s' [H3 H4]. split; [done|congruence].
  - intros e s1 H1 HL. unfold when. destruct (negb (e =? EAGAIN)).
    + eapply gives_mono; [eapply run_callback_ok; [done|lia|by eapply gives_done]|]. intros _ s' [H2 H3]. split; [done|congruence].
    + eapply gives_mono; [by eapply gives_done|]. intros _ s' [H2 H3]. split; [done|congruence].
Qed.

Lemma onWriteCallback_ok V qs qr s : inv strict V qs qr s -> V + Bu < 2 ^ 61 -> is_Some (sp_write_event_ s) -> gives (onWriteCallback user) s (fun _ s' => after (V + Bu) s s').
Proof.
  intros Hi HV [b Hb]. pose proof Hi as [Ws Wr Hs Hr Hwr Hws Hout Hin Hlive]. unfold onWriteCallback. apply gives_get. rewrite (held_readable _ _ _ Hs).
  destruct (Z.eqb_spec (Z.of_nat (length qs)) 0) as [E|E].
  - assert (qs = []) as -> by (by destruct qs). apply (gives_the _ b); [done|]. apply gives_modify.
    assert (inv strict V [] qr (set_write_event (Some false) s)) as H1.
    { eapply (mkInv _ _ _ _ _ Ws Wr); cbn; try done. intros Hst. destruct (Hlive Hst) as (? & ? & ?). done. }
    eapply gives_mono; [eapply run_callback_ok; [done|lia|by eapply gives_done]|]. intros _ s' [H2 H3]. by split.
  - apply (gives_the _ qs); [by eapply readable_ok|]. apply fd_write_gives.
    + intros n ws Hn. eexists (), _. split; [done|]. split; [|done]. exists (drop (Z.to_nat n) qs), qr. eapply (mkInv _ _ _ _ _ Ws Wr); cbn; try done; try lia.
      * apply (held_read _ qs Ws Hs n); [lia|]. pose proof (h_write _ _ _ Hs). pose proof (h_read _ _ _ Hs). pose proof (h_budget _ _ _ Hs). unfold small. lia.
      * facts. by rewrite Hout, <- app_assoc, take_drop.
      * by facts.
      * intros Hst. destruct (Hlive Hst) as (? & ? & H). split; [done|]. split; [done|]. intros _. apply H. by intros ->.
    + intros e ws. assert (inv strict V qs qr (set_writes ws s)) as H1 by (by eapply (mkInv _ _ _ _ _ Ws Wr)).
      eapply gives_mono; [eapply run_callback_ok; [done|lia|by eapply gives_done]|]. intros _ s' [H2 H3]. by split.
Qed.

(** What an event may add. *)
Definition event_size (e : event) : Z := match e with Do c => call_size c | _ => Bu end.

(** When nobody disables it, the descriptor is also not initialized again, which would
    be refused anyway. *)
Definition event_ok (e : event) : Prop := match e with Do c => call_ok strict c | _ => True end.

Lemma event_nonneg e : event_ok e -> 0 <= event_size e.
Proof. destruct e; cbn; try lia. by intros [? _]. Qed.

Lemma step_keeps e V qs qr s : inv strict V qs qr s -> event_ok e -> V + event_size e < 2 ^ 61 -> gives (step user e) s (fun _ s' => after (V + event_size e) s s').
Proof.
  intros Hi He HV. destruct e as [fd_null rd wr|t|c| |]; cbn [step event_size event_ok] in *.
  - unfold initialize. apply gives_assoc, gives_get. destruct fd_null; [apply gives_unit; by eapply gives_done|].
    destruct (negb (rd || wr)); [apply gives_unit; by eapply gives_done|]. destruct (bool_decide (state_ s = kEmpty)) eqn:E; cbn [negb]; [|apply gives_unit; by eapply gives_done].
    apply bool_decide_eq_true in E. apply gives_assoc, gives_modify, gives_assoc, gives_modify, gives_assoc, gives_modify, gives_unit, gives_ret.
    split; [|done]. exists qs, qr. eapply bfd_inv_mono, bfd_inv_same; [|exact Hi|done..|]; [lia|]. intros _. congruence.
  - eexists (), _. split; [done|]. split; [|done]. exists qs, qr. eapply bfd_inv_mono, bfd_inv_same; [|exact Hi|done..]. lia.
  - eapply bfd_exec_ok; [done|done|lia].
  - apply gives_get. destruct (sp_read_event_ s) as [[]|]; try (by eapply gives_done). by eapply onReadCallback_ok.
  - apply gives_get. destruct (sp_write_event_ s) as [[]|] eqn:E; try (by eapply gives_done). eapply onWriteCallback_ok; [done|done|by rewrite E].
Qed.

Fixpoint events_size (l : list event) : Z := match l with [] => 0 | e :: l' => event_size e + events_size l' end.

Lemma events_nonneg l : Forall event_ok l -> 0 <= events_size l.
Proof. induction 1 as [|e l He _ IH]; cbn; [lia|]. pose proof (event_nonneg e He). lia. Qed.

Lemma run_keeps l : forall V qs qr s, inv strict V qs qr s -> Forall event_ok l -> V + events_size l < 2 ^ 61 -> gives (run user l) s (fun _ s' => after (V + events_size l) s s').
Proof.
  induction l as [|e l IH]; intros V qs qr s Hi Hl HV; cbn [run events_size] in *.
  - apply gives_ret. rewrite Z.add_0_r. split; [by exists qs, qr|done].
  - apply Forall_cons in Hl as [He Hl]. pose proof (events_nonneg l Hl). eapply gives_bind; [eapply step_keeps; [done|done|lia]|].
    intros _ s1 [(qs1 & qr1 & H1) HL]. eapply gives_mono; [eapply IH; [done|done|lia]|]. intros _ s' [H2 HL2]. rewrite Z.add_assoc. split; [done|congruence].
Qed.

End user.

End steps.

Definition callbacks_ok (strict : bool) (user : callback -> list fact -> option (list call)) (Bu : Z) : Prop :=
  0 <= Bu /\ forall k h prog, user k h = Some prog -> Forall (call_ok strict) prog /\ calls_size prog <= Bu.

Lemma inv_init ws rs : inv false (Z.of_nat (script_size rs)) [] [] (new_bfd ws rs).
Proof. eapply (mkInv _ _ _ _ _ 0 0); cbn; try done; try lia; by apply holds_null. Qed.

(** C24: both directions of a descriptor are queues of bytes, whatever the events, the answers
    of the descriptor and the calls in callbacks are: nothing is read or written outside
    the buffers, every callback of the loop ends, what the descriptor took, followed by
    the send buffer, is what was accepted, and what it gave is what left the receive
    buffer - taken by the user, sent by the receiver that is bound, or discarded as there
    is no callback, as the history says -, followed by the receive buffer, each in order. *)
Theorem streams_preserved (user : callback -> list fact -> option (list call)) (Bu : Z) (ws : list wresult) (rs : list rresult) (l : list event) :
  callbacks_ok false user Bu -> Forall (event_ok false) l -> Z.of_nat (script_size rs) + events_size Bu l < 2 ^ 61 ->
  exists s, run user l (new_bfd ws rs) = Ret ((), s) /\ cb_level_ s = 0 /\
    (exists q, readable (send_buff_ s) = Some q /\ accepted (hist s) = outs (hist s) ++ q) /\
    (exists q, readable (recv_buff_ s) = Some q /\ ins (hist s) = takens (hist s) ++ q).
Proof.
  intros [HB Hu] Hl HV. destruct (run_keeps false user Bu Hu HB l _ _ _ _ (inv_init ws rs) Hl HV) as ([] & s & E & (qs & qr & [Ws Wr Hs Hr _ _ Hout Hin _]) & HL).
  exists s. split; [done|]. split; [done|]. split; [exists qs|exists qr]; (split; [by eapply readable_ok|done]).
Qed.

(** *** Sending comes to an end *)

Section finish.

Context (user : callback -> list fact -> option (list call)).

(** The descriptor takes at least a byte each time. *)
Lemma writables_send n : forall V qs qr s ws, inv true V qs qr s -> V < 2 ^ 61 -> (length qs <= n)%nat -> writes s = map Wrote ws -> (n <= length ws)%nat -> Forall (fun k => 1 <= k) ws ->
  exists k s', (k <= length qs)%nat /\ run user (replicate k Writable) s = Ret ((), s') /\ inv true V [] qr s' /\ accepted (hist s') = accepted (hist s) /\ (qs <> [] -> sp_write_event_ s' = Some true).
Proof.
  induction n as [|n IH]; intros V qs qr s ws Hi HV Hlen Hws Hn Hpos.
  - assert (qs = []) as -> by (destruct qs; [done|cbn in Hlen; lia]). exists 0%nat, s. split_and!; done.
  - destruct (decide (qs = [])) as [->|Hne]; [exists 0%nat, s; split_and!; done|].
    pose proof Hi as [Ws Wr Hs Hr Hwr Hws' Hout Hin Hlive]. destruct ws as [|w ws]; [cbn in Hn; lia|]. apply Forall_cons in Hpos as [Hw Hpos].
    destruct (Hlive eq_refl) as (_ & _ & Hen). specialize (Hen Hne).
    set (m := Z.max 0 (Z.min w (Z.of_nat (length qs)))). assert (1 <= m <= Z.of_nat (length qs)) as Hm by (unfold m; destruct qs; [done|cbn [length] in *; lia]).
    set (s1 := set_send (hasRead (send_buff_ s) m) (add_hist (Out (take (Z.to_nat m) qs)) (set_writes (map Wrote ws) s))).
    assert (step user Writable s = Ret ((), s1)) as E1.
    { cbn [step]. unfold mbind, M_bind, get. rewrite Hen. unfold onWriteCallback, mbind, M_bind, get. rewrite (held_readable _ _ _ Hs).
      destruct (Z.eqb_spec (Z.of_nat (length qs)) 0) as [H0|_]; [by destruct qs|]. rewrite (readable_ok _ _ _ Hs). cbn [the mret M_ret].
      unfold fd_write, mbind, M_bind, get. rewrite Hws. cbn [map]. done. }
    assert (inv true V (drop (Z.to_nat m) qs) qr s1) as H1.
    { eapply (mkInv _ _ _ _ _ Ws Wr); cbn; try done; try lia.
      - apply (held_read _ qs Ws Hs m); [lia|]. pose proof (h_write _ _ _ Hs). pose proof (h_read _ _ _ Hs). pose proof (h_budget _ _ _ Hs). unfold small. lia.
      - facts. by rewrite Hout, <- app_assoc, take_drop.
      - by facts.
      - intros _. destruct (Hlive eq_refl) as (? & ? & _). by rewrite Hen. }
    assert (length (drop (Z.to_nat m) qs) <= n)%nat as Hd by (rewrite length_drop; lia).
    destruct (IH V _ qr s1 ws H1 HV Hd) as (k & s' & Hk & E & Hi' & Ha & Hev); [done|cbn in Hn; lia|done|].
    exists (S k), s'. rewrite length_drop in Hk. split; [lia|]. split; [cbn [replicate run]; by rewrite (bind_Ret _ _ _ _ _ E1)|].
    split; [done|]. split; [rewrite Ha; unfold s1; cbn; by facts|]. intros _. destruct (decide (drop (Z.to_nat m) qs = [])) as [Hnil|Hnn]; [|by apply Hev].
    apply (f_equal length) in Hnil. rewrite length_drop in Hnil. cbn in Hnil. assert (k = 0)%nat as -> by lia.
    cbn in E. injection E as <-. done.
Qed.

End finish.

(** C25: what was accepted is sent.  A descriptor that is enabled before anything is sent and
    never disabled waits for the descriptor to become writable whenever its send buffer is
    not empty; and if the descriptor then takes at least a byte each time, everything
    accepted has been handed to it, in order, after at most as many times as the buffer has
    bytes, and the event is still enabled to report that. *)
Theorem sending_completes (user : callback -> list fact -> option (list call)) (Bu : Z) (rd : bool) (ws : list wresult) (rs : list rresult) (l : list event) :
  callbacks_ok true user Bu -> Forall (event_ok true) l -> Z.of_nat (script_size rs) + 2 * Bu + events_size Bu l < 2 ^ 61 ->
  exists s q, run user (Initialize false rd true :: Do CEnable :: l) (new_bfd ws rs) = Ret ((), s) /\
    readable (send_buff_ s) = Some q /\ (q <> [] -> sp_write_event_ s = Some true) /\
    forall takes, writes s = map Wrote takes -> (length q <= length takes)%nat -> Forall (fun k => 1 <= k) takes ->
      exists k s', (k <= length q)%nat /\ run user (replicate k Writable) s = Ret ((), s') /\
        outs (hist s') = accepted (hist s) /\ (q <> [] -> sp_write_event_ s' = Some true).
Proof.
  intros [HB Hu] Hl HV. set (s0 := set_state kRunning (set_read_event (if rd then Some true else None) (set_write_event (Some false) (new_bfd ws rs)))).
  assert (inv true (Z.of_nat (script_size rs)) [] [] s0) as Hi0.
  { eapply (mkInv _ _ _ _ _ 0 0); cbn; try done; try lia; by apply holds_null. }
  destruct (run_keeps true user Bu Hu HB l _ _ _ _ Hi0 Hl) as ([] & s & E & (qs & qr & Hi) & _); [lia|]. pose proof Hi as [Ws Wr Hs Hr _ _ Hout _ Hlive].
  exists s, qs. split; [destruct rd; exact E|]. split; [by eapply readable_ok|]. split; [by apply Hlive|]. intros takes Hw Hlen Hpos.
  destruct (writables_send user (length qs) _ qs qr s takes Hi) as (k & s' & Hk & E' & Hi' & Ha & Hev); [lia|lia|done|lia|done|].
  exists k, s'. split; [done|]. split; [done|]. split; [|done]. rewrite <- Ha. destruct Hi' as [? ? _ _ _ _ Hout' _ _]. by rewrite Hout', app_nil_r.
Qed.

(** ** Runs *)

(** A callback that answers what it receives and takes three bytes of it. *)
Definition echoing (k : callback) (h : list fact) : option (list call) :=
  match k with Receive => Some [CSend [101; 99]; CTake 3] | SendComplete => Some [] | _ => None end.

Definition some_events : list event :=
  [Initialize false true true; Do (CSend [1; 2; 3]); Do CEnable; Readable; Do (CSend [4]); Do CDisable; Do CEnable; Writable; Readable].

Lemma echoing_ok strict : callbacks_ok strict echoing 5.
Proof.
  split; [lia|]. intros k h prog. destruct k; cbn; try done; intros [= <-]; split; cbn; try lia; repeat constructor; cbn; (lia || done).
Qed.

Lemma streams_preserved_witness : exists s, run echoing some_events (new_bfd [Wrote 2] [Got [7; 8]; Got [9; 10]; ReadFails EAGAIN; Got []]) = Ret ((), s) /\
  hist s = [Accepted [1; 2; 3]; In [7; 8]; In [9; 10]; Called Receive; Accepted [101; 99]; Taken ByUser [7; 8; 9]; Accepted [4]; In []] /\
  readable (send_buff_ s) = Some [1; 2; 3; 101; 99; 4] /\ readable (recv_buff_ s) = Some [10].
Proof.
  destruct (streams_preserved echoing 5 [Wrote 2] [Got [7; 8]; Got [9; 10]; ReadFails EAGAIN; Got []] some_events) as (s & E & _).
  - apply echoing_ok.
  - repeat constructor; cbn; (lia || done).
  - vm_compute. reflexivity.
  - exists s. split; [exact E|]. vm_compute in E. injection E as <-. split; [reflexivity|]. split; reflexivity.
Defined.

Lemma sending_completes_witness : exists s q, run echoing [Initialize false false true; Do CEnable; Do (CSend [1; 2; 3]); Do (CSend [4])] (new_bfd [Wrote 1; Wrote 1; Wrote 1; Wrote 1] []) = Ret ((), s) /\
  readable (send_buff_ s) = Some q /\ q = [2; 3; 4] /\ exists k s', (k <= 3)%nat /\ run echoing (replicate k Writable) s = Ret ((), s') /\ outs (hist s') = [1; 2; 3; 4].
Proof.
  destruct (sending_completes echoing 5 false [Wrote 1; Wrote 1; Wrote 1; Wrote 1] [] [Do (CSend [1; 2; 3]); Do (CSend [4])]) as (s & q & E & Hq & _ & H).
  - apply echoing_ok.
  - repeat constructor; cbn; (lia || done).
  - vm_compute. reflexivity.
  - exists s, q. split; [exact E|]. split; [exact Hq|]. vm_compute in E. injection E as <-. vm_compute in Hq. injection Hq as <-. split; [reflexivity|].
    destruct (H [1; 1; 1]) as (k & s' & Hk & E' & Ho & _).
    + reflexivity.
    + cbn. lia.
    + repeat constructor; lia.
    + exists k, s'. split; [exact Hk|]. split; [exact E'|exact Ho].
Defined.

(** ** Where the contract ends *)

(** What is sent before [enable()] goes to the buffer, but [enable()] does not enable the
    write event; later data goes behind it, and nothing is ever written. *)
Example sent_before_enable :
  match run echoing ([Initialize false true true; Do (CSend [1]); Do CEnable; Do (CSend [2])] ++ replicate 9 Writable) (new_bfd (replicate 9 (Wrote 100)) []) with
  | Ret (_, s) => outs (hist s) = [] /\ readable (send_buff_ s) = Some [1; 2] /\ sp_write_event_ s = Some false
  | _ => False
  end.
Proof. vm_compute. auto. Qed.

(** The same after [disable()] and [enable()] when data was waiting. *)
Example disabled_while_sending :
  match run echoing ([Initialize false true true; Do CEnable; Do (CSend [1; 2]); Do CDisable; Do CEnable; Do (CSend [3])] ++ replicate 9 Writable) (new_bfd (Wrote 1 :: replicate 9 (Wrote 100)) []) with
  | Ret (_, s) => outs (hist s) = [1] /\ readable (send_buff_ s) = Some [2; 3] /\ sp_write_event_ s = Some false
  | _ => False
  end.
Proof. vm_compute. auto. Qed.

(** A write that fails for another reason drops the data, and [send] answers true. *)
Example failed_write_is_success :
  match (run echoing [Initialize false true true; Do CEnable];; send [1; 2]) (new_bfd [WriteFails 32] []) with
  | Ret (b, s) => b = true /\ hist s = [Dropped [1; 2]]
  | _ => False
  end.
Proof. vm_compute. auto. Qed.

(** A descriptor that would block is reported as an error when the buffer is written. *)
Example would_block_is_error :
  match run (fun k _ => Some []) [Initialize false true true; Do CEnable; Do (CSend [1; 2]); Writable] (new_bfd [Wrote 1; WriteFails EAGAIN] []) with
  | Ret (_, s) => hist s = [Out [1]; Accepted [1; 2]; Called (WriteError EAGAIN)]
  | _ => False
  end.
Proof. vm_compute. reflexivity. Qed.
