(* ===== verification/Telnet.v ===== *)
(** * The telnet service

    Models [terminal/impl/service/telnetd.cpp]: the telnet commands in the bytes of a
    client, the answers to them, and which session belongs to which client.  The TCP
    server is what the service uses of it: the clients that are connected, each with its
    receive buffer, and what is sent to them.  What the terminal does when it is called
    is a program of calls to the service that may depend on all that happened before. *)
From S2P Require Import Prelude Cabinet.

(** ** The commands in a stream *)

Definition kSE : Z := 240.
Definition kNOP : Z := 241.
Definition kSB : Z := 250.
Definition kWILL : Z := 251.
Definition kWONT : Z := 252.
Definition kDO : Z := 253.
Definition kDONT : Z := 254.
Definition kIAC : Z := 255.

Definition kECHO : Z := 1.
Definition kSGA : Z := 3.
Definition kWINDOW : Z := 31.
Definition kSPEED : Z := 32.

Definition kEnableEcho : Z := 1.

(** [std::find(begin, end, kIAC) - begin] *)
Fixpoint find_iac (l : list Z) : nat :=
  match l with [] => 0 | x :: l' => if x =? kIAC then 0 else S (find_iac l') end.

Inductive item :=
  | Text (s : list Z)
  | Nego (cmd opt : Z)
  | Cmd (cmd : Z)
  | Sub (opt : Z) (data : list Z).

(** One turn of the loop of [onTcpReceived] on what is readable: what was found and its
    size, or nothing when more has to come. *)
Definition next_item (l : list Z) : option (item * nat) :=
  let size := find_iac l in
  if bool_decide (0 < size)%nat then Some (Text (take size l), size)
  else if bool_decide (length l < 2)%nat then None
  else
    cmd ← l !! 1%nat;
    if (cmd =? kWILL) || (cmd =? kWONT) || (cmd =? kDO) || (cmd =? kDONT) then
      if bool_decide (length l < 3)%nat then None else opt ← l !! 2%nat; Some (Nego cmd opt, 3%nat)
    else if cmd =? kSB then
      if bool_decide (length l < 6)%nat then None
      else
        opt ← l !! 2%nat;
        let cmd_end_iac := (4 + find_iac (drop 4 l))%nat in
        if bool_decide (cmd_end_iac = length l) then None
        else if bool_decide (cmd_end_iac + 1 = length l)%nat then None
        else Some (Sub opt (take (cmd_end_iac - 3) (drop 3 l)), (cmd_end_iac + 2)%nat)
    else Some (Cmd cmd, 2%nat).

(** ** The service *)

(** What the terminal asks for when it is called. *)
Inductive call := CSend (st : Token) (text : list Z) | CEndSession (st : Token).

(** What has happened: what the terminal was told, what was sent to a client, and the
    clients that were disconnected. *)
Inductive fact :=
  | NewSession (st : Token)
  | OnBegin (st : Token)
  | DeleteSession (st : Token)
  | RecvString (st : Token) (s : list Z)
  | SetOptions (st : Token) (opts : Z)
  | RecvWindowSize (st : Token) (w h : Z)
  | Sent (ct : Token) (bytes : list Z)
  | Disconnect (ct : Token).

(** [clients] are the connections of the TCP server; [tasks] were posted to the loop. *)
Record telnetd := mkTelnetd {
  session_to_client_ : gmap Token Token;
  client_to_session_ : gmap Token Token;
  clients : gmap Token (list Z);
  tasks : list (Token * Token);
  log : list fact }.

Definition new_telnetd : telnetd := mkTelnetd ∅ ∅ ∅ [] [].

Definition MT := M telnetd.

Definition set_maps (x y : gmap Token Token) (s : telnetd) : telnetd := mkTelnetd x y (clients s) (tasks s) (log s).
Definition set_clients (x : gmap Token (list Z)) (s : telnetd) : telnetd := mkTelnetd (session_to_client_ s) (client_to_session_ s) x (tasks s) (log s).
Definition set_tasks (x : list (Token * Token)) (s : telnetd) : telnetd := mkTelnetd (session_to_client_ s) (client_to_session_ s) (clients s) x (log s).
Definition add_log (f : fact) (s : telnetd) : telnetd := mkTelnetd (session_to_client_ s) (client_to_session_ s) (clients s) (tasks s) (log s ++ [f]).

Definition note (f : fact) : MT () := modify (add_log f).

(** [std::map::at], which throws. *)
Definition session_of (ct : Token) : MT Token := s ← get; the (client_to_session_ s !! ct).
Definition client_of (st : Token) : MT Token := s ← get; the (session_to_client_ s !! st).

(** [sp_tcp_->send] *)
Definition tcp_send (ct : Token) (bytes : list Z) : MT () :=
  s ← get; match clients s !! ct with Some _ => note (Sent ct bytes) | None => mret () end.

Definition send (st : Token) (text : list Z) : MT bool :=
  ct ← client_of st;
  if isNull st then mret false else tcp_send ct text;; mret true.

Definition endSession (st : Token) : MT bool :=
  ct ← client_of st;
  if isNull ct then mret false else modify (fun s => set_tasks (tasks s ++ [(st, ct)]) s);; mret true.

Definition isValid (st : Token) (s : telnetd) : bool := bool_decide (is_Some (session_to_client_ s !! st)).

(** The task that [endSession] posts. *)
Definition run_task (t : Token * Token) : MT () :=
  modify (fun s => set_maps (delete t.1 (session_to_client_ s)) (delete t.2 (client_to_session_ s)) s);;
  s ← get;
  match clients s !! t.2 with
  | Some _ => modify (set_clients (delete t.2 (clients s)));; note (Disconnect t.2)
  | None => mret ()
  end.

Definition sendNego (ct : Token) (cmd o : Z) : MT () := tcp_send ct [kIAC; cmd; o].
Definition sendCmd (ct : Token) (cmd : Z) : MT () := tcp_send ct [kIAC; cmd].

Section terminal.

(** What the terminal does after it was told something, and the options it has. *)
Context (terminal : fact -> list fact -> list call) (getOptions : Token -> list fact -> Z).

Definition do_call (c : call) : MT () :=
  match c with CSend st text => send st text;; mret () | CEndSession st => endSession st;; mret () end.

Fixpoint do_calls (l : list call) : MT () :=
  match l with [] => mret () | c :: l' => do_call c;; do_calls l' end.

(** A call of the terminal. *)
Definition tell (f : fact) : MT () := s ← get; note f;; do_calls (terminal f (log s)).

Definition onTcpConnected (ct st : Token) : MT () :=
  tell (NewSession st);;
  modify (fun s => set_maps (<[st := ct]> (session_to_client_ s)) (<[ct := st]> (client_to_session_ s)) s);;
  sendNego ct kDONT kECHO;;
  sendNego ct kDO kWINDOW;;
  sendNego ct kDO kSPEED;;
  sendNego ct kWILL kECHO;;
  sendNego ct kWILL kSGA;;
  tell (OnBegin st).

Definition onTcpDisconnected (ct : Token) : MT () :=
  st ← session_of ct;
  modify (fun s => set_maps (delete st (session_to_client_ s)) (delete ct (client_to_session_ s)) s);;
  tell (DeleteSession st).

Definition onRecvString (ct : Token) (str : list Z) : MT () := st ← session_of ct; tell (RecvString st str).

Definition onRecvNego (ct : Token) (cmd opt : Z) : MT () :=
  st ← session_of ct;
  if cmd =? kDONT then sendNego ct kWONT opt
  else if cmd =? kDO then
    if opt =? kECHO then s ← get; tell (SetOptions st (Z.lor (getOptions st (log s)) kEnableEcho)) else mret ()
  else mret ().

Definition onRecvCmd (ct : Token) (cmd : Z) : MT () := if cmd =? kNOP then sendCmd ct kNOP else mret ().

(** [p] is the memory from the data on, up to the end of what is readable. *)
Definition onRecvSub (ct : Token) (opt : Z) (p : list Z) : MT () :=
  st ← session_of ct;
  if opt =? kWINDOW then
    p0 ← the (p !! 0%nat); p1 ← the (p !! 1%nat); p2 ← the (p !! 2%nat); p3 ← the (p !! 3%nat);
    tell (RecvWindowSize st (u16 (Z.lor (Z.shiftl p0 8) p1)) (u16 (Z.lor (Z.shiftl p2 8) p3)))
  else mret ().

Definition handle (ct : Token) (buff : list Z) (x : item) : MT () :=
  match x with
  | Text str => onRecvString ct str
  | Nego cmd opt => onRecvNego ct cmd opt
  | Cmd cmd => onRecvCmd ct cmd
  | Sub opt _ => onRecvSub ct opt (drop 3 buff)
  end.

(** The loop; a receive buffer stays where it is while the calls within it run. *)
Fixpoint received_loop (fuel : nat) (ct : Token) : MT () :=
  s ← get;
  buff ← the (clients s !! ct);
  match buff with
  | [] => mret ()
  | _ =>
      match fuel with
      | O => out_of_fuel
      | S fuel' =>
          match next_item buff with
          | None => mret ()
          | Some (x, size) =>
              handle ct buff x;;
              modify (fun s => set_clients (<[ct := drop size buff]> (clients s)) s);;
              received_loop fuel' ct
          end
      end
  end.

Definition onTcpReceived (ct : Token) : MT () :=
  s ← get; buff ← the (clients s !! ct); received_loop (length buff) ct.

(** The TCP server and the loop: a client connects, and the terminal will call its session
    [st]; it sends bytes; it goes; the loop runs the first task.  The TCP server frees a
    connection after the callback. *)
Inductive event :=
  | Connected (ct st : Token)
  | Received (ct : Token) (bytes : list Z)
  | Gone (ct : Token)
  | Task.

Definition step (e : event) : MT () :=
  s ← get;
  match e with
  | Connected ct st => put (set_clients (<[ct := []]> (clients s)) s);; onTcpConnected ct st
  | Received ct bytes =>
      match clients s !! ct with
      | Some buff => put (set_clients (<[ct := buff ++ bytes]> (clients s)) s);; onTcpReceived ct
      | None => mret ()
      end
  | Gone ct =>
      match clients s !! ct with
      | Some _ => onTcpDisconnected ct;; modify (fun s => set_clients (delete ct (clients s)) s)
      | None => mret ()
      end
  | Task => match tasks s with t :: rest => put (set_tasks rest s);; run_task t | [] => mret () end
  end.

Fixpoint run (l : list event) : MT () :=
  match l with [] => mret () | e :: l' => step e;; run l' end.

End terminal.

(** ** Streams of commands

    A client that speaks telnet sends characters, negotiations, commands and
    sub-negotiations. *)

Inductive unit_ :=
  | UChar (c : Z)
  | UNego (cmd opt : Z)
  | UCmd (cmd : Z)
  | USub (opt : Z) (data : list Z).

Definition encode_unit (u : unit_) : list Z :=
  match u with
  | UChar c => [c]
  | UNego cmd opt => [kIAC; cmd; opt]
  | UCmd cmd => [kIAC; cmd]
  | USub opt data => [kIAC; kSB; opt] ++ data ++ [kIAC; kSE]
  end.

Definition encode (l : list unit_) : list Z := concat (map encode_unit l).

Definition is_nego (cmd : Z) : bool := (cmd =? kWILL) || (cmd =? kWONT) || (cmd =? kDO) || (cmd =? kDONT).

(** The data of a sub-negotiation is not empty and has no 255, and a window size is
    complete. *)
Definition unit_ok (u : unit_) : Prop :=
  match u with
  | UChar c => c <> kIAC
  | UNego cmd _ => is_nego cmd = true
  | UCmd cmd => is_nego cmd = false /\ cmd <> kSB
  | USub opt data => data <> [] /\ Forall (fun x => x <> kIAC) data /\ (opt = kWINDOW -> (4 <= length data)%nat)
  end.

(** What the terminal gets to know of it, and of an item. *)
Inductive heard := Char (c : Z) | Window (w h : Z) | Echo.

Definition heard_sub (opt : Z) (data : list Z) : list heard :=
  if opt =? kWINDOW then
    match data with a :: b :: c :: d :: _ => [Window (u16 (Z.lor (Z.shiftl a 8) b)) (u16 (Z.lor (Z.shiftl c 8) d))] | _ => [] end
  else [].

Definition heard_nego (cmd opt : Z) : list heard := if (cmd =? kDO) && (opt =? kECHO) then [Echo] else [].

Definition heard_unit (u : unit_) : list heard :=
  match u with UChar c => [Char c] | UNego cmd opt => heard_nego cmd opt | UCmd _ => [] | USub opt data => heard_sub opt data end.

Definition heard_item (x : item) : list heard :=
  match x with Text s => map Char s | Nego cmd opt => heard_nego cmd opt | Cmd _ => [] | Sub opt data => heard_sub opt data end.

Definition heard_units (l : list unit_) : list heard := concat (map heard_unit l).

Definition heard_fact (st : Token) (f : fact) : list heard :=
  match f with
  | RecvString st' s => if decide (st' = st) then map Char s else []
  | SetOptions st' _ => if decide (st' = st) then [Echo] else []
  | RecvWindowSize st' w h => if decide (st' = st) then [Window w h] else []
  | _ => []
  end.

Definition heard_log (st : Token) (l : list fact) : list heard := concat (map (heard_fact st) l).

#[global] Arguments heard_log : simpl never.

Lemma encode_cons u l : encode (u :: l) = encode_unit u ++ encode l.
Proof. done. Qed.

Lemma find_iac_none l : Forall (fun x => x <> kIAC) l -> find_iac l = length l.
Proof. induction 1 as [|x l Hx _ IH]; [done|]. cbn. rewrite (proj2 (Z.eqb_neq _ _)) by done. by rewrite IH. Qed.

Lemma find_iac_app l l' : Forall (fun x => x <> kIAC) l -> find_iac (l ++ kIAC :: l') = length l.
Proof. induction 1 as [|x l Hx _ IH]; [done|]. cbn [app find_iac length]. rewrite (proj2 (Z.eqb_neq _ _)) by done. by rewrite IH. Qed.

(** Text in front of a stream is characters of it. *)
Lemma text_units buff : forall r us, Forall unit_ok us -> buff ++ r = encode us ->
  exists us2, us = map UChar (take (find_iac buff) buff) ++ us2 /\ drop (find_iac buff) buff ++ r = encode us2.
Proof.
  induction buff as [|x buff IH]; intros r us Hok E; [by exists us|]. cbn [find_iac]. destruct (Z.eqb_spec x kIAC) as [->|Hx]; [by exists us|].
  destruct us as [|u us]; [done|]. apply Forall_cons in Hok as [Hu Hok]. rewrite encode_cons in E.
  destruct u as [c|cmd opt|cmd|opt data]; cbn [encode_unit app] in E; injection E as -> E; try done.
  destruct (IH r us Hok E) as (us2 & -> & E2). exists us2. by split.
Qed.

(** A turn of the loop on what has come of a stream: it waits, as more is to come, or
    handles the first units of it. *)
Lemma next_item_ok buff r us : Forall unit_ok us -> buff <> [] -> buff ++ r = encode us ->
  next_item buff = None /\ r <> [] \/
  exists x size us1 us2, next_item buff = Some (x, size) /\ (0 < size)%nat /\ us = us1 ++ us2 /\ drop size buff ++ r = encode us2 /\
    heard_item x = heard_units us1 /\
    (forall opt data, x = Sub opt data -> opt = kWINDOW -> exists rest, drop 3 buff = data ++ rest /\ (4 <= length data)%nat).
Proof.
  intros Hok Hne E. unfold next_item. destruct (text_units buff r us Hok E) as (us2 & Eus & E2). case_bool_decide as Hn.
  - right. exists (Text (take (find_iac buff) buff)), (find_iac buff), (map UChar (take (find_iac buff) buff)), us2. split_and!; try done.
    cbn. unfold heard_units. rewrite map_map. cbn. generalize (take (find_iac buff) buff). clear. induction l as [|x l IH]; [done|]. cbn. by rewrite IH.
  - assert (find_iac buff = 0%nat) as H0 by lia. clear Hn Eus E2 us2.
    destruct us as [|u us]; [destruct buff; [done|]; done|]. apply Forall_cons in Hok as [Hu Hok]. rewrite encode_cons in E.
    destruct buff as [|x buff]; [done|]. destruct u as [c|cmd opt|cmd|opt data]; cbn [encode_unit app unit_ok] in E, Hu; injection E as -> E.
    + cbn in H0. rewrite (proj2 (Z.eqb_neq _ _)) in H0 by done. done.
    + destruct buff as [|x buff]; [left; split; [done|]; by destruct r|]. cbn [app] in E. injection E as -> E.
      rewrite bool_decide_false by (cbn; lia). cbn [lookup list_lookup mbind option_bind]. fold (is_nego cmd). rewrite Hu.
      destruct buff as [|x buff]; [left; split; [done|]; by destruct r|]. cbn [app] in E. injection E as -> E.
      rewrite bool_decide_false by (cbn; lia). right. exists (Nego cmd opt), 3%nat, [UNego cmd opt], us. split_and!; try done; [lia|]. cbn. by rewrite app_nil_r.
    + destruct buff as [|x buff]; [left; split; [done|]; by destruct r|]. cbn [app] in E. injection E as -> E. destruct Hu as [Hu1 Hu2].
      rewrite bool_decide_false by (cbn; lia). cbn [lookup list_lookup mbind option_bind]. fold (is_nego cmd). rewrite Hu1, (proj2 (Z.eqb_neq _ _)) by done.
      right. exists (Cmd cmd), 2%nat, [UCmd cmd], us. split_and!; try done. lia.
    + destruct Hu as (Hd1 & Hd2 & Hd3). destruct buff as [|x buff]; [left; split; [done|]; by destruct r|]. cbn [app] in E. injection E as -> E.
      rewrite bool_decide_false by (cbn; lia). cbn [lookup list_lookup mbind option_bind]. change (is_nego kSB) with false. cbn [orb Z.eqb].
      change ((kSB =? kWILL) || (kSB =? kWONT) || (kSB =? kDO) || (kSB =? kDONT)) with false. change (kSB =? kSB) with true. cbn iota.
      destruct data as [|d data]; [done|]. apply Forall_cons in Hd2 as [_ Hd2]. rewrite <- app_assoc in E. cbn [app] in E.
      case_bool_decide as Hl.
      { left. split; [done|]. intros ->. rewrite app_nil_r in E. subst buff. cbn in Hl. rewrite length_app in Hl. cbn in Hl. lia. }
      destruct buff as [|x buff]; [cbn in Hl; lia|]. cbn [app] in E. injection E as -> E.
      destruct buff as [|x buff]; [cbn in Hl; lia|]. cbn [app] in E. injection E as -> E.
      cbn [lookup list_lookup mbind option_bind drop length]. rewrite !drop_0. destruct (decide (length buff <= length data)%nat) as [Hle|Hgt].
      * assert (buff = take (length buff) data) as Eb.
        { apply (f_equal (take (length buff))) in E. rewrite take_app_length, take_app_le in E by done. done. }
        assert (Forall (fun x => x <> kIAC) buff) as Hb by (rewrite Eb; by apply Forall_take). rewrite (find_iac_none buff Hb).
        rewrite bool_decide_true by done. left. split; [done|]. intros ->. rewrite app_nil_r in E. apply (f_equal length) in E. rewrite length_app in E. cbn in E. lia.
      * assert (exists t, buff = data ++ kIAC :: t /\ t ++ r = kSE :: encode us) as (t & -> & Et).
        { exists (drop (S (length data)) buff). assert (buff = take (S (length data)) buff ++ drop (S (length data)) buff) as Eb by (by rewrite take_drop).
          assert (take (S (length data)) buff = data ++ [kIAC]) as Et.
          { apply (f_equal (take (S (length data)))) in E. rewrite take_app_le in E by lia. rewrite E.
            rewrite take_app_ge by lia. by replace (S (length data) - length data)%nat with 1%nat by lia. }
          rewrite Et, <- app_assoc in Eb. split; [exact Eb|]. rewrite Eb in E. rewrite <- !app_assoc in E. cbn [app] in E.
          apply app_inv_head in E. by injection E. }
        rewrite (find_iac_app data t Hd2). clear E. cbn [length app] in *. rewrite length_app. cbn [length].
        rewrite bool_decide_false by lia. destruct t as [|y t]; [left; rewrite bool_decide_true by (cbn; lia); split; [done|]; by destruct r|].
        cbn [app] in Et. injection Et as -> Et. rewrite bool_decide_false by (cbn; lia). right.
        exists (Sub opt (d :: data)), (4 + length data + 2)%nat, [USub opt (d :: data)], us.
        assert (take (4 + length data - 3) (d :: data ++ kIAC :: kSE :: t) = d :: data) as ->.
        { replace (4 + length data - 3)%nat with (S (length data)) by lia. cbn [take]. by rewrite take_app_length. }
        split; [done|]. split; [lia|]. split; [done|]. split; [|split; [cbn; by rewrite app_nil_r|]].
        -- replace (4 + length data + 2)%nat with (4 + (length data + 2))%nat by lia. cbn [drop Nat.add]. rewrite drop_app_ge by lia.
           replace (length data + 2 - length data)%nat with 2%nat by lia. cbn [drop]. done.
        -- intros opt' data' [= <- <-] Hw. exists (kIAC :: kSE :: t). split; [done|]. by apply Hd3.
Qed.

(** ** The service *)

Definition fact_session (f : fact) : option Token :=
  match f with OnBegin st | RecvString st _ | SetOptions st _ | RecvWindowSize st _ _ => Some st | _ => None end.

Definition call_session (c : call) : Token := match c with CSend st _ | CEndSession st => st end.

(** The terminal answers for the session it was told about, and not at all for one that
    is about to begin or has ended. *)
Definition terminal_ok (terminal : fact -> list fact -> list call) : Prop :=
  forall f h, Forall (fun c => fact_session f = Some (call_session c)) (terminal f h).

(** Nothing has changed but what was said and which tasks were posted, each for a session
    and its client. *)
Definition near (s s' : telnetd) : Prop :=
  session_to_client_ s' = session_to_client_ s /\ client_to_session_ s' = client_to_session_ s /\ clients s' = clients s /\
  exists ts, tasks s' = tasks s ++ ts /\ Forall (fun t => session_to_client_ s !! t.1 = Some t.2) ts.

Lemma near_refl s : near s s.
Proof. split_and!; try done. exists []. by rewrite app_nil_r. Qed.

Lemma near_trans s1 s2 s3 : near s1 s2 -> near s2 s3 -> near s1 s3.
Proof.
  intros (H1 & H2 & H3 & ts & H4 & H5) (G1 & G2 & G3 & ts' & G4 & G5). split_and!; try congruence. exists (ts ++ ts').
  rewrite G4, H4, app_assoc. split; [done|]. apply Forall_app. split; [done|]. by rewrite H1 in G5.
Qed.

Lemma heard_log_app st l l' : heard_log st (l ++ l') = heard_log st l ++ heard_log st l'.
Proof. unfold heard_log. by rewrite map_app, concat_app. Qed.

Definition says (st : Token) (w : list heard) (s s' : telnetd) : Prop := near s s' /\ heard_log st (log s') = heard_log st (log s) ++ w.

Lemma says_refl st s : says st [] s s.
Proof. split; [apply near_refl|by rewrite app_nil_r]. Qed.

Lemma says_trans st w1 w2 s1 s2 s3 : says st w1 s1 s2 -> says st w2 s2 s3 -> says st (w1 ++ w2) s1 s3.
Proof. intros [H1 H2] [H3 H4]. split; [by eapply near_trans|]. by rewrite H4, H2, app_assoc. Qed.

Lemma says_note st f s : says st (heard_fact st f) s (add_log f s).
Proof.
  split; [by split_and!; try done; exists []; rewrite app_nil_r|]. cbn [log add_log]. rewrite heard_log_app. f_equal. unfold heard_log. cbn [map concat]. by rewrite app_nil_r.
Qed.

Lemma tcp_send_gives ct b st s : gives (tcp_send ct b) s (fun _ s' => says st [] s s').
Proof.
  unfold tcp_send. apply gives_get. destruct (clients s !! ct); [|by apply gives_ret, says_refl]. eexists (), _. split; [done|]. apply says_note.
Qed.

Section terminal.

Context (terminal : fact -> list fact -> list call) (getOptions : Token -> list fact -> Z).
Hypothesis Hterm : terminal_ok terminal.

Lemma do_calls_gives l : forall st s, Forall (fun c => is_Some (session_to_client_ s !! call_session c)) l ->
  gives (do_calls l) s (fun _ s' => says st [] s s').
Proof.
  induction l as [|c l IH]; intros st s Hl; [by apply gives_ret, says_refl|]. apply Forall_cons in Hl as [[ct Hc] Hl]. cbn [do_calls].
  eapply (gives_bind _ _ _ (fun _ s' => says st [] s s')).
  - destruct c as [st' text|st']; cbn [do_call call_session] in *; [unfold send|unfold endSession]; apply gives_assoc; unfold client_of;
      apply gives_assoc, gives_get, (gives_the _ ct); try done.
    + destruct (isNull st'); [by apply gives_unit, gives_ret, says_refl|]. apply gives_assoc.
      eapply gives_bind; [apply (tcp_send_gives _ _ st)|]. intros [] s' H. by apply gives_unit, gives_ret.
    + destruct (isNull ct); [by apply gives_unit, gives_ret, says_refl|]. apply gives_assoc, gives_modify, gives_unit, gives_ret.
      split; [|cbn; by rewrite app_nil_r]. split_and!; try done. exists [(st', ct)]. split; [done|]. by apply Forall_singleton.
  - intros _ s1 H1. eapply gives_mono; [apply (IH st)|]; [|intros [] s' H; by apply (says_trans _ [] [] _ s1)].
    destruct H1 as [(-> & _) _]. done.
Qed.

Lemma tell_gives st f s : (forall st', fact_session f = Some st' -> is_Some (session_to_client_ s !! st')) ->
  gives (tell terminal f) s (fun _ s' => says st (heard_fact st f) s s').
Proof.
  intros Hf. unfold tell. apply gives_get, gives_modify. eapply gives_mono; [apply (do_calls_gives _ st)|].
  - eapply Forall_impl; [apply (Hterm f (log s))|]. intros c Hc. cbn. by apply Hf.
  - intros [] s' H. rewrite <- (app_nil_r (heard_fact st f)). eapply says_trans; [apply says_note|done].
Qed.

(** Some four bytes are there to be read as a window size. *)
Definition item_fits (buff : list Z) (x : item) : Prop := match x with Sub opt _ => opt = kWINDOW -> (7 <= length buff)%nat | _ => True end.

Definition data_in (buff : list Z) (x : item) : Prop :=
  forall opt data, x = Sub opt data -> opt = kWINDOW -> exists rest, drop 3 buff = data ++ rest /\ (4 <= length data)%nat.

Lemma data_fits buff x : data_in buff x -> item_fits buff x.
Proof.
  intros H. destruct x as [| | |opt data]; try done. intros Hw. destruct (H _ _ eq_refl Hw) as (rest & E & Hl). apply (f_equal length) in E.
  rewrite length_drop, length_app in E. lia.
Qed.

Lemma handle_gives ct st buff x s : client_to_session_ s !! ct = Some st -> is_Some (session_to_client_ s !! st) -> item_fits buff x ->
  gives (handle terminal getOptions ct buff x) s (fun _ s' => near s s' /\ (data_in buff x -> says st (heard_item x) s s')).
Proof.
  intros Hc Hs Hfit. assert (forall m w, gives m s (fun _ s' => says st w s s') -> (data_in buff x -> w = heard_item x) ->
    gives m s (fun (_ : ()) s' => near s s' /\ (data_in buff x -> says st (heard_item x) s s'))) as Hgo.
  { intros m w H Hw. eapply gives_mono; [exact H|]. intros [] s' H'. split; [apply H'|]. intros Hd. by rewrite <- (Hw Hd). }
  destruct x as [str|cmd opt|cmd|opt data]; cbn [handle].
  - unfold onRecvString, session_of. apply gives_assoc, gives_get, (gives_the _ st); [done|]. eapply Hgo.
    + apply (tell_gives st (RecvString st str)). by intros ? [= <-].
    + intros _. cbn. by rewrite decide_True.
  - unfold onRecvNego, session_of. apply gives_assoc, gives_get, (gives_the _ st); [done|].
    destruct (Z.eqb_spec cmd kDONT) as [->|_]; [eapply Hgo; [apply tcp_send_gives|done]|].
    destruct (cmd =? kDO) eqn:E1; [|eapply Hgo; [apply gives_ret, says_refl|intros _; cbn; unfold heard_nego; by rewrite E1]].
    destruct (opt =? kECHO) eqn:E2; [|eapply Hgo; [apply gives_ret, says_refl|intros _; cbn; unfold heard_nego; by rewrite E1, E2]].
    apply gives_get. eapply Hgo; [apply (tell_gives st (SetOptions st _)); by intros ? [= <-]|].
    intros _. cbn. unfold heard_nego. by rewrite decide_True, E1, E2.
  - unfold onRecvCmd. destruct (cmd =? kNOP); eapply Hgo; [apply tcp_send_gives|done|apply gives_ret, says_refl|done].
  - unfold onRecvSub, session_of. apply gives_assoc, gives_get, (gives_the _ st); [done|].
    destruct (Z.eqb_spec opt kWINDOW) as [Ew|Ew].
    2: { eapply Hgo; [apply gives_ret, says_refl|]. intros _. cbn. unfold heard_sub. by rewrite (proj2 (Z.eqb_neq _ _)). }
    specialize (Hfit Ew).
    destruct (drop 3 buff) as [|p0 [|p1 [|p2 [|p3 p]]]] eqn:Ep; try (apply (f_equal length) in Ep; rewrite length_drop in Ep; cbn in Ep; lia).
    do 4 (eapply gives_the; [done|]). eapply Hgo; [apply (tell_gives st (RecvWindowSize st _ _)); by intros ? [= <-]|].
    intros Hd. destruct (Hd _ _ eq_refl Ew) as (rest & E & Hl). rewrite Ep in E. cbn. unfold heard_sub. rewrite decide_True, (proj2 (Z.eqb_eq _ _)) by done.
    destruct data as [|d0 [|d1 [|d2 [|d3 data]]]]; try (cbn in Hl; lia). cbn in E. by injection E as <- <- <- <- _.
Qed.

(** After the loop for a client only its receive buffer is another one. *)
Definition looped (ct : Token) (s s' : telnetd) : Prop :=
  session_to_client_ s' = session_to_client_ s /\ client_to_session_ s' = client_to_session_ s /\ (exists b, clients s' = <[ct := b]> (clients s)) /\
  exists ts, tasks s' = tasks s ++ ts /\ Forall (fun t => session_to_client_ s !! t.1 = Some t.2) ts.

Lemma looped_refl ct b s : clients s !! ct = Some b -> looped ct s s.
Proof. intros H. split_and!; try done; [exists b; by rewrite insert_id|exists []; by rewrite app_nil_r]. Qed.

Lemma looped_step ct b s s1 s' : near s s1 -> looped ct (set_clients (<[ct := b]> (clients s1)) s1) s' -> looped ct s s'.
Proof.
  intros (H1 & H2 & H3 & ts & H4 & H5) (G1 & G2 & (b' & G3) & ts' & G4 & G5). cbn in *. split_and!; try congruence.
  - exists b'. by rewrite G3, insert_insert_eq, H3.
  - exists (ts ++ ts'). rewrite G4, H4, app_assoc. split; [done|]. apply Forall_app. split; [done|]. by rewrite H1 in G5.
Qed.

Lemma loop_stream ct st r fuel : forall buff us s, Forall unit_ok us -> buff ++ r = encode us -> clients s !! ct = Some buff -> (length buff <= fuel)%nat ->
  client_to_session_ s !! ct = Some st -> is_Some (session_to_client_ s !! st) ->
  gives (received_loop terminal getOptions fuel ct) s (fun _ s' => looped ct s s' /\ exists buff' us1 us2, us = us1 ++ us2 /\ clients s' !! ct = Some buff' /\
    buff' ++ r = encode us2 /\ (r = [] -> buff' = []) /\ heard_log st (log s') = heard_log st (log s) ++ heard_units us1).
Proof.
  induction fuel as [|fuel IH]; intros buff us s Hok E Hb Hlen Hc Hs; cbn [received_loop]; apply gives_get, (gives_the _ buff); try done.
  - destruct buff; [|cbn in Hlen; lia]. apply gives_ret. split; [by eapply looped_refl|]. exists [], [], us. split_and!; try done. by rewrite app_nil_r.
  - destruct buff as [|x0 buff0]; [apply gives_ret; split; [by eapply looped_refl|]; exists [], [], us; split_and!; try done; by rewrite app_nil_r|].
    set (buff := x0 :: buff0) in *. destruct (next_item_ok buff r us Hok) as [[-> Hr]|(x & size & us1 & us2 & -> & Hsz & -> & E2 & Hh & Hd)]; [done|done| |].
    + apply gives_ret. split; [by eapply looped_refl|]. exists buff, [], us. split_and!; try done. by rewrite app_nil_r.
    + eapply gives_bind; [apply (handle_gives ct st); [done|done|]|].
      { apply data_fits. exact Hd. }
      intros _ s1 [Hn Hsay]. specialize (Hsay Hd). destruct Hsay as [_ Hlog]. apply gives_modify. apply Forall_app in Hok as [_ Hok].
      pose proof Hn as (N1 & N2 & N3 & _). eapply gives_mono.
      * apply (IH (drop size buff) us2); [done|done|cbn; by rewrite lookup_insert_eq| |cbn; by rewrite N2|cbn; by rewrite N1].
        rewrite length_drop. cbn [length] in *. unfold buff in *. cbn [length] in *. lia.
      * intros [] s' [Hloop (buff' & us3 & us4 & -> & H1 & H2 & H3 & H4)]. split; [by eapply looped_step|].
        exists buff', (us1 ++ us3), us4. split; [by rewrite app_assoc|]. split; [done|]. split; [done|]. split; [done|].
        rewrite H4. cbn. rewrite Hlog, Hh. unfold heard_units. by rewrite map_app, concat_app, app_assoc.
Qed.

(** *** Arbitrary bytes *)

(** Every window size in the bytes is complete. *)
Fixpoint windows_ok (fuel : nat) (buff : list Z) : bool :=
  match fuel with
  | O => true
  | S fuel' =>
      match buff, next_item buff with
      | _ :: _, Some (Sub opt _, size) => (negb (opt =? kWINDOW) || bool_decide (7 <= length buff)%nat) && windows_ok fuel' (drop size buff)
      | _ :: _, Some (_, size) => windows_ok fuel' (drop size buff)
      | _, _ => true
      end
  end.

Lemma next_item_size buff x size : buff <> [] -> next_item buff = Some (x, size) -> (0 < size)%nat.
Proof.
  intros Hne. unfold next_item. case_bool_decide; [by intros [= <- <-]|]. case_bool_decide; [done|].
  destruct (buff !! 1%nat) as [cmd|]; [|done]. cbn [mbind option_bind]. fold (is_nego cmd). destruct (is_nego cmd).
  - case_bool_decide; [done|]. destruct (buff !! 2%nat); [|done]. cbn. intros [= <- <-]. lia.
  - destruct (cmd =? kSB); [|intros [= <- <-]; lia]. case_bool_decide; [done|]. destruct (buff !! 2%nat); [|done]. cbn.
    case_bool_decide; [done|]. case_bool_decide; [done|]. intros [= <- <-]. lia.
Qed.

Lemma loop_any ct st fuel : forall buff s, windows_ok fuel buff = true -> clients s !! ct = Some buff -> (length buff <= fuel)%nat ->
  client_to_session_ s !! ct = Some st -> is_Some (session_to_client_ s !! st) ->
  gives (received_loop terminal getOptions fuel ct) s (fun _ s' => looped ct s s').
Proof.
  induction fuel as [|fuel IH]; intros buff s Hw Hb Hlen Hc Hs; cbn [received_loop]; apply gives_get, (gives_the _ buff); try done.
  - destruct buff; [|cbn in Hlen; lia]. apply gives_ret. by eapply looped_refl.
  - destruct buff as [|x0 buff0]; [apply gives_ret; by eapply looped_refl|]. set (buff := x0 :: buff0) in *. cbn [windows_ok] in Hw. unfold buff in Hw at 1. fold buff in Hw.
    destruct (next_item buff) as [[x size]|] eqn:E; [|apply gives_ret; by eapply looped_refl].
    assert (item_fits buff x /\ windows_ok fuel (drop size buff) = true) as [Hfit Hw'].
    { destruct x as [| | |opt data]; [by split..|]. apply andb_true_iff in Hw as [Hw ->]. split; [|done]. cbn. intros ->. by case_bool_decide. }
    assert (0 < size)%nat as Hsz by (by apply (next_item_size buff x)).
    eapply gives_bind; [by apply (handle_gives ct st)|]. intros [] s1 [Hn _]. apply gives_modify. pose proof Hn as (N1 & N2 & N3 & _).
    eapply gives_mono; [apply (IH (drop size buff)); [done|cbn; by rewrite lookup_insert_eq| |cbn; by rewrite N2|cbn; by rewrite N1]|].
    + rewrite length_drop. unfold buff in *. cbn [length] in *. lia.
    + intros [] s' H. by eapply looped_step.
Qed.

(** The only thing that goes wrong: a sub-negotiation of a window size whose data is
    one byte, at the end of what came. *)
Definition ends_short (l : list Z) : Prop := exists l' x y, l = l' ++ [kIAC; kSB; kWINDOW; x; kIAC; y].

Lemma sub_short buff data size : next_item buff = Some (Sub kWINDOW data, size) -> (length buff < 7)%nat ->
  exists x y, buff = [kIAC; kSB; kWINDOW; x; kIAC; y].
Proof.
  unfold next_item. case_bool_decide as H1; [done|]. case_bool_decide; [done|].
  destruct (buff !! 1%nat) as [cmd|] eqn:E1; [|done]. cbn [mbind option_bind]. fold (is_nego cmd). destruct (is_nego cmd).
  { case_bool_decide; [done|]. by destruct (buff !! 2%nat). }
  destruct (Z.eqb_spec cmd kSB) as [->|]; [|done]. case_bool_decide as H6; [done|]. destruct (buff !! 2%nat) as [opt|] eqn:E2; [|done]. cbn [mbind option_bind].
  intros E Hl. destruct buff as [|a [|b [|c [|d [|e [|f [|g buff]]]]]]]; cbn [length] in *; try lia.
  injection E1 as ->. injection E2 as ->. cbn [find_iac] in H1. destruct (Z.eqb_spec a kIAC) as [->|]; [|lia].
  revert E. cbn [drop find_iac]. destruct (Z.eqb_spec e kIAC) as [->|]; [|].
  - case_bool_decide; [done|]. case_bool_decide; [done|]. intros [= -> _ _]. by exists d, f.
  - destruct (f =? kIAC); repeat (case_bool_decide; [done|]); cbn in *; lia.
Qed.

Lemma windows_end fuel : forall buff, windows_ok fuel buff = false -> ends_short buff.
Proof.
  induction fuel as [|fuel IH]; intros buff; [done|]. cbn [windows_ok]. destruct buff as [|x0 buff0]; [done|]. set (buff := x0 :: buff0).
  assert (forall n, windows_ok fuel (drop n buff) = false -> ends_short buff) as Hdrop.
  { intros n Hn. destruct (IH _ Hn) as (l' & x & y & E). exists (take n buff ++ l'), x, y. by rewrite <- app_assoc, <- E, take_drop. }
  destruct (next_item buff) as [[x size]|] eqn:E; [|done]. destruct x as [| | |opt data]; try apply Hdrop.
  rewrite andb_false_iff, orb_false_iff, negb_false_iff, bool_decide_eq_false, Z.eqb_eq. intros [[-> Hl]|H]; [|by eapply Hdrop].
  destruct (sub_short buff data size E ltac:(lia)) as (x & y & ->). by exists [], x, y.
Qed.

Lemma sub_stuck ct st x y data s : client_to_session_ s !! ct = Some st ->
  handle terminal getOptions ct [kIAC; kSB; kWINDOW; x; kIAC; y] (Sub kWINDOW data) s = Stuck.
Proof. intros Hc. unfold handle, onRecvSub, session_of, mbind, M_bind, get. by rewrite Hc. Qed.

Lemma loop_short ct st fuel : forall buff s, windows_ok fuel buff = false -> clients s !! ct = Some buff ->
  client_to_session_ s !! ct = Some st -> is_Some (session_to_client_ s !! st) -> received_loop terminal getOptions fuel ct s = Stuck.
Proof.
  induction fuel as [|fuel IH]; intros buff s Hw Hb Hc Hs; [done|]. cbn [received_loop].
  erewrite bind_Ret by done. rewrite Hb. erewrite bind_Ret by done. destruct buff as [|x0 buff0]; [done|]. set (buff := x0 :: buff0) in *.
  cbn [windows_ok] in Hw. unfold buff in Hw at 1. fold buff in Hw. destruct (next_item buff) as [[x size]|] eqn:E; [|done].
  assert (item_fits buff x /\ windows_ok fuel (drop size buff) = false \/ handle terminal getOptions ct buff x s = Stuck) as [[Hfit Hw']|Hstuck].
  { destruct x as [| | |opt data]; try (by left). apply andb_false_iff in Hw as [Hw|Hw].
    - right. apply orb_false_iff in Hw as [Ho Hl]. apply negb_false_iff, Z.eqb_eq in Ho as ->. apply bool_decide_eq_false in Hl.
      destruct (sub_short buff data size E ltac:(lia)) as (x & y & Eb). rewrite Eb. by apply (sub_stuck ct st).
    - destruct (decide (opt = kWINDOW /\ (length buff < 7)%nat)) as [[-> Hl]|Hn].
      + right. destruct (sub_short buff data size E Hl) as (x & y & Eb). rewrite Eb. by apply (sub_stuck ct st).
      + left. split; [|done]. cbn. intros ->. destruct (decide (7 <= length buff)%nat); [done|]. exfalso. apply Hn. split; [done|lia]. }
  - destruct (handle_gives ct st buff x s Hc Hs Hfit) as ([] & s1 & E1 & Hn & _). rewrite (bind_Ret _ _ _ _ _ E1).
    change (received_loop terminal getOptions fuel ct (set_clients (<[ct := drop size buff]> (clients s1)) s1) = Stuck).
    pose proof Hn as (N1 & N2 & N3 & _). apply (IH (drop size buff)); [done|cbn; by rewrite lookup_insert_eq|cbn; by rewrite N2|cbn; by rewrite N1].
  - unfold mbind, M_bind. by rewrite Hstuck.
Qed.

(** *** Which session belongs to which client *)

Record inv (s : telnetd) : Prop := {
  i_maps st ct : session_to_client_ s !! st = Some ct <-> client_to_session_ s !! ct = Some st;
  i_clients ct : is_Some (client_to_session_ s !! ct) <-> is_Some (clients s !! ct);
  i_tasks : Forall (fun t => (forall ct, session_to_client_ s !! t.1 = Some ct -> ct = t.2) /\
                             (forall st, client_to_session_ s !! t.2 = Some st -> st = t.1)) (tasks s) }.

Lemma inv_looped ct s s' : inv s -> is_Some (clients s !! ct) -> looped ct s s' -> inv s'.
Proof.
  intros [] Hct (H1 & H2 & (b & H3) & ts & H4 & H5). split; rewrite ?H1, ?H2, ?H3, ?H4; [done| |].
  - intros ct'. rewrite i_clients0. destruct (decide (ct' = ct)) as [->|Hne]; [rewrite lookup_insert_eq; split; [by eexists|done]|by rewrite lookup_insert_ne].
  - apply Forall_app. split; [done|]. eapply Forall_impl; [exact H5|]. intros t Ht. cbn in *. pose proof (proj1 (i_maps0 _ _) Ht) as Ht'.
    split; [intros ct' ?|intros st' ?]; congruence.
Qed.

Lemma inv_near s s' : inv s -> near s s' -> inv s'.
Proof.
  intros [] (H1 & H2 & H3 & ts & H4 & H5). split; rewrite ?H1, ?H2, ?H3, ?H4; [done|done|]. apply Forall_app. split; [done|].
  eapply Forall_impl; [exact H5|]. intros t Ht. cbn in *. pose proof (proj1 (i_maps0 _ _) Ht) as Ht'. split; [intros ct' ?|intros st' ?]; congruence.
Qed.

(** The TCP server and the terminal give every client and session a token of its own. *)
Definition legal (e : event) (s : telnetd) : Prop :=
  match e with
  | Connected ct st => clients s !! ct = None /\ session_to_client_ s !! st = None /\ Forall (fun t => t.1 <> st /\ t.2 <> ct) (tasks s)
  | _ => True
  end.

Lemma connected_ok ct st s : inv s -> legal (Connected ct st) s -> gives (step terminal getOptions (Connected ct st)) s (fun _ s' => inv s').
Proof.
  intros [Hm Hc Ht] (L1 & L2 & L3). unfold step. apply gives_get. set (s0 := set_clients (<[ct := []]> (clients s)) s).
  assert (client_to_session_ s !! ct = None) as L4.
  { destruct (client_to_session_ s !! ct) eqn:E; [|done]. assert (is_Some (clients s !! ct)) as [? ?] by (apply Hc; rewrite E; by eexists). congruence. }
  apply (gives_modify (fun _ => s0)). unfold onTcpConnected. eapply gives_bind; [by apply (tell_gives st (NewSession st))|].
  intros [] s1 [(N1 & N2 & N3 & ts & N4 & N5) _]. apply gives_modify. set (s2 := set_maps _ _ s1).
  assert (inv s2 /\ is_Some (session_to_client_ s2 !! st)) as [Hi2 Hst2].
  { unfold s2. split; [|cbn; rewrite lookup_insert_eq; by eexists]. split; cbn; rewrite ?N1, ?N2, ?N3, ?N4.
    - intros st' ct'. rewrite !lookup_insert_Some. split; intros [[-> ->]|[H1 H2]]; auto; right; pose proof H2 as H3; apply Hm in H3; (split; [intros <-; congruence|done]).
    - intros ct'. unfold s0. cbn. destruct (decide (ct' = ct)) as [->|Hct]; [rewrite !lookup_insert_eq; split; intros _; by eexists|]. rewrite !lookup_insert_ne by done. apply Hc.
    - apply Forall_app. split.
      + rewrite Forall_forall in Ht, L3 |- *. intros t Hin. destruct (Ht t Hin) as [H1 H2], (L3 t Hin) as [H3 H4]. rewrite !lookup_insert_ne by done. by split.
      + eapply Forall_impl; [exact N5|]. intros t E. change (session_to_client_ s !! t.1 = Some t.2) in E. pose proof (proj1 (Hm _ _) E) as E'.
        change (client_to_session_ s0) with (client_to_session_ s). change (session_to_client_ s0) with (session_to_client_ s). rewrite !lookup_insert_ne by congruence.
        split; [intros ct' ?|intros st' ?]; congruence. }
  assert (forall m (k : () -> MT ()) s3, (forall s4, gives m s4 (fun _ s' => says st [] s4 s')) -> inv s3 /\ is_Some (session_to_client_ s3 !! st) ->
    (forall s4, inv s4 /\ is_Some (session_to_client_ s4 !! st) -> gives (k ()) s4 (fun _ s' => inv s')) -> gives (m ≫= k) s3 (fun _ s' => inv s')) as Hsend.
  { intros m k s3 Hmm [H1 H2] Hk. eapply gives_bind; [apply Hmm|]. intros [] s4 [Hn _]. apply Hk. split; [by eapply inv_near|]. by destruct Hn as (-> & _). }
  clearbody s2. do 5 (apply Hsend; [intros s4; apply tcp_send_gives|done|]; clear s2 Hi2 Hst2; intros s2 [Hi2 Hst2]).
  eapply gives_mono; [apply (tell_gives st (OnBegin st)); by intros ? [= <-]|]. intros [] s' [Hn _]. by eapply inv_near.
Qed.

(** What a client sends is read, unless it ends with a short window size. *)
Lemma received_ok ct bytes s : inv s -> gives (step terminal getOptions (Received ct bytes)) s (fun _ s' => inv s') \/
  step terminal getOptions (Received ct bytes) s = Stuck /\ exists buff, clients s !! ct = Some buff /\ ends_short (buff ++ bytes).
Proof.
  intros Hi. destruct (clients s !! ct) as [buff|] eqn:Eb; [|left; unfold step; apply gives_get; rewrite Eb; by apply gives_ret].
  set (s0 := set_clients (<[ct := buff ++ bytes]> (clients s)) s). assert (clients s0 !! ct = Some (buff ++ bytes)) as Eb0 by apply lookup_insert_eq.
  destruct (proj2 (i_clients _ Hi ct)) as [st Hst]; [by eexists|]. assert (is_Some (session_to_client_ s0 !! st)) as Hs.
  { apply (i_maps _ Hi) in Hst. cbn. by eexists. }
  destruct (windows_ok (length (buff ++ bytes)) (buff ++ bytes)) eqn:Ew; [left|right].
  - unfold step. apply gives_get. rewrite Eb. apply (gives_modify (fun _ => s0)). unfold onTcpReceived.
    apply gives_get, (gives_the _ (buff ++ bytes)); [done|]. eapply gives_mono; [by apply (loop_any ct st _ (buff ++ bytes))|].
    intros [] s' H. apply (inv_looped ct s0); [|by eexists|done]. apply (inv_looped ct s); [done|by eexists|]. split_and!; try done; [by eexists|].
    exists []. by rewrite app_nil_r.
  - split; [|exists buff; split; [done|by eapply windows_end]]. unfold step, mbind, M_bind, get, put. rewrite Eb. fold s0.
    unfold onTcpReceived, mbind, M_bind, get. rewrite Eb0.
    by apply (loop_short ct st _ (buff ++ bytes)).
Qed.

Lemma gone_ok ct s : inv s -> gives (step terminal getOptions (Gone ct)) s (fun _ s' => inv s').
Proof.
  intros Hi. pose proof Hi as [Hm Hc Ht]. unfold step. apply gives_get. destruct (clients s !! ct) as [buff|] eqn:Eb; [|by apply gives_ret].
  destruct (proj2 (Hc ct)) as [st Hst]; [by eexists|]. apply gives_assoc. unfold onTcpDisconnected, session_of.
  apply gives_assoc, gives_get, (gives_the _ st); [done|]. apply gives_assoc, gives_modify. set (s0 := set_maps _ _ s).
  eapply gives_bind; [by apply (tell_gives st (DeleteSession st))|]. intros [] s1 [(N1 & N2 & N3 & ts & N4 & N5) _].
  eexists (), _. split; [done|]. pose proof (proj2 (Hm _ _) Hst) as Hst'. split; cbn; rewrite ?N1, ?N2, ?N3, ?N4; cbn.
  - intros st' ct'. rewrite !lookup_delete_Some, Hm. split; intros [H1 H2]; (split; [|done]); intros <-.
    + rewrite Hst in H2. congruence.
    + apply Hm in H2. rewrite Hst' in H2. congruence.
  - intros ct'. destruct (decide (ct' = ct)) as [->|Hne]; [rewrite !lookup_delete_eq; split; by intros []|by rewrite !lookup_delete_ne].
  - apply Forall_app. split; [eapply Forall_impl; [exact Ht|]|eapply Forall_impl; [exact N5|]]; intros t; cbn.
    + intros [H1 H2]. split; [intros ct' [_ H]%lookup_delete_Some; auto|intros st' [_ H]%lookup_delete_Some; auto].
    + intros [Hne E]%lookup_delete_Some. pose proof (proj1 (Hm _ _) E) as E'.
      split; [intros ct' [_ H]%lookup_delete_Some|intros st' [_ H]%lookup_delete_Some]; congruence.
Qed.

Lemma task_ok s : inv s -> gives (step terminal getOptions Task) s (fun _ s' => inv s').
Proof.
  intros Hi. pose proof Hi as [Hm Hc Ht]. unfold step. apply gives_get. destruct (tasks s) as [|[st ct] rest] eqn:E; [by apply gives_ret|].
  apply Forall_cons in Ht as [[H1 H2] Ht]. cbn in H1, H2. apply (gives_modify (fun _ => set_tasks rest s)). unfold run_task. apply gives_modify, gives_get. cbn.
  assert (forall x l, x !! ct = None -> (forall ct', ct' <> ct -> x !! ct' = clients s !! ct') ->
    inv (mkTelnetd (delete st (session_to_client_ s)) (delete ct (client_to_session_ s)) x rest l)) as Hgo.
  { intros x l Hx1 Hx2. split; cbn.
    - intros st' ct'. rewrite !lookup_delete_Some, Hm. split; intros [H3 H4]; (split; [|done]); intros <-.
      + apply H3. symmetry. by apply H2.
      + apply H3. symmetry. apply H1. by apply Hm.
    - intros ct'. destruct (decide (ct' = ct)) as [->|Hne]; [rewrite lookup_delete_eq, Hx1; done|rewrite lookup_delete_ne, Hx2 by done; apply Hc].
    - eapply Forall_impl; [exact Ht|]. intros t [H3 H4]. split; [intros ct' [_ H]%lookup_delete_Some; auto|intros st' [_ H]%lookup_delete_Some; auto]. }
  destruct (clients s !! ct) eqn:Ec.
  - eexists (), _. split; [done|]. apply (Hgo (delete ct (clients s))); [by rewrite lookup_delete_eq|]. intros ct' Hne. by rewrite lookup_delete_ne.
  - apply gives_ret. apply Hgo; done.
Qed.

Lemma event_ok e s : inv s -> legal e s -> gives (step terminal getOptions e) s (fun _ s' => inv s') \/
  step terminal getOptions e s = Stuck /\ exists ct bytes buff, e = Received ct bytes /\ clients s !! ct = Some buff /\ ends_short (buff ++ bytes).
Proof.
  intros Hi Hl. destruct e as [ct st|ct bytes|ct|]; [left; by apply connected_ok| |left; by apply gone_ok|left; by apply task_ok].
  destruct (received_ok ct bytes s Hi) as [H|(E & buff & H)]; [by left|right]. split; [done|]. by exists ct, bytes, buff.
Qed.

Fixpoint legal_run (l : list event) (s : telnetd) : Prop :=
  match l with [] => True | e :: l' => legal e s /\ forall s', step terminal getOptions e s = Ret ((), s') -> legal_run l' s' end.

(** A client sends a short window size, after a run up to there. *)
Definition short_window (l : list event) (s : telnetd) : Prop :=
  exists l1 ct bytes l2 s1 buff, l = l1 ++ Received ct bytes :: l2 /\ run terminal getOptions l1 s = Ret ((), s1) /\
    clients s1 !! ct = Some buff /\ ends_short (buff ++ bytes).

Lemma legal_run_ok l : forall s, inv s -> legal_run l s ->
  gives (run terminal getOptions l) s (fun _ s' => inv s') \/ run terminal getOptions l s = Stuck /\ short_window l s.
Proof.
  induction l as [|e l IH]; intros s Hi Hl; [left; by apply gives_ret|]. destruct Hl as [He Hl]. cbn [run].
  destruct (event_ok e s Hi He) as [([] & s1 & E & H1)|(E & ct & bytes & buff & -> & Hb & Hw)].
  - destruct (IH s1 H1 (Hl _ E)) as [([] & s' & E' & H')|(E' & l1 & ct & bytes & l2 & s2 & buff & -> & E2 & Hb & Hw)]; [left|right].
    + exists (), s'. split; [|done]. by rewrite (bind_Ret _ _ _ _ _ E).
    + split; [by rewrite (bind_Ret _ _ _ _ _ E)|]. exists (e :: l1), ct, bytes, l2, s2, buff. split; [done|].
      split; [|done]. cbn [run]. by rewrite (bind_Ret _ _ _ _ _ E).
  - right. split; [unfold mbind, M_bind; by rewrite E|]. by exists [], ct, bytes, l, s, buff.
Qed.

Lemma encode_nil us : Forall unit_ok us -> encode us = [] -> us = [].
Proof. destruct us as [|u us]; [done|]. intros _. rewrite encode_cons. by destruct u. Qed.

(** The chunks of a stream, when [buff] of it waits for more. *)
Lemma chunks_stream ct st chunks : forall buff us s, Forall unit_ok us -> buff ++ concat chunks = encode us -> (concat chunks = [] -> buff = []) ->
  clients s !! ct = Some buff -> client_to_session_ s !! ct = Some st -> is_Some (session_to_client_ s !! st) ->
  gives (run terminal getOptions (map (Received ct) chunks)) s (fun _ s' =>
    clients s' !! ct = Some [] /\ heard_log st (log s') = heard_log st (log s) ++ heard_units us).
Proof.
  induction chunks as [|c chunks IH]; intros buff us s Hok E Hnil Hb Hc Hs; cbn [map run].
  - rewrite (Hnil eq_refl) in *. rewrite (encode_nil us) by done. apply gives_ret. by rewrite app_nil_r.
  - unfold step at 1. apply gives_assoc, gives_get. rewrite Hb. apply gives_assoc.
    set (s0 := set_clients (<[ct := buff ++ c]> (clients s)) s). assert (clients s0 !! ct = Some (buff ++ c)) as Hb0 by apply lookup_insert_eq.
    apply (gives_modify (fun _ => s0)). unfold onTcpReceived. apply gives_assoc, gives_get, gives_assoc, (gives_the _ (buff ++ c)); [done|].
    cbn [concat] in E. rewrite app_assoc in E. eapply gives_bind; [by apply (loop_stream ct st (concat chunks) (length (buff ++ c)) (buff ++ c) us s0)|].
    intros [] s1 [(N1 & N2 & _) (buff' & us1 & us2 & -> & H1 & H2 & H3 & H4)]. apply Forall_app in Hok as [_ Hok].
    eapply gives_mono; [apply (IH buff' us2); [done..|by rewrite N2|by rewrite N1]|].
    intros [] s' [G1 G2]. split; [done|]. rewrite G2, H4. unfold heard_units. by rewrite map_app, concat_app, app_assoc.
Qed.

Lemma inv_new_telnetd : inv new_telnetd.
Proof. split; [intros st ct|intros ct|]; cbn; rewrite ?lookup_empty; [done|by split; intros []|done]. Qed.

End terminal.

(** ** What the service promises *)


(** C29: Clients connect, send and go away, and the terminal, when it is called about a
    session, sends to that session or ends it.  Then no loop runs for ever, and there is
    one thing that goes wrong: a client sends a window size with one byte of data at the
    end of what came, which is read past its end.  Otherwise every call returns, every
    connected client has exactly one session and every session exactly one connected
    client, and a session is valid if and only if it has one.  The tokens of new clients
    and sessions are not in use; the terminal does not address a session that it was not
    called about, as [send] throws for one that has ended. *)
Theorem sessions_stay_matched terminal getOptions l :
  terminal_ok terminal -> legal_run terminal getOptions l new_telnetd ->
  run terminal getOptions l new_telnetd = Stuck /\ short_window terminal getOptions l new_telnetd \/
  exists s, run terminal getOptions l new_telnetd = Ret ((), s) /\
    (forall ct st, client_to_session_ s !! ct = Some st <-> session_to_client_ s !! st = Some ct) /\
    (forall ct, is_Some (clients s !! ct) <-> exists st, client_to_session_ s !! ct = Some st) /\
    (forall st, isValid st s = true <-> exists ct, session_to_client_ s !! st = Some ct /\ is_Some (clients s !! ct)).
Proof.
  intros Ht Hl. destruct (legal_run_ok terminal getOptions Ht l new_telnetd inv_new_telnetd Hl) as [([] & s & E & [Hm Hc _])|H]; [right|by left].
  exists s. split; [done|]. split; [by intros; rewrite Hm|]. split; [intros ct; by rewrite <- Hc|]. intros st. unfold isValid. rewrite bool_decide_eq_true. split.
  - intros [ct H]. exists ct. split; [done|]. apply Hc. eexists. by apply Hm.
  - intros (ct & H & _). by exists ct.
Qed.

(** *** At concrete inputs *)

Definition ct1 : Token := mkToken 1 0.
Definition st1 : Token := mkToken 7 0.

(** A terminal that echoes what is typed, and ends the session at a 4. *)
Definition echo_shell (f : fact) (h : list fact) : list call :=
  match f with RecvString st [4] => [CSend st [66; 121; 101]; CEndSession st] | RecvString st s => [CSend st s] | OnBegin st => [CSend st [35; 32]] | _ => [] end.

Lemma echo_shell_ok : terminal_ok echo_shell.
Proof.
  intros f h. destruct f as [st|st|st|st str|st o|st w h'|ct b|ct]; cbn; try constructor; try done.
  destruct str as [|x [|y str]]; [by repeat constructor| |].
  - destruct x as [|[p|p|]|p]; try (by repeat constructor). destruct p as [p|p|]; try (by repeat constructor). destruct p; by repeat constructor.
  - destruct x as [|[p|p|]|p]; try (by repeat constructor). destruct p as [p|p|]; try (by repeat constructor). destruct p; by repeat constructor.
Qed.

Definition no_options (st : Token) (h : list fact) : Z := 0.

Definition login : list unit_ := [UNego kDO kECHO; USub kWINDOW [0; 80; 0; 24]; UChar 108; UChar 115; UCmd kNOP; UChar 13].

Definition a_client : telnetd := match run echo_shell no_options [Connected ct1 st1] new_telnetd with Ret (_, s) => s | _ => new_telnetd end.

Lemma connect_legal : legal_run echo_shell no_options [Connected ct1 st1] new_telnetd.
Proof. split; [|done]. split; [done|]. split; [done|]. apply Forall_nil_2. Qed.


Lemma visit_legal : legal_run echo_shell no_options [Connected ct1 st1; Received ct1 [104; 105]; Received ct1 [4]; Task] new_telnetd.
Proof. split; [split; [done|]; split; [done|]; apply Forall_nil_2|]. by repeat split. Qed.

Lemma sessions_stay_matched_witness : exists s,
  run echo_shell no_options [Connected ct1 st1; Received ct1 [104; 105]; Received ct1 [4]; Task] new_telnetd = Ret ((), s) /\
    (forall ct st, client_to_session_ s !! ct = Some st <-> session_to_client_ s !! st = Some ct) /\
    (forall ct, is_Some (clients s !! ct) <-> exists st, client_to_session_ s !! ct = Some st) /\
    (forall st, isValid st s = true <-> exists ct, session_to_client_ s !! st = Some ct /\ is_Some (clients s !! ct)).
Proof.
  destruct (sessions_stay_matched echo_shell no_options [Connected ct1 st1; Received ct1 [104; 105]; Received ct1 [4]; Task]
    echo_shell_ok visit_legal) as [[E _]|H]; [vm_compute in E; discriminate E|exact H].
Defined.

(** ** What does not work *)

Definition sent_bytes (l : list Z) : option (list heard) :=
  match run echo_shell no_options [Connected ct1 st1; Received ct1 l] new_telnetd with Ret (_, s) => Some (heard_log st1 (log s)) | _ => None end.

(** A 255 that is typed comes twice and is lost. *)
Example escaped_255_is_lost : sent_bytes [97; 255; 255; 98] = Some [Char 97; Char 98].
Proof. reflexivity. Qed.

(** A window that is 255 wide is read as one of 255 columns and 65280 rows, and the rest of
    it as text. *)
Example window_255_is_misread : sent_bytes [255; 250; 31; 0; 255; 255; 0; 24; 255; 240] = Some [Window 255 65280; Char 0; Char 24].
Proof. reflexivity. Qed.

(** An empty sub-negotiation takes what follows it with it, up to the next command. *)
Example empty_sub_swallows : sent_bytes [255; 250; 32; 255; 240; 108; 115; 13; 255; 241; 120] = Some [Char 120].
Proof. reflexivity. Qed.

(** A window size with one byte of data is read past the end of what came. *)
Example short_window_reads_past_end :
  run echo_shell no_options [Connected ct1 st1; Received ct1 [255; 250; 31; 0; 255; 240]] new_telnetd = Stuck.
Proof. reflexivity. Qed.

(** [send] for a session that has ended throws, as [at] comes before the test. *)
Example send_to_ended_session_throws : send st1 [97] new_telnetd = Stuck /\ send token_null [97] new_telnetd = Stuck.
Proof. by split. Qed.
